(* ===== verification/_CoqProject ===== *)
-Q . S2P
Prelude.v
CArray.v
Mbuf.v
Message.v
Parser.v
StrCmp.v
RedisReq.v
RedisReqSafe.v
RedisReqResume.v
RedisReqRoundtrip.v
RedisRsp.v
RedisRspSafe.v
Memcache.v
MemcacheSafe.v
HashKit.v
HashFacts.v
Md5.v
HashAlgo.v
Pool.v
PoolFacts.v
PoolFloat.v
PoolSafe.v
PoolRoute.v
PoolEject.v
State.v
Rbtree.v
RbtreeFacts.v
RbtreeDelete.v
RbtreeOk.v
World.v
MsgStore.v
RedisMsg.v
McMsg.v
ReqCore.v
ConnServer.v
Request.v
Response.v
MsgIO.v
Core.v
Frame.v
StoreFacts.v
Sample.v
Auth.v
Pairing.v
ReplyOrder.v
Faults.v
SendFacts.v
FragFacts.v
Split.v
CString.v
Conf.v
ConfParse.v
ConfPure.v
ConfSafe.v
ConfTree.v
ConfLoad.v
ConfSample.v
ConfServer.v
ConfInv.v
ConfCheck.v
ConfCreate.v
PoolInit.v
PoolReady.v
Stats.v
StatsShape.v
StatsThreads.v
Json.v
StatsJson.v
Startup.v
Listeners.v
Queue.v
SQueue.v
Events.v
EventEpoll.v
EventKqueue.v
EventPorts.v
EventBackends.v
Master.v
Lifecycle.v
Options.v
