(* ===== verification/Prelude.v ===== *)
(** * wx-cache-proxy: a verification

    wx-cache-proxy is a fork of twemproxy: a proxy that speaks the redis and
    the memcache protocols to its clients and spreads their keys over a pool
    of servers.  A client's bytes are received into fixed size buffers
    (nc_mbuf), parsed incrementally into messages (proto/nc_redis.c,
    proto/nc_memcache.c over struct msg of nc_message), the keys of a message
    are hashed (hashkit/) and a server of the pool is picked for each
    (nc_server.c, hashkit/nc_ketama.c and its siblings).  A request waits in
    the queues of its client and of its server (nc_request.c), a multi-key
    request is split into one for each server and the answers are put together;
    responses are parsed, linked with the oldest request and sent in the order
    of the requests (nc_response.c).  Connections report to one event loop
    (nc_core.c, event/); timeouts are in a red-black tree; a second thread adds
    up and serves the statistics (nc_stats.c).  A YAML file (nc_conf.c) says which
    pools there are; a master process keeps the workers (nc_core.c, nc_signal.c).
    The C sources are under src/src.

    ** Files

    Shared:
    - Prelude: machine integers, blocks of memory, decimal numbers, the
      tactics and the lemmas all files share.
    - State: the monad of the parts that work on shared structures, with
      faults, and the rules to run it; Frame: what a computation leaves alone.
    - CString: nc_string, the number functions of nc_util.c and the
      signal-safe printf.

    Data structures:
    - CArray: nc_array.  Element pointers are byte offsets; the allocator is
      an argument.
    - Mbuf: nc_mbuf.  A buffer is its chunk of bytes with the pos, last and
      end markers as offsets; the free list, the queues and mbuf_split.
    - Queue, SQueue: the two linked queues of nc_queue.h on their pointers,
      which refine the lists the other files have for them.
    - Rbtree, RbtreeFacts, RbtreeDelete, RbtreeOk: nc_rbtree on its pointers;
      it refines a list sorted by key.

    Parsers:
    - Message: the message types of nc_message.h.
    - Parser: the fields of struct msg the parsers work on ([regs]), the loop
      [for (p = r->pos; p < b->last; p++) switch (state)] all four parsers are
      written around, and the interface [ProtoParser]: what a parser promises
      about one iteration.  Safety, termination and resumption are proved once
      against the interface.
    - StrCmp: the str4cmp .. str12cmp macros of nc_proto.h.
    - RedisReq, RedisRsp, Memcache: redis_parse_req, redis_parse_rsp,
      memcache_parse_req and memcache_parse_rsp, one definition per state of
      the source's switch, with the command tables.
    - RedisReqSafe, RedisReqResume, RedisRspSafe, MemcacheSafe: the instances
      of [ProtoParser] and the safety and resumption theorems.
    - RedisReqRoundtrip: the RESP encoding of commands and its parse.

    Pools and hashes:
    - HashKit, Md5, HashAlgo: the twelve hash functions and the table that
      selects one; HashFacts: their reference definitions (Md5 has RFC 1321's).
    - Pool: struct server_pool, the three distributions and the operations of
      nc_server.c that eject servers and route keys; PoolFacts: the continuum
      they build; PoolFloat: the rounding of ketama's single precision
      arithmetic; PoolSafe: the pool's invariant; PoolRoute: the theorems;
      PoolEject: what ejecting a server does to the routing, and for how long.
    - PoolInit, PoolReady: the pools made from the configuration.

    The engine:
    - World: the shared store (messages, connections, pools, the free lists, the
      timeout tree) and [Env], which answers the system calls.
    - MsgStore, RedisMsg, McMsg, ReqCore, ConnServer, Request, Response, MsgIO,
      Core: nc_message.c, the message side of the two protocols (splitting,
      replies, authentication), nc_request.c, nc_connection.c, nc_client.c, the
      connection side of nc_server.c, nc_response.c, receiving and sending, and
      the listener and event handlers of nc_proxy.c and nc_core.c.
    - StoreFacts, Auth, Pairing, Faults, SendFacts, FragFacts, Split: the
      theorems on it; ReplyOrder: runs of a client connection as a step system; Sample: a small proxy for the examples.
    - Startup, Listeners: opening and closing the listeners and the connections
      made ahead; Lifecycle: the order in which a context is made and released.
    - Events: the interface of the event back ends, a class of operations and a
      class of what they promise; EventEpoll, EventKqueue, EventPorts: the three
      instances and their loops; EventBackends: what the calls of the engine
      leave in each of the three kernels.

    Around it:
    - Conf, ConfParse: struct conf, the directives and the parse of the file over
      the events of libyaml, the checks, conf_create; ConfPure, ConfSafe,
      ConfTree, ConfLoad, ConfServer, ConfInv, ConfCheck, ConfCreate: the theorems;
      ConfSample: a machine to run it on.
    - Stats: nc_stats.c; StatsShape, StatsThreads: its two threads as a step
      relation; Json, StatsJson: the response of the statistics port.
    - Master: the master process and its workers, a step for every assignment
      and every result of fork and wait, signals, the trace configuration
      and the level of the log; Options: the command line and the main program.

    ** How the code is read

    Integers are [Z], reduced by [u32], [u64], ... wherever the C operation can
    leave its type; a signed int that overflows wraps.  A pointer into a block
    is an offset, and a read or write outside the block is an explicit failure
    ([None], or [Fault] in a parser), so a theorem that excludes it states
    memory safety.  A pointer to a message, a connection or a tree node is an
    address of a store; a message that was put is gone from the store, so using it
    is a failure, and so is linking an element that is already in the queue.
    Addresses are not given out twice.  malloc and realloc, qsort(3),
    random(3), the clock, the sockets, libyaml, getaddrinfo, fork and the kernel's
    event interfaces are arguments; where a theorem needs something of them it
    says so ([qsort_ok], [EpollLaws], ...).  Single precision arithmetic is the
    IEEE one of the Standard Library's SpecFloat.  ASSERT, NOT_REACHED and
    log_debug expand to nothing in the shipped configuration, so what is asserted
    is a hypothesis, never a guard.  The target is little endian and 64-bit, with
    signed char, and the engine runs on the epoll back end.  The calls that
    count events for the statistics are left out of the engine; Stats has them.
    The flags the two threads of the statistics share are volatile in the source
    and are read and written in program order here.

    Loops that are not structural have fuel, and running out of it is a failure,
    so the theorems that exclude failures show that the fuel is enough.  A
    parser has one unit per byte not yet parsed, plus one, because every iteration
    moves the pointer forward; the memcache parsers also step back a byte when
    they change state, and get three (requests) or four (responses) units a byte.
    The binary search of ketama has one unit per point, the word loops of the
    hashes one per byte.  core_timeout has one per node of the tree plus one,
    sending and receiving one per message, connections of a server are closed
    with one per connection plus one, the loops over the configuration one
    per event, token or document left plus one, the JSON reader the length of the
    text plus one, and the loops over linked queues the number of elements.
    event_wait has one per call of the kernel, as only interrupted calls are
    repeated.

    ** What is proved

    - Parsers: on every input each parser returns, reads only the data
      received and the chunk around it, and its result means what its callers
      rely on; parsing a message as it arrives gives the message one parse of
      all of it gives; the encoding of every redis command is accepted with
      the command's type and exactly its keys; the word-wise comparisons
      compare bytes.
    - Data structures: the array, the linked queues and the red-black tree refine
      lists, the tree one sorted by key; splitting a message keeps its bytes.
    - Engine: a response is linked with the oldest request of its connection and
      over all runs a client gets the responses in the order of its requests; a
      client that has
      not authenticated reaches no server; what is written to a socket is the
      bytes of the messages in order, whatever parts the kernel takes; MGET and
      DEL are split into one request for each server with exactly its keys.
    - Event back ends: whatever the engine calls, epoll, kqueue and event ports
      are told of every connection what its flags say; the
      registrations of the engine are those of the epoll back end; kqueue never
      calls back for a connection that was closed; event ports forget none.
    - Pools: an update writes inside the continuum and builds exactly the
      points of the live servers; every key is routed to a live server; any
      sequence of updates, failures and recoveries keeps the invariant; the
      failure that reaches the limit keeps the server off the ring until its
      retry time, and in a ketama pool of 2 to 24 servers of weight 1 moves only
      its own keys (with other numbers rounding changes the points of the
      others); ketama's search finds the owner on the ring; hash tags group
      keys.
    - Hashes: MD5 is RFC 1321's, written down apart from the code; the table driven CRCs are the bit-wise ones;
      Jenkins, Murmur and Hsieh equal their byte-wise references whatever the
      alignment; all are functions of the key alone with 32-bit values.
    - Configuration: the event driven parse is the recursive interpretation of the
      document; on a file of one document without NUL in its scalars, and with
      memory available, conf_create ends without a fault, returns a
      configuration exactly if the checks pass, and its pools are ready: from it
      server_pool_init makes pools that route every key.
    - Statistics: no count is lost, whatever the order of the two threads' steps,
      and every count arrives; the response fits its buffer and reads back as
      the metrics.
    - Processes: all listeners are opened or none; the master has the pids of its
      workers whatever happens to them, but for one it has just forked; an accepted command line leaves every number in
      its range.
    - Behaviour that looks unintended is stated as it is (Faults, PoolRoute,
      HashFacts, EventKqueue, Master, Startup): among others a fragment table that is
      too short when a server is ejected, fragments that are not counted as done,
      a log record that reads through NULL, a respawned worker that takes the
      others down, an array of changes that is overrun, a limit on clients that
      wraps around.

    ** What is not modelled

    The text of the log, conf_dump and the printed descriptions, which only
    report; daemonizing and the pid file; nc_time.c and nc_timer.c; cJSON
    and the etcd client, libraries kept in the tree, with the timer that calls
    them; event_loop_stats, which calls the aggregator in a loop; the macros
    of nc_queue.h that nothing uses.  The composition of a context is only
    modelled as the order of its parts, as the parts have states of their own.

    The pool's invariant ([pool_ok]) bounds the total weight by 2^24 and, for
    ketama, the number of servers by 2^14: within these bounds PoolFloat shows
    that the points fit the slots allocated; the code itself checks neither. *)

From Stdlib Require Export ZArith Lia Bool.
From Stdlib Require String Ascii.
Export String.StringSyntax Ascii.AsciiSyntax.
From stdpp Require Export base list option numbers.

Global Open Scope Z_scope.

(** * Status codes (nc_core.h) *)

Definition NC_OK : Z := 0.
Definition NC_ERROR : Z := -1.
Definition NC_EAGAIN : Z := -2.
Definition NC_ENOMEM : Z := -3.

(** errno values of Linux that the sources name. *)
Definition EINVAL : Z := 22.
Definition EHOSTDOWN : Z := 112.
Definition ECONNREFUSED : Z := 111.
Definition ETIMEDOUT : Z := 110.

(** * Machine integers

    A [w]-bit unsigned integer is a [Z] kept reduced modulo [2^w] by [wrap];
    every C operation that can leave the range is followed by a [wrap]. *)

Definition wrap (w z : Z) : Z := z mod 2 ^ w.
Definition u8 (z : Z) : Z := wrap 8 z.
Definition u16 (z : Z) : Z := wrap 16 z.
Definition u32 (z : Z) : Z := wrap 32 z.
Definition u64 (z : Z) : Z := wrap 64 z.

(** Two's complement conversion to a signed [w]-bit integer. *)
Definition swrap (w z : Z) : Z := (z + 2 ^ (w - 1)) mod 2 ^ w - 2 ^ (w - 1).
Definition s32 (z : Z) : Z := swrap 32 z.

(** A byte read through [char *] (signed on x86) and promoted. *)
Definition schar (b : Z) : Z := swrap 8 b.

Definition is_u8 (b : Z) : Prop := 0 <= b < 256.
Definition is_u32 (z : Z) : Prop := 0 <= z < 2 ^ 32.

Declare Scope cint_scope.
Delimit Scope cint_scope with cint.
Notation "x '+u' y" := (u32 (x + y)) (at level 50, left associativity) : cint_scope.
Notation "x '-u' y" := (u32 (x - y)) (at level 50, left associativity) : cint_scope.
Notation "x '*u' y" := (u32 (x * y)) (at level 40, left associativity) : cint_scope.
Notation "x '<<u' k" := (u32 (Z.shiftl x k)) (at level 45, left associativity) : cint_scope.
Notation "x '>>u' k" := (Z.shiftr x k) (at level 45, left associativity) : cint_scope.
Notation "x '^u' y" := (Z.lxor x y) (at level 50, left associativity) : cint_scope.

(** * Bytes and characters *)

Definition CR : Z := 13.
Definition LF : Z := 10.
Definition SP : Z := 32.
Definition CRLF_LEN : Z := 2.

(** [isdigit] and [islower] of the C locale on an unsigned char. *)
Definition isdigit (ch : Z) : bool := (48 <=? ch) && (ch <=? 57).
Definition islower (ch : Z) : bool := (97 <=? ch) && (ch <=? 122).

(** String literals are written as Coq strings and read as byte lists. *)
Fixpoint bytes_of (s : String.string) : list Z :=
  match s with
  | String.EmptyString => []
  | String.String a s' => Z.of_N (Ascii.N_of_ascii a) :: bytes_of s'
  end.

Arguments bytes_of s%_string_scope.

(** * Memory blocks

    A block is a list of bytes; a pointer into it is an offset.  Reading
    outside the block yields [None]. *)

Definition rd {A} (l : list A) (i : Z) : option A :=
  if (0 <=? i) then l !! Z.to_nat i else None.

(** The bytes of [l] from offset [i] (included) to [j] (excluded). *)
Definition slice {A} (l : list A) (i j : Z) : list A :=
  take (Z.to_nat (j - i)) (drop (Z.to_nat i) l).

(** [memcpy] of [src] to offset [i]. *)
Definition blit {A} (l : list A) (i : Z) (src : list A) : list A :=
  take (Z.to_nat i) l ++ src ++ drop (Z.to_nat i + length src) l.

Definition zlen {A} (l : list A) : Z := Z.of_nat (length l).

(** * Decimal numbers *)

(** The digits of an unsigned 32-bit integer, as %u prints them. *)
Fixpoint dec_digits (fuel : nat) (n : Z) : list Z :=
  match fuel with
  | O => []
  | S fuel' => if n <? 10 then [48 + n] else dec_digits fuel' (n / 10) ++ [48 + n mod 10]
  end.
Definition dec (n : Z) : list Z := dec_digits 10 n.

(** * Tactics *)

(** Case analysis on the boolean comparisons of a goal, with [lia] closing
    the impossible branches. *)
Ltac zcase :=
  repeat match goal with
  | |- context [Z.ltb ?a ?b] => destruct (Z.ltb_spec a b); try lia
  | |- context [Z.leb ?a ?b] => destruct (Z.leb_spec a b); try lia
  | |- context [Z.eqb ?a ?b] => destruct (Z.eqb_spec a b); try lia
  end.

Ltac zcase_in H :=
  repeat match type of H with
  | context [Z.ltb ?a ?b] => destruct (Z.ltb_spec a b); try lia
  | context [Z.leb ?a ?b] => destruct (Z.leb_spec a b); try lia
  | context [Z.eqb ?a ?b] => destruct (Z.eqb_spec a b); try lia
  end.

(** Turn boolean hypotheses into propositions. *)
Ltac b2p :=
  repeat match goal with
  | H : _ && _ = true |- _ => apply andb_true_iff in H as [? ?]
  | H : _ || _ = false |- _ => apply orb_false_iff in H as [? ?]
  | H : negb _ = true |- _ => apply negb_true_iff in H
  | H : negb _ = false |- _ => apply negb_false_iff in H
  | H : Z.ltb _ _ = true |- _ => apply Z.ltb_lt in H
  | H : Z.ltb _ _ = false |- _ => apply Z.ltb_ge in H
  | H : Z.leb _ _ = true |- _ => apply Z.leb_le in H
  | H : Z.leb _ _ = false |- _ => apply Z.leb_gt in H
  | H : Z.eqb _ _ = true |- _ => apply Z.eqb_eq in H
  | H : Z.eqb _ _ = false |- _ => apply Z.eqb_neq in H
  end.

(** Destruct the innermost [match] or [if] scrutinee of the goal. *)
Ltac dmatch :=
  match goal with
  | |- context [match ?x with _ => _ end] =>
      lazymatch x with context [match _ with _ => _ end] => fail | _ => idtac end;
      let E := fresh "E" in destruct x eqn:E
  end.

Ltac dmatch_in H :=
  match type of H with
  | context [match ?x with _ => _ end] =>
      lazymatch x with context [match _ with _ => _ end] => fail | _ => idtac end;
      let E := fresh "E" in destruct x eqn:E
  end.

Create HintDb cint.
Create Rewrite HintDb cint.

(** * Lemmas on machine integers *)

Lemma wrap_range w z : 0 <= w -> 0 <= wrap w z < 2 ^ w.
Proof. intros. apply Z.mod_pos_bound. lia. Qed.

Lemma wrap_small w z : 0 <= z < 2 ^ w -> wrap w z = z.
Proof. apply Z.mod_small. Qed.

Lemma wrap_wrap w z : 0 <= w -> wrap w (wrap w z) = wrap w z.
Proof. intros. apply wrap_small, wrap_range; lia. Qed.

Lemma u32_range z : is_u32 (u32 z).
Proof. apply wrap_range. lia. Qed.

Lemma u32_small z : is_u32 z -> u32 z = z.
Proof. apply wrap_small. Qed.

Lemma u32_u32 z : u32 (u32 z) = u32 z.
Proof. apply wrap_wrap. lia. Qed.

(** Bits of a wrapped value. *)
Lemma wrap_testbit w z i :
  0 <= w -> 0 <= i -> Z.testbit (wrap w z) i = (i <? w) && Z.testbit z i.
Proof.
  intros. unfold wrap. destruct (Z.ltb_spec i w).
  - rewrite Z.mod_pow2_bits_low by lia. done.
  - rewrite Z.mod_pow2_bits_high by lia. done.
Qed.

Lemma range_testbit w z i :
  0 <= w -> 0 <= z < 2 ^ w -> w <= i -> Z.testbit z i = false.
Proof.
  intros. rewrite <- (wrap_small w z) by lia.
  rewrite wrap_testbit by lia. destruct (Z.ltb_spec i w); [lia|done].
Qed.

Lemma testbit_range w z :
  0 <= w -> (forall i, w <= i -> Z.testbit z i = false) -> 0 <= z -> 0 <= z < 2 ^ w.
Proof.
  intros Hw Hb Hz. enough (z = wrap w z) as -> by (apply wrap_range; lia).
  apply Z.bits_inj'. intros i Hi. rewrite wrap_testbit by lia.
  destruct (Z.ltb_spec i w); [done|]. apply Hb; lia.
Qed.

Lemma lxor_range w x y :
  0 <= w -> 0 <= x < 2 ^ w -> 0 <= y < 2 ^ w -> 0 <= Z.lxor x y < 2 ^ w.
Proof.
  intros. apply testbit_range; [lia| |apply Z.lxor_nonneg; lia].
  intros i Hi. rewrite Z.lxor_spec, !(range_testbit w) by lia. done.
Qed.

Lemma land_range w x y :
  0 <= w -> 0 <= x < 2 ^ w -> 0 <= y -> 0 <= Z.land x y < 2 ^ w.
Proof.
  intros. apply testbit_range; [lia| |apply Z.land_nonneg; lia].
  intros i Hi. rewrite Z.land_spec, (range_testbit w x) by lia. done.
Qed.

Lemma lor_range w x y :
  0 <= w -> 0 <= x < 2 ^ w -> 0 <= y < 2 ^ w -> 0 <= Z.lor x y < 2 ^ w.
Proof.
  intros. apply testbit_range; [lia| |apply Z.lor_nonneg; lia].
  intros i Hi. rewrite Z.lor_spec, !(range_testbit w) by lia. done.
Qed.

Lemma shiftr_range w x k :
  0 <= w -> 0 <= k -> 0 <= x < 2 ^ w -> 0 <= Z.shiftr x k < 2 ^ w.
Proof.
  intros. apply testbit_range; [lia| |apply Z.shiftr_nonneg; lia].
  intros i Hi. rewrite Z.shiftr_spec, (range_testbit w x) by lia. done.
Qed.

Lemma u32_lxor x y : u32 (Z.lxor x y) = Z.lxor (u32 x) (u32 y).
Proof.
  apply Z.bits_inj'. intros i Hi. unfold u32.
  rewrite wrap_testbit, !Z.lxor_spec, !wrap_testbit by lia.
  by destruct (i <? 32).
Qed.

Lemma u32_add_l x y : u32 (u32 x + y) = u32 (x + y).
Proof. unfold u32, wrap. apply Zplus_mod_idemp_l. Qed.
Lemma u32_add_r x y : u32 (x + u32 y) = u32 (x + y).
Proof. unfold u32, wrap. apply Zplus_mod_idemp_r. Qed.
Lemma u32_mul_l x y : u32 (u32 x * y) = u32 (x * y).
Proof. unfold u32, wrap. apply Zmult_mod_idemp_l. Qed.
Lemma u32_mul_r x y : u32 (x * u32 y) = u32 (x * y).
Proof. unfold u32, wrap. apply Zmult_mod_idemp_r. Qed.

(** Narrowing a wider machine word. *)
Lemma u32_u64 z : u32 (u64 z) = u32 z.
Proof.
  apply Z.bits_inj'. intros i Hi. unfold u32, u64. rewrite !wrap_testbit by lia.
  destruct (Z.ltb_spec i 32), (Z.ltb_spec i 64); lia || done.
Qed.

#[export] Hint Resolve u32_range : cint.
#[export] Hint Rewrite u32_u32 u32_add_l u32_add_r u32_mul_l u32_mul_r u32_u64 : cint.

(** * Lemmas on memory blocks *)

Lemma rd_Some_range {A} (l : list A) i x : rd l i = Some x -> 0 <= i < zlen l.
Proof.
  unfold rd, zlen. destruct (Z.leb_spec 0 i); [|done].
  intros ?%lookup_lt_Some. lia.
Qed.

Lemma rd_is_Some {A} (l : list A) i : 0 <= i < zlen l -> is_Some (rd l i).
Proof.
  unfold rd, zlen. intros. destruct (Z.leb_spec 0 i); [|lia].
  apply lookup_lt_is_Some_2. lia.
Qed.

Lemma rd_app_l {A} (l k : list A) i : i < zlen l -> rd (l ++ k) i = rd l i.
Proof.
  unfold rd, zlen. intros. destruct (Z.leb_spec 0 i); [|done].
  apply lookup_app_l. lia.
Qed.

Lemma rd_app_r {A} (l k : list A) i : zlen l <= i -> rd (l ++ k) i = rd k (i - zlen l).
Proof.
  unfold rd, zlen. intros. destruct (Z.leb_spec 0 i); [|lia].
  destruct (Z.leb_spec 0 (i - Z.of_nat (length l))); [|lia].
  rewrite lookup_app_r by lia. f_equal. lia.
Qed.

Lemma zlen_app {A} (l k : list A) : zlen (l ++ k) = zlen l + zlen k.
Proof. unfold zlen. rewrite length_app. lia. Qed.

Lemma zlen_cons {A} (x : A) l : zlen (x :: l) = 1 + zlen l.
Proof. unfold zlen. simpl. lia. Qed.

Lemma zlen_nonneg {A} (l : list A) : 0 <= zlen l.
Proof. unfold zlen. lia. Qed.

Lemma blit_app {A} (a l : list A) i src :
  zlen a = i -> blit (a ++ l) i src = (a ++ src) ++ drop (length src) l.
Proof.
  unfold zlen, blit. intros <-. rewrite Nat2Z.id, take_app_length, <- drop_drop, drop_app_length.
  by rewrite app_assoc.
Qed.

Lemma length_blit {A} (l : list A) i src :
  0 <= i -> i + zlen src <= zlen l -> length (blit l i src) = length l.
Proof.
  unfold blit, zlen. intros. rewrite !length_app, length_take, length_drop. lia.
Qed.

Lemma rd_blit_before {A} (l : list A) i src j :
  0 <= i <= zlen l -> j < i -> rd (blit l i src) j = rd l j.
Proof.
  unfold rd, blit, zlen. intros. destruct (Z.leb_spec 0 j); [|done].
  rewrite lookup_app_l by (rewrite length_take; lia).
  apply lookup_take_lt. lia.
Qed.

Lemma slice_blit {A} (l : list A) i src :
  0 <= i <= zlen l -> slice (blit l i src) i (i + zlen src) = src.
Proof.
  unfold slice, blit, zlen. intros.
  rewrite drop_app_length' by (rewrite length_take; lia).
  apply take_app_length'. lia.
Qed.

Lemma slice_app_split {A} (l : list A) i j k :
  0 <= i <= j -> j <= k -> slice l i j ++ slice l j k = slice l i k.
Proof.
  unfold slice. intros.
  replace (Z.to_nat (k - i)) with (Z.to_nat (j - i) + Z.to_nat (k - j))%nat by lia.
  replace (Z.to_nat j) with (Z.to_nat i + Z.to_nat (j - i))%nat by lia.
  rewrite <- drop_drop. apply take_take_drop.
Qed.

(** * Lemmas on decimal numbers *)

Lemma dec_length n : (length (dec n) <= 10)%nat.
Proof.
  unfold dec. generalize 10%nat. intros f. revert n.
  induction f as [|f IH]; intros n; simpl; [lia|]. destruct (n <? 10); simpl; [lia|].
  rewrite length_app. simpl. specialize (IH (n / 10)). lia.
Qed.

Lemma dec_nonempty n : dec n <> [].
Proof.
  unfold dec. change (dec_digits 10 n) with (if n <? 10 then [48 + n] else dec_digits 9 (n / 10) ++ [48 + n mod 10]).
  destruct (n <? 10); [done|]. by destruct (dec_digits 9 (n / 10)).
Qed.

Lemma dec_isdigit n : 0 <= n -> Forall (fun ch => isdigit ch = true) (dec n).
Proof.
  unfold dec. generalize 10%nat. intros f. revert n.
  induction f as [|f IH]; intros n Hn; simpl; [constructor|].
  assert (Hd : forall d, 0 <= d < 10 -> isdigit (48 + d) = true) by (intros; unfold isdigit; zcase).
  destruct (Z.ltb_spec n 10); [constructor; [apply Hd; lia|constructor]|].
  apply Forall_app. split; [apply IH; Z.div_mod_to_equations; lia|].
  constructor; [|constructor]. apply Hd. Z.div_mod_to_equations. lia.
Qed.

(** Reading the digits back on 32 bits gives the number. *)
Lemma dec_value n :
  0 <= n < 2 ^ 32 -> fold_left (fun x ch => u32 (x * 10 + (ch - 48))) (dec n) 0 = n.
Proof.
  unfold dec. intros Hn. assert (Hf : n < 10 ^ Z.of_nat 10) by (change (10 ^ Z.of_nat 10) with 10000000000; lia).
  revert n Hn Hf. generalize 10%nat. intros f.
  induction f as [|f IH]; intros n Hn Hf; [change (10 ^ Z.of_nat 0) with 1 in Hf; simpl; lia|].
  cbn [dec_digits]. destruct (Z.ltb_spec n 10); [simpl; rewrite u32_small; unfold is_u32; lia|].
  rewrite fold_left_app, IH.
  - simpl. rewrite u32_small by (unfold is_u32; Z.div_mod_to_equations; lia). Z.div_mod_to_equations. lia.
  - Z.div_mod_to_equations. lia.
  - rewrite Nat2Z.inj_succ, Z.pow_succ_r in Hf by lia. apply Z.div_lt_upper_bound; lia.
Qed.
