(* ===== verification/CArray.v ===== *)
(** The growable array of nc_array.[ch].

    The element storage is a list of slots ([None] where no element was
    written yet), an element pointer is its byte offset from [a->elem], and
    the allocator is an argument: [ok n] tells whether an allocation of [n]
    bytes succeeds.  ASSERT is compiled out in this configuration
    (config.h leaves HAVE_ASSERT_PANIC and HAVE_ASSERT_LOG undefined), so the
    asserted conditions appear as hypotheses of the theorems, not as guards. *)

From S2P Require Import Prelude.

Section Array.
Context {A : Type}.

Record array := mk_array {
  nelem : Z;                 (* uint32_t *)
  elem : list (option A);    (* slots behind a->elem *)
  size : Z;                  (* size_t, element size *)
  nalloc : Z                 (* uint32_t *)
}.

Definition array_null : array := mk_array 0 [] 0 0.

(** [array_set]: the array over a caller supplied block of [slots]. *)
Definition array_set (slots : list (option A)) (size nalloc : Z) : array :=
  mk_array 0 slots size nalloc.

Definition array_n (a : array) : Z := nelem a.

Variable ok : Z -> bool.

(** malloc of [n] elements: [n * size] is computed in size_t. *)
Definition array_create (n size : Z) : option array :=
  if ok (u64 (n * size))
  then Some (mk_array 0 (replicate (Z.to_nat n) None) size n)
  else None.

(** Status and the array after the call. *)
Definition array_init (a : array) (n size : Z) : Z * array :=
  if ok (u64 (n * size))
  then (NC_OK, mk_array 0 (replicate (Z.to_nat n) None) size n)
  else (NC_ENOMEM, a).

(** [array_deinit] frees the storage and keeps the counters. *)
Definition array_deinit (a : array) : array :=
  mk_array (nelem a) [] (size a) (nalloc a).

(** Byte offset to index; the offset is truncated to 32 bits first. *)
Definition array_idx (a : array) (ptr : Z) : Z :=
  u32 ptr / u32 (size a).

Definition array_push (a : array) : option (Z * array) :=
  let take_slot a := Some (size a * nelem a,
      mk_array (u32 (nelem a + 1)) (elem a) (size a) (nalloc a)) in
  if nelem a =? nalloc a then
    let sz := u64 (size a * nalloc a) in
    if ok (u64 (2 * sz)) then
      take_slot (mk_array (nelem a)
                   (elem a ++ replicate (Z.to_nat (nalloc a)) None)
                   (size a) (u32 (nalloc a * 2)))
    else None
  else take_slot a.

Definition array_pop (a : array) : Z * array :=
  let n := u32 (nelem a - 1) in
  (size a * n, mk_array n (elem a) (size a) (nalloc a)).

Definition array_get (a : array) (idx : Z) : Z := size a * idx.

Definition array_top (a : array) : Z := array_get a (u32 (nelem a - 1)).

Definition array_swap (a b : array) : array * array := (b, a).

(** The caller's reads and writes through an element pointer. *)
Definition array_load (a : array) (ptr : Z) : option A :=
  mjoin (elem a !! Z.to_nat (ptr / size a)).
Definition array_store (a : array) (ptr : Z) (v : A) : array :=
  mk_array (nelem a) (<[Z.to_nat (ptr / size a) := Some v]> (elem a))
           (size a) (nalloc a).

(** [array_sort] leaves the work to qsort(3), a library function. *)
Definition array_sort (qsort : list (option A) -> list (option A)) (a : array) : array :=
  mk_array (nelem a)
    (qsort (take (Z.to_nat (nelem a)) (elem a)) ++ drop (Z.to_nat (nelem a)) (elem a))
    (size a) (nalloc a).

(** [array_each]: [func] receives the element pointer and threads the
    state behind [data]; the first status other than NC_OK ends the loop. *)
Fixpoint array_each_loop {S} (func : Z -> S -> Z * S) (a : array)
    (i : Z) (n : nat) (data : S) : Z * S :=
  match n with
  | O => (NC_OK, data)
  | Datatypes.S n' =>
      let '(status, data') := func (array_get a i) data in
      if status =? NC_OK then array_each_loop func a (i + 1) n' data'
      else (status, data')
  end.

Definition array_each {S} (func : Z -> S -> Z * S) (a : array) (data : S) : Z * S :=
  array_each_loop func a 0 (Z.to_nat (array_n a)) data.

(** ** Well-formedness and the abstract sequence *)

Record array_wf (a : array) : Prop := {
  wf_size : 0 < size a < 2 ^ 32;
  wf_nelem : 0 <= nelem a <= nalloc a;
  wf_nalloc : 0 < nalloc a < 2 ^ 31;
  wf_slots : zlen (elem a) = nalloc a
}.

Definition contents (a : array) : list (option A) := take (Z.to_nat (nelem a)) (elem a).

Lemma array_create_wf n sz a :
  0 < n < 2 ^ 31 -> 0 < sz < 2 ^ 32 ->
  array_create n sz = Some a -> array_wf a /\ contents a = [].
Proof.
  unfold array_create, contents. intros Hn Hs Ha. destruct (ok _); [|done].
  simplify_eq. split; [|done]. constructor; simpl; try lia.
  unfold zlen. rewrite length_replicate. lia.
Qed.

Lemma div_size (a : array) i : array_wf a -> (size a * i) / size a = i.
Proof. intros []. rewrite Z.mul_comm. apply Z.div_mul. lia. Qed.

Lemma contents_length a : array_wf a -> zlen (contents a) = nelem a.
Proof. intros []. unfold contents, zlen in *. rewrite length_take. lia. Qed.

(** Growing keeps what the array holds. *)
Lemma array_push_wf a p a' :
  array_wf a -> nalloc a < 2 ^ 30 -> array_push a = Some (p, a') -> array_wf a'.
Proof.
  unfold array_push. intros [Hs Hn Ha Hl] Hb Hp.
  destruct (Z.eqb_spec (nelem a) (nalloc a)) as [Heq|Hne].
  - destruct (ok _); [|done]. simplify_eq. constructor; simpl; try done.
    + rewrite !u32_small; unfold is_u32; lia.
    + rewrite u32_small; unfold is_u32; lia.
    + rewrite zlen_app, Hl. unfold zlen. rewrite length_replicate, u32_small;
        unfold is_u32; lia.
  - simplify_eq. constructor; simpl; try done.
    rewrite u32_small; unfold is_u32; lia.
Qed.

(** The slot handed out lies just after the contents, which are kept. *)
Lemma array_push_slot a p a' :
  array_wf a -> nalloc a < 2 ^ 30 -> array_push a = Some (p, a') ->
  p = size a * nelem a /\ size a' = size a /\ nelem a' = nelem a + 1 /\
  take (Z.to_nat (nelem a)) (elem a') = contents a.
Proof.
  unfold array_push, contents. intros [Hs Hn Ha Hl] Hb Hp.
  assert (u32 (nelem a + 1) = nelem a + 1) by (apply u32_small; unfold is_u32; lia).
  destruct (Z.eqb_spec (nelem a) (nalloc a)) as [Heq|Hne].
  - destruct (ok _); [|done]. simplify_eq/=. rewrite take_app_le by (unfold zlen in Hl; lia). done.
  - simplify_eq/=. done.
Qed.

End Array.

Arguments array : clear implicits.


(** Pushing a slot and storing through the pointer appends the element. *)
Lemma array_push_store_spec {A} (ok : Z -> bool) (a a' : array A) (p : Z) (v : A) :
  array_wf a -> nalloc a < 2 ^ 30 -> array_push ok a = Some (p, a') ->
  array_wf (array_store a' p v) /\
  contents (array_store a' p v) = contents a ++ [Some v] /\
  array_idx a' p = u32 (size a * nelem a) / size a.
Proof.
  intros Hwf Hb Hp. pose proof (array_push_wf _ _ _ _ Hwf Hb Hp) as Hwf'.
  destruct (array_push_slot _ _ _ _ Hwf Hb Hp) as (-> & Hs & Hn & Ht).
  assert (Hidx : size a * nelem a / size a' = nelem a) by (rewrite Hs; by apply div_size).
  split; [|split].
  - destruct Hwf'. constructor; simpl; try done. unfold zlen in *. by rewrite length_insert.
  - unfold contents at 1. unfold array_store; simpl. rewrite Hidx, Hn.
    destruct Hwf as [? Hne ? ?], Hwf' as [? ? ? Hl'].
    replace (Z.to_nat (nelem a + 1)) with (S (Z.to_nat (nelem a))) by lia.
    rewrite (take_S_r _ _ (Some v)).
    2:{ apply list_lookup_insert_eq. unfold zlen in Hl'. lia. }
    by rewrite take_insert_ge, Ht by lia.
  - unfold array_idx. rewrite Hs. destruct Hwf. f_equal. apply u32_small. unfold is_u32. lia.
Qed.

(** ** The array as a list

    Callers push a slot and store through the pointer, read through the
    pointer array_get returns, or pop and read.  Each of these is an operation
    on a list. *)

Inductive array_op (A : Type) := OpPush (v : A) | OpPop | OpGet (i : Z) | OpSet (i : Z) (v : A).
Arguments OpPush {A} v.
Arguments OpPop {A}.
Arguments OpGet {A} i.
Arguments OpSet {A} i v.

(** The value read, if any, and the array; [None] if the allocator fails. *)
Definition array_do {A} (ok : Z -> bool) (a : array A) (op : array_op A) : option (option A * array A) :=
  match op with
  | OpPush v =>
      match array_push ok a with
      | None => None
      | Some (p, a') => Some (None, array_store a' p v)
      end
  | OpPop => let '(p, a') := array_pop a in Some (array_load a p, a')
  | OpGet i => Some (array_load a (array_get a i), a)
  | OpSet i v => Some (None, array_store a (array_get a i) v)
  end.

Definition list_do {A} (l : list A) (op : array_op A) : option A * list A :=
  match op with
  | OpPush v => (None, l ++ [v])
  | OpPop => (list.last l, take (length l - 1) l)
  | OpGet i => (l !! Z.to_nat i, l)
  | OpSet i v => (None, <[Z.to_nat i := v]> l)
  end.

(** What the asserts of nc_array.c demand. *)
Definition op_ok {A} (l : list A) (op : array_op A) : Prop :=
  match op with OpPush _ => True | OpPop => l <> [] | OpGet i | OpSet i _ => 0 <= i < zlen l end.

Definition array_rel {A} (a : array A) (l : list A) : Prop := array_wf a /\ contents a = map Some l.

(** The elements of an array. *)
Definition stored {A} (a : array A) : list A := omap id (contents a).

Lemma stored_rel {A} (a : array A) l : array_rel a l -> stored a = l.
Proof. intros [_ E]. unfold stored. rewrite E. clear. induction l as [|x l IH]; [done|]. cbn. f_equal. exact IH. Qed.

Lemma array_rel_length {A} (a : array A) l : array_rel a l -> nelem a = zlen l.
Proof. intros [Hwf Hc]. rewrite <- (contents_length _ Hwf), Hc. unfold zlen. by rewrite length_map. Qed.

Lemma array_load_get {A} (a : array A) l i :
  array_rel a l -> 0 <= i < zlen l -> array_load a (array_get a i) = l !! Z.to_nat i.
Proof.
  intros HR Hi. pose proof (array_rel_length _ _ HR) as Hn. destruct HR as [Hwf Hc]. pose proof Hwf as [Hs ? ? ?].
  unfold array_load, array_get. rewrite div_size by done. unfold contents in Hc.
  assert (He : elem a !! Z.to_nat i = map Some l !! Z.to_nat i) by (rewrite <- Hc, lookup_take_lt; [done|lia]).
  rewrite He, list_lookup_fmap. by destruct (l !! Z.to_nat i).
Qed.

(** C35. The array refines a list: from related states, every push, pop, read
    and overwrite that respects the array's asserts, and for which memory is
    available, returns what the list operation returns and leaves related
    states; in particular growing (doubling) loses nothing. *)
Theorem array_refines_list {A} (ok : Z -> bool) (a : array A) (l : list A) (op : array_op A) :
  array_rel a l -> op_ok l op -> nalloc a < 2 ^ 30 -> (forall n, ok n = true) ->
  exists v a', array_do ok a op = Some (v, a') /\ v = fst (list_do l op) /\ array_rel a' (snd (list_do l op)).
Proof.
  intros HR Hop Hb Hok. pose proof (array_rel_length _ _ HR) as Hn. pose proof HR as [Hwf Hc]. pose proof Hwf as [Hs Hne Hna Hel].
  destruct op as [v| |i|i v]; simpl in *.
  - destruct (array_push ok a) as [[p a']|] eqn:E.
    + destruct (array_push_store_spec ok a a' p v Hwf Hb E) as (Hwf' & Hc' & _).
      do 2 eexists. split_and!; [done|done|]. split; [done|]. by rewrite Hc', Hc, map_app.
    + unfold array_push in E. destruct (_ =? _); [|done]. by rewrite Hok in E.
  - assert (Hl : 0 < zlen l) by (destruct l; [done|]; rewrite zlen_cons; pose proof (zlen_nonneg l); lia).
    rewrite u32_small by (unfold is_u32; lia). do 2 eexists. split_and!; [done| |].
    + fold (array_get a (nelem a - 1)). rewrite (array_load_get a l) by (done || lia).
      rewrite last_lookup. f_equal. unfold zlen in *. lia.
    + split; [constructor; simpl; try done; lia|]. unfold contents in *. simpl.
      replace (Z.to_nat (nelem a - 1)) with (Nat.min (length l - 1) (Z.to_nat (nelem a))) by (unfold zlen in *; lia).
      rewrite <- take_take, Hc. apply firstn_map.
  - do 2 eexists. split_and!; [done| |done]. by apply array_load_get.
  - do 2 eexists. split_and!; [done|done|]. unfold array_store, array_get. rewrite div_size by done. split.
    + constructor; simpl; try done. unfold zlen in *. by rewrite length_insert.
    + unfold contents in *. simpl. rewrite take_insert_lt, Hc by lia. symmetry. apply (list_fmap_insert Some).
Qed.

Lemma array_refines_list_witness :
  exists v a', array_do (fun _ => true) (mk_array 1 [Some 7] 16 1) (OpPush 8) = Some (v, a') /\ v = None /\ array_rel a' [7; 8].
Proof. apply (array_refines_list (fun _ => true) (mk_array 1 [Some 7] 16 1) [7] (OpPush 8)); try done. Defined.
