(* ===== verification/Mbuf.v ===== *)
(** Message buffers and their free list (nc_mbuf.[ch]).

    A chunk is the block returned by malloc: [mbuf_offset] data bytes
    followed by the struct mbuf header.  [mb_mem] holds the whole chunk, so
    that word loads that run past the data area are still inside the block;
    [mb_pos], [mb_last] and [mb_end] are offsets from [mbuf->start].  A
    [mhdr] queue is the list of its mbufs, linked by identity [mb_id]. *)

From S2P Require Import Prelude.

Definition MBUF_MAGIC : Z := 3735928559. (* 0xdeadbeef *)
Definition MBUF_MIN_SIZE : Z := 512.
Definition MBUF_MAX_SIZE : Z := 16777216.
Definition MBUF_SIZE : Z := 16384.
Definition MBUF_HSIZE : Z := 48.         (* sizeof(struct mbuf), LP64 *)

Record mbuf := mk_mbuf {
  mb_id : positive;          (* address of the header *)
  mb_magic : Z;
  mb_mem : list Z;           (* the chunk: data area, then header *)
  mb_pos : Z;                (* read marker *)
  mb_last : Z;               (* write marker *)
  mb_end : Z                 (* end of the data area *)
}.

Definition set_pos (b : mbuf) (p : Z) : mbuf :=
  mk_mbuf (mb_id b) (mb_magic b) (mb_mem b) p (mb_last b) (mb_end b).
Definition set_last (b : mbuf) (l : Z) : mbuf :=
  mk_mbuf (mb_id b) (mb_magic b) (mb_mem b) (mb_pos b) l (mb_end b).
Definition set_mem (b : mbuf) (m : list Z) : mbuf :=
  mk_mbuf (mb_id b) (mb_magic b) m (mb_pos b) (mb_last b) (mb_end b).

(** A load of one byte of the chunk; [None] is an access outside it. *)
Definition deref (b : mbuf) (p : Z) : option Z := rd (mb_mem b) p.

Definition mbuf_empty (b : mbuf) : bool := mb_pos b =? mb_last b.
Definition mbuf_full (b : mbuf) : bool := mb_last b =? mb_end b.

Definition mbuf_rewind (b : mbuf) : mbuf := set_last (set_pos b 0) 0.
Definition mbuf_length (b : mbuf) : Z := u32 (mb_last b - mb_pos b).
Definition mbuf_size (b : mbuf) : Z := u32 (mb_end b - mb_last b).

(** ** The free list *)

Record mbuf_pool := mk_pool {
  nfree_mbufq : Z;
  free_mbufq : list mbuf;
  mbuf_chunk_size : Z;
  mbuf_offset : Z
}.

Definition mbuf_init (chunk_size : Z) : mbuf_pool :=
  mk_pool 0 [] chunk_size (chunk_size - MBUF_HSIZE).

Definition mbuf_data_size (g : mbuf_pool) : Z := mbuf_offset g.

(** malloc's answer: nothing, or a fresh chunk (address and its
    uninitialised contents). *)
Definition malloc_answer := option (positive * list Z).

Definition _mbuf_get (m : malloc_answer) (g : mbuf_pool) : option (mbuf * mbuf_pool) :=
  match free_mbufq g with
  | b :: q => Some (b, mk_pool (u32 (nfree_mbufq g - 1)) q (mbuf_chunk_size g) (mbuf_offset g))
  | [] =>
      match m with
      | None => None
      | Some (id, chunk) => Some (mk_mbuf id MBUF_MAGIC chunk 0 0 0, g)
      end
  end.

Definition mbuf_get (m : malloc_answer) (g : mbuf_pool) : option (mbuf * mbuf_pool) :=
  match _mbuf_get m g with
  | None => None
  | Some (b, g') =>
      Some (mk_mbuf (mb_id b) (mb_magic b) (mb_mem b) 0 0 (mbuf_offset g'), g')
  end.

Definition mbuf_put (b : mbuf) (g : mbuf_pool) : mbuf_pool :=
  mk_pool (u32 (nfree_mbufq g + 1)) (b :: free_mbufq g) (mbuf_chunk_size g) (mbuf_offset g).

(** [mbuf_deinit] walks the queue, freeing every chunk. *)
Fixpoint mbuf_deinit_loop (q : list mbuf) (nfree : Z) : Z :=
  match q with
  | [] => nfree
  | _ :: q' => mbuf_deinit_loop q' (u32 (nfree - 1))
  end.

Definition mbuf_deinit (g : mbuf_pool) : mbuf_pool :=
  mk_pool (mbuf_deinit_loop (free_mbufq g) (nfree_mbufq g)) []
          (mbuf_chunk_size g) (mbuf_offset g).

(** ** Queues of mbufs *)

Abbreviation mhdr := (list mbuf).

Definition mbuf_insert (h : mhdr) (b : mbuf) : mhdr := h ++ [b].

(** STAILQ_REMOVE: unlink the mbuf with the given address. *)
Fixpoint mbuf_remove (h : mhdr) (b : mbuf) : mhdr :=
  match h with
  | [] => []
  | x :: h' => if Pos.eqb (mb_id x) (mb_id b) then h' else x :: mbuf_remove h' b
  end.

(** Overwrite the queued mbuf that has [b]'s address. *)
Definition mbuf_update (h : mhdr) (b : mbuf) : mhdr :=
  map (fun x => if Pos.eqb (mb_id x) (mb_id b) then b else x) h.

(** [mbuf_copy]: append the bytes [src] found at the source pointer. *)
Definition mbuf_copy (b : mbuf) (src : list Z) : mbuf :=
  if zlen src =? 0 then b
  else set_last (set_mem b (blit (mb_mem b) (mb_last b) src)) (mb_last b + zlen src).

(** [mbuf_split h pos cb]: the last mbuf of [h] keeps its data before
    [pos], a new mbuf receives (after what [cb] writes) the data from [pos]
    on.  The result is the queue, the new mbuf and the pool. *)
Definition mbuf_split (m : malloc_answer) (g : mbuf_pool) (h : mhdr) (pos : Z)
    (cb : option (mbuf -> mbuf)) : option (mhdr * mbuf * mbuf_pool) :=
  match list.last h with
  | None => None
  | Some b =>
      match mbuf_get m g with
      | None => None
      | Some (n, g') =>
          let n1 := match cb with Some f => f n | None => n end in
          let n2 := mbuf_copy n1 (slice (mb_mem b) pos (mb_last b)) in
          Some (mbuf_update h (set_last b pos), n2, g')
      end
  end.

(** ** Well-formedness and abstract contents *)

Record mbuf_wf (b : mbuf) : Prop := {
  wf_pos : 0 <= mb_pos b <= mb_last b;
  wf_last : mb_last b <= mb_end b;
  wf_end : 0 < mb_end b < 2 ^ 32;
  wf_mem : zlen (mb_mem b) = mb_end b + MBUF_HSIZE;
  wf_magic : mb_magic b = MBUF_MAGIC
}.

(** The same as a boolean, for evaluation on concrete buffers. *)
Definition mbuf_wfb (b : mbuf) : bool :=
  (0 <=? mb_pos b) && (mb_pos b <=? mb_last b) && (mb_last b <=? mb_end b) &&
  (0 <? mb_end b) && (mb_end b <? 2 ^ 32) &&
  (zlen (mb_mem b) =? mb_end b + MBUF_HSIZE) && (mb_magic b =? MBUF_MAGIC).

Lemma mbuf_wfb_wf b : mbuf_wfb b = true -> mbuf_wf b.
Proof. unfold mbuf_wfb. intros H. b2p. by constructor. Qed.

(** A fresh buffer of capacity [cap] into which [data] was received. *)
Definition buf_of (id : positive) (cap : Z) (data : list Z) : mbuf :=
  mk_mbuf id MBUF_MAGIC (data ++ replicate (Z.to_nat (cap + MBUF_HSIZE - zlen data)) 0)
    0 (zlen data) cap.

(** The unread bytes of an mbuf, and of a queue. *)
Definition mdata (b : mbuf) : list Z := slice (mb_mem b) (mb_pos b) (mb_last b).
Definition mhdr_data (h : mhdr) : list Z := concat (map mdata h).

Record pool_wf (g : mbuf_pool) : Prop := {
  pw_count : nfree_mbufq g = zlen (free_mbufq g);
  pw_bound : zlen (free_mbufq g) < 2 ^ 32 - 1;
  pw_offset : 0 < mbuf_offset g < 2 ^ 32;
  pw_chunk : mbuf_chunk_size g = mbuf_offset g + MBUF_HSIZE;
  pw_free : Forall (fun b => mb_magic b = MBUF_MAGIC /\
                   zlen (mb_mem b) = mbuf_chunk_size g) (free_mbufq g)
}.

(** malloc returns chunks of the size asked for. *)
Definition malloc_ok (g : mbuf_pool) (m : malloc_answer) : Prop :=
  match m with Some (_, c) => zlen c = mbuf_chunk_size g | None => True end.

Lemma mbuf_init_wf chunk :
  MBUF_MIN_SIZE <= chunk <= MBUF_MAX_SIZE -> pool_wf (mbuf_init chunk).
Proof.
  unfold MBUF_MIN_SIZE, MBUF_MAX_SIZE. intros.
  constructor; simpl; unfold MBUF_HSIZE; try lia; done.
Qed.

Lemma mbuf_get_wf m g b g' :
  pool_wf g -> malloc_ok g m -> mbuf_get m g = Some (b, g') ->
  mbuf_wf b /\ mdata b = [] /\ mb_end b = mbuf_offset g /\ pool_wf g' /\
  mbuf_offset g' = mbuf_offset g.
Proof.
  intros [Hc Hb Ho Hk Hf] Hm. unfold mbuf_get, _mbuf_get.
  destruct (free_mbufq g) as [|x q] eqn:Eq.
  - destruct m as [[id chunk]|]; [|done]. intros; simplify_eq/=. split_and!; try done.
    + constructor; simpl; try lia; done.
    + constructor; rewrite ?Eq; done.
  - intros; simplify_eq/=. inversion_clear Hf as [|? ? [Hmg Hmem] Hf2].
    rewrite zlen_cons in Hb, Hc. pose proof (zlen_nonneg q). split_and!; try done.
    + constructor; simpl; try lia; done.
    + constructor; simpl; try lia; try done.
      rewrite u32_small by (unfold is_u32; lia). lia.
Qed.

Lemma mbuf_put_wf b g :
  pool_wf g -> zlen (free_mbufq g) < 2 ^ 32 - 2 -> mb_end b = mbuf_offset g -> mbuf_wf b ->
  pool_wf (mbuf_put b g).
Proof.
  intros [Hc Hb Ho Hk Hf] Hlt He [? ? ? Hmem Hmg]. pose proof (zlen_nonneg (free_mbufq g)).
  constructor; simpl; try done.
  - rewrite zlen_cons, u32_small by (unfold is_u32; lia). lia.
  - rewrite zlen_cons. lia.
  - constructor; [|done]. split; [done|lia].
Qed.

(** [mbuf_deinit] frees every chunk and leaves the counter at zero. *)
Lemma mbuf_deinit_loop_count q n :
  zlen q <= n < 2 ^ 32 -> mbuf_deinit_loop q n = n - zlen q.
Proof.
  revert n. induction q as [|b q IH]; intros n Hn; simpl.
  - unfold zlen. simpl. lia.
  - rewrite zlen_cons in *. pose proof (zlen_nonneg q).
    rewrite u32_small by (unfold is_u32; lia). rewrite IH by lia. lia.
Qed.

Lemma mbuf_deinit_zero g : pool_wf g -> nfree_mbufq (mbuf_deinit g) = 0.
Proof.
  intros [Hc Hb _ _ _]. simpl. rewrite mbuf_deinit_loop_count by lia. lia.
Qed.

Lemma mbuf_length_data b : mbuf_wf b -> mbuf_length b = zlen (mdata b).
Proof.
  intros [? ? ? Hm ?]. unfold mbuf_length, mdata, slice, zlen, MBUF_HSIZE in *.
  rewrite length_take, length_drop, u32_small by (unfold is_u32; lia). lia.
Qed.

Lemma mbuf_copy_wf b src :
  mbuf_wf b -> zlen src <= mb_end b - mb_last b -> mbuf_wf (mbuf_copy b src).
Proof.
  intros [? ? ? Hm ?] Hs. pose proof (zlen_nonneg src). unfold mbuf_copy.
  destruct (Z.eqb_spec (zlen src) 0); [by constructor|].
  constructor; simpl; try lia; try done.
  unfold zlen at 1. rewrite length_blit; [done|lia|unfold MBUF_HSIZE in *; lia].
Qed.

Lemma blit_slice_keep (l : list Z) i src p :
  0 <= p <= i -> i <= zlen l -> slice (blit l i src) p i = slice l p i.
Proof.
  intros. unfold slice, blit, zlen in *.
  rewrite drop_app_le, take_app_le by (rewrite ?length_drop, length_take; lia).
  apply list_eq. intros k.
  destruct (decide (k < Z.to_nat (i - p))%nat).
  - rewrite !lookup_take_lt, !lookup_drop, lookup_take_lt by lia. done.
  - rewrite !lookup_take_ge by lia. done.
Qed.

(** Copying appends the source to the unread bytes. *)
Lemma mbuf_copy_data b src :
  mbuf_wf b -> zlen src <= mb_end b - mb_last b ->
  mdata (mbuf_copy b src) = mdata b ++ src.
Proof.
  intros [? ? ? Hm ?] Hs. pose proof (zlen_nonneg src). unfold mbuf_copy.
  destruct (Z.eqb_spec (zlen src) 0) as [E|E].
  - destruct src; [by rewrite app_nil_r|]. rewrite zlen_cons in E. pose proof (zlen_nonneg src). lia.
  - unfold mdata; simpl. unfold MBUF_HSIZE in *.
    rewrite <- (slice_app_split _ (mb_pos b) (mb_last b)) by lia.
    rewrite slice_blit, blit_slice_keep by lia. done.
Qed.

Lemma mbuf_update_app h b b' :
  mb_id b' = mb_id b -> Forall (fun x => mb_id x <> mb_id b) h ->
  mbuf_update (h ++ [b]) b' = h ++ [b'].
Proof.
  intros Hid Hne. unfold mbuf_update. rewrite map_app. simpl.
  rewrite Hid, Pos.eqb_refl. f_equal. clear -Hne.
  induction Hne as [|x h Hx Hh IH]; simpl; [done|].
  rewrite IH. by destruct (Pos.eqb_spec (mb_id x) (mb_id b)).
Qed.

(** Where the split happens: the parts of the last mbuf. *)
Lemma mbuf_split_parts m g h b p h' n g' :
  pool_wf g -> malloc_ok g m -> mbuf_wf b -> mb_end b = mbuf_offset g ->
  mb_pos b <= p <= mb_last b -> Forall (fun x => mb_id x <> mb_id b) h ->
  mbuf_split m g (h ++ [b]) p None = Some (h', n, g') ->
  h' = h ++ [set_last b p] /\ mbuf_wf (set_last b p) /\ mbuf_wf n /\
  mdata n = slice (mb_mem b) p (mb_last b) /\ mb_end n = mb_end b /\ pool_wf g'.
Proof.
  intros Hg Hm Hb He Hp Hfr. unfold mbuf_split. rewrite last_snoc.
  destruct (mbuf_get m g) as [[x gx]|] eqn:Eg; [|done].
  intros; simplify_eq. destruct (mbuf_get_wf _ _ _ _ Hg Hm Eg) as (Hx & Hdx & Hex & Hg' & Ho).
  pose proof Hb as [? ? ? Hmem ?].
  assert (Hl0 : mb_last x = 0 /\ mb_pos x = 0) by
    (unfold mbuf_get in Eg; destruct (_mbuf_get m g) as [[??]|]; by simplify_eq).
  assert (Hs : zlen (slice (mb_mem b) p (mb_last b)) <= mb_end x - mb_last x).
  { unfold slice, zlen, MBUF_HSIZE in *. rewrite length_take, length_drop. lia. }
  split_and!; try done.
  - by apply mbuf_update_app.
  - constructor; simpl; try lia; done.
  - by apply mbuf_copy_wf.
  - by rewrite mbuf_copy_data, Hdx by done.
  - unfold mbuf_copy. destruct (_ =? 0); simpl; lia.
Qed.

Lemma mhdr_data_app h1 h2 : mhdr_data (h1 ++ h2) = mhdr_data h1 ++ mhdr_data h2.
Proof. unfold mhdr_data. by rewrite map_app, concat_app. Qed.

Lemma mhdr_data_one b : mhdr_data [b] = mdata b.
Proof. unfold mhdr_data. simpl. apply app_nil_r. Qed.

(** Splitting a message at [pos]: the last mbuf of the queue keeps what is
    before [pos], the new mbuf gets what is after it, and no byte of the
    message is lost, duplicated or reordered; both mbufs stay within their
    chunks and the new one comes from a pool that stays well-formed. *)
Theorem mbuf_split_data m g h b p h' n g' :
  pool_wf g -> malloc_ok g m -> mbuf_wf b -> mb_end b = mbuf_offset g ->
  mb_pos b <= p <= mb_last b -> Forall (fun x => mb_id x <> mb_id b) h ->
  mbuf_split m g (h ++ [b]) p None = Some (h', n, g') ->
  mhdr_data h' ++ mdata n = mhdr_data (h ++ [b]) /\ mbuf_wf n /\ Forall mbuf_wf (drop (length h) h') /\ pool_wf g'.
Proof.
  intros Hg Hm Hb He Hp Hfr H. destruct (mbuf_split_parts _ _ _ _ _ _ _ _ Hg Hm Hb He Hp Hfr H) as (-> & Hw & Hn & Hd & _ & Hg').
  pose proof Hb as [? ? ? ? ?]. split_and!; [|done|rewrite drop_app_length; by apply Forall_singleton|done].
  rewrite !mhdr_data_app, !mhdr_data_one, Hd, <- app_assoc. f_equal. unfold mdata. simpl.
  apply slice_app_split; lia.
Qed.

Lemma mbuf_split_data_witness :
  let b := buf_of 1 464 [65; 66; 67; 68] in
  let g := mbuf_init 512 in
  exists h' n g', mbuf_split (Some (2%positive, replicate 512 0)) g [b] 1 None = Some (h', n, g') /\
    mhdr_data h' ++ mdata n = mhdr_data [b] /\ mbuf_wf n.
Proof.
  intros b g. destruct (mbuf_split (Some (2%positive, replicate 512 0)) g [b] 1 None) as [[[h' n] g']|] eqn:E; [|done].
  exists h', n, g'. split; [done|].
  destruct (mbuf_split_data (Some (2%positive, replicate 512 0)) g [] b 1 h' n g') as (H1 & H2 & _); try done.
Defined.
