(* ===== verification/Message.v ===== *)
(** The message types of struct msg (nc_message.h). *)

From S2P Require Import Prelude CArray Mbuf.

(** The MSG_TYPE_CODEC enumeration, in the order of nc_message.h. *)
Inductive msg_type :=
| MSG_UNKNOWN
| MSG_REQ_MC_GET
| MSG_REQ_MC_GETS
| MSG_REQ_MC_DELETE
| MSG_REQ_MC_CAS
| MSG_REQ_MC_SET
| MSG_REQ_MC_ADD
| MSG_REQ_MC_REPLACE
| MSG_REQ_MC_APPEND
| MSG_REQ_MC_PREPEND
| MSG_REQ_MC_INCR
| MSG_REQ_MC_DECR
| MSG_REQ_MC_TOUCH
| MSG_REQ_MC_QUIT
| MSG_RSP_MC_NUM
| MSG_RSP_MC_STORED
| MSG_RSP_MC_NOT_STORED
| MSG_RSP_MC_EXISTS
| MSG_RSP_MC_NOT_FOUND
| MSG_RSP_MC_END
| MSG_RSP_MC_VALUE
| MSG_RSP_MC_DELETED
| MSG_RSP_MC_TOUCHED
| MSG_RSP_MC_ERROR
| MSG_RSP_MC_CLIENT_ERROR
| MSG_RSP_MC_SERVER_ERROR
| MSG_REQ_REDIS_DEL
| MSG_REQ_REDIS_EXISTS
| MSG_REQ_REDIS_EXPIRE
| MSG_REQ_REDIS_EXPIREAT
| MSG_REQ_REDIS_PEXPIRE
| MSG_REQ_REDIS_PEXPIREAT
| MSG_REQ_REDIS_PERSIST
| MSG_REQ_REDIS_PTTL
| MSG_REQ_REDIS_SORT
| MSG_REQ_REDIS_TTL
| MSG_REQ_REDIS_TYPE
| MSG_REQ_REDIS_APPEND
| MSG_REQ_REDIS_BITCOUNT
| MSG_REQ_REDIS_BITPOS
| MSG_REQ_REDIS_DECR
| MSG_REQ_REDIS_DECRBY
| MSG_REQ_REDIS_DUMP
| MSG_REQ_REDIS_GET
| MSG_REQ_REDIS_GETBIT
| MSG_REQ_REDIS_GETRANGE
| MSG_REQ_REDIS_GETSET
| MSG_REQ_REDIS_INCR
| MSG_REQ_REDIS_INCRBY
| MSG_REQ_REDIS_INCRBYFLOAT
| MSG_REQ_REDIS_MGET
| MSG_REQ_REDIS_MSET
| MSG_REQ_REDIS_PSETEX
| MSG_REQ_REDIS_RESTORE
| MSG_REQ_REDIS_SET
| MSG_REQ_REDIS_SETBIT
| MSG_REQ_REDIS_SETEX
| MSG_REQ_REDIS_SETNX
| MSG_REQ_REDIS_SETRANGE
| MSG_REQ_REDIS_STRLEN
| MSG_REQ_REDIS_HDEL
| MSG_REQ_REDIS_HEXISTS
| MSG_REQ_REDIS_HGET
| MSG_REQ_REDIS_HGETALL
| MSG_REQ_REDIS_HINCRBY
| MSG_REQ_REDIS_HINCRBYFLOAT
| MSG_REQ_REDIS_HKEYS
| MSG_REQ_REDIS_HLEN
| MSG_REQ_REDIS_HMGET
| MSG_REQ_REDIS_HMSET
| MSG_REQ_REDIS_HSET
| MSG_REQ_REDIS_HSETNX
| MSG_REQ_REDIS_HSCAN
| MSG_REQ_REDIS_HVALS
| MSG_REQ_REDIS_LINDEX
| MSG_REQ_REDIS_LINSERT
| MSG_REQ_REDIS_LLEN
| MSG_REQ_REDIS_LPOP
| MSG_REQ_REDIS_LPUSH
| MSG_REQ_REDIS_LPUSHX
| MSG_REQ_REDIS_LRANGE
| MSG_REQ_REDIS_LREM
| MSG_REQ_REDIS_LSET
| MSG_REQ_REDIS_LTRIM
| MSG_REQ_REDIS_PFADD
| MSG_REQ_REDIS_PFCOUNT
| MSG_REQ_REDIS_PFMERGE
| MSG_REQ_REDIS_RPOP
| MSG_REQ_REDIS_RPOPLPUSH
| MSG_REQ_REDIS_RPUSH
| MSG_REQ_REDIS_RPUSHX
| MSG_REQ_REDIS_SADD
| MSG_REQ_REDIS_SCARD
| MSG_REQ_REDIS_SDIFF
| MSG_REQ_REDIS_SDIFFSTORE
| MSG_REQ_REDIS_SINTER
| MSG_REQ_REDIS_SINTERSTORE
| MSG_REQ_REDIS_SISMEMBER
| MSG_REQ_REDIS_SMEMBERS
| MSG_REQ_REDIS_SMOVE
| MSG_REQ_REDIS_SPOP
| MSG_REQ_REDIS_SRANDMEMBER
| MSG_REQ_REDIS_SREM
| MSG_REQ_REDIS_SUNION
| MSG_REQ_REDIS_SUNIONSTORE
| MSG_REQ_REDIS_SSCAN
| MSG_REQ_REDIS_ZADD
| MSG_REQ_REDIS_ZCARD
| MSG_REQ_REDIS_ZCOUNT
| MSG_REQ_REDIS_ZINCRBY
| MSG_REQ_REDIS_ZINTERSTORE
| MSG_REQ_REDIS_ZLEXCOUNT
| MSG_REQ_REDIS_ZRANGE
| MSG_REQ_REDIS_ZRANGEBYLEX
| MSG_REQ_REDIS_ZRANGEBYSCORE
| MSG_REQ_REDIS_ZRANK
| MSG_REQ_REDIS_ZREM
| MSG_REQ_REDIS_ZREMRANGEBYRANK
| MSG_REQ_REDIS_ZREMRANGEBYLEX
| MSG_REQ_REDIS_ZREMRANGEBYSCORE
| MSG_REQ_REDIS_ZREVRANGE
| MSG_REQ_REDIS_ZREVRANGEBYSCORE
| MSG_REQ_REDIS_ZREVRANK
| MSG_REQ_REDIS_ZSCORE
| MSG_REQ_REDIS_ZUNIONSTORE
| MSG_REQ_REDIS_ZSCAN
| MSG_REQ_REDIS_EVAL
| MSG_REQ_REDIS_EVALSHA
| MSG_REQ_REDIS_PING
| MSG_REQ_REDIS_QUIT
| MSG_REQ_REDIS_AUTH
| MSG_REQ_REDIS_SELECT_CLIENT
| MSG_REQ_REDIS_SELECT
| MSG_RSP_REDIS_STATUS
| MSG_RSP_REDIS_ERROR
| MSG_RSP_REDIS_ERROR_ERR
| MSG_RSP_REDIS_ERROR_OOM
| MSG_RSP_REDIS_ERROR_BUSY
| MSG_RSP_REDIS_ERROR_NOAUTH
| MSG_RSP_REDIS_ERROR_LOADING
| MSG_RSP_REDIS_ERROR_BUSYKEY
| MSG_RSP_REDIS_ERROR_MISCONF
| MSG_RSP_REDIS_ERROR_NOSCRIPT
| MSG_RSP_REDIS_ERROR_READONLY
| MSG_RSP_REDIS_ERROR_WRONGTYPE
| MSG_RSP_REDIS_ERROR_EXECABORT
| MSG_RSP_REDIS_ERROR_MASTERDOWN
| MSG_RSP_REDIS_ERROR_NOREPLICAS
| MSG_RSP_REDIS_INTEGER
| MSG_RSP_REDIS_BULK
| MSG_RSP_REDIS_MULTIBULK
| MSG_SENTINEL
| MSG_REQ_REDIS_SET_SLOW_THRESHOLD.

(** The enumerators in order: the value of an enumerator is its position. *)
Definition msg_types : list msg_type :=
  [MSG_UNKNOWN; MSG_REQ_MC_GET; MSG_REQ_MC_GETS; MSG_REQ_MC_DELETE; MSG_REQ_MC_CAS;
   MSG_REQ_MC_SET; MSG_REQ_MC_ADD; MSG_REQ_MC_REPLACE; MSG_REQ_MC_APPEND; MSG_REQ_MC_PREPEND;
   MSG_REQ_MC_INCR; MSG_REQ_MC_DECR; MSG_REQ_MC_TOUCH; MSG_REQ_MC_QUIT; MSG_RSP_MC_NUM;
   MSG_RSP_MC_STORED; MSG_RSP_MC_NOT_STORED; MSG_RSP_MC_EXISTS; MSG_RSP_MC_NOT_FOUND;
   MSG_RSP_MC_END; MSG_RSP_MC_VALUE; MSG_RSP_MC_DELETED; MSG_RSP_MC_TOUCHED;
   MSG_RSP_MC_ERROR; MSG_RSP_MC_CLIENT_ERROR; MSG_RSP_MC_SERVER_ERROR; MSG_REQ_REDIS_DEL;
   MSG_REQ_REDIS_EXISTS; MSG_REQ_REDIS_EXPIRE; MSG_REQ_REDIS_EXPIREAT; MSG_REQ_REDIS_PEXPIRE;
   MSG_REQ_REDIS_PEXPIREAT; MSG_REQ_REDIS_PERSIST; MSG_REQ_REDIS_PTTL; MSG_REQ_REDIS_SORT;
   MSG_REQ_REDIS_TTL; MSG_REQ_REDIS_TYPE; MSG_REQ_REDIS_APPEND; MSG_REQ_REDIS_BITCOUNT;
   MSG_REQ_REDIS_BITPOS; MSG_REQ_REDIS_DECR; MSG_REQ_REDIS_DECRBY; MSG_REQ_REDIS_DUMP;
   MSG_REQ_REDIS_GET; MSG_REQ_REDIS_GETBIT; MSG_REQ_REDIS_GETRANGE; MSG_REQ_REDIS_GETSET;
   MSG_REQ_REDIS_INCR; MSG_REQ_REDIS_INCRBY; MSG_REQ_REDIS_INCRBYFLOAT; MSG_REQ_REDIS_MGET;
   MSG_REQ_REDIS_MSET; MSG_REQ_REDIS_PSETEX; MSG_REQ_REDIS_RESTORE; MSG_REQ_REDIS_SET;
   MSG_REQ_REDIS_SETBIT; MSG_REQ_REDIS_SETEX; MSG_REQ_REDIS_SETNX; MSG_REQ_REDIS_SETRANGE;
   MSG_REQ_REDIS_STRLEN; MSG_REQ_REDIS_HDEL; MSG_REQ_REDIS_HEXISTS; MSG_REQ_REDIS_HGET;
   MSG_REQ_REDIS_HGETALL; MSG_REQ_REDIS_HINCRBY; MSG_REQ_REDIS_HINCRBYFLOAT;
   MSG_REQ_REDIS_HKEYS; MSG_REQ_REDIS_HLEN; MSG_REQ_REDIS_HMGET; MSG_REQ_REDIS_HMSET;
   MSG_REQ_REDIS_HSET; MSG_REQ_REDIS_HSETNX; MSG_REQ_REDIS_HSCAN; MSG_REQ_REDIS_HVALS;
   MSG_REQ_REDIS_LINDEX; MSG_REQ_REDIS_LINSERT; MSG_REQ_REDIS_LLEN; MSG_REQ_REDIS_LPOP;
   MSG_REQ_REDIS_LPUSH; MSG_REQ_REDIS_LPUSHX; MSG_REQ_REDIS_LRANGE; MSG_REQ_REDIS_LREM;
   MSG_REQ_REDIS_LSET; MSG_REQ_REDIS_LTRIM; MSG_REQ_REDIS_PFADD; MSG_REQ_REDIS_PFCOUNT;
   MSG_REQ_REDIS_PFMERGE; MSG_REQ_REDIS_RPOP; MSG_REQ_REDIS_RPOPLPUSH; MSG_REQ_REDIS_RPUSH;
   MSG_REQ_REDIS_RPUSHX; MSG_REQ_REDIS_SADD; MSG_REQ_REDIS_SCARD; MSG_REQ_REDIS_SDIFF;
   MSG_REQ_REDIS_SDIFFSTORE; MSG_REQ_REDIS_SINTER; MSG_REQ_REDIS_SINTERSTORE;
   MSG_REQ_REDIS_SISMEMBER; MSG_REQ_REDIS_SMEMBERS; MSG_REQ_REDIS_SMOVE; MSG_REQ_REDIS_SPOP;
   MSG_REQ_REDIS_SRANDMEMBER; MSG_REQ_REDIS_SREM; MSG_REQ_REDIS_SUNION;
   MSG_REQ_REDIS_SUNIONSTORE; MSG_REQ_REDIS_SSCAN; MSG_REQ_REDIS_ZADD; MSG_REQ_REDIS_ZCARD;
   MSG_REQ_REDIS_ZCOUNT; MSG_REQ_REDIS_ZINCRBY; MSG_REQ_REDIS_ZINTERSTORE;
   MSG_REQ_REDIS_ZLEXCOUNT; MSG_REQ_REDIS_ZRANGE; MSG_REQ_REDIS_ZRANGEBYLEX;
   MSG_REQ_REDIS_ZRANGEBYSCORE; MSG_REQ_REDIS_ZRANK; MSG_REQ_REDIS_ZREM;
   MSG_REQ_REDIS_ZREMRANGEBYRANK; MSG_REQ_REDIS_ZREMRANGEBYLEX;
   MSG_REQ_REDIS_ZREMRANGEBYSCORE; MSG_REQ_REDIS_ZREVRANGE; MSG_REQ_REDIS_ZREVRANGEBYSCORE;
   MSG_REQ_REDIS_ZREVRANK; MSG_REQ_REDIS_ZSCORE; MSG_REQ_REDIS_ZUNIONSTORE;
   MSG_REQ_REDIS_ZSCAN; MSG_REQ_REDIS_EVAL; MSG_REQ_REDIS_EVALSHA; MSG_REQ_REDIS_PING;
   MSG_REQ_REDIS_QUIT; MSG_REQ_REDIS_AUTH; MSG_REQ_REDIS_SELECT_CLIENT; MSG_REQ_REDIS_SELECT;
   MSG_RSP_REDIS_STATUS; MSG_RSP_REDIS_ERROR; MSG_RSP_REDIS_ERROR_ERR;
   MSG_RSP_REDIS_ERROR_OOM; MSG_RSP_REDIS_ERROR_BUSY; MSG_RSP_REDIS_ERROR_NOAUTH;
   MSG_RSP_REDIS_ERROR_LOADING; MSG_RSP_REDIS_ERROR_BUSYKEY; MSG_RSP_REDIS_ERROR_MISCONF;
   MSG_RSP_REDIS_ERROR_NOSCRIPT; MSG_RSP_REDIS_ERROR_READONLY; MSG_RSP_REDIS_ERROR_WRONGTYPE;
   MSG_RSP_REDIS_ERROR_EXECABORT; MSG_RSP_REDIS_ERROR_MASTERDOWN;
   MSG_RSP_REDIS_ERROR_NOREPLICAS; MSG_RSP_REDIS_INTEGER; MSG_RSP_REDIS_BULK;
   MSG_RSP_REDIS_MULTIBULK; MSG_SENTINEL; MSG_REQ_REDIS_SET_SLOW_THRESHOLD].

Definition msg_type_val (t : msg_type) : Z :=
  match t with
  | MSG_UNKNOWN => 0
  | MSG_REQ_MC_GET => 1
  | MSG_REQ_MC_GETS => 2
  | MSG_REQ_MC_DELETE => 3
  | MSG_REQ_MC_CAS => 4
  | MSG_REQ_MC_SET => 5
  | MSG_REQ_MC_ADD => 6
  | MSG_REQ_MC_REPLACE => 7
  | MSG_REQ_MC_APPEND => 8
  | MSG_REQ_MC_PREPEND => 9
  | MSG_REQ_MC_INCR => 10
  | MSG_REQ_MC_DECR => 11
  | MSG_REQ_MC_TOUCH => 12
  | MSG_REQ_MC_QUIT => 13
  | MSG_RSP_MC_NUM => 14
  | MSG_RSP_MC_STORED => 15
  | MSG_RSP_MC_NOT_STORED => 16
  | MSG_RSP_MC_EXISTS => 17
  | MSG_RSP_MC_NOT_FOUND => 18
  | MSG_RSP_MC_END => 19
  | MSG_RSP_MC_VALUE => 20
  | MSG_RSP_MC_DELETED => 21
  | MSG_RSP_MC_TOUCHED => 22
  | MSG_RSP_MC_ERROR => 23
  | MSG_RSP_MC_CLIENT_ERROR => 24
  | MSG_RSP_MC_SERVER_ERROR => 25
  | MSG_REQ_REDIS_DEL => 26
  | MSG_REQ_REDIS_EXISTS => 27
  | MSG_REQ_REDIS_EXPIRE => 28
  | MSG_REQ_REDIS_EXPIREAT => 29
  | MSG_REQ_REDIS_PEXPIRE => 30
  | MSG_REQ_REDIS_PEXPIREAT => 31
  | MSG_REQ_REDIS_PERSIST => 32
  | MSG_REQ_REDIS_PTTL => 33
  | MSG_REQ_REDIS_SORT => 34
  | MSG_REQ_REDIS_TTL => 35
  | MSG_REQ_REDIS_TYPE => 36
  | MSG_REQ_REDIS_APPEND => 37
  | MSG_REQ_REDIS_BITCOUNT => 38
  | MSG_REQ_REDIS_BITPOS => 39
  | MSG_REQ_REDIS_DECR => 40
  | MSG_REQ_REDIS_DECRBY => 41
  | MSG_REQ_REDIS_DUMP => 42
  | MSG_REQ_REDIS_GET => 43
  | MSG_REQ_REDIS_GETBIT => 44
  | MSG_REQ_REDIS_GETRANGE => 45
  | MSG_REQ_REDIS_GETSET => 46
  | MSG_REQ_REDIS_INCR => 47
  | MSG_REQ_REDIS_INCRBY => 48
  | MSG_REQ_REDIS_INCRBYFLOAT => 49
  | MSG_REQ_REDIS_MGET => 50
  | MSG_REQ_REDIS_MSET => 51
  | MSG_REQ_REDIS_PSETEX => 52
  | MSG_REQ_REDIS_RESTORE => 53
  | MSG_REQ_REDIS_SET => 54
  | MSG_REQ_REDIS_SETBIT => 55
  | MSG_REQ_REDIS_SETEX => 56
  | MSG_REQ_REDIS_SETNX => 57
  | MSG_REQ_REDIS_SETRANGE => 58
  | MSG_REQ_REDIS_STRLEN => 59
  | MSG_REQ_REDIS_HDEL => 60
  | MSG_REQ_REDIS_HEXISTS => 61
  | MSG_REQ_REDIS_HGET => 62
  | MSG_REQ_REDIS_HGETALL => 63
  | MSG_REQ_REDIS_HINCRBY => 64
  | MSG_REQ_REDIS_HINCRBYFLOAT => 65
  | MSG_REQ_REDIS_HKEYS => 66
  | MSG_REQ_REDIS_HLEN => 67
  | MSG_REQ_REDIS_HMGET => 68
  | MSG_REQ_REDIS_HMSET => 69
  | MSG_REQ_REDIS_HSET => 70
  | MSG_REQ_REDIS_HSETNX => 71
  | MSG_REQ_REDIS_HSCAN => 72
  | MSG_REQ_REDIS_HVALS => 73
  | MSG_REQ_REDIS_LINDEX => 74
  | MSG_REQ_REDIS_LINSERT => 75
  | MSG_REQ_REDIS_LLEN => 76
  | MSG_REQ_REDIS_LPOP => 77
  | MSG_REQ_REDIS_LPUSH => 78
  | MSG_REQ_REDIS_LPUSHX => 79
  | MSG_REQ_REDIS_LRANGE => 80
  | MSG_REQ_REDIS_LREM => 81
  | MSG_REQ_REDIS_LSET => 82
  | MSG_REQ_REDIS_LTRIM => 83
  | MSG_REQ_REDIS_PFADD => 84
  | MSG_REQ_REDIS_PFCOUNT => 85
  | MSG_REQ_REDIS_PFMERGE => 86
  | MSG_REQ_REDIS_RPOP => 87
  | MSG_REQ_REDIS_RPOPLPUSH => 88
  | MSG_REQ_REDIS_RPUSH => 89
  | MSG_REQ_REDIS_RPUSHX => 90
  | MSG_REQ_REDIS_SADD => 91
  | MSG_REQ_REDIS_SCARD => 92
  | MSG_REQ_REDIS_SDIFF => 93
  | MSG_REQ_REDIS_SDIFFSTORE => 94
  | MSG_REQ_REDIS_SINTER => 95
  | MSG_REQ_REDIS_SINTERSTORE => 96
  | MSG_REQ_REDIS_SISMEMBER => 97
  | MSG_REQ_REDIS_SMEMBERS => 98
  | MSG_REQ_REDIS_SMOVE => 99
  | MSG_REQ_REDIS_SPOP => 100
  | MSG_REQ_REDIS_SRANDMEMBER => 101
  | MSG_REQ_REDIS_SREM => 102
  | MSG_REQ_REDIS_SUNION => 103
  | MSG_REQ_REDIS_SUNIONSTORE => 104
  | MSG_REQ_REDIS_SSCAN => 105
  | MSG_REQ_REDIS_ZADD => 106
  | MSG_REQ_REDIS_ZCARD => 107
  | MSG_REQ_REDIS_ZCOUNT => 108
  | MSG_REQ_REDIS_ZINCRBY => 109
  | MSG_REQ_REDIS_ZINTERSTORE => 110
  | MSG_REQ_REDIS_ZLEXCOUNT => 111
  | MSG_REQ_REDIS_ZRANGE => 112
  | MSG_REQ_REDIS_ZRANGEBYLEX => 113
  | MSG_REQ_REDIS_ZRANGEBYSCORE => 114
  | MSG_REQ_REDIS_ZRANK => 115
  | MSG_REQ_REDIS_ZREM => 116
  | MSG_REQ_REDIS_ZREMRANGEBYRANK => 117
  | MSG_REQ_REDIS_ZREMRANGEBYLEX => 118
  | MSG_REQ_REDIS_ZREMRANGEBYSCORE => 119
  | MSG_REQ_REDIS_ZREVRANGE => 120
  | MSG_REQ_REDIS_ZREVRANGEBYSCORE => 121
  | MSG_REQ_REDIS_ZREVRANK => 122
  | MSG_REQ_REDIS_ZSCORE => 123
  | MSG_REQ_REDIS_ZUNIONSTORE => 124
  | MSG_REQ_REDIS_ZSCAN => 125
  | MSG_REQ_REDIS_EVAL => 126
  | MSG_REQ_REDIS_EVALSHA => 127
  | MSG_REQ_REDIS_PING => 128
  | MSG_REQ_REDIS_QUIT => 129
  | MSG_REQ_REDIS_AUTH => 130
  | MSG_REQ_REDIS_SELECT_CLIENT => 131
  | MSG_REQ_REDIS_SELECT => 132
  | MSG_RSP_REDIS_STATUS => 133
  | MSG_RSP_REDIS_ERROR => 134
  | MSG_RSP_REDIS_ERROR_ERR => 135
  | MSG_RSP_REDIS_ERROR_OOM => 136
  | MSG_RSP_REDIS_ERROR_BUSY => 137
  | MSG_RSP_REDIS_ERROR_NOAUTH => 138
  | MSG_RSP_REDIS_ERROR_LOADING => 139
  | MSG_RSP_REDIS_ERROR_BUSYKEY => 140
  | MSG_RSP_REDIS_ERROR_MISCONF => 141
  | MSG_RSP_REDIS_ERROR_NOSCRIPT => 142
  | MSG_RSP_REDIS_ERROR_READONLY => 143
  | MSG_RSP_REDIS_ERROR_WRONGTYPE => 144
  | MSG_RSP_REDIS_ERROR_EXECABORT => 145
  | MSG_RSP_REDIS_ERROR_MASTERDOWN => 146
  | MSG_RSP_REDIS_ERROR_NOREPLICAS => 147
  | MSG_RSP_REDIS_INTEGER => 148
  | MSG_RSP_REDIS_BULK => 149
  | MSG_RSP_REDIS_MULTIBULK => 150
  | MSG_SENTINEL => 151
  | MSG_REQ_REDIS_SET_SLOW_THRESHOLD => 152
  end.

Lemma msg_types_val t : msg_types !! Z.to_nat (msg_type_val t) = Some t.
Proof. by destruct t. Qed.

#[export] Instance msg_type_val_inj : Inj (=) (=) msg_type_val.
Proof.
  intros t t' E. pose proof (msg_types_val t) as H. pose proof (msg_types_val t') as H'.
  rewrite E in H. congruence.
Qed.

Definition msg_type_eqb (t t' : msg_type) : bool := msg_type_val t =? msg_type_val t'.

#[export] Instance msg_type_eq_dec : EqDecision msg_type.
Proof.
  intros t t'. destruct (Z.eq_dec (msg_type_val t) (msg_type_val t')) as [E|E].
  - left. by apply msg_type_val_inj.
  - right. congruence.
Defined.

Lemma msg_type_eqb_eq t t' : msg_type_eqb t t' = true <-> t = t'.
Proof. unfold msg_type_eqb. rewrite Z.eqb_eq. split; [apply msg_type_val_inj|by intros ->]. Qed.
