(* ===== verification/Parser.v ===== *)
(** The parser registers of struct msg and the loop the four protocol
    parsers are written around.

    Pointers of a parser ([p], [m], [r->token]) point into the last mbuf of
    the message and are offsets from its [start]; pointers that outlive the
    call (keys, narg, end marker) carry the identity of the mbuf.  A load
    outside the chunk makes the run end in [Fault]. *)

From S2P Require Import Prelude CArray Mbuf Message.

Inductive parse_result := MSG_PARSE_OK | MSG_PARSE_ERROR | MSG_PARSE_REPAIR | MSG_PARSE_AGAIN.

Record ptr := mk_ptr { ptr_buf : positive; ptr_off : Z }.

Record keypos := mk_keypos { kp_start : ptr; kp_end : ptr }.

(** The fields of struct msg the parsers use, the parser state apart. *)
Record regs := mk_regs {
  token : option Z;
  type : msg_type;
  keys : array keypos;
  vlen : Z;
  end_marker : option ptr;
  narg_start : option ptr;
  narg_end : option ptr;
  narg : Z;
  rnarg : Z;
  rlen : Z;
  integer : Z;
  quit : bool;
  noreply : bool;
  noforward : bool
}.

Definition set_token (r : regs) v := mk_regs v (type r) (keys r) (vlen r) (end_marker r)
  (narg_start r) (narg_end r) (narg r) (rnarg r) (rlen r) (integer r) (quit r) (noreply r) (noforward r).
Definition set_type (r : regs) v := mk_regs (token r) v (keys r) (vlen r) (end_marker r)
  (narg_start r) (narg_end r) (narg r) (rnarg r) (rlen r) (integer r) (quit r) (noreply r) (noforward r).
Definition set_keys (r : regs) v := mk_regs (token r) (type r) v (vlen r) (end_marker r)
  (narg_start r) (narg_end r) (narg r) (rnarg r) (rlen r) (integer r) (quit r) (noreply r) (noforward r).
Definition set_vlen (r : regs) v := mk_regs (token r) (type r) (keys r) v (end_marker r)
  (narg_start r) (narg_end r) (narg r) (rnarg r) (rlen r) (integer r) (quit r) (noreply r) (noforward r).
Definition set_end (r : regs) v := mk_regs (token r) (type r) (keys r) (vlen r) v
  (narg_start r) (narg_end r) (narg r) (rnarg r) (rlen r) (integer r) (quit r) (noreply r) (noforward r).
Definition set_narg_start (r : regs) v := mk_regs (token r) (type r) (keys r) (vlen r) (end_marker r)
  v (narg_end r) (narg r) (rnarg r) (rlen r) (integer r) (quit r) (noreply r) (noforward r).
Definition set_narg_end (r : regs) v := mk_regs (token r) (type r) (keys r) (vlen r) (end_marker r)
  (narg_start r) v (narg r) (rnarg r) (rlen r) (integer r) (quit r) (noreply r) (noforward r).
Definition set_narg (r : regs) v := mk_regs (token r) (type r) (keys r) (vlen r) (end_marker r)
  (narg_start r) (narg_end r) v (rnarg r) (rlen r) (integer r) (quit r) (noreply r) (noforward r).
Definition set_rnarg (r : regs) v := mk_regs (token r) (type r) (keys r) (vlen r) (end_marker r)
  (narg_start r) (narg_end r) (narg r) v (rlen r) (integer r) (quit r) (noreply r) (noforward r).
Definition set_rlen (r : regs) v := mk_regs (token r) (type r) (keys r) (vlen r) (end_marker r)
  (narg_start r) (narg_end r) (narg r) (rnarg r) v (integer r) (quit r) (noreply r) (noforward r).
Definition set_integer (r : regs) v := mk_regs (token r) (type r) (keys r) (vlen r) (end_marker r)
  (narg_start r) (narg_end r) (narg r) (rnarg r) (rlen r) v (quit r) (noreply r) (noforward r).
Definition set_quit (r : regs) v := mk_regs (token r) (type r) (keys r) (vlen r) (end_marker r)
  (narg_start r) (narg_end r) (narg r) (rnarg r) (rlen r) (integer r) v (noreply r) (noforward r).
Definition set_noreply (r : regs) v := mk_regs (token r) (type r) (keys r) (vlen r) (end_marker r)
  (narg_start r) (narg_end r) (narg r) (rnarg r) (rlen r) (integer r) (quit r) v (noforward r).
Definition set_noforward (r : regs) v := mk_regs (token r) (type r) (keys r) (vlen r) (end_marker r)
  (narg_start r) (narg_end r) (narg r) (rnarg r) (rlen r) (integer r) (quit r) (noreply r) v.

(** The registers as [_msg_get] leaves them ([keys] from array_create(1, ...);
    sizeof(struct keypos) is 16). *)
Definition regs_init : regs :=
  mk_regs None MSG_UNKNOWN (mk_array 0 [None] 16 1) 0 None None None 0 0 0 0 false false false.

(** kpos = array_push(r->keys), then the two stores through kpos. *)
Definition push_key (ok : Z -> bool) (r : regs) (b : mbuf) (s e : Z) : option regs :=
  match array_push ok (keys r) with
  | None => None
  | Some (kpos, a) =>
      Some (set_keys r (array_store a kpos (mk_keypos (mk_ptr (mb_id b) s) (mk_ptr (mb_id b) e))))
  end.

(** [x * 10 + (uint32_t)(ch - '0')] on a uint32_t. *)
Definition dec_acc (x ch : Z) : Z := u32 (x * 10 + (ch - 48)).

(** ** Comparing bytes of the buffer with a literal

    The strNcmp macros of nc_proto.h in their little-endian form: the first
    four bytes by a 32-bit load, the rest by word or byte loads, [&&] short
    circuiting. *)

Definition le16 (c0 c1 : Z) : Z := Z.lor (Z.shiftl c1 8) c0.
Definition le32 (c0 c1 c2 c3 : Z) : Z :=
  Z.lor (Z.lor (Z.lor (Z.shiftl c3 24) (Z.shiftl c2 16)) (Z.shiftl c1 8)) c0.

Definition load32 (b : mbuf) (p : Z) : option Z :=
  match deref b p, deref b (p + 1), deref b (p + 2), deref b (p + 3) with
  | Some c0, Some c1, Some c2, Some c3 => Some (le32 c0 c1 c2 c3)
  | _, _, _, _ => None
  end.

(** [x && y] where either operand may fault. *)
Definition and_then (x : option bool) (y : option bool) : option bool :=
  match x with
  | Some true => y
  | _ => x
  end.

Definition byte_is (b : mbuf) (p c : Z) : option bool := (fun x => x =? c) <$> deref b p.
Definition word_is (b : mbuf) (p w : Z) : option bool := (fun x => x =? w) <$> load32 b p.
Definition half_is (b : mbuf) (p h : Z) : option bool :=
  (fun x => Z.land x 65535 =? h) <$> load32 b p.

Definition str4cmp b m c0 c1 c2 c3 := word_is b m (le32 c0 c1 c2 c3).
Definition str5cmp b m c0 c1 c2 c3 c4 :=
  and_then (str4cmp b m c0 c1 c2 c3) (byte_is b (m + 4) c4).
Definition str6cmp b m c0 c1 c2 c3 c4 c5 :=
  and_then (str4cmp b m c0 c1 c2 c3) (half_is b (m + 4) (le16 c4 c5)).
Definition str7cmp b m c0 c1 c2 c3 c4 c5 c6 :=
  and_then (str6cmp b m c0 c1 c2 c3 c4 c5) (byte_is b (m + 6) c6).
Definition str8cmp b m c0 c1 c2 c3 c4 c5 c6 c7 :=
  and_then (str4cmp b m c0 c1 c2 c3) (word_is b (m + 4) (le32 c4 c5 c6 c7)).
Definition str9cmp b m c0 c1 c2 c3 c4 c5 c6 c7 c8 :=
  and_then (str8cmp b m c0 c1 c2 c3 c4 c5 c6 c7) (byte_is b (m + 8) c8).
Definition str10cmp b m c0 c1 c2 c3 c4 c5 c6 c7 c8 c9 :=
  and_then (str8cmp b m c0 c1 c2 c3 c4 c5 c6 c7) (half_is b (m + 8) (le16 c8 c9)).
Definition str11cmp b m c0 c1 c2 c3 c4 c5 c6 c7 c8 c9 c10 :=
  and_then (str10cmp b m c0 c1 c2 c3 c4 c5 c6 c7 c8 c9) (byte_is b (m + 10) c10).
Definition str12cmp b m c0 c1 c2 c3 c4 c5 c6 c7 c8 c9 c10 c11 :=
  and_then (str8cmp b m c0 c1 c2 c3 c4 c5 c6 c7) (word_is b (m + 8) (le32 c8 c9 c10 c11)).

(** strNcmp on a literal of 4 to 12 bytes. *)
Definition strcmp (b : mbuf) (m : Z) (lit : list Z) : option bool :=
  match lit with
  | [c0; c1; c2; c3] => str4cmp b m c0 c1 c2 c3
  | [c0; c1; c2; c3; c4] => str5cmp b m c0 c1 c2 c3 c4
  | [c0; c1; c2; c3; c4; c5] => str6cmp b m c0 c1 c2 c3 c4 c5
  | [c0; c1; c2; c3; c4; c5; c6] => str7cmp b m c0 c1 c2 c3 c4 c5 c6
  | [c0; c1; c2; c3; c4; c5; c6; c7] => str8cmp b m c0 c1 c2 c3 c4 c5 c6 c7
  | [c0; c1; c2; c3; c4; c5; c6; c7; c8] => str9cmp b m c0 c1 c2 c3 c4 c5 c6 c7 c8
  | [c0; c1; c2; c3; c4; c5; c6; c7; c8; c9] => str10cmp b m c0 c1 c2 c3 c4 c5 c6 c7 c8 c9
  | [c0; c1; c2; c3; c4; c5; c6; c7; c8; c9; c10] =>
      str11cmp b m c0 c1 c2 c3 c4 c5 c6 c7 c8 c9 c10
  | [c0; c1; c2; c3; c4; c5; c6; c7; c8; c9; c10; c11] =>
      str12cmp b m c0 c1 c2 c3 c4 c5 c6 c7 c8 c9 c10 c11
  | _ => Some false
  end.

(** strNicmp: every byte equals the letter or the letter with bit 5 flipped. *)
Fixpoint stricmp (b : mbuf) (m : Z) (lit : list Z) : option bool :=
  match lit with
  | [] => Some true
  | c :: lit' =>
      and_then ((fun x => (x =? c) || (x =? Z.lxor c 32)) <$> deref b m)
               (stricmp b (m + 1) lit')
  end.

(** The chain of [if (strNcmp(...)) { r->type = ...; break; }] of one case;
    [Some None] when no literal matches. *)
Fixpoint first_cmp (b : mbuf) (m : Z) (tbl : list (list Z * msg_type)) : option (option msg_type) :=
  match tbl with
  | [] => Some None
  | (lit, t) :: tbl' =>
      match strcmp b m lit with
      | None => None
      | Some true => Some (Some t)
      | Some false => first_cmp b m tbl'
      end
  end.

(** ** The driver *)

Section Driver.
Context {St : Type}.

(** What the body of the switch does with one character. *)
Inductive outcome :=
| Break (p : Z) (s : St) (r : regs)   (* leave the switch; the loop then does p++ *)
| Done (p : Z) (r : regs)             (* goto done *)
| Error (s : St) (r : regs)           (* goto error *)
| Enomem (s : St) (r : regs)          (* goto enomem *)
| Fault.                              (* load outside the chunk *)

(** How the loop ends. *)
Inductive run :=
| Rmore (p : Z) (s : St) (r : regs)   (* p == b->last *)
| Rdone (p : Z) (r : regs)
| Rerror (s : St) (r : regs)
| Renomem (s : St) (r : regs)
| Rfault
| Rfuel.

Variable step : mbuf -> Z -> Z -> St -> regs -> outcome.

Fixpoint parse_loop (fuel : nat) (b : mbuf) (p : Z) (s : St) (r : regs) : run :=
  match fuel with
  | O => Rfuel
  | S fuel' =>
      if p <? mb_last b then
        match deref b p with
        | None => Rfault
        | Some ch =>
            match step b p ch s r with
            | Break p' s' r' => parse_loop fuel' b (p' + 1) s' r'
            | Done p' r' => Rdone p' r'
            | Error s' r' => Rerror s' r'
            | Enomem s' r' => Renomem s' r'
            | Fault => Rfault
            end
        end
      else Rmore p s r
  end.

End Driver.

Arguments outcome : clear implicits.
Arguments run : clear implicits.

(** A message as the parsers see it: [pm_pos] is r->pos. *)
Record pmsg (St : Type) := mk_pmsg {
  pm_state : St;
  pm_pos : Z;
  pm_result : parse_result;
  pm_regs : regs
}.
Arguments mk_pmsg {St} _ _ _ _.
Arguments pm_state {St} _.
Arguments pm_pos {St} _.
Arguments pm_result {St} _.
Arguments pm_regs {St} _.

(** What the parsers do after the loop.  No more data: r->pos and r->state
    are saved, and a token cut by the end of a full mbuf asks for a repair
    from the token on (memcache responses then restart the state,
    [repair_state]).  done: the next message starts after [p].  error and
    enomem: r->pos is left alone. *)
Definition parse_finish {St} (start : St) (done_regs : regs -> regs) (repair_state : St -> St)
    (b : mbuf) (pos0 : Z) (x : run St) : option (pmsg St) :=
  match x with
  | Rmore p s r =>
      match token r with
      | Some tok =>
          if mb_last b =? mb_end b
          then Some (mk_pmsg (repair_state s) tok MSG_PARSE_REPAIR (set_token r None))
          else Some (mk_pmsg s p MSG_PARSE_AGAIN r)
      | None => Some (mk_pmsg s p MSG_PARSE_AGAIN r)
      end
  | Rdone p r => Some (mk_pmsg start (p + 1) MSG_PARSE_OK (done_regs r))
  | Rerror s r | Renomem s r => Some (mk_pmsg s pos0 MSG_PARSE_ERROR r)
  | Rfault | Rfuel => None
  end.

(** ** Facts about the driver *)

Section DriverFacts.
Context {St : Type} (step : mbuf -> Z -> Z -> St -> regs -> outcome St).

(** More fuel does not change the result of a run that ended. *)
Lemma parse_loop_fuel_mono f f' b p s r :
  parse_loop step f b p s r <> Rfuel -> (f <= f')%nat ->
  parse_loop step f' b p s r = parse_loop step f b p s r.
Proof.
  revert f' p s r. induction f as [|f IH]; intros f' p s r Hne Hle; [done|].
  destruct f' as [|f']; [lia|]. simpl in *.
  destruct (p <? mb_last b); [|done]. destruct (deref b p); [|done].
  destruct (step b p z s r); try done. apply IH; [done|lia].
Qed.

Lemma parse_loop_fuel_eq f f' b p s r :
  parse_loop step f b p s r <> Rfuel -> parse_loop step f' b p s r <> Rfuel ->
  parse_loop step f b p s r = parse_loop step f' b p s r.
Proof.
  intros H H'. destruct (le_ge_dec f f').
  - symmetry. by apply parse_loop_fuel_mono.
  - by apply parse_loop_fuel_mono.
Qed.

(** A loop invariant and a measure: the run neither faults nor starves, and
    what it ends in satisfies the invariant. *)
Variable b : mbuf.
Variable Inv : Z -> St -> regs -> Prop.
Variable Post : Z -> regs -> Prop.
Variable meas : Z -> St -> regs -> nat.

Definition outcome_ok (n : nat) (o : outcome St) : Prop :=
  match o with
  | Break p s r => Inv (p + 1) s r /\ (meas (p + 1) s r < n)%nat
  | Done p r => Post p r
  | Error _ _ | Enomem _ _ => True
  | Fault => False
  end.

Definition run_ok (x : run St) : Prop :=
  match x with
  | Rmore p s r => p = mb_last b /\ Inv p s r
  | Rdone p r => Post p r
  | Rerror _ _ | Renomem _ _ => True
  | Rfault | Rfuel => False
  end.

Hypothesis Inv_range : forall p s r, Inv p s r -> 0 <= p <= mb_last b.
Hypothesis last_in : mb_last b <= zlen (mb_mem b).
Hypothesis step_ok : forall p ch s r,
  Inv p s r -> p < mb_last b -> deref b p = Some ch ->
  outcome_ok (meas p s r) (step b p ch s r).

Lemma parse_loop_ok f p s r :
  Inv p s r -> (meas p s r < f)%nat -> run_ok (parse_loop step f b p s r).
Proof.
  revert p s r. induction f as [|f IH]; intros p s r HI Hf; [lia|]. simpl.
  pose proof (Inv_range _ _ _ HI) as Hr.
  destruct (Z.ltb_spec p (mb_last b)) as [Hlt|Hge].
  - destruct (rd_is_Some (mb_mem b) p) as [ch Hch]; [lia|].
    unfold deref. rewrite Hch. pose proof (step_ok p ch s r HI Hlt Hch) as Ho.
    destruct (step b p ch s r); simpl in *; try done.
    destruct Ho. apply IH; [done|lia].
  - simpl. split; [lia|done].
Qed.

End DriverFacts.

(** ** Two views of a buffer while it fills *)

(** [b2] holds what [b1] holds, and maybe more. *)
Record extends (b1 b2 : mbuf) : Prop := {
  ext_id : mb_id b1 = mb_id b2;
  ext_end : mb_end b1 = mb_end b2;
  ext_last : mb_last b1 <= mb_last b2;
  ext_mem : forall i, i < mb_last b1 -> deref b2 i = deref b1 i
}.

Lemma extends_refl b : extends b b.
Proof. by constructor. Qed.

(** ** Registers *)

Lemma dec_acc_range x ch : is_u32 (dec_acc x ch).
Proof. apply u32_range. Qed.
#[export] Hint Resolve dec_acc_range : cint.

Lemma deref_in b p : mbuf_wf b -> 0 <= p < mb_last b -> is_Some (deref b p).
Proof. intros [? ? ? Hm ?] Hp. apply rd_is_Some. unfold MBUF_HSIZE in *. lia. Qed.

Lemma stricmp_in b m lit :
  (forall i, m <= i < m + zlen lit -> is_Some (deref b i)) -> is_Some (stricmp b m lit).
Proof.
  revert m. induction lit as [|c lit IH]; intros m H; simpl; [done|].
  rewrite zlen_cons in H. pose proof (zlen_nonneg lit).
  destruct (H m) as [x ->]; [lia|]. simpl. destruct (_ || _); simpl; [|done].
  apply IH. intros i Hi. apply H. lia.
Qed.

Lemma stricmp_ext b b' m lit :
  (forall i, m <= i < m + zlen lit -> deref b' i = deref b i) -> stricmp b' m lit = stricmp b m lit.
Proof.
  revert m. induction lit as [|c lit IH]; intros m H; simpl; [done|].
  rewrite zlen_cons in H. pose proof (zlen_nonneg lit).
  rewrite (H m) by lia. f_equal. apply IH. intros i Hi. apply H. lia.
Qed.

(** ** Keys *)

(** A recorded key lies in the data received so far. *)
Definition key_in (b : mbuf) (k : keypos) : Prop :=
  ptr_buf (kp_start k) = mb_id b -> ptr_buf (kp_end k) = mb_id b /\
  mb_pos b <= ptr_off (kp_start k) <= ptr_off (kp_end k) /\ ptr_off (kp_end k) < mb_last b.

Definition keys_in (b : mbuf) (r : regs) : Prop :=
  Forall (fun o => match o with Some k => key_in b k | None => True end) (elem (keys r)).

(** Storing one more key keeps the invariant on the keys. *)
Lemma push_key_in ok r b s e r' :
  push_key ok r b s e = Some r' -> mb_pos b <= s <= e -> e < mb_last b ->
  keys_in b r -> keys_in b r' /\ exists a, r' = set_keys r a.
Proof.
  unfold push_key, array_push, keys_in. intros Hp Hs He Hk.
  repeat dmatch_in Hp; simplify_eq/=; (split; [|by eexists]).
  all: apply Forall_insert; [|done].
  all: try (apply Forall_app; split; [done|]; by apply Forall_replicate).
  all: done.
Qed.

Lemma push_key_ext ok b1 b2 r s e :
  extends b1 b2 -> push_key ok r b2 s e = push_key ok r b1 s e.
Proof. intros Hext. unfold push_key. by rewrite (ext_id _ _ Hext). Qed.

Lemma keys_in_ext b1 b2 r :
  extends b1 b2 -> mb_pos b1 = mb_pos b2 -> keys_in b1 r -> keys_in b2 r.
Proof.
  intros [Hid He Hl Hm] Hp Hk. eapply Forall_impl; [|exact Hk]. intros [k|]; [|done]. unfold key_in.
  rewrite <- Hid, <- Hp. intros H ?. destruct (H ltac:(done)) as (? & ? & ?). split_and!; try done; lia.
Qed.

(** [rlen] counts what is still missing when a skipped argument is cut. *)
Lemma rlen_rest x p l l' :
  is_u32 x -> 0 <= p <= l -> l <= l' -> l' < 2 ^ 32 -> l <= p + x ->
  l + u32 (x - u32 (l - p)) = p + x /\
  u32 (u32 (x - u32 (l - p)) - u32 (l' - l)) = u32 (x - u32 (l' - p)).
Proof.
  unfold is_u32. intros Hx Hp Hl Hl' Hle.
  rewrite (u32_small (l - p)) by (unfold is_u32; lia).
  rewrite (u32_small (x - (l - p))) by (unfold is_u32; lia).
  rewrite !(u32_small (l' - _)) by (unfold is_u32; lia).
  split; [lia|]. f_equal. lia.
Qed.

Lemma keys_in_init b : keys_in b regs_init.
Proof. by repeat constructor. Qed.

(** A buffer before and after more bytes were received into it. *)
Lemma extends_recv id cap d1 d2 : extends (buf_of id cap d1) (buf_of id cap (d1 ++ d2)).
Proof.
  constructor; simpl; try done.
  - rewrite zlen_app. pose proof (zlen_nonneg d2). lia.
  - intros i Hi. unfold deref; simpl. by rewrite <- app_assoc, !rd_app_l by done.
Qed.

(** ** Resuming a parse when more data has arrived *)

Section Resume.
Context {St : Type} (step : mbuf -> Z -> Z -> St -> regs -> outcome St).

(** Registers that a parse in state [s] cannot tell apart, and registers that
    are the same to the reader of a parsed message. *)
Context (peq : St -> regs -> regs -> Prop) (deq : regs -> regs -> Prop).

(** Outcomes that are the same, the registers of a failure apart. *)
Definition outcome_sim (x y : outcome St) : Prop :=
  match x, y with
  | Break p s r, Break p' s' r' => p = p' /\ s = s' /\ peq s r r'
  | Done p r, Done p' r' => p = p' /\ deq r r'
  | Error s _, Error s' _ | Enomem s _, Enomem s' _ => s = s'
  | Fault, Fault => True
  | _, _ => False
  end.

Definition run_sim (x y : run St) : Prop :=
  match x, y with
  | Rmore p s r, Rmore p' s' r' => p = p' /\ s = s' /\ peq s r r'
  | Rdone p r, Rdone p' r' => p = p' /\ deq r r'
  | Rerror s _, Rerror s' _ | Renomem s _, Renomem s' _ => s = s'
  | Rfault, Rfault | Rfuel, Rfuel => True
  | _, _ => False
  end.

Context (b1 b2 : mbuf) (Hext : extends b1 b2).
Context (Inv : Z -> St -> regs -> Prop).

(** An iteration on the shorter buffer either does what it does on the longer
    one, or waits for data; in that case the iteration that waited and the
    one that resumes at the first new byte do the same on the longer one. *)
Definition step_splits (p ch : Z) (s : St) (r : regs) : Prop :=
  step b2 p ch s r = step b1 p ch s r \/
  mb_last b1 < mb_last b2 /\
  exists r1, step b1 p ch s r = Break (mb_last b1 - 1) s r1 /\
    forall ch', outcome_sim (step b2 p ch s r) (step b2 (mb_last b1) ch' s r1).

Hypothesis peq_refl : forall s r, peq s r r.
Hypothesis deq_refl : forall r, deq r r.
Hypothesis step_peq : forall p ch s r r',
  peq s r r' -> outcome_sim (step b2 p ch s r) (step b2 p ch s r').
Hypothesis Inv_step : forall p ch s r,
  Inv p s r -> p < mb_last b1 -> deref b1 p = Some ch ->
  step_splits p ch s r /\
  match step b1 p ch s r with Break p' s' r' => Inv (p' + 1) s' r' | _ => True end.

Lemma outcome_sim_refl x : outcome_sim x x.
Proof. by destruct x; simpl. Qed.

Lemma run_sim_refl x : run_sim x x.
Proof. by destruct x; simpl. Qed.

Lemma parse_loop_peq f p s r r' :
  peq s r r' -> run_sim (parse_loop step f b2 p s r) (parse_loop step f b2 p s r').
Proof.
  revert p s r r'. induction f as [|f IH]; intros p s r r' H; simpl; [done|].
  destruct (p <? mb_last b2); [|by simpl]. destruct (deref b2 p) as [ch|]; [|done].
  pose proof (step_peq p ch s r r' H) as Hs.
  destruct (step b2 p ch s r), (step b2 p ch s r'); simpl in *; try done.
  destruct Hs as (-> & -> & ?). by apply IH.
Qed.

(** Two loops whose first iterations agree, agree. *)
Lemma parse_loop_sim f f' p p' s s' r r' ch ch' :
  p < mb_last b2 -> p' < mb_last b2 -> deref b2 p = Some ch -> deref b2 p' = Some ch' ->
  outcome_sim (step b2 p ch s r) (step b2 p' ch' s' r') ->
  parse_loop step f b2 p s r <> Rfuel -> parse_loop step f' b2 p' s' r' <> Rfuel ->
  run_sim (parse_loop step f b2 p s r) (parse_loop step f' b2 p' s' r').
Proof.
  intros Hp Hp' Hc Hc' Hs. destruct f as [|f], f' as [|f']; try done. simpl.
  destruct (Z.ltb_spec p (mb_last b2)); [|lia]. destruct (Z.ltb_spec p' (mb_last b2)); [|lia].
  rewrite Hc, Hc'.
  destruct (step b2 p ch s r) as [q t x| | | |], (step b2 p' ch' s' r') as [q' t' x'| | | |];
    simpl in *; try done.
  destruct Hs as (-> & -> & Hx). intros Hf Hf'.
  pose proof (parse_loop_peq f (q' + 1) t' x x' Hx) as Hsim.
  rewrite (parse_loop_fuel_eq _ f' f); [done|done|].
  intros E. rewrite E in Hsim. by destruct (parse_loop step f b2 (q' + 1) t' x).
Qed.

Lemma parse_loop_resume f1 f2 f3 p s r p1 s1 r1 :
  Inv p s r -> parse_loop step f1 b1 p s r = Rmore p1 s1 r1 ->
  (mb_last b1 < mb_last b2 -> is_Some (deref b2 (mb_last b1))) ->
  parse_loop step f2 b2 p s r <> Rfuel -> parse_loop step f3 b2 p1 s1 r1 <> Rfuel ->
  run_sim (parse_loop step f2 b2 p s r) (parse_loop step f3 b2 p1 s1 r1).
Proof.
  intros HI Hr Hd. revert f2 p s r HI Hr. induction f1 as [|f1 IH]; intros f2 p s r HI Hr; [done|].
  simpl in Hr. destruct (Z.ltb_spec p (mb_last b1)) as [Hlt|Hge];
    [|simplify_eq; intros; rewrite (parse_loop_fuel_eq step f3 f2) by done; by apply run_sim_refl].
  destruct (deref b1 p) as [ch|] eqn:Ec; [|done].
  assert (Hc2 : deref b2 p = Some ch) by (rewrite (ext_mem _ _ Hext); done).
  assert (Hlt2 : p < mb_last b2) by (pose proof (ext_last _ _ Hext); lia).
  destruct (Inv_step _ _ _ _ HI Hlt Ec) as [[He|(Hl & r' & Hb & Hsim)] Hnext].
  - destruct (step b1 p ch s r) as [p' s' r'| | | |]; try done. intros H2 H3.
    destruct f2 as [|f2]; [done|]. simpl in *.
    destruct (Z.ltb_spec p (mb_last b2)); [|lia]. rewrite Hc2, He in *. by apply IH.
  - rewrite Hb in Hr, Hnext. destruct f1 as [|f1]; [done|]. simpl in Hr.
    destruct (Z.ltb_spec (mb_last b1 - 1 + 1) (mb_last b1)); [lia|]. simplify_eq.
    destruct (Hd Hl) as [c' Hc']. replace (mb_last b1 - 1 + 1) with (mb_last b1) by lia.
    by apply (parse_loop_sim _ _ _ _ _ _ _ _ ch c').
Qed.

End Resume.

(** ** What a protocol parser promises

    Each of the four parsers is an instance: its invariant, its measure, and
    the laws of its switch.  The theorems below are proved once from them. *)

Class ProtoParser {St : Type} (step : mbuf -> Z -> Z -> St -> regs -> outcome St) := {
  pgood : mbuf -> Prop;                          (* what is assumed of the mbuf *)
  pinv : mbuf -> Z -> St -> regs -> Prop;        (* loop invariant *)
  ppost : mbuf -> regs -> Prop;                  (* of the registers when done *)
  pmeas : mbuf -> Z -> St -> regs -> nat;        (* decreases at every iteration *)
  peq : St -> regs -> regs -> Prop;              (* what a state cannot tell apart *)
  deq : regs -> regs -> Prop;                    (* what a reader cannot tell apart *)
  peq_equiv : forall s, Equivalence (peq s);
  deq_equiv : Equivalence deq;
  peq_deq : forall s r r', peq s r r' -> deq r r';
  deq_token : forall r r', deq r r' -> token r = token r' /\ deq (set_token r None) (set_token r' None);
  pgood_wf : forall b, pgood b -> mbuf_wf b;
  pinv_range : forall b p s r, pinv b p s r -> mb_pos b <= p <= mb_last b;
  pinv_token : forall b p s r t, pinv b p s r -> token r = Some t -> mb_pos b <= t <= p;
  pinv_ext : forall b1 b2 p s r,
    extends b1 b2 -> mb_pos b1 = mb_pos b2 -> pinv b1 p s r -> pinv b2 p s r;
  pstep_ok : forall b p ch s r,
    pgood b -> pinv b p s r -> p < mb_last b -> deref b p = Some ch ->
    match step b p ch s r with
    | Break p' s' r' => p <= p' + 1 /\ pinv b (p' + 1) s' r' /\ (pmeas b (p' + 1) s' r' < pmeas b p s r)%nat
    | Done p' r' => p' = p /\ ppost b r'
    | Error _ _ | Enomem _ _ => True
    | Fault => False
    end;
  pstep_splits : forall b1 b2 p ch s r,
    pgood b1 -> pgood b2 -> extends b1 b2 -> pinv b1 p s r -> p < mb_last b1 ->
    deref b1 p = Some ch -> step_splits step peq deq b1 b2 p ch s r;
  pstep_peq : forall b p ch s r r',
    peq s r r' -> outcome_sim peq deq (step b p ch s r) (step b p ch s r')
}.

#[export] Existing Instance peq_equiv.
#[export] Existing Instance deq_equiv.

Section Proto.
Context {St : Type} (step : mbuf -> Z -> Z -> St -> regs -> outcome St) `{!ProtoParser step}.

Lemma proto_run_ok f b p s r :
  pgood b -> pinv b p s r -> (pmeas b p s r < f)%nat ->
  run_ok b (fun q t x => pinv b q t x /\ p <= q)
    (fun q x => ppost b x /\ p <= q < mb_last b) (parse_loop step f b p s r).
Proof.
  intros Hg HI Hf. pose proof (pgood_wf _ Hg) as Hwf. destruct Hwf as [? ? ? Hm ?].
  apply (parse_loop_ok _ _ _ _ (pmeas b)); [| | |by split|done].
  - intros q t x [Hq _]. apply pinv_range in Hq. lia.
  - unfold MBUF_HSIZE in *. lia.
  - intros q ch t x [Hq Hle] Hlt Hc. pose proof (pstep_ok b q ch t x Hg Hq Hlt Hc) as H.
    destruct (step b q ch t x); simpl in *; try done.
    + destruct H as (? & ? & ?). split_and!; [done|lia|done].
    + destruct H as [-> ?]. split_and!; try done; lia.
Qed.

Lemma proto_resume f1 f2 f3 b1 b2 p s r p1 s1 r1 :
  pgood b1 -> pgood b2 -> extends b1 b2 -> pinv b1 p s r ->
  parse_loop step f1 b1 p s r = Rmore p1 s1 r1 ->
  parse_loop step f2 b2 p s r <> Rfuel -> parse_loop step f3 b2 p1 s1 r1 <> Rfuel ->
  run_sim peq deq (parse_loop step f2 b2 p s r) (parse_loop step f3 b2 p1 s1 r1).
Proof.
  intros Hg1 Hg2 Hext HI H1 H2 H3.
  apply (parse_loop_resume step peq deq b1 b2 Hext (pinv b1)) with (f1 := f1); try done.
  - intros. apply pstep_peq; done.
  - intros q ch t x Hq Hlt Hc. split; [by apply pstep_splits|].
    pose proof (pstep_ok b1 q ch t x Hg1 Hq Hlt Hc) as Ho.
    destruct (step b1 q ch t x); try done. by destruct Ho as (_ & ? & _).
  - intros. apply deref_in; [by apply pgood_wf|]. pose proof (pgood_wf _ Hg1) as [? ? ? ? ?]. lia.
Qed.

(** The parsers as functions on messages. *)
Context (start : St) (done_regs : regs -> regs) (repair_state : St -> St).
Context (fuel : mbuf -> Z -> nat).

Definition proto_parse (b : mbuf) (x : pmsg St) : option (pmsg St) :=
  parse_finish start done_regs repair_state b (pm_pos x)
    (parse_loop step (fuel b (pm_pos x)) b (pm_pos x) (pm_state x) (pm_regs x)).

(** What the caller keeps between two calls. *)
Definition pmsg_ok (b : mbuf) (x : pmsg St) : Prop := pinv b (pm_pos x) (pm_state x) (pm_regs x).

(** What each parse result promises. *)
Definition presult_ok (b : mbuf) (x x' : pmsg St) : Prop :=
  match pm_result x' with
  | MSG_PARSE_OK =>
      pm_pos x < pm_pos x' <= mb_last b /\ pm_state x' = start /\
      exists r, pm_regs x' = done_regs r /\ ppost b r
  | MSG_PARSE_AGAIN => pm_pos x' = mb_last b /\ pmsg_ok b x'
  | MSG_PARSE_REPAIR =>
      mb_pos b <= pm_pos x' <= mb_last b /\ mb_last b = mb_end b /\ token (pm_regs x') = None
  | MSG_PARSE_ERROR => pm_pos x' = pm_pos x
  end.

Hypothesis fuel_ok : forall b p s r, pinv b p s r -> (pmeas b p s r < fuel b p)%nat.

Lemma proto_parse_safe b x :
  pgood b -> pmsg_ok b x -> exists x', proto_parse b x = Some x' /\ presult_ok b x x'.
Proof.
  intros Hg HI. pose proof (proto_run_ok (fuel b (pm_pos x)) _ _ _ _ Hg HI (fuel_ok _ _ _ _ HI)) as H.
  unfold proto_parse. destruct (parse_loop _ _ _ _ _ _) as [p s r|p r|s r|s r| |]; simpl in *; try done.
  - destruct H as [-> [HI' Hle]]. destruct (token r) as [t|] eqn:Et; [|by eexists].
    pose proof (pinv_token _ _ _ _ _ HI' Et).
    destruct (Z.eqb_spec (mb_last b) (mb_end b)); [|by eexists].
    eexists; split; [done|]. split_and!; simpl; try done; lia.
  - destruct H as (Hp & ? & ?). eexists; split; [done|].
    split_and!; simpl; [lia|lia|done|by eexists].
  - by eexists.
  - by eexists.
Qed.

(** Messages that are the same to a reader; of a message in error only the
    result is read. *)
Definition pmsg_sim (y z : pmsg St) : Prop :=
  pm_result y = pm_result z /\
  (pm_result y <> MSG_PARSE_ERROR ->
   pm_state y = pm_state z /\ pm_pos y = pm_pos z /\ deq (pm_regs y) (pm_regs z)).

Hypothesis done_regs_deq : forall r r', deq r r' -> deq (done_regs r) (done_regs r').

Lemma finish_sim b q q' x y :
  run_sim peq deq x y -> (forall z, parse_finish start done_regs repair_state b q' y = Some z ->
  exists u, parse_finish start done_regs repair_state b q x = Some u /\ pmsg_sim u z).
Proof.
  intros Hs z. destruct x as [p s r|p r| | | |], y as [p' s' r'|p' r'| | | |]; simpl in *; try done.
  - destruct Hs as (-> & -> & He%peq_deq). destruct (deq_token _ _ He) as [-> Ht].
    repeat case_match; intros; simplify_eq; by eexists.
  - destruct Hs as (-> & He). intros; simplify_eq. eexists; split; [done|]. repeat split; simpl; auto.
  - intros; simplify_eq. eexists; split; [done|]. by split.
  - intros; simplify_eq. eexists; split; [done|]. by split.
Qed.

Lemma proto_parse_resume b1 b2 x x1 :
  pgood b1 -> pgood b2 -> extends b1 b2 -> mb_pos b1 = mb_pos b2 -> pmsg_ok b1 x ->
  proto_parse b1 x = Some x1 -> pm_result x1 = MSG_PARSE_AGAIN ->
  exists y z, proto_parse b2 x = Some y /\ proto_parse b2 x1 = Some z /\ pmsg_sim y z.
Proof.
  intros Hg1 Hg2 Hext Hpos HI H1 Hagain.
  pose proof (proto_run_ok (fuel b1 (pm_pos x)) _ _ _ _ Hg1 HI (fuel_ok _ _ _ _ HI)) as Hok1.
  unfold proto_parse in H1.
  destruct (parse_loop _ (fuel b1 _) _ _ _ _) as [p s r|p r|s r|s r| |] eqn:E1;
    try (simpl in H1; by simplify_eq).
  assert (Hx1 : x1 = mk_pmsg s p MSG_PARSE_AGAIN r) by (simpl in H1; repeat case_match; by simplify_eq).
  destruct Hok1 as [-> [HI1 _]].
  apply (pinv_ext _ _ _ _ _ Hext Hpos) in HI1. pose proof (pinv_ext _ _ _ _ _ Hext Hpos HI) as HI2.
  pose proof (proto_run_ok _ _ _ _ _ Hg2 HI2 (fuel_ok _ _ _ _ HI2)) as Hok2.
  pose proof (proto_run_ok _ _ _ _ _ Hg2 HI1 (fuel_ok _ _ _ _ HI1)) as Hok3.
  pose proof (proto_resume _ (fuel b2 (pm_pos x)) (fuel b2 (mb_last b1)) _ _ _ _ _ _ _ _ Hg1 Hg2 Hext HI E1) as Hsim.
  subst x1. assert (HI3 : pmsg_ok b2 (mk_pmsg s (mb_last b1) MSG_PARSE_AGAIN r)) by done.
  destruct (proto_parse_safe b2 _ Hg2 HI3) as (z & Hz & _).
  unfold proto_parse in Hz |- *. cbn [pm_pos pm_state pm_regs] in *.
  destruct (finish_sim b2 (pm_pos x) (mb_last b1) _ _ (Hsim ltac:(by intros E; rewrite E in Hok2)
    ltac:(by intros E; rewrite E in Hok3)) z Hz) as (u & Hu & ?).
  by exists u, z.
Qed.

End Proto.
