(* ===== verification/StrCmp.v ===== *)
(** The word-wise comparisons of nc_proto.h against byte-wise comparison.

    On a little-endian machine str4cmp to str12cmp compare four bytes at a
    time; str6cmp, str7cmp, str10cmp and str11cmp load a 32-bit word and mask
    it to its two low bytes, so they read up to two bytes past the literal. *)

From S2P Require Import Prelude Mbuf Message Parser.

(** The chunk holds bytes. *)
Definition mbytes_ok (b : mbuf) : Prop := Forall is_u8 (mb_mem b).

Definition u8b (c : Z) : bool := (0 <=? c) && (c <? 256).

Lemma forallb_u8 l : forallb u8b l = true -> Forall is_u8 l.
Proof.
  induction l as [|c l IH]; simpl; [constructor|]. intros H. b2p. constructor; [|by apply IH].
  unfold u8b, is_u8 in *. b2p. lia.
Qed.

(** Reference: the literal is at [m]. *)
Fixpoint bytecmp (b : mbuf) (m : Z) (lit : list Z) : bool :=
  match lit with
  | [] => true
  | c :: lit' =>
      match deref b m with Some x => x =? c | None => false end && bytecmp b (m + 1) lit'
  end.

Lemma deref_u8 b p c : mbytes_ok b -> deref b p = Some c -> is_u8 c.
Proof.
  unfold mbytes_ok, deref, rd. intros H. destruct (0 <=? p); [|done].
  intros E. by eapply Forall_lookup_1 in E.
Qed.

(** Disjoint bits add up. *)
Lemma lor_shiftl_add a c k : 0 <= k -> 0 <= c < 2 ^ k -> Z.lor (Z.shiftl a k) c = a * 2 ^ k + c.
Proof.
  intros Hk Hc. rewrite <- Z.shiftl_mul_pow2 by lia. symmetry. apply Z.add_nocarry_lor.
  apply Z.bits_inj'. intros i Hi. rewrite Z.land_spec, Z.bits_0.
  destruct (decide (i < k)); [rewrite Z.shiftl_spec_low by lia; done|].
  rewrite (range_testbit k c) by lia. apply andb_false_r.
Qed.

Lemma le16_val c0 c1 : is_u8 c0 -> is_u8 c1 -> le16 c0 c1 = c1 * 256 + c0.
Proof. unfold le16, is_u8. intros. by apply lor_shiftl_add. Qed.

Lemma le32_val c0 c1 c2 c3 :
  is_u8 c0 -> is_u8 c1 -> is_u8 c2 -> is_u8 c3 ->
  le32 c0 c1 c2 c3 = c3 * 2 ^ 24 + c2 * 2 ^ 16 + c1 * 2 ^ 8 + c0.
Proof.
  unfold le32, is_u8. intros. rewrite <- !Z.lor_assoc.
  rewrite (lor_shiftl_add c1 c0 8) by lia.
  rewrite (lor_shiftl_add c2 _ 16) by lia. rewrite (lor_shiftl_add c3 _ 24) by lia. lia.
Qed.

Lemma le32_eqb c0 c1 c2 c3 d0 d1 d2 d3 :
  is_u8 c0 -> is_u8 c1 -> is_u8 c2 -> is_u8 c3 ->
  is_u8 d0 -> is_u8 d1 -> is_u8 d2 -> is_u8 d3 ->
  (le32 d0 d1 d2 d3 =? le32 c0 c1 c2 c3) =
  (d0 =? c0) && ((d1 =? c1) && ((d2 =? c2) && (d3 =? c3))).
Proof.
  intros. rewrite !le32_val by done. unfold is_u8 in *.
  apply eq_true_iff_eq. rewrite !andb_true_iff, !Z.eqb_eq. lia.
Qed.

Lemma half_eqb d0 d1 d2 d3 c0 c1 :
  is_u8 c0 -> is_u8 c1 -> is_u8 d0 -> is_u8 d1 -> is_u8 d2 -> is_u8 d3 ->
  (Z.land (le32 d0 d1 d2 d3) 65535 =? le16 c0 c1) = (d0 =? c0) && (d1 =? c1).
Proof.
  intros. rewrite le32_val, le16_val by done. change 65535 with (Z.ones 16).
  rewrite Z.land_ones by lia. unfold is_u8 in *.
  replace ((d3 * 2 ^ 24 + d2 * 2 ^ 16 + d1 * 2 ^ 8 + d0) mod 2 ^ 16) with (d1 * 256 + d0).
  - apply eq_true_iff_eq. rewrite !andb_true_iff, !Z.eqb_eq. lia.
  - apply Z.mod_unique_pos with (d3 * 256 + d2); lia.
Qed.

(** Collect constant offsets: [m + 4 + 1] becomes [m + 5]. *)
Ltac add_consts :=
  repeat match goal with
  | |- context [?m + ?i + ?j] =>
      is_var m; let k := eval vm_compute in (i + j) in replace (m + i + j) with (m + k) by lia
  end.

Section Cmp.
Variable b : mbuf.
Hypothesis Hok : mbytes_ok b.

Lemma word_is_ref m c0 c1 c2 c3 :
  is_u8 c0 -> is_u8 c1 -> is_u8 c2 -> is_u8 c3 ->
  (forall i, m <= i < m + 4 -> is_Some (deref b i)) ->
  word_is b m (le32 c0 c1 c2 c3) = Some (bytecmp b m [c0; c1; c2; c3]).
Proof.
  intros ? ? ? ? H. unfold word_is, load32.
  destruct (H m) as [d0 E0]; [lia|]. destruct (H (m + 1)) as [d1 E1]; [lia|].
  destruct (H (m + 2)) as [d2 E2]; [lia|]. destruct (H (m + 3)) as [d3 E3]; [lia|].
  rewrite E0, E1, E2, E3. simpl.
  replace (m + 1 + 1) with (m + 2) by lia. replace (m + 2 + 1) with (m + 3) by lia.
  rewrite E0, E1, E2, E3, andb_true_r.
  rewrite le32_eqb by (done || by eapply deref_u8). done.
Qed.

Lemma half_is_ref m c0 c1 :
  is_u8 c0 -> is_u8 c1 -> (forall i, m <= i < m + 4 -> is_Some (deref b i)) ->
  half_is b m (le16 c0 c1) = Some (bytecmp b m [c0; c1]).
Proof.
  intros ? ? H. unfold half_is, load32.
  destruct (H m) as [d0 E0]; [lia|]. destruct (H (m + 1)) as [d1 E1]; [lia|].
  destruct (H (m + 2)) as [d2 E2]; [lia|]. destruct (H (m + 3)) as [d3 E3]; [lia|].
  rewrite E0, E1, E2, E3. simpl. rewrite E0, E1, andb_true_r.
  rewrite half_eqb by (done || by eapply deref_u8). done.
Qed.

Lemma byte_is_ref m c : is_Some (deref b m) -> byte_is b m c = Some (bytecmp b m [c]).
Proof. intros [d E]. unfold byte_is. simpl. by rewrite E, andb_true_r. Qed.

Lemma and_then_ref x y : and_then (Some x) (Some y) = Some (x && y).
Proof. by destruct x. Qed.

Lemma bytecmp_app m l k : bytecmp b m (l ++ k) = bytecmp b m l && bytecmp b (m + zlen l) k.
Proof.
  revert m. induction l as [|c l IH]; intros m; simpl.
  - f_equal. unfold zlen; simpl. lia.
  - rewrite IH, zlen_cons, andb_assoc. by rewrite Z.add_assoc.
Qed.

Lemma strcmp_bytecmp m lit :
  Forall is_u8 lit -> 4 <= zlen lit <= 12 ->
  (forall i, m <= i < m + zlen lit + 2 -> is_Some (deref b i)) ->
  strcmp b m lit = Some (bytecmp b m lit).
Proof.
  intros Hl Hn H.
  do 13 (try (destruct lit as [|? lit])).
  all: repeat match goal with X : Forall _ (_ :: _) |- _ => apply Forall_cons_iff in X as [? X] end.
  all: unfold zlen in H, Hn; simpl in H, Hn; try lia.
  all: unfold strcmp, str12cmp, str11cmp, str10cmp, str9cmp, str8cmp, str7cmp, str6cmp, str5cmp, str4cmp.
  all: rewrite ?word_is_ref, ?half_is_ref, ?byte_is_ref, ?and_then_ref
         by (done || (intros; apply H; lia) || (apply H; lia)).
  all: f_equal; simpl; rewrite ?andb_true_r, <- ?andb_assoc.
  all: add_consts; done.
Qed.

(** The strNcmp macros (4 to 12 bytes, little-endian word loads) decide
    whether the literal is at [m], as a byte-wise comparison does, provided
    the two bytes after it can be read. *)
Theorem strcmp_bytewise m lit :
  Forall is_u8 lit -> 4 <= zlen lit <= 12 ->
  (forall i, m <= i < m + zlen lit + 2 -> is_Some (deref b i)) ->
  strcmp b m lit = Some (bytecmp b m lit).
Proof. apply strcmp_bytecmp. Qed.

End Cmp.

Lemma strcmp_bytewise_witness :
  strcmp (buf_of 1 64 (bytes_of "-NOAUTH x")) 0 (bytes_of "-NOAUTH") =
  Some (bytecmp (buf_of 1 64 (bytes_of "-NOAUTH x")) 0 (bytes_of "-NOAUTH")).
Proof.
  apply (strcmp_bytewise (buf_of 1 64 (bytes_of "-NOAUTH x"))).
  - apply forallb_u8. vm_compute. reflexivity.
  - apply forallb_u8. vm_compute. reflexivity.
  - split; vm_compute; discriminate.
  - intros i Hi. apply rd_is_Some.
    change (zlen (bytes_of "-NOAUTH")) with 7 in Hi.
    change (zlen (mb_mem (buf_of 1 64 (bytes_of "-NOAUTH x")))) with 112. lia.
Defined.

(** ** Chains of comparisons *)

(** Every literal of the chain has [len] bytes, as the case it is in says, or
    one more, the blank or CR that ended the word. *)
Definition lits_ok (len : Z) (tbl : list (list Z * msg_type)) : bool :=
  forallb (fun e => forallb u8b (fst e) && (zlen (fst e) <=? len + 1) &&
                     (4 <=? zlen (fst e)) && (zlen (fst e) <=? 12)) tbl.

(** Reference: the first entry whose literal is at [m]. *)
Fixpoint first_ref (b : mbuf) (m : Z) (tbl : list (list Z * msg_type)) : option msg_type :=
  match tbl with
  | [] => None
  | (lit, t) :: tbl' => if bytecmp b m lit then Some t else first_ref b m tbl'
  end.

Lemma first_cmp_ref b m len tbl :
  mbytes_ok b -> lits_ok len tbl = true ->
  (forall i, m <= i < m + len + 3 -> is_Some (deref b i)) ->
  first_cmp b m tbl = Some (first_ref b m tbl).
Proof.
  intros Hb Hl Hr. induction tbl as [|[lit t] tbl IH]; simpl in *; [done|]. b2p.
  rewrite strcmp_bytecmp by (done || lia || (by apply forallb_u8) || (intros; apply Hr; lia)).
  destruct (bytecmp b m lit); [done|]. by apply IH.
Qed.

Lemma bytecmp_ext b b' m lit :
  (forall i, m <= i < m + zlen lit -> deref b' i = deref b i) -> bytecmp b' m lit = bytecmp b m lit.
Proof.
  revert m. induction lit as [|c lit IH]; intros m H; simpl; [done|].
  rewrite zlen_cons in H. pose proof (zlen_nonneg lit). rewrite (H m), IH; [done| |lia].
  intros. apply H. lia.
Qed.

Lemma first_ref_ext b b' m len tbl :
  lits_ok len tbl = true -> (forall i, m <= i <= m + len -> deref b' i = deref b i) ->
  first_ref b' m tbl = first_ref b m tbl.
Proof.
  intros Hl H. induction tbl as [|[lit t] tbl IH]; simpl in *; [done|]. b2p.
  rewrite (bytecmp_ext b b') by (intros; apply H; lia). by rewrite IH.
Qed.
