(* ===== verification/RedisReq.v ===== *)
(** The redis request parser: redis_parse_req and the command predicates of
    proto/nc_redis.c.

    Every state of the source's switch is one definition, named after it;
    [req_step] is the switch and [redis_parse_req] the function. *)

From S2P Require Import Prelude CArray Mbuf Message Parser.

(** The command takes no key. *)
Definition redis_argz (t : msg_type) : bool :=
  match t with
  | MSG_REQ_REDIS_PING | MSG_REQ_REDIS_QUIT => true
  | _ => false
  end.

(** The command takes a key and no argument. *)
Definition redis_arg0 (t : msg_type) : bool :=
  match t with
  | MSG_REQ_REDIS_EXISTS | MSG_REQ_REDIS_PERSIST | MSG_REQ_REDIS_PTTL |
  MSG_REQ_REDIS_TTL | MSG_REQ_REDIS_TYPE | MSG_REQ_REDIS_DUMP | MSG_REQ_REDIS_DECR |
  MSG_REQ_REDIS_GET | MSG_REQ_REDIS_INCR | MSG_REQ_REDIS_STRLEN | MSG_REQ_REDIS_HGETALL
  | MSG_REQ_REDIS_HKEYS | MSG_REQ_REDIS_HLEN | MSG_REQ_REDIS_HVALS | MSG_REQ_REDIS_LLEN
  | MSG_REQ_REDIS_LPOP | MSG_REQ_REDIS_RPOP | MSG_REQ_REDIS_SCARD |
  MSG_REQ_REDIS_SMEMBERS | MSG_REQ_REDIS_SPOP | MSG_REQ_REDIS_ZCARD |
  MSG_REQ_REDIS_PFCOUNT | MSG_REQ_REDIS_AUTH | MSG_REQ_REDIS_SELECT_CLIENT |
  MSG_REQ_REDIS_SET_SLOW_THRESHOLD => true
  | _ => false
  end.

(** The command takes exactly 1 argument. *)
Definition redis_arg1 (t : msg_type) : bool :=
  match t with
  | MSG_REQ_REDIS_EXPIRE | MSG_REQ_REDIS_EXPIREAT | MSG_REQ_REDIS_PEXPIRE |
  MSG_REQ_REDIS_PEXPIREAT | MSG_REQ_REDIS_APPEND | MSG_REQ_REDIS_DECRBY |
  MSG_REQ_REDIS_GETBIT | MSG_REQ_REDIS_GETSET | MSG_REQ_REDIS_INCRBY |
  MSG_REQ_REDIS_INCRBYFLOAT | MSG_REQ_REDIS_SETNX | MSG_REQ_REDIS_HEXISTS |
  MSG_REQ_REDIS_HGET | MSG_REQ_REDIS_LINDEX | MSG_REQ_REDIS_LPUSHX |
  MSG_REQ_REDIS_RPOPLPUSH | MSG_REQ_REDIS_RPUSHX | MSG_REQ_REDIS_SISMEMBER |
  MSG_REQ_REDIS_ZRANK | MSG_REQ_REDIS_ZREVRANK | MSG_REQ_REDIS_ZSCORE => true
  | _ => false
  end.

(** The command takes exactly 2 arguments. *)
Definition redis_arg2 (t : msg_type) : bool :=
  match t with
  | MSG_REQ_REDIS_GETRANGE | MSG_REQ_REDIS_PSETEX | MSG_REQ_REDIS_SETBIT |
  MSG_REQ_REDIS_SETEX | MSG_REQ_REDIS_SETRANGE | MSG_REQ_REDIS_HINCRBY |
  MSG_REQ_REDIS_HINCRBYFLOAT | MSG_REQ_REDIS_HSET | MSG_REQ_REDIS_HSETNX |
  MSG_REQ_REDIS_LRANGE | MSG_REQ_REDIS_LREM | MSG_REQ_REDIS_LSET | MSG_REQ_REDIS_LTRIM |
  MSG_REQ_REDIS_SMOVE | MSG_REQ_REDIS_ZCOUNT | MSG_REQ_REDIS_ZLEXCOUNT |
  MSG_REQ_REDIS_ZINCRBY | MSG_REQ_REDIS_ZREMRANGEBYLEX | MSG_REQ_REDIS_ZREMRANGEBYRANK |
  MSG_REQ_REDIS_ZREMRANGEBYSCORE | MSG_REQ_REDIS_RESTORE => true
  | _ => false
  end.

(** The command takes exactly 3 arguments. *)
Definition redis_arg3 (t : msg_type) : bool :=
  match t with
  | MSG_REQ_REDIS_LINSERT => true
  | _ => false
  end.

(** The command takes 0 or more arguments. *)
Definition redis_argn (t : msg_type) : bool :=
  match t with
  | MSG_REQ_REDIS_SORT | MSG_REQ_REDIS_BITCOUNT | MSG_REQ_REDIS_BITPOS |
  MSG_REQ_REDIS_SET | MSG_REQ_REDIS_HDEL | MSG_REQ_REDIS_HMGET | MSG_REQ_REDIS_HMSET |
  MSG_REQ_REDIS_HSCAN | MSG_REQ_REDIS_LPUSH | MSG_REQ_REDIS_RPUSH | MSG_REQ_REDIS_SADD |
  MSG_REQ_REDIS_SDIFF | MSG_REQ_REDIS_SDIFFSTORE | MSG_REQ_REDIS_SINTER |
  MSG_REQ_REDIS_SINTERSTORE | MSG_REQ_REDIS_SREM | MSG_REQ_REDIS_SUNION |
  MSG_REQ_REDIS_SUNIONSTORE | MSG_REQ_REDIS_SRANDMEMBER | MSG_REQ_REDIS_SSCAN |
  MSG_REQ_REDIS_PFADD | MSG_REQ_REDIS_PFMERGE | MSG_REQ_REDIS_ZADD |
  MSG_REQ_REDIS_ZINTERSTORE | MSG_REQ_REDIS_ZRANGE | MSG_REQ_REDIS_ZRANGEBYSCORE |
  MSG_REQ_REDIS_ZREM | MSG_REQ_REDIS_ZREVRANGE | MSG_REQ_REDIS_ZRANGEBYLEX |
  MSG_REQ_REDIS_ZREVRANGEBYSCORE | MSG_REQ_REDIS_ZUNIONSTORE | MSG_REQ_REDIS_ZSCAN =>
  true
  | _ => false
  end.

(** A vector command over keys. *)
Definition redis_argx (t : msg_type) : bool :=
  match t with
  | MSG_REQ_REDIS_MGET | MSG_REQ_REDIS_DEL => true
  | _ => false
  end.

(** A vector command over key-value pairs. *)
Definition redis_argkvx (t : msg_type) : bool :=
  match t with
  | MSG_REQ_REDIS_MSET => true
  | _ => false
  end.

(** EVAL or EVALSHA. *)
Definition redis_argeval (t : msg_type) : bool :=
  match t with
  | MSG_REQ_REDIS_EVAL | MSG_REQ_REDIS_EVALSHA => true
  | _ => false
  end.

(** An error response. *)
Definition redis_error (t : msg_type) : bool :=
  match t with
  | MSG_RSP_REDIS_ERROR | MSG_RSP_REDIS_ERROR_ERR | MSG_RSP_REDIS_ERROR_OOM |
  MSG_RSP_REDIS_ERROR_BUSY | MSG_RSP_REDIS_ERROR_NOAUTH | MSG_RSP_REDIS_ERROR_LOADING |
  MSG_RSP_REDIS_ERROR_BUSYKEY | MSG_RSP_REDIS_ERROR_MISCONF |
  MSG_RSP_REDIS_ERROR_NOSCRIPT | MSG_RSP_REDIS_ERROR_READONLY |
  MSG_RSP_REDIS_ERROR_WRONGTYPE | MSG_RSP_REDIS_ERROR_EXECABORT |
  MSG_RSP_REDIS_ERROR_MASTERDOWN | MSG_RSP_REDIS_ERROR_NOREPLICAS => true
  | _ => false
  end.

(** A transient server failure response. *)
Definition redis_failure (t : msg_type) : bool :=
  match t with
  | MSG_RSP_REDIS_ERROR_OOM | MSG_RSP_REDIS_ERROR_BUSY | MSG_RSP_REDIS_ERROR_LOADING =>
  true
  | _ => false
  end.

(** What a command's branch sets besides the type. *)
Inductive effect := E_none | E_noforward | E_quit.

(** The command names of the [switch (p - m)], by length, in source order. *)
Definition redis_cmds_3 : list (list Z * msg_type * effect) :=
  [(bytes_of "get", MSG_REQ_REDIS_GET, E_none);
   (bytes_of "set", MSG_REQ_REDIS_SET, E_none);
   (bytes_of "ttl", MSG_REQ_REDIS_TTL, E_none);
   (bytes_of "del", MSG_REQ_REDIS_DEL, E_none)].

Definition redis_cmds_4 : list (list Z * msg_type * effect) :=
  [(bytes_of "pttl", MSG_REQ_REDIS_PTTL, E_none);
   (bytes_of "decr", MSG_REQ_REDIS_DECR, E_none);
   (bytes_of "dump", MSG_REQ_REDIS_DUMP, E_none);
   (bytes_of "hdel", MSG_REQ_REDIS_HDEL, E_none);
   (bytes_of "hget", MSG_REQ_REDIS_HGET, E_none);
   (bytes_of "hlen", MSG_REQ_REDIS_HLEN, E_none);
   (bytes_of "hset", MSG_REQ_REDIS_HSET, E_none);
   (bytes_of "incr", MSG_REQ_REDIS_INCR, E_none);
   (bytes_of "llen", MSG_REQ_REDIS_LLEN, E_none);
   (bytes_of "lpop", MSG_REQ_REDIS_LPOP, E_none);
   (bytes_of "lrem", MSG_REQ_REDIS_LREM, E_none);
   (bytes_of "lset", MSG_REQ_REDIS_LSET, E_none);
   (bytes_of "rpop", MSG_REQ_REDIS_RPOP, E_none);
   (bytes_of "sadd", MSG_REQ_REDIS_SADD, E_none);
   (bytes_of "spop", MSG_REQ_REDIS_SPOP, E_none);
   (bytes_of "srem", MSG_REQ_REDIS_SREM, E_none);
   (bytes_of "type", MSG_REQ_REDIS_TYPE, E_none);
   (bytes_of "mget", MSG_REQ_REDIS_MGET, E_none);
   (bytes_of "mset", MSG_REQ_REDIS_MSET, E_none);
   (bytes_of "zadd", MSG_REQ_REDIS_ZADD, E_none);
   (bytes_of "zrem", MSG_REQ_REDIS_ZREM, E_none);
   (bytes_of "eval", MSG_REQ_REDIS_EVAL, E_none);
   (bytes_of "sort", MSG_REQ_REDIS_SORT, E_none);
   (bytes_of "ping", MSG_REQ_REDIS_PING, E_noforward);
   (bytes_of "quit", MSG_REQ_REDIS_QUIT, E_quit);
   (bytes_of "auth", MSG_REQ_REDIS_AUTH, E_noforward)].

Definition redis_cmds_5 : list (list Z * msg_type * effect) :=
  [(bytes_of "hkeys", MSG_REQ_REDIS_HKEYS, E_none);
   (bytes_of "hmget", MSG_REQ_REDIS_HMGET, E_none);
   (bytes_of "hmset", MSG_REQ_REDIS_HMSET, E_none);
   (bytes_of "hvals", MSG_REQ_REDIS_HVALS, E_none);
   (bytes_of "hscan", MSG_REQ_REDIS_HSCAN, E_none);
   (bytes_of "lpush", MSG_REQ_REDIS_LPUSH, E_none);
   (bytes_of "ltrim", MSG_REQ_REDIS_LTRIM, E_none);
   (bytes_of "rpush", MSG_REQ_REDIS_RPUSH, E_none);
   (bytes_of "scard", MSG_REQ_REDIS_SCARD, E_none);
   (bytes_of "sdiff", MSG_REQ_REDIS_SDIFF, E_none);
   (bytes_of "setex", MSG_REQ_REDIS_SETEX, E_none);
   (bytes_of "setnx", MSG_REQ_REDIS_SETNX, E_none);
   (bytes_of "smove", MSG_REQ_REDIS_SMOVE, E_none);
   (bytes_of "sscan", MSG_REQ_REDIS_SSCAN, E_none);
   (bytes_of "zcard", MSG_REQ_REDIS_ZCARD, E_none);
   (bytes_of "zrank", MSG_REQ_REDIS_ZRANK, E_none);
   (bytes_of "zscan", MSG_REQ_REDIS_ZSCAN, E_none);
   (bytes_of "pfadd", MSG_REQ_REDIS_PFADD, E_none)].

Definition redis_cmds_6 : list (list Z * msg_type * effect) :=
  [(bytes_of "append", MSG_REQ_REDIS_APPEND, E_none);
   (bytes_of "bitpos", MSG_REQ_REDIS_BITPOS, E_none);
   (bytes_of "decrby", MSG_REQ_REDIS_DECRBY, E_none);
   (bytes_of "exists", MSG_REQ_REDIS_EXISTS, E_none);
   (bytes_of "expire", MSG_REQ_REDIS_EXPIRE, E_none);
   (bytes_of "getbit", MSG_REQ_REDIS_GETBIT, E_none);
   (bytes_of "getset", MSG_REQ_REDIS_GETSET, E_none);
   (bytes_of "psetex", MSG_REQ_REDIS_PSETEX, E_none);
   (bytes_of "hsetnx", MSG_REQ_REDIS_HSETNX, E_none);
   (bytes_of "incrby", MSG_REQ_REDIS_INCRBY, E_none);
   (bytes_of "lindex", MSG_REQ_REDIS_LINDEX, E_none);
   (bytes_of "lpushx", MSG_REQ_REDIS_LPUSHX, E_none);
   (bytes_of "lrange", MSG_REQ_REDIS_LRANGE, E_none);
   (bytes_of "rpushx", MSG_REQ_REDIS_RPUSHX, E_none);
   (bytes_of "select", MSG_REQ_REDIS_SELECT_CLIENT, E_noforward);
   (bytes_of "setbit", MSG_REQ_REDIS_SETBIT, E_none);
   (bytes_of "sinter", MSG_REQ_REDIS_SINTER, E_none);
   (bytes_of "strlen", MSG_REQ_REDIS_STRLEN, E_none);
   (bytes_of "sunion", MSG_REQ_REDIS_SUNION, E_none);
   (bytes_of "zcount", MSG_REQ_REDIS_ZCOUNT, E_none);
   (bytes_of "zrange", MSG_REQ_REDIS_ZRANGE, E_none);
   (bytes_of "zscore", MSG_REQ_REDIS_ZSCORE, E_none)].

Definition redis_cmds_7 : list (list Z * msg_type * effect) :=
  [(bytes_of "persist", MSG_REQ_REDIS_PERSIST, E_none);
   (bytes_of "pexpire", MSG_REQ_REDIS_PEXPIRE, E_none);
   (bytes_of "hexists", MSG_REQ_REDIS_HEXISTS, E_none);
   (bytes_of "hgetall", MSG_REQ_REDIS_HGETALL, E_none);
   (bytes_of "hincrby", MSG_REQ_REDIS_HINCRBY, E_none);
   (bytes_of "linsert", MSG_REQ_REDIS_LINSERT, E_none);
   (bytes_of "zincrby", MSG_REQ_REDIS_ZINCRBY, E_none);
   (bytes_of "evalsha", MSG_REQ_REDIS_EVALSHA, E_none);
   (bytes_of "restore", MSG_REQ_REDIS_RESTORE, E_none);
   (bytes_of "pfcount", MSG_REQ_REDIS_PFCOUNT, E_none);
   (bytes_of "pfmerge", MSG_REQ_REDIS_PFMERGE, E_none)].

Definition redis_cmds_8 : list (list Z * msg_type * effect) :=
  [(bytes_of "expireat", MSG_REQ_REDIS_EXPIREAT, E_none);
   (bytes_of "bitcount", MSG_REQ_REDIS_BITCOUNT, E_none);
   (bytes_of "getrange", MSG_REQ_REDIS_GETRANGE, E_none);
   (bytes_of "setrange", MSG_REQ_REDIS_SETRANGE, E_none);
   (bytes_of "smembers", MSG_REQ_REDIS_SMEMBERS, E_none);
   (bytes_of "zrevrank", MSG_REQ_REDIS_ZREVRANK, E_none)].

Definition redis_cmds_9 : list (list Z * msg_type * effect) :=
  [(bytes_of "pexpireat", MSG_REQ_REDIS_PEXPIREAT, E_none);
   (bytes_of "rpoplpush", MSG_REQ_REDIS_RPOPLPUSH, E_none);
   (bytes_of "sismember", MSG_REQ_REDIS_SISMEMBER, E_none);
   (bytes_of "zrevrange", MSG_REQ_REDIS_ZREVRANGE, E_none);
   (bytes_of "zlexcount", MSG_REQ_REDIS_ZLEXCOUNT, E_none);
   (bytes_of "threshold", MSG_REQ_REDIS_SET_SLOW_THRESHOLD, E_noforward)].

Definition redis_cmds_10 : list (list Z * msg_type * effect) :=
  [(bytes_of "sdiffstore", MSG_REQ_REDIS_SDIFFSTORE, E_none)].

Definition redis_cmds_11 : list (list Z * msg_type * effect) :=
  [(bytes_of "incrbyfloat", MSG_REQ_REDIS_INCRBYFLOAT, E_none);
   (bytes_of "sinterstore", MSG_REQ_REDIS_SINTERSTORE, E_none);
   (bytes_of "srandmember", MSG_REQ_REDIS_SRANDMEMBER, E_none);
   (bytes_of "sunionstore", MSG_REQ_REDIS_SUNIONSTORE, E_none);
   (bytes_of "zinterstore", MSG_REQ_REDIS_ZINTERSTORE, E_none);
   (bytes_of "zunionstore", MSG_REQ_REDIS_ZUNIONSTORE, E_none);
   (bytes_of "zrangebylex", MSG_REQ_REDIS_ZRANGEBYLEX, E_none)].

Definition redis_cmds_12 : list (list Z * msg_type * effect) :=
  [(bytes_of "hincrbyfloat", MSG_REQ_REDIS_HINCRBYFLOAT, E_none)].

Definition redis_cmds_13 : list (list Z * msg_type * effect) :=
  [(bytes_of "zrangebyscore", MSG_REQ_REDIS_ZRANGEBYSCORE, E_none)].

Definition redis_cmds_14 : list (list Z * msg_type * effect) :=
  [(bytes_of "zremrangebylex", MSG_REQ_REDIS_ZREMRANGEBYLEX, E_none)].

Definition redis_cmds_15 : list (list Z * msg_type * effect) :=
  [(bytes_of "zremrangebyrank", MSG_REQ_REDIS_ZREMRANGEBYRANK, E_none)].

Definition redis_cmds_16 : list (list Z * msg_type * effect) :=
  [(bytes_of "zremrangebyscore", MSG_REQ_REDIS_ZREMRANGEBYSCORE, E_none);
   (bytes_of "zrevrangebyscore", MSG_REQ_REDIS_ZREVRANGEBYSCORE, E_none)].

(** The parser states. *)
Inductive req_state :=
| SW_START | SW_NARG | SW_NARG_LF
| SW_REQ_TYPE_LEN | SW_REQ_TYPE_LEN_LF | SW_REQ_TYPE | SW_REQ_TYPE_LF
| SW_KEY_LEN | SW_KEY_LEN_LF | SW_KEY | SW_KEY_LF
| SW_ARG1_LEN | SW_ARG1_LEN_LF | SW_ARG1 | SW_ARG1_LF
| SW_ARG2_LEN | SW_ARG2_LEN_LF | SW_ARG2 | SW_ARG2_LF
| SW_ARG3_LEN | SW_ARG3_LEN_LF | SW_ARG3 | SW_ARG3_LF
| SW_ARGN_LEN | SW_ARGN_LEN_LF | SW_ARGN | SW_ARGN_LF.

#[export] Instance req_state_eq_dec : EqDecision req_state.
Proof. solve_decision. Defined.

(** [r->token == NULL] *)
Definition no_token (r : regs) : bool := match token r with None => true | Some _ => false end.
Definition token_or (r : regs) (p : Z) : Z := default p (token r).

(** The chain of [if (strNicmp(...)) { ...; break; }] of one case. *)
Fixpoint first_icmp (b : mbuf) (m : Z) (tbl : list (list Z * msg_type * effect))
    : option (option (msg_type * effect)) :=
  match tbl with
  | [] => Some None
  | (lit, t, e) :: tbl' =>
      match stricmp b m lit with
      | None => None
      | Some true => Some (Some (t, e))
      | Some false => first_icmp b m tbl'
      end
  end.

(** [switch (p - m)]; case 10 falls through to case 11. *)
Definition req_type_switch (b : mbuf) (m len : Z) : option (option (msg_type * effect)) :=
  match len with
  | 3 => first_icmp b m redis_cmds_3
  | 4 => first_icmp b m redis_cmds_4
  | 5 => first_icmp b m redis_cmds_5
  | 6 => first_icmp b m redis_cmds_6
  | 7 => first_icmp b m redis_cmds_7
  | 8 => first_icmp b m redis_cmds_8
  | 9 => first_icmp b m redis_cmds_9
  | 10 => first_icmp b m (redis_cmds_10 ++ redis_cmds_11)
  | 11 => first_icmp b m redis_cmds_11
  | 12 => first_icmp b m redis_cmds_12
  | 13 => first_icmp b m redis_cmds_13
  | 14 => first_icmp b m redis_cmds_14
  | 15 => first_icmp b m redis_cmds_15
  | 16 => first_icmp b m redis_cmds_16
  | _ => Some None
  end.

Definition apply_effect (e : effect) (r : regs) : regs :=
  match e with
  | E_none => r
  | E_noforward => set_noforward r true
  | E_quit => set_quit r true
  end.

Section Req.
Variable ok : Z -> bool.        (* the allocator behind array_push *)
Variable data_size : Z.         (* mbuf_data_size() *)

Abbreviation oc := (outcome req_state).

(** SW_START and SW_NARG: the test of the first byte against '*' has an
    empty body, so every byte is taken. *)
Definition step_narg (b : mbuf) (p ch : Z) (s : req_state) (r : regs) : oc :=
  if no_token r then
    let r1 := set_token r (Some p) in
    let r2 := set_narg_start r1 (Some (mk_ptr (mb_id b) p)) in
    Break p SW_NARG (set_rnarg r2 0)
  else if isdigit ch then Break p s (set_rnarg r (dec_acc (rnarg r) ch))
  else if ch =? CR then
    if rnarg r =? 0 then Error s r
    else
      let r1 := set_narg r (rnarg r) in
      let r2 := set_narg_end r1 (Some (mk_ptr (mb_id b) p)) in
      Break p SW_NARG_LF (set_token r2 None)
  else Error s r.

Definition step_narg_lf (b : mbuf) (p ch : Z) (s : req_state) (r : regs) : oc :=
  if ch =? LF then Break p SW_REQ_TYPE_LEN r else Error s r.

Definition step_req_type_len (b : mbuf) (p ch : Z) (s : req_state) (r : regs) : oc :=
  if no_token r then
    if negb (ch =? 36) then Error s r
    else Break p s (set_rlen (set_token r (Some p)) 0)
  else if isdigit ch then Break p s (set_rlen r (dec_acc (rlen r) ch))
  else if ch =? CR then
    if (rlen r =? 0) || (rnarg r =? 0) then Error s r
    else Break p SW_REQ_TYPE_LEN_LF (set_token (set_rnarg r (u32 (rnarg r - 1))) None)
  else Error s r.

Definition step_req_type_len_lf (b : mbuf) (p ch : Z) (s : req_state) (r : regs) : oc :=
  if ch =? LF then Break p SW_REQ_TYPE r else Error s r.

Definition step_req_type (b : mbuf) (p ch : Z) (s : req_state) (r : regs) : oc :=
  let tok := token_or r p in
  let r := set_token r (Some tok) in
  let m := tok + rlen r in
  if mb_last b <=? m then Break (mb_last b - 1) s r
  else
    match deref b m with
    | None => Fault
    | Some c =>
        if negb (c =? CR) then Error s r
        else
          let r := set_type (set_token (set_rlen r 0) None) MSG_UNKNOWN in
          match req_type_switch b tok (m - tok) with
          | None => Fault
          | Some None => Error s r
          | Some (Some (t, e)) => Break m SW_REQ_TYPE_LF (apply_effect e (set_type r t))
          end
    end.

Definition step_req_type_lf (b : mbuf) (p ch : Z) (s : req_state) (r : regs) : oc :=
  if ch =? LF then
    if redis_argz (type r) then Done p r
    else if narg r =? 1 then Error s r
    else if redis_argeval (type r) then Break p SW_ARG1_LEN r
    else Break p SW_KEY_LEN r
  else Error s r.

Definition step_key_len (b : mbuf) (p ch : Z) (s : req_state) (r : regs) : oc :=
  if no_token r then
    if negb (ch =? 36) then Error s r
    else Break p s (set_rlen (set_token r (Some p)) 0)
  else if isdigit ch then Break p s (set_rlen r (dec_acc (rlen r) ch))
  else if ch =? CR then
    if data_size <=? rlen r then Error s r
    else if rnarg r =? 0 then Error s r
    else Break p SW_KEY_LEN_LF (set_token (set_rnarg r (u32 (rnarg r - 1))) None)
  else Error s r.

Definition step_key_len_lf (b : mbuf) (p ch : Z) (s : req_state) (r : regs) : oc :=
  if ch =? LF then Break p SW_KEY r else Error s r.

Definition step_key (b : mbuf) (p ch : Z) (s : req_state) (r : regs) : oc :=
  let tok := token_or r p in
  let r := set_token r (Some tok) in
  let m := tok + rlen r in
  if mb_last b <=? m then Break (mb_last b - 1) s r
  else
    match deref b m with
    | None => Fault
    | Some c =>
        if negb (c =? CR) then Error s r
        else
          let r := set_token (set_rlen r 0) None in
          match push_key ok r b tok m with
          | None => Enomem s r
          | Some r' => Break m SW_KEY_LF r'
          end
    end.

Definition step_key_lf (b : mbuf) (p ch : Z) (s : req_state) (r : regs) : oc :=
  let t := type r in
  if ch =? LF then
    if redis_arg0 t then
      if negb (rnarg r =? 0) then Error s r else Done p r
    else if redis_arg1 t then
      if negb (rnarg r =? 1) then Error s r else Break p SW_ARG1_LEN r
    else if redis_arg2 t then
      if negb (rnarg r =? 2) then Error s r else Break p SW_ARG1_LEN r
    else if redis_arg3 t then
      if negb (rnarg r =? 3) then Error s r else Break p SW_ARG1_LEN r
    else if redis_argn t then
      if rnarg r =? 0 then Done p r else Break p SW_ARG1_LEN r
    else if redis_argx t then
      if rnarg r =? 0 then Done p r else Break p SW_KEY_LEN r
    else if redis_argkvx t then
      if narg r mod 2 =? 0 then Error s r else Break p SW_ARG1_LEN r
    else if redis_argeval t then
      if rnarg r =? 0 then Done p r else Break p SW_ARGN_LEN r
    else Error s r
  else Error s r.

(** The SW_ARGx_LEN states differ only in the state they lead to. *)
Definition step_len_to (next : req_state) (p ch : Z) (s : req_state) (r : regs) : oc :=
  match token r with
  | None =>
      if negb (ch =? 36) then Error s r
      else Break p s (set_token (set_rlen r 0) (Some p))
  | Some tok =>
      if isdigit ch then Break p s (set_rlen r (dec_acc (rlen r) ch))
      else if ch =? CR then
        if (p - tok <=? 1) || (rnarg r =? 0) then Error s r
        else Break p next (set_token (set_rnarg r (u32 (rnarg r - 1))) None)
      else Error s r
  end.

(** The SW_ARG1, SW_ARG3 and SW_ARGN states skip [rlen] bytes. *)
Definition step_skip_to (next : req_state) (b : mbuf) (p : Z) (s : req_state) (r : regs) : oc :=
  let m := p + rlen r in
  if mb_last b <=? m then Break (mb_last b - 1) s (set_rlen r (u32 (rlen r - u32 (mb_last b - p))))
  else
    match deref b m with
    | None => Fault
    | Some c =>
        if negb (c =? CR) then Error s r
        else Break m next (set_rlen r 0)
    end.

Definition step_arg1_len (b : mbuf) (p ch : Z) (s : req_state) (r : regs) : oc :=
  step_len_to SW_ARG1_LEN_LF p ch s r.

Definition step_arg1_len_lf (b : mbuf) (p ch : Z) (s : req_state) (r : regs) : oc :=
  if ch =? LF then Break p SW_ARG1 r else Error s r.

Definition step_arg1 (b : mbuf) (p ch : Z) (s : req_state) (r : regs) : oc :=
  step_skip_to SW_ARG1_LF b p s r.

Definition step_arg1_lf (b : mbuf) (p ch : Z) (s : req_state) (r : regs) : oc :=
  let t := type r in
  if ch =? LF then
    if redis_arg1 t then
      if negb (rnarg r =? 0) then Error s r else Done p r
    else if redis_arg2 t then
      if negb (rnarg r =? 1) then Error s r else Break p SW_ARG2_LEN r
    else if redis_arg3 t then
      if negb (rnarg r =? 2) then Error s r else Break p SW_ARG2_LEN r
    else if redis_argn t then
      if rnarg r =? 0 then Done p r else Break p SW_ARGN_LEN r
    else if redis_argeval t then
      if rnarg r <? 2 then Error s r else Break p SW_ARG2_LEN r
    else if redis_argkvx t then
      if rnarg r =? 0 then Done p r else Break p SW_KEY_LEN r
    else Error s r
  else Error s r.

Definition step_arg2_len (b : mbuf) (p ch : Z) (s : req_state) (r : regs) : oc :=
  step_len_to SW_ARG2_LEN_LF p ch s r.

Definition step_arg2_len_lf (b : mbuf) (p ch : Z) (s : req_state) (r : regs) : oc :=
  if ch =? LF then Break p SW_ARG2 r else Error s r.

(** The key count of EVAL, over the bytes [chp, chp + n). The outer option
    is the fault, the inner one [goto error]. *)
Fixpoint eval_nkey (b : mbuf) (chp : Z) (n : nat) (nkey : Z) : option (option Z) :=
  match n with
  | O => Some (Some nkey)
  | S n' =>
      match deref b chp with
      | None => None
      | Some c => if isdigit c then eval_nkey b (chp + 1) n' (dec_acc nkey c) else Some None
      end
  end.

Definition step_arg2 (b : mbuf) (p ch : Z) (s : req_state) (r : regs) : oc :=
  let r := if no_token r && redis_argeval (type r) then set_token r (Some p) else r in
  let m := p + rlen r in
  if mb_last b <=? m then Break (mb_last b - 1) s (set_rlen r (u32 (rlen r - u32 (mb_last b - p))))
  else
    match deref b m with
    | None => Fault
    | Some c =>
        if negb (c =? CR) then Error s r
        else
          let r := set_rlen r 0 in
          if redis_argeval (type r) then
            let tok := token_or r p in
            if m - tok <? 1 then Error s r
            else
              match eval_nkey b tok (Z.to_nat (m - tok)) 0 with
              | None => Fault
              | Some None => Error s r
              | Some (Some nkey) =>
                  if nkey =? 0 then Error s r
                  else Break m SW_ARG2_LF (set_token r None)
              end
          else Break m SW_ARG2_LF r
    end.

Definition step_arg2_lf (b : mbuf) (p ch : Z) (s : req_state) (r : regs) : oc :=
  let t := type r in
  if ch =? LF then
    if redis_arg2 t then
      if negb (rnarg r =? 0) then Error s r else Done p r
    else if redis_arg3 t then
      if negb (rnarg r =? 1) then Error s r else Break p SW_ARG3_LEN r
    else if redis_argn t then
      if rnarg r =? 0 then Done p r else Break p SW_ARGN_LEN r
    else if redis_argeval t then
      if rnarg r <? 1 then Error s r else Break p SW_KEY_LEN r
    else Error s r
  else Error s r.

Definition step_arg3_len (b : mbuf) (p ch : Z) (s : req_state) (r : regs) : oc :=
  step_len_to SW_ARG3_LEN_LF p ch s r.

Definition step_arg3_len_lf (b : mbuf) (p ch : Z) (s : req_state) (r : regs) : oc :=
  if ch =? LF then Break p SW_ARG3 r else Error s r.

Definition step_arg3 (b : mbuf) (p ch : Z) (s : req_state) (r : regs) : oc :=
  step_skip_to SW_ARG3_LF b p s r.

Definition step_arg3_lf (b : mbuf) (p ch : Z) (s : req_state) (r : regs) : oc :=
  let t := type r in
  if ch =? LF then
    if redis_arg3 t then
      if negb (rnarg r =? 0) then Error s r else Done p r
    else if redis_argn t then
      if rnarg r =? 0 then Done p r else Break p SW_ARGN_LEN r
    else Error s r
  else Error s r.

Definition step_argn_len (b : mbuf) (p ch : Z) (s : req_state) (r : regs) : oc :=
  step_len_to SW_ARGN_LEN_LF p ch s r.

Definition step_argn_len_lf (b : mbuf) (p ch : Z) (s : req_state) (r : regs) : oc :=
  if ch =? LF then Break p SW_ARGN r else Error s r.

Definition step_argn (b : mbuf) (p ch : Z) (s : req_state) (r : regs) : oc :=
  step_skip_to SW_ARGN_LF b p s r.

Definition step_argn_lf (b : mbuf) (p ch : Z) (s : req_state) (r : regs) : oc :=
  let t := type r in
  if ch =? LF then
    if redis_argn t || redis_argeval t then
      if rnarg r =? 0 then Done p r else Break p SW_ARGN_LEN r
    else Error s r
  else Error s r.

(** [switch (state)] *)
Definition req_step (b : mbuf) (p ch : Z) (s : req_state) (r : regs) : oc :=
  match s with
  | SW_START | SW_NARG => step_narg b p ch s r
  | SW_NARG_LF => step_narg_lf b p ch s r
  | SW_REQ_TYPE_LEN => step_req_type_len b p ch s r
  | SW_REQ_TYPE_LEN_LF => step_req_type_len_lf b p ch s r
  | SW_REQ_TYPE => step_req_type b p ch s r
  | SW_REQ_TYPE_LF => step_req_type_lf b p ch s r
  | SW_KEY_LEN => step_key_len b p ch s r
  | SW_KEY_LEN_LF => step_key_len_lf b p ch s r
  | SW_KEY => step_key b p ch s r
  | SW_KEY_LF => step_key_lf b p ch s r
  | SW_ARG1_LEN => step_arg1_len b p ch s r
  | SW_ARG1_LEN_LF => step_arg1_len_lf b p ch s r
  | SW_ARG1 => step_arg1 b p ch s r
  | SW_ARG1_LF => step_arg1_lf b p ch s r
  | SW_ARG2_LEN => step_arg2_len b p ch s r
  | SW_ARG2_LEN_LF => step_arg2_len_lf b p ch s r
  | SW_ARG2 => step_arg2 b p ch s r
  | SW_ARG2_LF => step_arg2_lf b p ch s r
  | SW_ARG3_LEN => step_arg3_len b p ch s r
  | SW_ARG3_LEN_LF => step_arg3_len_lf b p ch s r
  | SW_ARG3 => step_arg3 b p ch s r
  | SW_ARG3_LF => step_arg3_lf b p ch s r
  | SW_ARGN_LEN => step_argn_len b p ch s r
  | SW_ARGN_LEN_LF => step_argn_len_lf b p ch s r
  | SW_ARGN => step_argn b p ch s r
  | SW_ARGN_LF => step_argn_lf b p ch s r
  end.

(** What follows the loop: done clears the token. *)
Definition req_finish : mbuf -> Z -> run req_state -> option (pmsg req_state) :=
  parse_finish SW_START (fun r => set_token r None) (fun s => s).

(** The pointer [p] moves forward at every iteration. *)
Definition req_fuel (b : mbuf) (p : Z) : nat := S (Z.to_nat (mb_last b - p)).

Definition redis_parse_req (b : mbuf) (x : pmsg req_state) : option (pmsg req_state) :=
  req_finish b (pm_pos x)
    (parse_loop req_step (req_fuel b (pm_pos x)) b (pm_pos x) (pm_state x) (pm_regs x)).

End Req.

(** The message [msg_get] returns for a request. *)
Definition req_init (pos : Z) : pmsg req_state := mk_pmsg SW_START pos MSG_PARSE_OK regs_init.
