(* ===== verification/RedisReqSafe.v ===== *)
(** Memory safety, termination and resumption of the redis request parser. *)

From S2P Require Import Prelude CArray Mbuf Message Parser RedisReq.

(** ** The command switch reads only the token and its terminator *)

Definition cmds_upto (k : Z) (tbl : list (list Z * msg_type * effect)) : bool :=
  forallb (fun e => zlen (fst (fst e)) <=? k) tbl.

Lemma first_icmp_in b m k tbl :
  cmds_upto k tbl = true -> (forall i, m <= i < m + k -> is_Some (deref b i)) ->
  is_Some (first_icmp b m tbl).
Proof.
  induction tbl as [|[[lit t] e] tbl IH]; intros Hk Hr; simpl; [done|].
  simpl in Hk. b2p.
  destruct (stricmp_in b m lit) as [x ->]; [intros; apply Hr; lia|].
  destruct x; [done|]. by apply IH.
Qed.

Lemma first_icmp_ext b b' m k tbl :
  cmds_upto k tbl = true -> (forall i, m <= i < m + k -> deref b' i = deref b i) ->
  first_icmp b' m tbl = first_icmp b m tbl.
Proof.
  induction tbl as [|[[lit t] e] tbl IH]; intros Hk Hr; simpl; [done|].
  simpl in Hk. b2p.
  rewrite (stricmp_ext b b' m lit) by (intros; apply Hr; lia). by rewrite IH.
Qed.

(** Every length selects one table, whose entries it bounds (case 10 falls
    through to the commands of length 11). *)
Lemma req_type_switch_table len :
  exists tbl, cmds_upto (len + 1) tbl = true /\
    forall b m, req_type_switch b m len = first_icmp b m tbl.
Proof.
  assert (Hnil : forall k, cmds_upto k [] = true) by done.
  destruct len as [|len|]; [exists []; done| |exists []; done].
  do 5 (try (destruct len as [len|len|])); try (exists []; split; [apply Hnil|intros; exact eq_refl]).
  all: eexists; (split; [|intros b m; exact eq_refl]); vm_compute; reflexivity.
Qed.

Lemma req_type_switch_in b m len :
  (forall i, m <= i <= m + len -> is_Some (deref b i)) -> is_Some (req_type_switch b m len).
Proof.
  intros H. destruct (req_type_switch_table len) as (tbl & Hk & ->).
  apply (first_icmp_in _ _ _ _ Hk). intros. apply H. lia.
Qed.

Lemma req_type_switch_ext b b' m len :
  (forall i, m <= i <= m + len -> deref b' i = deref b i) ->
  req_type_switch b' m len = req_type_switch b m len.
Proof.
  intros H. destruct (req_type_switch_table len) as (tbl & Hk & Ht). rewrite !Ht.
  apply (first_icmp_ext _ _ _ _ _ Hk). intros. apply H. lia.
Qed.

Lemma eval_nkey_in b p n k :
  (forall i, p <= i < p + Z.of_nat n -> is_Some (deref b i)) -> is_Some (eval_nkey b p n k).
Proof.
  revert p k. induction n as [|n IH]; intros p k H; simpl; [done|].
  destruct (H p) as [c ->]; [lia|]. destruct (isdigit c); [|done].
  apply IH. intros. apply H. lia.
Qed.

Lemma eval_nkey_ext b b' p n k :
  (forall i, p <= i < p + Z.of_nat n -> deref b' i = deref b i) ->
  eval_nkey b' p n k = eval_nkey b p n k.
Proof.
  revert p k. induction n as [|n IH]; intros p k H; simpl; [done|].
  rewrite (H p) by lia. destruct (deref b p); [|done]. destruct (isdigit z); [|done].
  apply IH. intros. apply H. lia.
Qed.

(** ** The loop invariant *)

(** The states the parser is in with no token open (SW_ARG2 opens one
    for EVAL, whose key count it reads). *)
Definition token_free (t : msg_type) (s : req_state) : bool :=
  match s with
  | SW_ARG2 => negb (redis_argeval t)
  | SW_START | SW_NARG | SW_REQ_TYPE_LEN | SW_REQ_TYPE | SW_KEY_LEN | SW_KEY
  | SW_ARG1_LEN | SW_ARG2_LEN | SW_ARG3_LEN | SW_ARGN_LEN => false
  | _ => true
  end.

(** The states that wait for the whole token: it ends at or after [p]. *)
Definition token_whole (s : req_state) : bool :=
  match s with SW_REQ_TYPE | SW_KEY => true | _ => false end.

Record req_inv (b : mbuf) (p : Z) (s : req_state) (r : regs) : Prop := {
  inv_p : mb_pos b <= p <= mb_last b;
  inv_token : forall t, token r = Some t -> mb_pos b <= t <= p;
  inv_free : token_free (type r) s = true -> token r = None;
  inv_whole : token_whole s = true -> forall t, token r = Some t -> p <= t + rlen r;
  inv_rlen : is_u32 (rlen r);
  inv_rnarg : is_u32 (rnarg r);
  inv_keys : keys_in b r
}.

Definition req_post (b : mbuf) (p : Z) (r : regs) : Prop :=
  mb_pos b <= p < mb_last b /\ is_u32 (rlen r) /\ is_u32 (rnarg r) /\ keys_in b r.

Definition req_meas (b : mbuf) (p : Z) (s : req_state) (r : regs) : nat := Z.to_nat (mb_last b - p).

Lemma token_or_range b r p s :
  req_inv b p s r -> mb_pos b <= token_or r p <= p.
Proof.
  intros [Hp Ht _ _ _ _ _]. unfold token_or. destruct (token r) as [t|] eqn:E; simpl; [auto|lia].
Qed.

Lemma whole_end b r p s :
  req_inv b p s r -> token_whole s = true -> p <= token_or r p + rlen r.
Proof.
  intros [Hp _ _ Hw Hl _ _] Hs. unfold token_or, is_u32 in *.
  destruct (token r) as [t|] eqn:E; simpl; [auto|lia].
Qed.

(** Leaves of a step: rebuild the invariant field by field. *)
Ltac leaf_field :=
  simpl in *; intros; simplify_eq; simpl in *;
  first [ done | lia | congruence | by auto with cint | apply u32_range | unfold is_u32; lia ].

Ltac leaf :=
  simpl; first
    [ done
    | split; [split; leaf_field | unfold req_meas; lia]
    | split; [lia|]; split_and!; leaf_field ].

Section Safety.
Variables (ok : Z -> bool) (dsz : Z) (b : mbuf).
Hypothesis Hwf : mbuf_wf b.

Abbreviation okstep p s r o := (outcome_ok (req_inv b) (req_post b) (req_meas b) (req_meas b p s r) o).

Lemma step_skip_ok next p s r :
  req_inv b p s r -> p < mb_last b -> token_free (type r) s = true -> token_whole next = false ->
  okstep p s r (step_skip_to next b p s r).
Proof.
  intros HI Hlt Hs Hnx. pose proof HI as [Hp Ht Hf Hw Hl Hn Hk].
  pose proof Hwf as [? ? ? ? ?]. specialize (Hf Hs).
  assert (token_whole s = false) by (by destruct s).
  unfold step_skip_to, is_u32 in *.
  destruct (Z.leb_spec (mb_last b) (p + rlen r)); [leaf|].
  destruct (deref_in b (p + rlen r) Hwf) as [c ->]; [lia|].
  destruct (negb _); [done|leaf].
Qed.

Lemma step_len_ok next p ch s r :
  req_inv b p s r -> p < mb_last b -> token_free (type r) s = false -> token_whole s = false ->
  token_whole next = false -> okstep p s r (step_len_to next p ch s r).
Proof.
  intros HI Hlt Hs1 Hs2 Hnx. pose proof HI as [Hp Ht Hf Hw Hl Hn Hk]. unfold step_len_to.
  destruct (token r) as [t|] eqn:Et.
  - specialize (Ht t eq_refl). destruct (isdigit ch); [leaf|].
    destruct (ch =? CR); [|done]. destruct (_ || _); [done|leaf].
  - destruct (negb _); [done|leaf].
Qed.

(** A state that moves on by one byte and may clear or set small registers. *)
Lemma step_narg_ok p ch s r :
  s = SW_START \/ s = SW_NARG -> req_inv b p s r -> p < mb_last b -> okstep p s r (step_narg b p ch s r).
Proof.
  intros Hs HI Hlt. pose proof HI as [Hp Ht Hf Hw Hl Hn Hk]. unfold step_narg, no_token.
  assert (token_free (type r) s = false /\ token_whole s = false) as [Hs1 Hs2] by (by destruct Hs; subst).
  destruct (token r) as [t|] eqn:Et.
  - specialize (Ht t eq_refl). destruct (isdigit ch); [leaf|].
    destruct (ch =? CR); [|done]. destruct (_ =? 0); [done|leaf].
  - leaf.
Qed.

Lemma step_req_type_len_ok p ch s r :
  s = SW_REQ_TYPE_LEN -> req_inv b p s r -> p < mb_last b -> okstep p s r (step_req_type_len b p ch s r).
Proof.
  intros Hs HI Hlt. pose proof HI as [Hp Ht Hf Hw Hl Hn Hk]. unfold step_req_type_len, no_token. subst s.
  destruct (token r) as [t|] eqn:Et.
  - specialize (Ht t eq_refl). destruct (isdigit ch); [leaf|].
    destruct (ch =? CR); [|done]. destruct (_ || _); [done|leaf].
  - destruct (negb _); [done|leaf].
Qed.

Lemma step_key_len_ok p ch s r :
  s = SW_KEY_LEN -> req_inv b p s r -> p < mb_last b -> okstep p s r (step_key_len dsz b p ch s r).
Proof.
  intros Hs HI Hlt. pose proof HI as [Hp Ht Hf Hw Hl Hn Hk]. unfold step_key_len, no_token. subst s.
  destruct (token r) as [t|] eqn:Et.
  - specialize (Ht t eq_refl). destruct (isdigit ch); [leaf|].
    destruct (ch =? CR); [|done]. destruct (_ <=? _); [done|].
    destruct (_ =? 0); [done|leaf].
  - destruct (negb _); [done|leaf].
Qed.

Lemma step_req_type_ok p ch s r :
  s = SW_REQ_TYPE -> req_inv b p s r -> p < mb_last b -> okstep p s r (step_req_type b p ch s r).
Proof.
  intros Hs HI Hlt. pose proof HI as [Hp Ht Hf Hw Hl Hn Hk]. pose proof (token_or_range _ _ _ _ HI).
  pose proof Hwf as [? ? ? ? ?]. subst s. pose proof (whole_end _ _ _ _ HI eq_refl).
  unfold step_req_type, is_u32 in *. set (tok := token_or r p) in *. simpl.
  destruct (Z.leb_spec (mb_last b) (tok + rlen r)); [leaf|].
  destruct (deref_in b (tok + rlen r) Hwf) as [c ->]; [lia|].
  destruct (negb _); [done|].
  destruct (req_type_switch_in b tok (tok + rlen r - tok)) as [x ->].
  { intros i Hi. apply deref_in; [done|lia]. }
  destruct x as [[t []]|]; [leaf..|done].
Qed.

Lemma step_key_ok p ch s r :
  s = SW_KEY -> req_inv b p s r -> p < mb_last b -> okstep p s r (step_key ok b p ch s r).
Proof.
  intros Hs HI Hlt. pose proof HI as [Hp Ht Hf Hw Hl Hn Hk]. pose proof (token_or_range _ _ _ _ HI).
  pose proof Hwf as [? ? ? ? ?]. subst s. pose proof (whole_end _ _ _ _ HI eq_refl).
  unfold step_key, is_u32 in *. set (tok := token_or r p) in *. simpl.
  destruct (Z.leb_spec (mb_last b) (tok + rlen r)); [leaf|].
  destruct (deref_in b (tok + rlen r) Hwf) as [c ->]; [lia|].
  destruct (negb _); [done|].
  destruct (push_key _ _ _ _ _) as [r'|] eqn:Ep; [|done].
  destruct (push_key_in _ _ _ _ _ _ Ep) as (Hk' & a & ->); [lia|lia|done|]. leaf.
Qed.

Lemma step_arg2_ok p ch s r :
  s = SW_ARG2 -> req_inv b p s r -> p < mb_last b -> okstep p s r (step_arg2 b p ch s r).
Proof.
  intros Hs HI Hlt. pose proof Hwf as [? ? ? ? ?]. subst s. unfold step_arg2.
  set (r0 := if _ && _ then _ else r).
  assert (HI0 : req_inv b p SW_ARG2 r0).
  { destruct HI as [Hp Ht Hf Hw Hl Hn Hk]. subst r0. destruct (_ && _) eqn:E; [|done]. b2p.
    split; try leaf_field. simpl. rewrite negb_true_iff. congruence. }
  assert (Hm : req_meas b p SW_ARG2 r = req_meas b p SW_ARG2 r0) by done. rewrite Hm.
  clearbody r0. clear HI Hm r. pose proof (token_or_range _ _ _ _ HI0) as Hto.
  destruct HI0 as [Hp Ht Hf Hw Hl Hn Hk]. unfold is_u32 in *. simpl.
  destruct (Z.leb_spec (mb_last b) (p + rlen r0)).
  { split; [split; try leaf_field|unfold req_meas; lia]. intros t Et. specialize (Ht t Et). simpl. lia. }
  destruct (deref_in b (p + rlen r0) Hwf) as [c ->]; [lia|].
  destruct (negb _); [done|]. destruct (redis_argeval (type r0)) eqn:Eev.
  - simpl. change (token_or (set_rlen r0 0) p) with (token_or r0 p).
    destruct (_ <? 1); [done|].
    destruct (eval_nkey_in b (token_or r0 p) (Z.to_nat (p + rlen r0 - token_or r0 p)) 0) as [x ->].
    { intros. apply deref_in; [done|lia]. }
    destruct x as [k|]; [|done]. destruct (k =? 0); [done|leaf].
  - assert (token r0 = None) by (apply Hf; simpl; by rewrite Eev). leaf.
Qed.

(** Every iteration stays inside the data received and moves [p] forward. *)
Lemma req_step_ok p ch s r :
  req_inv b p s r -> p < mb_last b -> deref b p = Some ch ->
  okstep p s r (req_step ok dsz b p ch s r).
Proof.
  intros HI Hlt _. destruct s; simpl.
  all: try (apply step_narg_ok; auto; fail).
  all: try (apply step_req_type_len_ok; auto; fail).
  all: try (apply step_key_len_ok; auto; fail).
  all: try (apply step_req_type_ok; auto; fail).
  all: try (apply step_key_ok; auto; fail).
  all: try (apply step_arg2_ok; auto; fail).
  all: try (apply step_len_ok; auto; fail).
  all: try (apply step_skip_ok; auto; fail).
  all: pose proof HI as [Hp Ht Hf Hw Hl Hn Hk]; specialize (Hf eq_refl).
  all: unfold step_narg_lf, step_req_type_len_lf, step_req_type_lf, step_key_len_lf,
    step_key_lf, step_arg1_len_lf, step_arg1_lf, step_arg2_len_lf, step_arg2_lf,
    step_arg3_len_lf, step_arg3_lf, step_argn_len_lf, step_argn_lf.
  all: repeat case_match; leaf.
Qed.

(** The message ends at the byte being looked at. *)
Lemma req_step_done p ch s r p' r' : req_step ok dsz b p ch s r = Done p' r' -> p' = p.
Proof.
  intros H. destruct s; simpl in H.
  all: unfold step_narg, step_narg_lf, step_req_type_len, step_req_type_len_lf, step_req_type,
    step_req_type_lf, step_key_len, step_key_len_lf, step_key, step_key_lf,
    step_arg1_len, step_arg1_len_lf, step_arg1, step_arg1_lf, step_arg2_len, step_arg2_len_lf,
    step_arg2, step_arg2_lf, step_arg3_len, step_arg3_len_lf, step_arg3, step_arg3_lf,
    step_argn_len, step_argn_len_lf, step_argn, step_argn_lf, step_len_to, step_skip_to in H.
  all: repeat case_match; by simplify_eq.
Qed.

End Safety.
