(* ===== verification/RedisReqResume.v ===== *)
(** Parsing a redis request as its bytes arrive: the parse that stops with
    MSG_PARSE_AGAIN and is called again when the buffer has grown ends where
    one call on the whole data ends. *)

From S2P Require Import Prelude CArray Mbuf Message Parser RedisReq RedisReqSafe.

Section Resume.
Variables (ok : Z -> bool) (dsz : Z) (b1 b2 : mbuf).
Hypothesis Hwf1 : mbuf_wf b1.
Hypothesis Hwf2 : mbuf_wf b2.
Hypothesis Hext : extends b1 b2.

Abbreviation splits := (step_splits (req_step ok dsz) (fun _ => eq) eq b1 b2).

(** The bytes before [last] are the same. *)
Lemma same_byte i : i < mb_last b1 -> deref b2 i = deref b1 i.
Proof. apply (ext_mem _ _ Hext). Qed.

Lemma step_skip_splits next p s r ch :
  req_inv b1 p s r -> p < mb_last b1 ->
  (forall b q c t, req_step ok dsz b q c s t = step_skip_to next b q s t) -> splits p ch s r.
Proof.
  intros HI Hlt Hstep. pose proof HI as [Hp _ _ _ Hl _ _]. unfold step_splits. rewrite !Hstep.
  pose proof (ext_last _ _ Hext). pose proof Hwf1 as [? ? ? ? ?]. pose proof Hwf2 as [? ? ? ? ?].
  unfold step_skip_to. destruct (Z.leb_spec (mb_last b1) (p + rlen r)) as [Hm|Hm].
  - destruct (decide (mb_last b1 = mb_last b2)) as [E|E].
    { left. destruct (Z.leb_spec (mb_last b2) (p + rlen r)); [|lia]. by rewrite E. }
    right. split; [lia|]. eexists; split; [done|]. intros ch'. rewrite Hstep. unfold step_skip_to; simpl.
    destruct (rlen_rest (rlen r) p (mb_last b1) (mb_last b2)) as [-> ->]; try done; try lia.
    destruct (mb_last b2 <=? p + rlen r); [by apply outcome_sim_refl|].
    destruct (deref b2 (p + rlen r)) as [c|]; [|done].
    destruct (negb (c =? CR)); [done|by apply outcome_sim_refl].
  - left. destruct (Z.leb_spec (mb_last b2) (p + rlen r)); [lia|]. by rewrite same_byte by lia.
Qed.

Lemma step_req_type_splits p r ch :
  req_inv b1 p SW_REQ_TYPE r -> p < mb_last b1 -> splits p ch SW_REQ_TYPE r.
Proof.
  intros HI Hlt. pose proof (token_or_range _ _ _ _ HI). pose proof (whole_end _ _ _ _ HI eq_refl).
  pose proof (ext_last _ _ Hext). unfold step_splits; simpl. unfold step_req_type; simpl.
  set (tok := token_or r p) in *.
  destruct (Z.leb_spec (mb_last b1) (tok + rlen r)) as [Hm|Hm].
  - destruct (decide (mb_last b1 = mb_last b2)) as [E|E].
    { left. destruct (Z.leb_spec (mb_last b2) (tok + rlen r)); [|lia]. by rewrite E. }
    right. split; [lia|]. eexists; split; [done|]. intros ch'. by apply outcome_sim_refl.
  - left. destruct (Z.leb_spec (mb_last b2) (tok + rlen r)); [lia|].
    rewrite same_byte by lia. rewrite (req_type_switch_ext b1 b2); [done|].
    intros. apply same_byte. lia.
Qed.

Lemma step_key_splits p r ch :
  req_inv b1 p SW_KEY r -> p < mb_last b1 -> splits p ch SW_KEY r.
Proof.
  intros HI Hlt. pose proof (token_or_range _ _ _ _ HI). pose proof (whole_end _ _ _ _ HI eq_refl).
  pose proof (ext_last _ _ Hext). unfold step_splits; simpl. unfold step_key; simpl.
  set (tok := token_or r p) in *.
  destruct (Z.leb_spec (mb_last b1) (tok + rlen r)) as [Hm|Hm].
  - destruct (decide (mb_last b1 = mb_last b2)) as [E|E].
    { left. destruct (Z.leb_spec (mb_last b2) (tok + rlen r)); [|lia]. by rewrite E. }
    right. split; [lia|]. eexists; split; [done|]. intros ch'. by apply outcome_sim_refl.
  - left. destruct (Z.leb_spec (mb_last b2) (tok + rlen r)); [lia|].
    by rewrite same_byte, (push_key_ext ok b1 b2) by (lia || done).
Qed.

Lemma step_arg2_splits p r ch :
  req_inv b1 p SW_ARG2 r -> p < mb_last b1 -> splits p ch SW_ARG2 r.
Proof.
  intros HI Hlt. pose proof (token_or_range _ _ _ _ HI) as Hto. destruct HI as [Hp _ _ _ Hl _ _].
  pose proof (ext_last _ _ Hext). pose proof Hwf1 as [? ? ? ? ?]. pose proof Hwf2 as [? ? ? ? ?].
  unfold step_splits; simpl. unfold step_arg2 at 1 2 3 4.
  set (r0 := if no_token r && redis_argeval (type r) then set_token r (Some p) else r).
  assert (Hr0 : rlen r0 = rlen r) by (subst r0; by destruct (_ && _)).
  assert (Hto0 : token_or r0 p = token_or r p).
  { subst r0. destruct (no_token r && redis_argeval (type r)) eqn:E; [|done]. b2p.
    unfold no_token, token_or in *. by destruct (token r). }
  assert (Hn0 : no_token r0 && redis_argeval (type r0) = false).
  { subst r0. destruct (no_token r && redis_argeval (type r)) eqn:E; [unfold no_token; simpl; done|exact E]. }
  clearbody r0. rewrite !Hr0.
  destruct (Z.leb_spec (mb_last b1) (p + rlen r)) as [Hm|Hm].
  - destruct (decide (mb_last b1 = mb_last b2)) as [E|E].
    { left. destruct (Z.leb_spec (mb_last b2) (p + rlen r)); [|lia]. by rewrite E. }
    right. split; [lia|]. eexists; split; [done|]. intros ch'. unfold step_arg2.
    rewrite (Hn0 : no_token (set_rlen r0 _) && redis_argeval (type (set_rlen r0 _)) = false). simpl.
    destruct (rlen_rest (rlen r) p (mb_last b1) (mb_last b2)) as [-> ->]; try done; try lia.
    destruct (mb_last b2 <=? p + rlen r); [by apply outcome_sim_refl|].
    destruct (deref b2 (p + rlen r)) as [c|]; [|done].
    destruct (negb (c =? CR)); [done|].
    destruct (redis_argeval (type r0)) eqn:Eev; [|by apply outcome_sim_refl]. rewrite andb_true_r in Hn0.
    unfold no_token, token_or in *. simpl. destruct (token r0); [by apply outcome_sim_refl|done].
  - left. destruct (Z.leb_spec (mb_last b2) (p + rlen r)); [lia|].
    rewrite same_byte by lia. simpl. destruct (deref b1 _) as [c|]; [|done].
    destruct (negb _); [done|]. destruct (redis_argeval _); [|done].
    change (token_or (set_rlen r0 0) p) with (token_or r0 p).
    rewrite (eval_nkey_ext b1 b2); [done|]. intros. apply same_byte. lia.
Qed.

Lemma req_step_splits p ch s r :
  req_inv b1 p s r -> p < mb_last b1 -> splits p ch s r.
Proof.
  intros HI Hlt. pose proof (ext_id _ _ Hext) as Hid. destruct s.
  all: try (by apply step_req_type_splits). all: try (by apply step_key_splits).
  all: try (by apply step_arg2_splits).
  all: try (eapply step_skip_splits; [done|done|by intros]).
  all: left; simpl; unfold step_narg; by rewrite ?Hid.
Qed.

End Resume.

(** The invariant carries over to the grown buffer. *)
Lemma req_inv_extends b1 b2 p s r :
  extends b1 b2 -> mb_pos b1 = mb_pos b2 -> req_inv b1 p s r -> req_inv b2 p s r.
Proof.
  intros Hext Hp [H1 H2 H3 H4 H5 H6 H7]. pose proof (ext_last _ _ Hext).
  constructor; try done; rewrite <- ?Hp; [lia|done|by eapply keys_in_ext].
Qed.

(** redis_parse_req is a protocol parser. *)
#[export] Instance redis_req_proto ok dsz : ProtoParser (req_step ok dsz).
Proof.
  refine {| pgood := mbuf_wf; pinv := req_inv; ppost := keys_in; pmeas := req_meas;
            peq := fun _ => eq; deq := eq |}; try done.
  - by intros ? ? ->.
  - by intros b p s r [? _ _ _ _ _ _].
  - by intros b p s r t [_ Ht _ _ _ _ _] ?%Ht.
  - exact req_inv_extends.
  - intros b p ch s r Hwf HI Hlt Hc. pose proof (req_step_ok ok dsz b Hwf _ _ _ _ HI Hlt Hc) as H.
    pose proof (req_step_done ok dsz b p ch s r) as Hd.
    destruct (req_step ok dsz b p ch s r) as [q t x|q x| | |]; simpl in *; try done.
    + destruct H as [H Hm]. split_and!; [unfold req_meas in Hm; lia|done|done].
    + split; [by eapply Hd|]. by destruct H as (_ & _ & _ & ?).
  - intros b1 b2 p ch s r Hg1 Hg2 Hext HI Hlt _. by apply req_step_splits.
  - intros b p ch s r ? ->. by apply outcome_sim_refl.
Defined.

Lemma req_fuel_ok b p (s : req_state) (r : regs) : (req_meas b p s r < req_fuel b p)%nat.
Proof. unfold req_meas, req_fuel. lia. Qed.

Abbreviation req_msg_ok ok dsz := (pmsg_ok (req_step ok dsz)).
Abbreviation req_result_ok ok dsz :=
  (presult_ok (req_step ok dsz) SW_START (fun r => set_token r None)).

(** A message just taken from [msg_get]. *)
Lemma req_init_ok ok dsz b : mbuf_wf b -> req_msg_ok ok dsz b (req_init (mb_pos b)).
Proof.
  intros [? ? ? ? ?]. constructor; simpl; try done; [lia|]. apply keys_in_init.
Qed.

Definition crlf : list Z := [CR; LF].

(** GET k, whole and cut inside the key. *)
Definition sample_get : list Z :=
  bytes_of "*2" ++ crlf ++ bytes_of "$3" ++ crlf ++ bytes_of "GET" ++ crlf ++
  bytes_of "$3" ++ crlf ++ bytes_of "fo".
Definition sample_get_rest : list Z := bytes_of "o" ++ crlf.

(** C19. redis_parse_req, called on a well-formed mbuf in any state an earlier
    call can have left the message in, returns: it never reads outside the
    mbuf, its loop ends within the fuel (one unit per byte not yet parsed),
    and the result it reports is the one it promises.  On MSG_PARSE_OK the
    parse position has advanced inside the data and the recorded keys lie in
    the data; on MSG_PARSE_AGAIN all the data is consumed and the message can
    be parsed further; on MSG_PARSE_REPAIR the mbuf is full and the position
    is the start of the split token; on MSG_PARSE_ERROR it is unchanged. *)
Theorem redis_parse_req_safe (ok : Z -> bool) (dsz : Z) (b : mbuf) (x : pmsg req_state) :
  mbuf_wf b -> req_msg_ok ok dsz b x ->
  exists x', redis_parse_req ok dsz b x = Some x' /\ req_result_ok ok dsz b x x'.
Proof.
  intros Hwf HI. apply proto_parse_safe; [|done|done]. intros. apply req_fuel_ok.
Qed.

Lemma redis_parse_req_safe_witness :
  exists x', redis_parse_req (fun _ => true) 464 (buf_of 1 464 sample_get) (req_init 0) = Some x' /\
    req_result_ok (fun _ => true) 464 (buf_of 1 464 sample_get) (req_init 0) x'.
Proof.
  apply (redis_parse_req_safe (fun _ => true) 464 (buf_of 1 464 sample_get) (req_init 0)).
  - apply mbuf_wfb_wf. vm_compute. reflexivity.
  - apply (req_init_ok _ _ (buf_of 1 464 sample_get)). apply mbuf_wfb_wf. vm_compute. reflexivity.
Defined.

(** C20. Incremental parsing of redis requests: when a call on the data
    received so far ends with MSG_PARSE_AGAIN, calling redis_parse_req again
    on the grown buffer ends as one call on the grown buffer would have from
    the start: with the same message, or both with MSG_PARSE_ERROR. *)
Theorem redis_parse_req_resume (ok : Z -> bool) (dsz : Z) (b1 b2 : mbuf) (x x1 : pmsg req_state) :
  mbuf_wf b1 -> mbuf_wf b2 -> extends b1 b2 -> mb_pos b1 = mb_pos b2 -> req_msg_ok ok dsz b1 x ->
  redis_parse_req ok dsz b1 x = Some x1 -> pm_result x1 = MSG_PARSE_AGAIN ->
  exists y z, redis_parse_req ok dsz b2 x = Some y /\ redis_parse_req ok dsz b2 x1 = Some z /\
    pmsg_sim (req_step ok dsz) y z.
Proof.
  intros. apply (proto_parse_resume (req_step ok dsz) _ _ _ req_fuel) with (b1 := b1); try done.
  - intros. apply req_fuel_ok.
  - by intros ? ? ->.
Qed.

Lemma redis_parse_req_resume_witness :
  exists y z,
    redis_parse_req (fun _ => true) 464 (buf_of 1 464 (sample_get ++ sample_get_rest)) (req_init 0) = Some y /\
    redis_parse_req (fun _ => true) 464 (buf_of 1 464 (sample_get ++ sample_get_rest))
      (default (req_init 0) (redis_parse_req (fun _ => true) 464 (buf_of 1 464 sample_get) (req_init 0))) = Some z /\
    pmsg_sim (req_step (fun _ => true) 464) y z.
Proof.
  apply (redis_parse_req_resume (fun _ => true) 464 (buf_of 1 464 sample_get)).
  - apply mbuf_wfb_wf. vm_compute. reflexivity.
  - apply mbuf_wfb_wf. vm_compute. reflexivity.
  - apply extends_recv.
  - reflexivity.
  - apply (req_init_ok _ _ (buf_of 1 464 sample_get)). apply mbuf_wfb_wf. vm_compute. reflexivity.
  - vm_compute. reflexivity.
  - vm_compute. reflexivity.
Defined.
