(* ===== verification/RedisReqRoundtrip.v ===== *)
(** Parsing what a client encodes: redis_parse_req applied to the RESP form of
    a command accepts it, with the type of the command and its keys. *)

From S2P Require Import Prelude CArray Mbuf Message Parser RedisReq RedisReqSafe RedisReqResume.

(** ** The encoding *)

Definition bulk (l : list Z) : list Z := [36] ++ dec (zlen l) ++ crlf ++ l ++ crlf.
Definition bulks (args : list (list Z)) : list Z := concat (map bulk args).
Definition resp (args : list (list Z)) : list Z := [42] ++ dec (zlen args) ++ crlf ++ bulks args.

(** ** Command names *)

Definition ichar_eq (x c : Z) : bool := (x =? c) || (x =? Z.lxor c 32).

Fixpoint iname_eq (name lit : list Z) : bool :=
  match name, lit with
  | [], [] => true
  | x :: name', c :: lit' => ichar_eq x c && iname_eq name' lit'
  | _, _ => false
  end.

Fixpoint lookup_cmd (name : list Z) (tbl : list (list Z * msg_type * effect)) : option (msg_type * effect) :=
  match tbl with
  | [] => None
  | (lit, t, e) :: tbl' => if iname_eq name lit then Some (t, e) else lookup_cmd name tbl'
  end.

(** All the commands, whatever their length. *)
Definition redis_cmds : list (list Z * msg_type * effect) :=
  redis_cmds_3 ++ redis_cmds_4 ++ redis_cmds_5 ++ redis_cmds_6 ++ redis_cmds_7 ++ redis_cmds_8 ++
  redis_cmds_9 ++ redis_cmds_10 ++ redis_cmds_11 ++ redis_cmds_12 ++ redis_cmds_13 ++ redis_cmds_14 ++
  redis_cmds_15 ++ redis_cmds_16.

Definition redis_command (name : list Z) : option (msg_type * effect) := lookup_cmd name redis_cmds.

Lemma iname_eq_length name lit : iname_eq name lit = true -> length name = length lit.
Proof.
  revert lit. induction name as [|x name IH]; intros [|c lit]; simpl; try done. intros H. b2p. f_equal. auto.
Qed.

(** The entries of the length of the name. *)
Definition of_length (n : Z) (tbl : list (list Z * msg_type * effect)) :=
  List.filter (fun e => zlen (fst (fst e)) =? n) tbl.

Lemma lookup_cmd_length name tbl : lookup_cmd name tbl = lookup_cmd name (of_length (zlen name) tbl).
Proof.
  unfold of_length. induction tbl as [|[[lit t] e] tbl IH]; simpl; [done|].
  destruct (Z.eqb_spec (zlen lit) (zlen name)); simpl; [by rewrite IH|].
  destruct (iname_eq name lit) eqn:E; [|done]. apply iname_eq_length in E. unfold zlen in *. lia.
Qed.

(** ** Bytes in the buffer *)

Section Has.
Variable b : mbuf.

(** The bytes [l] have been received at [p]. *)
Definition has (p : Z) (l : list Z) : Prop :=
  forall i c, l !! i = Some c -> p + Z.of_nat i < mb_last b /\ deref b (p + Z.of_nat i) = Some c.

Lemma has_cons p c l : has p (c :: l) <-> (p < mb_last b /\ deref b p = Some c) /\ has (p + 1) l.
Proof.
  split.
  - intros H. split; [specialize (H 0%nat c eq_refl); by rewrite Z.add_0_r in H|].
    intros i x Hx. specialize (H (S i) x Hx). by replace (p + Z.of_nat (S i)) with (p + 1 + Z.of_nat i) in H by lia.
  - intros [H0 H] [|i] x Hx; simpl in Hx; simplify_eq; [by rewrite Z.add_0_r|].
    specialize (H i x Hx). by replace (p + Z.of_nat (S i)) with (p + 1 + Z.of_nat i) by lia.
Qed.

Lemma has_app p l k : has p (l ++ k) <-> has p l /\ has (p + zlen l) k.
Proof.
  revert p. induction l as [|c l IH]; intros p; simpl.
  - unfold zlen. simpl. rewrite Z.add_0_r. split; [|by intros [_ ?]]. intros H. split; [|done]. by intros [|i] x Hx.
  - rewrite !has_cons, IH, zlen_cons, Z.add_assoc. tauto.
Qed.

Lemma has_end p l : l <> [] -> has p l -> p + zlen l <= mb_last b.
Proof.
  intros Hne H. destruct (exists_last Hne) as (l' & x & ->).
  destruct (H (length l') x) as [? _]; [by rewrite list_lookup_middle|].
  unfold zlen. rewrite length_app. simpl. lia.
Qed.

Lemma has_slice p l : 0 <= p -> has p l -> slice (mb_mem b) p (p + zlen l) = l.
Proof.
  intros Hp H. unfold slice, zlen. replace (Z.to_nat (p + Z.of_nat (length l) - p)) with (length l) by lia.
  apply list_eq. intros i. destruct (l !! i) as [c|] eqn:E.
  - pose proof (lookup_lt_Some _ _ _ E). rewrite lookup_take_lt, lookup_drop by done.
    destruct (H i c E) as [_ Hd]. unfold deref, rd in Hd. destruct (0 <=? p + Z.of_nat i) eqn:E0; [|done].
    rewrite <- Hd. f_equal. lia.
  - apply lookup_ge_None in E. apply lookup_ge_None. rewrite length_take. lia.
Qed.

(** The comparison of the switch decides the name, when the name is followed
    by CR. *)
Definition plain (lit : list Z) : bool := forallb (fun c => negb (ichar_eq CR c)) lit.

Lemma stricmp_name p name lit :
  has p (name ++ [CR]) -> plain lit = true -> zlen name <= zlen lit <= zlen name + 1 ->
  stricmp b p lit = Some (iname_eq name lit).
Proof.
  revert p name. induction lit as [|c lit IH]; intros p name H Hp Hn.
  - destruct name; [done|]. rewrite zlen_cons in Hn. pose proof (zlen_nonneg name). unfold zlen in *. simpl in Hn. lia.
  - unfold plain in Hp. cbn [forallb] in Hp. apply andb_true_iff in Hp as [Hc Hp]. apply negb_true_iff in Hc.
    cbn [stricmp]. destruct name as [|x name].
    + apply has_cons in H as [[_ ->] _]. cbn [fmap option_fmap option_map]. unfold ichar_eq in Hc. by rewrite Hc.
    + rewrite <- app_comm_cons in H. apply has_cons in H as [[_ ->] H]. simpl. fold (ichar_eq x c).
      destruct (ichar_eq x c); simpl; [|done]. apply IH; [done|done|]. rewrite !zlen_cons in Hn. lia.
Qed.

Definition cmds_near (n : Z) (tbl : list (list Z * msg_type * effect)) : bool :=
  forallb (fun e => plain (fst (fst e)) && (n <=? zlen (fst (fst e))) && (zlen (fst (fst e)) <=? n + 1)) tbl.

Lemma first_icmp_lookup p name tbl :
  has p (name ++ [CR]) -> cmds_near (zlen name) tbl = true ->
  first_icmp b p tbl = Some (lookup_cmd name tbl).
Proof.
  intros H. induction tbl as [|[[lit t] e] tbl IH]; simpl; [done|]. intros Hn. b2p.
  rewrite (stricmp_name p name lit) by (try done; lia). destruct (iname_eq name lit); [done|]. by apply IH.
Qed.

(** The table of each length has the commands of that length. *)
Lemma req_type_switch_cmds len :
  exists tbl, cmds_near len tbl = true /\ of_length len tbl = of_length len redis_cmds /\
    forall m, req_type_switch b m len = first_icmp b m tbl.
Proof.
  destruct len as [|len|]; [exists []; done| |exists []; done].
  do 5 (try (destruct len as [len|len|])); try (exists []; split_and!; [done|vm_compute; exact eq_refl|intros; exact eq_refl]).
  all: eexists; (split_and!; [| |intros m; exact eq_refl]); vm_compute; reflexivity.
Qed.

Lemma req_type_switch_lookup p name :
  has p (name ++ [CR]) -> req_type_switch b p (zlen name) = Some (redis_command name).
Proof.
  intros H. destruct (req_type_switch_cmds (zlen name)) as (tbl & Hn & Hl & ->).
  rewrite (first_icmp_lookup p name) by done. unfold redis_command.
  by rewrite lookup_cmd_length, Hl, <- lookup_cmd_length.
Qed.

End Has.

(** ** Running the parser forward *)

Section Run.
Variables (ok : Z -> bool) (dsz : Z) (b : mbuf).
Hypothesis Hok : forall n, ok n = true.

Abbreviation step := (req_step ok dsz b).

(** The loop, from here, reaches the end of a request with [Q]. *)
Definition finishes (p : Z) (s : req_state) (r : regs) (Q : Z -> regs -> Prop) : Prop :=
  exists k p' r', parse_loop (req_step ok dsz) k b p s r = Rdone p' r' /\ Q p' r'.

Lemma finishes_step p ch s r p' s' r' Q :
  p < mb_last b /\ deref b p = Some ch -> step p ch s r = Break p' s' r' ->
  finishes (p' + 1) s' r' Q -> finishes p s r Q.
Proof.
  intros [Hp Hc] Hs (k & q & r1 & Hk & HQ). exists (S k), q, r1. split; [|done]. simpl.
  destruct (Z.ltb_spec p (mb_last b)); [|lia]. by rewrite Hc, Hs.
Qed.

Lemma finishes_done p ch s r p' r' (Q : Z -> regs -> Prop) :
  p < mb_last b /\ deref b p = Some ch -> step p ch s r = Done p' r' -> Q p' r' -> finishes p s r Q.
Proof.
  intros [Hp Hc] Hs HQ. exists 1%nat, p', r'. split; [|done]. simpl.
  destruct (Z.ltb_spec p (mb_last b)); [|lia]. by rewrite Hc, Hs.
Qed.

(** *** Numbers *)

Lemma finishes_digits s p r ds Q :
  (forall q ch t, token t <> None -> isdigit ch = true -> step q ch s t = Break q s (set_rlen t (dec_acc (rlen t) ch))) ->
  token r <> None -> Forall (fun ch => isdigit ch = true) ds -> has b p ds ->
  finishes (p + zlen ds) s (set_rlen r (fold_left dec_acc ds (rlen r))) Q -> finishes p s r Q.
Proof.
  intros Hs Ht Hd. revert p r Ht. induction Hd as [|ch ds Hc Hd IH]; intros p r Ht Hh Hf.
  - simpl in Hf. unfold zlen in Hf. simpl in Hf. rewrite Z.add_0_r in Hf. by destruct r.
  - apply has_cons in Hh as [H0 Hh]. eapply finishes_step; [exact H0|by apply Hs|].
    apply IH; [done|done|]. rewrite zlen_cons in Hf. by rewrite <- Z.add_assoc.
Qed.

(** A state that reads the length line of a bulk. *)
Record len_state (s slf snext : req_state) (cond : Z -> Prop) : Prop := {
  ls_dollar : forall q t, token t = None -> step q 36 s t = Break q s (set_rlen (set_token t (Some q)) 0);
  ls_digit : forall q ch t, token t <> None -> isdigit ch = true ->
    step q ch s t = Break q s (set_rlen t (dec_acc (rlen t) ch));
  ls_cr : forall q t tok, token t = Some tok -> tok + 1 < q -> rnarg t <> 0 -> cond (rlen t) ->
    step q CR s t = Break q slf (set_token (set_rnarg t (u32 (rnarg t - 1))) None);
  ls_lf : forall q t, step q LF slf t = Break q snext t
}.

(** What a command fixes for the rest of the request. *)
Record fixed := mk_fixed { fx_type : msg_type; fx_narg : Z; fx_quit : bool; fx_noforward : bool }.

(** The bytes of a recorded key. *)
Definition key_bytes (k : keypos) : list Z :=
  slice (mb_mem b) (ptr_off (kp_start k)) (ptr_off (kp_end k)).

(** The keys recorded so far, in order. *)
Definition keys_are (a : array keypos) (ks : list (list Z)) : Prop :=
  array_wf a /\ nalloc a <= 2 * nelem a + 1 /\
  exists kps, contents a = map Some kps /\ map key_bytes kps = ks /\
    Forall (fun k => ptr_buf (kp_start k) = mb_id b /\ ptr_buf (kp_end k) = mb_id b) kps.

(** The registers between two bulks: [n] of them left. *)
Record between (c : fixed) (n : Z) (ks : list (list Z)) (r : regs) : Prop := {
  bt_token : token r = None;
  bt_type : type r = fx_type c;
  bt_narg : narg r = fx_narg c;
  bt_quit : quit r = fx_quit c;
  bt_noforward : noforward r = fx_noforward c;
  bt_rnarg : rnarg r = n;
  bt_keys : keys_are (keys r) ks
}.

Lemma finishes_len s slf snext cond c n ks p r len Q :
  len_state s slf snext cond -> between c n ks r -> 0 < n < 2 ^ 32 -> 0 <= len < 2 ^ 32 -> cond len ->
  has b p ([36] ++ dec len ++ crlf) ->
  (forall r', between c (n - 1) ks r' -> rlen r' = len ->
   finishes (p + zlen ([36] ++ dec len ++ crlf)) snext r' Q) ->
  finishes p s r Q.
Proof.
  intros [H1 H2 H3 H4] [B1 B2 B3 B4 B5 B6 B7] Hn Hlen Hc Hh Hf.
  apply has_cons in Hh as [H0 Hh]. apply has_app in Hh as [Hd Hh].
  eapply finishes_step; [exact H0|by apply H1|].
  eapply (finishes_digits s _ _ (dec len)); [done|done|apply dec_isdigit; lia|done|].
  assert (Hv : fold_left dec_acc (dec len) 0 = len) by (apply dec_value; lia).
  cbn [rlen set_rlen]. rewrite Hv. unfold crlf in Hh. apply has_cons in Hh as [Hcr Hh]. apply has_cons in Hh as [Hlf _].
  assert (0 < zlen (dec len)) by (pose proof (dec_nonempty len); destruct (dec len); [done|]; rewrite zlen_cons; pose proof (zlen_nonneg l); lia).
  eapply finishes_step; [exact Hcr|eapply H3; simpl; [done|lia|lia|done]|].
  eapply finishes_step; [exact Hlf|apply H4|].
  replace (p + 1 + zlen (dec len) + 1 + 1) with (p + zlen ([36] ++ dec len ++ crlf))
    by (rewrite !zlen_app; unfold crlf; change (zlen [CR; LF]) with 2; change (zlen [36]) with 1; lia).
  apply Hf; [|done]. constructor; simpl; try done. rewrite B6. apply u32_small. unfold is_u32. lia.
Qed.

Lemma arg_len_state s slf snext :
  (s, slf, snext) = (SW_ARG1_LEN, SW_ARG1_LEN_LF, SW_ARG1) \/ (s, slf, snext) = (SW_ARG2_LEN, SW_ARG2_LEN_LF, SW_ARG2) \/
  (s, slf, snext) = (SW_ARG3_LEN, SW_ARG3_LEN_LF, SW_ARG3) \/ (s, slf, snext) = (SW_ARGN_LEN, SW_ARGN_LEN_LF, SW_ARGN) ->
  len_state s slf snext (fun _ => True).
Proof.
  intros H. destruct_or! H; simplify_eq; constructor; try done.
  all: simpl; unfold step_arg1_len, step_arg2_len, step_arg3_len, step_argn_len, step_len_to.
  all: try (intros q t ->; done).
  all: try (intros q ch t Ht ->; by destruct (token t)).
  all: intros q t tok -> Hq Hr _; destruct (Z.leb_spec (q - tok) 1); [lia|]; destruct (Z.eqb_spec (rnarg t) 0); [lia|done].
Qed.

Lemma key_len_state : len_state SW_KEY_LEN SW_KEY_LEN_LF SW_KEY (fun n => n < dsz).
Proof.
  constructor; try done; simpl; unfold step_key_len, no_token.
  - by intros q t ->.
  - intros q ch t Ht ->. by destruct (token t).
  - intros q t tok -> Hq Hr Hc. simpl. destruct (Z.leb_spec dsz (rlen t)); [lia|]. destruct (Z.eqb_spec (rnarg t) 0); [lia|done].
Qed.

Lemma type_len_state : len_state SW_REQ_TYPE_LEN SW_REQ_TYPE_LEN_LF SW_REQ_TYPE (fun n => n <> 0).
Proof.
  constructor; try done; simpl; unfold step_req_type_len, no_token.
  - by intros q t ->.
  - intros q ch t Ht ->. by destruct (token t).
  - intros q t tok -> Hq Hr Hc. simpl. destruct (Z.eqb_spec (rlen t) 0); [lia|]. destruct (Z.eqb_spec (rnarg t) 0); [lia|done].
Qed.

(** *** Bulks *)

Lemma has_bulk p l :
  has b p (bulk l) ->
  has b p ([36] ++ dec (zlen l) ++ crlf) /\
  let h := p + zlen ([36] ++ dec (zlen l) ++ crlf) in
  has b h l /\ (exists ch, h < mb_last b /\ deref b h = Some ch) /\
  (h + zlen l < mb_last b /\ deref b (h + zlen l) = Some CR) /\
  (p + zlen (bulk l) - 1 < mb_last b /\ deref b (p + zlen (bulk l) - 1) = Some LF) /\
  h + zlen l + 1 = p + zlen (bulk l) - 1.
Proof.
  intros H. assert (Hb : bulk l = ([36] ++ dec (zlen l) ++ crlf) ++ l ++ crlf) by (unfold bulk; by rewrite !app_assoc).
  rewrite Hb in *. apply has_app in H as [H1 H2]. split; [done|]. intros h. fold h in H2.
  apply has_app in H2 as [H2 H3]. unfold crlf in H3. apply has_cons in H3 as [H3 H4]. apply has_cons in H4 as [H4 _].
  assert (He : h + zlen l + 1 = p + zlen (([36] ++ dec (zlen l) ++ crlf) ++ l ++ crlf) - 1).
  { rewrite (zlen_app _ (l ++ crlf)), (zlen_app l). unfold h. change (zlen crlf) with 2. lia. }
  rewrite <- He. split; [done|]. split; [|by split].
  destruct l as [|x l]; [rewrite Z.add_0_r in H3; eauto|]. apply has_cons in H2 as [H2 _]. eauto.
Qed.

Lemma finishes_skip send c n ks p s r (l : list Z) Q ch :
  between c n ks r -> rlen r = zlen l -> p < mb_last b /\ deref b p = Some ch ->
  step p ch s r = step_skip_to send b p s r ->
  p + zlen l < mb_last b /\ deref b (p + zlen l) = Some CR ->
  (forall r', between c n ks r' -> finishes (p + zlen l + 1) send r' Q) -> finishes p s r Q.
Proof.
  intros [B1 B2 B3 B4 B5 B6 B7] Hl Hp Hs [He Hc] Hf.
  apply (finishes_step p ch s r (p + zlen l) send (set_rlen r 0)); [done| |by apply Hf; constructor].
  rewrite Hs. unfold step_skip_to. rewrite Hl. destruct (Z.leb_spec (mb_last b) (p + zlen l)); [lia|].
  by rewrite Hc.
Qed.

(** A bulk that is skipped, up to its last byte. *)
Lemma finishes_arg s slf sb send c n ks p r l Q :
  len_state s slf sb (fun _ => True) ->
  (forall q ch t, token t = None -> type t = fx_type c -> step q ch sb t = step_skip_to send b q sb t) ->
  between c n ks r -> 0 < n < 2 ^ 32 -> zlen l < 2 ^ 32 -> has b p (bulk l) ->
  (forall r', between c (n - 1) ks r' -> finishes (p + zlen (bulk l) - 1) send r' Q) -> finishes p s r Q.
Proof.
  intros Hls Hsk Hb Hn Hl Hh Hf. destruct (has_bulk p l Hh) as (H1 & H2 & [ch H3] & H4 & H5 & H6).
  eapply finishes_len; [exact Hls|exact Hb|done| |done|exact H1|]; [pose proof (zlen_nonneg l); lia|].
  intros r1 Hb1 Hr1. eapply finishes_skip; [exact Hb1|exact Hr1|exact H3| |exact H4|].
  - apply Hsk; apply Hb1.
  - rewrite H6. apply Hf.
Qed.

Lemma finishes_arg1 c n ks p r l Q :
  between c n ks r -> 0 < n < 2 ^ 32 -> zlen l < 2 ^ 32 -> has b p (bulk l) ->
  (forall r', between c (n - 1) ks r' -> finishes (p + zlen (bulk l) - 1) SW_ARG1_LF r' Q) ->
  finishes p SW_ARG1_LEN r Q.
Proof. apply (finishes_arg _ SW_ARG1_LEN_LF SW_ARG1); [apply arg_len_state; auto|done]. Qed.

(** SW_ARG2 skips its bulk, EVAL apart. *)
Lemma finishes_arg2 c n ks p r l Q :
  redis_argeval (fx_type c) = false ->
  between c n ks r -> 0 < n < 2 ^ 32 -> zlen l < 2 ^ 32 -> has b p (bulk l) ->
  (forall r', between c (n - 1) ks r' -> finishes (p + zlen (bulk l) - 1) SW_ARG2_LF r' Q) ->
  finishes p SW_ARG2_LEN r Q.
Proof.
  intros Ht. apply (finishes_arg _ SW_ARG2_LEN_LF SW_ARG2); [apply arg_len_state; auto|].
  intros q ch t Hn Hy. simpl. unfold step_arg2, step_skip_to, no_token. rewrite Hn, Hy, Ht. simpl.
  by rewrite Hy, Ht.
Qed.

Lemma finishes_arg3 c n ks p r l Q :
  between c n ks r -> 0 < n < 2 ^ 32 -> zlen l < 2 ^ 32 -> has b p (bulk l) ->
  (forall r', between c (n - 1) ks r' -> finishes (p + zlen (bulk l) - 1) SW_ARG3_LF r' Q) ->
  finishes p SW_ARG3_LEN r Q.
Proof. apply (finishes_arg _ SW_ARG3_LEN_LF SW_ARG3); [apply arg_len_state; auto|done]. Qed.

Lemma finishes_argn c n ks p r l Q :
  between c n ks r -> 0 < n < 2 ^ 32 -> zlen l < 2 ^ 32 -> has b p (bulk l) ->
  (forall r', between c (n - 1) ks r' -> finishes (p + zlen (bulk l) - 1) SW_ARGN_LF r' Q) ->
  finishes p SW_ARGN_LEN r Q.
Proof. apply (finishes_arg _ SW_ARGN_LEN_LF SW_ARGN); [apply arg_len_state; auto 6|done]. Qed.

Lemma push_key_are r p e l ks :
  keys_are (keys r) ks -> zlen ks < 2 ^ 28 -> 0 <= p -> has b p l -> e = p + zlen l ->
  exists a, push_key ok r b p e = Some (set_keys r a) /\ keys_are a (ks ++ [l]).
Proof.
  intros (Hwf & Hna & kps & Hc & Hk & Hid) Hz Hp Hh ->. unfold push_key.
  assert (Hne : nelem (keys r) = zlen ks).
  { rewrite <- (contents_length _ Hwf), Hc, <- Hk. unfold zlen. by rewrite !length_map. }
  destruct (array_push ok (keys r)) as [[kp a]|] eqn:E.
  2:{ unfold array_push in E. destruct (_ =? _); [|done]. by rewrite Hok in E. }
  set (kv := mk_keypos _ _). destruct (array_push_store_spec ok (keys r) a kp kv Hwf) as (Hwf' & Hc' & _); [lia|done|].
  eexists. split; [done|]. split_and!; [done| |].
  - unfold array_push in E. destruct Hwf as [? ? ? ?]. repeat dmatch_in E; simplify_eq/=; b2p;
      rewrite ?(u32_small (nelem _ + 1)), ?(u32_small (nalloc _ * 2)) by (unfold is_u32; lia); lia.
  - exists (kps ++ [kv]). rewrite !map_app, Hc', Hc, Hk. split_and!; [done| |].
    + simpl. unfold key_bytes. simpl. by rewrite has_slice.
    + apply Forall_app. split; [done|]. by repeat constructor.
Qed.

(** A bulk that is a key. *)
Lemma finishes_key c n ks p r l Q :
  between c n ks r -> 0 < n < 2 ^ 32 -> zlen l < 2 ^ 32 -> zlen l < dsz -> zlen ks < 2 ^ 28 -> 0 <= p ->
  has b p (bulk l) ->
  (forall r', between c (n - 1) (ks ++ [l]) r' -> finishes (p + zlen (bulk l) - 1) SW_KEY_LF r' Q) ->
  finishes p SW_KEY_LEN r Q.
Proof.
  intros Hb Hn Hl Hd Hz Hp Hh Hf. destruct (has_bulk p l Hh) as (H1 & H2 & [ch H3] & H4 & H5 & H6).
  apply (finishes_len _ _ _ _ c n ks p r (zlen l) Q key_len_state Hb Hn); [pose proof (zlen_nonneg l); lia|done|done|].
  intros r1 [B1 B2 B3 B4 B5 B6 B7] Hr1. set (h := p + zlen ([36] ++ dec (zlen l) ++ crlf)) in *.
  set (r2 := set_token (set_rlen (set_token r1 (Some h)) 0) None).
  destruct (push_key_are r2 h (h + zlen l) l ks) as (a & Ea & Ha); try done.
  { unfold h. pose proof (zlen_nonneg ([36] ++ dec (zlen l) ++ crlf)). lia. }
  apply (finishes_step h ch SW_KEY r1 (h + zlen l) SW_KEY_LF (set_keys r2 a)); [done| |].
  - change (step_key ok b h ch SW_KEY r1 = Break (h + zlen l) SW_KEY_LF (set_keys r2 a)).
    assert (Ht : token_or r1 h = h) by (unfold token_or; by rewrite B1).
    unfold step_key. rewrite Ht. cbv zeta. change (rlen (set_token r1 (Some h))) with (rlen r1). rewrite Hr1.
    destruct (Z.leb_spec (mb_last b) (h + zlen l)); [lia|]. destruct H4 as [_ ->]. change (negb (CR =? CR)) with false.
    cbv iota. fold r2. by rewrite Ea.
  - rewrite H6. apply Hf. constructor; simpl; try done.
Qed.

(** *** The arguments, class by class *)

(** The request ends with the last byte of the arguments at [p]. *)
Definition ends (c : fixed) (ks : list (list Z)) (e : Z) (p : Z) (r : regs) : Prop :=
  p = e - 1 /\ between c 0 ks r.

Definition small (l : list Z) : Prop := zlen l < 2 ^ 32.

Lemma bulks_cons l args : bulks (l :: args) = bulk l ++ bulks args.
Proof. done. Qed.

Lemma bulks_end p l args : p + zlen (bulks (l :: args)) = p + zlen (bulk l) + zlen (bulks args).
Proof. rewrite bulks_cons, zlen_app. lia. Qed.

(** The LF that ends a bulk when it ends the request, or when more follows. *)
Lemma finishes_last c ks p l s r :
  has b p (bulk l) -> between c 0 ks r ->
  step (p + zlen (bulk l) - 1) LF s r = Done (p + zlen (bulk l) - 1) r ->
  finishes (p + zlen (bulk l) - 1) s r (ends c ks (p + zlen (bulks [l]))).
Proof.
  intros Hh Hb Hs. destruct (has_bulk p l Hh) as (_ & _ & _ & _ & H5 & _).
  eapply finishes_done; [exact H5|exact Hs|]. split; [|done].
  rewrite bulks_end. change (bulks []) with (@nil Z). unfold zlen at 3. simpl. lia.
Qed.

Lemma finishes_next p l s s' r Q :
  has b p (bulk l) -> step (p + zlen (bulk l) - 1) LF s r = Break (p + zlen (bulk l) - 1) s' r ->
  finishes (p + zlen (bulk l)) s' r Q -> finishes (p + zlen (bulk l) - 1) s r Q.
Proof.
  intros Hh Hs Hf. destruct (has_bulk p l Hh) as (_ & _ & _ & _ & H5 & _).
  eapply finishes_step; [exact H5|exact Hs|]. by replace (p + zlen (bulk l) - 1 + 1) with (p + zlen (bulk l)) by lia.
Qed.

Lemma finishes_ends p s r c ks e e' :
  finishes p s r (ends c ks e) -> e = e' -> finishes p s r (ends c ks e').
Proof. by intros ? <-. Qed.

Lemma bulk_pos l : 0 < zlen (bulk l).
Proof. unfold bulk. rewrite <- app_comm_cons, zlen_cons. pose proof (zlen_nonneg ([] ++ dec (zlen l) ++ crlf ++ l ++ crlf)). lia. Qed.

Lemma argn_loop c ks l args p r :
  redis_argn (fx_type c) || redis_argeval (fx_type c) = true ->
  between c (zlen (l :: args)) ks r -> Forall small (l :: args) -> zlen (l :: args) < 2 ^ 32 ->
  has b p (bulks (l :: args)) ->
  finishes p SW_ARGN_LEN r (ends c ks (p + zlen (bulks (l :: args)))).
Proof.
  intros Ht. revert l p r. induction args as [|l' args IH]; intros l p r Hb Hs Hn Hh.
  all: inversion Hs as [|? ? Hl Hs']; subst; rewrite bulks_cons, has_app in Hh; destruct Hh as [Hh Hh'].
  all: rewrite zlen_cons in Hb, Hn; match type of Hn with context [1 + zlen ?x] => pose proof (zlen_nonneg x) as Hz end.
  all: eapply finishes_argn; [exact Hb|lia|exact Hl|exact Hh|].
  - intros r1 B1. change (1 + zlen [] - 1) with 0 in B1. apply finishes_last; [done|done|].
    simpl. unfold step_argn_lf. by rewrite (bt_type _ _ _ _ B1), Ht, (bt_rnarg _ _ _ _ B1).
  - intros r1 B1. rewrite bulks_end. apply (finishes_next _ _ _ SW_ARGN_LEN); [done| |].
    + simpl. unfold step_argn_lf. rewrite (bt_type _ _ _ _ B1), Ht, (bt_rnarg _ _ _ _ B1).
      destruct (Z.eqb_spec (1 + zlen (l' :: args) - 1) 0) as [E|]; [rewrite zlen_cons in E; pose proof (zlen_nonneg args); lia|done].
    + apply IH; [|done|lia|done]. by replace (zlen (l' :: args)) with (1 + zlen (l' :: args) - 1) by lia.
Qed.

Lemma argx_loop c ks l args p r :
  redis_argx (fx_type c) = true ->
  between c (zlen (l :: args)) ks r -> Forall (fun k => zlen k < dsz /\ small k) (l :: args) ->
  zlen ks + zlen (l :: args) < 2 ^ 28 -> 0 <= p -> has b p (bulks (l :: args)) ->
  finishes p SW_KEY_LEN r (ends c (ks ++ l :: args) (p + zlen (bulks (l :: args)))).
Proof.
  intros Ht. assert (Hno : redis_arg0 (fx_type c) = false /\ redis_arg1 (fx_type c) = false /\ redis_arg2 (fx_type c) = false /\
    redis_arg3 (fx_type c) = false /\ redis_argn (fx_type c) = false) by (clear -Ht; by destruct (fx_type c)).
  destruct Hno as (N0 & N1 & N2 & N3 & N4).
  revert ks l p r. induction args as [|l' args IH]; intros ks l p r Hb Hs Hn Hp Hh.
  all: inversion Hs as [|? ? [Hd Hl] Hs']; subst; rewrite bulks_cons, has_app in Hh; destruct Hh as [Hh Hh'].
  all: rewrite zlen_cons in Hb, Hn; match type of Hn with context [1 + zlen ?x] => pose proof (zlen_nonneg x) as Hz end; pose proof (zlen_nonneg ks) as Hz'; pose proof (bulk_pos l).
  all: eapply finishes_key; [exact Hb|lia|exact Hl|exact Hd|lia|done|exact Hh|].
  - intros r1 B1. change (1 + zlen [] - 1) with 0 in B1. apply finishes_last; [done|done|].
    simpl. unfold step_key_lf. by rewrite (bt_type _ _ _ _ B1), N0, N1, N2, N3, N4, Ht, (bt_rnarg _ _ _ _ B1).
  - intros r1 B1. rewrite bulks_end. apply (finishes_next _ _ _ SW_KEY_LEN); [done| |].
    + simpl. unfold step_key_lf. rewrite (bt_type _ _ _ _ B1), N0, N1, N2, N3, N4, Ht, (bt_rnarg _ _ _ _ B1).
      destruct (Z.eqb_spec (1 + zlen (l' :: args) - 1) 0) as [E|]; [rewrite zlen_cons in E; pose proof (zlen_nonneg args); lia|done].
    + change (l :: l' :: args) with ([l] ++ l' :: args). rewrite (app_assoc ks).
      apply IH; [|done|rewrite zlen_app; change (zlen [l]) with 1; lia|lia|done].
      by replace (zlen (l' :: args)) with (1 + zlen (l' :: args) - 1) by lia.
Qed.

Definition key_small (k : list Z) : Prop := zlen k < dsz /\ small k.

(** The conditions of an [_LF] state, evaluated. *)
Ltac lf_state B :=
  cbn [req_step]; unfold step_key_lf, step_arg1_lf, step_arg2_lf, step_arg3_lf, step_argn_lf;
  change (LF =? LF) with true; cbv iota zeta;
  rewrite ?(bt_type _ _ _ _ B), ?(bt_rnarg _ _ _ _ B), ?(bt_narg _ _ _ _ B);
  repeat match goal with H : ?x = true |- context [if ?x then _ else _] => rewrite H
                       | H : ?x = false |- context [if ?x then _ else _] => rewrite H end;
  try done.

Lemma kv_loop c ks k v kvs p r :
  redis_argkvx (fx_type c) = true -> fx_narg c mod 2 <> 0 ->
  let args := concat (map (fun kv => [fst kv; snd kv]) ((k, v) :: kvs)) in
  between c (zlen args) ks r -> Forall (fun kv => key_small (fst kv) /\ small (snd kv)) ((k, v) :: kvs) ->
  zlen ks + zlen args < 2 ^ 28 -> 0 <= p -> has b p (bulks args) ->
  finishes p SW_KEY_LEN r (ends c (ks ++ map fst ((k, v) :: kvs)) (p + zlen (bulks args))).
Proof.
  intros Ht Hodd. assert (Hno : redis_arg0 (fx_type c) = false /\ redis_arg1 (fx_type c) = false /\ redis_arg2 (fx_type c) = false /\
    redis_arg3 (fx_type c) = false /\ redis_argn (fx_type c) = false /\ redis_argx (fx_type c) = false /\
    redis_argeval (fx_type c) = false) by (clear -Ht; by destruct (fx_type c)).
  destruct Hno as (N0 & N1 & N2 & N3 & N4 & N5 & N6). cbv zeta.
  revert ks k v p r. induction kvs as [|[k' v'] kvs IH]; intros ks k v p r Hb Hs Hn Hp Hh.
  all: inversion Hs as [|? ? [[Hd Hk] Hv] Hs']; subst; simpl fst in *; simpl snd in *.
  all: cbn [map concat app fst snd] in Hb, Hn, Hh |- *; rewrite bulks_cons, has_app, bulks_cons, has_app in Hh;
    destruct Hh as (Hh1 & Hh2 & Hh).
  all: rewrite !zlen_cons in Hb, Hn; match type of Hn with context [1 + (1 + zlen ?x)] => pose proof (zlen_nonneg x) as Hz end;
    pose proof (zlen_nonneg ks) as Hz'; pose proof (bulk_pos k); pose proof (bulk_pos v).
  all: eapply finishes_key; [exact Hb|lia|exact Hk|exact Hd|lia|done|exact Hh1|]; intros r1 B1;
    apply (finishes_next _ _ _ SW_ARG1_LEN); [done|lf_state B1; destruct (Z.eqb_spec (fx_narg c mod 2) 0); done|];
    (eapply finishes_arg1; [exact B1|lia|exact Hv|exact Hh2|]); intros r2 B2; rewrite bulks_end.
  - replace (1 + (1 + zlen (@nil (list Z))) - 1 - 1) with 0 in B2 by (unfold zlen; simpl; lia).
    eapply finishes_ends; [apply finishes_last; [done|done|lf_state B2]|]. rewrite !bulks_end. lia.
  - apply (finishes_next _ _ _ SW_KEY_LEN); [done| |].
    + match type of B2 with between _ ?n _ _ => assert (Hnz : (n =? 0) = false) end.
      { apply Z.eqb_neq. lia. }
      lf_state B2.
    + change (k :: k' :: map fst kvs) with ([k] ++ map fst ((k', v') :: kvs)). rewrite (app_assoc ks).
      eapply finishes_ends; [apply IH; [|done|rewrite zlen_app; change (zlen [k]) with 1; cbn [map concat app fst snd]; rewrite !zlen_cons; lia|lia|done]|].
      * cbn [map concat app fst snd]. rewrite !zlen_cons. match goal with |- between _ ?n _ _ => by replace n with (1 + (1 + n) - 1 - 1) by lia end.
      * cbn [map concat app fst snd]. rewrite !bulks_end. lia.
Qed.

(** Split the bulks at [p] off one by one. *)
Ltac split_bulks Hh :=
  repeat (rewrite bulks_cons, has_app in Hh;
          let H := fresh "Hh" in destruct Hh as [H Hh]).

Lemma arg0_run c k p r :
  redis_arg0 (fx_type c) = true -> between c 1 [] r -> key_small k -> 0 <= p -> has b p (bulks [k]) ->
  finishes p SW_KEY_LEN r (ends c [k] (p + zlen (bulks [k]))).
Proof.
  intros Ht Hb [Hd Hk] Hp Hh. split_bulks Hh.
  eapply finishes_key; [exact Hb|lia|exact Hk|exact Hd|done|done|done|]. intros r1 B1.
  apply finishes_last; [done|done|lf_state B1].
Qed.

Lemma arg1_run c k a p r :
  redis_arg1 (fx_type c) = true -> between c 2 [] r -> key_small k -> small a -> 0 <= p -> has b p (bulks [k; a]) ->
  finishes p SW_KEY_LEN r (ends c [k] (p + zlen (bulks [k; a]))).
Proof.
  intros Ht Hb [Hd Hk] Ha Hp Hh. split_bulks Hh.
  assert (N0 : redis_arg0 (fx_type c) = false) by (clear -Ht; by destruct (fx_type c)).
  eapply finishes_key; [exact Hb|lia|exact Hk|exact Hd|done|done|done|]. intros r1 B1.
  apply (finishes_next _ _ _ SW_ARG1_LEN); [done|lf_state B1|].
  eapply finishes_arg1; [exact B1|lia|exact Ha|done|]. intros r2 B2.
  eapply finishes_ends; [apply finishes_last; [done|exact B2|lf_state B2]|]. rewrite !bulks_end. lia.
Qed.

Lemma arg2_run c k a a2 p r :
  redis_arg2 (fx_type c) = true -> between c 3 [] r -> key_small k -> small a -> small a2 -> 0 <= p ->
  has b p (bulks [k; a; a2]) ->
  finishes p SW_KEY_LEN r (ends c [k] (p + zlen (bulks [k; a; a2]))).
Proof.
  intros Ht Hb [Hd Hk] Ha Ha2 Hp Hh. split_bulks Hh.
  assert (N : redis_arg0 (fx_type c) = false /\ redis_arg1 (fx_type c) = false /\ redis_argeval (fx_type c) = false)
    by (clear -Ht; by destruct (fx_type c)). destruct N as (N0 & N1 & Ne).
  eapply finishes_key; [exact Hb|lia|exact Hk|exact Hd|done|done|done|]. intros r1 B1.
  apply (finishes_next _ _ _ SW_ARG1_LEN); [done|lf_state B1|].
  eapply finishes_arg1; [exact B1|lia|exact Ha|done|]. intros r2 B2.
  apply (finishes_next _ _ _ SW_ARG2_LEN); [done|lf_state B2|].
  eapply finishes_arg2; [done|exact B2|lia|exact Ha2|done|]. intros r3 B3.
  eapply finishes_ends; [apply finishes_last; [done|exact B3|lf_state B3]|]. rewrite !bulks_end. lia.
Qed.

Lemma arg3_run c k a a2 a3 p r :
  redis_arg3 (fx_type c) = true -> between c 4 [] r -> key_small k -> small a -> small a2 -> small a3 -> 0 <= p ->
  has b p (bulks [k; a; a2; a3]) ->
  finishes p SW_KEY_LEN r (ends c [k] (p + zlen (bulks [k; a; a2; a3]))).
Proof.
  intros Ht Hb [Hd Hk] Ha Ha2 Ha3 Hp Hh. split_bulks Hh.
  assert (N : redis_arg0 (fx_type c) = false /\ redis_arg1 (fx_type c) = false /\ redis_arg2 (fx_type c) = false /\
    redis_argeval (fx_type c) = false) by (clear -Ht; by destruct (fx_type c)). destruct N as (N0 & N1 & N2 & Ne).
  eapply finishes_key; [exact Hb|lia|exact Hk|exact Hd|done|done|done|]. intros r1 B1.
  apply (finishes_next _ _ _ SW_ARG1_LEN); [done|lf_state B1|].
  eapply finishes_arg1; [exact B1|lia|exact Ha|done|]. intros r2 B2.
  apply (finishes_next _ _ _ SW_ARG2_LEN); [done|lf_state B2|].
  eapply finishes_arg2; [done|exact B2|lia|exact Ha2|done|]. intros r3 B3.
  apply (finishes_next _ _ _ SW_ARG3_LEN); [done|lf_state B3|].
  eapply finishes_arg3; [exact B3|lia|exact Ha3|done|]. intros r4 B4.
  eapply finishes_ends; [apply finishes_last; [done|exact B4|lf_state B4]|]. rewrite !bulks_end. lia.
Qed.

Lemma argn_run c k args p r :
  redis_argn (fx_type c) = true -> between c (zlen (k :: args)) [] r -> key_small k -> Forall small args ->
  zlen (k :: args) < 2 ^ 28 -> 0 <= p -> has b p (bulks (k :: args)) ->
  finishes p SW_KEY_LEN r (ends c [k] (p + zlen (bulks (k :: args)))).
Proof.
  intros Ht Hb [Hd Hk] Ha Hn Hp Hh. rewrite zlen_cons in *. pose proof (zlen_nonneg args).
  assert (N : redis_arg0 (fx_type c) = false /\ redis_arg1 (fx_type c) = false /\ redis_arg2 (fx_type c) = false /\
    redis_arg3 (fx_type c) = false) by (clear -Ht; by destruct (fx_type c)). destruct N as (N0 & N1 & N2 & N3).
  rewrite bulks_cons, has_app in Hh. destruct Hh as [Hh1 Hh].
  eapply finishes_key; [exact Hb|lia|exact Hk|exact Hd|done|done|exact Hh1|]. intros r1 B1.
  destruct args as [|a args]; [by apply finishes_last; [done|done|lf_state B1]|].
  rewrite zlen_cons in *. inversion Ha as [|? ? Hsa Ha']; subst.
  pose proof (zlen_nonneg args). pose proof (bulk_pos k).
  assert (Hnz : (1 + (1 + zlen args) - 1 =? 0) = false) by (apply Z.eqb_neq; lia).
  apply (finishes_next _ _ _ SW_ARG1_LEN); [done|lf_state B1|].
  rewrite bulks_cons, has_app in Hh. destruct Hh as [Hh2 Hh].
  eapply finishes_arg1; [exact B1|lia|exact Hsa|done|]. intros r2 B2.
  destruct args as [|a' args].
  { eapply finishes_ends; [apply finishes_last; [done|exact B2|lf_state B2]|]. rewrite !bulks_end. lia. }
  assert (Hnz2 : (1 + (1 + zlen (a' :: args)) - 1 - 1 =? 0) = false)
    by (apply Z.eqb_neq; rewrite zlen_cons; pose proof (zlen_nonneg args); lia).
  apply (finishes_next _ _ _ SW_ARGN_LEN); [done|lf_state B2|].
  eapply finishes_ends; [apply (argn_loop c [k]); [by rewrite Ht| |done|lia|done]|rewrite !bulks_end; lia].
  by replace (zlen (a' :: args)) with (1 + (1 + zlen (a' :: args)) - 1 - 1) by lia.
Qed.

(** *** EVAL *)

(** The key count of EVAL: a nonzero decimal number. *)
Definition numkeys_ok (l : list Z) : bool :=
  negb (zlen l =? 0) && forallb isdigit l && negb (fold_left dec_acc l 0 =? 0).

Lemma eval_nkey_value p l k :
  has b p l -> forallb isdigit l = true -> eval_nkey b p (length l) k = Some (Some (fold_left dec_acc l k)).
Proof.
  revert p k. induction l as [|ch l IH]; intros p k Hh Hd; [done|]. simpl in Hd. b2p.
  apply has_cons in Hh as [[_ Hc] Hh]. simpl. rewrite Hc. match goal with H : isdigit ch = true |- _ => rewrite H end.
  by apply IH.
Qed.

Lemma finishes_numkeys c n ks p r l Q :
  redis_argeval (fx_type c) = true -> numkeys_ok l = true ->
  between c n ks r -> 0 < n < 2 ^ 32 -> zlen l < 2 ^ 32 -> has b p (bulk l) ->
  (forall r', between c (n - 1) ks r' -> finishes (p + zlen (bulk l) - 1) SW_ARG2_LF r' Q) ->
  finishes p SW_ARG2_LEN r Q.
Proof.
  intros Ht Hk Hb Hn Hl Hh Hf. destruct (has_bulk p l Hh) as (H1 & H2 & [ch H3] & H4 & H5 & H6).
  eapply (finishes_len SW_ARG2_LEN SW_ARG2_LEN_LF SW_ARG2 (fun _ => True) c n ks p r (zlen l));
    [apply arg_len_state; auto|done|done|pose proof (zlen_nonneg l); lia|done|done|].
  intros r1 [B1 B2 B3 B4 B5 B6 B7] Hr1. set (h := p + zlen ([36] ++ dec (zlen l) ++ crlf)) in *.
  apply (finishes_step h ch SW_ARG2 r1 (h + zlen l) SW_ARG2_LF (set_token (set_rlen (set_token r1 (Some h)) 0) None));
    [done| |rewrite H6; apply Hf; by constructor].
  unfold numkeys_ok in Hk. b2p. pose proof (zlen_nonneg l).
  change (step_arg2 b h ch SW_ARG2 r1 = Break (h + zlen l) SW_ARG2_LF (set_token (set_rlen (set_token r1 (Some h)) 0) None)).
  unfold step_arg2, no_token. rewrite B1, B2, Ht. cbn [andb]. cbv zeta.
  change (rlen (set_token r1 (Some h))) with (rlen r1). rewrite Hr1.
  destruct (Z.leb_spec (mb_last b) (h + zlen l)); [lia|]. destruct H4 as [_ ->]. change (negb (CR =? CR)) with false. cbv iota.
  change (type (set_rlen (set_token r1 (Some h)) 0)) with (type r1). rewrite B2, Ht.
  change (token_or (set_rlen (set_token r1 (Some h)) 0) h) with h.
  replace (h + zlen l - h) with (zlen l) by lia. destruct (Z.ltb_spec (zlen l) 1); [lia|].
  unfold zlen at 1. rewrite Nat2Z.id, eval_nkey_value by done.
  destruct (Z.eqb_spec (fold_left dec_acc l 0) 0); [done|]. done.
Qed.

Lemma eval_run c script nk k args p r :
  redis_argeval (fx_type c) = true -> numkeys_ok nk = true ->
  between c (zlen (script :: nk :: k :: args)) [] r -> small script -> small nk -> key_small k -> Forall small args ->
  zlen (script :: nk :: k :: args) < 2 ^ 28 -> 0 <= p -> has b p (bulks (script :: nk :: k :: args)) ->
  finishes p SW_ARG1_LEN r (ends c [k] (p + zlen (bulks (script :: nk :: k :: args)))).
Proof.
  intros Ht Hnk Hb Hs1 Hs2 [Hd Hk] Ha Hn Hp Hh. rewrite !zlen_cons in *. pose proof (zlen_nonneg args).
  assert (N : redis_arg0 (fx_type c) = false /\ redis_arg1 (fx_type c) = false /\ redis_arg2 (fx_type c) = false /\
    redis_arg3 (fx_type c) = false /\ redis_argn (fx_type c) = false /\ redis_argx (fx_type c) = false /\
    redis_argkvx (fx_type c) = false) by (clear -Ht; by destruct (fx_type c)).
  destruct N as (N0 & N1 & N2 & N3 & N4 & N5 & N6).
  rewrite !bulks_cons, !has_app in Hh. destruct Hh as (Hh1 & Hh2 & Hh3 & Hh).
  pose proof (bulk_pos script). pose proof (bulk_pos nk).
  eapply finishes_arg1; [exact Hb|lia|exact Hs1|done|]. intros r1 B1.
  assert (Hl1 : (1 + (1 + (1 + zlen args)) - 1 <? 2) = false) by (apply Z.ltb_ge; lia).
  apply (finishes_next _ _ _ SW_ARG2_LEN); [done|lf_state B1|].
  eapply finishes_numkeys; [done|done|exact B1|lia|exact Hs2|done|]. intros r2 B2.
  assert (Hl2 : (1 + (1 + (1 + zlen args)) - 1 - 1 <? 1) = false) by (apply Z.ltb_ge; lia).
  apply (finishes_next _ _ _ SW_KEY_LEN); [done|lf_state B2|].
  eapply finishes_key; [exact B2|lia|exact Hk|exact Hd|done|lia|done|]. intros r3 B3.
  destruct args as [|a args].
  { eapply finishes_ends; [apply finishes_last; [done|exact B3|lf_state B3]|]. rewrite !bulks_end. lia. }
  assert (Hnz : (1 + (1 + (1 + zlen (a :: args))) - 1 - 1 - 1 =? 0) = false)
    by (apply Z.eqb_neq; rewrite zlen_cons; pose proof (zlen_nonneg args); lia).
  apply (finishes_next _ _ _ SW_ARGN_LEN); [done|lf_state B3|].
  eapply finishes_ends; [apply (argn_loop c [k]); [by rewrite Ht, orb_true_r| |done|lia|done]|rewrite !bulks_end; lia].
  by replace (zlen (a :: args)) with (1 + (1 + (1 + zlen (a :: args))) - 1 - 1 - 1) by lia.
Qed.

(** *** The whole request *)

(** Every second element, of an even number of them. *)
Fixpoint pair_up (args : list (list Z)) : option (list (list Z * list Z)) :=
  match args with
  | [] => Some []
  | k :: v :: rest => option_map (cons (k, v)) (pair_up rest)
  | _ => None
  end.

(** The keys of a command with these arguments, [None] when its arity does
    not allow them. *)
Definition redis_keys (t : msg_type) (args : list (list Z)) : option (list (list Z)) :=
  if redis_argz t then match args with [] => Some [] | _ => None end
  else if redis_arg0 t then match args with [k] => Some [k] | _ => None end
  else if redis_arg1 t then match args with [k; _] => Some [k] | _ => None end
  else if redis_arg2 t then match args with [k; _; _] => Some [k] | _ => None end
  else if redis_arg3 t then match args with [k; _; _; _] => Some [k] | _ => None end
  else if redis_argn t then match args with k :: _ => Some [k] | _ => None end
  else if redis_argx t then match args with [] => None | _ => Some args end
  else if redis_argkvx t then
    match args with [] => None | _ => option_map (map fst) (pair_up args) end
  else if redis_argeval t then
    match args with
    | _ :: nk :: k :: _ => if numkeys_ok nk then Some [k] else None
    | _ => None
    end
  else None.

Lemma pair_up_concat args kvs :
  pair_up args = Some kvs -> args = concat (map (fun kv => [fst kv; snd kv]) kvs).
Proof.
  assert (H : forall n args kvs, (length args <= n)%nat -> pair_up args = Some kvs ->
    args = concat (map (fun kv => [fst kv; snd kv]) kvs)); [|by apply (H (length args))].
  clear. induction n as [|n IH]; intros args kvs Hn Hp; [destruct args; simpl in *; [by simplify_eq|lia]|].
  destruct args as [|k [|v args]]; simpl in *; [by simplify_eq|done|].
  destruct (pair_up args) as [kvs'|] eqn:E; simpl in Hp; [|done]. simplify_eq. simpl. by rewrite <- (IH args kvs') by (done || lia).
Qed.

Lemma zlen_pairs (kvs : list (list Z * list Z)) :
  zlen (concat (map (fun kv => [fst kv; snd kv]) kvs)) = 2 * zlen kvs.
Proof. induction kvs as [|kv kvs IH]; [done|]. cbn [map concat app]. rewrite !zlen_cons, IH. lia. Qed.

Lemma finishes_pairs c args ks p r :
  fx_narg c = 1 + zlen args -> between c (zlen args) [] r -> args <> [] ->
  redis_argkvx (fx_type c) = true -> option_map (map fst) (pair_up args) = Some ks ->
  (forall k, In k ks -> In k args -> key_small k) -> Forall small args -> zlen args < 2 ^ 28 -> 0 <= p ->
  has b p (bulks args) -> finishes p SW_KEY_LEN r (ends c ks (p + zlen (bulks args))).
Proof.
  intros Hna Hb Hne Ht Hk Hks Hs Hn Hp Hh.
  destruct (pair_up args) as [kvs|] eqn:Ep; simpl in Hk; [|done]. injection Hk as <-. apply pair_up_concat in Ep.
  destruct kvs as [|[k v] kvs]; [done|]. subst args. apply (kv_loop c []); try done.
  - rewrite Hna, zlen_pairs, Z.add_comm, Z.mul_comm, Z.add_comm, Z_mod_plus_full. done.
  - rewrite List.Forall_forall in *. intros kv Hin.
    assert (Hkv : forall x, x = fst kv \/ x = snd kv -> In x (concat (map (fun kv => [fst kv; snd kv]) ((k, v) :: kvs)))).
    { intros x Hx. apply in_concat. exists [fst kv; snd kv]. split; [apply in_map_iff; by exists kv|].
      destruct Hx as [->| ->]; simpl; auto. }
    split; [apply Hks; [by apply in_map|apply Hkv; auto]|apply Hs, Hkv; auto].
Qed.

Lemma finishes_args c args ks p r :
  fx_narg c = 1 + zlen args -> between c (zlen args) [] r -> args <> [] ->
  redis_argz (fx_type c) = false -> redis_keys (fx_type c) args = Some ks ->
  Forall (fun k => zlen k < dsz) ks -> Forall small args -> zlen args < 2 ^ 28 -> 0 <= p -> has b p (bulks args) ->
  finishes p (if redis_argeval (fx_type c) then SW_ARG1_LEN else SW_KEY_LEN) r (ends c ks (p + zlen (bulks args))).
Proof.
  intros Hna Hb Hne Hz Hk Hd Hs Hn Hp Hh. unfold redis_keys in Hk. rewrite Hz in Hk.
  assert (Hks : forall k, In k ks -> In k args -> key_small k).
  { intros k H1 H2. rewrite List.Forall_forall in *. split; [by apply Hd|by apply Hs]. }
  assert (Hev : redis_argeval (fx_type c) = true -> redis_arg0 (fx_type c) = false /\ redis_arg1 (fx_type c) = false /\
    redis_arg2 (fx_type c) = false /\ redis_arg3 (fx_type c) = false /\ redis_argn (fx_type c) = false /\
    redis_argx (fx_type c) = false /\ redis_argkvx (fx_type c) = false) by (clear; by destruct (fx_type c)).
  destruct (redis_argeval (fx_type c)) eqn:Ee.
  { destruct (Hev eq_refl) as (E0 & E1 & E2 & E3 & E4 & E5 & E6). rewrite E0, E1, E2, E3, E4, E5, E6 in Hk.
    destruct args as [|sc [|nk [|k args]]]; try done. destruct (numkeys_ok nk) eqn:Enk; [|done]. simplify_eq.
    inversion Hs as [|? ? Hs1 Hs']; subst. inversion Hs' as [|? ? Hs2 Hs'']; subst. inversion Hs'' as [|? ? Hs3 Hs4]; subst.
    apply eval_run; try done. apply Hks; [by left|by right; right; left]. }
  destruct (redis_argkvx (fx_type c)) eqn:Ekv.
  { assert (N : redis_arg0 (fx_type c) = false /\ redis_arg1 (fx_type c) = false /\ redis_arg2 (fx_type c) = false /\
      redis_arg3 (fx_type c) = false /\ redis_argn (fx_type c) = false /\ redis_argx (fx_type c) = false)
      by (clear -Ekv; by destruct (fx_type c)).
    destruct N as (E0 & E1 & E2 & E3 & E4 & E5). rewrite E0, E1, E2, E3, E4, E5 in Hk.
    assert (Hk' : option_map (map fst) (pair_up args) = Some ks) by (by destruct args).
    by apply finishes_pairs. }
  clear Hev. repeat match type of Hk with (if ?x then _ else _) = _ => destruct x eqn:? end; try done.
  all: repeat match type of Hk with match ?l with _ => _ end = _ => destruct l; try done end; simplify_eq;
    repeat match goal with H : Forall small (_ :: _) |- _ => inversion H; clear H; subst end.
  - apply arg0_run; try done. apply Hks; by left.
  - apply arg1_run; try done. apply Hks; by left.
  - apply arg2_run; try done. apply Hks; by left.
  - apply arg3_run; try done. apply Hks; by left.
  - apply argn_run; try done. apply Hks; by left.
  - apply (argx_loop c []); try done.
    rewrite List.Forall_forall in *. intros k Hin. by apply Hks.
Qed.

(** The line with the number of bulks. *)
Lemma finishes_narg_digits p r ds Q :
  token r <> None -> Forall (fun ch => isdigit ch = true) ds -> has b p ds ->
  finishes (p + zlen ds) SW_NARG (set_rnarg r (fold_left dec_acc ds (rnarg r))) Q -> finishes p SW_NARG r Q.
Proof.
  intros Ht Hd. revert p r Ht. induction Hd as [|ch ds Hc Hd IH]; intros p r Ht Hh Hf.
  - simpl in Hf. unfold zlen in Hf. simpl in Hf. rewrite Z.add_0_r in Hf. by destruct r.
  - apply has_cons in Hh as [H0 Hh].
    apply (finishes_step p ch SW_NARG r p SW_NARG (set_rnarg r (dec_acc (rnarg r) ch))); [done| |].
    + simpl. unfold step_narg, no_token. rewrite Hc. by destruct (token r).
    + apply IH; [done|done|]. rewrite zlen_cons in Hf. by rewrite <- Z.add_assoc.
Qed.

Lemma finishes_narg n p Q :
  0 < n < 2 ^ 32 -> has b p ([42] ++ dec n ++ crlf) ->
  (forall r', between (mk_fixed MSG_UNKNOWN n false false) n [] r' ->
   finishes (p + zlen ([42] ++ dec n ++ crlf)) SW_REQ_TYPE_LEN r' Q) ->
  finishes p SW_START regs_init Q.
Proof.
  intros Hn Hh Hf. apply has_cons in Hh as [H0 Hh]. apply has_app in Hh as [Hd Hh].
  unfold crlf in Hh. apply has_cons in Hh as [Hcr Hh]. apply has_cons in Hh as [Hlf _].
  eapply finishes_step; [exact H0|done|].
  apply (finishes_narg_digits _ _ (dec n)); [done|apply dec_isdigit; lia|exact Hd|].
  assert (Hv : fold_left dec_acc (dec n) 0 = n) by (apply dec_value; lia).
  cbn [rnarg set_rnarg]. rewrite Hv.
  eapply finishes_step; [exact Hcr|simpl; unfold step_narg; simpl; destruct (Z.eqb_spec n 0); [lia|done]|].
  eapply finishes_step; [exact Hlf|done|].
  replace (p + 1 + zlen (dec n) + 1 + 1) with (p + zlen ([42] ++ dec n ++ crlf))
    by (rewrite !zlen_app; change (zlen crlf) with 2; change (zlen [42]) with 1; lia).
  apply Hf. constructor; simpl; try done. split_and!; [by constructor|done|]. by exists [].
Qed.

Definition effect_flags (t : msg_type) (n : Z) (e : effect) : fixed :=
  mk_fixed t n (match e with E_quit => true | _ => false end) (match e with E_noforward => true | _ => false end).

(** The bulk with the name of the command. *)
Lemma finishes_type n p r name t e Q :
  between (mk_fixed MSG_UNKNOWN n false false) n [] r -> 0 < n < 2 ^ 32 -> redis_command name = Some (t, e) ->
  small name -> has b p (bulk name) ->
  (forall r', between (effect_flags t n e) (n - 1) [] r' -> finishes (p + zlen (bulk name) - 1) SW_REQ_TYPE_LF r' Q) ->
  finishes p SW_REQ_TYPE_LEN r Q.
Proof.
  intros Hb Hn Hc Hl Hh Hf. destruct (has_bulk p name Hh) as (H1 & H2 & [ch H3] & H4 & H5 & H6).
  assert (Hz : zlen name <> 0) by (destruct name; [done|]; rewrite zlen_cons; pose proof (zlen_nonneg name); lia).
  apply (finishes_len _ _ _ _ _ n [] p r (zlen name) Q type_len_state Hb Hn); [pose proof (zlen_nonneg name); unfold small in *; lia|done|done|].
  intros r1 [B1 B2 B3 B4 B5 B6 B7] Hr1. set (h := p + zlen ([36] ++ dec (zlen name) ++ crlf)) in *.
  set (r2 := set_type (set_token (set_rlen (set_token r1 (Some h)) 0) None) MSG_UNKNOWN).
  apply (finishes_step h ch SW_REQ_TYPE r1 (h + zlen name) SW_REQ_TYPE_LF (apply_effect e (set_type r2 t))); [done| |].
  - change (step_req_type b h ch SW_REQ_TYPE r1 = Break (h + zlen name) SW_REQ_TYPE_LF (apply_effect e (set_type r2 t))).
    assert (Ht : token_or r1 h = h) by (unfold token_or; by rewrite B1).
    unfold step_req_type. rewrite Ht. cbv zeta. change (rlen (set_token r1 (Some h))) with (rlen r1). rewrite Hr1.
    destruct (Z.leb_spec (mb_last b) (h + zlen name)); [lia|]. pose proof H4 as [_ Hd4]. rewrite Hd4.
    change (negb (CR =? CR)) with false. cbv iota. replace (h + zlen name - h) with (zlen name) by lia.
    rewrite req_type_switch_lookup; [by rewrite Hc|]. apply has_app. split; [done|].
    intros [|i] x Hx; simpl in Hx; simplify_eq; by rewrite Z.add_0_r.
  - rewrite H6. apply Hf. destruct e; constructor; simpl in *; try done.
Qed.

Lemma bulks_small p args : 0 <= p -> mb_last b < 2 ^ 32 -> has b p (bulks args) -> Forall small args.
Proof.
  intros Hp Hlast. revert p Hp. induction args as [|l args IH]; intros p Hp Hh; [constructor|].
  rewrite bulks_cons, has_app in Hh. destruct Hh as [H1 H2]. pose proof (bulk_pos l). constructor; [|by apply (IH (p + zlen (bulk l))); [lia|]].
  destruct (has_bulk p l H1) as (_ & _ & _ & [Hlt _] & _). pose proof (zlen_nonneg ([36] ++ dec (zlen l) ++ crlf)). unfold small. lia.
Qed.

Lemma finishes_request name args t e ks p :
  redis_command name = Some (t, e) -> redis_keys t args = Some ks -> Forall (fun k => zlen k < dsz) ks ->
  zlen args < 2 ^ 28 -> 0 <= p -> mb_last b < 2 ^ 32 -> has b p (resp (name :: args)) ->
  finishes p SW_START regs_init
    (ends (effect_flags t (1 + zlen args) e) ks (p + zlen (resp (name :: args)))).
Proof.
  intros Hc Hk Hd Hn Hp Hlast Hh. pose proof (zlen_nonneg args).
  assert (Hr : resp (name :: args) = ([42] ++ dec (1 + zlen args) ++ crlf) ++ bulks (name :: args))
    by (unfold resp; rewrite zlen_cons; by rewrite !app_assoc).
  rewrite Hr in *. apply has_app in Hh as [H1 H2]. pose proof (zlen_nonneg ([42] ++ dec (1 + zlen args) ++ crlf)).
  set (h := p + zlen ([42] ++ dec (1 + zlen args) ++ crlf)) in *.
  assert (Hsm : Forall small (name :: args)) by (apply (bulks_small h); [lia|done|done]).
  inversion Hsm as [|? ? Hs1 Hs2]; subst. rewrite bulks_cons, has_app in H2. destruct H2 as [H2 H3].
  apply (finishes_narg (1 + zlen args)); [lia|done|]. intros r1 B1. fold h. pose proof (bulk_pos name).
  eapply finishes_type; [exact B1|lia|exact Hc|done|done|]. intros r2 B2.
  set (c := effect_flags t (1 + zlen args) e) in *. change t with (fx_type c) in Hk.
  replace (1 + zlen args - 1) with (zlen args) in B2 by lia.
  assert (He : p + zlen (([42] ++ dec (1 + zlen args) ++ crlf) ++ bulks (name :: args)) =
    h + zlen (bulk name) + zlen (bulks args)) by (rewrite (zlen_app _ (bulks _)), bulks_cons, (zlen_app (bulk name)); unfold h; lia).
  destruct (has_bulk h name H2) as (_ & _ & _ & _ & H5 & _).
  destruct (redis_argz (fx_type c)) eqn:Ez.
  - unfold redis_keys in Hk. rewrite Ez in Hk. destruct args; [|done]. simplify_eq.
    eapply finishes_done; [exact H5|simpl; unfold step_req_type_lf; rewrite (bt_type _ _ _ _ B2), Ez; done|].
    split; [|done]. rewrite He. change (bulks []) with (@nil Z). change (zlen []) with 0. lia.
  - assert (Hne : args <> []) by (intros ->; revert Hk; unfold redis_keys; rewrite Ez; by repeat case_match).
    assert (Hna : (fx_narg c =? 1) = false) by (apply Z.eqb_neq; simpl; destruct args; [done|]; rewrite zlen_cons; pose proof (zlen_nonneg args); lia).
    eapply (finishes_step _ LF _ _ _ (if redis_argeval (fx_type c) then SW_ARG1_LEN else SW_KEY_LEN) r2); [exact H5| |].
    + cbn [req_step]. unfold step_req_type_lf. rewrite (bt_type _ _ _ _ B2), Ez, (bt_narg _ _ _ _ B2), Hna.
      by destruct (redis_argeval (fx_type c)).
    + replace (h + zlen (bulk name) - 1 + 1) with (h + zlen (bulk name)) by lia. rewrite He.
      apply finishes_args; try done. lia.
Qed.

End Run.

(** ** The theorem *)

Lemma has_mdata b l more : mbuf_wf b -> mdata b = l ++ more -> has b (mb_pos b) l.
Proof.
  intros [? ? ? Hm ?] H i c Hi. unfold mdata, slice in H.
  assert (Hl : (take (Z.to_nat (mb_last b - mb_pos b)) (drop (Z.to_nat (mb_pos b)) (mb_mem b))) !! i = Some c)
    by (rewrite H; by apply lookup_app_l_Some).
  apply lookup_take_Some in Hl as [Hl Hlt]. rewrite lookup_drop in Hl. split; [lia|].
  unfold deref, rd. destruct (Z.leb_spec 0 (mb_pos b + Z.of_nat i)); [|lia]. rewrite <- Hl. f_equal. lia.
Qed.

(** The keys a parsed message points to. *)
Definition recorded_keys (b : mbuf) (r : regs) : list (option (list Z)) :=
  map (option_map (key_bytes b)) (contents (keys r)).

(** C1. Round trip: the RESP encoding of any command of the table, in any
    letter case and with arguments its arity allows, is accepted whole by
    redis_parse_req, whatever follows it in the buffer.  The message gets the
    command's type and flags, and the recorded keys are exactly the keys of
    the command, in order: the first argument, every argument of MGET and
    DEL, every other one of MSET, the first key of EVAL. *)
Theorem redis_parse_req_roundtrip (ok : Z -> bool) (dsz : Z) (b : mbuf) (name : list Z)
    (args : list (list Z)) (t : msg_type) (e : effect) (ks : list (list Z)) (more : list Z) :
  mbuf_wf b -> (forall n, ok n = true) ->
  redis_command name = Some (t, e) -> redis_keys t args = Some ks ->
  Forall (fun k => zlen k < dsz) ks -> zlen args < 2 ^ 28 ->
  mdata b = resp (name :: args) ++ more ->
  exists x, redis_parse_req ok dsz b (req_init (mb_pos b)) = Some x /\
    pm_result x = MSG_PARSE_OK /\ pm_pos x = mb_pos b + zlen (resp (name :: args)) /\
    type (pm_regs x) = t /\ recorded_keys b (pm_regs x) = map Some ks /\
    quit (pm_regs x) = match e with E_quit => true | _ => false end /\
    noforward (pm_regs x) = match e with E_noforward => true | _ => false end.
Proof.
  intros Hwf Hok Hc Hk Hd Hn Hm. pose proof Hwf as [Hp ? ? ? ?].
  destruct (finishes_request ok dsz b Hok name args t e ks (mb_pos b)) as (k & p & r & Hrun & Hend & Hb); try done; try lia.
  { by eapply has_mdata. }
  pose proof (proto_run_ok (req_step ok dsz) (req_fuel b (mb_pos b)) b (mb_pos b) SW_START regs_init Hwf
    (req_init_ok ok dsz b Hwf) (req_fuel_ok b (mb_pos b) SW_START regs_init)) as Hr.
  assert (Heq : parse_loop (req_step ok dsz) (req_fuel b (mb_pos b)) b (mb_pos b) SW_START regs_init = Rdone p r).
  { rewrite <- Hrun. apply parse_loop_fuel_eq; [by intros E; rewrite E in Hr|by rewrite Hrun]. }
  unfold redis_parse_req. cbn [pm_pos pm_state pm_regs req_init]. rewrite Heq. eexists. split; [done|]. simpl.
  destruct Hb as [B1 B2 B3 B4 B5 B6 (Hwa & _ & kps & Hcn & Hkb & _)].
  split_and!; [done|lia|done| |done|done].
  unfold recorded_keys. simpl. rewrite Hcn, <- Hkb, !map_map. done.
Qed.

(** MSET with two pairs, in mixed case and followed by the next request. *)
Definition sample_mset : list (list Z) :=
  [bytes_of "mSeT"; bytes_of "k1"; bytes_of "v1"; bytes_of "key2"; []].

Lemma redis_parse_req_roundtrip_witness :
  exists x, redis_parse_req (fun _ => true) 464 (buf_of 1 464 (resp sample_mset ++ bytes_of "*1")) (req_init 0) = Some x /\
    pm_result x = MSG_PARSE_OK /\ pm_pos x = 0 + zlen (resp sample_mset) /\
    type (pm_regs x) = MSG_REQ_REDIS_MSET /\
    recorded_keys (buf_of 1 464 (resp sample_mset ++ bytes_of "*1")) (pm_regs x) = map Some [bytes_of "k1"; bytes_of "key2"] /\
    quit (pm_regs x) = false /\ noforward (pm_regs x) = false.
Proof.
  apply (redis_parse_req_roundtrip (fun _ => true) 464 (buf_of 1 464 (resp sample_mset ++ bytes_of "*1")) (bytes_of "mSeT")
    [bytes_of "k1"; bytes_of "v1"; bytes_of "key2"; []] MSG_REQ_REDIS_MSET E_none [bytes_of "k1"; bytes_of "key2"] (bytes_of "*1"));
    try done.
  repeat constructor.
Defined.
