(* ===== verification/RedisRsp.v ===== *)
(** The redis response parser: redis_parse_rsp of proto/nc_redis.c.

    As for requests, every state of the switch is one definition.  Three
    transitions step back by one byte ([p = p - 1]) so that the next state
    sees the type character again. *)

From S2P Require Import Prelude CArray Mbuf Message Parser.

Module Rsp.

Inductive rsp_state :=
| SW_START | SW_STATUS | SW_ERROR | SW_INTEGER | SW_INTEGER_START | SW_SIMPLE
| SW_BULK | SW_BULK_LF | SW_BULK_ARG | SW_BULK_ARG_LF
| SW_MULTIBULK | SW_MULTIBULK_NARG_LF | SW_MULTIBULK_ARGN_LEN | SW_MULTIBULK_ARGN_LEN_LF
| SW_MULTIBULK_ARGN | SW_MULTIBULK_ARGN_LF | SW_RUNTO_CRLF | SW_ALMOST_DONE.

Abbreviation oc := (outcome rsp_state).

Definition rsp_step_start (b : mbuf) (p ch : Z) (s : rsp_state) (r : regs) : oc :=
  let r := set_type r MSG_UNKNOWN in
  if ch =? 43 (* + *) then Break (p - 1) SW_STATUS (set_type r MSG_RSP_REDIS_STATUS)
  else if ch =? 45 (* - *) then Break (p - 1) SW_ERROR (set_type r MSG_RSP_REDIS_ERROR)
  else if ch =? 58 (* : *) then Break (p - 1) SW_INTEGER (set_type r MSG_RSP_REDIS_INTEGER)
  else if ch =? 36 (* $ *) then Break (p - 1) SW_BULK (set_type r MSG_RSP_REDIS_BULK)
  else if ch =? 42 (* * *) then Break (p - 1) SW_MULTIBULK (set_type r MSG_RSP_REDIS_MULTIBULK)
  else Error s r.

Definition rsp_step_status (b : mbuf) (p ch : Z) (s : rsp_state) (r : regs) : oc :=
  Break p SW_RUNTO_CRLF r.

(** [switch (p - m)] on the error word, the dash included. *)
Definition rsp_errors (len : Z) : list (list Z * msg_type) :=
  match len with
  | 4 => [(bytes_of "-ERR", MSG_RSP_REDIS_ERROR_ERR); (bytes_of "-OOM", MSG_RSP_REDIS_ERROR_OOM)]
  | 5 => [(bytes_of "-BUSY", MSG_RSP_REDIS_ERROR_BUSY)]
  | 7 => [(bytes_of "-NOAUTH", MSG_RSP_REDIS_ERROR_NOAUTH)]
  | 8 => [(bytes_of "-LOADING", MSG_RSP_REDIS_ERROR_LOADING);
          (bytes_of "-BUSYKEY", MSG_RSP_REDIS_ERROR_BUSYKEY);
          (bytes_of "-MISCONF", MSG_RSP_REDIS_ERROR_MISCONF)]
  | 9 => [(bytes_of "-NOSCRIPT", MSG_RSP_REDIS_ERROR_NOSCRIPT);
          (bytes_of "-READONLY", MSG_RSP_REDIS_ERROR_READONLY)]
  | 10 => [(bytes_of "-WRONGTYPE", MSG_RSP_REDIS_ERROR_WRONGTYPE);
           (bytes_of "-EXECABORT", MSG_RSP_REDIS_ERROR_EXECABORT)]
  | 11 => [(bytes_of "-MASTERDOWN", MSG_RSP_REDIS_ERROR_MASTERDOWN);
           (bytes_of "-NOREPLICAS", MSG_RSP_REDIS_ERROR_NOREPLICAS)]
  | _ => []
  end.

Definition rsp_step_error (b : mbuf) (p ch : Z) (s : rsp_state) (r : regs) : oc :=
  match token r with
  | None => if negb (ch =? 45) then Error s r else Break p s (set_token r (Some p))
  | Some m =>
      if (ch =? SP) || (ch =? CR) then
        let r := set_token r None in
        match first_cmp b m (rsp_errors (p - m)) with
        | None => Fault
        | Some None => Break p SW_RUNTO_CRLF r
        | Some (Some t) => Break p SW_RUNTO_CRLF (set_type r t)
        end
      else Break p s r
  end.

Definition rsp_step_integer (b : mbuf) (p ch : Z) (s : rsp_state) (r : regs) : oc :=
  Break p SW_INTEGER_START (set_integer r 0).

Definition rsp_step_simple (b : mbuf) (p ch : Z) (s : rsp_state) (r : regs) : oc :=
  if ch =? CR then Break p SW_MULTIBULK_ARGN_LF (set_rnarg r (u32 (rnarg r - 1)))
  else Break p s r.

Definition rsp_step_integer_start (b : mbuf) (p ch : Z) (s : rsp_state) (r : regs) : oc :=
  if ch =? CR then Break p SW_ALMOST_DONE r
  else if ch =? 45 then Break p s r
  else if isdigit ch then Break p s (set_integer r (dec_acc (integer r) ch))
  else Error s r.

Definition rsp_step_runto_crlf (b : mbuf) (p ch : Z) (s : rsp_state) (r : regs) : oc :=
  if ch =? CR then Break p SW_ALMOST_DONE r else Break p s r.

Definition rsp_step_almost_done (b : mbuf) (p ch : Z) (s : rsp_state) (r : regs) : oc :=
  if ch =? LF then Done p r else Error s r.

Definition rsp_step_bulk (b : mbuf) (p ch : Z) (s : rsp_state) (r : regs) : oc :=
  match token r with
  | None =>
      if negb (ch =? 36) then Error s r
      else Break p s (set_rlen (set_token r (Some p)) 0)
  | Some tok =>
      if ch =? 45 then Break p SW_RUNTO_CRLF r
      else if isdigit ch then Break p s (set_rlen r (dec_acc (rlen r) ch))
      else if ch =? CR then
        if p - tok <=? 1 then Error s r else Break p SW_BULK_LF (set_token r None)
      else Error s r
  end.

Definition rsp_step_bulk_lf (b : mbuf) (p ch : Z) (s : rsp_state) (r : regs) : oc :=
  if ch =? LF then Break p SW_BULK_ARG r else Error s r.

(** SW_BULK_ARG and SW_MULTIBULK_ARGN skip [rlen] bytes. *)
Definition rsp_skip_to (next : rsp_state) (b : mbuf) (p : Z) (s : rsp_state) (r : regs) : oc :=
  let m := p + rlen r in
  if mb_last b <=? m then Break (mb_last b - 1) s (set_rlen r (u32 (rlen r - u32 (mb_last b - p))))
  else
    match deref b m with
    | None => Fault
    | Some c => if negb (c =? CR) then Error s r else Break m next (set_rlen r 0)
    end.

Definition rsp_step_bulk_arg (b : mbuf) (p ch : Z) (s : rsp_state) (r : regs) : oc :=
  rsp_skip_to SW_BULK_ARG_LF b p s r.

Definition rsp_step_bulk_arg_lf (b : mbuf) (p ch : Z) (s : rsp_state) (r : regs) : oc :=
  if ch =? LF then Done p r else Error s r.

Definition rsp_step_multibulk (b : mbuf) (p ch : Z) (s : rsp_state) (r : regs) : oc :=
  match token r with
  | None =>
      if negb (ch =? 42) then Error s r
      else Break p s (set_rnarg (set_narg_start (set_token r (Some p)) (Some (mk_ptr (mb_id b) p))) 0)
  | Some tok =>
      if ch =? 45 then Break p SW_RUNTO_CRLF r
      else if isdigit ch then Break p s (set_rnarg r (dec_acc (rnarg r) ch))
      else if ch =? CR then
        if p - tok <=? 1 then Error s r
        else Break p SW_MULTIBULK_NARG_LF
               (set_token (set_narg_end (set_narg r (rnarg r)) (Some (mk_ptr (mb_id b) p))) None)
      else Error s r
  end.

Definition rsp_step_multibulk_narg_lf (b : mbuf) (p ch : Z) (s : rsp_state) (r : regs) : oc :=
  if ch =? LF then
    if rnarg r =? 0 then Done p r else Break p SW_MULTIBULK_ARGN_LEN r
  else Error s r.

Definition rsp_step_multibulk_argn_len (b : mbuf) (p ch : Z) (s : rsp_state) (r : regs) : oc :=
  match token r with
  | None =>
      if ch =? 42 then Break (p - 1) SW_MULTIBULK r
      else if (ch =? 58) || (ch =? 43) || (ch =? 45) then Break p SW_SIMPLE r
      else if negb (ch =? 36) then Error s r
      else Break p s (set_rlen (set_token r (Some p)) 0)
  | Some tok =>
      if isdigit ch then Break p s (set_rlen r (dec_acc (rlen r) ch))
      else if ch =? 45 then Break p s r
      else if ch =? CR then
        if (p - tok <=? 1) || (rnarg r =? 0) then Error s r
        else if (rlen r =? 1) && (p - tok =? 3) then
          Break p SW_MULTIBULK_ARGN_LF
            (set_token (set_rnarg (set_rlen r 0) (u32 (rnarg r - 1))) None)
        else Break p SW_MULTIBULK_ARGN_LEN_LF (set_token (set_rnarg r (u32 (rnarg r - 1))) None)
      else Error s r
  end.

Definition rsp_step_multibulk_argn_len_lf (b : mbuf) (p ch : Z) (s : rsp_state) (r : regs) : oc :=
  if ch =? LF then Break p SW_MULTIBULK_ARGN r else Error s r.

Definition rsp_step_multibulk_argn (b : mbuf) (p ch : Z) (s : rsp_state) (r : regs) : oc :=
  rsp_skip_to SW_MULTIBULK_ARGN_LF b p s r.

Definition rsp_step_multibulk_argn_lf (b : mbuf) (p ch : Z) (s : rsp_state) (r : regs) : oc :=
  if ch =? LF then
    if rnarg r =? 0 then Done p r else Break p SW_MULTIBULK_ARGN_LEN r
  else Error s r.

(** [switch (state)] *)
Definition rsp_step (b : mbuf) (p ch : Z) (s : rsp_state) (r : regs) : oc :=
  match s with
  | SW_START => rsp_step_start b p ch s r
  | SW_STATUS => rsp_step_status b p ch s r
  | SW_ERROR => rsp_step_error b p ch s r
  | SW_INTEGER => rsp_step_integer b p ch s r
  | SW_SIMPLE => rsp_step_simple b p ch s r
  | SW_INTEGER_START => rsp_step_integer_start b p ch s r
  | SW_RUNTO_CRLF => rsp_step_runto_crlf b p ch s r
  | SW_ALMOST_DONE => rsp_step_almost_done b p ch s r
  | SW_BULK => rsp_step_bulk b p ch s r
  | SW_BULK_LF => rsp_step_bulk_lf b p ch s r
  | SW_BULK_ARG => rsp_step_bulk_arg b p ch s r
  | SW_BULK_ARG_LF => rsp_step_bulk_arg_lf b p ch s r
  | SW_MULTIBULK => rsp_step_multibulk b p ch s r
  | SW_MULTIBULK_NARG_LF => rsp_step_multibulk_narg_lf b p ch s r
  | SW_MULTIBULK_ARGN_LEN => rsp_step_multibulk_argn_len b p ch s r
  | SW_MULTIBULK_ARGN_LEN_LF => rsp_step_multibulk_argn_len_lf b p ch s r
  | SW_MULTIBULK_ARGN => rsp_step_multibulk_argn b p ch s r
  | SW_MULTIBULK_ARGN_LF => rsp_step_multibulk_argn_lf b p ch s r
  end.

(** What follows the loop: done clears the token. *)
Definition rsp_finish : mbuf -> Z -> run rsp_state -> option (pmsg rsp_state) :=
  parse_finish SW_START (fun r => set_token r None) (fun s => s).

(** Every byte is looked at no more than twice. *)
Definition rsp_fuel (b : mbuf) (p : Z) : nat := 2 + 2 * Z.to_nat (mb_last b - p).

Definition redis_parse_rsp (b : mbuf) (x : pmsg rsp_state) : option (pmsg rsp_state) :=
  rsp_finish b (pm_pos x)
    (parse_loop rsp_step (rsp_fuel b (pm_pos x)) b (pm_pos x) (pm_state x) (pm_regs x)).

(** The message [msg_get] returns for a response. *)
Definition rsp_init (pos : Z) : pmsg rsp_state := mk_pmsg SW_START pos MSG_PARSE_OK regs_init.

End Rsp.
