(* ===== verification/RedisRspSafe.v ===== *)
(** Memory safety, termination and resumption of the redis response parser. *)

From S2P Require Import Prelude CArray Mbuf Message Parser StrCmp RedisRsp.
Import Rsp.

(** ** The switch on the error word *)

Lemma rsp_errors_ok len : lits_ok len (rsp_errors len) = true.
Proof.
  unfold rsp_errors. destruct len as [|len|]; [done| |done].
  do 4 (try (destruct len as [len|len|])); vm_compute; reflexivity.
Qed.

(** ** The loop invariant *)

Record rsp_inv (b : mbuf) (p : Z) (s : rsp_state) (r : regs) : Prop := {
  rinv_p : mb_pos b <= p <= mb_last b;
  rinv_token : forall t, token r = Some t -> mb_pos b <= t <= p;
  rinv_rlen : is_u32 (rlen r);
  rinv_rnarg : is_u32 (rnarg r)
}.

(** The states that may step back. *)
Definition rsp_weight (s : rsp_state) : nat :=
  match s with SW_START | SW_MULTIBULK_ARGN_LEN => 1 | _ => 0 end.

Definition rsp_meas (b : mbuf) (p : Z) (s : rsp_state) (r : regs) : nat :=
  2 * Z.to_nat (mb_last b - p) + rsp_weight s.

Definition rsp_post (b : mbuf) (p : Z) (r : regs) : Prop := mb_pos b <= p < mb_last b.

Lemma rsp_weight_le s : (rsp_weight s <= 1)%nat.
Proof. destruct s; simpl; lia. Qed.

Ltac rleaf :=
  simpl; first
    [ done | split; lia
    | split; [split; simpl in *; intros; simplify_eq; simpl in *;
        first [ done | lia | by auto with cint | apply u32_range | unfold is_u32; lia ]
      | unfold rsp_meas; simpl; lia ] ].

Section Safety.
Variable b : mbuf.
Hypothesis Hwf : mbuf_wf b.
Hypothesis Hbytes : mbytes_ok b.

Abbreviation okstep p s r o := (outcome_ok (rsp_inv b) (rsp_post b) (rsp_meas b) (rsp_meas b p s r) o).

Lemma rsp_skip_ok next p s r :
  rsp_inv b p s r -> p < mb_last b -> okstep p s r (rsp_skip_to next b p s r).
Proof.
  intros [Hp Ht Hl Hn] Hlt. pose proof Hwf as [? ? ? ? ?]. pose proof (rsp_weight_le s).
  pose proof (rsp_weight_le next). unfold rsp_skip_to, is_u32 in *.
  assert (Ht' : forall q t, p <= q -> token r = Some t -> mb_pos b <= t <= q)
    by (intros q t Hq Et; specialize (Ht t Et); lia).
  destruct (Z.leb_spec (mb_last b) (p + rlen r)).
  - split; [split; simpl; [lia|intros; apply Ht'; [lia|done]|apply u32_range|done]|unfold rsp_meas; lia].
  - destruct (deref_in b (p + rlen r) Hwf) as [c ->]; [lia|]. destruct (negb _); [done|].
    split; [split; simpl; [lia|intros; apply Ht'; [lia|done]|done|done]|unfold rsp_meas; lia].
Qed.

Lemma rsp_error_read p m :
  mb_pos b <= m <= p -> p < mb_last b ->
  first_cmp b m (rsp_errors (p - m)) = Some (first_ref b m (rsp_errors (p - m))).
Proof.
  intros Hm Hp. pose proof Hwf as [? ? ? Hmem ?]. apply (first_cmp_ref _ _ (p - m)); [done|apply rsp_errors_ok|].
  intros i Hi. apply rd_is_Some. unfold MBUF_HSIZE in *. lia.
Qed.

(** Every iteration stays inside the chunk and makes progress. *)
Lemma rsp_step_ok p ch s r :
  rsp_inv b p s r -> p < mb_last b -> deref b p = Some ch -> okstep p s r (rsp_step b p ch s r).
Proof.
  intros HI Hlt _. destruct s; simpl; try (by apply rsp_skip_ok).
  all: pose proof HI as [Hp Ht Hl Hn].
  all: unfold rsp_step_start, rsp_step_status, rsp_step_error, rsp_step_integer, rsp_step_simple,
    rsp_step_integer_start, rsp_step_runto_crlf, rsp_step_almost_done, rsp_step_bulk, rsp_step_bulk_lf,
    rsp_step_bulk_arg_lf, rsp_step_multibulk, rsp_step_multibulk_narg_lf, rsp_step_multibulk_argn_len,
    rsp_step_multibulk_argn_len_lf, rsp_step_multibulk_argn_lf.
  all: destruct (token r) as [t|] eqn:Et; [specialize (Ht t eq_refl)|].
  all: try rewrite rsp_error_read by lia.
  all: repeat case_match; rleaf.
Qed.

End Safety.

Section Resume.
Variables b1 b2 : mbuf.
Hypotheses (Hwf1 : mbuf_wf b1) (Hwf2 : mbuf_wf b2).
Hypotheses (Hb1 : mbytes_ok b1) (Hb2 : mbytes_ok b2) (Hext : extends b1 b2).

Abbreviation splits := (step_splits rsp_step (fun _ => eq) eq b1 b2).

Lemma rsp_skip_splits next p s r ch :
  rsp_inv b1 p s r -> p < mb_last b1 ->
  (forall b q c t, rsp_step b q c s t = rsp_skip_to next b q s t) -> splits p ch s r.
Proof.
  intros [Hp _ Hl _] Hlt Hstep. unfold step_splits. rewrite !Hstep.
  pose proof (ext_last _ _ Hext). pose proof Hwf1 as [? ? ? ? ?]. pose proof Hwf2 as [? ? ? ? ?].
  unfold rsp_skip_to. destruct (Z.leb_spec (mb_last b1) (p + rlen r)) as [Hm|Hm].
  - destruct (decide (mb_last b1 = mb_last b2)) as [E|E].
    { left. destruct (Z.leb_spec (mb_last b2) (p + rlen r)); [|lia]. by rewrite E. }
    right. split; [lia|]. eexists; split; [done|]. intros ch'. rewrite Hstep. unfold rsp_skip_to; simpl.
    destruct (rlen_rest (rlen r) p (mb_last b1) (mb_last b2)) as [-> ->]; try done; try lia.
    destruct (mb_last b2 <=? p + rlen r); [by apply outcome_sim_refl|].
    destruct (deref b2 (p + rlen r)) as [c|]; [|done].
    destruct (negb (c =? CR)); [done|by apply outcome_sim_refl].
  - left. destruct (Z.leb_spec (mb_last b2) (p + rlen r)); [lia|].
    by rewrite (ext_mem _ _ Hext) by lia.
Qed.

Lemma rsp_step_splits p ch s r :
  rsp_inv b1 p s r -> p < mb_last b1 -> splits p ch s r.
Proof.
  intros HI Hlt. pose proof (ext_id _ _ Hext) as Hid. pose proof (ext_last _ _ Hext).
  destruct s; try (eapply rsp_skip_splits; [done|done|by intros]).
  all: left; simpl; unfold rsp_step_multibulk; rewrite ?Hid; try done.
  destruct HI as [Hp Ht _ _]. unfold rsp_step_error. destruct (token r) as [m|] eqn:Et; [|done].
  specialize (Ht m eq_refl). destruct (_ || _); [|done].
  assert (mb_pos b2 <= mb_last b2) by (by destruct Hwf2 as [[? ?] _ _ _ _]).
  rewrite (rsp_error_read b1), (first_cmp_ref b2 _ (p - m)) by (done || lia || apply rsp_errors_ok ||
    (intros; apply rd_is_Some; destruct Hwf1, Hwf2; unfold MBUF_HSIZE in *; lia)).
  rewrite (first_ref_ext b1 b2 m (p - m)); [done|apply rsp_errors_ok|].
  intros. apply (ext_mem _ _ Hext). lia.
Qed.

End Resume.

Lemma rsp_inv_extends b1 b2 p s r :
  extends b1 b2 -> mb_pos b1 = mb_pos b2 -> rsp_inv b1 p s r -> rsp_inv b2 p s r.
Proof. intros [Hid He Hl Hm] Hp [H1 H2 H3 H4]. constructor; try done; rewrite <- ?Hp; [lia|done]. Qed.

Lemma rsp_step_done b p ch s r p' r' : rsp_step b p ch s r = Done p' r' -> p' = p.
Proof.
  intros H. destruct s; simpl in H.
  all: unfold rsp_step_start, rsp_step_status, rsp_step_error, rsp_step_integer, rsp_step_simple,
    rsp_step_integer_start, rsp_step_runto_crlf, rsp_step_almost_done, rsp_step_bulk, rsp_step_bulk_lf,
    rsp_step_bulk_arg, rsp_step_multibulk_argn,
    rsp_step_bulk_arg_lf, rsp_step_multibulk, rsp_step_multibulk_narg_lf, rsp_step_multibulk_argn_len,
    rsp_step_multibulk_argn_len_lf, rsp_step_multibulk_argn_lf, rsp_skip_to in H.
  all: repeat case_match; by simplify_eq.
Qed.

(** redis_parse_rsp is a protocol parser. *)
#[export] Instance redis_rsp_proto : ProtoParser rsp_step.
Proof.
  refine {| pgood := fun b => mbuf_wf b /\ mbytes_ok b; pinv := rsp_inv; ppost := fun _ _ => True;
            pmeas := rsp_meas; peq := fun _ => eq; deq := eq |}; try done.
  - by intros ? ? ->.
  - by intros b [? _].
  - by intros b p s r [? _ _ _].
  - by intros b p s r t [_ Ht _ _] ?%Ht.
  - exact rsp_inv_extends.
  - intros b p ch s r [Hwf Hb] HI Hlt Hc. pose proof (rsp_step_ok b Hwf Hb _ _ _ _ HI Hlt Hc) as H.
    pose proof (rsp_step_done b p ch s r) as Hd.
    destruct (rsp_step b p ch s r) as [q t x|q x| | |]; simpl in *; try done.
    + destruct H as [H Hm]. split_and!; [|done|done].
      pose proof (rsp_weight_le s). unfold rsp_meas in Hm. lia.
    + split; [by eapply Hd|done].
  - intros b1 b2 p ch s r [? ?] [? ?] Hext HI Hlt _. by apply rsp_step_splits.
  - intros b p ch s r ? ->. by apply outcome_sim_refl.
Defined.

Lemma rsp_fuel_ok b p (s : rsp_state) (r : regs) : (rsp_meas b p s r < rsp_fuel b p)%nat.
Proof. unfold rsp_meas, rsp_fuel. pose proof (rsp_weight_le s). lia. Qed.

Abbreviation rsp_msg_ok := (pmsg_ok rsp_step).
Abbreviation rsp_result_ok := (presult_ok rsp_step SW_START (fun r => set_token r None)).

(** A message just taken from [msg_get]. *)
Lemma rsp_init_ok b : mbuf_wf b -> rsp_msg_ok b (rsp_init (mb_pos b)).
Proof. intros [? ? ? ? ?]. constructor; simpl; try done; lia. Qed.

(** An error reply, whole and cut inside the error word. *)
Definition sample_err : list Z := bytes_of "-LOAD".
Definition sample_err_rest : list Z := bytes_of "ING dataset" ++ [CR; LF].

(** C24. redis_parse_rsp returns on every well-formed mbuf whatever the server
    sent: no read leaves the chunk (the word loads of the strNcmp macros
    included), although the parser steps back the loop ends within two
    iterations per byte, and the result is the one it reports: on MSG_PARSE_OK
    the position has advanced, on MSG_PARSE_AGAIN everything was consumed and
    parsing can go on, on MSG_PARSE_REPAIR the mbuf is full. *)
Theorem redis_parse_rsp_safe (b : mbuf) (x : pmsg rsp_state) :
  mbuf_wf b -> mbytes_ok b -> rsp_msg_ok b x ->
  exists x', redis_parse_rsp b x = Some x' /\ rsp_result_ok b x x'.
Proof. intros. apply proto_parse_safe; [intros; apply rsp_fuel_ok|done|done]. Qed.

Lemma redis_parse_rsp_safe_witness :
  exists x', redis_parse_rsp (buf_of 1 464 sample_err) (rsp_init 0) = Some x' /\
    rsp_result_ok (buf_of 1 464 sample_err) (rsp_init 0) x'.
Proof.
  apply (redis_parse_rsp_safe (buf_of 1 464 sample_err) (rsp_init 0)).
  - apply mbuf_wfb_wf. vm_compute. reflexivity.
  - apply forallb_u8. vm_compute. reflexivity.
  - apply (rsp_init_ok (buf_of 1 464 sample_err)). apply mbuf_wfb_wf. vm_compute. reflexivity.
Defined.

(** C25. Incremental parsing of redis responses: resuming after
    MSG_PARSE_AGAIN on the grown buffer ends as one parse of the grown buffer
    would have. *)
Theorem redis_parse_rsp_resume (b1 b2 : mbuf) (x x1 : pmsg rsp_state) :
  mbuf_wf b1 -> mbytes_ok b1 -> mbuf_wf b2 -> mbytes_ok b2 ->
  extends b1 b2 -> mb_pos b1 = mb_pos b2 -> rsp_msg_ok b1 x ->
  redis_parse_rsp b1 x = Some x1 -> pm_result x1 = MSG_PARSE_AGAIN ->
  exists y z, redis_parse_rsp b2 x = Some y /\ redis_parse_rsp b2 x1 = Some z /\
    pmsg_sim rsp_step y z.
Proof.
  intros. apply (proto_parse_resume rsp_step _ _ _ rsp_fuel) with (b1 := b1); try done.
  - intros. apply rsp_fuel_ok.
  - by intros ? ? ->.
Qed.

Lemma redis_parse_rsp_resume_witness :
  exists y z,
    redis_parse_rsp (buf_of 1 464 (sample_err ++ sample_err_rest)) (rsp_init 0) = Some y /\
    redis_parse_rsp (buf_of 1 464 (sample_err ++ sample_err_rest))
      (default (rsp_init 0) (redis_parse_rsp (buf_of 1 464 sample_err) (rsp_init 0))) = Some z /\
    pmsg_sim rsp_step y z.
Proof.
  apply (redis_parse_rsp_resume (buf_of 1 464 sample_err)).
  - apply mbuf_wfb_wf. vm_compute. reflexivity.
  - apply forallb_u8. vm_compute. reflexivity.
  - apply mbuf_wfb_wf. vm_compute. reflexivity.
  - apply forallb_u8. vm_compute. reflexivity.
  - apply extends_recv.
  - reflexivity.
  - apply (rsp_init_ok (buf_of 1 464 sample_err)). apply mbuf_wfb_wf. vm_compute. reflexivity.
  - vm_compute. reflexivity.
  - vm_compute. reflexivity.
Defined.
