(* ===== verification/Memcache.v ===== *)
(** The memcache parsers of proto/nc_memcache.c: the command predicates,
    memcache_parse_req and memcache_parse_rsp, one definition per state.

    [r->token] is NULL ([None]) in two states that read it without setting it,
    after a repair: there [p - m] is an address, larger than every length the
    code compares it with. *)

From S2P Require Import Prelude CArray Mbuf Message Parser.

Definition MEMCACHE_MAX_KEY_LENGTH : Z := 250.

Definition memcache_storage (t : msg_type) : bool :=
  match t with
  | MSG_REQ_MC_SET | MSG_REQ_MC_CAS | MSG_REQ_MC_ADD | MSG_REQ_MC_REPLACE
  | MSG_REQ_MC_APPEND | MSG_REQ_MC_PREPEND => true
  | _ => false
  end.

Definition memcache_cas (t : msg_type) : bool :=
  match t with MSG_REQ_MC_CAS => true | _ => false end.

Definition memcache_retrieval (t : msg_type) : bool :=
  match t with MSG_REQ_MC_GET | MSG_REQ_MC_GETS => true | _ => false end.

Definition memcache_arithmetic (t : msg_type) : bool :=
  match t with MSG_REQ_MC_INCR | MSG_REQ_MC_DECR => true | _ => false end.

Definition memcache_delete (t : msg_type) : bool :=
  match t with MSG_REQ_MC_DELETE => true | _ => false end.

Definition memcache_touch (t : msg_type) : bool :=
  match t with MSG_REQ_MC_TOUCH => true | _ => false end.

Definition memcache_failure (t : msg_type) : bool := false.

Module McReq.

Inductive mcreq_state :=
| SW_START | SW_REQ_TYPE | SW_SPACES_BEFORE_KEY | SW_KEY | SW_SPACES_BEFORE_KEYS
| SW_SPACES_BEFORE_FLAGS | SW_FLAGS | SW_SPACES_BEFORE_EXPIRY | SW_EXPIRY
| SW_SPACES_BEFORE_VLEN | SW_VLEN | SW_SPACES_BEFORE_CAS | SW_CAS | SW_RUNTO_VAL | SW_VAL
| SW_SPACES_BEFORE_NUM | SW_NUM | SW_RUNTO_CRLF | SW_CRLF | SW_NOREPLY | SW_AFTER_NOREPLY
| SW_ALMOST_DONE.

Abbreviation oc := (outcome mcreq_state).

Section Req.
Variable ok : Z -> bool.        (* the allocator behind array_push *)

Definition mcreq_start (b : mbuf) (p ch : Z) (s : mcreq_state) (r : regs) : oc :=
  if ch =? SP then Break p s r
  else if negb (islower ch) then Error s r
  else Break p SW_REQ_TYPE (set_token r (Some p)).

(** [switch (p - m)] on the command word; a three letter word is compared
    with the blank after it. *)
Definition mcreq_types (len : Z) : list (list Z * msg_type) :=
  match len with
  | 3 => [(bytes_of "get ", MSG_REQ_MC_GET); (bytes_of "set ", MSG_REQ_MC_SET);
          (bytes_of "add ", MSG_REQ_MC_ADD); (bytes_of "cas ", MSG_REQ_MC_CAS)]
  | 4 => [(bytes_of "gets", MSG_REQ_MC_GETS); (bytes_of "incr", MSG_REQ_MC_INCR);
          (bytes_of "decr", MSG_REQ_MC_DECR); (bytes_of "quit", MSG_REQ_MC_QUIT)]
  | 5 => [(bytes_of "touch", MSG_REQ_MC_TOUCH)]
  | 6 => [(bytes_of "append", MSG_REQ_MC_APPEND); (bytes_of "delete", MSG_REQ_MC_DELETE)]
  | 7 => [(bytes_of "prepend", MSG_REQ_MC_PREPEND); (bytes_of "replace", MSG_REQ_MC_REPLACE)]
  | _ => []
  end.

Definition mcreq_type (b : mbuf) (p ch : Z) (s : mcreq_state) (r : regs) : oc :=
  if (ch =? SP) || (ch =? CR) then
    let tok := token r in
    let r := set_narg (set_type (set_token r None) MSG_UNKNOWN) (u32 (narg r + 1)) in
    match match tok with Some m => first_cmp b m (mcreq_types (p - m)) | None => Some None end with
    | None => Fault
    | Some None => Error s r
    | Some (Some MSG_REQ_MC_QUIT) => Break (p - 1) SW_CRLF (set_quit (set_type r MSG_REQ_MC_QUIT) true)
    | Some (Some t) =>
        let r := set_type r t in
        if ch =? CR then Error s r else Break p SW_SPACES_BEFORE_KEY r
    end
  else if negb (islower ch) then Error s r
  else Break p s r.

Definition mcreq_spaces_before_key (b : mbuf) (p ch : Z) (s : mcreq_state) (r : regs) : oc :=
  if negb (ch =? SP) then Break (p - 1) SW_KEY (set_token r None) else Break p s r.

Definition mcreq_key (b : mbuf) (p ch : Z) (s : mcreq_state) (r : regs) : oc :=
  let tok := default p (token r) in
  let r := set_token r (Some tok) in
  if (ch =? SP) || (ch =? CR) then
    let keylen := s32 (p - tok) in
    if MEMCACHE_MAX_KEY_LENGTH <? keylen then Error s r
    else if keylen =? 0 then Error s r
    else
      match push_key ok r b tok p with
      | None => Enomem s r
      | Some r =>
          let r := set_token (set_narg r (u32 (narg r + 1))) None in
          let t := type r in
          let s' :=
            if memcache_storage t then SW_SPACES_BEFORE_FLAGS
            else if memcache_arithmetic t || memcache_touch t then SW_SPACES_BEFORE_NUM
            else if memcache_delete t then SW_RUNTO_CRLF
            else if memcache_retrieval t then SW_SPACES_BEFORE_KEYS
            else SW_RUNTO_CRLF in
          if ch =? CR then
            if memcache_storage t || memcache_arithmetic t then Error s' r
            else Break (p - 1) s' r
          else Break p s' r
      end
  else Break p s r.

Definition mcreq_spaces_before_keys (b : mbuf) (p ch : Z) (s : mcreq_state) (r : regs) : oc :=
  if ch =? SP then Break p s r
  else if ch =? CR then Break p SW_ALMOST_DONE r
  else Break (p - 1) SW_KEY (set_token r None).

Definition mcreq_spaces_before_flags (b : mbuf) (p ch : Z) (s : mcreq_state) (r : regs) : oc :=
  if negb (ch =? SP) then
    if negb (isdigit ch) then Error s r else Break p SW_FLAGS (set_token r (Some p))
  else Break p s r.

Definition mcreq_flags (b : mbuf) (p ch : Z) (s : mcreq_state) (r : regs) : oc :=
  if isdigit ch then Break p s r
  else if ch =? SP then Break p SW_SPACES_BEFORE_EXPIRY (set_token r None)
  else Error s r.

Definition mcreq_spaces_before_expiry (b : mbuf) (p ch : Z) (s : mcreq_state) (r : regs) : oc :=
  if negb (ch =? SP) then
    if negb (isdigit ch) then Error s r else Break p SW_EXPIRY (set_token r (Some p))
  else Break p s r.

Definition mcreq_expiry (b : mbuf) (p ch : Z) (s : mcreq_state) (r : regs) : oc :=
  if isdigit ch then Break p s r
  else if ch =? SP then Break p SW_SPACES_BEFORE_VLEN (set_token r None)
  else Error s r.

Definition mcreq_spaces_before_vlen (b : mbuf) (p ch : Z) (s : mcreq_state) (r : regs) : oc :=
  if negb (ch =? SP) then
    if negb (isdigit ch) then Error s r else Break p SW_VLEN (set_vlen r (u32 (ch - 48)))
  else Break p s r.

Definition mcreq_vlen (b : mbuf) (p ch : Z) (s : mcreq_state) (r : regs) : oc :=
  if isdigit ch then Break p s (set_vlen r (dec_acc (vlen r) ch))
  else if memcache_cas (type r) then
    if negb (ch =? SP) then Error s r
    else Break (p - 1) SW_SPACES_BEFORE_CAS (set_token r None)
  else if (ch =? SP) || (ch =? CR) then Break (p - 1) SW_RUNTO_CRLF (set_token r None)
  else Error s r.

Definition mcreq_spaces_before_cas (b : mbuf) (p ch : Z) (s : mcreq_state) (r : regs) : oc :=
  if negb (ch =? SP) then
    if negb (isdigit ch) then Error s r else Break p SW_CAS (set_token r (Some p))
  else Break p s r.

Definition mcreq_cas (b : mbuf) (p ch : Z) (s : mcreq_state) (r : regs) : oc :=
  if isdigit ch then Break p s r
  else if (ch =? SP) || (ch =? CR) then Break (p - 1) SW_RUNTO_CRLF (set_token r None)
  else Error s r.

Definition mcreq_runto_val (b : mbuf) (p ch : Z) (s : mcreq_state) (r : regs) : oc :=
  if ch =? LF then Break p SW_VAL r else Error s r.

Definition mcreq_val (b : mbuf) (p ch : Z) (s : mcreq_state) (r : regs) : oc :=
  let m := p + vlen r in
  if mb_last b <=? m then Break (mb_last b - 1) s (set_vlen r (u32 (vlen r - u32 (mb_last b - p))))
  else
    match deref b m with
    | None => Fault
    | Some c => if c =? CR then Break m SW_ALMOST_DONE r else Error s r
    end.

Definition mcreq_spaces_before_num (b : mbuf) (p ch : Z) (s : mcreq_state) (r : regs) : oc :=
  if negb (ch =? SP) then
    if negb (isdigit ch || (ch =? 45)) then Error s r else Break p SW_NUM (set_token r (Some p))
  else Break p s r.

Definition mcreq_num (b : mbuf) (p ch : Z) (s : mcreq_state) (r : regs) : oc :=
  if isdigit ch then Break p s r
  else if (ch =? SP) || (ch =? CR) then Break (p - 1) SW_RUNTO_CRLF (set_token r None)
  else Error s r.

(** The commands that take [noreply]. *)
Definition takes_noreply (t : msg_type) : bool :=
  memcache_storage t || memcache_arithmetic t || memcache_delete t || memcache_touch t.

Definition mcreq_runto_crlf (b : mbuf) (p ch : Z) (s : mcreq_state) (r : regs) : oc :=
  if ch =? SP then Break p s r
  else if ch =? 110 (* n *) then
    if takes_noreply (type r) then Break p SW_NOREPLY (set_token r (Some p)) else Error s r
  else if ch =? CR then
    Break p (if memcache_storage (type r) then SW_RUNTO_VAL else SW_ALMOST_DONE) r
  else Error s r.

Definition mcreq_noreply (b : mbuf) (p ch : Z) (s : mcreq_state) (r : regs) : oc :=
  if (ch =? SP) || (ch =? CR) then
    match token r with
    | None => Error s r
    | Some m =>
        match and_then (Some (p - m =? 7)) (strcmp b m (bytes_of "noreply")) with
        | None => Fault
        | Some false => Error s r
        | Some true => Break (p - 1) SW_AFTER_NOREPLY (set_noreply (set_token r None) true)
        end
    end
  else Break p s r.

Definition mcreq_after_noreply (b : mbuf) (p ch : Z) (s : mcreq_state) (r : regs) : oc :=
  if ch =? SP then Break p s r
  else if ch =? CR then
    Break p (if memcache_storage (type r) then SW_RUNTO_VAL else SW_ALMOST_DONE) r
  else Error s r.

Definition mcreq_crlf (b : mbuf) (p ch : Z) (s : mcreq_state) (r : regs) : oc :=
  if ch =? SP then Break p s r
  else if ch =? CR then Break p SW_ALMOST_DONE r
  else Error s r.

Definition mcreq_almost_done (b : mbuf) (p ch : Z) (s : mcreq_state) (r : regs) : oc :=
  if ch =? LF then Done p r else Error s r.

(** [switch (state)] *)
Definition mcreq_step (b : mbuf) (p ch : Z) (s : mcreq_state) (r : regs) : oc :=
  match s with
  | SW_START => mcreq_start b p ch s r
  | SW_REQ_TYPE => mcreq_type b p ch s r
  | SW_SPACES_BEFORE_KEY => mcreq_spaces_before_key b p ch s r
  | SW_KEY => mcreq_key b p ch s r
  | SW_SPACES_BEFORE_KEYS => mcreq_spaces_before_keys b p ch s r
  | SW_SPACES_BEFORE_FLAGS => mcreq_spaces_before_flags b p ch s r
  | SW_FLAGS => mcreq_flags b p ch s r
  | SW_SPACES_BEFORE_EXPIRY => mcreq_spaces_before_expiry b p ch s r
  | SW_EXPIRY => mcreq_expiry b p ch s r
  | SW_SPACES_BEFORE_VLEN => mcreq_spaces_before_vlen b p ch s r
  | SW_VLEN => mcreq_vlen b p ch s r
  | SW_SPACES_BEFORE_CAS => mcreq_spaces_before_cas b p ch s r
  | SW_CAS => mcreq_cas b p ch s r
  | SW_RUNTO_VAL => mcreq_runto_val b p ch s r
  | SW_VAL => mcreq_val b p ch s r
  | SW_SPACES_BEFORE_NUM => mcreq_spaces_before_num b p ch s r
  | SW_NUM => mcreq_num b p ch s r
  | SW_RUNTO_CRLF => mcreq_runto_crlf b p ch s r
  | SW_NOREPLY => mcreq_noreply b p ch s r
  | SW_AFTER_NOREPLY => mcreq_after_noreply b p ch s r
  | SW_CRLF => mcreq_crlf b p ch s r
  | SW_ALMOST_DONE => mcreq_almost_done b p ch s r
  end.

(** What follows the loop: done leaves the token as it is. *)
Definition mcreq_finish : mbuf -> Z -> run mcreq_state -> option (pmsg mcreq_state) :=
  parse_finish SW_START (fun r => r) (fun s => s).

(** Every byte is looked at no more than three times. *)
Definition mcreq_fuel (b : mbuf) (p : Z) : nat := 3 + 3 * Z.to_nat (mb_last b - p).

Definition memcache_parse_req (b : mbuf) (x : pmsg mcreq_state) : option (pmsg mcreq_state) :=
  mcreq_finish b (pm_pos x)
    (parse_loop mcreq_step (mcreq_fuel b (pm_pos x)) b (pm_pos x) (pm_state x) (pm_regs x)).

End Req.

Definition mcreq_init (pos : Z) : pmsg mcreq_state := mk_pmsg SW_START pos MSG_PARSE_OK regs_init.

End McReq.

Module McRsp.

Inductive mcrsp_state :=
| SW_START | SW_RSP_NUM | SW_RSP_STR | SW_SPACES_BEFORE_KEY | SW_KEY | SW_SPACES_BEFORE_FLAGS
| SW_FLAGS | SW_SPACES_BEFORE_VLEN | SW_VLEN | SW_RUNTO_VAL | SW_VAL | SW_VAL_LF | SW_END
| SW_RUNTO_CRLF | SW_CRLF | SW_ALMOST_DONE.

Abbreviation oc := (outcome mcrsp_state).

Definition mcrsp_start (b : mbuf) (p ch : Z) (s : mcrsp_state) (r : regs) : oc :=
  Break (p - 1) (if isdigit ch then SW_RSP_NUM else SW_RSP_STR) r.

Definition mcrsp_num (b : mbuf) (p ch : Z) (s : mcrsp_state) (r : regs) : oc :=
  let r := set_token r (Some (default p (token r))) in
  if isdigit ch then Break p s r
  else if (ch =? SP) || (ch =? CR) then
    Break (p - 1) SW_CRLF (set_type (set_token r None) MSG_RSP_MC_NUM)
  else Error s r.

(** [switch (p - m)] on the first word. *)
Definition mcrsp_types (len : Z) : list (list Z * msg_type) :=
  match len with
  | 3 => [(bytes_of "END" ++ [CR], MSG_RSP_MC_END)]
  | 5 => [(bytes_of "VALUE", MSG_RSP_MC_VALUE); (bytes_of "ERROR", MSG_RSP_MC_ERROR)]
  | 6 => [(bytes_of "STORED", MSG_RSP_MC_STORED); (bytes_of "EXISTS", MSG_RSP_MC_EXISTS)]
  | 7 => [(bytes_of "DELETED", MSG_RSP_MC_DELETED); (bytes_of "TOUCHED", MSG_RSP_MC_TOUCHED)]
  | 9 => [(bytes_of "NOT_FOUND", MSG_RSP_MC_NOT_FOUND)]
  | 10 => [(bytes_of "NOT_STORED", MSG_RSP_MC_NOT_STORED)]
  | 12 => [(bytes_of "CLIENT_ERROR", MSG_RSP_MC_CLIENT_ERROR);
           (bytes_of "SERVER_ERROR", MSG_RSP_MC_SERVER_ERROR)]
  | _ => []
  end.

(** [switch (r->type)]: the state after the first word. *)
Definition mcrsp_next (t : msg_type) : mcrsp_state :=
  match t with
  | MSG_RSP_MC_VALUE => SW_SPACES_BEFORE_KEY
  | MSG_RSP_MC_CLIENT_ERROR | MSG_RSP_MC_SERVER_ERROR => SW_RUNTO_CRLF
  | _ => SW_CRLF
  end.

Definition mcrsp_str (b : mbuf) (p ch : Z) (s : mcrsp_state) (r : regs) : oc :=
  let m := default p (token r) in
  let r := set_token r (Some m) in
  if (ch =? SP) || (ch =? CR) then
    let r := set_type r MSG_UNKNOWN in
    match first_cmp b m (mcrsp_types (p - m)) with
    | None => Fault
    | Some None => Error s r
    | Some (Some t) =>
        let r := set_type r t in
        let r := match t with MSG_RSP_MC_END => set_end r (Some (mk_ptr (mb_id b) m)) | _ => r end in
        Break (p - 1) (mcrsp_next t) r
    end
  else Break p s r.

Definition mcrsp_spaces_before_key (b : mbuf) (p ch : Z) (s : mcrsp_state) (r : regs) : oc :=
  if negb (ch =? SP) then Break (p - 1) SW_KEY r else Break p s r.

Definition mcrsp_key (b : mbuf) (p ch : Z) (s : mcrsp_state) (r : regs) : oc :=
  if ch =? SP then Break p SW_SPACES_BEFORE_FLAGS r else Break p s r.

Definition mcrsp_spaces_before_flags (b : mbuf) (p ch : Z) (s : mcrsp_state) (r : regs) : oc :=
  if negb (ch =? SP) then
    if negb (isdigit ch) then Error s r else Break (p - 1) SW_FLAGS r
  else Break p s r.

Definition mcrsp_flags (b : mbuf) (p ch : Z) (s : mcrsp_state) (r : regs) : oc :=
  if isdigit ch then Break p s r
  else if ch =? SP then Break p SW_SPACES_BEFORE_VLEN r
  else Error s r.

Definition mcrsp_spaces_before_vlen (b : mbuf) (p ch : Z) (s : mcrsp_state) (r : regs) : oc :=
  if negb (ch =? SP) then
    if negb (isdigit ch) then Error s r else Break (p - 1) SW_VLEN (set_vlen r 0)
  else Break p s r.

Definition mcrsp_vlen (b : mbuf) (p ch : Z) (s : mcrsp_state) (r : regs) : oc :=
  if isdigit ch then Break p s (set_vlen r (dec_acc (vlen r) ch))
  else if (ch =? SP) || (ch =? CR) then Break (p - 1) SW_RUNTO_CRLF r
  else Error s r.

Definition mcrsp_runto_val (b : mbuf) (p ch : Z) (s : mcrsp_state) (r : regs) : oc :=
  if ch =? LF then Break p SW_VAL (set_token r None) else Error s r.

Definition mcrsp_val (b : mbuf) (p ch : Z) (s : mcrsp_state) (r : regs) : oc :=
  let m := p + vlen r in
  if mb_last b <=? m then Break (mb_last b - 1) s (set_vlen r (u32 (vlen r - u32 (mb_last b - p))))
  else
    match deref b m with
    | None => Fault
    | Some c => if c =? CR then Break m SW_VAL_LF r else Error s r
    end.

Definition mcrsp_val_lf (b : mbuf) (p ch : Z) (s : mcrsp_state) (r : regs) : oc :=
  if ch =? LF then Break p SW_RSP_STR r else Error s r.

Definition mcrsp_end (b : mbuf) (p ch : Z) (s : mcrsp_state) (r : regs) : oc :=
  match token r with
  | None => if negb (ch =? 69 (* E *)) then Error s r else Break p s (set_token r (Some p))
  | Some m =>
      if ch =? CR then
        let r := set_token r None in
        if p - m =? 3 then
          match strcmp b m (bytes_of "END" ++ [CR]) with
          | None => Fault
          | Some true => Break p SW_ALMOST_DONE (set_end r (Some (mk_ptr (mb_id b) m)))
          | Some false => Break p s r
          end
        else Error s r
      else Break p s r
  end.

Definition mcrsp_runto_crlf (b : mbuf) (p ch : Z) (s : mcrsp_state) (r : regs) : oc :=
  if ch =? CR then
    Break p (match type r with MSG_RSP_MC_VALUE => SW_RUNTO_VAL | _ => SW_ALMOST_DONE end) r
  else Break p s r.

Definition mcrsp_crlf (b : mbuf) (p ch : Z) (s : mcrsp_state) (r : regs) : oc :=
  if ch =? SP then Break p s r
  else if ch =? CR then Break p SW_ALMOST_DONE r
  else Error s r.

Definition mcrsp_almost_done (b : mbuf) (p ch : Z) (s : mcrsp_state) (r : regs) : oc :=
  if ch =? LF then Done p r else Error s r.

(** [switch (state)] *)
Definition mcrsp_step (b : mbuf) (p ch : Z) (s : mcrsp_state) (r : regs) : oc :=
  match s with
  | SW_START => mcrsp_start b p ch s r
  | SW_RSP_NUM => mcrsp_num b p ch s r
  | SW_RSP_STR => mcrsp_str b p ch s r
  | SW_SPACES_BEFORE_KEY => mcrsp_spaces_before_key b p ch s r
  | SW_KEY => mcrsp_key b p ch s r
  | SW_SPACES_BEFORE_FLAGS => mcrsp_spaces_before_flags b p ch s r
  | SW_FLAGS => mcrsp_flags b p ch s r
  | SW_SPACES_BEFORE_VLEN => mcrsp_spaces_before_vlen b p ch s r
  | SW_VLEN => mcrsp_vlen b p ch s r
  | SW_RUNTO_VAL => mcrsp_runto_val b p ch s r
  | SW_VAL => mcrsp_val b p ch s r
  | SW_VAL_LF => mcrsp_val_lf b p ch s r
  | SW_END => mcrsp_end b p ch s r
  | SW_RUNTO_CRLF => mcrsp_runto_crlf b p ch s r
  | SW_CRLF => mcrsp_crlf b p ch s r
  | SW_ALMOST_DONE => mcrsp_almost_done b p ch s r
  end.

(** On a repair, [state <= SW_RUNTO_VAL || SW_CRLF || SW_ALMOST_DONE] restarts. *)
Definition mcrsp_repair_state (s : mcrsp_state) : mcrsp_state :=
  match s with
  | SW_VAL | SW_VAL_LF | SW_END | SW_RUNTO_CRLF => s
  | _ => SW_START
  end.

Definition mcrsp_finish : mbuf -> Z -> run mcrsp_state -> option (pmsg mcrsp_state) :=
  parse_finish SW_START (fun r => set_token r None) mcrsp_repair_state.

(** Every byte is looked at no more than four times. *)
Definition mcrsp_fuel (b : mbuf) (p : Z) : nat := 4 + 4 * Z.to_nat (mb_last b - p).

Definition memcache_parse_rsp (b : mbuf) (x : pmsg mcrsp_state) : option (pmsg mcrsp_state) :=
  mcrsp_finish b (pm_pos x)
    (parse_loop mcrsp_step (mcrsp_fuel b (pm_pos x)) b (pm_pos x) (pm_state x) (pm_regs x)).

Definition mcrsp_init (pos : Z) : pmsg mcrsp_state := mk_pmsg SW_START pos MSG_PARSE_OK regs_init.

End McRsp.
