(* ===== verification/MemcacheSafe.v ===== *)
(** Memory safety, termination and resumption of the two memcache parsers. *)

From S2P Require Import Prelude CArray Mbuf Message Parser StrCmp Memcache.

(** A word that ended at [p] is read inside the chunk. *)
Lemma word_read b p m tbl :
  mbuf_wf b -> mbytes_ok b -> mb_pos b <= m <= p -> p < mb_last b -> lits_ok (p - m) tbl = true ->
  first_cmp b m tbl = Some (first_ref b m tbl).
Proof.
  intros [? ? ? Hmem ?] Hb Hm Hp Ht. apply (first_cmp_ref _ _ (p - m)); [done|done|].
  intros i Hi. apply rd_is_Some. unfold MBUF_HSIZE in *. lia.
Qed.

Lemma word_read_ext b1 b2 p m tbl :
  mbuf_wf b1 -> mbuf_wf b2 -> mbytes_ok b1 -> mbytes_ok b2 -> extends b1 b2 ->
  mb_pos b1 <= m <= p -> p < mb_last b1 -> lits_ok (p - m) tbl = true ->
  first_cmp b2 m tbl = first_cmp b1 m tbl.
Proof.
  intros Hwf1 [? ? ? Hmem ?] Hb1 Hb2 Hext Hm Hp Ht. pose proof (ext_last _ _ Hext).
  rewrite (word_read b1 p) by done. rewrite (first_cmp_ref b2 _ (p - m)); [|done|done|].
  - rewrite (first_ref_ext b1 b2 m (p - m)); [done|done|]. intros. apply (ext_mem _ _ Hext). lia.
  - intros i Hi. apply rd_is_Some. destruct Hwf1. unfold MBUF_HSIZE in *. lia.
Qed.

Lemma lit_read b p m lit :
  mbuf_wf b -> mbytes_ok b -> mb_pos b <= m <= p -> p < mb_last b ->
  lits_ok (p - m) [(lit, MSG_UNKNOWN)] = true -> strcmp b m lit = Some (bytecmp b m lit).
Proof.
  intros Hwf Hb Hm Hp Ht. pose proof (word_read b p m _ Hwf Hb Hm Hp Ht) as H. simpl in *.
  b2p. apply strcmp_bytecmp; [done|by apply forallb_u8|done|].
  destruct Hwf as [? ? ? Hmem ?]. intros. apply rd_is_Some. unfold MBUF_HSIZE in *. lia.
Qed.

Lemma noreply_read b p m :
  mbuf_wf b -> mbytes_ok b -> mb_pos b <= m <= p -> p < mb_last b ->
  and_then (Some (p - m =? 7)) (strcmp b m (bytes_of "noreply")) =
  Some ((p - m =? 7) && bytecmp b m (bytes_of "noreply")).
Proof.
  intros. destruct (Z.eqb_spec (p - m) 7) as [E|]; [|done].
  rewrite (lit_read b p m (bytes_of "noreply")); try done. rewrite E. vm_compute. reflexivity.
Qed.

(** ** Registers up to the value length

    A parse that was cut inside a value ends with the length of the part that
    was missing in [vlen]; nothing reads [vlen] after the value. *)

Definition regs_deq (r r' : regs) : Prop := set_vlen r 0 = set_vlen r' 0.

Definition regs_peq {St} (live : St -> msg_type -> bool) (s : St) (r r' : regs) : Prop :=
  regs_deq r r' /\ (live s (type r) = true -> vlen r = vlen r').

#[export] Instance regs_deq_equiv : Equivalence regs_deq.
Proof. unfold regs_deq. split; red; congruence. Qed.

Lemma regs_deq_vlen r r' : regs_deq r r' -> r' = set_vlen r (vlen r').
Proof. destruct r, r'. unfold regs_deq, set_vlen. simpl. intros H. injection H. intros. by subst. Qed.

#[export] Instance regs_peq_equiv {St} (live : St -> msg_type -> bool) s : Equivalence (regs_peq live s).
Proof.
  split.
  - intros r. by split.
  - intros r r' [H1 H2]. split; [by symmetry|]. apply regs_deq_vlen in H1. rewrite H1. simpl.
    intros. symmetry. auto.
  - intros r r' r'' [H1 H2] [H3 H4]. split; [by etrans|]. intros Hl. rewrite H2 by done. apply H4.
    apply regs_deq_vlen in H1. by rewrite H1.
Qed.

Lemma regs_deq_token r r' :
  regs_deq r r' -> token r = token r' /\ regs_deq (set_token r None) (set_token r' None).
Proof. intros H. apply regs_deq_vlen in H. by rewrite H. Qed.

Lemma push_key_vlen ok r v b p q :
  push_key ok (set_vlen r v) b p q = (fun r' => set_vlen r' v) <$> push_key ok r b p q.
Proof. unfold push_key. simpl. by destruct (array_push ok (keys r)) as [[? ?]|]. Qed.

(** ** Requests *)

Module McReqSafe.
Import McReq.

Lemma mcreq_types_ok len : lits_ok len (mcreq_types len) = true.
Proof.
  unfold mcreq_types. destruct len as [|len|]; [done| |done].
  do 3 (try (destruct len as [len|len|])); vm_compute; reflexivity.
Qed.

Record inv (b : mbuf) (p : Z) (s : mcreq_state) (r : regs) : Prop := {
  inv_p : mb_pos b <= p <= mb_last b;
  inv_token : forall t, token r = Some t -> mb_pos b <= t <= p;
  inv_vlen : is_u32 (vlen r);
  inv_keys : keys_in b r
}.

(** A byte is looked at again after a step back; SW_KEY and
    SW_SPACES_BEFORE_KEYS hand CR and other bytes to each other in opposite
    directions. *)
Definition weight (b : mbuf) (p : Z) (s : mcreq_state) : nat :=
  let cr := match deref b p with Some c => c =? CR | None => false end in
  match s with
  | SW_SPACES_BEFORE_KEY => if cr then 2 else 1
  | SW_KEY => if cr then 1 else 0
  | SW_SPACES_BEFORE_KEYS => if cr then 0 else 1
  | SW_REQ_TYPE | SW_VLEN | SW_CAS | SW_NUM | SW_NOREPLY => 1
  | _ => 0
  end.

Definition meas (b : mbuf) (p : Z) (s : mcreq_state) (r : regs) : nat :=
  3 * Z.to_nat (mb_last b - p) + weight b p s.

Lemma mcreq_weight_le b p s : (weight b p s <= 2)%nat.
Proof. unfold weight. destruct s; try lia; case_match; lia. Qed.

(** An iteration that moves forward decreases the measure. *)
Lemma mcreq_meas_fwd b p q s s' r r' :
  p < mb_last b -> p < q -> (meas b q s' r' < meas b p s r)%nat.
Proof. intros. pose proof (mcreq_weight_le b q s'). unfold meas. lia. Qed.

(** One that steps back decreases the weight. *)
Lemma mcreq_meas_back b p s s' r r' :
  (weight b p s' < weight b p s)%nat -> (meas b (p - 1 + 1) s' r' < meas b p s r)%nat.
Proof. intros. unfold meas. replace (p - 1 + 1) with p by lia. lia. Qed.

Section Safety.
Variables (ok : Z -> bool) (b : mbuf).
Hypothesis Hwf : mbuf_wf b.
Hypothesis Hbytes : mbytes_ok b.

Definition good (p : Z) (s : mcreq_state) (r : regs) (o : outcome mcreq_state) : Prop :=
  match o with
  | Break p' s' r' => p <= p' + 1 /\ inv b (p' + 1) s' r' /\ (meas b (p' + 1) s' r' < meas b p s r)%nat
  | Done p' r' => p' = p /\ keys_in b r'
  | Error _ _ | Enomem _ _ => True
  | Fault => False
  end.

Ltac mc_inv :=
  split; simpl in *; intros; simplify_eq; simpl in *;
  first [ done | lia | by auto with cint | apply u32_range | unfold is_u32; lia ].

(** The leaves: an error, the end, a step forward, a step back. *)
Ltac mc_leaf Hc :=
  simpl; first
    [ done | by split
    | split_and!; [lia|mc_inv|apply mcreq_meas_fwd; lia]
    | split_and!; [lia|mc_inv|apply mcreq_meas_back; unfold weight; rewrite ?Hc; b2p; subst; simpl; zcase; lia] ].

Lemma mcreq_val_good p ch s r :
  inv b p s r -> p < mb_last b -> good p s r (mcreq_val b p ch s r).
Proof.
  intros [Hp Ht Hv Hk] Hlt. pose proof Hwf as [? ? ? ? ?]. unfold mcreq_val, is_u32 in *.
  assert (Ht' : forall q t, p <= q -> token r = Some t -> mb_pos b <= t <= q)
    by (intros q t Hq Et; specialize (Ht t Et); lia).
  destruct (Z.leb_spec (mb_last b) (p + vlen r)).
  - split_and!; [lia| |apply mcreq_meas_fwd; lia].
    split; simpl; [lia|intros; apply Ht'; [lia|done]|apply u32_range|done].
  - destruct (deref_in b (p + vlen r) Hwf) as [c ->]; [lia|]. destruct (_ =? CR); [|done].
    split_and!; [lia| |apply mcreq_meas_fwd; lia].
    split; simpl; [lia|intros; apply Ht'; [lia|done]|done|done].
Qed.

Lemma mcreq_key_good p ch s r :
  s = SW_KEY -> inv b p s r -> p < mb_last b -> deref b p = Some ch -> good p s r (mcreq_key ok b p ch s r).
Proof.
  intros -> [Hp Ht Hv Hk] Hlt Hc. unfold mcreq_key.
  assert (Htok : mb_pos b <= default p (token r) <= p) by (destruct (token r); simpl; [auto|lia]).
  set (tok := default p (token r)) in *.
  destruct ((ch =? SP) || (ch =? CR)) eqn:Esep; [|mc_leaf Hc].
  destruct (_ <? _); [done|]. destruct (_ =? 0); [done|].
  destruct (push_key _ _ _ _ _) as [r'|] eqn:Ep; [|done].
  destruct (push_key_in _ _ _ _ _ _ Ep) as (Hk' & a & ->); [lia|lia|done|]. simpl in *.
  destruct (ch =? CR) eqn:Ecr;
    [destruct (memcache_storage (type r) || memcache_arithmetic (type r)) eqn:Eerr; [done|]|].
  all: repeat case_match; try done; mc_leaf Hc.
Qed.

Lemma mcreq_step_good p ch s r :
  inv b p s r -> p < mb_last b -> deref b p = Some ch -> good p s r (mcreq_step ok b p ch s r).
Proof.
  intros HI Hlt Hc. destruct s; simpl; try (by apply mcreq_val_good); try (by apply mcreq_key_good).
  all: pose proof HI as [Hp Ht Hv Hk].
  all: unfold mcreq_start, mcreq_type, mcreq_spaces_before_key, mcreq_spaces_before_keys,
    mcreq_spaces_before_flags, mcreq_flags, mcreq_spaces_before_expiry, mcreq_expiry,
    mcreq_spaces_before_vlen, mcreq_vlen, mcreq_spaces_before_cas, mcreq_cas, mcreq_runto_val,
    mcreq_spaces_before_num, mcreq_num, mcreq_runto_crlf, mcreq_noreply, mcreq_after_noreply,
    mcreq_crlf, mcreq_almost_done.
  all: destruct (token r) as [t|] eqn:Et; [specialize (Ht t eq_refl)|].
  all: try rewrite (word_read b p) by (done || apply mcreq_types_ok).
  all: try rewrite noreply_read by done.
  all: repeat case_match; simplify_eq; mc_leaf Hc.
Qed.
End Safety.

Section Resume.
Variables (ok : Z -> bool) (b1 b2 : mbuf).
Hypotheses (Hwf1 : mbuf_wf b1) (Hwf2 : mbuf_wf b2).
Hypotheses (Hb1 : mbytes_ok b1) (Hb2 : mbytes_ok b2) (Hext : extends b1 b2).

(** [vlen] is dead when the value has been skipped. *)
Definition vlen_live (s : mcreq_state) (t : msg_type) : bool :=
  match s with SW_ALMOST_DONE => false | _ => true end.

Abbreviation sim := (outcome_sim (regs_peq vlen_live) regs_deq).
Abbreviation splits := (step_splits (mcreq_step ok) (regs_peq vlen_live) regs_deq b1 b2).

Lemma mcreq_sim_refl x : sim x x.
Proof. apply outcome_sim_refl; intros; reflexivity. Qed.

Lemma mcreq_val_splits p r ch :
  inv b1 p SW_VAL r -> p < mb_last b1 -> splits p ch SW_VAL r.
Proof.
  intros [Hp _ Hv _] Hlt. unfold step_splits. simpl.
  pose proof (ext_last _ _ Hext). pose proof Hwf1 as [? ? ? ? ?]. pose proof Hwf2 as [? ? ? ? ?].
  unfold mcreq_val. destruct (Z.leb_spec (mb_last b1) (p + vlen r)) as [Hm|Hm].
  - destruct (decide (mb_last b1 = mb_last b2)) as [E|E].
    { left. destruct (Z.leb_spec (mb_last b2) (p + vlen r)); [|lia]. by rewrite E. }
    right. split; [lia|]. eexists; split; [done|]. intros ch'. simpl.
    destruct (rlen_rest (vlen r) p (mb_last b1) (mb_last b2)) as [-> ->]; try done; try lia.
    destruct (mb_last b2 <=? p + vlen r); [apply mcreq_sim_refl|].
    destruct (deref b2 (p + vlen r)) as [c|]; [|done]. by destruct (c =? CR).
  - left. destruct (Z.leb_spec (mb_last b2) (p + vlen r)); [lia|].
    by rewrite (ext_mem _ _ Hext) by lia.
Qed.

Lemma mcreq_step_splits p ch s r :
  inv b1 p s r -> p < mb_last b1 -> splits p ch s r.
Proof.
  intros HI Hlt. destruct s; try (by apply mcreq_val_splits).
  all: left; simpl; try done; pose proof (ext_last _ _ Hext); destruct HI as [Hp Ht _ _].
  - unfold mcreq_type. destruct (token r) as [m|]; [|done].
    by rewrite (word_read_ext b1 b2 p m) by (done || apply mcreq_types_ok || auto).
  - unfold mcreq_key. by rewrite (push_key_ext ok b1 b2).
  - unfold mcreq_noreply. destruct (token r) as [m|]; [|done]. specialize (Ht m eq_refl).
    destruct (Z.eqb_spec (p - m) 7) as [E|E]; [|done].
    rewrite (lit_read b1 p) by (done || (rewrite E; vm_compute; reflexivity)).
    rewrite strcmp_bytecmp; [|done|by repeat constructor|done|].
    + rewrite (bytecmp_ext b1 b2); [done|]. intros. apply (ext_mem _ _ Hext).
      change (zlen (bytes_of "noreply")) with 7 in *. lia.
    + intros. apply rd_is_Some. change (zlen (bytes_of "noreply")) with 7 in *.
      destruct Hwf1, Hwf2. unfold MBUF_HSIZE in *. lia.
Qed.

Lemma mcreq_step_peq b p ch s r r' :
  regs_peq vlen_live s r r' -> sim (mcreq_step ok b p ch s r) (mcreq_step ok b p ch s r').
Proof.
  intros [H1 H2]. apply regs_deq_vlen in H1. destruct (vlen_live s (type r)) eqn:El.
  - rewrite H1, <- H2 by done. replace (set_vlen r (vlen r)) with r by (by destruct r). apply mcreq_sim_refl.
  - destruct s; try done. simpl. unfold mcreq_almost_done. destruct (ch =? LF); [|done].
    split; [done|]. by rewrite H1.
Qed.

End Resume.

Lemma mcreq_inv_extends b1 b2 p s r :
  extends b1 b2 -> mb_pos b1 = mb_pos b2 -> inv b1 p s r -> inv b2 p s r.
Proof.
  intros Hext Hp [H1 H2 H3 H4]. pose proof (ext_last _ _ Hext).
  constructor; rewrite <- ?Hp; [lia|done|done|by eapply keys_in_ext].
Qed.

(** memcache_parse_req is a protocol parser. *)
#[export] Instance memcache_req_proto ok : ProtoParser (mcreq_step ok).
Proof.
  refine {| pgood := fun b => mbuf_wf b /\ mbytes_ok b; pinv := inv; ppost := keys_in; pmeas := meas;
            peq := regs_peq vlen_live; deq := regs_deq |}.
  - by intros s r r' [? _].
  - exact regs_deq_token.
  - by intros b [? _].
  - by intros b p s r [? _ _ _].
  - by intros b p s r t [_ Ht _ _] ?%Ht.
  - exact mcreq_inv_extends.
  - intros b p ch s r [Hwf Hb] HI Hlt Hc. exact (mcreq_step_good ok b Hwf Hb _ _ _ _ HI Hlt Hc).
  - intros b1 b2 p ch s r [? ?] [? ?] Hext HI Hlt _. by apply mcreq_step_splits.
  - exact (mcreq_step_peq ok).
Defined.

Lemma mcreq_fuel_ok b p s r : (meas b p s r < mcreq_fuel b p)%nat.
Proof. unfold meas, mcreq_fuel. pose proof (mcreq_weight_le b p s). lia. Qed.

(** A message just taken from [msg_get]. *)
Lemma mcreq_init_ok ok b : mbuf_wf b -> pmsg_ok (mcreq_step ok) b (mcreq_init (mb_pos b)).
Proof. intros [? ? ? ? ?]. constructor; simpl; try done; [lia|apply keys_in_init]. Qed.

Definition mcreq_sample : list Z := bytes_of "set k 0 0 5" ++ [CR; LF] ++ bytes_of "hel".
Definition mcreq_sample_rest : list Z := bytes_of "lo" ++ [CR; LF].

(** C26. memcache_parse_req returns on every well-formed mbuf whatever the
    client sent: no read leaves the chunk, the loop ends within three
    iterations per byte although seven of its states step back, and the
    result is the one it reports; on MSG_PARSE_OK the recorded keys lie in the
    data. *)
Theorem memcache_parse_req_safe (ok : Z -> bool) (b : mbuf) (x : pmsg mcreq_state) :
  mbuf_wf b -> mbytes_ok b -> pmsg_ok (mcreq_step ok) b x ->
  exists x', memcache_parse_req ok b x = Some x' /\
    presult_ok (mcreq_step ok) SW_START (fun r => r) b x x'.
Proof. intros. apply proto_parse_safe; [intros; apply mcreq_fuel_ok|done|done]. Qed.

Lemma memcache_parse_req_safe_witness :
  exists x', memcache_parse_req (fun _ => true) (buf_of 1 464 mcreq_sample) (mcreq_init 0) = Some x' /\
    presult_ok (mcreq_step (fun _ => true)) SW_START (fun r => r) (buf_of 1 464 mcreq_sample) (mcreq_init 0) x'.
Proof.
  apply (memcache_parse_req_safe (fun _ => true) (buf_of 1 464 mcreq_sample) (mcreq_init 0)).
  - apply mbuf_wfb_wf. vm_compute. reflexivity.
  - apply forallb_u8. vm_compute. reflexivity.
  - apply (mcreq_init_ok _ (buf_of 1 464 mcreq_sample)). apply mbuf_wfb_wf. vm_compute. reflexivity.
Defined.

(** C27. Incremental parsing of memcache requests: resuming after
    MSG_PARSE_AGAIN on the grown buffer ends as one parse of the grown buffer
    would have, the left-over value length apart. *)
Theorem memcache_parse_req_resume (ok : Z -> bool) (b1 b2 : mbuf) (x x1 : pmsg mcreq_state) :
  mbuf_wf b1 -> mbytes_ok b1 -> mbuf_wf b2 -> mbytes_ok b2 ->
  extends b1 b2 -> mb_pos b1 = mb_pos b2 -> pmsg_ok (mcreq_step ok) b1 x ->
  memcache_parse_req ok b1 x = Some x1 -> pm_result x1 = MSG_PARSE_AGAIN ->
  exists y z, memcache_parse_req ok b2 x = Some y /\ memcache_parse_req ok b2 x1 = Some z /\
    pmsg_sim (mcreq_step ok) y z.
Proof.
  intros. apply (proto_parse_resume (mcreq_step ok) _ _ _ mcreq_fuel) with (b1 := b1); try done.
  intros. apply mcreq_fuel_ok.
Qed.

Lemma memcache_parse_req_resume_witness :
  exists y z,
    memcache_parse_req (fun _ => true) (buf_of 1 464 (mcreq_sample ++ mcreq_sample_rest)) (mcreq_init 0) = Some y /\
    memcache_parse_req (fun _ => true) (buf_of 1 464 (mcreq_sample ++ mcreq_sample_rest))
      (default (mcreq_init 0) (memcache_parse_req (fun _ => true) (buf_of 1 464 mcreq_sample) (mcreq_init 0))) = Some z /\
    pmsg_sim (mcreq_step (fun _ => true)) y z.
Proof.
  apply (memcache_parse_req_resume (fun _ => true) (buf_of 1 464 mcreq_sample)).
  - apply mbuf_wfb_wf. vm_compute. reflexivity.
  - apply forallb_u8. vm_compute. reflexivity.
  - apply mbuf_wfb_wf. vm_compute. reflexivity.
  - apply forallb_u8. vm_compute. reflexivity.
  - apply extends_recv.
  - reflexivity.
  - apply (mcreq_init_ok _ (buf_of 1 464 mcreq_sample)). apply mbuf_wfb_wf. vm_compute. reflexivity.
  - vm_compute. reflexivity.
  - vm_compute. reflexivity.
Defined.

End McReqSafe.

(** ** Responses *)

Module McRspSafe.
Import McRsp.

Lemma mcrsp_types_ok len : lits_ok len (mcrsp_types len) = true.
Proof.
  unfold mcrsp_types. destruct len as [|len|]; [done| |done].
  do 4 (try (destruct len as [len|len|])); vm_compute; reflexivity.
Qed.

Record inv (b : mbuf) (p : Z) (s : mcrsp_state) (r : regs) : Prop := {
  inv_p : mb_pos b <= p <= mb_last b;
  inv_token : forall t, token r = Some t -> mb_pos b <= t <= p;
  inv_vlen : is_u32 (vlen r)
}.

(** How often a byte can be looked at again from each state. *)
Definition weight (s : mcrsp_state) : nat :=
  match s with
  | SW_START => 3
  | SW_RSP_STR | SW_SPACES_BEFORE_VLEN => 2
  | SW_RSP_NUM | SW_SPACES_BEFORE_KEY | SW_SPACES_BEFORE_FLAGS | SW_VLEN => 1
  | _ => 0
  end.

Definition meas (b : mbuf) (p : Z) (s : mcrsp_state) (r : regs) : nat :=
  4 * Z.to_nat (mb_last b - p) + weight s.

Lemma mcrsp_weight_le s : (weight s <= 3)%nat.
Proof. destruct s; simpl; lia. Qed.

Lemma mcrsp_weight_next t : (weight (mcrsp_next t) <= 1)%nat.
Proof. destruct t; simpl; lia. Qed.

Section Safety.
Variable b : mbuf.
Hypothesis Hwf : mbuf_wf b.
Hypothesis Hbytes : mbytes_ok b.

Definition good (p : Z) (s : mcrsp_state) (r : regs) (o : outcome mcrsp_state) : Prop :=
  match o with
  | Break p' s' r' => p <= p' + 1 /\ inv b (p' + 1) s' r' /\ (meas b (p' + 1) s' r' < meas b p s r)%nat
  | Done p' r' => p' = p /\ True
  | Error _ _ | Enomem _ _ => True
  | Fault => False
  end.

Ltac mc_leaf :=
  simpl; first
    [ done | by split
    | split_and!; [lia
      |split; simpl in *; intros; simplify_eq; simpl in *;
       first [ done | lia | by auto with cint | apply u32_range | unfold is_u32; lia ]
      |unfold meas; simpl; lia] ].

Lemma mcrsp_val_good p ch s r :
  inv b p s r -> p < mb_last b -> good p s r (mcrsp_val b p ch s r).
Proof.
  intros [Hp Ht Hv] Hlt. pose proof Hwf as [? ? ? ? ?]. unfold mcrsp_val, is_u32 in *.
  pose proof (mcrsp_weight_le s).
  assert (Ht' : forall q t, p <= q -> token r = Some t -> mb_pos b <= t <= q)
    by (intros q t Hq Et; specialize (Ht t Et); lia).
  destruct (Z.leb_spec (mb_last b) (p + vlen r)).
  - split_and!; [lia| |unfold meas; lia].
    split; simpl; [lia|intros; apply Ht'; [lia|done]|apply u32_range].
  - destruct (deref_in b (p + vlen r) Hwf) as [c ->]; [lia|]. destruct (_ =? CR); [|done].
    split_and!; [lia| |unfold meas; simpl; lia].
    split; simpl; [lia|intros; apply Ht'; [lia|done]|done].
Qed.

Lemma mcrsp_str_good p ch r :
  inv b p SW_RSP_STR r -> p < mb_last b -> good p SW_RSP_STR r (mcrsp_str b p ch SW_RSP_STR r).
Proof.
  intros [Hp Ht Hv] Hlt. unfold mcrsp_str.
  assert (Htok : mb_pos b <= default p (token r) <= p) by (destruct (token r); simpl; [auto|lia]).
  set (m := default p (token r)) in *. destruct (_ || _); [|mc_leaf].
  rewrite (word_read b p) by (done || apply mcrsp_types_ok).
  destruct (first_ref _ _ _) as [t|]; [|done]. pose proof (mcrsp_weight_next t).
  split_and!; [lia| |unfold meas; replace (p - 1 + 1) with p by lia; simpl; lia].
  split; [lia| |]; destruct t; simpl; intros; simplify_eq; done || lia.
Qed.

Lemma mcrsp_step_good p ch s r :
  inv b p s r -> p < mb_last b -> deref b p = Some ch -> good p s r (mcrsp_step b p ch s r).
Proof.
  intros HI Hlt _. destruct s; simpl; try (by apply mcrsp_val_good); try (by apply mcrsp_str_good).
  all: pose proof HI as [Hp Ht Hv].
  all: unfold mcrsp_start, mcrsp_num, mcrsp_spaces_before_key, mcrsp_key,
    mcrsp_spaces_before_flags, mcrsp_flags, mcrsp_spaces_before_vlen, mcrsp_vlen, mcrsp_runto_val,
    mcrsp_val_lf, mcrsp_end, mcrsp_runto_crlf, mcrsp_crlf, mcrsp_almost_done.
  all: destruct (token r) as [t|] eqn:Et; [specialize (Ht t eq_refl)|].
  all: try (destruct (Z.eqb_spec (p - t) 3) as [E3|E3];
            [rewrite (lit_read b p) by (done || (rewrite E3; vm_compute; reflexivity))|]).
  all: repeat case_match; simplify_eq; mc_leaf.
Qed.

End Safety.

Section Resume.
Variables (b1 b2 : mbuf).
Hypotheses (Hwf1 : mbuf_wf b1) (Hwf2 : mbuf_wf b2).
Hypotheses (Hb1 : mbytes_ok b1) (Hb2 : mbytes_ok b2) (Hext : extends b1 b2).

(** [vlen] matters from the length to the end of the value. *)
Definition vlen_live (s : mcrsp_state) (t : msg_type) : bool :=
  match s with
  | SW_START | SW_RSP_NUM | SW_VLEN | SW_RUNTO_VAL | SW_VAL | SW_END => true
  | SW_RUNTO_CRLF => match t with MSG_RSP_MC_VALUE => true | _ => false end
  | _ => false
  end.

Abbreviation sim := (outcome_sim (regs_peq vlen_live) regs_deq).
Abbreviation splits := (step_splits mcrsp_step (regs_peq vlen_live) regs_deq b1 b2).

Lemma mcrsp_sim_refl x : sim x x.
Proof. apply outcome_sim_refl; intros; reflexivity. Qed.

Lemma mcrsp_val_splits p r ch :
  inv b1 p SW_VAL r -> p < mb_last b1 -> splits p ch SW_VAL r.
Proof.
  intros [Hp _ Hv] Hlt. unfold step_splits. simpl.
  pose proof (ext_last _ _ Hext). pose proof Hwf1 as [? ? ? ? ?]. pose proof Hwf2 as [? ? ? ? ?].
  unfold mcrsp_val. destruct (Z.leb_spec (mb_last b1) (p + vlen r)) as [Hm|Hm].
  - destruct (decide (mb_last b1 = mb_last b2)) as [E|E].
    { left. destruct (Z.leb_spec (mb_last b2) (p + vlen r)); [|lia]. by rewrite E. }
    right. split; [lia|]. eexists; split; [done|]. intros ch'. simpl.
    destruct (rlen_rest (vlen r) p (mb_last b1) (mb_last b2)) as [-> ->]; try done; try lia.
    destruct (mb_last b2 <=? p + vlen r); [apply mcrsp_sim_refl|].
    destruct (deref b2 (p + vlen r)) as [c|]; [|done]. by destruct (c =? CR).
  - left. destruct (Z.leb_spec (mb_last b2) (p + vlen r)); [lia|].
    by rewrite (ext_mem _ _ Hext) by lia.
Qed.

Lemma mcrsp_step_splits p ch s r :
  inv b1 p s r -> p < mb_last b1 -> splits p ch s r.
Proof.
  intros HI Hlt. pose proof (ext_id _ _ Hext) as Hid. destruct s; try (by apply mcrsp_val_splits).
  all: left; simpl; try done; pose proof (ext_last _ _ Hext); destruct HI as [Hp Ht _].
  - unfold mcrsp_str. rewrite (word_read_ext b1 b2 p), Hid; try done; [|apply mcrsp_types_ok].
    destruct (token r); simpl; [auto|lia].
  - unfold mcrsp_end. rewrite Hid. destruct (token r) as [m|]; [|done]. specialize (Ht m eq_refl).
    destruct (Z.eqb_spec (p - m) 3) as [E|E]; [|done].
    pose proof (word_read_ext b1 b2 p m [(bytes_of "END" ++ [CR], MSG_UNKNOWN)]
      Hwf1 Hwf2 Hb1 Hb2 Hext Ht Hlt) as Hw.
    rewrite E in Hw. specialize (Hw eq_refl). simpl in Hw |- *.
    destruct (str4cmp b2 m _ _ _ _) as [[]|], (str4cmp b1 m _ _ _ _) as [[]|]; by simplify_eq.
Qed.

Lemma mcrsp_str_peq b p ch s r v :
  sim (mcrsp_str b p ch s r) (mcrsp_str b p ch s (set_vlen r v)) \/ vlen_live s (type r) = true.
Proof.
  destruct (vlen_live s (type r)) eqn:El; [by right|left]. unfold mcrsp_str.
  change (token (set_vlen r v)) with (token r). destruct (_ || _).
  - destruct (first_cmp _ _ _) as [[t|]|]; [|done|done].
    assert (vlen_live (mcrsp_next t) t = false) by (by destruct t).
    by destruct t.
  - split_and!; try done. split; [done|]. simpl. congruence.
Qed.

Lemma mcrsp_step_peq b p ch s r r' :
  regs_peq vlen_live s r r' -> sim (mcrsp_step b p ch s r) (mcrsp_step b p ch s r').
Proof.
  intros [H1 H2]. apply regs_deq_vlen in H1. destruct (vlen_live s (type r)) eqn:El.
  - rewrite H1, <- H2 by done. replace (set_vlen r (vlen r)) with r by (by destruct r). apply mcrsp_sim_refl.
  - rewrite H1. generalize (vlen r'). intros v. clear H1 H2 r'.
    assert (Hcrlf : s = SW_RUNTO_CRLF ->
      match type r with MSG_RSP_MC_VALUE => SW_RUNTO_VAL | _ => SW_ALMOST_DONE end = SW_ALMOST_DONE)
      by (intros ->; simpl in El; by destruct (type r)).
    destruct s; try done; simpl.
    all: unfold mcrsp_spaces_before_key, mcrsp_key, mcrsp_spaces_before_flags, mcrsp_flags,
      mcrsp_spaces_before_vlen, mcrsp_val_lf, mcrsp_runto_crlf, mcrsp_crlf, mcrsp_almost_done;
      simpl; try rewrite Hcrlf by done; clear Hcrlf.
    1: destruct (mcrsp_str_peq b p ch SW_RSP_STR r v); [done|by simpl in *].
    all: repeat (match goal with |- context [if ?c then _ else _] => destruct c end); try done.
    all: split_and!; try done; split; [done|]; simpl in *; congruence.
Qed.

End Resume.

Lemma mcrsp_inv_extends b1 b2 p s r :
  extends b1 b2 -> mb_pos b1 = mb_pos b2 -> inv b1 p s r -> inv b2 p s r.
Proof.
  intros Hext Hp [H1 H2 H3]. pose proof (ext_last _ _ Hext). constructor; rewrite <- ?Hp; [lia|done|done].
Qed.

(** memcache_parse_rsp is a protocol parser. *)
#[export] Instance memcache_rsp_proto : ProtoParser mcrsp_step.
Proof.
  refine {| pgood := fun b => mbuf_wf b /\ mbytes_ok b; pinv := inv; ppost := fun _ _ => True;
            pmeas := meas; peq := regs_peq vlen_live; deq := regs_deq |}.
  - by intros s r r' [? _].
  - exact regs_deq_token.
  - by intros b [? _].
  - by intros b p s r [? _ _].
  - by intros b p s r t [_ Ht _] ?%Ht.
  - exact mcrsp_inv_extends.
  - intros b p ch s r [Hwf Hb] HI Hlt Hc. exact (mcrsp_step_good b Hwf Hb _ _ _ _ HI Hlt Hc).
  - intros b1 b2 p ch s r [? ?] [? ?] Hext HI Hlt _. by apply mcrsp_step_splits.
  - exact mcrsp_step_peq.
Defined.

Lemma mcrsp_fuel_ok b p s r : (meas b p s r < mcrsp_fuel b p)%nat.
Proof. unfold meas, mcrsp_fuel. pose proof (mcrsp_weight_le s). lia. Qed.

(** A message just taken from [msg_get]. *)
Lemma mcrsp_init_ok b : mbuf_wf b -> pmsg_ok mcrsp_step b (mcrsp_init (mb_pos b)).
Proof. intros [? ? ? ? ?]. constructor; simpl; try done; lia. Qed.

Definition mcrsp_sample : list Z := bytes_of "VALUE k 0 5" ++ [CR; LF] ++ bytes_of "hel".
Definition mcrsp_sample_rest : list Z := bytes_of "lo" ++ [CR; LF] ++ bytes_of "END" ++ [CR; LF].

(** C28. memcache_parse_rsp returns on every well-formed mbuf whatever the
    server sent: no read leaves the chunk, the loop ends within four
    iterations per byte, and the result is the one it reports. *)
Theorem memcache_parse_rsp_safe (b : mbuf) (x : pmsg mcrsp_state) :
  mbuf_wf b -> mbytes_ok b -> pmsg_ok mcrsp_step b x ->
  exists x', memcache_parse_rsp b x = Some x' /\
    presult_ok mcrsp_step SW_START (fun r => set_token r None) b x x'.
Proof. intros. apply proto_parse_safe; [intros; apply mcrsp_fuel_ok|done|done]. Qed.

Lemma memcache_parse_rsp_safe_witness :
  exists x', memcache_parse_rsp (buf_of 1 464 mcrsp_sample) (mcrsp_init 0) = Some x' /\
    presult_ok mcrsp_step SW_START (fun r => set_token r None) (buf_of 1 464 mcrsp_sample) (mcrsp_init 0) x'.
Proof.
  apply (memcache_parse_rsp_safe (buf_of 1 464 mcrsp_sample) (mcrsp_init 0)).
  - apply mbuf_wfb_wf. vm_compute. reflexivity.
  - apply forallb_u8. vm_compute. reflexivity.
  - apply (mcrsp_init_ok (buf_of 1 464 mcrsp_sample)). apply mbuf_wfb_wf. vm_compute. reflexivity.
Defined.

(** C29. Incremental parsing of memcache responses: resuming after
    MSG_PARSE_AGAIN on the grown buffer ends as one parse of the grown buffer
    would have, the left-over value length apart. *)
Theorem memcache_parse_rsp_resume (b1 b2 : mbuf) (x x1 : pmsg mcrsp_state) :
  mbuf_wf b1 -> mbytes_ok b1 -> mbuf_wf b2 -> mbytes_ok b2 ->
  extends b1 b2 -> mb_pos b1 = mb_pos b2 -> pmsg_ok mcrsp_step b1 x ->
  memcache_parse_rsp b1 x = Some x1 -> pm_result x1 = MSG_PARSE_AGAIN ->
  exists y z, memcache_parse_rsp b2 x = Some y /\ memcache_parse_rsp b2 x1 = Some z /\
    pmsg_sim mcrsp_step y z.
Proof.
  intros. apply (proto_parse_resume mcrsp_step _ _ _ mcrsp_fuel) with (b1 := b1); try done.
  - intros. apply mcrsp_fuel_ok.
  - intros r r' Hd. by apply regs_deq_token in Hd as [_ ?].
Qed.

Lemma memcache_parse_rsp_resume_witness :
  exists y z,
    memcache_parse_rsp (buf_of 1 464 (mcrsp_sample ++ mcrsp_sample_rest)) (mcrsp_init 0) = Some y /\
    memcache_parse_rsp (buf_of 1 464 (mcrsp_sample ++ mcrsp_sample_rest))
      (default (mcrsp_init 0) (memcache_parse_rsp (buf_of 1 464 mcrsp_sample) (mcrsp_init 0))) = Some z /\
    pmsg_sim mcrsp_step y z.
Proof.
  apply (memcache_parse_rsp_resume (buf_of 1 464 mcrsp_sample)).
  - apply mbuf_wfb_wf. vm_compute. reflexivity.
  - apply forallb_u8. vm_compute. reflexivity.
  - apply mbuf_wfb_wf. vm_compute. reflexivity.
  - apply forallb_u8. vm_compute. reflexivity.
  - apply extends_recv.
  - reflexivity.
  - apply (mcrsp_init_ok (buf_of 1 464 mcrsp_sample)). apply mbuf_wfb_wf. vm_compute. reflexivity.
  - vm_compute. reflexivity.
  - vm_compute. reflexivity.
Defined.

End McRspSafe.
