(* ===== verification/HashKit.v ===== *)
(** The hash functions of hashkit/: one-at-a-time, FNV, CRC-16, CRC-32, Hsieh,
    Murmur2 and Jenkins.  (MD5 has a file of its own.)

    A function that walks the key byte by byte takes the list of its bytes.
    Hsieh, Murmur and Jenkins load words and may read past the key: they take
    the memory the key pointer points to, as a function from offsets to bytes,
    and the length.  [char] is signed, so a byte read through [const char *]
    is sign-extended ([schar]) where the code does not mask it. *)

From S2P Require Import Prelude.

Local Open Scope cint_scope.
Local Open Scope Z_scope.

(** ** One at a time *)

Definition oaat_mix (value byte : Z) : Z :=
  let value := value +u u32 (schar byte) in
  let value := value +u (value <<u 10) in
  value ^u (value >>u 6).

Definition hash_one_at_a_time (key : list Z) : Z :=
  let value := fold_left oaat_mix key 0 in
  let value := value +u (value <<u 3) in
  let value := value ^u (value >>u 11) in
  value +u (value <<u 15).

(** ** FNV *)

Definition FNV_64_INIT : Z := 0xcbf29ce484222325.
Definition FNV_64_PRIME : Z := 0x100000001b3.
Definition FNV_32_INIT : Z := 2166136261.
Definition FNV_32_PRIME : Z := 16777619.

Definition hash_fnv1_64 (key : list Z) : Z :=
  u32 (fold_left (fun hash b => Z.lxor (u64 (hash * FNV_64_PRIME)) (u64 (schar b))) key FNV_64_INIT).

(** Computed on uint32_t. *)
Definition hash_fnv1a_64 (key : list Z) : Z :=
  fold_left (fun hash b => (hash ^u u32 (schar b)) *u u32 FNV_64_PRIME) key (u32 FNV_64_INIT).

Definition hash_fnv1_32 (key : list Z) : Z :=
  fold_left (fun hash b => (hash *u FNV_32_PRIME) ^u u32 (schar b)) key FNV_32_INIT.

Definition hash_fnv1a_32 (key : list Z) : Z :=
  fold_left (fun hash b => (hash ^u u32 (schar b)) *u FNV_32_PRIME) key FNV_32_INIT.

(** ** CRC *)

Definition crc16tab : list Z :=
  [0; 4129; 8258; 12387; 16516; 20645; 24774; 28903; 33032; 37161; 41290; 45419; 49548; 53677;
   57806; 61935; 4657; 528; 12915; 8786; 21173; 17044; 29431; 25302; 37689; 33560; 45947;
   41818; 54205; 50076; 62463; 58334; 9314; 13379; 1056; 5121; 25830; 29895; 17572; 21637;
   42346; 46411; 34088; 38153; 58862; 62927; 50604; 54669; 13907; 9842; 5649; 1584; 30423;
   26358; 22165; 18100; 46939; 42874; 38681; 34616; 63455; 59390; 55197; 51132; 18628; 22757;
   26758; 30887; 2112; 6241; 10242; 14371; 51660; 55789; 59790; 63919; 35144; 39273; 43274;
   47403; 23285; 19156; 31415; 27286; 6769; 2640; 14899; 10770; 56317; 52188; 64447; 60318;
   39801; 35672; 47931; 43802; 27814; 31879; 19684; 23749; 11298; 15363; 3168; 7233; 60846;
   64911; 52716; 56781; 44330; 48395; 36200; 40265; 32407; 28342; 24277; 20212; 15891; 11826;
   7761; 3696; 65439; 61374; 57309; 53244; 48923; 44858; 40793; 36728; 37256; 33193; 45514;
   41451; 53516; 49453; 61774; 57711; 4224; 161; 12482; 8419; 20484; 16421; 28742; 24679;
   33721; 37784; 41979; 46042; 49981; 54044; 58239; 62302; 689; 4752; 8947; 13010; 16949;
   21012; 25207; 29270; 46570; 42443; 38312; 34185; 62830; 58703; 54572; 50445; 13538; 9411;
   5280; 1153; 29798; 25671; 21540; 17413; 42971; 47098; 34713; 38840; 59231; 63358; 50973;
   55100; 9939; 14066; 1681; 5808; 26199; 30326; 17941; 22068; 55628; 51565; 63758; 59695;
   39368; 35305; 47498; 43435; 22596; 18533; 30726; 26663; 6336; 2273; 14466; 10403; 52093;
   56156; 60223; 64286; 35833; 39896; 43963; 48026; 19061; 23124; 27191; 31254; 2801; 6864;
   10931; 14994; 64814; 60687; 56684; 52557; 48554; 44427; 40424; 36297; 31782; 27655; 23652;
   19525; 15522; 11395; 7392; 3265; 61215; 65342; 53085; 57212; 44955; 49082; 36825; 40952;
   28183; 32310; 20053; 24180; 11923; 16050; 3793; 7920].

Definition crc16_step (crc byte : Z) : Z :=
  (crc <<u 8) ^u default 0 (rd crc16tab (Z.land ((crc >>u 8) ^u u32 (schar byte)) 0x00ff)).

Definition hash_crc16 (key : list Z) : Z := fold_left crc16_step key 0.

Definition crc32tab : list Z :=
  [0; 1996959894; 3993919788; 2567524794; 124634137; 1886057615; 3915621685; 2657392035;
   249268274; 2044508324; 3772115230; 2547177864; 162941995; 2125561021; 3887607047;
   2428444049; 498536548; 1789927666; 4089016648; 2227061214; 450548861; 1843258603;
   4107580753; 2211677639; 325883990; 1684777152; 4251122042; 2321926636; 335633487;
   1661365465; 4195302755; 2366115317; 997073096; 1281953886; 3579855332; 2724688242;
   1006888145; 1258607687; 3524101629; 2768942443; 901097722; 1119000684; 3686517206;
   2898065728; 853044451; 1172266101; 3705015759; 2882616665; 651767980; 1373503546;
   3369554304; 3218104598; 565507253; 1454621731; 3485111705; 3099436303; 671266974;
   1594198024; 3322730930; 2970347812; 795835527; 1483230225; 3244367275; 3060149565;
   1994146192; 31158534; 2563907772; 4023717930; 1907459465; 112637215; 2680153253; 3904427059;
   2013776290; 251722036; 2517215374; 3775830040; 2137656763; 141376813; 2439277719;
   3865271297; 1802195444; 476864866; 2238001368; 4066508878; 1812370925; 453092731;
   2181625025; 4111451223; 1706088902; 314042704; 2344532202; 4240017532; 1658658271;
   366619977; 2362670323; 4224994405; 1303535960; 984961486; 2747007092; 3569037538;
   1256170817; 1037604311; 2765210733; 3554079995; 1131014506; 879679996; 2909243462;
   3663771856; 1141124467; 855842277; 2852801631; 3708648649; 1342533948; 654459306;
   3188396048; 3373015174; 1466479909; 544179635; 3110523913; 3462522015; 1591671054;
   702138776; 2966460450; 3352799412; 1504918807; 783551873; 3082640443; 3233442989;
   3988292384; 2596254646; 62317068; 1957810842; 3939845945; 2647816111; 81470997; 1943803523;
   3814918930; 2489596804; 225274430; 2053790376; 3826175755; 2466906013; 167816743;
   2097651377; 4027552580; 2265490386; 503444072; 1762050814; 4150417245; 2154129355;
   426522225; 1852507879; 4275313526; 2312317920; 282753626; 1742555852; 4189708143;
   2394877945; 397917763; 1622183637; 3604390888; 2714866558; 953729732; 1340076626;
   3518719985; 2797360999; 1068828381; 1219638859; 3624741850; 2936675148; 906185462;
   1090812512; 3747672003; 2825379669; 829329135; 1181335161; 3412177804; 3160834842;
   628085408; 1382605366; 3423369109; 3138078467; 570562233; 1426400815; 3317316542;
   2998733608; 733239954; 1555261956; 3268935591; 3050360625; 752459403; 1541320221;
   2607071920; 3965973030; 1969922972; 40735498; 2617837225; 3943577151; 1913087877; 83908371;
   2512341634; 3803740692; 2075208622; 213261112; 2463272603; 3855990285; 2094854071;
   198958881; 2262029012; 4057260610; 1759359992; 534414190; 2176718541; 4139329115;
   1873836001; 414664567; 2282248934; 4279200368; 1711684554; 285281116; 2405801727;
   4167216745; 1634467795; 376229701; 2685067896; 3608007406; 1308918612; 956543938;
   2808555105; 3495958263; 1231636301; 1047427035; 2932959818; 3654703836; 1088359270;
   936918000; 2847714899; 3736837829; 1202900863; 817233897; 3183342108; 3401237130;
   1404277552; 615818150; 3134207493; 3453421203; 1423857449; 601450431; 3009837614;
   3294710456; 1567103746; 711928724; 3020668471; 3272380065; 1510334235; 755167117].

Definition crc32_step (crc byte : Z) : Z :=
  (crc >>u 8) ^u default 0 (rd crc32tab (Z.land (Z.lxor crc (u64 (schar byte))) 0xff)).

Definition UINT32_MAX : Z := 4294967295.

Definition hash_crc32 (key : list Z) : Z :=
  Z.land (Z.shiftr (u32 (Z.lnot (fold_left crc32_step key UINT32_MAX))) 16) 0x7fff.

(** The key is read through [const uint8_t *]. *)
Definition crc32a_step (crc byte : Z) : Z :=
  default 0 (rd crc32tab (Z.land (crc ^u byte) 0xFF)) ^u (crc >>u 8).

Definition hash_crc32a (key : list Z) : Z :=
  fold_left crc32a_step key UINT32_MAX ^u UINT32_MAX.

(** ** Word loads *)

Definition byte_mem := Z -> Z.

(** The memory behind a key that is followed by [tail]. *)
Definition mem_of (key tail : list Z) : byte_mem := fun i => default 0 (rd (key ++ tail) i).

Definition load16 (k : byte_mem) (i : Z) : Z := k i + Z.shiftl (k (i + 1)) 8.
Definition load32 (k : byte_mem) (i : Z) : Z :=
  k i + Z.shiftl (k (i + 1)) 8 + Z.shiftl (k (i + 2)) 16 + Z.shiftl (k (i + 3)) 24.

(** ** Hsieh *)

Definition get16bits (k : byte_mem) (i : Z) : Z := (k (i + 1) <<u 8) +u k i.

(** One unit of [n] per four bytes. *)
Fixpoint hsieh_loop (k : byte_mem) (n : nat) (i hash : Z) : Z * Z :=
  match n with
  | O => (i, hash)
  | S n' =>
      let hash := hash +u get16bits k i in
      let tmp := (get16bits k (i + 2) <<u 11) ^u hash in
      let hash := (hash <<u 16) ^u tmp in
      hsieh_loop k n' (i + 4) (hash +u (hash >>u 11))
  end.

Definition hsieh_rem (k : byte_mem) (rem i hash : Z) : Z :=
  match rem with
  | 3 =>
      let hash := hash +u get16bits k i in
      let hash := hash ^u (hash <<u 16) in
      let hash := hash ^u (u32 (schar (k (i + 2))) <<u 18) in
      hash +u (hash >>u 11)
  | 2 =>
      let hash := hash +u get16bits k i in
      let hash := hash ^u (hash <<u 11) in
      hash +u (hash >>u 17)
  | 1 =>
      let hash := hash +u k i in
      let hash := hash ^u (hash <<u 10) in
      hash +u (hash >>u 1)
  | _ => hash
  end.

Definition hash_hsieh (k : byte_mem) (key_length : Z) : Z :=
  if key_length <=? 0 then 0
  else
    let rem := Z.land key_length 3 in
    let '(i, hash) := hsieh_loop k (Z.to_nat (Z.shiftr key_length 2)) 0 0 in
    let hash := hsieh_rem k rem i hash in
    let hash := hash ^u (hash <<u 3) in
    let hash := hash +u (hash >>u 5) in
    let hash := hash ^u (hash <<u 4) in
    let hash := hash +u (hash >>u 17) in
    let hash := hash ^u (hash <<u 25) in
    hash +u (hash >>u 6).

(** ** Murmur2 *)

Definition murmur_m : Z := 0x5bd1e995.

Fixpoint murmur_loop (fuel : nat) (k : byte_mem) (i length h : Z) : Z * Z * Z :=
  if 4 <=? length then
    match fuel with
    | O => (i, length, h)
    | S fuel' =>
        let w := load32 k i *u murmur_m in
        let w := w ^u (w >>u 24) in
        let w := w *u murmur_m in
        murmur_loop fuel' k (i + 4) (length - 4) ((h *u murmur_m) ^u w)
    end
  else (i, length, h).

(** [switch(length)], each case falling through to the next. *)
Definition murmur_tail (k : byte_mem) (i length h : Z) : Z :=
  let h := if length =? 3 then h ^u (k (i + 2) <<u 16) else h in
  let h := if (length =? 3) || (length =? 2) then h ^u (k (i + 1) <<u 8) else h in
  if (length =? 3) || (length =? 2) || (length =? 1) then (h ^u k i) *u murmur_m else h.

Definition hash_murmur (k : byte_mem) (length : Z) : Z :=
  let seed := 0xdeadbeef *u u32 length in
  let '(i, rest, h) := murmur_loop (Z.to_nat length) k 0 length (seed ^u u32 length) in
  let h := murmur_tail k i rest h in
  let h := h ^u (h >>u 13) in
  let h := h *u murmur_m in
  h ^u (h >>u 15).

(** ** Jenkins *)

Definition rot (x k : Z) : Z := Z.lor (x <<u k) (x >>u (32 - k)).

Definition jenkins_mix (s : Z * Z * Z) : Z * Z * Z :=
  let '(a, b, c) := s in
  let a := a -u c in let a := a ^u rot c 4 in let c := c +u b in
  let b := b -u a in let b := b ^u rot a 6 in let a := a +u c in
  let c := c -u b in let c := c ^u rot b 8 in let b := b +u a in
  let a := a -u c in let a := a ^u rot c 16 in let c := c +u b in
  let b := b -u a in let b := b ^u rot a 19 in let a := a +u c in
  let c := c -u b in let c := c ^u rot b 4 in let b := b +u a in
  (a, b, c).

Definition jenkins_final (s : Z * Z * Z) : Z :=
  let '(a, b, c) := s in
  let c := c ^u b in let c := c -u rot b 14 in
  let a := a ^u c in let a := a -u rot c 11 in
  let b := b ^u a in let b := b -u rot a 25 in
  let c := c ^u b in let c := c -u rot b 16 in
  let a := a ^u c in let a := a -u rot c 4 in
  let b := b ^u a in let b := b -u rot a 14 in
  let c := c ^u b in c -u rot b 24.

Definition JENKINS_INITVAL : Z := 13.

(** All but the last block; [word k i] is the 32-bit word of a path at [i]. *)
Fixpoint jenkins_blocks (word : byte_mem -> Z -> Z) (fuel : nat) (k : byte_mem) (i length : Z)
    (s : Z * Z * Z) : Z * Z * (Z * Z * Z) :=
  if 12 <? length then
    match fuel with
    | O => (i, length, s)
    | S fuel' =>
        let '(a, b, c) := s in
        jenkins_blocks word fuel' k (i + 12) (length - 12)
          (jenkins_mix (a +u word k i, b +u word k (i + 4), c +u word k (i + 8)))
    end
  else (i, length, s).

(** Key at a multiple of 4: 32-bit loads, the tail masked. *)
Definition word_aligned4 (k : byte_mem) (i : Z) : Z := load32 k i.

Definition last_aligned4 (k : byte_mem) (i length : Z) (s : Z * Z * Z) : option (Z * Z * Z) :=
  let '(a, b, c) := s in
  let k0 := load32 k i in let k1 := load32 k (i + 4) in let k2 := load32 k (i + 8) in
  match length with
  | 12 => Some (a +u k0, b +u k1, c +u k2)
  | 11 => Some (a +u k0, b +u k1, c +u Z.land k2 0xffffff)
  | 10 => Some (a +u k0, b +u k1, c +u Z.land k2 0xffff)
  | 9 => Some (a +u k0, b +u k1, c +u Z.land k2 0xff)
  | 8 => Some (a +u k0, b +u k1, c)
  | 7 => Some (a +u k0, b +u Z.land k1 0xffffff, c)
  | 6 => Some (a +u k0, b +u Z.land k1 0xffff, c)
  | 5 => Some (a +u k0, b +u Z.land k1 0xff, c)
  | 4 => Some (a +u k0, b, c)
  | 3 => Some (a +u Z.land k0 0xffffff, b, c)
  | 2 => Some (a +u Z.land k0 0xffff, b, c)
  | 1 => Some (a +u Z.land k0 0xff, b, c)
  | _ => None
  end.

(** Key at an odd multiple of 2: 16-bit loads. *)
Definition word_aligned2 (k : byte_mem) (i : Z) : Z := load16 k i +u (load16 k (i + 2) <<u 16).

Definition last_aligned2 (k : byte_mem) (i length : Z) (s : Z * Z * Z) : option (Z * Z * Z) :=
  let '(a, b, c) := s in
  let w := word_aligned2 k in
  match length with
  | 12 => Some (a +u w i, b +u w (i + 4), c +u w (i + 8))
  | 11 => Some (a +u w i, b +u w (i + 4), (c +u (k (i + 10) <<u 16)) +u load16 k (i + 8))
  | 10 => Some (a +u w i, b +u w (i + 4), c +u load16 k (i + 8))
  | 9 => Some (a +u w i, b +u w (i + 4), c +u k (i + 8))
  | 8 => Some (a +u w i, b +u w (i + 4), c)
  | 7 => Some (a +u w i, (b +u (k (i + 6) <<u 16)) +u load16 k (i + 4), c)
  | 6 => Some (a +u w i, b +u load16 k (i + 4), c)
  | 5 => Some (a +u w i, b +u k (i + 4), c)
  | 4 => Some (a +u w i, b, c)
  | 3 => Some ((a +u (k (i + 2) <<u 16)) +u load16 k i, b, c)
  | 2 => Some (a +u load16 k i, b, c)
  | 1 => Some (a +u k i, b, c)
  | _ => None
  end.

(** Any other key: byte loads, added one after the other. *)
Definition add_byte (k : byte_mem) (i sh n : Z) (length x : Z) : Z :=
  if n <=? length then x +u (k i <<u sh) else x.

(** Four bytes added to [x], low byte first. *)
Definition add_bytes (k : byte_mem) (i x : Z) : Z :=
  (((x +u k i) +u (k (i + 1) <<u 8)) +u (k (i + 2) <<u 16)) +u (k (i + 3) <<u 24).

(** [switch(length)] with every case falling through: the word at [i] gets
    the bytes the key still has, high byte first. *)
Definition last_bytes (k : byte_mem) (i n length x : Z) : Z :=
  let x := add_byte k (i + 3) 24 (n + 4) length x in
  let x := add_byte k (i + 2) 16 (n + 3) length x in
  let x := add_byte k (i + 1) 8 (n + 2) length x in
  add_byte k i 0 (n + 1) length x.

Fixpoint jenkins_blocks_bytes (fuel : nat) (k : byte_mem) (i length : Z) (s : Z * Z * Z)
    : Z * Z * (Z * Z * Z) :=
  if 12 <? length then
    match fuel with
    | O => (i, length, s)
    | S fuel' =>
        let '(a, b, c) := s in
        jenkins_blocks_bytes fuel' k (i + 12) (length - 12)
          (jenkins_mix (add_bytes k i a, add_bytes k (i + 4) b, add_bytes k (i + 8) c))
    end
  else (i, length, s).

Definition last_unaligned (k : byte_mem) (i length : Z) (s : Z * Z * Z) : option (Z * Z * Z) :=
  let '(a, b, c) := s in
  if (1 <=? length) && (length <=? 12)
  then Some (last_bytes k i 0 length a, last_bytes k (i + 4) 4 length b, last_bytes k (i + 8) 8 length c)
  else None.

(** [addr] is the address of the key. *)
Definition hash_jenkins (addr : Z) (k : byte_mem) (length : Z) : Z :=
  let init := (0xdeadbeef +u u32 length) +u JENKINS_INITVAL in
  let s := (init, init, init) in
  let fuel := Z.to_nat length in
  let '(_, _, c0, last) :=
    if Z.land addr 3 =? 0 then
      let '(i, rest, s) := jenkins_blocks word_aligned4 fuel k 0 length s in
      (i, rest, s, last_aligned4 k i rest s)
    else if Z.land addr 1 =? 0 then
      let '(i, rest, s) := jenkins_blocks word_aligned2 fuel k 0 length s in
      (i, rest, s, last_aligned2 k i rest s)
    else
      let '(i, rest, s) := jenkins_blocks_bytes fuel k 0 length s in
      (i, rest, s, last_unaligned k i rest s) in
  match last with
  | Some s => jenkins_final s
  | None => snd c0
  end.
