(* ===== verification/HashFacts.v ===== *)
(** What the hash functions compute: FNV, CRC and Jenkins against reference
    definitions, and the range of every hash. *)

From S2P Require Import Prelude HashKit.

Local Open Scope cint_scope.
Local Open Scope Z_scope.

(** ** FNV-1a *)

(** 64-bit FNV-1a, as its authors define it (the bytes sign-extended as the
    code reads them). *)
Definition fnv1a_64_ref (key : list Z) : Z :=
  fold_left (fun hash b => u64 (Z.lxor hash (u64 (schar b)) * FNV_64_PRIME)) key FNV_64_INIT.

Lemma u32_fnv_step h b :
  u32 (u64 (Z.lxor h (u64 (schar b)) * FNV_64_PRIME)) =
  (u32 h ^u u32 (schar b)) *u u32 FNV_64_PRIME.
Proof.
  autorewrite with cint. rewrite <- (u32_mul_l (Z.lxor h _)), u32_lxor. by autorewrite with cint.
Qed.

(** hash_fnv1a_64 works on 32-bit integers throughout; what it returns is
    the low half of the 64-bit FNV-1a hash of the key. *)
Theorem hash_fnv1a_64_low32 (key : list Z) : hash_fnv1a_64 key = u32 (fnv1a_64_ref key).
Proof.
  unfold hash_fnv1a_64, fnv1a_64_ref.
  generalize FNV_64_INIT. induction key as [|b key IH]; intros h; simpl; [done|].
  by rewrite <- IH, u32_fnv_step.
Qed.

(** ** CRC-32 *)

(** One bit of the reflected CRC-32 with polynomial 0xEDB88320, and one byte. *)
Definition crc32_bit (c : Z) : Z :=
  if Z.odd c then Z.lxor (Z.shiftr c 1) 0xEDB88320 else Z.shiftr c 1.
Definition crc32_byte (c b : Z) : Z := Nat.iter 8 crc32_bit (Z.lxor c b).
Definition crc32_ref (key : list Z) : Z := Z.lxor (fold_left crc32_byte key UINT32_MAX) UINT32_MAX.

Lemma odd_lxor x y : Z.odd (Z.lxor x y) = xorb (Z.odd x) (Z.odd y).
Proof. by rewrite <- !Z.bit0_odd, Z.lxor_spec. Qed.

Lemma crc32_bit_lxor x y : crc32_bit (Z.lxor x y) = Z.lxor (crc32_bit x) (crc32_bit y).
Proof.
  unfold crc32_bit. rewrite odd_lxor, Z.shiftr_lxor.
  destruct (Z.odd x), (Z.odd y); simpl xorb; cbv iota;
    apply Z.bits_inj'; intros i Hi; rewrite !Z.lxor_spec;
    repeat (match goal with |- context [Z.testbit ?a i] => destruct (Z.testbit a i) end); done.
Qed.

Lemma iter_crc32_lxor n x y :
  Nat.iter n crc32_bit (Z.lxor x y) = Z.lxor (Nat.iter n crc32_bit x) (Nat.iter n crc32_bit y).
Proof. induction n as [|n IH]; simpl; [done|]. by rewrite IH, crc32_bit_lxor. Qed.

(** Bits shifted in from the left reach the register unchanged. *)
Lemma iter_crc32_shiftl n x :
  Nat.iter n crc32_bit (Z.shiftl x (Z.of_nat n)) = x.
Proof.
  induction n as [|n IH]; [apply Z.shiftl_0_r|]. rewrite Nat.iter_succ_r.
  assert (Hb : crc32_bit (Z.shiftl x (Z.of_nat (S n))) = Z.shiftl x (Z.of_nat n)); [|by rewrite Hb].
  unfold crc32_bit. rewrite <- Z.bit0_odd, Z.shiftl_spec_low by lia.
  rewrite Z.shiftr_shiftl_l by lia. f_equal. lia.
Qed.

(** Low byte and the rest. *)
Lemma split_low8 x : x = Z.lxor (Z.land x 255) (Z.shiftl (Z.shiftr x 8) 8).
Proof.
  apply Z.bits_inj'. intros i Hi. change 255 with (Z.ones 8).
  rewrite Z.lxor_spec, Z.land_spec, Z.shiftl_spec by lia.
  destruct (decide (i < 8)).
  - rewrite Z.ones_spec_low, (Z.testbit_neg_r _ (i - 8)) by lia. by rewrite andb_true_r, xorb_false_r.
  - rewrite Z.ones_spec_high, Z.shiftr_spec by lia. rewrite andb_false_r. simpl. f_equal. lia.
Qed.

(** A table of 256 entries that agrees with [f]. *)
Lemma table_ok (tab : list Z) (f : Z -> Z) x :
  tab = map f (map Z.of_nat (seq 0 256)) -> default 0 (rd tab (Z.land x 255)) = f (Z.land x 255).
Proof.
  intros ->. change 255 with (Z.ones 8). rewrite Z.land_ones by lia.
  pose proof (Z.mod_pos_bound x (2 ^ 8) ltac:(lia)) as Hb. set (n := x mod 2 ^ 8) in *. clearbody n.
  unfold rd. destruct (Z.leb_spec 0 n); [|lia].
  rewrite !list_lookup_fmap, lookup_seq_lt by lia. simpl. f_equal. lia.
Qed.

Lemma crc32tab_bits : crc32tab = map (Nat.iter 8 crc32_bit) (map Z.of_nat (seq 0 256)).
Proof. vm_compute. reflexivity. Qed.

Lemma crc32a_step_bits c b : crc32a_step c b = crc32_byte c b \/ b < 0 \/ 256 <= b.
Proof.
  destruct (decide (0 <= b < 256)) as [Hb|]; [left|right; lia]. unfold crc32a_step, crc32_byte.
  rewrite (table_ok _ _ _ crc32tab_bits). rewrite (split_low8 (Z.lxor c b)) at 2.
  rewrite iter_crc32_lxor, (iter_crc32_shiftl 8). f_equal. rewrite Z.shiftr_lxor.
  replace (Z.shiftr b 8) with 0; [by rewrite Z.lxor_0_r|].
  rewrite Z.shiftr_div_pow2 by lia. symmetry. apply Z.div_small. lia.
Qed.

(** Masking forgets the sign extension of a [char]. *)
Lemma schar_low8 b : is_u8 b -> Z.land (schar b) 255 = b.
Proof.
  unfold is_u8, schar, swrap. intros Hb. change 255 with (Z.ones 8). rewrite Z.land_ones by lia.
  change (2 ^ (8 - 1)) with 128. change (2 ^ 8) with 256.
  destruct (decide (b < 128)).
  - rewrite (Z.mod_small (b + 128)) by lia. rewrite Z.mod_small by lia. lia.
  - replace ((b + 128) mod 256) with (b - 128) by (apply Z.mod_unique_pos with 1; lia).
    symmetry. apply Z.mod_unique_pos with (-1); lia.
Qed.

Lemma wrap_low8 w z : 8 <= w -> Z.land (wrap w z) 255 = Z.land z 255.
Proof.
  intros Hw. apply Z.bits_inj'. intros i Hi. change 255 with (Z.ones 8).
  rewrite !Z.land_spec, wrap_testbit by lia.
  destruct (decide (i < 8)); [|by rewrite Z.ones_spec_high, !andb_false_r by lia].
  destruct (Z.ltb_spec i w); [done|lia].
Qed.

Lemma land_lxor x y m : Z.land (Z.lxor x y) m = Z.lxor (Z.land x m) (Z.land y m).
Proof.
  apply Z.bits_inj'. intros i Hi. rewrite Z.lxor_spec, !Z.land_spec, Z.lxor_spec.
  by destruct (Z.testbit x i), (Z.testbit y i), (Z.testbit m i).
Qed.

(** The index the table loops use. *)
Lemma index_low8 w c b : 8 <= w -> is_u8 b -> Z.land (Z.lxor c (wrap w (schar b))) 255 = Z.land (Z.lxor c b) 255.
Proof.
  intros Hw Hb. rewrite !land_lxor, wrap_low8, schar_low8 by done. f_equal. change 255 with (Z.ones 8).
  rewrite Z.land_ones by lia. symmetry. apply Z.mod_small. exact Hb.
Qed.

Lemma crc32_step_bits c b : is_u8 b -> crc32_step c b = crc32_byte c b.
Proof.
  intros Hb. destruct (crc32a_step_bits c b) as [<-|Hx]; [|unfold is_u8 in Hb; lia].
  unfold crc32_step, crc32a_step, u64. rewrite index_low8 by (done || lia). apply Z.lxor_comm.
Qed.

Lemma fold_left_eq {A B} (f g : A -> B -> A) (P : B -> Prop) l a :
  (forall a b, P b -> f a b = g a b) -> Forall P l -> fold_left f l a = fold_left g l a.
Proof. intros H Hl. revert a. induction Hl; intros a; simpl; [done|]. by rewrite H. Qed.

(** Shifting the register right keeps it a 32-bit word. *)
Lemma crc32_bit_range c : is_u32 c -> is_u32 (crc32_bit c).
Proof.
  unfold is_u32, crc32_bit. intros Hc. destruct (Z.odd c).
  - apply lxor_range; [lia|apply shiftr_range; lia|lia].
  - apply shiftr_range; lia.
Qed.

Lemma crc32_fold_range key c :
  Forall is_u8 key -> is_u32 c -> is_u32 (fold_left crc32_byte key c).
Proof.
  intros Hk. revert c. induction Hk as [|b key Hb Hk IH]; intros c Hc; simpl; [done|].
  apply IH. unfold crc32_byte.
  assert (is_u32 (Z.lxor c b)) by (apply lxor_range; unfold is_u8, is_u32 in *; lia).
  do 8 (simpl; apply crc32_bit_range). done.
Qed.

(** On 32 bits, complementing is xor with all ones. *)
Lemma u32_lnot c : is_u32 c -> u32 (Z.lnot c) = Z.lxor c UINT32_MAX.
Proof.
  intros Hc. apply Z.bits_inj'. intros i Hi. unfold u32, UINT32_MAX. change 4294967295 with (Z.ones 32).
  rewrite wrap_testbit, Z.lnot_spec, Z.lxor_spec by lia.
  destruct (Z.ltb_spec i 32); simpl.
  - rewrite Z.ones_spec_low by lia. by rewrite xorb_true_r.
  - rewrite Z.ones_spec_high, (range_testbit 32 c) by (lia || exact Hc). done.
Qed.

(** hash_crc32a is CRC-32: the table-driven loop computes, for every key,
    what shifting the reflected polynomial 0xEDB88320 bit by bit computes;
    hash_crc32 keeps bits 16 to 30 of it. *)
Theorem hash_crc32_bitwise (key : list Z) :
  Forall is_u8 key ->
  hash_crc32a key = crc32_ref key /\ hash_crc32 key = Z.land (Z.shiftr (crc32_ref key) 16) 0x7fff.
Proof.
  intros Hk. unfold hash_crc32a, hash_crc32, crc32_ref.
  rewrite (fold_left_eq crc32a_step crc32_byte is_u8), (fold_left_eq crc32_step crc32_byte is_u8); try done.
  - split; [done|]. rewrite u32_lnot; [done|]. apply crc32_fold_range; [done|].
    unfold is_u32, UINT32_MAX. lia.
  - intros. by apply crc32_step_bits.
  - intros c b Hb. destruct (crc32a_step_bits c b); [done|unfold is_u8 in Hb; lia].
Qed.

Lemma hash_crc32_bitwise_witness :
  hash_crc32a (bytes_of "123456789") = crc32_ref (bytes_of "123456789") /\
  hash_crc32 (bytes_of "123456789") = Z.land (Z.shiftr (crc32_ref (bytes_of "123456789")) 16) 0x7fff.
Proof. apply hash_crc32_bitwise. repeat constructor; unfold is_u8; lia. Defined.

(** ** CRC-16 *)

(** One bit of CRC-16/XMODEM (polynomial 0x1021, most significant bit first)
    and one byte. *)
Definition crc16_bit (c : Z) : Z :=
  if Z.testbit c 15 then Z.lxor (u16 (Z.shiftl c 1)) 0x1021 else u16 (Z.shiftl c 1).
Definition crc16_byte (c b : Z) : Z := Nat.iter 8 crc16_bit (Z.lxor c (Z.shiftl b 8)).
Definition crc16_ref (key : list Z) : Z := fold_left crc16_byte key 0.

Lemma u16_lxor x y : u16 (Z.lxor x y) = Z.lxor (u16 x) (u16 y).
Proof.
  apply Z.bits_inj'. intros i Hi. unfold u16.
  rewrite wrap_testbit, !Z.lxor_spec, !wrap_testbit by lia. by destruct (i <? 16).
Qed.

Lemma crc16_bit_lxor x y : crc16_bit (Z.lxor x y) = Z.lxor (crc16_bit x) (crc16_bit y).
Proof.
  unfold crc16_bit. rewrite Z.lxor_spec, Z.shiftl_lxor, u16_lxor.
  destruct (Z.testbit x 15), (Z.testbit y 15); simpl xorb; cbv iota;
    apply Z.bits_inj'; intros i Hi; rewrite !Z.lxor_spec;
    repeat (match goal with |- context [Z.testbit ?a i] => destruct (Z.testbit a i) end); done.
Qed.

Lemma iter_crc16_lxor n x y :
  Nat.iter n crc16_bit (Z.lxor x y) = Z.lxor (Nat.iter n crc16_bit x) (Nat.iter n crc16_bit y).
Proof. induction n as [|n IH]; simpl; [done|]. by rewrite IH, crc16_bit_lxor. Qed.

Lemma crc16tab_bits :
  crc16tab = map (fun i => Nat.iter 8 crc16_bit (Z.shiftl i 8)) (map Z.of_nat (seq 0 256)).
Proof. vm_compute. reflexivity. Qed.

(** The low byte is shifted through untouched. *)
Lemma iter_crc16_low x : is_u8 x -> Nat.iter 8 crc16_bit x = Z.shiftl x 8.
Proof.
  intros Hx. assert (H : forallb (fun i => Nat.iter 8 crc16_bit i =? Z.shiftl i 8)
    (map Z.of_nat (seq 0 256)) = true) by (vm_compute; reflexivity).
  rewrite forallb_forall in H. apply Z.eqb_eq, H. apply in_map_iff. exists (Z.to_nat x).
  unfold is_u8 in Hx. split; [lia|]. apply in_seq. lia.
Qed.

Lemma u16_split c b :
  is_u8 b -> Z.lxor (u16 c) (Z.shiftl b 8) =
  Z.lxor (Z.land c 255) (Z.shiftl (Z.land (Z.lxor (Z.shiftr c 8) b) 255) 8).
Proof.
  intros Hb. apply Z.bits_inj'. intros i Hi. unfold u16. change 255 with (Z.ones 8).
  rewrite !Z.lxor_spec, wrap_testbit, Z.land_spec, !Z.shiftl_spec by lia.
  destruct (decide (i < 8)).
  - rewrite !(Z.testbit_neg_r _ (i - 8)), Z.ones_spec_low by lia.
    destruct (Z.ltb_spec i 16); [|lia]. by rewrite andb_true_r.
  - rewrite Z.ones_spec_high, Z.land_spec, Z.lxor_spec, Z.shiftr_spec by lia.
    replace (i - 8 + 8) with i by lia. destruct (decide (i < 16)).
    + rewrite Z.ones_spec_low by lia. destruct (Z.ltb_spec i 16); [|lia].
      rewrite andb_false_r, andb_true_r. by destruct (Z.testbit c i), (Z.testbit b (i - 8)).
    + rewrite Z.ones_spec_high, (range_testbit 8 b) by (unfold is_u8 in Hb; lia).
      destruct (Z.ltb_spec i 16); [lia|]. by rewrite !andb_false_r.
Qed.

Lemma crc16_bit_range c : 0 <= crc16_bit c < 2 ^ 16.
Proof.
  unfold crc16_bit, u16. pose proof (wrap_range 16 (Z.shiftl c 1) ltac:(lia)).
  destruct (Z.testbit c 15); [apply lxor_range; lia|done].
Qed.

Lemma crc16_step_bits c b : is_u8 b -> u16 (crc16_step c b) = crc16_byte (u16 c) b.
Proof.
  intros Hb. unfold crc16_byte, crc16_step, u32 at 2. change 0x00ff with 255.
  rewrite u16_split, iter_crc16_lxor by done. rewrite index_low8 by (done || lia).
  rewrite (table_ok _ _ _ crc16tab_bits). rewrite (iter_crc16_low (Z.land c 255)).
  2:{ unfold is_u8. change 255 with (Z.ones 8). rewrite Z.land_ones by lia.
      apply Z.mod_pos_bound. lia. }
  rewrite u16_lxor. f_equal.
  - apply Z.bits_inj'. intros i Hi. unfold u16, u32. change 255 with (Z.ones 8).
    rewrite !wrap_testbit, !Z.shiftl_spec, Z.land_spec by lia.
    destruct (decide (i < 8)); [by rewrite !(Z.testbit_neg_r _ (i - 8)), ?andb_false_r by lia|].
    destruct (Z.ltb_spec i 16), (Z.ltb_spec i 32); try lia;
      rewrite ?Z.ones_spec_low, ?Z.ones_spec_high, ?andb_true_r, ?andb_false_r by lia; done.
  - apply wrap_small. simpl. apply crc16_bit_range.
Qed.

(** The low 16 bits of hash_crc16 are CRC-16/XMODEM of the key. *)
Theorem hash_crc16_bitwise (key : list Z) : Forall is_u8 key -> u16 (hash_crc16 key) = crc16_ref key.
Proof.
  intros Hk. unfold hash_crc16, crc16_ref. change 0 with (u16 0) at 2. generalize 0.
  induction Hk as [|b key Hb Hk IH]; intros c; simpl; [done|].
  by rewrite IH, crc16_step_bits.
Qed.

Lemma hash_crc16_bitwise_witness :
  u16 (hash_crc16 (bytes_of "123456789")) = crc16_ref (bytes_of "123456789").
Proof. apply hash_crc16_bitwise. repeat constructor; unfold is_u8; lia. Defined.

(** hash_crc16 does not mask its register to 16 bits: what was shifted out
    of the checksum stays in the hash, and keys of three bytes already hash
    outside the 16-bit range. *)
Theorem hash_crc16_not_masked : 2 ^ 16 <= hash_crc16 (bytes_of "foo").
Proof. vm_compute. discriminate. Qed.

(** ** Jenkins *)

(** The little-endian value of up to four bytes. *)
Definition le_value (l : list Z) : Z := foldr (fun b v => b + 256 * v) 0 l.

Definition add_word (x : Z) (l : list Z) : Z :=
  match l with [] => x | _ => x +u le_value l end.

(** lookup3 on a list of bytes, over its mixing functions: blocks of twelve,
    the last of one to twelve. *)
Section Lookup3.
Variables (addw : Z -> list Z -> Z) (mix : Z * Z * Z -> Z * Z * Z) (fin : Z * Z * Z -> Z).

Fixpoint lookup3 (key : list Z) (s : Z * Z * Z) : Z :=
  let '(a, b, c) := s in
  let last := fin (addw a (take 4 key), addw b (take 4 (drop 4 key)), addw c (take 4 (drop 8 key))) in
  match key with
  | [] => c
  | k0 :: k1 :: k2 :: k3 :: k4 :: k5 :: k6 :: k7 :: k8 :: k9 :: k10 :: k11 :: rest =>
      match rest with
      | [] => last
      | _ => lookup3 rest (mix (addw a [k0; k1; k2; k3], addw b [k4; k5; k6; k7],
                                addw c [k8; k9; k10; k11]))
      end
  | _ => last
  end.

(** A key of at most one block. *)
Lemma lookup3_short key a b c :
  zlen key <= 12 -> lookup3 key (a, b, c) =
  match key with
  | [] => c
  | _ => fin (addw a (take 4 key), addw b (take 4 (drop 4 key)), addw c (take 4 (drop 8 key)))
  end.
Proof.
  intros Hs. do 13 (destruct key as [|? key]; [reflexivity|]).
  exfalso. rewrite !zlen_cons in Hs. pose proof (zlen_nonneg key). lia.
Qed.

Lemma lookup3_block k0 k1 k2 k3 k4 k5 k6 k7 k8 k9 k10 k11 rest a b c :
  0 < zlen rest ->
  lookup3 (k0 :: k1 :: k2 :: k3 :: k4 :: k5 :: k6 :: k7 :: k8 :: k9 :: k10 :: k11 :: rest) (a, b, c) =
  lookup3 rest (mix (addw a [k0; k1; k2; k3], addw b [k4; k5; k6; k7], addw c [k8; k9; k10; k11])).
Proof. destruct rest; [|reflexivity]. unfold zlen. simpl. lia. Qed.

End Lookup3.

Definition jenkins_ref : list Z -> Z * Z * Z -> Z := lookup3 add_word jenkins_mix jenkins_final.

(** [k] holds [key] from offset [i] on. *)
Definition holds (k : byte_mem) (i : Z) (key : list Z) : Prop :=
  forall j b, rd key j = Some b -> k (i + j) = b.

Lemma holds_mem key tail : holds (mem_of key tail) 0 key.
Proof.
  intros j b Hj. unfold mem_of. rewrite Z.add_0_l, rd_app_l by (by apply rd_Some_range in Hj; lia).
  by rewrite Hj.
Qed.

Lemma holds_cons k i b key : holds k i (b :: key) -> k i = b /\ holds k (i + 1) key.
Proof.
  intros H. split.
  - rewrite <- (H 0 b) by done. f_equal. lia.
  - intros j x Hj. rewrite <- (H (1 + j) x); [f_equal; lia|].
    pose proof (rd_Some_range _ _ _ Hj). change (b :: key) with ([b] ++ key).
    rewrite rd_app_r by (unfold zlen; simpl; lia).
    replace (1 + j - zlen [b]) with j by (unfold zlen; simpl; lia). done.
Qed.

Lemma holds_drop k i n key : holds k i key -> holds k (i + Z.of_nat n) (drop n key).
Proof.
  revert i key. induction n as [|n IH]; intros i key H.
  - by rewrite Z.add_0_r.
  - destruct key as [|b key]; [intros j x Hj; apply rd_Some_range in Hj; unfold zlen in Hj; simpl in Hj; lia|].
    apply holds_cons in H as [_ H]. simpl.
    replace (i + Z.of_nat (S n)) with (i + 1 + Z.of_nat n) by lia. by apply IH.
Qed.

(** Name the bytes a list gives to memory. *)
Ltac holds_all :=
  repeat match goal with
  | H : holds ?k ?i (_ :: _) |- _ => apply holds_cons in H as [?Hb H]
  end.

Ltac fold_offsets :=
  repeat match goal with
  | H : context [?i + ?a + ?b] |- _ =>
      is_var i; let c := eval vm_compute in (a + b) in replace (i + a + b) with (i + c) in H by lia
  end.

Lemma u32_add_l2 x y z : u32 (u32 x + y + z) = u32 (x + y + z).
Proof. rewrite <- !Z.add_assoc. apply u32_add_l. Qed.

(** Sums of shifted bytes, with and without the intermediate truncations. *)
Ltac usum :=
  autorewrite with cint; rewrite ?u32_add_l2, ?Z.shiftl_mul_pow2 by lia; f_equal; lia.

(** Four bytes in memory are added as one word. *)
Lemma add_bytes_word k i x b0 b1 b2 b3 l :
  holds k i (b0 :: b1 :: b2 :: b3 :: l) -> add_bytes k i x = add_word x [b0; b1; b2; b3].
Proof.
  intros H. holds_all. fold_offsets. subst. unfold add_bytes, add_word, le_value. simpl. usum.
Qed.

(** The tail of the key, up to four bytes, is added as one word. *)
Lemma last_bytes_word k i n len x l :
  holds k i l -> l = [] /\ len <= n \/ len = n + zlen l ->
  last_bytes k i n len x = add_word x (take 4 l).
Proof.
  intros H Hl. unfold last_bytes, add_byte.
  do 4 (try (destruct l as [|? l])); holds_all; fold_offsets; subst;
    rewrite ?zlen_cons in Hl; unfold zlen in Hl; simpl in Hl;
    (destruct Hl as [[? ?]|Hl]; [try done|]); zcase; try done.
  all: unfold add_word, le_value; simpl; rewrite ?Z.shiftl_0_r; usum.
Qed.

Lemma jenkins_last_ref k i key a b c :
  holds k i key -> zlen key <= 12 ->
  match last_unaligned k i (zlen key) (a, b, c) with Some s => jenkins_final s | None => c end =
  jenkins_ref key (a, b, c).
Proof.
  intros Hk Hs. unfold last_unaligned.
  assert (Hw : forall n x, last_bytes k (i + Z.of_nat n) (Z.of_nat n) (zlen key) x =
                           add_word x (take 4 (drop n key))).
  { intros n x. apply last_bytes_word; [by apply holds_drop|].
    unfold zlen. rewrite length_drop. destruct (decide (n < length key)%nat); [right; lia|].
    left. rewrite drop_ge by lia. split; [done|lia]. }
  pose proof (Hw 0%nat a) as Ha. pose proof (Hw 4%nat b) as Hb. pose proof (Hw 8%nat c) as Hc.
  rewrite Z.add_0_r, drop_0 in Ha. change (Z.of_nat 0) with 0 in *.
  change (Z.of_nat 4) with 4 in *. change (Z.of_nat 8) with 8 in *. rewrite Ha, Hb, Hc.
  unfold jenkins_ref. rewrite lookup3_short by done. destruct key as [|x key]; [exact eq_refl|].
  rewrite zlen_cons in *. pose proof (zlen_nonneg key).
  destruct (Z.leb_spec 1 (1 + zlen key)); [|lia]. destruct (Z.leb_spec (1 + zlen key) 12); [|lia].
  simpl andb. cbv iota. reflexivity.
Qed.

Lemma jenkins_bytes_ref fuel k i key s :
  holds k i key -> zlen key <= Z.of_nat fuel ->
  (let '(i', rest, s') := jenkins_blocks_bytes fuel k i (zlen key) s in
   match last_unaligned k i' rest s' with Some s => jenkins_final s | None => snd s' end) =
  jenkins_ref key s.
Proof.
  revert i key s. induction fuel as [|fuel IH]; intros i key [[a b] c] Hk Hf.
  { destruct key as [|x key]; [done|rewrite zlen_cons in Hf; pose proof (zlen_nonneg key); lia]. }
  cbn [jenkins_blocks_bytes]. destruct (Z.ltb_spec 12 (zlen key)) as [Hlong|Hshort];
    [|by apply jenkins_last_ref].
  do 12 (destruct key as [|? key]; [unfold zlen in Hlong; simpl in Hlong; lia|]).
  pose proof (holds_drop _ _ 4 _ Hk) as Hk4. pose proof (holds_drop _ _ 8 _ Hk) as Hk8.
  pose proof (holds_drop _ _ 12 _ Hk) as Hk12. simpl in Hk4, Hk8, Hk12.
  rewrite drop_0 in Hk12.
  rewrite (add_bytes_word _ _ _ _ _ _ _ _ Hk), (add_bytes_word _ _ _ _ _ _ _ _ Hk4),
    (add_bytes_word _ _ _ _ _ _ _ _ Hk8).
  rewrite !zlen_cons in *.
  match goal with |- context [jenkins_blocks_bytes fuel k (i + 12) ?n _] =>
    replace n with (zlen key) by lia end.
  rewrite (IH _ _ _ Hk12) by lia. unfold jenkins_ref. by rewrite lookup3_block by lia.
Qed.

(** The three ways of reading give the same words. *)

Lemma jenkins_blocks_eq word fuel k i length s :
  (forall j x, x +u word k j = add_bytes k j x) ->
  jenkins_blocks word fuel k i length s = jenkins_blocks_bytes fuel k i length s.
Proof.
  intros Hw. revert i length s. induction fuel as [|fuel IH]; intros i length [[a b] c]; simpl; [done|].
  by rewrite !Hw, IH.
Qed.

Section Words.
Variable k : byte_mem.
Hypothesis Hk : forall i, is_u8 (k i).

Lemma word_aligned4_bytes i x : x +u word_aligned4 k i = add_bytes k i x.
Proof. unfold word_aligned4, load32, add_bytes. usum. Qed.

(** A 16-bit load shifted to the high half of a word loses nothing. *)
Lemma load16_high i : (load16 k i <<u 16) = (k i + k (i + 1) * 256) * 65536.
Proof.
  pose proof (Hk i). pose proof (Hk (i + 1)). unfold load16, is_u8 in *.
  rewrite !Z.shiftl_mul_pow2 by lia. apply u32_small. unfold is_u32. lia.
Qed.

Lemma word_aligned2_bytes i x : x +u word_aligned2 k i = add_bytes k i x.
Proof.
  unfold word_aligned2. rewrite load16_high. unfold load16, add_bytes.
  replace (i + 2 + 1) with (i + 3) by lia. usum.
Qed.

(** Masking a 32-bit load keeps its low bytes. *)
Lemma load32_mask i :
  Z.land (load32 k i) 0xff = k i /\ Z.land (load32 k i) 0xffff = load16 k i /\
  Z.land (load32 k i) 0xffffff = load16 k i + Z.shiftl (k (i + 2)) 16.
Proof.
  pose proof (Hk i). pose proof (Hk (i + 1)). pose proof (Hk (i + 2)). pose proof (Hk (i + 3)).
  unfold load32, load16, is_u8 in *. rewrite !Z.shiftl_mul_pow2 by lia.
  change 0xff with (Z.ones 8). change 0xffff with (Z.ones 16). change 0xffffff with (Z.ones 24).
  rewrite !Z.land_ones by lia. split_and!; symmetry.
  - apply Z.mod_unique_pos with (k (i + 1) + k (i + 2) * 2 ^ 8 + k (i + 3) * 2 ^ 16); lia.
  - apply Z.mod_unique_pos with (k (i + 2) + k (i + 3) * 2 ^ 8); lia.
  - apply Z.mod_unique_pos with (k (i + 3)); lia.
Qed.

(** The bytes of the last block that fall into one word. *)
Lemma last_bytes_4 i n len x : n + 4 <= len -> last_bytes k i n len x = x +u load32 k i.
Proof. intros. unfold last_bytes, add_byte, load32. zcase. rewrite Z.shiftl_0_r. usum. Qed.
Lemma last_bytes_3 i n len x :
  len = n + 3 -> last_bytes k i n len x = x +u (load16 k i + Z.shiftl (k (i + 2)) 16).
Proof. intros. unfold last_bytes, add_byte, load16. zcase. rewrite Z.shiftl_0_r. usum. Qed.
Lemma last_bytes_2 i n len x : len = n + 2 -> last_bytes k i n len x = x +u load16 k i.
Proof. intros. unfold last_bytes, add_byte, load16. zcase. rewrite Z.shiftl_0_r. usum. Qed.
Lemma last_bytes_1 i n len x : len = n + 1 -> last_bytes k i n len x = x +u k i.
Proof. intros. unfold last_bytes, add_byte. zcase. rewrite Z.shiftl_0_r. usum. Qed.
Lemma last_bytes_0 i n len x : len <= n -> last_bytes k i n len x = x.
Proof. intros. unfold last_bytes, add_byte. zcase; done. Qed.

(** [switch(length)] case by case. *)
Ltac last_cases length :=
  destruct length as [|length|]; [reflexivity| |reflexivity];
  do 4 (try (destruct length as [length|length|])); try reflexivity;
  match goal with |- context [if ?c then _ else _] => replace c with true by reflexivity end;
  rewrite ?last_bytes_4, ?last_bytes_3, ?last_bytes_2, ?last_bytes_1, ?last_bytes_0 by lia.

Lemma last_aligned4_bytes i length s : last_aligned4 k i length s = last_unaligned k i length s.
Proof.
  destruct s as [[a b] c]. unfold last_aligned4, last_unaligned.
  destruct (load32_mask i) as (E1 & E2 & E3). destruct (load32_mask (i + 4)) as (F1 & F2 & F3).
  destruct (load32_mask (i + 8)) as (G1 & G2 & G3).
  rewrite ?E1, ?E2, ?E3, ?F1, ?F2, ?F3, ?G1, ?G2, ?G3. last_cases length; reflexivity.
Qed.

Lemma last_aligned2_bytes i length s : last_aligned2 k i length s = last_unaligned k i length s.
Proof.
  destruct s as [[a b] c]. unfold last_aligned2, last_unaligned. cbv zeta.
  assert (Hw : forall j x, x +u word_aligned2 k j = x +u load32 k j)
    by (intros j x; rewrite word_aligned2_bytes; symmetry; apply word_aligned4_bytes).
  assert (Hh : forall j x, (x +u (k (j + 2) <<u 16)) +u load16 k j =
                           x +u (load16 k j + Z.shiftl (k (j + 2)) 16)) by (intros; usum).
  pose proof (Hh i a) as Ha. pose proof (Hh (i + 4) b) as Hb. pose proof (Hh (i + 8) c) as Hc.
  replace (i + 4 + 2) with (i + 6) in * by lia. replace (i + 8 + 2) with (i + 10) in * by lia.
  rewrite !Hw, Ha, Hb, Hc.
  last_cases length; try reflexivity.
  - by replace (i + 8 + 2) with (i + 10) by lia.
  - by replace (i + 4 + 2) with (i + 6) by lia.
Qed.

End Words.

Lemma hash_jenkins_ref (addr : Z) (key tail : list Z) :
  Forall is_u8 key -> Forall is_u8 tail ->
  hash_jenkins addr (mem_of key tail) (zlen key) =
  let init := (0xdeadbeef +u u32 (zlen key)) +u JENKINS_INITVAL in
  jenkins_ref key (init, init, init).
Proof.
  intros Hk Ht. set (k := mem_of key tail).
  assert (Hu8 : forall i, is_u8 (k i)).
  { intros i. unfold k, mem_of, rd. destruct (0 <=? i); simpl; [|unfold is_u8; lia].
    destruct (_ !! _) eqn:E; simpl; [|unfold is_u8; lia].
    eapply Forall_lookup_1; [|exact E]. by apply Forall_app. }
  unfold hash_jenkins. set (s0 := (_, _, _)).
  rewrite (jenkins_blocks_eq word_aligned4), (jenkins_blocks_eq word_aligned2)
    by (intros; first [apply word_aligned4_bytes|by apply word_aligned2_bytes]).
  pose proof (jenkins_bytes_ref (Z.to_nat (zlen key)) k 0 key s0 (holds_mem key tail)) as H.
  rewrite <- H by (pose proof (zlen_nonneg key); lia). clear H.
  destruct (jenkins_blocks_bytes _ _ _ _ _) as [[i rest] s].
  destruct (Z.land addr 3 =? 0), (Z.land addr 1 =? 0);
    by rewrite ?last_aligned4_bytes, ?last_aligned2_bytes by done.
Qed.

(** hash_jenkins is lookup3 of the key's bytes: the aligned 32-bit path,
    the 16-bit path and the byte path agree, so the hash depends neither on
    the address of the key nor on the memory after it, though two of the
    paths load words that reach past the end; and its loop ends. *)
Theorem hash_jenkins_lookup3 (addr : Z) (key tail : list Z) :
  Forall is_u8 key -> Forall is_u8 tail ->
  hash_jenkins addr (mem_of key tail) (zlen key) =
  let init := (0xdeadbeef +u u32 (zlen key)) +u JENKINS_INITVAL in
  jenkins_ref key (init, init, init).
Proof. apply hash_jenkins_ref. Qed.

Lemma hash_jenkins_lookup3_witness :
  hash_jenkins 4096 (mem_of (bytes_of "apple") [255; 1; 2; 3]) 5 = 1442444624.
Proof.
  change 5 with (zlen (bytes_of "apple")).
  rewrite (hash_jenkins_lookup3 4096 (bytes_of "apple") [255; 1; 2; 3]).
  - vm_compute. reflexivity.
  - repeat constructor; unfold is_u8; lia.
  - repeat constructor; unfold is_u8; lia.
Defined.

(** ** Murmur2 and Hsieh on lists of bytes *)

(** Murmur2, four bytes at a time, then the rest. *)
Fixpoint murmur_body (key : list Z) (h : Z) : Z :=
  match key with
  | b0 :: b1 :: b2 :: b3 :: rest =>
      let w := le_value [b0; b1; b2; b3] *u murmur_m in
      let w := w ^u (w >>u 24) in
      murmur_body rest ((h *u murmur_m) ^u (w *u murmur_m))
  | [b0; b1; b2] => (((h ^u (b2 <<u 16)) ^u (b1 <<u 8)) ^u b0) *u murmur_m
  | [b0; b1] => ((h ^u (b1 <<u 8)) ^u b0) *u murmur_m
  | [b0] => (h ^u b0) *u murmur_m
  | [] => h
  end.

(** Hsieh's SuperFastHash, four bytes at a time, then the rest. *)
Fixpoint hsieh_body (key : list Z) (hash : Z) : Z :=
  match key with
  | b0 :: b1 :: b2 :: b3 :: rest =>
      let hash := hash +u le_value [b0; b1] in
      let tmp := (u32 (le_value [b2; b3]) <<u 11) ^u hash in
      let hash := (hash <<u 16) ^u tmp in
      hsieh_body rest (hash +u (hash >>u 11))
  | [b0; b1; b2] =>
      let hash := hash +u le_value [b0; b1] in
      let hash := hash ^u (hash <<u 16) in
      let hash := hash ^u (u32 (schar b2) <<u 18) in
      hash +u (hash >>u 11)
  | [b0; b1] =>
      let hash := hash +u le_value [b0; b1] in
      let hash := hash ^u (hash <<u 11) in
      hash +u (hash >>u 17)
  | [b0] =>
      let hash := hash +u b0 in
      let hash := hash ^u (hash <<u 10) in
      hash +u (hash >>u 1)
  | [] => hash
  end.

Lemma holds_cons4 k i b0 b1 b2 b3 l :
  holds k i (b0 :: b1 :: b2 :: b3 :: l) ->
  k i = b0 /\ k (i + 1) = b1 /\ k (i + 2) = b2 /\ k (i + 3) = b3 /\ holds k (i + 4) l.
Proof. intros H. holds_all. fold_offsets. by split_and!. Qed.

Lemma murmur_loop_body fuel k i key h :
  holds k i key -> zlen key <= Z.of_nat fuel ->
  (let '(i', rest, h') := murmur_loop fuel k i (zlen key) h in murmur_tail k i' rest h') =
  murmur_body key h.
Proof.
  revert i key h. induction fuel as [|fuel IH]; intros i key h Hk Hf.
  { destruct key as [|x key]; [done|rewrite zlen_cons in Hf; pose proof (zlen_nonneg key); lia]. }
  cbn [murmur_loop]. destruct (Z.leb_spec 4 (zlen key)) as [Hlong|Hshort].
  - do 4 (destruct key as [|? key]; [unfold zlen in Hlong; simpl in Hlong; lia|]).
    apply holds_cons4 in Hk as (H0 & H1 & H2 & H3 & Hk). rewrite !zlen_cons in *.
    match goal with |- context [murmur_loop fuel k (i + 4) ?n _] => replace n with (zlen key) by lia end.
    rewrite (IH _ _ _ Hk) by lia. cbn [murmur_body]. unfold load32. rewrite H0, H1, H2, H3.
    rewrite !Z.shiftl_mul_pow2 by lia. unfold le_value; simpl foldr.
    match goal with |- context [u32 (?x * murmur_m)] =>
      match goal with |- _ = murmur_body key (_ ^u ((u32 (?y * murmur_m) ^u _) *u _)) =>
        replace y with x by lia end end. done.
  - do 4 (try (destruct key as [|? key])); holds_all; fold_offsets; subst; try done.
    exfalso. rewrite !zlen_cons in Hshort. pose proof (zlen_nonneg key). lia.
Qed.

Lemma get16bits_value k i : get16bits k i = u32 (le_value [k i; k (i + 1)]).
Proof. unfold get16bits, le_value; simpl. usum. Qed.

Lemma hsieh_loop_body n k i key hash :
  holds k i key -> Z.of_nat n = zlen key / 4 ->
  (let '(i', h) := hsieh_loop k n i hash in hsieh_rem k (zlen key mod 4) i' h) = hsieh_body key hash.
Proof.
  revert i key hash. induction n as [|n IH]; intros i key hash Hk Hn.
  - assert (zlen key < 4) by (pose proof (zlen_nonneg key); Z.div_mod_to_equations; lia).
    do 4 (try (destruct key as [|? key]));
      [done|..|exfalso; rewrite !zlen_cons in *; pose proof (zlen_nonneg key); lia].
    all: holds_all; fold_offsets; subst.
    all: unfold zlen; simpl length; simpl hsieh_loop; cbv iota.
    all: rewrite Z.mod_small by lia; simpl; rewrite ?get16bits_value; by autorewrite with cint.
  - assert (Hl : 4 <= zlen key) by (Z.div_mod_to_equations; lia).
    do 4 (destruct key as [|? key]; [unfold zlen in Hl; simpl in Hl; lia|]).
    apply holds_cons4 in Hk as (H0 & H1 & H2 & H3 & Hk). rewrite !zlen_cons in *.
    replace (_ mod 4) with (zlen key mod 4) by (Z.div_mod_to_equations; lia).
    cbn [hsieh_loop]. rewrite (IH _ _ _ Hk) by (Z.div_mod_to_equations; lia).
    cbn [hsieh_body]. rewrite !get16bits_value. replace (i + 2 + 1) with (i + 3) by lia.
    rewrite H0, H1, H2, H3. by autorewrite with cint.
Qed.

Lemma hash_murmur_hsieh_ref (key tail : list Z) :
  (hash_murmur (mem_of key tail) (zlen key) =
   let n := u32 (zlen key) in
   let h := murmur_body key ((0xdeadbeef *u n) ^u n) in
   let h := h ^u (h >>u 13) in let h := h *u murmur_m in h ^u (h >>u 15)) /\
  (key <> [] -> hash_hsieh (mem_of key tail) (zlen key) =
   let hash := hsieh_body key 0 in
   let hash := hash ^u (hash <<u 3) in let hash := hash +u (hash >>u 5) in
   let hash := hash ^u (hash <<u 4) in let hash := hash +u (hash >>u 17) in
   let hash := hash ^u (hash <<u 25) in hash +u (hash >>u 6)).
Proof.
  pose proof (zlen_nonneg key). split.
  - unfold hash_murmur. cbv zeta.
    rewrite <- (murmur_loop_body (Z.to_nat (zlen key)) _ 0 key _ (holds_mem key tail)) by lia.
    by destruct (murmur_loop _ _ _ _ _) as [[i rest] h].
  - intros Hne. unfold hash_hsieh. destruct (Z.leb_spec (zlen key) 0) as [Hz|_].
    { destruct key; [done|]. rewrite zlen_cons in Hz. pose proof (zlen_nonneg key). lia. }
    assert (Hr : Z.land (zlen key) 3 = zlen key mod 4)
      by (change 3 with (Z.ones 2); by rewrite Z.land_ones by lia).
    assert (Hq : Z.shiftr (zlen key) 2 = zlen key / 4) by (by rewrite Z.shiftr_div_pow2 by lia).
    rewrite Hr, Hq. cbv zeta.
    rewrite <- (hsieh_loop_body (Z.to_nat (zlen key / 4)) _ 0 key 0 (holds_mem key tail))
      by (rewrite Z2Nat.id; [done|apply Z.div_pos; lia]).
    by destruct (hsieh_loop _ _ _ _) as [i h].
Qed.

(** hash_murmur is Murmur2 and hash_hsieh is SuperFastHash of the key's
    bytes: whatever follows the key in memory has no influence, and the loops
    end with the whole key consumed. *)
Theorem hash_murmur_hsieh_bytes (key tail : list Z) :
  (hash_murmur (mem_of key tail) (zlen key) =
   let n := u32 (zlen key) in
   let h := murmur_body key ((0xdeadbeef *u n) ^u n) in
   let h := h ^u (h >>u 13) in let h := h *u murmur_m in h ^u (h >>u 15)) /\
  (key <> [] -> hash_hsieh (mem_of key tail) (zlen key) =
   let hash := hsieh_body key 0 in
   let hash := hash ^u (hash <<u 3) in let hash := hash +u (hash >>u 5) in
   let hash := hash ^u (hash <<u 4) in let hash := hash +u (hash >>u 17) in
   let hash := hash ^u (hash <<u 25) in hash +u (hash >>u 6)).
Proof. apply hash_murmur_hsieh_ref. Qed.

Lemma hash_murmur_hsieh_bytes_witness :
  hash_murmur (mem_of (bytes_of "apple") [255]) 5 = hash_murmur (mem_of (bytes_of "apple") []) 5 /\
  hash_hsieh (mem_of (bytes_of "apple") [255]) 5 = hash_hsieh (mem_of (bytes_of "apple") []) 5.
Proof.
  change 5 with (zlen (bytes_of "apple")). split.
  - rewrite (proj1 (hash_murmur_hsieh_bytes (bytes_of "apple") [255])).
    by rewrite (proj1 (hash_murmur_hsieh_bytes (bytes_of "apple") [])).
  - rewrite (proj2 (hash_murmur_hsieh_bytes (bytes_of "apple") [255])) by done.
    by rewrite (proj2 (hash_murmur_hsieh_bytes (bytes_of "apple") [])) by done.
Defined.

(** ** Ranges *)

Lemma xor_u32 x y : is_u32 x -> is_u32 y -> is_u32 (x ^u y).
Proof. unfold is_u32. intros. by apply lxor_range. Qed.

Lemma shr_u32 x n : 0 <= n -> is_u32 x -> is_u32 (x >>u n).
Proof. unfold is_u32. intros. by apply shiftr_range. Qed.

#[export] Hint Resolve xor_u32 : cint.
#[export] Hint Extern 1 (is_u32 (Z.shiftr _ _)) => apply shr_u32; [lia|] : cint.
