(* ===== verification/Md5.v ===== *)
(** MD5 as in hashkit/nc_md5.c, and RFC 1321.

    [MD5_CTX] keeps the length in [lo] (29 bits of bytes) and [hi]; [buffer]
    holds the bytes of the last, incomplete block.  A call of [STEP] updates
    its first register; the source writes the registers in the rotated order
    (a, b, c, d), (d, a, b, c), ..., which is a rotation of the tuple here. *)

From S2P Require Import Prelude HashKit.

Local Open Scope cint_scope.
Local Open Scope Z_scope.

Record md5_ctx := mk_ctx {
  lo : Z; hi : Z;
  abcd : Z * Z * Z * Z;
  buffer : list Z
}.

(** The basic functions, in the form without AND-NOT. *)
Definition md5_F (x y z : Z) : Z := Z.lxor z (Z.land x (Z.lxor y z)).
Definition md5_G (x y z : Z) : Z := Z.lxor y (Z.land z (Z.lxor x y)).
Definition md5_H (x y z : Z) : Z := Z.lxor (Z.lxor x y) z.
Definition md5_I (x y z : Z) : Z := Z.lxor y (Z.lor x (u32 (Z.lnot z))).

(** The rotation of a 32-bit word in STEP. *)
Definition md5_rot (a s : Z) : Z := Z.lor (a <<u s) (Z.land a 0xffffffff >>u (32 - s)).

(** STEP(f, a, b, c, d, x, t, s), then the registers rotated. *)
Definition md5_step (f : Z -> Z -> Z -> Z) (block : byte_mem) (r : Z * Z * Z * Z) (e : Z * Z * Z)
    : Z * Z * Z * Z :=
  let '(a, b, c, d) := r in
  let '(n, t, s) := e in
  let a := a +u ((f b c d +u load32 block (n * 4)) +u t) in
  let a := md5_rot a s in
  (d, a +u b, b, c).

(** The message word, the constant and the shift of each STEP. *)
Definition md5_round1 : list (Z * Z * Z) :=
  [(0, 0xd76aa478, 7); (1, 0xe8c7b756, 12); (2, 0x242070db, 17); (3, 0xc1bdceee, 22);
   (4, 0xf57c0faf, 7); (5, 0x4787c62a, 12); (6, 0xa8304613, 17); (7, 0xfd469501, 22);
   (8, 0x698098d8, 7); (9, 0x8b44f7af, 12); (10, 0xffff5bb1, 17); (11, 0x895cd7be, 22);
   (12, 0x6b901122, 7); (13, 0xfd987193, 12); (14, 0xa679438e, 17); (15, 0x49b40821, 22)].

Definition md5_round2 : list (Z * Z * Z) :=
  [(1, 0xf61e2562, 5); (6, 0xc040b340, 9); (11, 0x265e5a51, 14); (0, 0xe9b6c7aa, 20);
   (5, 0xd62f105d, 5); (10, 0x02441453, 9); (15, 0xd8a1e681, 14); (4, 0xe7d3fbc8, 20);
   (9, 0x21e1cde6, 5); (14, 0xc33707d6, 9); (3, 0xf4d50d87, 14); (8, 0x455a14ed, 20);
   (13, 0xa9e3e905, 5); (2, 0xfcefa3f8, 9); (7, 0x676f02d9, 14); (12, 0x8d2a4c8a, 20)].

Definition md5_round3 : list (Z * Z * Z) :=
  [(5, 0xfffa3942, 4); (8, 0x8771f681, 11); (11, 0x6d9d6122, 16); (14, 0xfde5380c, 23);
   (1, 0xa4beea44, 4); (4, 0x4bdecfa9, 11); (7, 0xf6bb4b60, 16); (10, 0xbebfbc70, 23);
   (13, 0x289b7ec6, 4); (0, 0xeaa127fa, 11); (3, 0xd4ef3085, 16); (6, 0x04881d05, 23);
   (9, 0xd9d4d039, 4); (12, 0xe6db99e5, 11); (15, 0x1fa27cf8, 16); (2, 0xc4ac5665, 23)].

Definition md5_round4 : list (Z * Z * Z) :=
  [(0, 0xf4292244, 6); (7, 0x432aff97, 10); (14, 0xab9423a7, 15); (5, 0xfc93a039, 21);
   (12, 0x655b59c3, 6); (3, 0x8f0ccc92, 10); (10, 0xffeff47d, 15); (1, 0x85845dd1, 21);
   (8, 0x6fa87e4f, 6); (15, 0xfe2ce6e0, 10); (6, 0xa3014314, 15); (13, 0x4e0811a1, 21);
   (4, 0xf7537e82, 6); (11, 0xbd3af235, 10); (2, 0x2ad7d2bb, 15); (9, 0xeb86d391, 21)].

Definition md5_rounds (F G H I : Z -> Z -> Z -> Z) (block : byte_mem) (r : Z * Z * Z * Z)
    : Z * Z * Z * Z :=
  let r := fold_left (md5_step F block) md5_round1 r in
  let r := fold_left (md5_step G block) md5_round2 r in
  let r := fold_left (md5_step H block) md5_round3 r in
  fold_left (md5_step I block) md5_round4 r.

Definition md5_add (r s : Z * Z * Z * Z) : Z * Z * Z * Z :=
  let '(a, b, c, d) := r in
  let '(sa, sb, sc, sd) := s in
  (a +u sa, b +u sb, c +u sc, d +u sd).

(** One turn of the loop of [body] on the 64 bytes at the head of [data]. *)
Definition md5_block (r : Z * Z * Z * Z) (data : list Z) : Z * Z * Z * Z :=
  md5_add (md5_rounds md5_F md5_G md5_H md5_I (mem_of data []) r) r.

(** [body] over [n] blocks ([size = 64 * n]); the result carries the data
    after them. *)
Fixpoint md5_body (n : nat) (r : Z * Z * Z * Z) (data : list Z) : (Z * Z * Z * Z) * list Z :=
  match n with
  | O => (r, data)
  | S n' => md5_body n' (md5_block r (take 64 data)) (drop 64 data)
  end.

(** [garbage] is the uninitialised buffer of the automatic variable. *)
Definition MD5_Init (garbage : list Z) : md5_ctx :=
  mk_ctx 0 0 (0x67452301, 0xefcdab89, 0x98badcfe, 0x10325476) garbage.

Definition MD5_Update (ctx : md5_ctx) (data : list Z) : md5_ctx :=
  let size := zlen data in
  let saved_lo := lo ctx in
  let lo' := Z.land (u64 (saved_lo + size)) 0x1fffffff in
  let hi1 := if lo' <? saved_lo then u32 (hi ctx + 1) else hi ctx in
  let hi' := u32 (hi1 + Z.shiftr size 29) in
  let used := Z.land saved_lo 0x3f in
  let tail r data size :=
    let '(r, data) :=
      if 64 <=? size then md5_body (Z.to_nat (Z.shiftr size 6)) r data else (r, data) in
    let size := if 64 <=? size then Z.land size 0x3f else size in
    mk_ctx lo' hi' r (blit (buffer ctx) 0 (take (Z.to_nat size) data)) in
  if used =? 0 then tail (abcd ctx) data size
  else
    let free := 64 - used in
    if size <? free then mk_ctx lo' hi' (abcd ctx) (blit (buffer ctx) used data)
    else
      let buffer := blit (buffer ctx) used (take (Z.to_nat free) data) in
      tail (fst (md5_body 1 (abcd ctx) buffer)) (drop (Z.to_nat free) data) (size - free).

Definition byte_of (x sh : Z) : Z := u8 (x >>u sh).

(** The four bytes of a word, low byte first. *)
Definition put_word (x : Z) : list Z := [byte_of x 0; byte_of x 8; byte_of x 16; byte_of x 24].

Definition MD5_Final (ctx : md5_ctx) : list Z :=
  let used := Z.land (lo ctx) 0x3f in
  let buf := blit (buffer ctx) used [0x80] in
  let used := used + 1 in
  let free := 64 - used in
  let '(r, buf, used, free) :=
    if free <? 8 then
      let buf := blit buf used (replicate (Z.to_nat free) 0) in
      (fst (md5_body 1 (abcd ctx) buf), buf, 0, 64)
    else (abcd ctx, buf, used, free) in
  let buf := blit buf used (replicate (Z.to_nat (free - 8)) 0) in
  let lo' := lo ctx <<u 3 in
  let buf := blit buf 56 (put_word lo') in
  let buf := blit buf 60 (put_word (hi ctx)) in
  let '(a, b, c, d) := fst (md5_body 1 r buf) in
  put_word a ++ put_word b ++ put_word c ++ put_word d.

Definition md5_signature (garbage key : list Z) : list Z :=
  MD5_Final (MD5_Update (MD5_Init garbage) key).

(** The first four bytes of the digest. *)
Definition hash_md5 (garbage key : list Z) : Z :=
  let results := md5_signature garbage key in
  let byte i := Z.land (default 0 (rd results i)) 0xFF in
  Z.lor (Z.lor (Z.lor (byte 3 <<u 24) (byte 2 <<u 16)) (byte 1 <<u 8)) (byte 0).

(** ** RFC 1321

    The reference is written from the text of the RFC alone and shares no
    definition with the functions above: its own table, word operations,
    schedule, padding and output. *)
Module Rfc.

(** T[1], ..., T[64] of section 3.4. *)
Definition T : list Z :=
  [0xd76aa478; 0xe8c7b756; 0x242070db; 0xc1bdceee; 0xf57c0faf; 0x4787c62a; 0xa8304613; 0xfd469501;
   0x698098d8; 0x8b44f7af; 0xffff5bb1; 0x895cd7be; 0x6b901122; 0xfd987193; 0xa679438e; 0x49b40821;
   0xf61e2562; 0xc040b340; 0x265e5a51; 0xe9b6c7aa; 0xd62f105d; 0x02441453; 0xd8a1e681; 0xe7d3fbc8;
   0x21e1cde6; 0xc33707d6; 0xf4d50d87; 0x455a14ed; 0xa9e3e905; 0xfcefa3f8; 0x676f02d9; 0x8d2a4c8a;
   0xfffa3942; 0x8771f681; 0x6d9d6122; 0xfde5380c; 0xa4beea44; 0x4bdecfa9; 0xf6bb4b60; 0xbebfbc70;
   0x289b7ec6; 0xeaa127fa; 0xd4ef3085; 0x04881d05; 0xd9d4d039; 0xe6db99e5; 0x1fa27cf8; 0xc4ac5665;
   0xf4292244; 0x432aff97; 0xab9423a7; 0xfc93a039; 0x655b59c3; 0x8f0ccc92; 0xffeff47d; 0x85845dd1;
   0x6fa87e4f; 0xfe2ce6e0; 0xa3014314; 0x4e0811a1; 0xf7537e82; 0xbd3af235; 0x2ad7d2bb; 0xeb86d391].

(** The complement of a word, and the four auxiliary functions. *)
Definition not32 (x : Z) : Z := Z.lxor x (2 ^ 32 - 1).
Definition F (x y z : Z) : Z := Z.lor (Z.land x y) (Z.land (not32 x) z).
Definition G (x y z : Z) : Z := Z.lor (Z.land x z) (Z.land y (not32 z)).
Definition H (x y z : Z) : Z := Z.lxor x (Z.lxor y z).
Definition I (x y z : Z) : Z := Z.lxor y (Z.lor x (not32 z)).

(** [x <<< s], on words. *)
Definition rotl (x s : Z) : Z := (x * 2 ^ s) mod 2 ^ 32 + x / 2 ^ (32 - s).

(** The function, the word of the block and the shift of operation [i], and
    the operation: a = b + ((a + f(b,c,d) + X[k] + T[i]) <<< s), after which
    the four registers change their roles. *)
Definition aux (i : nat) : Z -> Z -> Z -> Z :=
  match (i / 16)%nat with 0%nat => F | 1%nat => G | 2%nat => H | _ => I end.

Definition word_of (i : nat) : nat :=
  ((match i / 16 with 0 => i | 1 => 1 + 5 * i | 2 => 5 + 3 * i | _ => 7 * i end) mod 16)%nat.

Definition shift_of (i : nat) : Z :=
  nth (i mod 4)%nat
    (match (i / 16)%nat with
     | 0%nat => [7; 12; 17; 22] | 1%nat => [5; 9; 14; 20] | 2%nat => [4; 11; 16; 23] | _ => [6; 10; 15; 21]
     end) 0.

Definition operation (X : list Z) (r : Z * Z * Z * Z) (i : nat) : Z * Z * Z * Z :=
  let '(a, b, c, d) := r in
  let sum := (a + aux i b c d + nth (word_of i) X 0 + nth i T 0) mod 2 ^ 32 in
  (d, (b + rotl sum (shift_of i)) mod 2 ^ 32, b, c).

(** A block as sixteen words, low-order byte first; the 64 operations on it,
    and the addition of the registers at its start. *)
Definition word (b0 b1 b2 b3 : Z) : Z := b0 + 2 ^ 8 * b1 + 2 ^ 16 * b2 + 2 ^ 24 * b3.

Definition words (data : list Z) : list Z :=
  map (fun k => let b j := nth (4 * k + j) data 0 in word (b 0%nat) (b 1%nat) (b 2%nat) (b 3%nat)) (seq 0 16).

Definition block (r : Z * Z * Z * Z) (data : list Z) : Z * Z * Z * Z :=
  let '(aa, bb, cc, dd) := r in
  let '(a, b, c, d) := fold_left (operation (words data)) (seq 0 64) r in
  ((a + aa) mod 2 ^ 32, (b + bb) mod 2 ^ 32, (c + cc) mod 2 ^ 32, (d + dd) mod 2 ^ 32).

(** The bytes of [x], [n] of them, low-order byte first. *)
Fixpoint bytes (n : nat) (x : Z) : list Z :=
  match n with O => [] | S n => x mod 2 ^ 8 :: bytes n (x / 2 ^ 8) end.

(** A one bit, zero bits up to 448 modulo 512, and the length in bits as a
    64-bit number. *)
Definition pad (key : list Z) : list Z :=
  key ++ [0x80] ++ replicate (Z.to_nat ((55 - zlen key) mod 64)) 0 ++ bytes 8 (8 * zlen key).

Fixpoint blocks (n : nat) (r : Z * Z * Z * Z) (data : list Z) : Z * Z * Z * Z :=
  match n with
  | O => r
  | S n => blocks n (block r (take 64 data)) (drop 64 data)
  end.

Definition digest (r : Z * Z * Z * Z) : list Z :=
  let '(a, b, c, d) := r in bytes 4 a ++ bytes 4 b ++ bytes 4 c ++ bytes 4 d.

(** The word A is the bytes 01 23 45 67, and so on. *)
Definition init : Z * Z * Z * Z :=
  (word 0x01 0x23 0x45 0x67, word 0x89 0xab 0xcd 0xef, word 0xfe 0xdc 0xba 0x98, word 0x76 0x54 0x32 0x10).

Definition md5 (key : list Z) : list Z :=
  digest (blocks (length (pad key) / 64) init (pad key)).

(** A digest in the notation of the test suite. *)
Definition hex_char (n : Z) : Z := if n <? 10 then 48 + n else 87 + n.
Definition hex (l : list Z) : list Z := l ≫= fun b => [hex_char (b / 16); hex_char (b mod 16)].

(** The test suite of appendix A.5. *)
Example suite_1 : hex (md5 []) = bytes_of "d41d8cd98f00b204e9800998ecf8427e".
Proof. vm_compute. reflexivity. Qed.

Example suite_2 : hex (md5 (bytes_of "a")) = bytes_of "0cc175b9c0f1b6a831c399e269772661".
Proof. vm_compute. reflexivity. Qed.

Example suite_3 : hex (md5 (bytes_of "abc")) = bytes_of "900150983cd24fb0d6963f7d28e17f72".
Proof. vm_compute. reflexivity. Qed.

Example suite_4 : hex (md5 (bytes_of "message digest")) = bytes_of "f96b697d7cb7938d525a2f31aaf161d0".
Proof. vm_compute. reflexivity. Qed.

Example suite_5 :
  hex (md5 (bytes_of "abcdefghijklmnopqrstuvwxyz")) = bytes_of "c3fcd3d76192e4007dfb496cca67e13b".
Proof. vm_compute. reflexivity. Qed.

Example suite_6 :
  hex (md5 (bytes_of "ABCDEFGHIJKLMNOPQRSTUVWXYZabcdefghijklmnopqrstuvwxyz0123456789")) =
  bytes_of "d174ab98d277d9f5a5611c2c9f419d9f".
Proof. vm_compute. reflexivity. Qed.

Example suite_7 :
  hex (md5 (bytes_of "12345678901234567890123456789012345678901234567890123456789012345678901234567890")) =
  bytes_of "57edf4a22be3c955ac49da2e2107b67a".
Proof. vm_compute. reflexivity. Qed.

End Rfc.

(** ** The implementation is RFC 1321 *)

Definition word32 (x : Z) : Prop := 0 <= x < 2 ^ 32.
Definition regs32 (r : Z * Z * Z * Z) : Prop :=
  let '(a, b, c, d) := r in word32 a /\ word32 b /\ word32 c /\ word32 d.

Lemma word32_mod x : word32 (x mod 2 ^ 32).
Proof. apply Z.mod_pos_bound. lia. Qed.

Lemma word32_high x i : word32 x -> 32 <= i -> Z.testbit x i = false.
Proof. intros Hx Hi. by apply (range_testbit 32). Qed.

Lemma not32_bit x i : 0 <= i -> word32 x ->
  Z.testbit (Rfc.not32 x) i = (i <? 32) && negb (Z.testbit x i).
Proof.
  intros Hi Hx. unfold Rfc.not32. change (2 ^ 32 - 1) with (Z.ones 32). rewrite Z.lxor_spec.
  destruct (Z.ltb_spec i 32).
  - rewrite Z.ones_spec_low by lia. by destruct (Z.testbit x i).
  - rewrite Z.ones_spec_high, word32_high by (done || lia). done.
Qed.

Ltac md5_bits :=
  intros Hx Hy Hz; apply Z.bits_inj'; intros i Hi;
  rewrite ?Z.lxor_spec, ?Z.land_spec, ?Z.lor_spec, ?not32_bit by (done || lia);
  rewrite ?Z.lxor_spec, ?Z.land_spec, ?not32_bit by (done || lia);
  destruct (Z.ltb_spec i 32); simpl; try rewrite !word32_high by (done || lia);
  repeat match goal with |- context [Z.testbit ?v i] => destruct (Z.testbit v i) end; done.

Lemma md5_F_rfc x y z : word32 x -> word32 y -> word32 z -> md5_F x y z = Rfc.F x y z.
Proof. unfold md5_F, Rfc.F. md5_bits. Qed.

Lemma md5_G_rfc x y z : word32 x -> word32 y -> word32 z -> md5_G x y z = Rfc.G x y z.
Proof. unfold md5_G, Rfc.G. md5_bits. Qed.

Lemma md5_H_rfc x y z : word32 x -> word32 y -> word32 z -> md5_H x y z = Rfc.H x y z.
Proof. unfold md5_H, Rfc.H. md5_bits. Qed.

Lemma u32_lnot_not32 z : word32 z -> u32 (Z.lnot z) = Rfc.not32 z.
Proof.
  intros Hz. apply Z.bits_inj'. intros i Hi. rewrite not32_bit by done. unfold u32, wrap.
  destruct (Z.ltb_spec i 32).
  - rewrite Z.mod_pow2_bits_low, Z.lnot_spec by lia. done.
  - by rewrite Z.mod_pow2_bits_high by lia.
Qed.

Lemma md5_I_rfc x y z : word32 x -> word32 y -> word32 z -> md5_I x y z = Rfc.I x y z.
Proof. intros. unfold md5_I, Rfc.I. by rewrite u32_lnot_not32. Qed.

Lemma md5_rot_rfc x s : word32 x -> 0 < s < 32 -> md5_rot x s = Rfc.rotl x s.
Proof.
  intros Hx Hs. unfold md5_rot, Rfc.rotl, u32, wrap. change 0xffffffff with (Z.ones 32).
  rewrite Z.land_ones, (Z.mod_small x) by (lia || exact Hx).
  rewrite Z.shiftl_mul_pow2, Z.shiftr_div_pow2 by lia.
  assert (Hq : (x * 2 ^ s) mod 2 ^ 32 = Z.shiftl (x mod 2 ^ (32 - s)) s).
  { rewrite Z.shiftl_mul_pow2 by lia. replace 32 with (32 - s + s) at 1 by lia.
    rewrite Z.pow_add_r by lia. by rewrite Z.mul_mod_distr_r by lia. }
  rewrite Hq, Z.add_nocarry_lxor, Z.lxor_lor; [done|..];
    apply Z.bits_inj'; intros i Hi; rewrite Z.land_spec, Z.bits_0;
    (destruct (Z.ltb_spec i s);
     [by rewrite Z.shiftl_spec_low by lia
     |rewrite (range_testbit s (x / _)); [by rewrite andb_false_r|lia| |lia]]).
  all: unfold word32 in Hx; split; [apply Z.div_pos; [apply Hx|lia]|]; apply Z.div_lt_upper_bound; [lia|];
    rewrite <- Z.pow_add_r by lia; replace (32 - s + s) with 32 by lia; apply Hx.
Qed.

Lemma words_load data k : (k < 16)%nat ->
  nth k (Rfc.words data) 0 = load32 (mem_of data []) (Z.of_nat k * 4).
Proof.
  intros Hk. unfold Rfc.words. rewrite nth_lookup, list_lookup_fmap, lookup_seq_lt by done.
  cbn -[Nat.mul Nat.add Z.add Z.mul Z.pow load32 nth Rfc.word].
  assert (Hb : forall j, (0 <= j) -> mem_of data [] (Z.of_nat k * 4 + j) = nth (4 * k + Z.to_nat j) data 0).
  { intros j Hj. unfold mem_of, rd. rewrite app_nil_r, nth_lookup.
    destruct (Z.leb_spec 0 (Z.of_nat k * 4 + j)); [|lia].
    by replace (Z.to_nat (Z.of_nat k * 4 + j)) with (4 * k + Z.to_nat j)%nat by lia. }
  unfold load32, Rfc.word. replace (mem_of data [] (Z.of_nat k * 4)) with (mem_of data [] (Z.of_nat k * 4 + 0)) by (f_equal; lia).
  rewrite !Hb by lia. rewrite !Z.shiftl_mul_pow2 by lia.
  change (Z.to_nat 0) with 0%nat. change (Z.to_nat 1) with 1%nat. change (Z.to_nat 2) with 2%nat.
  change (Z.to_nat 3) with 3%nat. change (0 + k)%nat with k. lia.
Qed.

(** What a row of the tables must say to be operation [i]. *)
Definition row_ok (e : Z * Z * Z) (i : nat) : bool :=
  let '(n, t, s) := e in
  (n =? Z.of_nat (Rfc.word_of i)) && (t =? nth i Rfc.T 0) && (s =? Rfc.shift_of i) &&
  (0 <? s) && (s <? 32).

Lemma md5_step_rfc f data r e i :
  (forall x y z, word32 x -> word32 y -> word32 z -> f x y z = Rfc.aux i x y z) ->
  row_ok e i = true -> regs32 r ->
  md5_step f (mem_of data []) r e = Rfc.operation (Rfc.words data) r i /\
  regs32 (Rfc.operation (Rfc.words data) r i).
Proof.
  destruct r as [[[a b] c] d], e as [[n t] s]. intros Hf He (Ha & Hb & Hc & Hd). unfold row_ok in He.
  split; [|exact (conj Hd (conj (word32_mod _) (conj Hb Hc)))].
  apply andb_prop in He as [[[[->%Z.eqb_eq ->%Z.eqb_eq]%andb_prop Hs%Z.eqb_eq]%andb_prop
    Hs0%Z.ltb_lt]%andb_prop Hs1%Z.ltb_lt].
  unfold md5_step, Rfc.operation. rewrite Hf, Hs by done.
  rewrite words_load by (apply Nat.mod_upper_bound; lia).
  set (w := load32 _ _). set (T := nth i Rfc.T 0). set (v := Rfc.aux i b c d).
  replace (a +u (v +u w +u T)) with ((a + v + w + T) mod 2 ^ 32).
  2:{ unfold u32, wrap. rewrite Zplus_mod_idemp_l, Zplus_mod_idemp_r. f_equal. lia. }
  rewrite md5_rot_rfc by (apply word32_mod || lia). unfold u32, wrap. by rewrite (Z.add_comm b).
Qed.

Lemma md5_round_rfc f data tbl ops r :
  (forall i x y z, i ∈ ops -> word32 x -> word32 y -> word32 z -> f x y z = Rfc.aux i x y z) ->
  Forall2 (fun e i => row_ok e i = true) tbl ops -> regs32 r ->
  fold_left (md5_step f (mem_of data [])) tbl r = fold_left (Rfc.operation (Rfc.words data)) ops r /\
  regs32 (fold_left (Rfc.operation (Rfc.words data)) ops r).
Proof.
  intros Hf Ht. revert r Hf. induction Ht as [|e i tbl ops He _ IH]; intros r Hf Hr; [done|].
  simpl. destruct (md5_step_rfc f data r e i) as [-> Hr'];
    [intros; apply Hf; [left|..]|..]; try done.
  apply IH; [|done]. intros. apply Hf; [by right|done..].
Qed.

Lemma aux_round k f :
  (forall x y z, word32 x -> word32 y -> word32 z -> f x y z = Rfc.aux (16 * k) x y z) ->
  forall i x y z, i ∈ seq (16 * k) 16 -> word32 x -> word32 y -> word32 z -> f x y z = Rfc.aux i x y z.
Proof.
  intros Hf i x y z Hi Hx Hy Hz. rewrite elem_of_seq in Hi. rewrite Hf by done. unfold Rfc.aux.
  replace (i / 16)%nat with k by (apply Nat.div_unique with (i - 16 * k)%nat; lia).
  by replace (16 * k / 16)%nat with k by (apply Nat.div_unique with 0%nat; lia).
Qed.

Lemma md5_block_rfc r data : regs32 r -> md5_block r data = Rfc.block r data.
Proof.
  intros Hr. unfold md5_block, md5_rounds, Rfc.block.
  change (seq 0 64) with (seq (16 * 0) 16 ++ seq (16 * 1) 16 ++ seq (16 * 2) 16 ++ seq (16 * 3) 16).
  rewrite !fold_left_app.
  destruct (md5_round_rfc md5_F data md5_round1 (seq (16 * 0) 16) r) as [-> H1];
    [apply aux_round, md5_F_rfc|repeat constructor|done|].
  destruct (md5_round_rfc md5_G data md5_round2 (seq (16 * 1) 16) _
    (aux_round 1 _ md5_G_rfc) ltac:(repeat constructor) H1) as [-> H2].
  destruct (md5_round_rfc md5_H data md5_round3 (seq (16 * 2) 16) _
    (aux_round 2 _ md5_H_rfc) ltac:(repeat constructor) H2) as [-> H3].
  destruct (md5_round_rfc md5_I data md5_round4 (seq (16 * 3) 16) _
    (aux_round 3 _ md5_I_rfc) ltac:(repeat constructor) H3) as [-> H4].
  destruct r as [[[aa bb] cc] dd]. by destruct (fold_left _ (seq (16 * 3) 16) _) as [[[a b] c] d].
Qed.

Lemma block_regs32 r data : regs32 (Rfc.block r data).
Proof.
  destruct r as [[[aa bb] cc] dd]. unfold Rfc.block.
  destruct (fold_left _ _ _) as [[[a b] c] d]. repeat split; apply word32_mod.
Qed.

Lemma blocks_regs32 n r data : regs32 r -> regs32 (Rfc.blocks n r data).
Proof. revert r data. induction n as [|n IH]; intros; [done|]. simpl. apply IH, block_regs32. Qed.

Lemma md5_body_rfc n r data : regs32 r -> fst (md5_body n r data) = Rfc.blocks n r data.
Proof.
  revert r data. induction n as [|n IH]; intros; simpl; [done|].
  rewrite md5_block_rfc by done. apply IH, block_regs32.
Qed.

Lemma put_word_rfc x : put_word x = Rfc.bytes 4 x.
Proof.
  unfold put_word, byte_of, u8, wrap. rewrite Z.shiftr_0_r, !Z.shiftr_div_pow2 by lia. simpl Rfc.bytes.
  rewrite !Z.div_div by lia. done.
Qed.

Lemma bytes_app n m x :
  Rfc.bytes (n + m) x = Rfc.bytes n x ++ Rfc.bytes m (x / 2 ^ (8 * Z.of_nat n)).
Proof.
  revert x. induction n as [|n IH]; intros x.
  - change (8 * Z.of_nat 0) with 0. by rewrite Z.div_1_r.
  - simpl Nat.add. cbn [Rfc.bytes]. rewrite IH. simpl app. do 3 f_equal.
    rewrite Z.div_div by lia. rewrite <- Z.pow_add_r by lia. do 2 f_equal. lia.
Qed.

Lemma bytes_mod n x : Rfc.bytes n (x mod 2 ^ (8 * Z.of_nat n)) = Rfc.bytes n x.
Proof.
  revert x. induction n as [|n IH]; intros x; [done|]. cbn [Rfc.bytes].
  replace (8 * Z.of_nat (S n)) with (8 + 8 * Z.of_nat n) by lia. rewrite Z.pow_add_r by lia.
  rewrite Z.rem_mul_r by lia. rewrite (Z.mul_comm (2 ^ 8)). f_equal.
  - rewrite Z_mod_plus_full. by rewrite Z.mod_mod by lia.
  - rewrite Z.div_add by lia. rewrite (Z.div_small (x mod 2 ^ 8)) by (apply Z.mod_pos_bound; lia). apply IH.
Qed.

(** The two words of the length. *)
Lemma length_words_rfc n :
  Rfc.bytes 8 n = put_word (u32 n) ++ put_word (u32 (Z.shiftr n 32)).
Proof.
  rewrite !put_word_rfc, Z.shiftr_div_pow2 by lia. unfold u32, wrap.
  change 32 with (8 * Z.of_nat 4). rewrite !bytes_mod. by rewrite (bytes_app 4 4).
Qed.

Lemma md5_body_rest n r data : snd (md5_body n r data) = drop (64 * n) data.
Proof.
  revert r data. induction n as [|n IH]; intros; simpl; [by rewrite drop_0|].
  rewrite IH, drop_drop. f_equal. lia.
Qed.

Lemma blocks_app n m r l1 l2 :
  length l1 = (64 * n)%nat -> Rfc.blocks (n + m) r (l1 ++ l2) = Rfc.blocks m (Rfc.blocks n r l1) l2.
Proof.
  revert r l1. induction n as [|n IH]; intros r l1 Hl.
  - destruct l1; [done|simpl in Hl; lia].
  - simpl. rewrite take_app_le, drop_app_le by lia. apply IH. rewrite length_drop. lia.
Qed.

Lemma blocks_prefix n r l1 l2 :
  length l1 = (64 * n)%nat -> Rfc.blocks n r (l1 ++ l2) = Rfc.blocks n r l1.
Proof.
  intros Hl. replace n with (n + 0)%nat at 1 by lia. by rewrite blocks_app.
Qed.

(** Writing over the tail of a buffer that is filled front to back. *)
Lemma blit_fill {A} (a l : list A) i src :
  zlen a = i -> length src = length l -> blit (a ++ l) i src = a ++ src.
Proof. intros Ha Hs. rewrite blit_app by done. by rewrite drop_ge, app_nil_r by lia. Qed.

(** The state after the whole key went through MD5_Update. *)
Lemma md5_update_init garbage key :
  length garbage = 64%nat -> zlen key < 2 ^ 64 ->
  exists g, length g = (64 - length key mod 64)%nat /\
  MD5_Update (MD5_Init garbage) key =
  mk_ctx (zlen key mod 2 ^ 29) (u32 (Z.shiftr (zlen key) 29))
    (Rfc.blocks (length key / 64) Rfc.init key)
    (drop (64 * (length key / 64)) key ++ g).
Proof.
  intros Hg Hk. pose proof (zlen_nonneg key).
  set (rem := drop (64 * (length key / 64)) key).
  pose proof (Nat.div_mod_eq (length key) 64) as Hdm.
  pose proof (Nat.mod_upper_bound (length key) 64 ltac:(lia)) as Hmb.
  assert (Hrem : length rem = (length key mod 64)%nat) by (unfold rem; rewrite length_drop; lia).
  exists (drop (length rem) garbage). split; [rewrite length_drop; lia|].
  assert (Hlow : forall x, 0 <= x -> Z.land x 0x3f = x mod 64)
    by (intros; change 0x3f with (Z.ones 6); by rewrite Z.land_ones by lia).
  unfold MD5_Update, MD5_Init. cbn [lo hi abcd buffer]. rewrite Hlow by lia. cbv zeta. simpl (0 mod 64 =? 0).
  change 0x1fffffff with (Z.ones 29). rewrite Z.land_ones by lia.
  unfold u64. rewrite (wrap_small 64) by lia. rewrite !Z.add_0_l.
  pose proof (Z.mod_pos_bound (zlen key) (2 ^ 29) ltac:(lia)).
  destruct (Z.ltb_spec (zlen key mod 2 ^ 29) 0); [lia|]. rewrite Z.add_0_l.
  change (0 mod 64 =? 0) with true. cbv iota.
  assert (Hbl : forall l, length l = length rem -> blit garbage 0 l = l ++ drop (length rem) garbage).
  { intros l <-. unfold blit. simpl. done. }
  destruct (Z.leb_spec 64 (zlen key)) as [Hge|Hlt].
  - rewrite Z.shiftr_div_pow2 by lia. change (2 ^ 6) with (Z.of_nat 64).
    assert (Hq : Z.to_nat (zlen key / Z.of_nat 64) = (length key / 64)%nat).
    { unfold zlen. by rewrite <- Nat2Z.inj_div, Nat2Z.id. }
    rewrite Hq. rewrite (surjective_pairing (md5_body _ _ _)), md5_body_rfc by by vm_compute.
    rewrite md5_body_rest. fold rem.
    rewrite Hlow by lia. rewrite take_ge, Hbl; [done|done|].
    rewrite Hrem. unfold zlen. change 64 with (Z.of_nat 64). rewrite <- Nat2Z.inj_mod. lia.
  - assert (Hq : (length key / 64 = 0)%nat) by (apply Nat.div_small; unfold zlen in Hlt; lia).
    assert (Hr : rem = key) by (unfold rem; by rewrite Hq).
    rewrite Hr, Hq in *. simpl. rewrite take_ge by (unfold zlen; lia). rewrite Hbl; done.
Qed.

(** The last one or two blocks: what MD5_Final puts after the remainder. *)
Lemma md5_final_blocks l h r rem g :
  regs32 r -> (length rem < 64)%nat -> length g = (64 - length rem)%nat -> Z.land l 0x3f = zlen rem ->
  let tail := rem ++ [0x80] ++ replicate (Z.to_nat ((55 - zlen rem) mod 64)) 0 ++
              put_word (l <<u 3) ++ put_word h in
  MD5_Final (mk_ctx l h r (rem ++ g)) = Rfc.digest (Rfc.blocks (length tail / 64) r tail).
Proof.
  intros Hr Hm Hg Hl tail. unfold MD5_Final. cbn [lo hi abcd buffer]. rewrite Hl. cbv zeta.
  rewrite (blit_app rem g) by done. set (r80 := rem ++ [0x80]). set (g1 := drop _ g).
  assert (Hg1 : length g1 = (63 - length rem)%nat) by (unfold g1; rewrite length_drop; simpl; lia).
  assert (H80 : length r80 = S (length rem)) by (unfold r80; rewrite length_app; simpl; lia).
  assert (Hz80 : zlen r80 = zlen rem + 1) by (unfold zlen; lia).
  assert (Hpw : forall x, length (put_word x) = 4%nat) by done.
  replace (64 - (zlen rem + 1)) with (63 - zlen rem) by lia.
  destruct (Z.ltb_spec (63 - zlen rem) 8) as [H2|H1].
  - (* two blocks *)
    rewrite blit_fill by (rewrite ?length_replicate; unfold zlen in *; lia).
    set (b1 := r80 ++ replicate (Z.to_nat (63 - zlen rem)) 0).
    assert (Hb1 : length b1 = 64%nat) by (unfold b1; rewrite length_app, length_replicate; unfold zlen; lia).
    set (z56 := replicate 56 0). assert (Hz56 : length z56 = 56%nat) by done.
    set (b2 := drop 56 b1).
    assert (Hbl : blit b1 0 (replicate (Z.to_nat (64 - 8)) 0) = z56 ++ b2) by done.
    rewrite Hbl. clear Hbl.
    assert (Hb2 : length b2 = 8%nat) by (unfold b2; rewrite length_drop; lia).
    rewrite (blit_app z56 b2) by done.
    rewrite (blit_fill (z56 ++ put_word (l <<u 3))) by
      (unfold zlen; rewrite ?length_app, ?length_drop, ?Hb2, ?Hpw; done).
    assert (Ht : tail = b1 ++ (z56 ++ put_word (l <<u 3)) ++ put_word h).
    { unfold tail, b1, r80, z56. rewrite <- !app_assoc.
      rewrite (app_assoc (replicate (Z.to_nat (63 - zlen rem)) 0) (replicate 56 0)), <- replicate_add.
      replace ((55 - zlen rem) mod 64) with (119 - zlen rem) by
        (apply Z.mod_unique_pos with (-1); unfold zlen in *; lia).
      by replace (Z.to_nat (63 - zlen rem) + 56)%nat with (Z.to_nat (119 - zlen rem))
        by (unfold zlen in *; lia). }
    rewrite Ht, !length_app, Hb1, Hz56, !Hpw. change ((64 + (56 + 4 + 4)) / 64)%nat with (1 + 1)%nat.
    rewrite blocks_app by done. rewrite (md5_body_rfc 1 r) by done.
    rewrite md5_body_rfc by by apply blocks_regs32.
    destruct (Rfc.blocks 1 _ _) as [[[? ?] ?] ?]. by rewrite !put_word_rfc.
  - (* one block *)
    assert (Hbl : blit (r80 ++ g1) (zlen rem + 1) (replicate (Z.to_nat (63 - zlen rem - 8)) 0) =
      (r80 ++ replicate (Z.to_nat (55 - zlen rem)) 0) ++ drop (Z.to_nat (55 - zlen rem)) g1).
    { rewrite blit_app by done. rewrite length_replicate.
      by replace (63 - zlen rem - 8) with (55 - zlen rem) by lia. }
    rewrite Hbl. set (b1 := r80 ++ replicate _ 0). set (g2 := drop _ g1).
    assert (Hb1 : length b1 = 56%nat) by (unfold b1; rewrite length_app, length_replicate; unfold zlen in *; lia).
    assert (Hg2 : length g2 = 8%nat) by (unfold g2; rewrite length_drop; unfold zlen in *; lia).
    rewrite (blit_app b1 g2) by (unfold zlen; by rewrite Hb1).
    rewrite (blit_fill (b1 ++ put_word (l <<u 3))) by
      (unfold zlen; rewrite ?length_app, ?length_drop, ?Hg2, ?Hb1, ?Hpw; done).
    assert (Ht : tail = (b1 ++ put_word (l <<u 3)) ++ put_word h).
    { unfold tail, b1, r80. rewrite <- !app_assoc.
      by rewrite (Z.mod_small (55 - zlen rem)) by (unfold zlen in *; lia). }
    rewrite <- Ht, md5_body_rfc by done.
    assert (Hn : (length tail / 64 = 1)%nat) by (by rewrite Ht, !length_app, Hb1, !Hpw).
    rewrite Hn. destruct (Rfc.blocks 1 _ _) as [[[? ?] ?] ?]. by rewrite !put_word_rfc.
Qed.

Lemma md5_signature_ref (garbage key : list Z) :
  length garbage = 64%nat -> zlen key < 2 ^ 64 -> md5_signature garbage key = Rfc.md5 key.
Proof.
  intros Hg Hk. pose proof (zlen_nonneg key). unfold md5_signature.
  destruct (md5_update_init garbage key Hg Hk) as (g & Hlg & ->).
  pose proof (Nat.div_mod_eq (length key) 64) as Hdm.
  pose proof (Nat.mod_upper_bound (length key) 64 ltac:(lia)) as Hmb.
  set (q := (length key / 64)%nat) in *. set (rem := drop (64 * q) key).
  assert (Hrem : length rem = (length key mod 64)%nat) by (unfold rem; rewrite length_drop; lia).
  assert (Hz : zlen rem = zlen key mod 64).
  { unfold zlen. rewrite Hrem. change 64 with (Z.of_nat 64). by rewrite Nat2Z.inj_mod. }
  rewrite md5_final_blocks; [|by apply blocks_regs32; vm_compute|lia|lia|].
  2:{ change 0x3f with (Z.ones 6). rewrite Z.land_ones by lia. rewrite Hz.
      symmetry. change (2 ^ 6) with 64. change (2 ^ 29) with (64 * 8388608).
      rewrite Z.rem_mul_r by lia. rewrite Z.mul_comm, Z_mod_plus_full. by rewrite Z.mod_mod by lia. }
  assert (Hlo : (zlen key mod 2 ^ 29) <<u 3 = u32 (8 * zlen key)).
  { rewrite Z.shiftl_mul_pow2 by lia. unfold u32, wrap.
    change (2 ^ 3) with 8. change (2 ^ 32) with (8 * 2 ^ 29). rewrite (Z.mul_comm _ 8).
    rewrite !Z.mul_mod_distr_l by lia. by rewrite Z.mod_mod by lia. }
  assert (Hhi : Z.shiftr (8 * zlen key) 32 = Z.shiftr (zlen key) 29).
  { rewrite !Z.shiftr_div_pow2 by lia. change (2 ^ 32) with (8 * 2 ^ 29).
    by rewrite Z.div_mul_cancel_l by lia. }
  rewrite Hlo, <- Hhi. replace ((55 - zlen rem) mod 64) with ((55 - zlen key) mod 64)
    by (rewrite Hz; Z.div_mod_to_equations; lia).
  set (tail := rem ++ _). assert (Hpad : Rfc.pad key = take (64 * q) key ++ tail).
  { unfold Rfc.pad, tail, rem. rewrite length_words_rfc.
    by rewrite (app_assoc (take (64 * q) key) (drop (64 * q) key)), take_drop. }
  unfold Rfc.md5. rewrite Hpad. assert (Htk : length (take (64 * q) key) = (64 * q)%nat)
    by (rewrite length_take; lia).
  rewrite length_app, Htk. replace ((64 * q + length tail) / 64)%nat with (q + length tail / 64)%nat
    by (rewrite Nat.mul_comm, Nat.div_add_l by lia; done).
  rewrite blocks_app by done.
  rewrite <- (take_drop (64 * q) key) at 1. rewrite blocks_prefix by done. done.
Qed.

(** C32. md5_signature computes MD5 as RFC 1321 defines it, for every key
    shorter than 2^64 bytes and whatever the stack buffer held before.  The
    reference [Rfc.md5] is written from the RFC: its table T, the functions
    F, G, H and I with complements, the schedule of words and shifts as
    formulas, rotation and addition as arithmetic modulo 2^32, the padded
    message cut into blocks.  Every constant, shift and word index of the 64
    STEP lines, the round functions without AND-NOT, the padding over one or
    two blocks and the 29/32-bit length counters are compared with it. *)
Theorem md5_signature_rfc1321 (garbage key : list Z) :
  length garbage = 64%nat -> zlen key < 2 ^ 64 -> md5_signature garbage key = Rfc.md5 key.
Proof. apply md5_signature_ref. Qed.

(** The witness also is a vector of the test suite. *)
Lemma md5_signature_rfc1321_witness :
  md5_signature (replicate 64 7) (bytes_of "abc") = Rfc.md5 (bytes_of "abc") /\
  Rfc.hex (md5_signature (replicate 64 7) (bytes_of "abc")) = bytes_of "900150983cd24fb0d6963f7d28e17f72".
Proof.
  split; [|vm_compute; reflexivity].
  apply (md5_signature_rfc1321 (replicate 64 7) (bytes_of "abc")); [done|]. vm_compute. reflexivity.
Defined.
