(* ===== verification/HashAlgo.v ===== *)
(** The hash algorithms a pool can be configured with, as the table
    hash_algos of nc_conf.c lists them, and what all of them have in common. *)

From S2P Require Import Prelude HashKit HashFacts Md5.

Local Open Scope cint_scope.
Local Open Scope Z_scope.

Inductive hash_type :=
| HASH_ONE_AT_A_TIME | HASH_MD5 | HASH_CRC16 | HASH_CRC32 | HASH_CRC32A | HASH_FNV1_64
| HASH_FNV1A_64 | HASH_FNV1_32 | HASH_FNV1A_32 | HASH_HSIEH | HASH_MURMUR | HASH_JENKINS.

(** Where a key lies: its address, the memory after it, and what the stack
    held where hash_md5 puts its context. *)
Record placement := mk_placement { pl_addr : Z; pl_tail : list Z; pl_stack : list Z }.

Definition hash_algos (h : hash_type) (pl : placement) (key : list Z) : Z :=
  match h with
  | HASH_ONE_AT_A_TIME => hash_one_at_a_time key
  | HASH_MD5 => hash_md5 (pl_stack pl) key
  | HASH_CRC16 => hash_crc16 key
  | HASH_CRC32 => hash_crc32 key
  | HASH_CRC32A => hash_crc32a key
  | HASH_FNV1_64 => hash_fnv1_64 key
  | HASH_FNV1A_64 => hash_fnv1a_64 key
  | HASH_FNV1_32 => hash_fnv1_32 key
  | HASH_FNV1A_32 => hash_fnv1a_32 key
  | HASH_HSIEH => hash_hsieh (mem_of key (pl_tail pl)) (zlen key)
  | HASH_MURMUR => hash_murmur (mem_of key (pl_tail pl)) (zlen key)
  | HASH_JENKINS => hash_jenkins (pl_addr pl) (mem_of key (pl_tail pl)) (zlen key)
  end.

Definition placement_ok (pl : placement) : Prop :=
  Forall is_u8 (pl_tail pl) /\ length (pl_stack pl) = 64%nat.

(** ** Ranges *)

Lemma lor_u32 x y : is_u32 x -> is_u32 y -> is_u32 (Z.lor x y).
Proof. unfold is_u32. intros. by apply lor_range. Qed.

Lemma land_u8_u32 x : is_u32 (Z.land x 0xFF).
Proof. unfold is_u32. change 0xFF with (Z.ones 8). rewrite Z.land_ones by lia. pose proof (Z.mod_pos_bound x (2 ^ 8)). lia. Qed.

Lemma fold_left_inv {A B} (P : A -> Prop) (f : A -> B -> A) l a :
  (forall a b, P a -> P (f a b)) -> P a -> P (fold_left f l a).
Proof. intros Hf. revert a. induction l as [|x l IH]; simpl; auto. Qed.

Lemma table_u32 (t : list Z) i : forallb (fun x => (0 <=? x) && (x <? 2 ^ 32)) t = true -> is_u32 (default 0 (rd t i)).
Proof.
  intros H. rewrite forallb_forall in H. unfold rd. destruct (0 <=? i); [|unfold is_u32; simpl; lia].
  destruct (t !! Z.to_nat i) eqn:E; [|unfold is_u32; simpl; lia]. simpl.
  apply list_elem_of_lookup_2, list_elem_of_In, H in E. b2p. done.
Qed.

Lemma jenkins_final_u32 s : is_u32 (jenkins_final s).
Proof. destruct s as [[a b] c]. apply u32_range. Qed.

Lemma jenkins_ref_u32 n key a b c : zlen key <= Z.of_nat n -> is_u32 c -> is_u32 (jenkins_ref key (a, b, c)).
Proof.
  intros Hn Hc. assert (H : key = [] \/ forall a b c, is_u32 (jenkins_ref key (a, b, c))); [|destruct H as [->|H]; [done|apply H]].
  clear a b c Hc. revert key Hn. induction n as [|n IH]; intros key Hn.
  { left. destruct key; [done|]. rewrite zlen_cons in Hn. pose proof (zlen_nonneg key). lia. }
  destruct (Z.le_gt_cases (zlen key) 12).
  - destruct key as [|x key]; [by left|right]. intros a b c. unfold jenkins_ref. rewrite lookup3_short by done.
    apply jenkins_final_u32.
  - right. intros a b c. do 12 (destruct key as [|? key]; [unfold zlen in *; simpl in *; lia|]).
    assert (0 < zlen key) by (rewrite !zlen_cons in *; lia).
    unfold jenkins_ref. rewrite lookup3_block by done. destruct (jenkins_mix _) as [[a1 b1] c1].
    destruct (IH key) as [->|Hk]; [rewrite !zlen_cons in Hn; lia|done|apply Hk].
Qed.

(** Every configurable hash is a function of the key's bytes alone, with
    values in uint32_t: where the key lies, what follows it and what was on
    the stack do not matter, even for the algorithms that load whole words. *)
Theorem hash_algos_key_only (h : hash_type) (pl pl' : placement) (key : list Z) :
  placement_ok pl -> placement_ok pl' -> Forall is_u8 key -> zlen key < 2 ^ 64 ->
  hash_algos h pl key = hash_algos h pl' key /\ is_u32 (hash_algos h pl key).
Proof.
  intros [Ht Hs] [Ht' Hs'] Hk Hlen. destruct h; simpl; (split; [try done|]).
  - unfold hash_one_at_a_time. apply u32_range.
  - unfold hash_md5. by rewrite !md5_signature_ref.
  - unfold hash_md5. repeat apply lor_u32; try apply u32_range. apply land_u8_u32.
  - unfold hash_crc16. apply fold_left_inv; [|done]. intros a b Ha. unfold crc16_step.
    apply xor_u32; [apply u32_range|by apply table_u32].
  - unfold hash_crc32, is_u32. change 0x7fff with (Z.ones 15). rewrite Z.land_ones by lia.
    pose proof (Z.mod_pos_bound (Z.shiftr (u32 (Z.lnot (fold_left crc32_step key UINT32_MAX))) 16) (2 ^ 15)). lia.
  - unfold hash_crc32a. apply xor_u32; [|done]. apply fold_left_inv; [|done]. intros a b Ha. unfold crc32a_step.
    apply xor_u32; [by apply table_u32|]. by apply shr_u32.
  - apply u32_range.
  - unfold hash_fnv1a_64. apply fold_left_inv; [|done]. intros. apply u32_range.
  - unfold hash_fnv1_32. apply fold_left_inv; [|done]. intros. apply xor_u32; apply u32_range.
  - unfold hash_fnv1a_32. apply fold_left_inv; [|done]. intros. apply u32_range.
  - destruct key as [|x key]; [done|]. by rewrite !(proj2 (hash_murmur_hsieh_ref _ _)).
  - unfold hash_hsieh. destruct (_ <=? 0); [done|]. destruct (hsieh_loop _ _ _ _). apply u32_range.
  - by rewrite !(proj1 (hash_murmur_hsieh_ref _ _)).
  - rewrite (proj1 (hash_murmur_hsieh_ref _ _)). cbv zeta. apply xor_u32; [apply u32_range|].
    apply shr_u32; [lia|apply u32_range].
  - by rewrite !hash_jenkins_ref.
  - rewrite hash_jenkins_ref by done. apply (jenkins_ref_u32 (length key)); [done|apply u32_range].
Qed.

Lemma hash_algos_key_only_witness :
  hash_algos HASH_JENKINS (mk_placement 4096 [1; 2; 3] (replicate 64 0)) (bytes_of "apple") =
  hash_algos HASH_JENKINS (mk_placement 4097 [255] (replicate 64 9)) (bytes_of "apple") /\
  is_u32 (hash_algos HASH_JENKINS (mk_placement 4096 [1; 2; 3] (replicate 64 0)) (bytes_of "apple")).
Proof.
  apply (hash_algos_key_only HASH_JENKINS (mk_placement 4096 [1; 2; 3] (replicate 64 0)) (mk_placement 4097 [255] (replicate 64 9)) (bytes_of "apple"));
    try done; try split; try done; repeat constructor; unfold is_u8; lia.
Defined.
