(* ===== verification/Pool.v ===== *)
(** Server pools: the continuum and the three distributions (hashkit/
    nc_ketama.c, nc_modula.c, nc_random.c), and the pool operations of
    nc_server.c that eject servers and pick one for a key.

    The continuum is the block pool->continuum points to: a list of slots,
    [None] where nothing was written yet.  A write outside the block, a read
    of such a slot or of memory past a local buffer makes an operation return
    [None].  The clock ([now]), the allocator ([ok]), qsort(3), random(3) and
    the contents of uninitialised stack buffers are arguments. *)

From Stdlib Require Import SpecFloat.
From S2P Require Import Prelude HashKit Md5.

Local Open Scope cint_scope.
Local Open Scope Z_scope.

(** ** Data *)

(** struct continuum. Its [name], which only debug logging reads, is kept as
    the condition [sprintf_name_ok] under which writing it is harmless. *)
Record cpoint := mk_cpoint { cindex : Z; cvalue : Z }.

Record server := mk_server {
  sv_pname : list Z;          (* hostname:port:weight *)
  sv_name : list Z;           (* hostname:port or name *)
  sv_weight : Z;
  sv_next_retry : Z;          (* usec *)
  sv_failure_count : Z
}.

Inductive dist_type := DIST_KETAMA | DIST_MODULA | DIST_RANDOM.

Record server_pool := mk_spool {
  sp_servers : list server;
  sp_ncontinuum : Z;
  sp_nserver_continuum : Z;
  sp_continuum : list (option cpoint);
  sp_nlive_server : Z;
  sp_next_rebuild : Z;        (* usec *)
  sp_dist_type : dist_type;
  sp_hash_tag : list Z;
  sp_auto_eject_hosts : bool;
  sp_server_retry_timeout : Z;
  sp_server_failure_limit : Z
}.

Definition set_next_retry (s : server) v :=
  mk_server (sv_pname s) (sv_name s) (sv_weight s) v (sv_failure_count s).
Definition set_failure_count (s : server) v :=
  mk_server (sv_pname s) (sv_name s) (sv_weight s) (sv_next_retry s) v.

Definition set_servers (p : server_pool) v :=
  mk_spool v (sp_ncontinuum p) (sp_nserver_continuum p) (sp_continuum p) (sp_nlive_server p)
    (sp_next_rebuild p) (sp_dist_type p) (sp_hash_tag p) (sp_auto_eject_hosts p)
    (sp_server_retry_timeout p) (sp_server_failure_limit p).
Definition set_live (p : server_pool) nlive rebuild :=
  mk_spool (sp_servers p) (sp_ncontinuum p) (sp_nserver_continuum p) (sp_continuum p) nlive
    rebuild (sp_dist_type p) (sp_hash_tag p) (sp_auto_eject_hosts p)
    (sp_server_retry_timeout p) (sp_server_failure_limit p).
Definition set_continuum (p : server_pool) c nserver :=
  mk_spool (sp_servers p) (sp_ncontinuum p) nserver c (sp_nlive_server p)
    (sp_next_rebuild p) (sp_dist_type p) (sp_hash_tag p) (sp_auto_eject_hosts p)
    (sp_server_retry_timeout p) (sp_server_failure_limit p).
Definition set_ncontinuum (p : server_pool) c n :=
  mk_spool (sp_servers p) n (sp_nserver_continuum p) c (sp_nlive_server p)
    (sp_next_rebuild p) (sp_dist_type p) (sp_hash_tag p) (sp_auto_eject_hosts p)
    (sp_server_retry_timeout p) (sp_server_failure_limit p).

(** ** Counting the live servers

    The loop at the head of the three update functions: a server whose retry
    time has come is live again; the earliest retry time of the others is
    when the pool has to be rebuilt.  (random_update keeps no weight.) *)

Record live_acc := mk_acc { acc_nlive : Z; acc_weight : Z; acc_rebuild : Z }.

Definition count_server (auto : bool) (now : Z) (acc : live_acc) (s : server) : live_acc * server :=
  let '(nlive, rebuild, s) :=
    if auto then
      if sv_next_retry s <=? now then (acc_nlive acc +u 1, acc_rebuild acc, set_next_retry s 0)
      else if (acc_rebuild acc =? 0) || (sv_next_retry s <? acc_rebuild acc)
      then (acc_nlive acc, sv_next_retry s, s)
      else (acc_nlive acc, acc_rebuild acc, s)
    else (acc_nlive acc +u 1, acc_rebuild acc, s) in
  let weight :=
    if negb auto || (sv_next_retry s <=? now) then acc_weight acc +u sv_weight s else acc_weight acc in
  (mk_acc nlive weight rebuild, s).

Fixpoint count_servers (auto : bool) (now : Z) (acc : live_acc) (l : list server)
    : live_acc * list server :=
  match l with
  | [] => (acc, [])
  | s :: l' =>
      let '(acc, s) := count_server auto now acc s in
      let '(acc, l') := count_servers auto now acc l' in
      (acc, s :: l')
  end.

(** [pool->auto_eject_hosts && server->next_retry > now] skips a server. *)
Definition skipped (auto : bool) (now : Z) (s : server) : bool := auto && (now <? sv_next_retry s).

(** nc_realloc of the continuum to [n] slots. *)
Definition realloc_slots (c : list (option cpoint)) (n : Z) : list (option cpoint) :=
  take (Z.to_nat n) c ++ replicate (Z.to_nat n - length c) None.

(** Stores into consecutive slots from [idx] on. *)
Fixpoint store_points (c : list (option cpoint)) (idx : Z) (pts : list cpoint)
    : option (list (option cpoint) * Z) :=
  match pts with
  | [] => Some (c, idx)
  | pt :: pts' =>
      if idx <? zlen c then store_points (<[Z.to_nat idx := Some pt]> c) (idx + 1) pts' else None
  end.

(** ** Ketama *)

Definition KETAMA_CONTINUUM_ADDITION : Z := 10.
Definition KETAMA_POINTS_PER_SERVER : Z := 160.
Definition KETAMA_MAX_HOSTLEN : Z := 86.
Definition CONTINUUM_NAME_LEN : Z := 100.        (* char name[100] *)
Definition CONTINUUM_SIZE : Z := 108.            (* sizeof(struct continuum) *)

(** *** Single precision arithmetic of the weights *)

Definition f32 (z : Z) : spec_float := binary_normalize 24 128 z 0 false.
Definition f32_mul := SFmul 24 128.
Definition f32_div := SFdiv 24 128.

(** 0.0000000001 as a double. *)
Definition tiny : spec_float := S754_finite false 7737125245533627 (-86).

(** Conversion of a double to float. *)
Definition f32_of_f64 (x : spec_float) : spec_float :=
  match x with
  | S754_finite s m e => binary_normalize 24 128 (cond_Zopp s (Zpos m)) e s
  | _ => x
  end.

(** [floorf] of a finite value, as an integer. *)
Definition sf_floor (x : spec_float) : Z :=
  match x with
  | S754_finite s m e => Z.shiftl (cond_Zopp s (Zpos m)) e
  | _ => 0
  end.

(** pointer_per_server: floats are widened to double for the addition and
    rounded back; multiplying the integer [floorf] returns by 4 is exact. *)
Definition ketama_points (weight total_weight nlive : Z) : Z :=
  let pct := f32_div (f32 weight) (f32 total_weight) in
  let x := f32_mul (f32_div (f32_mul pct (f32 KETAMA_POINTS_PER_SERVER)) (f32 4)) (f32 nlive) in
  let y := f32_of_f64 (SFadd 53 1024 x tiny) in
  u32 (sf_floor y * 4).

Section Ketama.
Variable stack : list Z.        (* what md5_signature's context held *)

Definition ketama_hash (key : list Z) (alignment : Z) : Z :=
  let results := md5_signature stack key in
  let byte i := Z.land (default 0 (rd results (i + alignment * 4))) 0xFF in
  Z.lor (Z.lor (Z.lor (byte 3 <<u 24) (byte 2 <<u 16)) (byte 1 <<u 8)) (byte 0).

Definition ketama_item_cmp (t1 t2 : cpoint) : Z :=
  if cvalue t1 =? cvalue t2 then 0 else if cvalue t2 <? cvalue t1 then 1 else -1.

(** The host string of a point: name, dash, number. *)
Definition ketama_host (name : list Z) (n : Z) : list Z := name ++ [45] ++ dec n.

(** The four points of one host string. snprintf cuts the string at 85 bytes
    and ends it with a NUL, but returns its full length, over which the hash
    then runs: [None] when that is outside the buffer. *)
Definition ketama_host_points (server_index : Z) (s : server) (n : Z) : option (list cpoint) :=
  let host := ketama_host (sv_name s) n in
  let buf := take (Z.to_nat (KETAMA_MAX_HOSTLEN - 1)) host ++ [0] in
  if zlen host <=? KETAMA_MAX_HOSTLEN
  then Some (map (fun x => mk_cpoint server_index (ketama_hash (take (length host) buf) x)) [0; 1; 2; 3])
  else None.

(** The loop over pointer_index, [k] rounds from [n] on. *)
Fixpoint ketama_server_points (server_index : Z) (s : server) (n : Z) (k : nat) : option (list cpoint) :=
  match k with
  | O => Some []
  | S k' =>
      match ketama_host_points server_index s n, ketama_server_points server_index s (n + 1) k' with
      | Some l, Some l' => Some (l ++ l')
      | _, _ => None
      end
  end.

(** sprintf(continuum[i].name, server->pname.data): the server's name is the
    format and the destination has 100 bytes. *)
Definition sprintf_name_ok (pname : list Z) : bool :=
  (zlen pname <? CONTINUUM_NAME_LEN) && forallb (fun c => negb (c =? 37)) pname.

(** The loop over the servers: slots written, continuum_index and
    pointer_counter. *)
Fixpoint ketama_fill (auto : bool) (now total nlive : Z) (server_index : Z) (l : list server)
    (c : list (option cpoint)) (idx counter : Z) : option (list (option cpoint) * Z * Z) :=
  match l with
  | [] => Some (c, idx, counter)
  | s :: l' =>
      if skipped auto now s then ketama_fill auto now total nlive (server_index + 1) l' c idx counter
      else
        let per_server := ketama_points (sv_weight s) total nlive in
        let rounds := Z.to_nat (per_server / 4) in
        match ketama_server_points server_index s 0 rounds with
        | None => None
        | Some pts =>
            if (0 <? zlen pts) && negb (sprintf_name_ok (sv_pname s)) then None
            else
              match store_points c idx pts with
              | None => None
              | Some (c, idx) =>
                  ketama_fill auto now total nlive (server_index + 1) l' c idx (counter +u per_server)
              end
        end
  end.

Variable qsort : list cpoint -> list cpoint.      (* qsort(3) with ketama_item_cmp *)

(** qsort on the first [n] slots. *)
Definition sort_slots (c : list (option cpoint)) (n : Z) : option (list (option cpoint)) :=
  if zlen c <? n then None
  else
    match mapM (fun o => o) (take (Z.to_nat n) c) with
    | None => None
    | Some l => Some (map Some (qsort l) ++ drop (Z.to_nat n) c)
    end.

Variable ok : Z -> bool.          (* nc_realloc *)

Definition ketama_update (now : Z) (pool : server_pool) : option (Z * server_pool) :=
  if now <? 0 then Some (NC_ERROR, pool)
  else
    let auto := sp_auto_eject_hosts pool in
    let '(acc, servers) := count_servers auto now (mk_acc 0 0 0) (sp_servers pool) in
    let nlive := acc_nlive acc in
    let pool := set_live (set_servers pool servers) nlive (acc_rebuild acc) in
    if nlive =? 0 then Some (NC_OK, pool)
    else
      let grow := sp_nserver_continuum pool <? nlive in
      let nserver := nlive +u KETAMA_CONTINUUM_ADDITION in
      let ncontinuum := nserver *u KETAMA_POINTS_PER_SERVER in
      if grow && negb (ok (CONTINUUM_SIZE * ncontinuum)) then Some (NC_ENOMEM, pool)
      else
        let pool :=
          if grow then set_continuum pool (realloc_slots (sp_continuum pool) ncontinuum) nserver
          else pool in
        match ketama_fill auto now (acc_weight acc) nlive 0 servers (sp_continuum pool) 0 0 with
        | None => None
        | Some (c, _, counter) =>
            match sort_slots c counter with
            | None => None
            | Some c => Some (NC_OK, set_ncontinuum pool c counter)
            end
        end.

End Ketama.

(** The binary search; pointers into the continuum are indices. *)
Fixpoint ketama_search (fuel : nat) (c : list (option cpoint)) (hash lft rgt : Z) : option Z :=
  if lft <? rgt then
    match fuel with
    | O => None
    | S fuel' =>
        let middle := lft + (rgt - lft) / 2 in
        match rd c middle with
        | Some (Some pt) =>
            if cvalue pt <? hash then ketama_search fuel' c hash (middle + 1) rgt
            else ketama_search fuel' c hash lft middle
        | _ => None
        end
    end
  else Some rgt.

(** The index of slot [i]; [None] outside the block or if never written. *)
Definition slot_index (c : list (option cpoint)) (i : Z) : option Z :=
  match rd c i with Some (Some pt) => Some (cindex pt) | _ => None end.

Definition ketama_dispatch (c : list (option cpoint)) (ncontinuum hash : Z) : option Z :=
  match ketama_search (Z.to_nat ncontinuum) c hash 0 ncontinuum with
  | None => None
  | Some rgt => slot_index c (if rgt =? ncontinuum then 0 else rgt)
  end.

(** ** Modula *)

Definition MODULA_CONTINUUM_ADDITION : Z := 10.
Definition MODULA_POINTS_PER_SERVER : Z := 1.

Fixpoint modula_fill (auto : bool) (now : Z) (server_index : Z) (l : list server)
    (c : list (option cpoint)) (idx counter : Z) : option (list (option cpoint) * Z * Z) :=
  match l with
  | [] => Some (c, idx, counter)
  | s :: l' =>
      if skipped auto now s then modula_fill auto now (server_index + 1) l' c idx counter
      else
        let pts := replicate (Z.to_nat (sv_weight s)) (mk_cpoint server_index 0) in
        match store_points c idx pts with
        | None => None
        | Some (c, idx) =>
            modula_fill auto now (server_index + 1) l' c idx (u32 (counter + sv_weight s))
        end
  end.

Definition modula_update (ok : Z -> bool) (now : Z) (pool : server_pool) : option (Z * server_pool) :=
  if now <? 0 then Some (NC_ERROR, pool)
  else
    let auto := sp_auto_eject_hosts pool in
    let '(acc, servers) := count_servers auto now (mk_acc 0 0 0) (sp_servers pool) in
    let nlive := acc_nlive acc in
    let total := acc_weight acc in
    let pool := set_live (set_servers pool servers) nlive (acc_rebuild acc) in
    if nlive =? 0 then Some (NC_OK, pool)
    else
      let grow := sp_nserver_continuum pool <? total in
      let nserver := total +u MODULA_CONTINUUM_ADDITION in
      let ncontinuum := nserver *u MODULA_POINTS_PER_SERVER in
      if grow && negb (ok (CONTINUUM_SIZE * ncontinuum)) then Some (NC_ENOMEM, pool)
      else
        let pool :=
          if grow then set_continuum pool (realloc_slots (sp_continuum pool) ncontinuum) nserver
          else pool in
        match modula_fill auto now 0 servers (sp_continuum pool) 0 0 with
        | None => None
        | Some (c, _, counter) => Some (NC_OK, set_ncontinuum pool c counter)
        end.

Definition modula_dispatch (c : list (option cpoint)) (ncontinuum hash : Z) : option Z :=
  if ncontinuum =? 0 then None else slot_index c (hash mod ncontinuum).

(** ** Random *)

Definition RANDOM_CONTINUUM_ADDITION : Z := 10.
Definition RANDOM_POINTS_PER_SERVER : Z := 1.

Fixpoint random_fill (auto : bool) (now : Z) (server_index : Z) (l : list server)
    (c : list (option cpoint)) (idx counter : Z) : option (list (option cpoint) * Z * Z) :=
  match l with
  | [] => Some (c, idx, counter)
  | s :: l' =>
      if skipped auto now s then random_fill auto now (server_index + 1) l' c idx counter
      else
        match store_points c idx [mk_cpoint server_index 0] with
        | None => None
        | Some (c, idx) => random_fill auto now (server_index + 1) l' c idx (counter +u 1)
        end
  end.

Definition random_update (ok : Z -> bool) (now : Z) (pool : server_pool) : option (Z * server_pool) :=
  if now <? 0 then Some (NC_ERROR, pool)
  else
    let auto := sp_auto_eject_hosts pool in
    let '(acc, servers) := count_servers auto now (mk_acc 0 0 0) (sp_servers pool) in
    let nlive := acc_nlive acc in
    let pool := set_live (set_servers pool servers) nlive (acc_rebuild acc) in
    if nlive =? 0 then Some (NC_OK, pool)
    else
      let grow := sp_nserver_continuum pool <? nlive in
      let nserver := nlive +u RANDOM_CONTINUUM_ADDITION in
      let ncontinuum := nserver *u RANDOM_POINTS_PER_SERVER in
      if grow && negb (ok (CONTINUUM_SIZE * ncontinuum)) then Some (NC_ENOMEM, pool)
      else
        let pool :=
          if grow then set_continuum pool (realloc_slots (sp_continuum pool) ncontinuum) nserver
          else pool in
        match random_fill auto now 0 servers (sp_continuum pool) 0 0 with
        | None => None
        | Some (c, _, counter) => Some (NC_OK, set_ncontinuum pool c counter)
        end.

(** [rnd] is what random(3) returns. *)
Definition random_dispatch (rnd : Z) (c : list (option cpoint)) (ncontinuum : Z) : option Z :=
  if ncontinuum =? 0 then None else slot_index c (rnd mod ncontinuum).

(** ** The pool (nc_server.c) *)

Section Pool.
Variable stack : list Z.
Variable qsort : list cpoint -> list cpoint.
Variable ok : Z -> bool.
Variable key_hash : list Z -> Z.     (* pool->key_hash *)

Definition server_pool_run (now : Z) (pool : server_pool) : option (Z * server_pool) :=
  match sp_dist_type pool with
  | DIST_KETAMA => ketama_update stack qsort ok now pool
  | DIST_MODULA => modula_update ok now pool
  | DIST_RANDOM => random_update ok now pool
  end.

(** The status, errno and the pool.  The clock is read twice: [now] is what
    nc_usec_now returns here, [now'] what it returns in the rebuild. *)
Definition server_pool_update (now now' : Z) (pool : server_pool) : option (Z * Z * server_pool) :=
  if negb (sp_auto_eject_hosts pool) then Some (NC_OK, 0, pool)
  else if sp_next_rebuild pool =? 0 then Some (NC_OK, 0, pool)
  else if now <? 0 then Some (NC_ERROR, 0, pool)
  else if now <=? sp_next_rebuild pool then
    if sp_nlive_server pool =? 0 then Some (NC_ERROR, ECONNREFUSED, pool)
    else Some (NC_OK, 0, pool)
  else
    match server_pool_run now' pool with
    | None => None
    | Some (status, pool) => Some (status, 0, pool)
    end.

(** server_failure for the server at [i] of its pool: the retry time counts
    from the first reading of the clock, the rebuild uses the second. *)
Definition server_failure (now now' : Z) (pool : server_pool) (i : nat) : option server_pool :=
  if negb (sp_auto_eject_hosts pool) then Some pool
  else
    match sp_servers pool !! i with
    | None => None
    | Some s =>
        let s := set_failure_count s (sv_failure_count s +u 1) in
        let pool := set_servers pool (<[i := s]> (sp_servers pool)) in
        if sv_failure_count s <? sp_server_failure_limit pool then Some pool
        else if now <? 0 then Some pool
        else
          let s := set_next_retry (set_failure_count s 0) (now + sp_server_retry_timeout pool) in
          let pool := set_servers pool (<[i := s]> (sp_servers pool)) in
          match server_pool_run now' pool with
          | None => None
          | Some (_, pool) => Some pool
          end
    end.

Definition server_ok (pool : server_pool) (i : nat) : option server_pool :=
  match sp_servers pool !! i with
  | None => None
  | Some s =>
      if negb (sv_failure_count s =? 0)
      then Some (set_servers pool (<[i := set_next_retry (set_failure_count s 0) 0]> (sp_servers pool)))
      else Some pool
  end.

Definition server_pool_hash (pool : server_pool) (key : list Z) : Z :=
  if zlen (sp_servers pool) =? 1 then 0
  else if zlen key =? 0 then 0
  else key_hash key.

(** nc_strchr(p, last, c) on the key: the offset found. *)
Fixpoint nc_strchr (l : list Z) (c : Z) (i : Z) : option Z :=
  match l with
  | [] => None
  | x :: l' => if x =? c then Some i else nc_strchr l' c (i + 1)
  end.

(** The part of the key between the characters of the hash tag. *)
Definition hash_tag_key (tag key : list Z) : list Z :=
  match tag with
  | [] => key
  | t0 :: rest =>
      match nc_strchr key t0 0 with
      | None => key
      | Some tag_start =>
          match nc_strchr (drop (Z.to_nat (tag_start + 1)) key) (default 0 (rd rest 0)) (tag_start + 1) with
          | Some tag_end =>
              if 1 <? tag_end - tag_start then slice key (tag_start + 1) tag_end else key
          | None => key
          end
      end
  end.

(** [rnd] is what random(3) would return. *)
Definition server_pool_idx (rnd : Z) (pool : server_pool) (key : list Z) : option Z :=
  let key := hash_tag_key (sp_hash_tag pool) key in
  match sp_dist_type pool with
  | DIST_KETAMA => ketama_dispatch (sp_continuum pool) (sp_ncontinuum pool) (server_pool_hash pool key)
  | DIST_MODULA => modula_dispatch (sp_continuum pool) (sp_ncontinuum pool) (server_pool_hash pool key)
  | DIST_RANDOM => random_dispatch rnd (sp_continuum pool) (sp_ncontinuum pool)
  end.

(** The server a key is sent to. *)
Definition server_pool_server (rnd : Z) (pool : server_pool) (key : list Z) : option server :=
  match server_pool_idx rnd pool key with
  | None => None
  | Some idx => rd (sp_servers pool) idx
  end.

End Pool.
