(* ===== verification/PoolFacts.v ===== *)
(** What the distributions guarantee: the continuum each update builds, the
    point each dispatch picks, and that keys only go to live servers. *)

From Stdlib Require Import Permutation Sorted.
From S2P Require Import Prelude HashKit Md5 Pool.

Local Open Scope cint_scope.
Local Open Scope Z_scope.

(** ** The live servers *)

(** A server that is not ejected at [now]. *)
Definition live (auto : bool) (now : Z) (s : server) : bool := negb auto || (sv_next_retry s <=? now).

Lemma skipped_live auto now s : skipped auto now s = negb (live auto now s).
Proof. unfold skipped, live. destruct auto; simpl; [|done]. zcase; done. Qed.

(** What the counting loop leaves of a server. *)
Definition revive (auto : bool) (now : Z) (s : server) : server :=
  if auto && (sv_next_retry s <=? now) then set_next_retry s 0 else s.

Lemma live_revive auto now s : 0 <= now -> live auto now (revive auto now s) = live auto now s.
Proof.
  intros. unfold live, revive. destruct auto; simpl; [|done].
  destruct (sv_next_retry s <=? now) eqn:E; simpl; [|done]. by apply Z.leb_le.
Qed.

Definition nlive (auto : bool) (now : Z) (l : list server) : Z := zlen (filter (fun s => live auto now s = true) l).
Definition live_weight (auto : bool) (now : Z) (l : list server) : Z :=
  foldr (fun s t => (if live auto now s then sv_weight s else 0) + t) 0 l.

Lemma nlive_cons auto now s l :
  nlive auto now (s :: l) = (if live auto now s then 1 else 0) + nlive auto now l.
Proof.
  unfold nlive. rewrite filter_cons. destruct (live auto now s); simpl; [by rewrite zlen_cons|done].
Qed.

Lemma nlive_range auto now l : 0 <= nlive auto now l <= zlen l.
Proof.
  induction l as [|s l IH]; [done|]. rewrite nlive_cons, zlen_cons. destruct (live _ _ _); lia.
Qed.

Lemma count_server_spec auto now acc s :
  0 <= now ->
  exists rebuild, count_server auto now acc s =
    (mk_acc (if live auto now s then acc_nlive acc +u 1 else acc_nlive acc)
            (if live auto now s then acc_weight acc +u sv_weight s else acc_weight acc) rebuild,
     revive auto now s).
Proof.
  intros Hn. unfold count_server, live, revive. destruct auto; simpl; [|by eexists].
  destruct (sv_next_retry s <=? now) eqn:E; simpl.
  - destruct (Z.leb_spec 0 now); [|lia]. by eexists.
  - destruct ((acc_rebuild acc =? 0) || (sv_next_retry s <? acc_rebuild acc)); rewrite E; by eexists.
Qed.

(** The counting loop: the servers revived, the live ones and their weight
    counted. *)
Lemma count_servers_spec auto now l acc :
  0 <= now -> Forall (fun s => 0 <= sv_weight s) l ->
  0 <= acc_nlive acc -> acc_nlive acc + zlen l < 2 ^ 32 ->
  0 <= acc_weight acc -> acc_weight acc + live_weight auto now l < 2 ^ 32 ->
  exists rebuild, count_servers auto now acc l =
    (mk_acc (acc_nlive acc + nlive auto now l) (acc_weight acc + live_weight auto now l) rebuild,
     map (revive auto now) l).
Proof.
  intros Hn Hw. revert acc. induction Hw as [|s l Hs Hw IH]; intros acc H1 H2 H3 H4.
  - exists (acc_rebuild acc). simpl. unfold nlive, zlen. simpl. rewrite !Z.add_0_r. by destruct acc.
  - simpl. destruct (count_server_spec auto now acc s Hn) as [rb ->].
    rewrite zlen_cons in H2. pose proof (zlen_nonneg l). simpl in H4. rewrite nlive_cons.
    assert (0 <= live_weight auto now l).
    { clear -Hw. induction Hw as [|s l Hs Hw IH]; simpl; [lia|]. destruct (live _ _ _); lia. }
    set (acc' := mk_acc _ _ rb).
    assert (Hacc : acc_nlive acc' = acc_nlive acc + (if live auto now s then 1 else 0) /\
      acc_weight acc' = acc_weight acc + (if live auto now s then sv_weight s else 0)).
    { simpl. destruct (live auto now s); rewrite ?u32_small by (unfold is_u32; lia); lia. }
    destruct Hacc as [Ha Hb].
    destruct (IH acc') as [rb' ->]; rewrite ?Ha, ?Hb; try (destruct (live auto now s); lia).
    exists rb'. by rewrite !Z.add_assoc.
Qed.

(** The live servers with their position in the pool. *)
Fixpoint live_servers (auto : bool) (now i : Z) (l : list server) : list (Z * server) :=
  match l with
  | [] => []
  | s :: l' =>
      if live auto now s then (i, s) :: live_servers auto now (i + 1) l'
      else live_servers auto now (i + 1) l'
  end.

Lemma live_servers_In auto now i l j s :
  In (j, s) (live_servers auto now i l) ->
  live auto now s = true /\ rd l (j - i) = Some s.
Proof.
  revert i. induction l as [|x l IH]; intros i H; simpl in H; [done|].
  assert (Hnext : In (j, s) (live_servers auto now (i + 1) l) ->
    live auto now s = true /\ rd (x :: l) (j - i) = Some s).
  { intros Hin. destruct (IH _ Hin) as [Hl Hr]. split; [done|].
    pose proof (rd_Some_range _ _ _ Hr). change (x :: l) with ([x] ++ l).
    rewrite rd_app_r by (unfold zlen; simpl; lia). rewrite <- Hr. f_equal. unfold zlen; simpl; lia. }
  destruct (live auto now x) eqn:E; [|by apply Hnext].
  destruct H as [H|H]; [|by apply Hnext]. simplify_eq. rewrite Z.sub_diag. done.
Qed.

Lemma live_servers_length auto now i l : zlen (live_servers auto now i l) = nlive auto now l.
Proof.
  revert i. induction l as [|s l IH]; intros i; [done|]. simpl. rewrite nlive_cons.
  destruct (live auto now s); [rewrite zlen_cons|]; rewrite IH; lia.
Qed.

(** ** Filling the continuum *)

Lemma store_points_spec c idx pts :
  0 <= idx -> idx + zlen pts <= zlen c ->
  store_points c idx pts = Some (blit c idx (map Some pts), idx + zlen pts).
Proof.
  revert c idx. induction pts as [|pt pts IH]; intros c idx Hi Hc; simpl.
  - unfold zlen; simpl. rewrite Z.add_0_r. f_equal. f_equal. unfold blit. simpl.
    by rewrite Nat.add_0_r, take_drop.
  - rewrite zlen_cons in Hc. pose proof (zlen_nonneg pts).
    destruct (Z.ltb_spec idx (zlen c)); [|lia].
    rewrite IH by (unfold zlen in *; rewrite ?length_insert; lia). rewrite zlen_cons.
    f_equal. f_equal; [|lia]. unfold blit. simpl length.
    replace (Z.to_nat (idx + 1)) with (S (Z.to_nat idx)) by lia.
    rewrite (take_S_r _ _ (Some pt)) by (apply list_lookup_insert_eq; unfold zlen in *; lia).
    rewrite take_insert_ge by lia. rewrite drop_insert_lt by lia.
    rewrite <- app_assoc. simpl. do 3 f_equal. f_equal. lia.
Qed.

(** A block whose first slots hold [pts]. *)
Definition filled (c : list (option cpoint)) (pts : list cpoint) : Prop :=
  exists rest, c = map Some pts ++ rest.

Lemma store_points_filled c pts0 pts :
  filled c pts0 -> zlen pts0 + zlen pts <= zlen c ->
  exists c', store_points c (zlen pts0) pts = Some (c', zlen pts0 + zlen pts) /\
    filled c' (pts0 ++ pts) /\ length c' = length c.
Proof.
  intros [rest ->] Hc. rewrite store_points_spec by (try apply zlen_nonneg; lia).
  eexists. split; [done|]. split.
  - exists (drop (length pts) rest). unfold blit, zlen. rewrite Nat2Z.id.
    rewrite take_app_length' by (by rewrite length_map).
    rewrite map_app, <- app_assoc. do 2 f_equal.
    rewrite <- drop_drop, drop_app_length' by (by rewrite length_map). by rewrite length_map.
  - apply length_blit; [apply zlen_nonneg|]. unfold zlen in *. rewrite length_map. lia.
Qed.

(** The points of the live servers, in the order the loops write them. *)
Definition all_points (f : Z -> server -> list cpoint) (lives : list (Z * server)) : list cpoint :=
  concat (map (fun e => f (fst e) (snd e)) lives).

Lemma all_points_index (f : Z -> server -> list cpoint) lives pt :
  (forall j s q, In q (f j s) -> cindex q = j) -> In pt (all_points f lives) ->
  exists s, In (cindex pt, s) lives.
Proof.
  intros Hf H. unfold all_points in H. apply in_concat in H as (l & Hl & Hpt).
  apply in_map_iff in Hl as ([j s] & <- & Hin). simpl in Hpt.
  exists s. by rewrite (Hf _ _ _ Hpt).
Qed.

Definition modula_points (j : Z) (s : server) : list cpoint :=
  replicate (Z.to_nat (sv_weight s)) (mk_cpoint j 0).

Lemma modula_points_index j s q : In q (modula_points j s) -> cindex q = j.
Proof. unfold modula_points. intros H%list_elem_of_In. by apply elem_of_replicate in H as [-> _]. Qed.

Lemma zlen_all_modula auto now i l :
  Forall (fun s => 0 <= sv_weight s) l ->
  zlen (all_points modula_points (live_servers auto now i l)) = live_weight auto now l.
Proof.
  intros Hw. revert i. induction Hw as [|s l Hs Hw IH]; intros i; [done|]. simpl.
  destruct (live auto now s); [|by rewrite IH].
  unfold all_points in *. simpl. rewrite zlen_app, IH. f_equal.
  unfold modula_points, zlen. rewrite length_replicate. lia.
Qed.

Lemma live_weight_nonneg auto now l : Forall (fun s => 0 <= sv_weight s) l -> 0 <= live_weight auto now l.
Proof. induction 1 as [|s l Hs Hw IH]; simpl; [lia|]. destruct (live _ _ _); lia. Qed.

Lemma modula_fill_spec auto now i l c pts0 :
  Forall (fun s => 0 <= sv_weight s) l -> filled c pts0 ->
  zlen pts0 + live_weight auto now l <= zlen c -> zlen pts0 + live_weight auto now l < 2 ^ 32 ->
  exists c', modula_fill auto now i l c (zlen pts0) (zlen pts0) =
    Some (c', zlen pts0 + live_weight auto now l, zlen pts0 + live_weight auto now l) /\
    filled c' (pts0 ++ all_points modula_points (live_servers auto now i l)) /\ length c' = length c.
Proof.
  intros Hw. revert i c pts0. induction Hw as [|s l Hs Hw IH]; intros i c pts0 Hf Hc H32; simpl.
  - exists c. rewrite Z.add_0_r, app_nil_r. done.
  - simpl in Hc, H32. pose proof (live_weight_nonneg auto now l Hw). pose proof (zlen_nonneg pts0).
    rewrite skipped_live. destruct (live auto now s); simpl.
    + assert (Hz : zlen (modula_points i s) = sv_weight s)
        by (unfold modula_points, zlen; rewrite length_replicate; lia).
      destruct (store_points_filled c pts0 (modula_points i s) Hf) as (c1 & E & Hf1 & Hl1); [lia|].
      fold (modula_points i s). rewrite E, Hz, u32_small by (unfold is_u32; lia).
      rewrite <- Hz, <- zlen_app.
      destruct (IH (i + 1) c1 (pts0 ++ modula_points i s) Hf1) as (c2 & E2 & Hf2 & Hl2);
        rewrite ?zlen_app, ?Hz; try (unfold zlen in *; lia).
      exists c2. rewrite zlen_app, Hz in E2. rewrite E2. split_and!; [by rewrite Z.add_assoc| |congruence].
      unfold all_points in *. simpl. by rewrite app_assoc.
    + apply IH; [done|lia|lia].
Qed.

Definition random_points (j : Z) (s : server) : list cpoint := [mk_cpoint j 0].

Lemma random_points_index j s q : In q (random_points j s) -> cindex q = j.
Proof. by intros [<-|[]]. Qed.

Lemma zlen_all_random lives : zlen (all_points random_points lives) = zlen lives.
Proof.
  induction lives as [|e lives IH]; [done|]. unfold all_points in *. simpl. by rewrite !zlen_cons, IH.
Qed.

Lemma random_fill_spec auto now i l c pts0 :
  filled c pts0 -> zlen pts0 + nlive auto now l <= zlen c -> zlen pts0 + nlive auto now l < 2 ^ 32 ->
  exists c', random_fill auto now i l c (zlen pts0) (zlen pts0) =
    Some (c', zlen pts0 + nlive auto now l, zlen pts0 + nlive auto now l) /\
    filled c' (pts0 ++ all_points random_points (live_servers auto now i l)) /\ length c' = length c.
Proof.
  revert i c pts0. induction l as [|s l IH]; intros i c pts0 Hf Hc H32.
  - exists c. simpl. unfold nlive, zlen. simpl. rewrite Z.add_0_r, app_nil_r. done.
  - rewrite nlive_cons in *. pose proof (nlive_range auto now l). pose proof (zlen_nonneg pts0). simpl.
    rewrite skipped_live. destruct (live auto now s); simpl.
    + destruct (store_points_filled c pts0 [mk_cpoint i 0] Hf) as (c1 & E & Hf1 & Hl1);
        [change (zlen [mk_cpoint i 0]) with 1; lia|].
      simpl in E. rewrite E, u32_small by (unfold is_u32; lia).
      change (zlen [mk_cpoint i 0]) with 1.
      assert (Hz1 : zlen (pts0 ++ [mk_cpoint i 0]) = zlen pts0 + 1) by (by rewrite zlen_app).
      rewrite <- Hz1.
      destruct (IH (i + 1) c1 (pts0 ++ [mk_cpoint i 0]) Hf1) as (c2 & E2 & Hf2 & Hl2);
        rewrite ?Hz1; try (unfold zlen in *; lia).
      exists c2. rewrite Hz1 in E2. rewrite E2. split_and!; [by rewrite Z.add_assoc| |congruence].
      unfold all_points in *. simpl. by rewrite <- app_assoc in Hf2.
    + apply IH; [done|lia|lia].
Qed.

Section KetamaFill.
Variables (stack : list Z) (total live_n : Z).

(** The rounds of four points a server gets. *)
Definition ketama_rounds (s : server) : nat := Z.to_nat (ketama_points (sv_weight s) total live_n / 4).

(** The points of a server on the ring. *)
Definition ketama_ring (j : Z) (s : server) : list cpoint :=
  concat (map (fun n => map (fun x => mk_cpoint j (ketama_hash stack (ketama_host (sv_name s) (Z.of_nat n)) x))
                           [0; 1; 2; 3]) (seq 0 (ketama_rounds s))).

(** The names fit the two fixed buffers of ketama_update and hold no
    conversion specifier. *)
Definition ketama_names_ok (s : server) : Prop :=
  zlen (sv_name s) <= 74 /\ sprintf_name_ok (sv_pname s) = true.

Lemma ketama_ring_index j s q : In q (ketama_ring j s) -> cindex q = j.
Proof.
  unfold ketama_ring. intros H. apply in_concat in H as (l & Hl & Hq).
  apply in_map_iff in Hl as (n & <- & _). apply in_map_iff in Hq as (x & <- & _). done.
Qed.

Lemma ketama_server_points_ring j s n k :
  zlen (sv_name s) <= 74 ->
  ketama_server_points stack j s (Z.of_nat n) k =
  Some (concat (map (fun n => map (fun x => mk_cpoint j (ketama_hash stack (ketama_host (sv_name s) (Z.of_nat n)) x))
                           [0; 1; 2; 3]) (seq n k))).
Proof.
  intros Hn. revert n. induction k as [|k IH]; intros n; [done|]. cbn [ketama_server_points seq map concat].
  assert (Hl : (length (ketama_host (sv_name s) (Z.of_nat n)) <= 85)%nat).
  { unfold ketama_host. rewrite !length_app. pose proof (dec_length (Z.of_nat n)). unfold zlen in *. simpl. lia. }
  unfold ketama_host_points, KETAMA_MAX_HOSTLEN.
  destruct (Z.leb_spec (zlen (ketama_host (sv_name s) (Z.of_nat n))) 86) as [_|H]; [|unfold zlen in H; lia].
  change (Z.to_nat (86 - 1)) with 85%nat. rewrite (take_ge (ketama_host _ _) 85), take_app_length by lia.
  replace (Z.of_nat n + 1) with (Z.of_nat (S n)) by lia. by rewrite IH.
Qed.

Lemma ketama_points_mult4 w t n : ketama_points w t n = 4 * (ketama_points w t n / 4) /\ 0 <= ketama_points w t n.
Proof.
  unfold ketama_points, u32, wrap. generalize (sf_floor (f32_of_f64 (SpecFloat.SFadd 53 1024
    (f32_mul (f32_div (f32_mul (f32_div (f32 w) (f32 t)) (f32 KETAMA_POINTS_PER_SERVER)) (f32 4)) (f32 n)) tiny))).
  intros z. Z.div_mod_to_equations. lia.
Qed.

Lemma zlen_ketama_ring j s : zlen (ketama_ring j s) = ketama_points (sv_weight s) total live_n.
Proof.
  destruct (ketama_points_mult4 (sv_weight s) total live_n) as [E H0].
  assert (Hlen : forall k n, zlen (concat (map (fun n => map (fun x =>
    mk_cpoint j (ketama_hash stack (ketama_host (sv_name s) (Z.of_nat n)) x)) [0; 1; 2; 3]) (seq n k))) = 4 * Z.of_nat k).
  { induction k as [|k IH]; intros n; [done|]. cbn [seq map concat]. rewrite zlen_app, IH.
    change (zlen [_; _; _; _]) with 4. lia. }
  unfold ketama_ring, ketama_rounds. rewrite Hlen. lia.
Qed.

Lemma ketama_fill_spec auto now i l c pts0 :
  Forall ketama_names_ok l -> filled c pts0 ->
  let pts := all_points ketama_ring (live_servers auto now i l) in
  zlen pts0 + zlen pts <= zlen c -> zlen pts0 + zlen pts < 2 ^ 32 ->
  exists c', ketama_fill stack auto now total live_n i l c (zlen pts0) (zlen pts0) =
    Some (c', zlen pts0 + zlen pts, zlen pts0 + zlen pts) /\
    filled c' (pts0 ++ pts) /\ length c' = length c.
Proof.
  intros Hok. revert i c pts0. induction Hok as [|s l Hs Hok IH]; intros i c pts0 Hf pts Hc H32.
  - exists c. simpl. unfold pts. simpl. unfold zlen. simpl. rewrite Z.add_0_r, app_nil_r. done.
  - simpl. rewrite skipped_live. unfold pts in *. clear pts. simpl in *.
    destruct (live auto now s); cbn [negb]; [|by apply IH].
    unfold all_points in *. cbn [map concat fst snd] in *. rewrite zlen_app in *.
    set (rest := concat (map _ (live_servers auto now (i + 1) l))) in *. pose proof (zlen_nonneg rest). pose proof (zlen_nonneg pts0).
    destruct Hs as [Hname Hfmt].
    rewrite (ketama_server_points_ring i s 0) by done. fold (ketama_rounds s). fold (ketama_ring i s).
    rewrite Hfmt. cbn [negb]. rewrite andb_false_r.
    destruct (store_points_filled c pts0 (ketama_ring i s) Hf) as (c1 & -> & Hf1 & Hl1); [lia|].
    rewrite <- (zlen_ketama_ring i s), u32_small by (unfold is_u32; pose proof (zlen_nonneg (ketama_ring i s)); lia).
    assert (Hz1 : zlen (pts0 ++ ketama_ring i s) = zlen pts0 + zlen (ketama_ring i s)) by (by rewrite zlen_app).
    rewrite <- Hz1.
    destruct (IH (i + 1) c1 (pts0 ++ ketama_ring i s) Hf1) as (c2 & E2 & Hf2 & Hl2);
      [fold rest; unfold zlen in *; lia|fold rest; lia|]. fold rest in E2, Hf2.
    exists c2. rewrite E2, Hz1. split_and!; [by rewrite Z.add_assoc| |congruence].
    by rewrite app_assoc.
Qed.

End KetamaFill.

(** ** The ring *)

Section Ring.
Variable qsort : list cpoint -> list cpoint.

(** qsort(3): a permutation of its input in the order of the comparison. *)
Definition qsort_ok : Prop :=
  forall l, Permutation l (qsort l) /\ StronglySorted (fun a b => ketama_item_cmp a b <= 0) (qsort l).

Lemma ketama_item_cmp_le a b : ketama_item_cmp a b <= 0 <-> cvalue a <= cvalue b.
Proof. unfold ketama_item_cmp. zcase; lia. Qed.

Definition ring_sorted (l : list cpoint) : Prop := StronglySorted (fun a b => cvalue a <= cvalue b) l.

Lemma sort_slots_spec c pts :
  qsort_ok -> filled c pts ->
  exists c' pts', sort_slots qsort c (zlen pts) = Some c' /\ filled c' pts' /\
    Permutation pts pts' /\ ring_sorted pts' /\ length c' = length c.
Proof.
  intros Hq [rest ->]. destruct (Hq pts) as [Hp Hs]. unfold sort_slots.
  destruct (Z.ltb_spec (zlen (map Some pts ++ rest)) (zlen pts)) as [H|_].
  { rewrite zlen_app in H. unfold zlen in H. rewrite length_map in H. lia. }
  unfold zlen. rewrite Nat2Z.id, take_app_length', drop_app_length' by (by rewrite length_map).
  assert (Hm : mapM (fun o : option cpoint => o) (map Some pts) = Some pts).
  { clear. induction pts as [|p pts IH]; simpl; [done|]. by rewrite IH. }
  rewrite Hm. do 2 eexists. split_and!; [done|by eexists|done| |].
  2: by rewrite !length_app, !length_map, (Permutation_length Hp).
  unfold ring_sorted. clear -Hs. induction Hs as [|a l Hs IH Ha]; [constructor|]. constructor; [done|].
  eapply List.Forall_impl; [|exact Ha]. intros b. by rewrite ketama_item_cmp_le.
Qed.


End Ring.

(** The point a hash goes to: the first one at or after it, or the first of
    the ring. *)
Definition ring_owner (pts : list cpoint) (hash : Z) : option Z :=
  match List.find (fun pt => hash <=? cvalue pt) pts with
  | Some pt => Some (cindex pt)
  | None => match pts with [] => None | pt :: _ => Some (cindex pt) end
  end.

Lemma rd_filled c pts i : filled c pts -> i < zlen pts -> rd c i = option_map Some (rd pts i).
Proof.
  intros [rest ->] Hi. rewrite rd_app_l by (unfold zlen in *; rewrite length_map; lia).
  unfold rd. destruct (0 <=? i); [|done]. by rewrite list_lookup_fmap.
Qed.

Lemma ring_sorted_rd pts i j a b :
  ring_sorted pts -> i <= j -> rd pts i = Some a -> rd pts j = Some b -> cvalue a <= cvalue b.
Proof.
  intros Hs Hij Ha Hb. unfold rd in *. destruct (Z.leb_spec 0 i); [|done]. destruct (Z.leb_spec 0 j); [|done].
  assert (Hn : (Z.to_nat i <= Z.to_nat j)%nat) by lia.
  revert Hn Ha Hb. generalize (Z.to_nat i) (Z.to_nat j). clear -Hs.
  induction Hs as [|x l Hs IH Hx]; intros n m Hn Ha Hb; [done|].
  destruct n as [|n]; simpl in Ha.
  - simplify_eq. destruct m as [|m]; simpl in Hb; [simplify_eq; lia|].
    rewrite List.Forall_forall in Hx. by eapply Hx, list_elem_of_In, list_elem_of_lookup_2.
  - destruct m as [|m]; [lia|]. eapply (IH n m); [lia|done|done].
Qed.

(** The binary search splits the ring at the hash. *)
Lemma ketama_search_spec fuel c pts hash l r :
  filled c pts -> ring_sorted pts ->
  0 <= l <= r -> r <= zlen pts -> r - l <= Z.of_nat fuel ->
  (forall i pt, i < l -> rd pts i = Some pt -> cvalue pt < hash) ->
  (forall i pt, r <= i -> rd pts i = Some pt -> hash <= cvalue pt) ->
  exists k, ketama_search fuel c hash l r = Some k /\ 0 <= k <= zlen pts /\
    (forall i pt, i < k -> rd pts i = Some pt -> cvalue pt < hash) /\
    (forall i pt, k <= i -> rd pts i = Some pt -> hash <= cvalue pt).
Proof.
  intros Hc Hs. revert l r. induction fuel as [|fuel IH]; intros l r Hlr Hr Hf Hlo Hhi; cbn [ketama_search].
  { destruct (Z.ltb_spec l r); [lia|]. exists r. replace l with r in * by lia. split_and!; try done; lia. }
  destruct (Z.ltb_spec l r).
  2: { exists r. replace l with r in * by lia. split_and!; try done; lia. }
  assert (Hm : l <= l + (r - l) / 2 < r) by (Z.div_mod_to_equations; lia).
  set (m := l + (r - l) / 2) in *. rewrite (rd_filled c pts) by (try done; lia).
  destruct (rd_is_Some pts m) as [pt Hpt]; [lia|]. rewrite Hpt. cbn [option_map].
  destruct (Z.ltb_spec (cvalue pt) hash).
  - apply IH; try lia; [|done]. intros i q Hi Hq.
    pose proof (ring_sorted_rd pts i m q pt Hs ltac:(lia) Hq Hpt). lia.
  - apply IH; try lia; [done|]. intros i q Hi Hq.
    pose proof (ring_sorted_rd pts m i pt q Hs ltac:(lia) Hpt Hq). lia.
Qed.

Lemma find_split pts hash k :
  0 <= k <= zlen pts ->
  (forall i pt, i < k -> rd pts i = Some pt -> cvalue pt < hash) ->
  (forall i pt, k <= i -> rd pts i = Some pt -> hash <= cvalue pt) ->
  List.find (fun pt => hash <=? cvalue pt) pts = rd pts k.
Proof.
  revert k. induction pts as [|x pts IH]; intros k Hk Hlo Hhi.
  - unfold rd. destruct (0 <=? k); [|done]. by rewrite lookup_nil.
  - simpl. rewrite zlen_cons in Hk. assert (Hshift : forall i pt, 0 <= i -> rd pts i = Some pt -> rd (x :: pts) (i + 1) = Some pt).
    { intros i pt Hi <-. change (x :: pts) with ([x] ++ pts). rewrite rd_app_r; [f_equal|]; unfold zlen; simpl; lia. }
    destruct (Z.leb_spec hash (cvalue x)).
    + destruct (Z.eq_dec k 0) as [->|]; [done|]. specialize (Hlo 0 x ltac:(lia) eq_refl). lia.
    + destruct (Z.eq_dec k 0) as [->|]; [specialize (Hhi 0 x ltac:(lia) eq_refl); lia|].
      rewrite (IH (k - 1)); [| |intros i pt Hi Hpt|intros i pt Hi Hpt].
      * change (x :: pts) with ([x] ++ pts). rewrite rd_app_r by (unfold zlen; simpl; lia). by f_equal.
      * lia.
      * pose proof (rd_Some_range _ _ _ Hpt). apply (Hlo (i + 1)); [lia|]. apply Hshift; [lia|done].
      * apply (Hhi (i + 1)); [lia|]. apply Hshift; [lia|done].
Qed.

Lemma ketama_dispatch_owner c pts hash :
  filled c pts -> ring_sorted pts -> pts <> [] ->
  ketama_dispatch c (zlen pts) hash = ring_owner pts hash.
Proof.
  intros Hc Hs Hne. unfold ketama_dispatch, ring_owner. pose proof (zlen_nonneg pts).
  destruct (ketama_search_spec (Z.to_nat (zlen pts)) c pts hash 0 (zlen pts)) as (k & -> & Hk & Hlo & Hhi);
    try done; try lia.
  - intros i pt Hi Hpt%rd_Some_range. lia.
  - intros i pt Hi Hpt%rd_Some_range. lia.
  - rewrite (find_split pts hash k) by done. unfold slot_index.
    destruct (Z.eqb_spec k (zlen pts)) as [->|].
    + assert (Hnone : rd pts (zlen pts) = None).
      { unfold rd, zlen. destruct (0 <=? _); [|done]. apply lookup_ge_None. lia. }
      rewrite Hnone. destruct pts as [|x pts]; [done|].
      rewrite (rd_filled c (x :: pts) 0) by (try done; rewrite zlen_cons; pose proof (zlen_nonneg pts); lia). done.
    + rewrite (rd_filled c pts) by (try done; lia). destruct (rd_is_Some pts k) as [pt ->]; [lia|]. done.
Qed.
