(* ===== verification/PoolFloat.v ===== *)
(** The single precision arithmetic of ketama_update: how far the number of
    points of a server is from its exact share, and that the points of all
    servers fit the slots allocated for them.

    A float [m * 2^e] is measured in units of [2^-300]. *)

From Stdlib Require Import SpecFloat.
From S2P Require Import Prelude HashKit Md5 Pool.

Local Open Scope Z_scope.

(** ** Rounding *)

Lemma digits2_bounds p : 2 ^ (Zpos (digits2_pos p) - 1) <= Zpos p < 2 ^ Zpos (digits2_pos p).
Proof.
  induction p as [p IH|p IH|]; simpl digits2_pos; [| |done].
  all: rewrite Pos2Z.inj_succ; replace (Z.succ (Z.pos (digits2_pos p)) - 1) with (Z.succ (Z.pos (digits2_pos p) - 1)) by lia.
  all: rewrite !Z.pow_succ_r by lia; lia.
Qed.

Lemma digits2_unique p d : 2 ^ (d - 1) <= Zpos p < 2 ^ d -> Zpos (digits2_pos p) = d.
Proof.
  intros H. pose proof (digits2_bounds p) as Hp. set (d' := Zpos (digits2_pos p)) in *.
  assert (Hd : 0 < d') by (subst d'; lia).
  destruct (Z.lt_trichotomy d d') as [L|[E|L]]; [|done|].
  - assert (2 ^ d <= 2 ^ (d' - 1)) by (apply Z.pow_le_mono_r; lia). lia.
  - assert (2 ^ d' <= 2 ^ (d - 1)) by (apply Z.pow_le_mono_r; lia). lia.
Qed.

Lemma shr_1_m x : 0 <= shr_m x -> shr_m (shr_1 x) = shr_m x / 2 /\ 0 <= shr_m (shr_1 x).
Proof.
  destruct x as [m r s]. cbn [shr_m]. intros Hm. destruct m as [|[p|p|]|p]; cbn [shr_m shr_1]; try (split; [done|lia]); try lia.
  all: Z.div_mod_to_equations; lia.
Qed.

Lemma iter_pos_shr p x :
  0 <= shr_m x -> shr_m (SpecFloat.iter_pos shr_1 p x) = shr_m x / 2 ^ Zpos p /\ 0 <= shr_m (SpecFloat.iter_pos shr_1 p x).
Proof.
  revert x. induction p as [p IH|p IH|]; intros x Hx; cbn [SpecFloat.iter_pos].
  - destruct (shr_1_m x Hx) as [E1 P1]. destruct (IH _ P1) as [E2 P2]. destruct (IH _ P2) as [E3 P3].
    split; [|done]. rewrite E3, E2, E1, !Z.div_div by (try apply Z.pow_nonzero; lia). f_equal.
    replace (Z.pos p~1) with (1 + Z.pos p + Z.pos p) by lia. rewrite !Z.pow_add_r by lia. lia.
  - destruct (IH _ Hx) as [E2 P2]. destruct (IH _ P2) as [E3 P3].
    split; [|done]. rewrite E3, E2, !Z.div_div by (try apply Z.pow_nonzero; lia). f_equal.
    replace (Z.pos p~0) with (Z.pos p + Z.pos p) by lia. rewrite !Z.pow_add_r by lia. lia.
  - destruct (shr_1_m x Hx) as [E1 P1]. split; [|done]. rewrite E1. done.
Qed.

Lemma shr_spec x e n :
  0 <= shr_m x -> shr_m (fst (shr x e n)) = shr_m x / 2 ^ Z.max 0 n /\ snd (shr x e n) = e + Z.max 0 n.
Proof.
  intros Hx. destruct n as [|p|p]; simpl.
  - rewrite Z.div_1_r. lia.
  - by destruct (iter_pos_shr p x Hx).
  - rewrite Z.div_1_r. lia.
Qed.

Lemma shr_m_loc m l : shr_m (shr_record_of_loc m l) = m.
Proof. by destruct l as [|[]]. Qed.

Lemma round_nearest_cases m l : round_nearest_even m l = m \/ round_nearest_even m l = m + 1.
Proof. destruct l as [|[]]; simpl; auto. destruct (Z.even m); auto. Qed.

Section Round.
Variables (prec emax : Z).
Hypothesis Hprec : 2 <= prec.

Lemma fexp_normal d e : emin prec emax + prec <= d + e -> fexp prec emax (d + e) - e = d - prec.
Proof. unfold fexp. lia. Qed.

(** Rounding a mantissa of at least [prec] digits: the result has [prec]
    digits and is one of the two neighbours. *)
Lemma round_aux_spec m e l d :
  Zpos (digits2_pos m) = d -> prec <= d -> emin prec emax + prec <= d + e -> d + e + 1 <= emax ->
  exists m2 e2, binary_round_aux prec emax false (Zpos m) e l = S754_finite false m2 e2 /\
    2 ^ (prec - 1) <= Zpos m2 < 2 ^ prec /\ e + (d - prec) <= e2 <= e + (d - prec) + 1 /\
    let m1 := Zpos m / 2 ^ (d - prec) in
    2 ^ (prec - 1) <= m1 /\ m1 * 2 ^ (d - prec) <= Zpos m < (m1 + 1) * 2 ^ (d - prec) /\
    m1 <= Zpos m2 * 2 ^ (e2 - (e + (d - prec))) <= m1 + 1.
Proof.
  intros Hd Hpd Hn He. pose proof (digits2_bounds m) as Hm. rewrite Hd in Hm.
  unfold binary_round_aux. change (Zdigits2 (Zpos m)) with (Zpos (digits2_pos m)). unfold shr_fexp at 1.
  change (Zdigits2 (Zpos m)) with (Zpos (digits2_pos m)). rewrite Hd, fexp_normal by done.
  destruct (shr_spec (shr_record_of_loc (Zpos m) l) e (d - prec)) as [E1 E2]; [by rewrite shr_m_loc|].
  rewrite shr_m_loc, Z.max_r in E1 by lia. rewrite Z.max_r in E2 by lia.
  destruct (shr _ e (d - prec)) as [x1 e1]. simpl in E1, E2. subst e1.
  set (m1 := Zpos m / 2 ^ (d - prec)) in *.
  assert (Hp0 : 0 < 2 ^ (d - prec)) by (apply Z.pow_pos_nonneg; lia).
  assert (Hlo : m1 * 2 ^ (d - prec) <= Zpos m < (m1 + 1) * 2 ^ (d - prec)).
  { unfold m1. pose proof (Z.div_mod (Zpos m) (2 ^ (d - prec)) ltac:(lia)). pose proof (Z.mod_pos_bound (Zpos m) (2 ^ (d - prec)) Hp0). lia. }
  assert (Hm1 : 2 ^ (prec - 1) <= m1 < 2 ^ prec).
  { split.
    - apply Z.div_le_lower_bound; [lia|]. rewrite <- Z.pow_add_r by lia. replace (d - prec + (prec - 1)) with (d - 1) by lia. apply Hm.
    - apply Z.div_lt_upper_bound; [lia|]. rewrite <- Z.pow_add_r by lia. replace (d - prec + prec) with d by lia. apply Hm. }
  assert (Hx : exists x, round_nearest_even (shr_m x1) (loc_of_shr_record x1) = Zpos x /\ m1 <= Zpos x <= m1 + 1).
  { rewrite E1. assert (0 < 2 ^ (prec - 1)) by (apply Z.pow_pos_nonneg; lia).
    destruct (round_nearest_cases m1 (loc_of_shr_record x1)) as [-> | ->].
    - exists (Z.to_pos m1). rewrite Z2Pos.id by lia. lia.
    - exists (Z.to_pos (m1 + 1)). rewrite Z2Pos.id by lia. lia. }
  destruct Hx as (x & -> & Hxr). assert (Hpp : 2 ^ prec = 2 * 2 ^ (prec - 1)) by (rewrite <- Z.pow_succ_r by lia; f_equal; lia).
  unfold shr_fexp. change (Zdigits2 (Zpos x)) with (Zpos (digits2_pos x)).
  destruct (Z.lt_ge_cases (Zpos x) (2 ^ prec)) as [Hxp|Hxp].
  - assert (Hdx : Zpos (digits2_pos x) = prec) by (apply digits2_unique; lia).
    rewrite Hdx, fexp_normal by lia. rewrite Z.sub_diag. simpl.
    destruct (Z.leb_spec (e + (d - prec)) (emax - prec)); [|lia].
    exists x, (e + (d - prec)). rewrite Z.sub_diag, Z.mul_1_r. split_and!; done || lia.
  - assert (Hxe : Zpos x = 2 ^ prec) by lia.
    assert (Hdx : Zpos (digits2_pos x) = prec + 1).
    { apply digits2_unique. replace (prec + 1 - 1) with prec by lia. rewrite Hxe, Z.pow_add_r by lia. lia. }
    rewrite Hdx, fexp_normal by lia. replace (prec + 1 - prec) with 1 by lia.
    destruct (shr_spec (shr_record_of_loc (Zpos x) loc_Exact) (e + (d - prec)) 1) as [E3 E4]; [done|].
    destruct (shr _ (e + (d - prec)) 1) as [x2 e2]. cbn [fst snd] in E3, E4. rewrite shr_m_loc in E3.
    change (Z.max 0 1) with 1 in E3, E4. change (2 ^ 1) with 2 in E3. subst e2.
    assert (Hh : Zpos x / 2 = 2 ^ (prec - 1)) by (rewrite Hxe, Hpp, Z.mul_comm, Z.div_mul by lia; done).
    assert (0 < 2 ^ (prec - 1)) by (apply Z.pow_pos_nonneg; lia).
    rewrite E3, Hh. destruct (2 ^ (prec - 1)) as [|y|] eqn:Ey; try lia.
    destruct (Z.leb_spec (e + (d - prec) + 1) (emax - prec)); [|lia].
    exists y, (e + (d - prec) + 1).
    replace (e + (d - prec) + 1 - (e + (d - prec))) with 1 by lia. split_and!; try done; lia.
Qed.

End Round.

(** ** Values *)

(** Two inequalities up to factors, one after the other. *)
Lemma chain a b c p q r s : 0 <= q -> 0 <= r -> a * p <= b * q -> b * r <= c * s -> a * (p * r) <= c * (q * s).
Proof.
  intros Hq Hr H1 H2. assert (a * p * r <= b * q * r) by (by apply Z.mul_le_mono_nonneg_r).
  assert (b * r * q <= c * s * q) by (by apply Z.mul_le_mono_nonneg_r). lia.
Qed.

Definition V (m e : Z) : Z := m * 2 ^ (e + 300).
Definition P24 : Z := 2 ^ 23.

(** [x] has [prec] digits. *)
Definition normal (prec m : Z) : Prop := 2 ^ (prec - 1) <= m < 2 ^ prec.

Lemma round_val prec emax m e l d :
  2 <= prec -> -300 <= e ->
  Zpos (digits2_pos m) = d -> prec <= d -> emin prec emax + prec <= d + e -> d + e + 1 <= emax ->
  exists m2 e2, binary_round_aux prec emax false (Zpos m) e l = S754_finite false m2 e2 /\
    normal prec (Zpos m2) /\ e + (d - prec) <= e2 <= e + (d - prec) + 1 /\
    V (Zpos m2) e2 * 2 ^ (prec - 1) <= V (Zpos m) e * (2 ^ (prec - 1) + 1) /\
    V (Zpos m + 1) e * 2 ^ (prec - 1) <= V (Zpos m2) e2 * (2 ^ (prec - 1) + 1).
Proof.
  intros Hprec He Hd Hpd Hn Hmax.
  destruct (round_aux_spec prec emax Hprec m e l d Hd Hpd Hn Hmax) as (m2 & e2 & Hr & Hnm & He2 & H1 & H2 & H3).
  exists m2, e2. split; [done|]. split; [exact Hnm|]. split; [exact He2|]. unfold V. split.
  all: set (m1 := Zpos m / 2 ^ (d - prec)) in *; set (P := 2 ^ (prec - 1)) in *.
  all: assert (HT : 0 < 2 ^ (e + 300)) by (apply Z.pow_pos_nonneg; lia); assert (HK : 0 < 2 ^ (d - prec)) by (apply Z.pow_pos_nonneg; lia).
  all: assert (HX : Zpos m2 * 2 ^ (e2 + 300) = Zpos m2 * 2 ^ (e2 - (e + (d - prec))) * (2 ^ (d - prec) * 2 ^ (e + 300)))
    by (rewrite <- Z.mul_assoc, <- !Z.pow_add_r by lia; do 2 f_equal; lia).
  all: rewrite HX; set (X := Zpos m2 * 2 ^ (e2 - (e + (d - prec)))) in *; set (T := 2 ^ (e + 300)) in *; set (K := 2 ^ (d - prec)) in *.
  - assert (X * (K * T) * P <= (m1 + 1) * (K * T) * P) by (repeat apply Z.mul_le_mono_nonneg_r; nia).
    assert (K * T * P <= K * T * m1) by (apply Z.mul_le_mono_nonneg_l; nia).
    assert (m1 * K * T * (P + 1) <= Zpos m * T * (P + 1)) by (repeat apply Z.mul_le_mono_nonneg_r; try nia; lia). nia.
  - assert (m1 * (K * T) * (P + 1) <= X * (K * T) * (P + 1)) by (repeat apply Z.mul_le_mono_nonneg_r; nia).
    assert (K * T * P <= K * T * m1) by (apply Z.mul_le_mono_nonneg_l; nia).
    assert ((Zpos m + 1) * T * P <= (m1 + 1) * K * T * P) by (repeat apply Z.mul_le_mono_nonneg_r; try nia; lia). nia.
Qed.

Lemma iter_xO m d : Zpos (Pos.iter xO m d) = Zpos m * 2 ^ Zpos d.
Proof.
  induction d as [|d IH] using Pos.peano_ind; [simpl; lia|].
  rewrite Pos.iter_succ, Pos2Z.inj_succ, Z.pow_succ_r by lia. rewrite Pos2Z.inj_xO, IH. lia.
Qed.

Lemma shl_align_val m e e' :
  e' <= e -> Zpos (fst (shl_align m e e')) = Zpos m * 2 ^ (e - e') /\ snd (shl_align m e e') = e'.
Proof.
  intros H. unfold shl_align. destruct (e' - e) as [|d|d] eqn:E; simpl.
  - replace e' with e by lia. rewrite Z.sub_diag. lia.
  - lia.
  - rewrite iter_xO. split; [|done]. do 2 f_equal. lia.
Qed.

Lemma shl_align_id m e e' : e <= e' -> shl_align m e e' = (m, e).
Proof. intros H. unfold shl_align. destruct (e' - e) eqn:E; [done|done|lia]. Qed.

(** ** The operations of the formula *)

Lemma f32_val z :
  1 <= z < 2 ^ 24 ->
  exists m e, f32 z = S754_finite false m e /\ normal 24 (Zpos m) /\ -24 <= e <= 1 /\
    V (Zpos m) e * P24 <= z * 2 ^ 300 * (P24 + 1) /\ z * 2 ^ 300 * P24 <= V (Zpos m) e * (P24 + 1).
Proof.
  intros Hz. destruct z as [|z|z]; [lia| |lia]. unfold f32, binary_normalize, binary_round.
  pose proof (digits2_bounds z) as Hb. set (d := Zpos (digits2_pos z)) in *. rewrite Z.add_0_r.
  assert (Hd : 1 <= d <= 24).
  { split; [lia|]. destruct (Z.le_gt_cases d 24); [done|]. assert (2 ^ 24 <= 2 ^ (d - 1)) by (apply Z.pow_le_mono_r; lia). lia. }
  assert (Hf : fexp 24 128 d = d - 24) by (unfold fexp, emin; lia). rewrite Hf.
  destruct (shl_align_val z 0 (d - 24)) as [Hm He]; [lia|]. destruct (shl_align z 0 (d - 24)) as [mz ez]. simpl in Hm, He. subst ez.
  assert (Hmz : 2 ^ (24 - 1) <= Zpos mz < 2 ^ 24).
  { rewrite Hm. replace (0 - (d - 24)) with (24 - d) by lia. split.
    - replace (24 - 1) with ((d - 1) + (24 - d)) by lia. rewrite Z.pow_add_r by lia. apply Z.mul_le_mono_nonneg_r; [apply Z.pow_nonneg|]; lia.
    - replace 24 with (d + (24 - d)) at 2 by lia. rewrite Z.pow_add_r by lia. apply Z.mul_lt_mono_pos_r; [apply Z.pow_pos_nonneg|]; lia. }
  destruct (round_val 24 128 mz (d - 24) loc_Exact 24) as (m2 & e2 & Hr & Hn & He2 & Hu & Hl);
    [lia|lia|by apply digits2_unique|lia|unfold emin; lia|lia|].
  exists m2, e2. split; [done|]. split; [exact Hn|]. split; [lia|]. split.
  all: assert (Hv : V (Zpos mz) (d - 24) = Zpos z * 2 ^ 300)
    by (unfold V; rewrite Hm, <- Z.mul_assoc, <- Z.pow_add_r by lia; do 2 f_equal; lia).
  - by rewrite <- Hv.
  - rewrite <- Hv. unfold V in *. assert (0 <= 2 ^ (d - 24 + 300)) by (apply Z.pow_nonneg; lia). unfold P24. nia.
Qed.

Lemma mul_val m1 e1 m2 e2 :
  normal 24 (Zpos m1) -> normal 24 (Zpos m2) -> -150 <= e1 + e2 <= 70 -> -100 <= e1 -> -100 <= e2 -> -140 <= e1 + e2 + 23 ->
  exists m e, f32_mul (S754_finite false m1 e1) (S754_finite false m2 e2) = S754_finite false m e /\ normal 24 (Zpos m) /\
    e1 + e2 + 23 <= e <= e1 + e2 + 25 /\
    V (Zpos m) e * 2 ^ 300 * P24 <= V (Zpos m1) e1 * V (Zpos m2) e2 * (P24 + 1) /\
    V (Zpos m1) e1 * V (Zpos m2) e2 * P24 <= V (Zpos m) e * 2 ^ 300 * (P24 + 1).
Proof.
  intros H1 H2 He Hl1 Hl2 Hn. unfold normal in *. simpl in H1, H2. unfold f32_mul. cbn [SFmul xorb].
  assert (Hm : 2 ^ 46 <= Zpos (m1 * m2) < 2 ^ 48) by (rewrite Pos2Z.inj_mul; nia).
  assert (Hd : exists d, Zpos (digits2_pos (m1 * m2)) = d /\ 47 <= d <= 48).
  { destruct (Z.lt_ge_cases (Zpos (m1 * m2)) (2 ^ 47)).
    - exists 47. split; [apply digits2_unique; lia|lia].
    - exists 48. split; [apply digits2_unique; lia|lia]. }
  destruct Hd as (d & Hd & Hdr).
  destruct (round_val 24 128 (m1 * m2) (e1 + e2) loc_Exact d) as (m & e & Hr & Hnm & He2 & Hu & Hl);
    [lia|lia|done|lia|unfold emin; lia|lia|].
  exists m, e. split; [done|]. split; [exact Hnm|]. split; [lia|]. split.
  all: assert (Hv : V (Zpos m1) e1 * V (Zpos m2) e2 = V (Zpos (m1 * m2)) (e1 + e2) * 2 ^ 300)
    by (unfold V; rewrite Pos2Z.inj_mul; replace (e1 + e2 + 300) with (e1 + e2 + 600 - 300) by lia;
        transitivity (Zpos m1 * Zpos m2 * 2 ^ (e1 + e2 + 600)); [rewrite (Z.mul_shuffle1 _ (2 ^ _)), <- Z.pow_add_r by lia; do 2 f_equal; lia|];
        rewrite <- !Z.mul_assoc, <- Z.pow_add_r by lia; do 3 f_equal; lia).
  - rewrite Hv. change (2 ^ (24 - 1)) with P24 in Hu. assert (0 <= 2 ^ 300) by lia. nia.
  - rewrite Hv. change (2 ^ (24 - 1)) with P24 in Hl. unfold V in *.
    assert (0 <= 2 ^ (e1 + e2 + 300)) by (apply Z.pow_nonneg; lia). unfold P24 in *. nia.
Qed.

Lemma div_val m1 e1 m2 e2 :
  normal 24 (Zpos m1) -> normal 24 (Zpos m2) -> -100 <= e1 <= 60 -> -100 <= e2 <= 60 -> -90 <= e1 - e2 <= 90 ->
  exists m e, f32_div (S754_finite false m1 e1) (S754_finite false m2 e2) = S754_finite false m e /\ normal 24 (Zpos m) /\
    e1 - e2 - 24 <= e <= e1 - e2 - 22 /\
    V (Zpos m) e * V (Zpos m2) e2 * P24 <= V (Zpos m1) e1 * 2 ^ 300 * (P24 + 1) /\
    V (Zpos m1) e1 * 2 ^ 300 * P24 <= V (Zpos m) e * V (Zpos m2) e2 * (P24 + 1).
Proof.
  intros H1 H2 Hr1 Hr2 He. unfold normal in *. simpl in H1, H2. unfold f32_div. cbn [SFdiv xorb]. unfold SFdiv_core_binary.
  cbn [Zdigits2]. rewrite (digits2_unique m1 24), (digits2_unique m2 24) by done.
  assert (Hf : Z.min (fexp 24 128 (24 + e1 - (24 + e2))) (e1 - e2) = e1 - e2 - 24) by (unfold fexp, emin; lia).
  rewrite Hf. replace (e1 - e2 - (e1 - e2 - 24)) with 24 by lia. rewrite Z.shiftl_mul_pow2 by lia.
  pose proof (Z_div_mod (Zpos m1 * 2 ^ 24) (Zpos m2) ltac:(lia)) as Hq.
  destruct (Z.div_eucl (Zpos m1 * 2 ^ 24) (Zpos m2)) as [q r]. destruct Hq as [Hq Hrr].
  assert (Hqr : 2 ^ 23 <= q < 2 ^ 25) by nia. destruct q as [|q|q]; try lia.
  assert (Hd : exists d, Zpos (digits2_pos q) = d /\ 24 <= d <= 25).
  { destruct (Z.lt_ge_cases (Zpos q) (2 ^ 24)).
    - exists 24. split; [apply digits2_unique; lia|lia].
    - exists 25. split; [apply digits2_unique; lia|lia]. }
  destruct Hd as (d & Hd & Hdr).
  destruct (round_val 24 128 q (e1 - e2 - 24) (new_location (Zpos m2) r) d) as (m & e & Hr & Hnm & He2 & Hu & Hl);
    [lia|lia|done|lia|unfold emin; lia|lia|].
  exists m, e. split; [done|]. split; [exact Hnm|]. split; [lia|].
  change (2 ^ (24 - 1)) with P24 in Hu, Hl. assert (HB : 0 < V (Zpos m2) e2) by (apply Z.mul_pos_pos; [lia|apply Z.pow_pos_nonneg; lia]).
  assert (Hv : forall k, V k (e1 - e2 - 24) * V (Zpos m2) e2 = k * Zpos m2 * 2 ^ (e1 + 576)).
  { intros k. unfold V. rewrite (Z.mul_shuffle1 k), <- Z.pow_add_r by lia. do 2 f_equal. lia. }
  assert (Hv1 : V (Zpos m1) e1 * 2 ^ 300 = Zpos m1 * 2 ^ 24 * 2 ^ (e1 + 576)).
  { unfold V. rewrite <- !Z.mul_assoc, <- !Z.pow_add_r by lia. do 2 f_equal. lia. }
  assert (HT : 0 < 2 ^ (e1 + 576)) by (apply Z.pow_pos_nonneg; lia).
  assert (HP : 0 < P24) by done. split.
  - assert (V (Zpos m) e * P24 * V (Zpos m2) e2 <= V (Zpos q) (e1 - e2 - 24) * (P24 + 1) * V (Zpos m2) e2) by (apply Z.mul_le_mono_nonneg_r; lia).
    assert (V (Zpos q) (e1 - e2 - 24) * V (Zpos m2) e2 <= V (Zpos m1) e1 * 2 ^ 300)
      by (rewrite Hv, Hv1; apply Z.mul_le_mono_nonneg_r; lia). nia.
  - assert (V (Zpos q + 1) (e1 - e2 - 24) * P24 * V (Zpos m2) e2 <= V (Zpos m) e * (P24 + 1) * V (Zpos m2) e2) by (apply Z.mul_le_mono_nonneg_r; lia).
    assert (V (Zpos m1) e1 * 2 ^ 300 <= V (Zpos q + 1) (e1 - e2 - 24) * V (Zpos m2) e2)
      by (rewrite Hv, Hv1; apply Z.mul_le_mono_nonneg_r; lia). nia.
Qed.

(** Adding 1e-10 in double precision and rounding back. *)
Definition tiny_val : Z := V 7737125245533627 (-86).
Definition P53 : Z := 2 ^ 52.

Lemma add_tiny_val m e :
  normal 24 (Zpos m) -> -50 <= e <= 60 ->
  exists m2 e2, f32_of_f64 (SFadd 53 1024 (S754_finite false m e) tiny) = S754_finite false m2 e2 /\ normal 24 (Zpos m2) /\
    e - 1 <= e2 <= e + 4 /\
    V (Zpos m2) e2 * (P53 * P24) <= (V (Zpos m) e + tiny_val) * ((P53 + 1) * (P24 + 1)) /\
    V (Zpos m) e * (P53 * P24) <= V (Zpos m2) e2 * ((P53 + 1) * (P24 + 1)).
Proof.
  intros Hm He. unfold normal in Hm. simpl in Hm. unfold tiny. cbn [SFadd]. replace (Z.min e (-86)) with (-86) by lia.
  destruct (shl_align_val m e (-86)) as [Ha _]; [lia|]. rewrite Ha. rewrite (shl_align_id _ (-86) (-86)) by lia. cbn [fst cond_Zopp].
  replace (e - -86) with (e + 86) by lia. set (S := Zpos m * 2 ^ (e + 86) + 7737125245533627).
  assert (HS : 2 ^ (e + 109) <= S < 2 ^ (e + 111)).
  { unfold S. replace (e + 109) with (23 + (e + 86)) by lia. replace (e + 111) with (24 + (e + 86) + 1) by lia.
    rewrite (Z.pow_add_r 2 23 (e + 86)), (Z.pow_add_r 2 (24 + (e + 86)) 1), (Z.pow_add_r 2 24 (e + 86)) by lia.
    assert (2 ^ 36 <= 2 ^ (e + 86)) by (apply Z.pow_le_mono_r; lia).
    set (K := 2 ^ (e + 86)) in *. clearbody K. clear -Hm H.
    assert (2 ^ 23 * K <= Zpos m * K) by (apply Z.mul_le_mono_nonneg_r; lia).
    assert (Zpos m * K <= 2 ^ 24 * K) by (apply Z.mul_le_mono_nonneg_r; lia). set (A := Zpos m * K) in *. lia. }
  assert (Hpos : 2 ^ 59 <= S) by (assert (2 ^ 59 <= 2 ^ (e + 109)) by (apply Z.pow_le_mono_r; lia); lia).
  assert (HVS : V S (-86) = V (Zpos m) e + tiny_val).
  { unfold S, V, tiny_val, V. rewrite Z.mul_add_distr_r, <- Z.mul_assoc, <- Z.pow_add_r by lia. do 3 f_equal. lia. }
  destruct S as [|s|s]; try lia. unfold binary_normalize at 1, binary_round.
  assert (Hd : exists d, Zpos (digits2_pos s) = d /\ e + 110 <= d <= e + 111).
  { destruct (Z.lt_ge_cases (Zpos s) (2 ^ (e + 110))).
    - exists (e + 110). split; [apply digits2_unique; replace (e + 110 - 1) with (e + 109) by lia; lia|lia].
    - exists (e + 111). split; [apply digits2_unique; replace (e + 111 - 1) with (e + 110) by lia; lia|lia]. }
  destruct Hd as (d & Hd & Hdr). rewrite Hd. rewrite shl_align_id by (unfold fexp, emin; lia).
  destruct (round_val 53 1024 s (-86) loc_Exact d) as (m3 & e3 & -> & Hn3 & He3 & Hu3 & Hl3);
    [lia|lia|done|lia|unfold emin; lia|lia|].
  unfold f32_of_f64. cbn [cond_Zopp]. unfold binary_normalize, binary_round.
  assert (Hd3 : Zpos (digits2_pos m3) = 53) by (by apply digits2_unique). rewrite Hd3.
  rewrite shl_align_id by (unfold fexp, emin; lia).
  destruct (round_val 24 128 m3 e3 loc_Exact 53) as (m4 & e4 & Hr4 & Hn4 & He4 & Hu4 & Hl4);
    [lia|lia|done|lia|unfold emin; lia|lia|].
  exists m4, e4. split; [done|]. split; [exact Hn4|]. split; [lia|].
  change (2 ^ (24 - 1)) with P24 in *. change (2 ^ (53 - 1)) with P53 in *. rewrite <- HVS.
  assert (HP : 0 < P24 /\ 0 < P53) by done. split.
  { rewrite (Z.mul_comm P53), (Z.mul_comm (P53 + 1)). apply (chain _ (V (Zpos m3) e3)); lia. }
  assert (V (Zpos m3) e3 <= V (Zpos m3 + 1) e3) by (unfold V; assert (0 < 2 ^ (e3 + 300)) by (apply Z.pow_pos_nonneg; lia); nia).
  assert (V (Zpos s) (-86) <= V (Zpos s + 1) (-86)) by (unfold V; assert (0 < 2 ^ (-86 + 300)) by done; nia).
  assert (0 <= tiny_val) by done. apply (chain _ (V (Zpos m3) e3)); [lia|lia| |].
  - etransitivity; [|exact Hl3]. apply Z.mul_le_mono_nonneg_r; lia.
  - etransitivity; [|exact Hl4]. apply Z.mul_le_mono_nonneg_r; lia.
Qed.

Lemma sf_floor_val m e :
  -300 <= e -> sf_floor (S754_finite false m e) * 2 ^ 300 <= V (Zpos m) e < (sf_floor (S754_finite false m e) + 1) * 2 ^ 300.
Proof.
  intros He. unfold sf_floor, V. cbn [cond_Zopp]. destruct (Z.le_gt_cases 0 e).
  - rewrite Z.shiftl_mul_pow2 by lia. rewrite Z.pow_add_r by lia. nia.
  - assert (Hs : Z.shiftl (Zpos m) e = Zpos m / 2 ^ (- e))
      by (rewrite <- Z.shiftr_div_pow2 by lia; unfold Z.shiftr; by rewrite Z.opp_involutive). rewrite Hs.
    replace (2 ^ 300) with (2 ^ (- e) * 2 ^ (e + 300)) by (rewrite <- Z.pow_add_r by lia; f_equal; lia).
    assert (HK : 0 < 2 ^ (- e)) by (apply Z.pow_pos_nonneg; lia). assert (HT : 0 < 2 ^ (e + 300)) by (apply Z.pow_pos_nonneg; lia).
    pose proof (Z.div_mod (Zpos m) (2 ^ (- e)) ltac:(lia)). pose proof (Z.mod_pos_bound (Zpos m) (2 ^ (- e)) HK).
    set (q := Zpos m / 2 ^ (- e)) in *. set (K := 2 ^ (- e)) in *. set (T := 2 ^ (e + 300)) in *. split.
    + replace (q * (K * T)) with (K * q * T) by lia. apply Z.mul_le_mono_nonneg_r; lia.
    + replace ((q + 1) * (K * T)) with ((K * q + K) * T) by lia. apply Z.mul_lt_mono_pos_r; lia.
Qed.

(** ** The share of a server *)

Definition fitA : Z := P53 * P24 ^ 8 * 2 ^ 33.
Definition fitB : Z := (P53 + 1) * (P24 + 1) ^ 8 * 2 ^ 33.
Definition fitC : Z := (P53 + 1) * (P24 + 1) * P24 ^ 7.

(** Enough rounding slack to be absorbed by one point in [2^14] servers. *)
Lemma fit_slack : 2 ^ 14 * (40 * (fitB - fitA) + fitC) < fitA.
Proof. by vm_compute. Qed.

Section Share.
Variables (w W n : Z).
Hypothesis Hw : 1 <= w <= W.
Hypothesis HW : W < 2 ^ 24.
Hypothesis Hn : 1 <= n <= 2 ^ 14.

(** The chain of roundings, from above: [a] and [b] for the weights, [D] for
    the quotient, [M] and [Q] for the product by 40, [N] for the number of
    servers, [X] for the share, [Y] after the addition. *)
Lemma share_upper a b D M Q N X Y S y :
  0 < S -> 0 <= a -> 0 <= D -> 0 <= M -> 0 <= Q -> 0 <= X -> tiny_val * 2 ^ 33 <= S ->
  a * P24 <= w * S * (P24 + 1) -> W * S * P24 <= b * (P24 + 1) ->
  D * b * P24 <= a * S * (P24 + 1) -> M * P24 <= 160 * D * (P24 + 1) ->
  4 * Q * P24 <= M * (P24 + 1) -> N * P24 <= n * S * (P24 + 1) -> X * S * P24 <= Q * N * (P24 + 1) ->
  Y * (P53 * P24) <= (X + tiny_val) * ((P53 + 1) * (P24 + 1)) -> y * S <= Y ->
  y * W * fitA <= 40 * n * w * fitB + W * fitC.
Proof.
  intros HS Ha HD HM HQ HX Ht U1 U2 U3 U4 U5 U6 U7 U8 U9.
  assert (HP : 0 < P24) by done. assert (HP53 : 0 < P53) by done.
  assert (HT0 : 0 <= tiny_val) by done.
  unfold fitA, fitB, fitC. generalize dependent P24. intros P. generalize dependent P53. intros R.
  generalize dependent tiny_val. intros T. intros.
  (* D W P^3 <= w S (P+1)^3 *)
  assert (E1 : D * W * (P * P) <= a * ((P + 1) * (P + 1))).
  { apply Z.mul_le_mono_pos_r with (p := S); [done|].
    assert (D * (W * S * P) * P <= D * (b * (P + 1)) * P) by (apply Z.mul_le_mono_nonneg_r; [lia|]; by apply Z.mul_le_mono_nonneg_l).
    assert (D * b * P * (P + 1) <= a * S * (P + 1) * (P + 1)) by (apply Z.mul_le_mono_nonneg_r; lia). lia. }
  assert (E2 : D * W * (P * P * P) <= w * S * ((P + 1) * (P + 1) * (P + 1))).
  { apply (chain _ a); lia. }
  assert (E3 : M * W * (P * (P * P * P)) <= w * S * 160 * ((P + 1) * ((P + 1) * (P + 1) * (P + 1)))).
  { apply (chain _ (160 * (D * W))); [lia|nia| |lia]. assert (M * P * W <= 160 * D * (P + 1) * W) by (apply Z.mul_le_mono_nonneg_r; lia). lia. }
  assert (E4 : Q * W * (P * (P * (P * P * P))) <= w * S * 40 * ((P + 1) * ((P + 1) * ((P + 1) * (P + 1) * (P + 1))))).
  { assert (4 * (Q * W) * (P * (P * (P * P * P))) <= w * S * 160 * ((P + 1) * ((P + 1) * ((P + 1) * (P + 1) * (P + 1))))); [|lia].
    apply (chain _ (M * W)); [lia|nia| |done]. assert (4 * Q * P * W <= M * (P + 1) * W) by (apply Z.mul_le_mono_nonneg_r; lia). lia. }
  assert (E5 : X * (P * P) <= Q * n * ((P + 1) * (P + 1))).
  { apply Z.mul_le_mono_pos_r with (p := S); [done|].
    assert (X * S * P * P <= Q * N * (P + 1) * P) by (apply Z.mul_le_mono_nonneg_r; lia).
    assert (Q * (N * P) * (P + 1) <= Q * (n * S * (P + 1)) * (P + 1)) by (apply Z.mul_le_mono_nonneg_r; [lia|]; by apply Z.mul_le_mono_nonneg_l). lia. }
  assert (E6 : X * W * (P * P * (P * (P * (P * P * P)))) <=
    w * S * 40 * n * ((P + 1) * (P + 1) * ((P + 1) * ((P + 1) * ((P + 1) * (P + 1) * (P + 1)))))).
  { apply (chain _ (Q * n * W)); [nia|nia| |].
    - assert (X * (P * P) * W <= Q * n * ((P + 1) * (P + 1)) * W) by (apply Z.mul_le_mono_nonneg_r; lia). lia.
    - assert (Q * W * (P * (P * (P * P * P))) * n <= w * S * 40 * ((P + 1) * ((P + 1) * ((P + 1) * (P + 1) * (P + 1)))) * n)
        by (apply Z.mul_le_mono_nonneg_r; lia). lia. }
  (* the addition, the floor, and the unit S taken out *)
  assert (E7 : y * S * (R * P) <= (X + T) * ((R + 1) * (P + 1))).
  { etransitivity; [|exact U8]. apply Z.mul_le_mono_nonneg_r; [apply Z.mul_nonneg_nonneg; lia|done]. }
  set (P7 := P * P * (P * (P * (P * P * P)))) in *.
  set (K7 := (P + 1) * (P + 1) * ((P + 1) * ((P + 1) * ((P + 1) * (P + 1) * (P + 1))))) in *.
  assert (HP7 : 0 <= P7) by (unfold P7; repeat apply Z.mul_nonneg_nonneg; lia).
  replace (P ^ 8) with (P * P7) by (unfold P7; lia). replace ((P + 1) ^ 8) with ((P + 1) * K7) by (unfold K7; lia).
  replace (P ^ 7) with P7 by (unfold P7; lia). clearbody P7 K7.
  apply Z.mul_le_mono_pos_r with (p := S); [done|].
  assert (HRP : 0 <= (R + 1) * (P + 1)) by (apply Z.mul_nonneg_nonneg; lia).
  assert (HWP : 0 <= W * P7) by (apply Z.mul_nonneg_nonneg; lia).
  assert (F1 : y * S * (R * P) * (W * P7) <= (X + T) * ((R + 1) * (P + 1)) * (W * P7)) by (by apply Z.mul_le_mono_nonneg_r).
  assert (F2 : X * W * P7 * ((R + 1) * (P + 1)) <= w * S * 40 * n * K7 * ((R + 1) * (P + 1))) by (by apply Z.mul_le_mono_nonneg_r).
  assert (F3 : T * 2 ^ 33 * ((R + 1) * (P + 1) * (W * P7)) <= S * ((R + 1) * (P + 1) * (W * P7)))
    by (apply Z.mul_le_mono_nonneg_r; [by apply Z.mul_nonneg_nonneg|done]).
  set (G := (R + 1) * (P + 1)) in *.
  replace (y * W * (R * (P * P7) * 2 ^ 33) * S) with (y * S * (R * P) * (W * P7) * 2 ^ 33) by ring.
  replace ((40 * n * w * ((R + 1) * ((P + 1) * K7) * 2 ^ 33) + W * (G * P7)) * S)
    with (w * S * 40 * n * K7 * G * 2 ^ 33 + S * (G * (W * P7))) by (unfold G; ring).
  replace ((X + T) * G * (W * P7)) with (X * W * P7 * G + T * (G * (W * P7))) in F1 by ring.
  replace (T * 2 ^ 33 * (G * (W * P7))) with (T * (G * (W * P7)) * 2 ^ 33) in F3 by ring.
  clear - F1 F2 F3. revert F1 F2 F3. generalize (y * S * (R * P) * (W * P7)) (X * W * P7 * G) (T * (G * (W * P7)))
    (w * S * 40 * n * K7 * G) (S * (G * (W * P7))). lia.
Qed.

Lemma lower9 x y : x * P24 <= y * (P24 + 1) -> 0 <= y -> 8 * x <= 9 * y.
Proof. unfold P24. lia. Qed.

Lemma share_lower a b D M Q N X Y S y :
  0 < S -> 0 < a -> 0 < b -> 0 <= D -> 0 <= M -> 0 <= Q -> 0 <= N -> 0 <= X -> 0 <= Y -> W <= w * n ->
  w * S * P24 <= a * (P24 + 1) -> b * P24 <= W * S * (P24 + 1) ->
  a * S * P24 <= D * b * (P24 + 1) -> 160 * D * P24 <= M * (P24 + 1) ->
  M * P24 <= 4 * Q * (P24 + 1) -> n * S * P24 <= N * (P24 + 1) -> Q * N * P24 <= X * S * (P24 + 1) ->
  X * (P53 * P24) <= Y * ((P53 + 1) * (P24 + 1)) -> Y < (y + 1) * S -> 1 <= y.
Proof.
  intros HS Ha Hb HD HM HQ HN HX HY Hmax L1 L2 L3 L4 L5 L6 L7 L8 L9.
  apply lower9 in L1; [|lia]. apply lower9 in L2; [|apply Z.mul_nonneg_nonneg; lia].
  apply lower9 in L3; [|apply Z.mul_nonneg_nonneg; lia]. apply lower9 in L4; [|lia]. apply lower9 in L5; [|lia].
  apply lower9 in L6; [|lia]. apply lower9 in L7; [|apply Z.mul_nonneg_nonneg; lia].
  assert (L8' : 8 * X <= 9 * Y) by (unfold P53, P24 in L8; lia). clear L8.
  (* D W n >= S up to the factors *)
  assert (G1 : 64 * a <= 81 * (D * W)).
  { assert (D * (8 * b) <= D * (9 * (W * S))) by (by apply Z.mul_le_mono_nonneg_l). apply Z.mul_le_mono_pos_r with (p := S); [done|]. lia. }
  assert (G2 : 512 * (w * S) <= 729 * (D * W)) by lia.
  assert (G3 : 512 * S <= 729 * (D * n)).
  { assert (512 * (w * S) * n <= 729 * (D * W) * n) by (apply Z.mul_le_mono_nonneg_r; lia).
    assert (W * S * 512 <= w * n * S * 512) by (apply Z.mul_le_mono_nonneg_r; [lia|]; apply Z.mul_le_mono_nonneg_r; lia).
    apply Z.mul_le_mono_pos_r with (p := W); [lia|]. lia. }
  assert (G4 : 2560 * D <= 81 * Q) by lia.
  assert (G5 : 64 * (Q * n) <= 81 * X).
  { assert (Q * (8 * (n * S)) <= Q * (9 * N)) by (by apply Z.mul_le_mono_nonneg_l). apply Z.mul_le_mono_pos_r with (p := S); [done|]. lia. }
  assert (G6 : 2560 * D * n <= 81 * Q * n) by (apply Z.mul_le_mono_nonneg_r; lia).
  assert (G7 : 3 * S <= Y) by lia.
  destruct (Z.le_gt_cases 1 y) as [|Hy]; [done|]. assert ((y + 1) * S <= 1 * S) by (apply Z.mul_le_mono_nonneg_r; lia). lia.
Qed.

Lemma V_pos m e : -300 <= e -> 0 < V (Zpos m) e.
Proof. intros. unfold V. apply Z.mul_pos_pos; [lia|apply Z.pow_pos_nonneg; lia]. Qed.

(** The points of a server are four times an integer that exceeds its exact
    share by the rounding at most, and is positive for a share of one. *)
Lemma ketama_points_share :
  exists y, ketama_points w W n = 4 * y /\ y * W * fitA <= 40 * n * w * fitB + W * fitC /\
    0 <= y /\ (W <= w * n -> 1 <= y).
Proof.
  destruct (f32_val w) as (ma & ea & Ea & Na & Ra & Ua & La); [lia|].
  destruct (f32_val W) as (mb & eb & Eb & Nb & Rb & Ub & Lb); [lia|].
  destruct (f32_val n) as (mn & en & En & Nn & Rn & Un & Ln); [lia|].
  assert (E160 : f32 160 = S754_finite false 10485760 (-16)) by (by vm_compute).
  assert (E4 : f32 4 = S754_finite false 8388608 (-21)) by (by vm_compute).
  assert (V160 : V 10485760 (-16) = 160 * 2 ^ 300) by (by vm_compute).
  assert (V4 : V 8388608 (-21) = 4 * 2 ^ 300) by (by vm_compute).
  unfold ketama_points, KETAMA_POINTS_PER_SERVER. rewrite Ea, Eb, En, E160, E4. cbv zeta.
  destruct (div_val ma ea mb eb) as (m1 & e1 & -> & N1 & R1 & U1 & L1); try done; try lia.
  destruct (mul_val m1 e1 10485760 (-16)) as (m2 & e2 & -> & N2 & R2 & U2 & L2); try done; try lia.
  destruct (div_val m2 e2 8388608 (-21)) as (m3 & e3 & -> & N3 & R3 & U3 & L3); try done; try lia.
  destruct (mul_val m3 e3 mn en) as (m4 & e4 & -> & N4 & R4 & U4 & L4); try done; try lia.
  destruct (add_tiny_val m4 e4) as (m5 & e5 & -> & N5 & R5 & U5 & L5); try done; try lia.
  pose proof (sf_floor_val m5 e5 ltac:(lia)) as Hy. set (y := sf_floor (S754_finite false m5 e5)) in *.
  rewrite V160 in U2, L2. rewrite V4 in U3, L3.
  pose proof (V_pos ma ea ltac:(lia)). pose proof (V_pos mb eb ltac:(lia)). pose proof (V_pos mn en ltac:(lia)).
  pose proof (V_pos m1 e1 ltac:(lia)). pose proof (V_pos m2 e2 ltac:(lia)). pose proof (V_pos m3 e3 ltac:(lia)).
  pose proof (V_pos m4 e4 ltac:(lia)). pose proof (V_pos m5 e5 ltac:(lia)).
  assert (HS : 0 < 2 ^ 300) by done. assert (Htiny : tiny_val * 2 ^ 33 <= 2 ^ 300) by (by vm_compute).
  revert Ua La Ub Lb Un Ln U1 L1 U2 L2 U3 L3 U4 L4 U5 L5 Hy Htiny HS. generalize (2 ^ 300). intros S. intros.
  assert (Hup : y * W * fitA <= 40 * n * w * fitB + W * fitC).
  { apply (share_upper (V (Zpos ma) ea) (V (Zpos mb) eb) (V (Zpos m1) e1) (V (Zpos m2) e2) (V (Zpos m3) e3)
      (V (Zpos mn) en) (V (Zpos m4) e4) (V (Zpos m5) e5) S y); try done; try lia.
    - apply Z.mul_le_mono_pos_r with (p := S); [done|]. lia.
    - apply Z.mul_le_mono_pos_r with (p := S); [done|]. lia. }
  assert (Hy0 : 0 <= y).
  { destruct (Z.le_gt_cases 0 y) as [|Hneg]; [done|]. assert ((y + 1) * S <= 0 * S) by (apply Z.mul_le_mono_nonneg_r; lia). lia. }
  exists y. split_and!; [|done|done|].
  - rewrite u32_small; [lia|]. unfold is_u32.
    assert (Hsm : y * fitA <= 40 * n * fitB + fitC).
    { apply Z.mul_le_mono_pos_r with (p := W); [lia|].
      assert (40 * n * w * fitB <= 40 * n * W * fitB) by (apply Z.mul_le_mono_nonneg_r; [done|]; apply Z.mul_le_mono_nonneg_l; lia). lia. }
    assert (HA : 2 ^ 14 * (40 * fitB + fitC) <= 2 ^ 21 * fitA) by (by vm_compute).
    assert (HC : 0 <= fitC) by done. assert (HB : 0 <= fitB) by done. assert (HA0 : 0 < fitA) by done.
    assert (y * fitA <= 2 ^ 21 * fitA) by nia. apply Z.mul_le_mono_pos_r in H7; lia.
  - intros Hmax. apply (share_lower (V (Zpos ma) ea) (V (Zpos mb) eb) (V (Zpos m1) e1) (V (Zpos m2) e2) (V (Zpos m3) e3)
      (V (Zpos mn) en) (V (Zpos m4) e4) (V (Zpos m5) e5) S y); try done; try lia.
    + apply Z.mul_le_mono_pos_r with (p := S); [done|]. lia.
    + apply Z.mul_le_mono_pos_r with (p := S); [done|]. lia.
Qed.

End Share.

(** ** All the servers *)

Definition sum (l : list Z) : Z := foldr Z.add 0 l.

(** The points the servers with these weights get on a ring of their own. *)
Definition ring_size (ws : list Z) : Z := sum (map (fun w => ketama_points w (sum ws) (zlen ws)) ws).

Lemma sum_nonneg l : Forall (fun w => 1 <= w) l -> zlen l <= sum l.
Proof. induction 1 as [|w l Hw Hl IH]; [done|]. rewrite zlen_cons. simpl. lia. Qed.

(** The shares add up: [k] points are [4 * k'] with [k'] below the sum of the
    bounds. *)
Lemma ring_part W n ws :
  W < 2 ^ 24 -> 1 <= n <= 2 ^ 14 -> Forall (fun w => 1 <= w <= W) ws -> 0 < W ->
  exists k, sum (map (fun w => ketama_points w W n) ws) = 4 * k /\
    k * W * fitA <= 40 * n * sum ws * fitB + zlen ws * W * fitC /\ 0 <= k /\
    (Exists (fun w => W <= w * n) ws -> 1 <= k).
Proof.
  intros HW Hn Hws HW0. induction Hws as [|w ws Hw Hws (k & Ek & Hk & Hk0 & Hk1)].
  - exists 0. split_and!; [done| |done|by intros H%Exists_nil]. unfold zlen. simpl. lia.
  - destruct (ketama_points_share w W n Hw HW Hn) as (y & Ey & Hy & Hy0 & Hy1). exists (y + k). simpl. rewrite Ey, Ek, zlen_cons.
    split_and!; [lia|lia|lia|]. intros He. apply Exists_cons in He as [He|He]; [specialize (Hy1 He)|specialize (Hk1 He)]; lia.
Qed.

(** Some server has at least the average weight. *)
Lemma average_exists ws n : ws <> [] -> n = zlen ws -> Exists (fun w => sum ws <= w * n) ws.
Proof.
  intros Hne ->. assert (H : forall W m l, Exists (fun w => W <= w * m) l \/ sum l * m + zlen l <= zlen l * W \/ l = []).
  { intros W m l. induction l as [|w l IH]; [auto|]. destruct (Z.le_gt_cases W (w * m)) as [Hle|Hgt]; [left; by constructor|].
    destruct IH as [IH|[IH| ->]]; [left; by right| |].
    - right. left. simpl. rewrite zlen_cons. lia.
    - right. left. simpl. unfold zlen. simpl. lia. }
  destruct (H (sum ws) (zlen ws) ws) as [|[Hc|]]; [done| |done]. exfalso.
  assert (0 < zlen ws) by (destruct ws; [done|]; rewrite zlen_cons; pose proof (zlen_nonneg ws); lia). lia.
Qed.

Lemma ring_size_fits ws :
  ws <> [] -> Forall (fun w => 1 <= w) ws -> sum ws < 2 ^ 24 -> zlen ws <= 2 ^ 14 ->
  0 < ring_size ws <= KETAMA_POINTS_PER_SERVER * zlen ws.
Proof.
  intros Hne Hws HW Hn. assert (Hn1 : 1 <= zlen ws) by (destruct ws; [done|]; rewrite zlen_cons; pose proof (zlen_nonneg ws); lia).
  pose proof (sum_nonneg ws Hws) as Hs.
  assert (Hle : Forall (fun w => 1 <= w <= sum ws) ws).
  { rewrite List.Forall_forall in *. intros w Hw. split; [by apply Hws|]. clear -Hw Hws.
    induction ws as [|x ws IH]; [done|]. simpl.
    assert (Hx : 1 <= x) by (apply Hws; by left). assert (Hr : zlen ws <= sum ws) by (apply sum_nonneg, List.Forall_forall; intros; apply Hws; by right).
    pose proof (zlen_nonneg ws). destruct Hw as [->|Hw]; [lia|]. assert (w <= sum ws) by (apply IH; try done; intros; apply Hws; by right). lia. }
  destruct (ring_part (sum ws) (zlen ws) ws HW ltac:(lia) Hle ltac:(lia)) as (k & Ek & Hk & Hk0 & Hk1).
  unfold ring_size, KETAMA_POINTS_PER_SERVER. rewrite Ek. specialize (Hk1 (average_exists ws _ Hne eq_refl)).
  assert (Hk2 : k * fitA <= zlen ws * (40 * fitB + fitC)) by (apply Z.mul_le_mono_pos_r with (p := sum ws); lia).
  pose proof fit_slack as Hsl. assert (HA : 0 < fitA) by done. assert (HAB : 0 <= 40 * (fitB - fitA) + fitC) by done.
  assert (Hk3 : k * fitA < (40 * zlen ws + 1) * fitA).
  { assert (zlen ws * (40 * (fitB - fitA) + fitC) <= 2 ^ 14 * (40 * (fitB - fitA) + fitC)) by (by apply Z.mul_le_mono_nonneg_r). lia. }
  apply Z.mul_lt_mono_pos_r in Hk3; [|done]. lia.
Qed.
