(* ===== verification/PoolSafe.v ===== *)
(** The pool's invariant: every operation of nc_server.c that touches the
    continuum keeps it within its block and pointing at servers of the pool,
    and an update leaves a ring that names live servers only. *)

From Stdlib Require Import Permutation Sorted.
From S2P Require Import Prelude HashKit Md5 Pool PoolFacts PoolFloat.

Local Open Scope cint_scope.
Local Open Scope Z_scope.

(** ** What the three updates share

    They differ in the size they need, the slots per unit of it and the way
    the points are written. *)

Definition update_with (ok : Z -> bool) (need : live_acc -> Z) (per : Z)
    (build : live_acc -> list server -> list (option cpoint) -> option (list (option cpoint) * Z))
    (now : Z) (pool : server_pool) : option (Z * server_pool) :=
  if now <? 0 then Some (NC_ERROR, pool)
  else
    let '(acc, servers) := count_servers (sp_auto_eject_hosts pool) now (mk_acc 0 0 0) (sp_servers pool) in
    let pool := set_live (set_servers pool servers) (acc_nlive acc) (acc_rebuild acc) in
    if acc_nlive acc =? 0 then Some (NC_OK, pool)
    else
      let grow := sp_nserver_continuum pool <? need acc in
      let nserver := need acc +u 10 in
      let ncontinuum := nserver *u per in
      if grow && negb (ok (CONTINUUM_SIZE * ncontinuum)) then Some (NC_ENOMEM, pool)
      else
        let pool :=
          if grow then set_continuum pool (realloc_slots (sp_continuum pool) ncontinuum) nserver
          else pool in
        match build acc servers (sp_continuum pool) with
        | None => None
        | Some (c, counter) => Some (NC_OK, set_ncontinuum pool c counter)
        end.

Definition ketama_build stack qsort auto now acc servers c : option (list (option cpoint) * Z) :=
  match ketama_fill stack auto now (acc_weight acc) (acc_nlive acc) 0 servers c 0 0 with
  | None => None
  | Some (c, _, counter) => option_map (fun c => (c, counter)) (sort_slots qsort c counter)
  end.
Definition modula_build auto now (acc : live_acc) servers c : option (list (option cpoint) * Z) :=
  option_map (fun r => (fst (fst r), snd r)) (modula_fill auto now 0 servers c 0 0).
Definition random_build auto now (acc : live_acc) servers c : option (list (option cpoint) * Z) :=
  option_map (fun r => (fst (fst r), snd r)) (random_fill auto now 0 servers c 0 0).

(** The common head of the updates, up to the writing of the points. *)
Ltac open_update :=
  match goal with |- context [?n <? 0] => destruct (n <? 0); [done|] end;
  destruct (count_servers _ _ _ _) as [acc servers];
  destruct (acc_nlive acc =? 0); [done|];
  match goal with |- context [if ?b && ?b' then _ else _] => destruct (b && b'); [done|] end.

Lemma ketama_update_with stack qsort ok now pool :
  ketama_update stack qsort ok now pool =
  update_with ok acc_nlive KETAMA_POINTS_PER_SERVER (ketama_build stack qsort (sp_auto_eject_hosts pool) now) now pool.
Proof.
  unfold ketama_update, update_with, ketama_build, KETAMA_CONTINUUM_ADDITION.
  open_update. destruct (ketama_fill _ _ _ _ _ _ _ _ _ _) as [[[? ?] ?]|]; [|done].
  by destruct (sort_slots _ _ _).
Qed.

Lemma modula_update_with ok now pool :
  modula_update ok now pool =
  update_with ok acc_weight MODULA_POINTS_PER_SERVER (modula_build (sp_auto_eject_hosts pool) now) now pool.
Proof.
  unfold modula_update, update_with, modula_build, MODULA_CONTINUUM_ADDITION.
  open_update. by destruct (modula_fill _ _ _ _ _ _ _) as [[[? ?] ?]|].
Qed.

Lemma random_update_with ok now pool :
  random_update ok now pool =
  update_with ok acc_nlive RANDOM_POINTS_PER_SERVER (random_build (sp_auto_eject_hosts pool) now) now pool.
Proof.
  unfold random_update, update_with, random_build, RANDOM_CONTINUUM_ADDITION.
  open_update. by destruct (random_fill _ _ _ _ _ _ _) as [[[? ?] ?]|].
Qed.

(** ** Counting, again *)

Lemma live_weight_le auto now l :
  Forall (fun s => 0 < sv_weight s) l -> nlive auto now l <= live_weight auto now l <= live_weight false 0 l.
Proof.
  induction 1 as [|s l Hs Hw IH]; [done|]. rewrite nlive_cons. simpl.
  change (live false 0 s) with true. destruct (live auto now s); lia.
Qed.

Lemma nlive_revive auto now l : 0 <= now -> nlive auto now (map (revive auto now) l) = nlive auto now l.
Proof.
  intros. induction l as [|s l IH]; [done|]. simpl. by rewrite !nlive_cons, live_revive, IH.
Qed.

Lemma sv_weight_revive auto now s : sv_weight (revive auto now s) = sv_weight s.
Proof. unfold revive. by destruct (_ && _). Qed.

Lemma live_weight_revive auto now l :
  0 <= now -> live_weight auto now (map (revive auto now) l) = live_weight auto now l.
Proof.
  intros. induction l as [|s l IH]; [done|]. simpl. by rewrite live_revive, sv_weight_revive, IH.
Qed.

Lemma map_weight_revive auto now l : map sv_weight (map (revive auto now) l) = map sv_weight l.
Proof. rewrite map_map. apply map_ext. intros. apply sv_weight_revive. Qed.

Lemma rd_map {A B} (f : A -> B) l i : rd (map f l) i = option_map f (rd l i).
Proof. unfold rd. destruct (0 <=? i); [|done]. by rewrite list_lookup_fmap. Qed.

Lemma rd_In {A} (l : list A) i x : rd l i = Some x -> In x l.
Proof. unfold rd. destruct (0 <=? i); [|done]. intros H. by eapply list_elem_of_In, list_elem_of_lookup_2. Qed.

(** The weights of the live servers. *)
Definition live_weights (auto : bool) (now : Z) (l : list server) : list Z :=
  map (fun e => sv_weight (snd e)) (live_servers auto now 0 l).

Lemma sum_live_weights auto now i l :
  sum (map (fun e => sv_weight (snd e)) (live_servers auto now i l)) = live_weight auto now l.
Proof.
  revert i. induction l as [|s l IH]; intros i; [done|]. simpl.
  destruct (live auto now s); simpl; rewrite IH; lia.
Qed.

(** ** The invariant *)

Definition slots_per (d : dist_type) : Z :=
  match d with DIST_KETAMA => KETAMA_POINTS_PER_SERVER | _ => 1 end.

(** What configuration fixes, and the size of the block. *)
Record pool_ok (pool : server_pool) : Prop := {
  po_weights : Forall (fun s => 0 < sv_weight s) (sp_servers pool);
  po_total : live_weight false 0 (sp_servers pool) < 2 ^ 24;
  po_names : sp_dist_type pool = DIST_KETAMA -> Forall ketama_names_ok (sp_servers pool);
  po_servers : sp_dist_type pool = DIST_KETAMA -> zlen (sp_servers pool) <= 2 ^ 14;
  po_block : zlen (sp_continuum pool) = sp_nserver_continuum pool * slots_per (sp_dist_type pool)
}.

(** The ring in use: written, nonempty, naming servers of the pool, sorted
    where the search relies on it. *)
Record ring_ok (pool : server_pool) (pts : list cpoint) : Prop := {
  ro_filled : filled (sp_continuum pool) pts;
  ro_count : sp_ncontinuum pool = zlen pts;
  ro_nonempty : pts <> [];
  ro_index : Forall (fun pt => is_Some (rd (sp_servers pool) (cindex pt))) pts;
  ro_sorted : sp_dist_type pool = DIST_KETAMA -> ring_sorted pts
}.

(** What no operation of the pool changes. *)
Definition pool_conf (p : server_pool) :=
  (sp_dist_type p, sp_hash_tag p, sp_auto_eject_hosts p, sp_server_retry_timeout p, sp_server_failure_limit p).

Lemma zlen_realloc_slots c n : 0 <= n -> zlen (realloc_slots c n) = n.
Proof.
  intros. unfold realloc_slots, zlen. rewrite length_app, length_take, length_replicate. lia.
Qed.

(** How an update ends: a new ring with the property [P], or the old one when
    no server is live or the block cannot grow. *)
Record updated (ok : Z -> bool) (now : Z) (P : list cpoint -> Prop)
    (pool : server_pool) (st : Z) (pool' : server_pool) : Prop := {
  up_conf : pool_conf pool' = pool_conf pool;
  up_servers : sp_servers pool' = map (revive (sp_auto_eject_hosts pool) now) (sp_servers pool);
  up_nlive : sp_nlive_server pool' = nlive (sp_auto_eject_hosts pool) now (sp_servers pool);
  up_block : zlen (sp_continuum pool') = sp_nserver_continuum pool' * slots_per (sp_dist_type pool);
  up_ring :
    (st = NC_OK /\ 0 < sp_nlive_server pool' /\
     exists pts, filled (sp_continuum pool') pts /\ sp_ncontinuum pool' = zlen pts /\ P pts) \/
    ((st = NC_OK /\ sp_nlive_server pool' = 0 \/ st = NC_ENOMEM /\ exists size, ok size = false) /\
     sp_continuum pool' = sp_continuum pool /\ sp_ncontinuum pool' = sp_ncontinuum pool)
}.

Lemma update_with_spec ok need per build now pool m (P : list cpoint -> Prop) :
  pool_ok pool -> 0 <= now ->
  let auto := sp_auto_eject_hosts pool in
  let acc := mk_acc (nlive auto now (sp_servers pool)) (live_weight auto now (sp_servers pool)) in
  per = slots_per (sp_dist_type pool) ->
  (forall rb, need (acc rb) = m) -> 0 <= m <= live_weight false 0 (sp_servers pool) ->
  (forall rb c, 0 < acc_nlive (acc rb) -> m * per <= zlen c ->
     exists c' pts, build (acc rb) (map (revive auto now) (sp_servers pool)) c = Some (c', zlen pts) /\
       filled c' pts /\ length c' = length c /\ P pts) ->
  exists st pool', update_with ok need per build now pool = Some (st, pool') /\ updated ok now P pool st pool'.
Proof.
  intros Hok Hnow auto acc Hper Hneed Hm Hbuild. destruct Hok as [Hw Ht _ _ Hb]. unfold update_with.
  destruct (Z.ltb_spec now 0); [lia|].
  pose proof (live_weight_le auto now _ Hw). pose proof (nlive_range auto now (sp_servers pool)).
  assert (Hlen : zlen (sp_servers pool) <= live_weight false 0 (sp_servers pool)).
  { clear -Hw. induction Hw; simpl; rewrite ?zlen_cons; unfold zlen, live in *; simpl in *; lia. }
  destruct (count_servers_spec auto now (sp_servers pool) (mk_acc 0 0 0)) as [rb E]; simpl; try lia.
  { eapply List.Forall_impl; [|exact Hw]. simpl. lia. }
  fold auto. rewrite E. cbn [acc_nlive acc_weight] in *. rewrite !Z.add_0_l. fold (acc rb). cbn [acc_nlive].
  assert (Hp : 1 <= per <= 160) by (subst per; destruct (sp_dist_type pool); unfold slots_per, KETAMA_POINTS_PER_SERVER; lia).
  destruct (Z.eqb_spec (nlive auto now (sp_servers pool)) 0).
  { do 2 eexists. split; [done|]. constructor; try done. right. simpl. eauto. }
  rewrite Hneed, (u32_small (m + 10)) by (unfold is_u32; nia). rewrite (u32_small _) by (unfold is_u32; nia).
  simpl. destruct (Z.ltb_spec (sp_nserver_continuum pool) m) as [Hg|Hg]; simpl.
  - destruct (ok _) eqn:Eok; simpl.
    + destruct (Hbuild rb (realloc_slots (sp_continuum pool) ((m + 10) * per))) as (c' & pts & -> & Hf & Hl & HP);
        [simpl; lia|rewrite zlen_realloc_slots by nia; nia|].
      do 2 eexists. split; [done|]. constructor; try done; simpl.
      * unfold zlen. rewrite Hl. fold (zlen (realloc_slots (sp_continuum pool) ((m + 10) * per))).
        rewrite zlen_realloc_slots by nia. by subst per.
      * left. split_and!; [done|lia|]. eauto.
    + do 2 eexists. split; [done|]. constructor; try done; simpl. right. eauto 10.
  - destruct (Hbuild rb (sp_continuum pool)) as (c' & pts & -> & Hf & Hl & HP); [simpl; lia|rewrite Hb; subst per; nia|].
    do 2 eexists. split; [done|]. constructor; try done; simpl.
    + unfold zlen in *. by rewrite Hl.
    + left. split_and!; [done|lia|]. eauto.
Qed.

(** ** The ring an update builds *)

Section Update.
Variables (stack : list Z) (qsort : list cpoint -> list cpoint) (ok : Z -> bool).
Hypothesis Hqsort : qsort_ok qsort.

(** The points of the live servers, in pool order. *)
Definition ring_points (now : Z) (pool : server_pool) : list cpoint :=
  let auto := sp_auto_eject_hosts pool in
  let lives := live_servers auto now 0 (sp_servers pool) in
  match sp_dist_type pool with
  | DIST_KETAMA =>
      all_points (ketama_ring stack (live_weight auto now (sp_servers pool)) (nlive auto now (sp_servers pool))) lives
  | DIST_MODULA => all_points modula_points lives
  | DIST_RANDOM => all_points random_points lives
  end.

Lemma zlen_all_ketama t n lives :
  zlen (all_points (ketama_ring stack t n) lives) =
  sum (map (fun w => ketama_points w t n) (map (fun e => sv_weight (snd e)) lives)).
Proof.
  induction lives as [|e lives IH]; [done|]. unfold all_points in *. simpl.
  rewrite zlen_app, IH, zlen_ketama_ring. done.
Qed.

(** The ring is built from the servers as the counting loop leaves them. *)
Definition new_ring (now : Z) (pool : server_pool) (pts : list cpoint) : Prop :=
  let pool1 := set_servers pool (map (revive (sp_auto_eject_hosts pool) now) (sp_servers pool)) in
  Permutation (ring_points now pool1) pts /\ pts <> [] /\
  (sp_dist_type pool = DIST_KETAMA -> ring_sorted pts) /\
  (sp_dist_type pool <> DIST_KETAMA -> pts = ring_points now pool1).

Lemma zlen_pos_nonempty {A} (l : list A) : 0 < zlen l -> l <> [].
Proof. by destruct l. Qed.

Lemma filled_nil c : filled c [].
Proof. by exists c. Qed.

Lemma nlive_weights auto now l : zlen (live_weights auto now l) = nlive auto now l.
Proof. unfold live_weights. rewrite <- (live_servers_length auto now 0 l). unfold zlen. by rewrite length_map. Qed.

(** The points of the live servers fit [160] slots each. *)
Lemma ketama_points_fit now pool :
  pool_ok pool -> 0 <= now -> sp_dist_type pool = DIST_KETAMA ->
  let pool1 := set_servers pool (map (revive (sp_auto_eject_hosts pool) now) (sp_servers pool)) in
  let n := nlive (sp_auto_eject_hosts pool) now (sp_servers pool) in
  0 < n -> 0 < zlen (ring_points now pool1) <= 160 * n.
Proof.
  intros Hok Hnow Hd pool1 n Hn. unfold ring_points. simpl. rewrite Hd.
  set (auto := sp_auto_eject_hosts pool) in *. set (l := map (revive auto now) (sp_servers pool)).
  pose proof (po_weights _ Hok) as Hw. pose proof (live_weight_le auto now _ Hw) as Hle.
  pose proof (nlive_range auto now (sp_servers pool)). pose proof (po_total _ Hok). pose proof (po_servers _ Hok Hd).
  assert (Hfit : 0 < ring_size (live_weights auto now l) <= KETAMA_POINTS_PER_SERVER * zlen (live_weights auto now l)).
  { apply ring_size_fits.
    - apply zlen_pos_nonempty. rewrite nlive_weights. unfold l. by rewrite nlive_revive.
    - unfold live_weights. rewrite List.Forall_map, List.Forall_forall. intros [j s] Hin.
      apply live_servers_In in Hin as [_ Hrd]. unfold l in Hrd. rewrite rd_map in Hrd.
      destruct (rd (sp_servers pool) (j - 0)) as [s0|] eqn:E0; simpl in Hrd; [|done]. simplify_eq. simpl.
      rewrite sv_weight_revive. rewrite List.Forall_forall in Hw. apply rd_In in E0. apply Hw in E0. lia.
    - unfold live_weights. rewrite sum_live_weights. unfold l. rewrite live_weight_revive by done. lia.
    - rewrite nlive_weights. unfold l. rewrite nlive_revive by done. lia. }
  unfold ring_size in Hfit. rewrite nlive_weights in Hfit. unfold live_weights in Hfit.
  rewrite sum_live_weights in Hfit. rewrite zlen_all_ketama. unfold l in *.
  rewrite nlive_revive in * by done. unfold KETAMA_POINTS_PER_SERVER in Hfit. fold n in Hfit |- *. lia.
Qed.

Lemma ketama_run now pool :
  pool_ok pool -> 0 <= now -> sp_dist_type pool = DIST_KETAMA ->
  exists st pool', ketama_update stack qsort ok now pool = Some (st, pool') /\
    updated ok now (new_ring now pool) pool st pool'.
Proof.
  intros Hok Hnow Hd. pose proof (po_weights _ Hok) as Hw. set (auto := sp_auto_eject_hosts pool).
  pose proof (live_weight_le auto now _ Hw). pose proof (nlive_range auto now (sp_servers pool)).
  rewrite ketama_update_with.
  apply (update_with_spec _ _ _ _ _ _ (nlive auto now (sp_servers pool))); try done; [by rewrite Hd|lia|].
  intros rb c Hn Hc. cbn [acc_nlive] in *. fold auto in Hn |- *.
  pose proof (ketama_points_fit now pool Hok Hnow Hd Hn) as Hfit. pose proof (po_total _ Hok).
  assert (Hring : ring_points now (set_servers pool (map (revive auto now) (sp_servers pool))) =
    all_points (ketama_ring stack (live_weight auto now (sp_servers pool)) (nlive auto now (sp_servers pool)))
      (live_servers auto now 0 (map (revive auto now) (sp_servers pool)))).
  { unfold ring_points. simpl. fold auto. by rewrite Hd, live_weight_revive, nlive_revive. }
  unfold ketama_build. cbn [acc_nlive acc_weight].
  destruct (ketama_fill_spec stack (live_weight auto now (sp_servers pool)) (nlive auto now (sp_servers pool))
    auto now 0 (map (revive auto now) (sp_servers pool)) c []) as (c1 & E & Hf & Hl);
    rewrite <- ?Hring; change (@zlen cpoint []) with 0; unfold KETAMA_POINTS_PER_SERVER in *; try (fold auto in Hfit; lia).
  { apply List.Forall_map. eapply List.Forall_impl; [|exact (po_names _ Hok Hd)]. intros s [? ?].
    unfold ketama_names_ok, revive. by destruct (_ && _). }
  { apply filled_nil. }
  rewrite <- Hring, !Z.add_0_l in E. change (@zlen cpoint []) with 0 in E. fold auto. rewrite E.
  rewrite <- Hring in Hf. simpl in Hf.
  destruct (sort_slots_spec qsort c1 _ Hqsort Hf) as (c2 & pts & E2 & Hf2 & Hp & Hs & Hl2). rewrite E2. simpl.
  exists c2, pts. assert (Hz : zlen (ring_points now (set_servers pool (map (revive auto now) (sp_servers pool)))) = zlen pts)
    by (unfold zlen; by rewrite (Permutation_length Hp)).
  rewrite Hz. split_and!; try done; [congruence|].
  split_and!; try done. apply zlen_pos_nonempty. fold auto in Hfit. lia.
Qed.

Lemma modula_run now pool :
  pool_ok pool -> 0 <= now -> sp_dist_type pool = DIST_MODULA ->
  exists st pool', modula_update ok now pool = Some (st, pool') /\
    updated ok now (new_ring now pool) pool st pool'.
Proof.
  intros Hok Hnow Hd. pose proof (po_weights _ Hok) as Hw. set (auto := sp_auto_eject_hosts pool).
  pose proof (live_weight_le auto now _ Hw). pose proof (nlive_range auto now (sp_servers pool)).
  pose proof (po_total _ Hok). rewrite modula_update_with.
  apply (update_with_spec _ _ _ _ _ _ (live_weight auto now (sp_servers pool))); try done; [by rewrite Hd|lia|].
  intros rb c Hn Hc. cbn [acc_nlive] in *. fold auto in Hn |- *. unfold modula_build, MODULA_POINTS_PER_SERVER in *.
  set (l := map (revive auto now) (sp_servers pool)).
  assert (Hw1 : Forall (fun s => 0 <= sv_weight s) l).
  { apply List.Forall_map. eapply List.Forall_impl; [|exact Hw]. intros s. rewrite sv_weight_revive. lia. }
  assert (Hlw : live_weight auto now l = live_weight auto now (sp_servers pool)) by (by apply live_weight_revive).
  destruct (modula_fill_spec auto now 0 l c []) as (c1 & E & Hf & Hl);
    rewrite ?Hlw; change (@zlen cpoint []) with 0; try lia; try done; [apply filled_nil|].
  fold auto. rewrite Hlw in E. change (@zlen cpoint []) with 0 in E. rewrite E. simpl.
  assert (Hz := zlen_all_modula auto now 0 l Hw1). rewrite Hlw in Hz.
  exists c1, (all_points modula_points (live_servers auto now 0 l)). rewrite Hz. split_and!; try done.
  unfold new_ring, ring_points. simpl. fold auto l. rewrite Hd. split_and!; try done.
  apply zlen_pos_nonempty. lia.
Qed.

Lemma random_run now pool :
  pool_ok pool -> 0 <= now -> sp_dist_type pool = DIST_RANDOM ->
  exists st pool', random_update ok now pool = Some (st, pool') /\
    updated ok now (new_ring now pool) pool st pool'.
Proof.
  intros Hok Hnow Hd. pose proof (po_weights _ Hok) as Hw. set (auto := sp_auto_eject_hosts pool).
  pose proof (live_weight_le auto now _ Hw). pose proof (nlive_range auto now (sp_servers pool)).
  pose proof (po_total _ Hok). rewrite random_update_with.
  apply (update_with_spec _ _ _ _ _ _ (nlive auto now (sp_servers pool))); try done; [by rewrite Hd|lia|].
  intros rb c Hn Hc. cbn [acc_nlive] in *. fold auto in Hn |- *. unfold random_build, RANDOM_POINTS_PER_SERVER in *.
  set (l := map (revive auto now) (sp_servers pool)).
  assert (Hnl : nlive auto now l = nlive auto now (sp_servers pool)) by (by apply nlive_revive).
  destruct (random_fill_spec auto now 0 l c []) as (c1 & E & Hf & Hl);
    rewrite ?Hnl; change (@zlen cpoint []) with 0; try lia; try done; [apply filled_nil|].
  fold auto. rewrite Hnl in E. change (@zlen cpoint []) with 0 in E. rewrite E. simpl.
  assert (Hz := zlen_all_random (live_servers auto now 0 l)). rewrite live_servers_length, Hnl in Hz.
  exists c1, (all_points random_points (live_servers auto now 0 l)). rewrite Hz. split_and!; try done.
  unfold new_ring, ring_points. simpl. fold auto l. rewrite Hd. split_and!; try done.
  apply zlen_pos_nonempty. lia.
Qed.

Lemma server_pool_run_spec now pool :
  pool_ok pool -> 0 <= now ->
  exists st pool', server_pool_run stack qsort ok now pool = Some (st, pool') /\
    updated ok now (new_ring now pool) pool st pool'.
Proof.
  intros Hok Hnow. unfold server_pool_run. destruct (sp_dist_type pool) eqn:Hd;
    [by apply ketama_run|by apply modula_run|by apply random_run].
Qed.

(** *** The invariant across an update *)

(** What an operation never changes of a server. *)
Definition sv_static (s : server) := (sv_pname s, sv_name s, sv_weight s).

Lemma Forall_static (P : list Z * list Z * Z -> Prop) l l' :
  map sv_static l' = map sv_static l -> Forall (fun s => P (sv_static s)) l -> Forall (fun s => P (sv_static s)) l'.
Proof.
  intros E H. apply List.Forall_map. rewrite E. by apply List.Forall_map.
Qed.

Lemma weights_static l l' : map sv_static l' = map sv_static l -> map sv_weight l' = map sv_weight l.
Proof.
  intros E. apply (f_equal (map snd)) in E. by rewrite !map_map in E.
Qed.

Lemma live_weight_all l : live_weight false 0 l = sum (map sv_weight l).
Proof. induction l as [|s l IH]; [done|]. simpl. by rewrite IH. Qed.

Lemma pool_ok_static pool pool' :
  map sv_static (sp_servers pool') = map sv_static (sp_servers pool) ->
  sp_dist_type pool' = sp_dist_type pool ->
  zlen (sp_continuum pool') = sp_nserver_continuum pool' * slots_per (sp_dist_type pool) ->
  pool_ok pool -> pool_ok pool'.
Proof.
  intros Es Ed Eb [Hw Ht Hn Hf Hb]. constructor.
  - by apply (Forall_static (fun x => 0 < snd x) _ _ Es).
  - rewrite live_weight_all, (weights_static _ _ Es), <- live_weight_all. done.
  - intros E. rewrite Ed in E. by apply (Forall_static (fun x => zlen (snd (fst x)) <= 74 /\ sprintf_name_ok (fst (fst x)) = true) _ _ Es), Hn.
  - intros E. rewrite Ed in E. specialize (Hf E). apply (f_equal length) in Es. rewrite !length_map in Es. unfold zlen in *. by rewrite Es.
  - by rewrite Ed.
Qed.

Lemma static_revive auto now l : map sv_static (map (revive auto now) l) = map sv_static l.
Proof. rewrite map_map. apply map_ext. intros s. unfold revive. by destruct (_ && _). Qed.

Lemma updated_pool_ok now P pool st pool' : updated ok now P pool st pool' -> pool_ok pool -> pool_ok pool'.
Proof.
  intros [Hc Hs _ Hb _] Hok. apply (pool_ok_static pool); try done.
  - rewrite Hs. apply static_revive.
  - unfold pool_conf in Hc. by simplify_eq.
Qed.

Lemma new_ring_live now pool pts :
  new_ring now pool pts -> 0 <= now ->
  let auto := sp_auto_eject_hosts pool in
  Forall (fun pt => exists s, rd (map (revive auto now) (sp_servers pool)) (cindex pt) = Some s /\
    live auto now s = true) pts.
Proof.
  intros [Hp _] Hnow auto. rewrite List.Forall_forall. intros pt Hin.
  apply (Permutation_in pt (Permutation_sym Hp)) in Hin.
  assert (Hx : exists s, In (cindex pt, s) (live_servers auto now 0 (map (revive auto now) (sp_servers pool)))).
  { unfold ring_points in Hin. simpl in Hin. fold auto in Hin. destruct (sp_dist_type pool);
      eapply all_points_index, Hin; [apply ketama_ring_index|apply modula_points_index|apply random_points_index]. }
  destruct Hx as [s Hs]. apply live_servers_In in Hs as [Hl Hr]. rewrite Z.sub_0_r in Hr. eauto.
Qed.

(** An update leaves a ring in use, new or old. *)
Lemma updated_ring_ok now pool st pool' :
  0 <= now -> updated ok now (new_ring now pool) pool st pool' ->
  (exists pts0, ring_ok pool pts0) \/ (st = NC_OK /\ 0 < sp_nlive_server pool') ->
  exists pts, ring_ok pool' pts.
Proof.
  intros Hnow [Hc Hs Hn Hb Hr] Hold. unfold pool_conf in Hc.
  assert (Ed : sp_dist_type pool' = sp_dist_type pool) by congruence.
  destruct Hr as [(Hst & Hlive & pts & Hf & Hz & HP)|(Hcase & Hcont & Hnc)].
  - exists pts. constructor; try done.
    + apply HP.
    + eapply List.Forall_impl; [|exact (new_ring_live _ _ _ HP Hnow)].
      intros pt (s & Hrd & _). rewrite Hs, Hrd. by eexists.
    + rewrite Ed. apply HP.
  - destruct Hold as [(pts & [Hf Hz Hne Hix Hso])|[-> Hl]].
    + exists pts. constructor; rewrite ?Hcont, ?Hnc, ?Ed; try done.
      eapply List.Forall_impl; [|exact Hix]. intros pt [s Hrd]. rewrite Hs, rd_map, Hrd. by eexists.
    + exfalso. destruct Hcase as [[_ ?]|[? _]]; [lia|done].
Qed.

End Update.

(** ** Picking a server *)

Section Dispatch.
Variable key_hash : list Z -> Z.

Lemma slot_index_mod c pts n k :
  filled c pts -> n = zlen pts -> pts <> [] ->
  exists pt, In pt pts /\ (if n =? 0 then None else slot_index c (k mod n)) = Some (cindex pt).
Proof.
  intros Hf -> Hne. assert (0 < zlen pts) by (destruct pts; [done|]; rewrite zlen_cons; pose proof (zlen_nonneg pts); lia).
  destruct (Z.eqb_spec (zlen pts) 0); [lia|]. pose proof (Z.mod_pos_bound k (zlen pts) ltac:(lia)).
  destruct (rd_is_Some pts (k mod zlen pts)) as [pt Hpt]; [lia|].
  exists pt. split; [|unfold slot_index; rewrite (rd_filled c pts) by (try done; lia); by rewrite Hpt].
  by eapply rd_In.
Qed.

Lemma ring_owner_In pts hash : pts <> [] -> exists pt, In pt pts /\ ring_owner pts hash = Some (cindex pt).
Proof.
  intros Hne. unfold ring_owner. destruct (List.find _ pts) as [pt|] eqn:E.
  - exists pt. by apply find_some in E as [? _].
  - destruct pts as [|pt pts]; [done|]. exists pt. split; [by left|done].
Qed.

(** Every key has a server, read from a slot that was written. *)
Lemma server_pool_idx_In rnd pool pts key :
  ring_ok pool pts -> exists pt, In pt pts /\ server_pool_idx key_hash rnd pool key = Some (cindex pt).
Proof.
  intros [Hf Hz Hne _ Hs]. unfold server_pool_idx. destruct (sp_dist_type pool).
  - rewrite Hz, (ketama_dispatch_owner _ pts) by (try done; by apply Hs). by apply ring_owner_In.
  - by apply slot_index_mod.
  - by apply slot_index_mod.
Qed.

Lemma server_pool_server_Some rnd pool pts key :
  ring_ok pool pts ->
  exists pt s, In pt pts /\ rd (sp_servers pool) (cindex pt) = Some s /\
    server_pool_server key_hash rnd pool key = Some s.
Proof.
  intros Hr. destruct (server_pool_idx_In rnd pool pts key Hr) as (pt & Hin & E).
  pose proof (ro_index _ _ Hr) as Hix. rewrite List.Forall_forall in Hix. destruct (Hix _ Hin) as [s Hs].
  exists pt, s. unfold server_pool_server. by rewrite E.
Qed.

End Dispatch.
