(* ===== verification/PoolRoute.v ===== *)
(** Routing: the theorems on where a pool sends its keys. *)

From Stdlib Require Import Permutation Sorted.
From stdpp Require Import sorting.
From S2P Require Import Prelude HashKit Md5 Pool PoolFacts PoolFloat PoolSafe.

Local Open Scope cint_scope.
Local Open Scope Z_scope.

(** ** Checking the invariant of a concrete pool *)

Definition names_okb (s : server) : bool := (zlen (sv_name s) <=? 74) && sprintf_name_ok (sv_pname s).

Definition pool_okb (pool : server_pool) : bool :=
  forallb (fun s => 0 <? sv_weight s) (sp_servers pool) &&
  (live_weight false 0 (sp_servers pool) <? 2 ^ 24) &&
  match sp_dist_type pool with
  | DIST_KETAMA =>
      forallb names_okb (sp_servers pool) && (zlen (sp_servers pool) <=? 2 ^ 14)
  | _ => true
  end &&
  (zlen (sp_continuum pool) =? sp_nserver_continuum pool * slots_per (sp_dist_type pool)).

Lemma pool_okb_ok pool : pool_okb pool = true -> pool_ok pool.
Proof.
  unfold pool_okb. intros H. b2p. constructor; try done.
  - rewrite List.Forall_forall. intros s Hs. rewrite forallb_forall in H. by apply Z.ltb_lt, H.
  - intros E. rewrite E in H1. b2p. rewrite forallb_forall in H1. rewrite List.Forall_forall. intros s Hs.
    apply H1 in Hs. unfold names_okb in Hs. b2p. done.
  - intros E. rewrite E in H1. by b2p.
Qed.

(** A sort that meets the contract of qsort(3). *)
Definition cpoint_le (a b : cpoint) : Prop := cvalue a <= cvalue b.
#[export] Instance cpoint_le_dec : RelDecision cpoint_le.
Proof. intros a b. unfold cpoint_le. apply _. Defined.
#[export] Instance cpoint_le_total : Total cpoint_le.
Proof. intros a b. unfold cpoint_le. lia. Qed.
#[export] Instance cpoint_le_trans : Transitive cpoint_le.
Proof. intros a b c. unfold cpoint_le. lia. Qed.

Definition ring_sort (l : list cpoint) : list cpoint := merge_sort cpoint_le l.

Lemma ring_sort_ok : qsort_ok ring_sort.
Proof.
  intros l. split; [symmetry; apply merge_sort_Permutation|].
  pose proof (StronglySorted_merge_sort cpoint_le l) as H. fold (ring_sort l) in H.
  induction H as [|a k Hs IH Ha]; constructor; [done|].
  eapply List.Forall_impl; [|exact Ha]. intros b. by rewrite ketama_item_cmp_le.
Qed.

(** ** Small pools used by the witnesses *)

Definition demo_server (c w retry failures : Z) : server := mk_server [c; 58; 49] [c; 58; 49] w retry failures.

Definition demo_pool (d : dist_type) (servers : list server) : server_pool :=
  mk_spool servers 0 0 [] 0 0 d (bytes_of "{}") true 30000000 2.

Definition demo_servers : list server :=
  [demo_server 97 1 0 0; demo_server 98 2 5000 0; demo_server 99 1 0 1].

Lemma demo_pool_ok d : pool_ok (demo_pool d demo_servers).
Proof. apply pool_okb_ok. by destruct d; vm_compute. Qed.

(** ** Updates *)

Section Routing.
Variables (stack : list Z) (qsort : list cpoint -> list cpoint) (ok : Z -> bool) (key_hash : list Z -> Z).

Lemma server_pool_run_live now pool :
  qsort_ok qsort -> pool_ok pool -> 0 <= now ->
  0 < nlive (sp_auto_eject_hosts pool) now (sp_servers pool) -> (forall size, ok size = true) ->
  exists pool' pts, server_pool_run stack qsort ok now pool = Some (NC_OK, pool') /\
    pool_ok pool' /\ ring_ok pool' pts /\ new_ring stack now pool pts /\
    updated ok now (new_ring stack now pool) pool NC_OK pool'.
Proof.
  intros Hq Hok Hnow Hl Ha. destruct (server_pool_run_spec stack qsort ok Hq now pool Hok Hnow) as (st & pool' & E & Hu).
  pose proof (updated_pool_ok _ _ _ _ _ _ Hu Hok) as Hok'. pose proof Hu as Hu'.
  destruct Hu as [Hc Hs Hn Hb Hr]. destruct Hr as [(-> & Hlive & pts & Hf & Hz & HP)|(Hcase & _)].
  - exists pool', pts. split_and!; try done. unfold pool_conf in Hc. constructor; try done; try apply HP.
    + eapply List.Forall_impl; [|exact (new_ring_live _ _ _ _ HP Hnow)].
      intros pt (s & Hrd & _). rewrite Hs, Hrd. by eexists.
    + assert (Ed : sp_dist_type pool' = sp_dist_type pool) by congruence. rewrite Ed. apply HP.
  - exfalso. destruct Hcase as [[_ ?]|[_ [size Hsz]]]; [lia|by rewrite Ha in Hsz].
Qed.

(** The points of the pool after an update are those of the revived servers. *)
Lemma ring_points_updated now P pool st pool' :
  updated ok now P pool st pool' ->
  ring_points stack now pool' =
  ring_points stack now (set_servers pool (map (revive (sp_auto_eject_hosts pool) now) (sp_servers pool))).
Proof.
  intros Hu. pose proof (up_conf _ _ _ _ _ _ Hu) as Hc. unfold pool_conf in Hc. unfold ring_points. simpl.
  rewrite (up_servers _ _ _ _ _ _ Hu). replace (sp_dist_type pool') with (sp_dist_type pool) by congruence.
  by replace (sp_auto_eject_hosts pool') with (sp_auto_eject_hosts pool) by congruence.
Qed.

(** C21. Rebuilding the distribution of a well-formed pool with a live server
    never writes outside the continuum and returns NC_OK; the continuum then
    holds, in its first ncontinuum slots, exactly the points of the live
    servers: ketama's hashed points in ascending order of value, modula's one
    point per unit of weight and random's one per server in pool order. *)
Theorem server_pool_run_ring now pool :
  qsort_ok qsort -> pool_ok pool -> 0 <= now ->
  0 < nlive (sp_auto_eject_hosts pool) now (sp_servers pool) -> (forall size, ok size = true) ->
  exists pool' pts, server_pool_run stack qsort ok now pool = Some (NC_OK, pool') /\ pool_ok pool' /\
    sp_ncontinuum pool' = zlen pts /\ filled (sp_continuum pool') pts /\
    Permutation (ring_points stack now pool') pts /\
    match sp_dist_type pool with
    | DIST_KETAMA => ring_sorted pts
    | _ => pts = ring_points stack now pool'
    end.
Proof.
  intros Hq Hok Hnow Hl Ha. destruct (server_pool_run_live now pool) as (pool' & pts & E & Hok' & Hr & HP & Hu); try done.
  exists pool', pts. split_and!; try done; [apply Hr|apply Hr| |].
  all: rewrite (ring_points_updated _ _ _ _ _ Hu).
  - apply HP.
  - destruct HP as (_ & _ & H1 & H2). destruct (sp_dist_type pool); auto.
Qed.

(** After such a rebuild every key is routed, by any of the three
    distributions, to a server of the pool that is live: one that is not
    ejected at the time of the rebuild. *)
Theorem server_pool_routes_live now pool rnd key :
  qsort_ok qsort -> pool_ok pool -> 0 <= now ->
  0 < nlive (sp_auto_eject_hosts pool) now (sp_servers pool) -> (forall size, ok size = true) ->
  exists pool' s, server_pool_run stack qsort ok now pool = Some (NC_OK, pool') /\
    server_pool_server key_hash rnd pool' key = Some s /\ In s (sp_servers pool') /\
    live (sp_auto_eject_hosts pool) now s = true.
Proof.
  intros Hq Hok Hnow Hl Ha. destruct (server_pool_run_live now pool) as (pool' & pts & E & Hok' & Hr & HP & Hu); try done.
  destruct (server_pool_server_Some key_hash rnd pool' pts key Hr) as (pt & s & Hin & Hrd & Es).
  exists pool', s. split_and!; try done.
  - by eapply rd_In.
  - pose proof (new_ring_live _ _ _ _ HP Hnow) as Hlive. rewrite List.Forall_forall in Hlive.
    destruct (Hlive pt Hin) as (s' & Hrd' & Hl'). rewrite <- (up_servers _ _ _ _ _ _ Hu), Hrd in Hrd'. by simplify_eq.
Qed.

End Routing.

(** ** All the operations *)

Section Ops.
Variables (stack : list Z) (qsort : list cpoint -> list cpoint) (key_hash : list Z -> Z).

Definition pool_inv (pool : server_pool) : Prop := pool_ok pool /\ exists pts, ring_ok pool pts.

(** An operation with what the allocator and the clock answer it; the clock
    is read once by a rebuild and twice by the others. *)
Inductive pool_op :=
  | OpRun (ok : Z -> bool) (now : Z)
  | OpUpdate (ok : Z -> bool) (now now' : Z)
  | OpFailure (ok : Z -> bool) (now now' : Z) (i : nat)
  | OpOk (i : nat).

Definition pool_exec (op : pool_op) (pool : server_pool) : option server_pool :=
  match op with
  | OpRun ok now => option_map snd (server_pool_run stack qsort ok now pool)
  | OpUpdate ok now now' => option_map snd (server_pool_update stack qsort ok now now' pool)
  | OpFailure ok now now' i => server_failure stack qsort ok now now' pool i
  | OpOk i => server_ok pool i
  end.

(** The server an operation names is one of the pool's. *)
Definition pool_op_ok (pool : server_pool) (op : pool_op) : Prop :=
  match op with OpFailure _ _ _ i | OpOk i => (i < length (sp_servers pool))%nat | _ => True end.

Definition pool_execs (ops : list pool_op) (pool : server_pool) : option server_pool :=
  foldl (fun r op => match r with None => None | Some p => pool_exec op p end) (Some pool) ops.

Lemma server_pool_run_inv ok now pool :
  qsort_ok qsort -> pool_inv pool ->
  exists st pool', server_pool_run stack qsort ok now pool = Some (st, pool') /\ pool_inv pool' /\
    length (sp_servers pool') = length (sp_servers pool).
Proof.
  intros Hq [Hok Hr]. destruct (Z.ltb_spec now 0) as [Hn|Hn].
  - exists NC_ERROR, pool. split_and!; try done. unfold server_pool_run, ketama_update, modula_update, random_update.
    destruct (Z.ltb_spec now 0); [|lia]. by destruct (sp_dist_type pool).
  - destruct (server_pool_run_spec stack qsort ok Hq now pool Hok Hn) as (st & pool' & E & Hu).
    exists st, pool'. split_and!; [done| |rewrite (up_servers _ _ _ _ _ _ Hu); apply length_map].
    split; [by eapply updated_pool_ok|]. eapply updated_ring_ok; [done|done|by left].
Qed.

(** Changing a server's failure data keeps the invariant. *)
Lemma pool_inv_server pool i s s' :
  pool_inv pool -> sp_servers pool !! i = Some s -> sv_static s' = sv_static s ->
  pool_inv (set_servers pool (<[i := s']> (sp_servers pool))).
Proof.
  intros [Hok [pts Hr]] Hs Hst. split.
  - eapply pool_ok_static; [| |apply (po_block _ Hok)|exact Hok]; [|done]. simpl.
    change (sv_static <$> <[i:=s']> (sp_servers pool) = sv_static <$> sp_servers pool).
    rewrite list_fmap_insert, Hst. apply list_insert_id. by rewrite list_lookup_fmap, Hs.
  - exists pts. destruct Hr as [H1 H2 H3 H4 H5]. constructor; try done. simpl.
    eapply List.Forall_impl; [|exact H4]. intros pt [x Hx]. apply rd_is_Some. apply rd_Some_range in Hx.
    unfold zlen in *. by rewrite length_insert.
Qed.

Lemma pool_exec_inv op pool :
  qsort_ok qsort -> pool_inv pool -> pool_op_ok pool op ->
  exists pool', pool_exec op pool = Some pool' /\ pool_inv pool' /\
    length (sp_servers pool') = length (sp_servers pool).
Proof.
  intros Hq Hi Hop. destruct op as [ok' now|ok' now now'|ok' now now' i|i]; simpl in *.
  - destruct (server_pool_run_inv ok' now pool Hq Hi) as (st & pool' & -> & ?). by exists pool'.
  - unfold server_pool_update. destruct (negb _); [by exists pool|]. destruct (_ =? 0); [by exists pool|].
    destruct (now <? 0); [by exists pool|]. destruct (now <=? _); [destruct (sp_nlive_server pool =? 0); by exists pool|].
    destruct (server_pool_run_inv ok' now' pool Hq Hi) as (st & pool' & -> & ?). by exists pool'.
  - unfold server_failure. destruct (negb _); [by exists pool|].
    destruct (lookup_lt_is_Some_2 _ _ Hop) as [s Hs]. rewrite Hs. cbv zeta.
    set (s1 := set_failure_count s _). set (pool1 := set_servers pool (<[i:=s1]> (sp_servers pool))).
    assert (Hi1 : pool_inv pool1) by (by eapply pool_inv_server).
    assert (Hl1 : length (sp_servers pool1) = length (sp_servers pool)) by apply length_insert.
    destruct (_ <? sp_server_failure_limit pool1); [by exists pool1|]. destruct (now <? 0); [by exists pool1|].
    set (s2 := set_next_retry _ _). set (pool2 := set_servers pool1 _).
    assert (Hi2 : pool_inv pool2).
    { eapply pool_inv_server; [done|by apply list_lookup_insert_eq|done]. }
    destruct (server_pool_run_inv ok' now' pool2 Hq Hi2) as (st & pool' & -> & Hi' & Hl').
    exists pool'. split_and!; try done. rewrite Hl'. unfold pool2. simpl. by rewrite !length_insert.
  - unfold server_ok. destruct (lookup_lt_is_Some_2 _ _ Hop) as [s Hs]. rewrite Hs.
    destruct (negb _); [|by exists pool]. eexists. split_and!; [done|by eapply pool_inv_server|simpl; by rewrite length_insert].
Qed.

(** C22. Any sequence of rebuilds, periodic updates, server failures and
    recoveries, whatever the clock answers at each reading and the allocator at each
    request, runs to its end
    from a pool with a ring, keeps the pool's invariant and leaves every key a
    server: no write or read outside the continuum, no unwritten slot read, no
    server index out of range. *)
Theorem server_pool_ops_safe ops pool :
  qsort_ok qsort -> pool_inv pool -> Forall (pool_op_ok pool) ops ->
  exists pool', pool_execs ops pool = Some pool' /\ pool_inv pool' /\
    forall rnd key, exists s, server_pool_server key_hash rnd pool' key = Some s /\ In s (sp_servers pool').
Proof.
  intros Hq Hi Hops. unfold pool_execs. revert pool Hi Hops.
  induction ops as [|op ops IH]; intros pool Hi Hops; simpl.
  - exists pool. split_and!; try done. intros rnd key. destruct Hi as [_ [pts Hr]].
    destruct (server_pool_server_Some key_hash rnd pool pts key Hr) as (pt & s & _ & Hrd & Es).
    exists s. split; [done|]. by eapply rd_In.
  - inversion Hops as [|? ? Ho Hos]; subst. destruct (pool_exec_inv op pool Hq Hi Ho) as (p1 & -> & Hi1 & Hl1).
    apply IH; [done|]. eapply List.Forall_impl; [|exact Hos]. intros o. unfold pool_op_ok. by rewrite Hl1.
Qed.

Lemma nlive_pos auto now l j s : l !! j = Some s -> live auto now s = true -> 0 < nlive auto now l.
Proof.
  revert j. induction l as [|x l IH]; intros [|j] Hs Hl; simplify_eq/=; rewrite nlive_cons.
  - rewrite Hl. pose proof (nlive_range auto now l). lia.
  - specialize (IH j Hs Hl). destruct (live auto now x); lia.
Qed.

End Ops.

(** ** Consistent hashing *)

(** C30. On a sorted, nonempty continuum the binary search stays inside it and
    finds the owner of the hash: the server of the first point whose value is
    not below the hash, or of the first point when the hash is past them all. *)
Theorem ketama_dispatch_ring c pts hash :
  filled c pts -> ring_sorted pts -> pts <> [] ->
  ketama_dispatch c (zlen pts) hash = ring_owner pts hash.
Proof. apply ketama_dispatch_owner. Qed.

Lemma find_filter_other {A} (p q : A -> bool) l x :
  List.find p l = Some x -> q x = true -> List.find p (List.filter q l) = Some x.
Proof.
  induction l as [|y l IH]; simpl; [done|]. destruct (p y) eqn:Ep.
  - intros ? Hq. simplify_eq. rewrite Hq. simpl. by rewrite Ep.
  - intros Hf Hq. destruct (q y); [|by apply IH]. simpl. rewrite Ep. by apply IH.
Qed.

Lemma find_filter_none {A} (p q : A -> bool) l :
  List.find p l = None -> List.find p (List.filter q l) = None.
Proof.
  induction l as [|y l IH]; simpl; [done|]. destruct (p y) eqn:Ep; [done|].
  intros Hf. destruct (q y); [|by apply IH]. simpl. rewrite Ep. by apply IH.
Qed.

Lemma ring_sorted_filter q pts : ring_sorted pts -> ring_sorted (List.filter q pts).
Proof.
  induction 1 as [|x l Hs IH Hx]; simpl; [constructor|]. destruct (q x); [|done]. constructor; [done|].
  rewrite List.Forall_forall in *. intros y Hy. apply filter_In in Hy as [Hy _]. by apply Hx.
Qed.

(** Taking the points of one server off the ring leaves the keys of the
    others where they were: a hash that was not owned by the removed server
    is dispatched to the same server. *)
Theorem ketama_dispatch_stable c pts c' i hash j :
  let pts' := List.filter (fun pt => negb (cindex pt =? i)) pts in
  filled c pts -> pts <> [] -> ring_sorted pts -> filled c' pts' ->
  ketama_dispatch c (zlen pts) hash = Some j -> j <> i ->
  ketama_dispatch c' (zlen pts') hash = Some j.
Proof.
  intros pts' Hf Hne Hs Hf' Hd Hj.
  rewrite (ketama_dispatch_owner c pts) in Hd by done. unfold ring_owner in Hd.
  assert (Hkeep : forall pt, cindex pt = j -> negb (cindex pt =? i) = true).
  { intros pt <-. by destruct (Z.eqb_spec (cindex pt) i). }
  assert (Hin : exists pt, In pt pts /\ cindex pt = j).
  { destruct (List.find _ pts) as [pt|] eqn:E; simplify_eq; [apply find_some in E as [? _]; eauto|].
    destruct pts as [|pt pts0]; [done|]. simplify_eq. exists pt. split; [by left|done]. }
  destruct Hin as (q & Hq & Hqj).
  assert (Hne' : pts' <> []).
  { intros E. assert (In q pts') as Hq' by (apply filter_In; auto). by rewrite E in Hq'. }
  rewrite (ketama_dispatch_owner c' pts') by (try done; by apply ring_sorted_filter). unfold ring_owner.
  destruct (List.find _ pts) as [pt|] eqn:E.
  - injection Hd as Hd. unfold pts'. rewrite (find_filter_other _ _ _ _ E) by (by apply Hkeep). by rewrite Hd.
  - unfold pts'. rewrite find_filter_none by done. destruct pts as [|pt pts0]; [done|]. injection Hd as Hd.
    simpl. rewrite Hkeep by done. by rewrite Hd.
Qed.

(** ** Hash tags *)

Lemma nc_strchr_app pre post c i :
  ~ In c pre -> nc_strchr (pre ++ c :: post) c i = Some (i + zlen pre).
Proof.
  intros Hn. revert i. induction pre as [|y pre IH]; intros i; simpl.
  - rewrite Z.eqb_refl. f_equal. unfold zlen. simpl. lia.
  - destruct (Z.eqb_spec y c) as [->|]; [by destruct Hn; left|].
    rewrite IH by (intros ?; apply Hn; by right). f_equal. rewrite zlen_cons. lia.
Qed.

Lemma hash_tag_key_between l r pre tag post :
  ~ In l pre -> ~ In r tag -> tag <> [] ->
  hash_tag_key [l; r] (pre ++ l :: tag ++ r :: post) = tag.
Proof.
  intros Hl Hr Hne. unfold hash_tag_key. rewrite nc_strchr_app by done. rewrite Z.add_0_l.
  change (default 0 (rd [r] 0)) with r.
  assert (Hd : drop (Z.to_nat (zlen pre + 1)) (pre ++ l :: tag ++ r :: post) = tag ++ r :: post).
  { unfold zlen. replace (Z.to_nat (Z.of_nat (length pre) + 1)) with (length pre + 1)%nat by lia.
    by rewrite <- drop_drop, drop_app_length. }
  rewrite Hd, nc_strchr_app by done.
  assert (0 < zlen tag) by (destruct tag; [done|]; rewrite zlen_cons; pose proof (zlen_nonneg tag); lia).
  destruct (Z.ltb_spec 1 (zlen pre + 1 + zlen tag - zlen pre)); [|lia].
  unfold slice. rewrite Hd. replace (Z.to_nat _) with (length tag) by (unfold zlen; lia). by rewrite take_app_length.
Qed.

(** With a hash tag configured, two keys with the same nonempty text
    between the tag's characters go to the same server, whatever surrounds it
    (ketama and modula; random ignores the key). *)
Theorem hash_tag_same_server key_hash rnd pool l r pre pre' tag post post' :
  sp_hash_tag pool = [l; r] -> ~ In l pre -> ~ In l pre' -> ~ In r tag -> tag <> [] ->
  server_pool_server key_hash rnd pool (pre ++ l :: tag ++ r :: post) =
  server_pool_server key_hash rnd pool (pre' ++ l :: tag ++ r :: post').
Proof.
  intros E H1 H2 H3 H4. unfold server_pool_server, server_pool_idx. by rewrite E, !hash_tag_key_between.
Qed.

(** ** Points per server *)

(** However the weights of a pool differ, rounding never makes the points
    of its servers outgrow the 160 slots per server that ketama_update
    allocates, and never leaves the ring empty: for any positive weights whose
    total is below 2^24, of at most 2^14 servers. *)
Theorem ketama_points_within_slots ws :
  ws <> [] -> Forall (fun w => 1 <= w) ws -> sum ws < 2 ^ 24 -> zlen ws <= 2 ^ 14 ->
  0 < sum (map (fun w => ketama_points w (sum ws) (zlen ws)) ws) <= KETAMA_POINTS_PER_SERVER * zlen ws.
Proof. exact (ring_size_fits ws). Qed.

Lemma ketama_points_within_slots_witness :
  let ws := [1; 7; 3; 100000] in
  0 < sum (map (fun w => ketama_points w (sum ws) (zlen ws)) ws) <= KETAMA_POINTS_PER_SERVER * zlen ws.
Proof. apply (ketama_points_within_slots [1; 7; 3; 100000]); [done| |done|done]. repeat constructor; lia. Defined.

(** Servers of equal weight share the ring nearly evenly: in a pool of up
    to 2000 of them each gets 160 points, or 156 where the single precision
    arithmetic loses a round of four (25 servers are the first such pool), so
    the points never outgrow the 160 slots allocated per server. *)
Theorem ketama_points_equal n :
  1 <= n <= 2000 ->
  (ketama_points 1 n n = 160 \/ ketama_points 1 n n = 156) /\
  (n < 25 -> ketama_points 1 n n = 160) /\ (n = 25 -> ketama_points 1 n n = 156).
Proof.
  intros Hn. assert (Hall : forallb (fun k => let p := ketama_points 1 (Z.of_nat k) (Z.of_nat k) in
    ((p =? 160) || (p =? 156)) && ((25 <=? Z.of_nat k) || (p =? 160)) && (negb (Z.of_nat k =? 25) || (p =? 156)))
    (seq 1 2000) = true) by (by vm_compute).
  rewrite forallb_forall in Hall. specialize (Hall (Z.to_nat n) ltac:(apply in_seq; lia)).
  rewrite Z2Nat.id in Hall by lia. cbv zeta in Hall. b2p. repeat match goal with H : _ || _ = true |- _ => apply orb_true_iff in H as [?|?] end;
    b2p; lia.
Qed.

Lemma ketama_points_equal_witness : ketama_points 1 25 25 = 156.
Proof. by apply (ketama_points_equal 25). Defined.

(** A server name that is too long for the 86 byte host buffer makes
    ketama_update read past it. *)
Theorem ketama_update_long_name stack qsort ok :
  let pool := mk_spool [mk_server (repeat 97 90) (repeat 97 90) 1 0 0] 0 11 (replicate 1760 None) 0 0
                DIST_KETAMA [] false 0 0 in
  ketama_update stack qsort ok 0 pool = None.
Proof. by vm_compute. Qed.

(** ** Witnesses *)

Definition demo_ring : server_pool :=
  mk_spool demo_servers 4 4
    (map Some [mk_cpoint 0 0; mk_cpoint 1 0; mk_cpoint 1 0; mk_cpoint 2 0])
    3 0 DIST_MODULA (bytes_of "{}") true 30000000 2.

Lemma demo_ring_inv : pool_inv demo_ring.
Proof.
  split; [by apply pool_okb_ok; vm_compute|].
  exists [mk_cpoint 0 0; mk_cpoint 1 0; mk_cpoint 1 0; mk_cpoint 2 0].
  constructor; try done; [by exists []|]. repeat constructor; by eexists.
Qed.

(** Three servers, the second ejected until 5000: at 1000 two are live. *)
Lemma server_pool_run_ring_witness :
  exists pool' pts, server_pool_run [] ring_sort (fun _ => true) 1000 (demo_pool DIST_KETAMA demo_servers) = Some (NC_OK, pool') /\
    pool_ok pool' /\ sp_ncontinuum pool' = zlen pts /\ filled (sp_continuum pool') pts /\
    Permutation (ring_points [] 1000 pool') pts /\ ring_sorted pts.
Proof.
  apply (server_pool_run_ring [] ring_sort (fun _ => true) 1000 (demo_pool DIST_KETAMA demo_servers));
    [apply ring_sort_ok|apply demo_pool_ok|lia|by vm_compute|done].
Defined.

Lemma server_pool_routes_live_witness :
  exists pool' s, server_pool_run [] ring_sort (fun _ => true) 1000 (demo_pool DIST_MODULA demo_servers) = Some (NC_OK, pool') /\
    server_pool_server hash_fnv1a_64 7 pool' (bytes_of "user:17") = Some s /\ In s (sp_servers pool') /\
    live true 1000 s = true.
Proof.
  apply (server_pool_routes_live [] ring_sort (fun _ => true) hash_fnv1a_64 1000 (demo_pool DIST_MODULA demo_servers) 7 (bytes_of "user:17"));
    [apply ring_sort_ok|apply demo_pool_ok|lia|by vm_compute|done].
Defined.

Lemma server_pool_ops_safe_witness :
  exists pool', pool_execs [] ring_sort [OpFailure (fun _ => true) 1000 1001 2; OpOk 0; OpUpdate (fun _ => false) 9000 (-1); OpRun (fun _ => true) 40000000] demo_ring = Some pool' /\
    pool_inv pool' /\
    forall rnd key, exists s, server_pool_server hash_fnv1a_64 rnd pool' key = Some s /\ In s (sp_servers pool').
Proof.
  apply (server_pool_ops_safe [] ring_sort hash_fnv1a_64 [OpFailure (fun _ => true) 1000 1001 2; OpOk 0; OpUpdate (fun _ => false) 9000 (-1); OpRun (fun _ => true) 40000000] demo_ring);
    [apply ring_sort_ok|apply demo_ring_inv|repeat constructor; simpl; lia].
Defined.

Lemma ketama_dispatch_ring_witness :
  ketama_dispatch (map Some [mk_cpoint 2 10; mk_cpoint 0 20; mk_cpoint 1 30]) 3 25 =
  ring_owner [mk_cpoint 2 10; mk_cpoint 0 20; mk_cpoint 1 30] 25 /\
  ring_owner [mk_cpoint 2 10; mk_cpoint 0 20; mk_cpoint 1 30] 25 = Some 1.
Proof.
  split; [|done]. apply (ketama_dispatch_ring _ [mk_cpoint 2 10; mk_cpoint 0 20; mk_cpoint 1 30] 25);
    [by exists []| |done]. repeat constructor; simpl; lia.
Defined.

Lemma hash_tag_same_server_witness :
  server_pool_server hash_fnv1a_64 0 demo_ring (bytes_of "a{42}x") =
  server_pool_server hash_fnv1a_64 0 demo_ring (bytes_of "bb{42}").
Proof.
  apply (hash_tag_same_server hash_fnv1a_64 0 demo_ring 123 125 (bytes_of "a") (bytes_of "bb") (bytes_of "42") (bytes_of "x") []);
    try done; simpl; lia.
Defined.
