(* ===== verification/PoolEject.v ===== *)
(** Ejection of a failing server: what [server_failure] does to the ring when
    the limit is reached, how long the server stays out, and where the keys
    of the other servers go meanwhile. *)

From Stdlib Require Import Permutation Sorted.
From stdpp Require Import sorting.
From S2P Require Import Prelude HashKit Md5 Pool PoolFacts PoolFloat PoolSafe PoolRoute.

Local Open Scope cint_scope.
Local Open Scope Z_scope.

(** ** A server out of the ring *)

(** Server [i] may not be tried before [T], and no point of the ring in use
    is its. *)
Definition out_until (i : nat) (T : Z) (pool : server_pool) : Prop :=
  exists s pts, sp_servers pool !! i = Some s /\ T <= sv_next_retry s /\
    ring_ok pool pts /\ Forall (fun pt => cindex pt <> Z.of_nat i) pts.

Lemma rd_nat {A} (l : list A) (i : nat) : rd l (Z.of_nat i) = l !! i.
Proof. unfold rd. destruct (Z.leb_spec 0 (Z.of_nat i)); [|lia]. by rewrite Nat2Z.id. Qed.

Lemma revive_later auto now s : now < sv_next_retry s -> revive auto now s = s.
Proof. intros H. unfold revive. destruct (Z.leb_spec (sv_next_retry s) now); [lia|]. by rewrite andb_false_r. Qed.

(** The failure of server [i] of [pool], read at [now] with the rebuild at
    [now'], reaches the limit: the pool ejects servers, the count of failures
    comes to the limit, the rebuild has its memory and falls before the retry
    time, and another server is live then. *)
Record limit_reached (ok : Z -> bool) (now now' : Z) (pool : server_pool) (i : nat) (s : server) : Prop := {
  lr_memory : forall size, ok size = true;
  lr_auto : sp_auto_eject_hosts pool = true;
  lr_clock : 0 <= now /\ 0 <= now' < now + sp_server_retry_timeout pool;
  lr_server : sp_servers pool !! i = Some s;
  lr_limit : 0 <= sv_failure_count s < 2 ^ 32 - 1 /\ sp_server_failure_limit pool <= sv_failure_count s + 1;
  lr_other : exists j sj, sp_servers pool !! j = Some sj /\ j <> i /\ live true now' sj = true
}.

Section Eject.
Variables (stack : list Z) (qsort : list cpoint -> list cpoint).
Hypothesis Hqsort : qsort_ok qsort.

(** A ring rebuilt before the retry time of a server has no point of it. *)
Lemma new_ring_without now pool pts i s :
  new_ring stack now pool pts -> 0 <= now -> sp_auto_eject_hosts pool = true ->
  sp_servers pool !! i = Some s -> now < sv_next_retry s ->
  Forall (fun pt => cindex pt <> Z.of_nat i) pts.
Proof.
  intros HP Hnow Ha Hs Hr. eapply List.Forall_impl; [|exact (new_ring_live _ _ _ _ HP Hnow)].
  intros pt (x & Hrd & Hl) Hix. rewrite Hix, rd_map, rd_nat, Hs, Ha in Hrd. simpl in Hrd.
  rewrite revive_later in Hrd by done. simplify_eq. unfold live in Hl. rewrite Ha in Hl. simpl in Hl. b2p. lia.
Qed.

Lemma updated_servers ok now P pool st pool' i s :
  updated ok now P pool st pool' -> sp_servers pool !! i = Some s -> now < sv_next_retry s ->
  sp_servers pool' !! i = Some s.
Proof.
  intros Hu Hs Hr. rewrite (up_servers _ _ _ _ _ _ Hu). change (map ?f ?l) with (f <$> l).
  rewrite list_lookup_fmap, Hs. simpl. by rewrite revive_later.
Qed.

(** Rebuilding before that time leaves it out, whether the rebuild works or
    not. *)
Lemma server_pool_run_out ok now pool i T s :
  pool_ok pool -> sp_auto_eject_hosts pool = true -> out_until i T pool -> now < T ->
  sp_servers pool !! i = Some s ->
  exists st pool', server_pool_run stack qsort ok now pool = Some (st, pool') /\ out_until i T pool' /\
    sp_servers pool' !! i = Some s.
Proof.
  intros Hok Ha Hout HT Hs. pose proof Hout as (s' & pts & Hs' & Hr & Hring & Hno).
  rewrite Hs in Hs'. injection Hs' as <-. destruct (Z.ltb_spec now 0) as [Hn|Hn].
  - exists NC_ERROR, pool. split_and!; try done. unfold server_pool_run, ketama_update, modula_update, random_update.
    destruct (Z.ltb_spec now 0); [|lia]. by destruct (sp_dist_type pool).
  - destruct (server_pool_run_spec stack qsort ok Hqsort now pool Hok Hn) as (st & pool' & E & Hu).
    assert (Hi' : sp_servers pool' !! i = Some s) by (eapply updated_servers; [done|done|lia]).
    exists st, pool'. split_and!; try done. pose proof (up_conf _ _ _ _ _ _ Hu) as Hc. unfold pool_conf in Hc.
    assert (Ed : sp_dist_type pool' = sp_dist_type pool) by congruence.
    destruct (up_ring _ _ _ _ _ _ Hu) as [(-> & Hl & pts' & Hf & Hz & HP)|(_ & Hcont & Hnc)].
    + exists s, pts'. split_and!; try done; [|eapply new_ring_without; [done|done|done|done|lia]]. constructor; try done; try apply HP.
      * eapply List.Forall_impl; [|exact (new_ring_live _ _ _ _ HP Hn)].
        intros pt (x & Hrd & _). rewrite (up_servers _ _ _ _ _ _ Hu), Hrd. by eexists.
      * rewrite Ed. apply HP.
    + exists s, pts. split_and!; try done. destruct Hring as [Hf Hz Hne Hix Hso].
      constructor; rewrite ?Hcont, ?Hnc, ?Ed; try done.
      eapply List.Forall_impl; [|exact Hix]. intros pt [x Hrd].
      rewrite (up_servers _ _ _ _ _ _ Hu), rd_map, Hrd. by eexists.
Qed.

(** Failure data of another server, or of this one with the retry time kept
    or moved on, does not bring it back. *)
Lemma out_until_server i T pool j s s' :
  out_until i T pool -> sp_servers pool !! j = Some s -> (j = i -> T <= sv_next_retry s') ->
  out_until i T (set_servers pool (<[j := s']> (sp_servers pool))).
Proof.
  intros (x & pts & Hx & Hr & Hring & Hno) Hs Hj.
  exists (if decide (j = i) then s' else x), pts. split_and!; try done; simpl.
  - case_decide; [subst; apply list_lookup_insert_eq; by eapply lookup_lt_Some|by rewrite list_lookup_insert_ne].
  - case_decide; auto.
  - destruct Hring as [Hf Hz Hne Hix Hso]. constructor; try done. simpl.
    eapply List.Forall_impl; [|exact Hix]. intros pt [y Hy]. apply rd_is_Some. apply rd_Some_range in Hy.
    unfold zlen in *. by rewrite length_insert.
Qed.

(** ** Before the retry time

    Operations that read the clock before [T].  A failure of the server
    itself, counted from [from] on, may follow; but not both failures and
    answers of it, since an answer after a failure makes [server_ok] clear
    the retry time. *)
Definition early (T : Z) (op : pool_op) : Prop :=
  match op with
  | OpRun _ now => now < T
  | OpUpdate _ _ now' => now' < T
  | OpFailure _ _ now' _ => now' < T
  | OpOk _ => True
  end.

Definition no_failure (i : nat) (op : pool_op) : Prop :=
  match op with OpFailure _ _ _ j => j <> i | _ => True end.

Definition no_answer (from : Z) (i : nat) (op : pool_op) : Prop :=
  match op with
  | OpOk j => j <> i
  | OpFailure _ now _ j => j = i -> now < 0 \/ from <= now
  | _ => True
  end.

(** What the operations keep: the configuration, the server out until [T],
    and its failure count when only answers of it are allowed. *)
Record kept_out (i : nat) (T timeout : Z) (quiet : bool) (pool : server_pool) : Prop := {
  ko_inv : pool_inv pool;
  ko_auto : sp_auto_eject_hosts pool = true;
  ko_timeout : sp_server_retry_timeout pool = timeout;
  ko_out : out_until i T pool;
  ko_count : quiet = true -> exists s, sp_servers pool !! i = Some s /\ sv_failure_count s = 0
}.

Lemma run_kept_out ok now pool i T timeout quiet :
  kept_out i T timeout quiet pool -> now < T ->
  exists st pool', server_pool_run stack qsort ok now pool = Some (st, pool') /\ kept_out i T timeout quiet pool' /\
    length (sp_servers pool') = length (sp_servers pool).
Proof.
  intros [Hi Ha Ht Ho Hc] HT. pose proof Ho as (s & _ & Hs & _).
  destruct (server_pool_run_out ok now pool i T s (proj1 Hi) Ha Ho HT Hs) as (st & pool' & E & Ho' & Hs').
  destruct (server_pool_run_inv stack qsort ok now pool Hqsort Hi) as (st' & p & E' & Hi' & Hl).
  rewrite E in E'. injection E' as <- <-. exists st, pool'. split_and!; try done.
  assert (Hcf : pool_conf pool' = pool_conf pool).
  { destruct (Z.ltb_spec now 0).
    - unfold server_pool_run, ketama_update, modula_update, random_update in E.
      destruct (Z.ltb_spec now 0); [|lia]. by destruct (sp_dist_type pool); injection E as _ <-.
    - destruct (server_pool_run_spec stack qsort ok Hqsort now pool (proj1 Hi) ltac:(lia)) as (? & ? & E2 & Hu).
      rewrite E in E2. injection E2 as <- <-. apply (up_conf _ _ _ _ _ _ Hu). }
  unfold pool_conf in Hcf. constructor; try done; try congruence.
  intros Hqt. destruct (Hc Hqt) as (x & Hx & Hx0). assert (x = s) as -> by congruence. by exists s.
Qed.

Lemma server_kept_out pool i T timeout quiet j s s' :
  kept_out i T timeout quiet pool -> sp_servers pool !! j = Some s -> sv_static s' = sv_static s ->
  (j = i -> T <= sv_next_retry s' /\ (quiet = true -> sv_failure_count s' = 0)) ->
  kept_out i T timeout quiet (set_servers pool (<[j := s']> (sp_servers pool))).
Proof.
  intros [Hi Ha Ht Ho Hc] Hs Hst Hj. constructor; try done.
  - by eapply pool_inv_server.
  - eapply out_until_server; [done|done|]. intros E. by apply Hj.
  - intros Hqt. simpl. destruct (decide (j = i)) as [->|Hne].
    + exists s'. split; [apply list_lookup_insert_eq; by eapply lookup_lt_Some|]. by apply Hj.
    + rewrite list_lookup_insert_ne by done. by apply Hc.
Qed.

Lemma failure_kept_out ok now now' pool i T timeout quiet j :
  kept_out i T timeout quiet pool -> now' < T -> (j < length (sp_servers pool))%nat ->
  (j = i -> quiet = false /\ (now < 0 \/ T <= now + timeout)) ->
  exists pool', server_failure stack qsort ok now now' pool j = Some pool' /\ kept_out i T timeout quiet pool' /\
    length (sp_servers pool') = length (sp_servers pool).
Proof.
  intros Hk HT Hj Hi. unfold server_failure. rewrite (ko_auto _ _ _ _ _ Hk). simpl negb. cbv iota.
  destruct (lookup_lt_is_Some_2 _ _ Hj) as [s Hs]. rewrite Hs. cbv zeta.
  set (s1 := set_failure_count s _). set (pool1 := set_servers pool (<[j:=s1]> (sp_servers pool))).
  assert (Hold : j = i -> T <= sv_next_retry s).
  { intros ->. destruct (ko_out _ _ _ _ _ Hk) as (x & ? & Hx & Hxr & _). by replace s with x by congruence. }
  assert (Hk1 : kept_out i T timeout quiet pool1).
  { eapply server_kept_out; [done|done|done|]. intros E. split; [by apply Hold|]. destruct (Hi E) as [-> _]. done. }
  assert (Hl1 : length (sp_servers pool1) = length (sp_servers pool)) by apply length_insert.
  destruct (_ <? sp_server_failure_limit pool1); [by exists pool1|].
  destruct (Z.ltb_spec now 0) as [Hn|Hn]; [by exists pool1|].
  set (s2 := set_next_retry _ _). set (pool2 := set_servers pool1 _).
  assert (Hk2 : kept_out i T timeout quiet pool2).
  { eapply server_kept_out; [done|by apply list_lookup_insert_eq|done|]. intros E. split.
    - simpl. change (sp_server_retry_timeout pool1) with (sp_server_retry_timeout pool).
      rewrite (ko_timeout _ _ _ _ _ Hk). destruct (Hi E) as [_ [?|?]]; lia.
    - destruct (Hi E) as [-> _]. done. }
  destruct (run_kept_out ok now' pool2 i T timeout quiet Hk2 HT) as (st & pool' & -> & Hk' & Hl').
  exists pool'. split_and!; try done. rewrite Hl'. simpl. by rewrite !length_insert.
Qed.

Lemma exec_kept_out op pool i T timeout quiet :
  kept_out i T timeout quiet pool -> pool_op_ok pool op -> early T op ->
  (if quiet then no_failure i op else no_answer (T - timeout) i op) ->
  exists pool', pool_exec stack qsort op pool = Some pool' /\ kept_out i T timeout quiet pool' /\
    length (sp_servers pool') = length (sp_servers pool).
Proof.
  intros Hk Hop He Hq. destruct op as [ok now|ok now now'|ok now now' j|j]; simpl in *.
  - destruct (run_kept_out ok now pool i T timeout quiet Hk He) as (st & pool' & -> & ?). by exists pool'.
  - unfold server_pool_update. destruct (negb _); [by exists pool|]. destruct (_ =? 0); [by exists pool|].
    destruct (now <? 0); [by exists pool|]. destruct (now <=? _); [destruct (sp_nlive_server pool =? 0); by exists pool|].
    destruct (run_kept_out ok now' pool i T timeout quiet Hk He) as (st & pool' & -> & ?). by exists pool'.
  - apply failure_kept_out; try done. intros E. destruct quiet; [by destruct Hq|]. split; [done|].
    destruct (Hq E); [by left|right; lia].
  - unfold server_ok. destruct (lookup_lt_is_Some_2 _ _ Hop) as [s Hs]. rewrite Hs.
    destruct (Z.eqb_spec (sv_failure_count s) 0) as [Hz|Hz]; simpl; [by exists pool|].
    eexists. split_and!; [done| |simpl; by rewrite length_insert].
    eapply server_kept_out; [done|done|done|]. intros E. exfalso. destruct quiet; [|by apply Hq].
    subst j. destruct (ko_count _ _ _ _ _ Hk eq_refl) as (x & Hx & Hx0). by replace s with x in Hz by congruence.
Qed.

Lemma execs_kept_out ops pool i T timeout quiet :
  kept_out i T timeout quiet pool -> Forall (pool_op_ok pool) ops -> Forall (early T) ops ->
  Forall (if quiet then no_failure i else no_answer (T - timeout) i) ops ->
  exists pool', pool_execs stack qsort ops pool = Some pool' /\ kept_out i T timeout quiet pool'.
Proof.
  unfold pool_execs. revert pool. induction ops as [|op ops IH]; intros pool Hk Ho He Hq; [by exists pool|].
  apply Forall_cons_iff in Ho as [Ho Hos]. apply Forall_cons_iff in He as [He Hes]. apply Forall_cons_iff in Hq as [Hq Hqs].
  simpl. destruct (exec_kept_out op pool i T timeout quiet Hk Ho He) as (p1 & -> & Hk1 & Hl1); [by destruct quiet|].
  apply IH; try done. eapply List.Forall_impl; [|exact Hos]. intros o. unfold pool_op_ok. by rewrite Hl1.
Qed.

(** ** The failure that reaches the limit *)

Lemma limit_kept_out ok now now' pool i s :
  let T := now + sp_server_retry_timeout pool in
  pool_inv pool -> limit_reached ok now now' pool i s ->
  exists pool' s', server_failure stack qsort ok now now' pool i = Some pool' /\
    sp_servers pool' !! i = Some s' /\ sv_failure_count s' = 0 /\ sv_next_retry s' = T /\
    length (sp_servers pool') = length (sp_servers pool) /\
    sv_static s' = sv_static s /\ pool_conf pool' = pool_conf pool /\
    (exists pts, ring_ok pool' pts /\ new_ring stack now' (set_servers pool (<[i := s']> (sp_servers pool))) pts) /\
    kept_out i T (sp_server_retry_timeout pool) true pool'.
Proof.
  intros T Hi [Ha Hauto [Hnow Hnow'] Hs [Hf Hlim] (j & sj & Hj & Hne & Hlj)]. unfold server_failure.
  rewrite Hauto, Hs. cbn [negb]. cbv zeta. rewrite (u32_small (sv_failure_count s + 1)) by (unfold is_u32; lia).
  set (s1 := set_failure_count s _). cbn [sv_failure_count s1 set_failure_count].
  change (sp_server_failure_limit (set_servers pool _)) with (sp_server_failure_limit pool).
  destruct (Z.ltb_spec (sv_failure_count s + 1) (sp_server_failure_limit pool)); [lia|].
  destruct (Z.ltb_spec now 0); [lia|].
  change (sp_servers (set_servers pool (<[i:=s1]> (sp_servers pool)))) with (<[i:=s1]> (sp_servers pool)).
  rewrite list_insert_insert_eq. set (s2 := set_next_retry (set_failure_count s1 0) _).
  change (set_servers (set_servers pool _) ?x) with (set_servers pool x).
  set (pool2 := set_servers pool (<[i:=s2]> (sp_servers pool))).
  assert (Hi2 : pool_inv pool2) by (by eapply pool_inv_server).
  assert (Hlt : (i < length (sp_servers pool))%nat) by (by apply lookup_lt_Some in Hs).
  assert (Hs2 : sp_servers pool2 !! i = Some s2) by (by apply list_lookup_insert_eq).
  assert (Hnl : 0 < nlive (sp_auto_eject_hosts pool2) now' (sp_servers pool2)).
  { apply (nlive_pos _ _ _ j sj); simpl; [by rewrite list_lookup_insert_ne|by rewrite Hauto]. }
  destruct (server_pool_run_live stack qsort ok now' pool2 Hqsort (proj1 Hi2) ltac:(lia) Hnl Ha)
    as (pool' & pts & -> & Hok' & Hr & HP & Hu).
  assert (Hs' : sp_servers pool' !! i = Some s2) by (eapply updated_servers; [done|done|simpl; lia]).
  exists pool', s2. split_and!; try done.
  - rewrite (up_servers _ _ _ _ _ _ Hu), length_map. apply length_insert.
  - apply (up_conf _ _ _ _ _ _ Hu).
  - by exists pts.
  - pose proof (up_conf _ _ _ _ _ _ Hu) as Hc. unfold pool_conf in Hc.
    change (sp_auto_eject_hosts pool2) with (sp_auto_eject_hosts pool) in Hc.
    change (sp_server_retry_timeout pool2) with (sp_server_retry_timeout pool) in Hc.
    constructor; try congruence.
    + split; [done|by exists pts].
    + exists s2, pts. split_and!; try done. eapply new_ring_without; [done|lia|done|done|simpl; lia].
    + intros _. by exists s2.
Qed.

(** C23. The failure that reaches the limit ejects the server until its retry
    time.  When another server is live at the rebuild and its memory is
    there, server_failure restarts the failure count at 0, sets the retry
    time to the first reading of the clock plus the configured timeout and
    rebuilds the ring; from then on, through every sequence of rebuilds,
    updates, failures and answers of any servers in which the clock is read
    before the retry time (whatever the allocator says), the pool keeps its
    invariant and no key goes to the ejected server.  The sequence holds no
    further failure of that server, or else no answer of it: an answer after
    a new failure is what makes server_ok clear the retry time early. *)
Theorem server_failure_ejects key_hash ok now now' pool i s ops :
  let T := now + sp_server_retry_timeout pool in
  pool_inv pool -> limit_reached ok now now' pool i s ->
  Forall (pool_op_ok pool) ops -> Forall (early T) ops ->
  Forall (no_failure i) ops \/ Forall (no_answer now i) ops ->
  exists pool1 s1 pool2, server_failure stack qsort ok now now' pool i = Some pool1 /\
    sp_servers pool1 !! i = Some s1 /\ sv_failure_count s1 = 0 /\ sv_next_retry s1 = T /\
    pool_execs stack qsort ops pool1 = Some pool2 /\ pool_inv pool2 /\
    forall rnd key, exists idx, server_pool_idx key_hash rnd pool2 key = Some idx /\ idx <> Z.of_nat i.
Proof.
  intros T Hi Hlr Hop He Hq.
  destruct (limit_kept_out ok now now' pool i s) as (pool1 & s1 & E1 & Hs1 & Hc1 & Hr1 & Hl1 & _ & _ & _ & Hk1); try done.
  assert (Hop1 : Forall (pool_op_ok pool1) ops).
  { eapply List.Forall_impl; [|exact Hop]. intros o. unfold pool_op_ok. by rewrite Hl1. }
  assert (Hk : exists pool2 quiet, pool_execs stack qsort ops pool1 = Some pool2 /\
    kept_out i T (sp_server_retry_timeout pool) quiet pool2).
  { destruct Hq as [Hq|Hq].
    - destruct (execs_kept_out ops pool1 i T _ true Hk1 Hop1 He Hq) as (pool2 & ? & ?). by exists pool2, true.
    - destruct Hk1 as [K1 K2 K3 K4 _].
      destruct (execs_kept_out ops pool1 i T (sp_server_retry_timeout pool) false) as (pool2 & ? & ?); try done;
        [|by exists pool2, false]. by replace (T - _) with now by (unfold T; lia). }
  destruct Hk as (pool2 & quiet & E2 & Hk2). exists pool1, s1, pool2. split_and!; try done; [apply Hk2|].
  intros rnd key. destruct (ko_out _ _ _ _ _ Hk2) as (x & pts & _ & _ & Hr & Hno).
  destruct (server_pool_idx_In key_hash rnd pool2 pts key Hr) as (pt & Hin & E). exists (cindex pt). split; [done|].
  rewrite List.Forall_forall in Hno. by apply Hno.
Qed.
End Eject.

(** ** The size of the ring after an ejection *)

Lemma nlive_lt auto now l i s : l !! i = Some s -> live auto now s = false -> nlive auto now l < zlen l.
Proof.
  revert i. induction l as [|x l IH]; intros [|i] Hs Hl; simplify_eq/=; rewrite nlive_cons, zlen_cons.
  - rewrite Hl. pose proof (nlive_range auto now l). lia.
  - specialize (IH i Hs Hl). destruct (live auto now x); lia.
Qed.

Lemma live_weight_unit auto now l :
  Forall (fun s => sv_weight s = 1) l -> live_weight auto now l = nlive auto now l.
Proof. induction 1 as [|s l Hs _ IH]; [done|]. rewrite nlive_cons. simpl. rewrite Hs, IH. by destruct (live auto now s). Qed.

(** With modula over unit weights, or random, a ring that leaves a server out
    has fewer points than the pool has servers. *)
Lemma new_ring_short stack now pool pts i s :
  new_ring stack now pool pts -> 0 <= now -> sp_auto_eject_hosts pool = true -> sp_dist_type pool <> DIST_KETAMA ->
  (sp_dist_type pool = DIST_MODULA -> Forall (fun s => sv_weight s = 1) (sp_servers pool)) ->
  sp_servers pool !! i = Some s -> now < sv_next_retry s -> zlen pts < zlen (sp_servers pool).
Proof.
  intros (_ & _ & _ & Hpts) Hnow Ha Hd Hw Hs Hr. rewrite (Hpts Hd). clear Hpts. rewrite Ha.
  set (l := map (revive true now) (sp_servers pool)).
  assert (Hn : nlive true now l < zlen (sp_servers pool)).
  { unfold l. rewrite nlive_revive by done. apply (nlive_lt _ _ _ i s); [done|]. unfold live. simpl.
    by apply Z.leb_gt. }
  unfold ring_points. simpl. rewrite Ha. destruct (sp_dist_type pool) eqn:E; [done| |].
  - specialize (Hw eq_refl).
    assert (Hwl : Forall (fun s => sv_weight s = 1) l).
    { apply List.Forall_map. eapply List.Forall_impl; [|exact Hw]. intros x Hx. by rewrite sv_weight_revive. }
    rewrite zlen_all_modula, live_weight_unit; [done|done|]. eapply List.Forall_impl; [|exact Hwl]. simpl. intros. lia.
  - by rewrite zlen_all_random, live_servers_length.
Qed.

Lemma limit_short_ring stack qsort ok now now' pool i s pool' :
  qsort_ok qsort -> pool_inv pool -> limit_reached ok now now' pool i s ->
  sp_dist_type pool <> DIST_KETAMA ->
  (sp_dist_type pool = DIST_MODULA -> Forall (fun s => sv_weight s = 1) (sp_servers pool)) ->
  server_failure stack qsort ok now now' pool i = Some pool' ->
  sp_ncontinuum pool' < zlen (sp_servers pool).
Proof.
  intros Hq Hi Hlr Hd Hw E. pose proof Hlr as [_ Hauto [_ Hnow'] Hs _ _].
  destruct (limit_kept_out stack qsort Hq ok now now' pool i s)
    as (p1 & s1 & E1 & _ & _ & Hr1 & _ & Hst & _ & (pts & Hring & HP) & _); try done.
  rewrite E in E1. injection E1 as <-. rewrite (ro_count _ _ Hring).
  assert (Hlt : (i < length (sp_servers pool))%nat) by (by apply lookup_lt_Some in Hs).
  replace (zlen (sp_servers pool)) with (zlen (<[i:=s1]> (sp_servers pool))) by (unfold zlen; by rewrite length_insert).
  apply (new_ring_short stack now' (set_servers pool (<[i:=s1]> (sp_servers pool))) pts i s1); try done.
  - apply Hnow'.
  - simpl. intros Em. apply list.Forall_insert; [by apply Hw|]. unfold sv_static in Hst.
    specialize (Hw Em). rewrite List.Forall_forall in Hw.
    assert (sv_weight s = 1) by (apply Hw; by eapply list_elem_of_In, list_elem_of_lookup_2). congruence.
  - by apply list_lookup_insert_eq.
  - lia.
Qed.

(** ** The keys of the others

    In a ketama pool whose servers have unit weights and number at most 24
    every live server has 40 rounds of points, however many are live. *)

Section Stable.
Variables (stack : list Z) (qsort : list cpoint -> list cpoint).
Hypothesis Hqsort : qsort_ok qsort.

Definition unit_points (j : Z) (name : list Z) : list cpoint :=
  concat (map (fun n => map (fun x => mk_cpoint j (ketama_hash stack (ketama_host name (Z.of_nat n)) x))
                           [0; 1; 2; 3]) (seq 0 40)).

Definition live_names (auto : bool) (now i : Z) (l : list server) : list (Z * list Z) :=
  map (fun e => (fst e, sv_name (snd e))) (live_servers auto now i l).

Lemma live_servers_weight auto now i l e :
  Forall (fun s => sv_weight s = 1) l -> In e (live_servers auto now i l) -> sv_weight (snd e) = 1.
Proof.
  intros Hw. revert i. induction Hw as [|s l Hs _ IH]; intros i; simpl; [done|].
  destruct (live auto now s); [intros [<-|?]|]; eauto.
Qed.

Lemma unit_ring now pool :
  sp_dist_type pool = DIST_KETAMA -> Forall (fun s => sv_weight s = 1) (sp_servers pool) ->
  let auto := sp_auto_eject_hosts pool in
  1 <= nlive auto now (sp_servers pool) < 25 ->
  ring_points stack now pool =
  concat (map (fun e => unit_points (fst e) (snd e)) (live_names auto now 0 (sp_servers pool))).
Proof.
  intros Hd Hw auto Hn. unfold ring_points, all_points, live_names. rewrite Hd, map_map. f_equal.
  apply map_ext_in. intros e He. unfold ketama_ring, unit_points, ketama_rounds. simpl fst. simpl snd.
  rewrite (live_servers_weight _ _ _ _ _ Hw He), live_weight_unit by done. fold auto.
  by rewrite (proj1 (proj2 (ketama_points_equal (nlive auto now (sp_servers pool)) ltac:(lia)))) by lia.
Qed.

(** The servers after an ejection: the same names, all live but one. *)
Lemma live_names_eject now now' k l l' i :
  Forall2 (fun s s' => sv_name s = sv_name s' /\ live true now s = true) l l' ->
  (forall m s', l' !! m = Some s' -> live true now' s' = negb (k + Z.of_nat m =? i)) ->
  live_names true now' k l' = List.filter (fun e => negb (fst e =? i)) (live_names true now k l).
Proof.
  intros H. revert k. induction H as [|s s' l l' [Hn Hl] _ IH]; intros k Hm; [done|].
  unfold live_names in *. simpl. rewrite Hl, (Hm 0%nat s') by done.
  rewrite Z.add_0_r. simpl. rewrite <- (IH (k + 1)).
  - destruct (negb (k =? i)); [|done]. simpl. by rewrite Hn.
  - intros m x Hx. rewrite (Hm (S m) x) by done. do 2 f_equal. lia.
Qed.

Lemma filter_unit_points i L :
  concat (map (fun e => unit_points (fst e) (snd e)) (List.filter (fun e => negb (fst e =? i)) L)) =
  List.filter (fun pt => negb (cindex pt =? i)) (concat (map (fun e => unit_points (fst e) (snd e)) L)).
Proof.
  induction L as [|[j nm] L IH]; [done|]. cbn [map concat fst snd List.filter]. rewrite List.filter_app, <- IH.
  assert (Hix : forall pt, In pt (unit_points j nm) -> cindex pt = j).
  { intros pt H. apply in_concat in H as (l & Hl & Hq). apply in_map_iff in Hl as (n & <- & _).
    by apply in_map_iff in Hq as (x & <- & _). }
  assert (Hf : List.filter (fun pt => negb (cindex pt =? i)) (unit_points j nm) =
    if negb (j =? i) then unit_points j nm else []).
  { clear IH. revert Hix. generalize (unit_points j nm). induction l as [|pt l IH]; intros Hix; [by destruct (negb _)|].
    simpl. rewrite (Hix pt (or_introl eq_refl)), IH by (intros; apply Hix; by right). by destruct (negb _). }
  rewrite Hf. destruct (negb (j =? i)); [|done]. by cbn [map concat fst snd].
Qed.

(** Two sorted rings with the same points and distinct values are one. *)
Lemma ring_sorted_unique l l' :
  ring_sorted l -> ring_sorted l' -> Permutation l l' -> NoDup (map cvalue l) -> l = l'.
Proof.
  intros Hs. revert l'. induction Hs as [|x l Hs IH Hx]; intros l' Hs' Hp Hd.
  - by apply Permutation_nil in Hp.
  - destruct Hs' as [|y l' Hs' Hy]; [by apply Permutation_sym, Permutation_nil in Hp|].
    simpl in Hd. apply list.NoDup_cons in Hd as [Hn Hd]. rewrite List.Forall_forall in Hx, Hy.
    assert (x = y) as <-.
    { assert (Hin : In y (x :: l)) by (eapply Permutation_in; [by apply Permutation_sym|by left]).
      assert (Hin' : In x (y :: l')) by (eapply Permutation_in; [done|by left]).
      destruct Hin as [|Hin]; [done|]. destruct Hin' as [|Hin']; [done|].
      exfalso. apply Hn. replace (cvalue x) with (cvalue y); [by apply list_elem_of_In, in_map|].
      specialize (Hx y Hin). specialize (Hy x Hin'). simpl in *. lia. }
    f_equal. apply IH; try done. by apply Permutation_cons_inv in Hp.
Qed.

Lemma ring_after_eject now now' pool pool2 i :
  sp_dist_type pool = DIST_KETAMA -> sp_dist_type pool2 = DIST_KETAMA ->
  sp_auto_eject_hosts pool = true -> sp_auto_eject_hosts pool2 = true ->
  Forall2 (fun s s' => sv_static s = sv_static s' /\ live true now s = true) (sp_servers pool) (sp_servers pool2) ->
  (forall m s', sp_servers pool2 !! m = Some s' -> live true now' s' = negb (Z.of_nat m =? i)) ->
  Forall (fun s => sv_weight s = 1) (sp_servers pool) ->
  1 <= nlive true now (sp_servers pool) < 25 -> 1 <= nlive true now' (sp_servers pool2) < 25 ->
  ring_points stack now' pool2 = List.filter (fun pt => negb (cindex pt =? i)) (ring_points stack now pool).
Proof.
  intros Hd Hd2 Ha Ha2 H2 Hm Hw Hn Hn2.
  assert (Hw2 : Forall (fun s => sv_weight s = 1) (sp_servers pool2)).
  { clear -H2 Hw. induction H2 as [|s s' l l' [Hs _] _ IH]; [done|]. apply Forall_cons_iff in Hw as [? ?].
    constructor; [|by apply IH]. unfold sv_static in Hs. congruence. }
  rewrite !unit_ring by (rewrite ?Ha, ?Ha2; done). rewrite Ha, Ha2, <- filter_unit_points. f_equal. f_equal.
  apply live_names_eject; [|exact Hm].
  eapply Forall2_impl; [|exact H2]. intros s s' [Hs Hl]. split; [|done]. unfold sv_static in Hs. congruence.
Qed.

Lemma nlive_all auto now l : Forall (fun s => live auto now s = true) l -> nlive auto now l = zlen l.
Proof. induction 1 as [|s l Hs _ IH]; [done|]. by rewrite nlive_cons, zlen_cons, Hs, IH. Qed.

(** A full rebuild clears every retry time. *)
Lemma revive_all now s : sv_next_retry s <= now -> revive true now s = set_next_retry s 0.
Proof. intros H. unfold revive. by destruct (Z.leb_spec (sv_next_retry s) now); [|lia]. Qed.

(** The servers after a full rebuild, and those after an ejection from them. *)
Definition revived (l : list server) : Prop := Forall (fun s => sv_next_retry s = 0 /\ sv_weight s = 1) l.

Lemma revived_live now l : 0 <= now -> revived l -> Forall (fun s => live true now s = true) l.
Proof.
  intros Hn H. eapply List.Forall_impl; [|exact H]. intros s [Hs _]. unfold live. rewrite Hs. simpl. by apply Z.leb_le.
Qed.

Lemma revived_all now l :
  Forall (fun s => sv_weight s = 1) l -> Forall (fun s => sv_next_retry s <= now) l -> revived (map (revive true now) l).
Proof.
  intros Hw Hr. apply List.Forall_map. rewrite List.Forall_forall in *. intros s Hs.
  rewrite revive_all by auto. split; [done|exact (Hw s Hs)].
Qed.

Lemma eject_live now' l i s' m x :
  0 <= now' -> revived l -> (i < length l)%nat -> now' < sv_next_retry s' ->
  map (revive true now') (<[i:=s']> l) !! m = Some x -> live true now' x = negb (Z.of_nat m =? Z.of_nat i).
Proof.
  intros H0' Hz Hi Hs' Hm. change (map ?f ?l) with (f <$> l) in Hm. rewrite list_lookup_fmap in Hm.
  destruct (Z.eqb_spec (Z.of_nat m) (Z.of_nat i)) as [E%Nat2Z.inj|E].
  - subst m. rewrite list_lookup_insert_eq in Hm by done. simpl in Hm. rewrite revive_later in Hm by done.
    simplify_eq. unfold live. simpl. by destruct (Z.leb_spec (sv_next_retry x) now'); [lia|].
  - rewrite list_lookup_insert_ne in Hm by congruence. apply fmap_Some in Hm as (y & Hy & ->).
    rewrite live_revive by done. apply (revived_live now') in Hz; [|done]. rewrite List.Forall_forall in Hz.
    apply Hz. by eapply list_elem_of_In, list_elem_of_lookup_2.
Qed.

Lemma eject_static now now' l i s' :
  0 <= now -> revived l -> (i < length l)%nat -> now' < sv_next_retry s' ->
  (forall s, l !! i = Some s -> sv_static s' = sv_static s) ->
  Forall2 (fun s x => sv_static s = sv_static x /\ live true now s = true) l (map (revive true now') (<[i:=s']> l)).
Proof.
  intros H0 Hz Hi Hs' Hst. apply Forall2_same_length_lookup_2; [by rewrite length_map, length_insert|].
  intros m s x Hm Hx. split.
  - change (map ?f ?l) with (f <$> l) in Hx. rewrite list_lookup_fmap in Hx. destruct (decide (m = i)) as [->|Hne].
    + rewrite list_lookup_insert_eq in Hx by done. simplify_eq/=. rewrite revive_later by done. symmetry. by apply Hst.
    + rewrite list_lookup_insert_ne, Hm in Hx by done. simplify_eq/=. unfold revive. by destruct (_ && _).
  - apply (revived_live now) in Hz; [|done]. rewrite List.Forall_forall in Hz.
    apply Hz. by eapply list_elem_of_In, list_elem_of_lookup_2.
Qed.

Lemma eject_nlive now' l i s' :
  0 <= now' -> revived l -> (i < length l)%nat -> now' < sv_next_retry s' -> 2 <= zlen l <= 24 ->
  1 <= nlive true now' (map (revive true now') (<[i:=s']> l)) < 25.
Proof.
  intros H0' Hz Hi Hs' Hn. set (l2 := map _ _).
  assert (Hlen : length l2 = length l) by (unfold l2; rewrite length_map; apply length_insert).
  set (j := (if decide (i = 0)%nat then 1 else 0)%nat). assert (Hj : j <> i) by (unfold j; case_decide; lia).
  destruct (lookup_lt_is_Some_2 l2 j) as [x Hx]; [unfold zlen in Hn; unfold j; case_decide; lia|].
  pose proof (nlive_pos true now' l2 j x Hx) as Hpos. rewrite (eject_live now' l i s' j x) in Hpos by done.
  destruct (Z.eqb_spec (Z.of_nat j) (Z.of_nat i)); [lia|]. specialize (Hpos eq_refl).
  pose proof (nlive_range true now' l2). unfold zlen in *. lia.
Qed.

Lemma filter_perm (q : cpoint -> bool) l l' : Permutation l l' -> Permutation (List.filter q l) (List.filter q l').
Proof.
  induction 1 as [|x l l' _ IH|x y l|]; simpl; [done|destruct (q x); by try constructor| |by etrans].
  destruct (q x), (q y); try done. by constructor.
Qed.

Lemma NoDup_values_filter (q : cpoint -> bool) l : NoDup (map cvalue l) -> NoDup (map cvalue (List.filter q l)).
Proof.
  induction l as [|x l IH]; simpl; [done|]. intros [Hn Hd]%list.NoDup_cons. destruct (q x); [|by apply IH].
  simpl. apply list.NoDup_cons. split; [|by apply IH]. intros H. apply Hn. apply list_elem_of_In in H.
  apply in_map_iff in H as (y & <- & Hy). apply filter_In in Hy as [Hy _]. by apply list_elem_of_In, in_map.
Qed.

(** The two rings around an ejection, through both rebuilds. *)
Lemma eject_filters_ring now0 pool0 pts now' (pool : server_pool) s' i pts' :
  sp_dist_type pool0 = DIST_KETAMA -> sp_auto_eject_hosts pool0 = true -> pool_conf pool = pool_conf pool0 ->
  sp_servers pool = map (revive true now0) (sp_servers pool0) -> revived (sp_servers pool) ->
  2 <= zlen (sp_servers pool) <= 24 -> 0 <= now0 -> 0 <= now' ->
  (i < length (sp_servers pool))%nat -> now' < sv_next_retry s' ->
  (forall s, sp_servers pool !! i = Some s -> sv_static s' = sv_static s) ->
  new_ring stack now0 pool0 pts -> NoDup (map cvalue pts) ->
  new_ring stack now' (set_servers pool (<[i := s']> (sp_servers pool))) pts' ->
  pts' = List.filter (fun pt => negb (cindex pt =? Z.of_nat i)) pts.
Proof.
  intros Hd Ha Hc Hsv Hz Hn H0 H0' Hi Hs' Hst (Hp & _ & Hso & _) Hnd (Hp' & _ & Hso' & _).
  unfold pool_conf in Hc. assert (Hda : sp_dist_type pool = DIST_KETAMA) by congruence.
  assert (Haa : sp_auto_eject_hosts pool = true) by congruence.
  simpl in Hp'. rewrite Haa in Hp'. rewrite Ha, <- Hsv in Hp.
  change (set_servers (set_servers pool _) ?l) with (set_servers pool l) in Hp'.
  symmetry. apply ring_sorted_unique.
  - apply ring_sorted_filter. by apply Hso.
  - by apply Hso'.
  - rewrite <- Hp', <- (filter_perm _ _ _ Hp).
    rewrite (ring_after_eject now0 now' (set_servers pool0 (sp_servers pool)) (set_servers pool _) (Z.of_nat i)); try done.
    + by apply eject_static.
    + intros m x Hm. by eapply eject_live.
    + eapply List.Forall_impl; [|exact Hz]. by intros ? [_ ?].
    + simpl. rewrite nlive_all by (by apply revived_live). lia.
    + by apply eject_nlive.
  - by apply NoDup_values_filter.
Qed.

(** Where the keys go when one ring is the other without a server. *)
Lemma dispatch_others key_hash rnd pool pts pool' pts' i key :
  ring_ok pool pts -> ring_ok pool' pts' -> pool_conf pool' = pool_conf pool -> sp_dist_type pool = DIST_KETAMA ->
  length (sp_servers pool') = length (sp_servers pool) ->
  pts' = List.filter (fun pt => negb (cindex pt =? Z.of_nat i)) pts ->
  exists j j', server_pool_idx key_hash rnd pool key = Some j /\
    server_pool_idx key_hash rnd pool' key = Some j' /\ j' <> Z.of_nat i /\ (j <> Z.of_nat i -> j' = j).
Proof.
  intros Hr Hr' Hc Hd Hl E. unfold pool_conf in Hc.
  destruct (server_pool_idx_In key_hash rnd pool pts key Hr) as (pt & _ & Ej).
  destruct (server_pool_idx_In key_hash rnd pool' pts' key Hr') as (pt' & Hin' & Ej').
  exists (cindex pt), (cindex pt'). split_and!; try done.
  - rewrite E in Hin'. apply filter_In in Hin' as [_ Hx]. by destruct (Z.eqb_spec (cindex pt') (Z.of_nat i)).
  - intros Hne. unfold server_pool_idx in Ej, Ej'. replace (sp_dist_type pool') with DIST_KETAMA in Ej' by congruence.
    replace (sp_hash_tag pool') with (sp_hash_tag pool) in Ej' by congruence. rewrite Hd in Ej.
    assert (Hh : forall k, server_pool_hash key_hash pool' k = server_pool_hash key_hash pool k)
      by (intros; unfold server_pool_hash, zlen; by rewrite Hl). rewrite Hh in Ej'.
    destruct Hr as [Hf Hz Hn _ Hs], Hr' as [Hf' Hz' _ _ _]. rewrite Hz in Ej. rewrite Hz', E in Ej'. subst pts'.
    rewrite (ketama_dispatch_stable _ pts _ (Z.of_nat i) _ (cindex pt)) in Ej' by (try done; by apply Hs).
    congruence.
Qed.

(** C31. Ejecting a server moves only its own keys.  In a ketama pool of 2 to
    24 servers of weight 1 (the range in which the single precision
    arithmetic gives each live server 160 points, whatever their number),
    built with every server live and no two points at the same value, the
    failure that reaches the limit rebuilds the ring so that each key which
    had another server keeps that server, and each key of the ejected server
    gets another one. *)
Theorem server_failure_keeps_others key_hash ok now0 pool0 pool ok' now now' i s :
  pool_ok pool0 -> sp_dist_type pool0 = DIST_KETAMA -> sp_auto_eject_hosts pool0 = true ->
  Forall (fun s => sv_weight s = 1) (sp_servers pool0) -> 2 <= zlen (sp_servers pool0) <= 24 ->
  0 <= now0 -> Forall (fun s => sv_next_retry s <= now0) (sp_servers pool0) -> (forall size, ok size = true) ->
  server_pool_run stack qsort ok now0 pool0 = Some (NC_OK, pool) ->
  NoDup (map cvalue (ring_points stack now0 pool)) ->
  limit_reached ok' now now' pool i s ->
  exists pool', server_failure stack qsort ok' now now' pool i = Some pool' /\
    forall rnd key, exists j j', server_pool_idx key_hash rnd pool key = Some j /\
      server_pool_idx key_hash rnd pool' key = Some j' /\ j' <> Z.of_nat i /\ (j <> Z.of_nat i -> j' = j).
Proof.
  intros Hok0 Hd Ha Hw Hn H0 Hr Hall E Hnd Hlr. pose proof Hlr as [_ _ [_ Hnow'] Hs _ _].
  assert (Hl0 : 0 < nlive (sp_auto_eject_hosts pool0) now0 (sp_servers pool0)).
  { rewrite Ha, nlive_all; [lia|]. eapply List.Forall_impl; [|exact Hr]. intros x Hx. unfold live. by apply Z.leb_le. }
  destruct (server_pool_run_live stack qsort ok now0 pool0 Hqsort Hok0 H0 Hl0 Hall) as (p & pts & E' & Hok & Hring & HP & Hu).
  rewrite E in E'. injection E' as <-. pose proof (up_servers _ _ _ _ _ _ Hu) as Hsv. rewrite Ha in Hsv.
  pose proof (up_conf _ _ _ _ _ _ Hu) as Hc.
  assert (Hz : revived (sp_servers pool)) by (rewrite Hsv; by apply revived_all).
  assert (Hn' : 2 <= zlen (sp_servers pool) <= 24) by (rewrite Hsv; unfold zlen in *; by rewrite length_map).
  destruct (limit_kept_out stack qsort Hqsort ok' now now' pool i s)
    as (pool' & s1 & E1 & _ & _ & Hr1 & Hl1 & Hst & Hc1 & (pts' & Hring' & HP') & _); [split; [done|by exists pts]|done|].
  exists pool'. split; [done|]. intros rnd key. apply (dispatch_others key_hash rnd pool pts pool' pts' i key); try done.
  - unfold pool_conf in Hc. congruence.
  - apply (eject_filters_ring now0 pool0 pts now' pool s1 i pts' Hd Ha Hc Hsv Hz Hn' H0 (proj1 Hnow'));
      [by eapply lookup_lt_Some|rewrite Hr1; apply Hnow'| |exact HP| |exact HP'].
    + intros x Hx. by replace x with s by congruence.
    + rewrite (ring_points_updated stack ok now0 _ pool0 NC_OK pool Hu) in Hnd.
      rewrite <- (Permutation_map cvalue (proj1 HP)). exact Hnd.
Qed.
End Stable.

(** ** Witnesses *)

(** The third server has failed once; its second failure ejects it, and
    neither its late answers, nor failures of another server, nor updates and
    rebuilds with and without memory bring it back before 30001000. *)
Lemma server_failure_ejects_witness :
  let ops := [OpOk 2; OpUpdate (fun _ => true) 9000 9001; OpFailure (fun _ => false) 10000 10001 0; OpOk 0;
              OpRun (fun _ => true) 30000999; OpUpdate (fun _ => true) 30000999 (-1)] in
  exists pool1 s1 pool2, server_failure [] ring_sort (fun _ => true) 1000 1001 demo_ring 2 = Some pool1 /\
    sp_servers pool1 !! 2%nat = Some s1 /\ sv_failure_count s1 = 0 /\ sv_next_retry s1 = 30001000 /\
    pool_execs [] ring_sort ops pool1 = Some pool2 /\ pool_inv pool2 /\
    forall rnd key, exists idx, server_pool_idx hash_fnv1a_64 rnd pool2 key = Some idx /\ idx <> 2.
Proof.
  intros ops. apply (server_failure_ejects [] ring_sort ring_sort_ok hash_fnv1a_64 (fun _ => true) 1000 1001 demo_ring 2
    (demo_server 99 1 0 1) ops).
  - apply demo_ring_inv.
  - constructor; try done. by exists 0%nat, (demo_server 97 1 0 0).
  - repeat constructor; simpl; lia.
  - repeat constructor; simpl; lia.
  - left. repeat constructor; simpl; lia.
Defined.

(** Two ketama servers, the second about to be ejected. *)
Definition stable_start : server_pool := demo_pool DIST_KETAMA [demo_server 97 1 0 0; demo_server 98 1 0 1].

(** Distinct values, seen on the sorted list. *)
Fixpoint risesb (l : list Z) : bool :=
  match l with
  | x :: (y :: _) as l' => (x <? y) && risesb l'
  | _ => true
  end.

Lemma risesb_bound x l : risesb (x :: l) = true -> Forall (fun y => x < y) l /\ risesb l = true.
Proof.
  revert x. induction l as [|y l IH]; intros x H; [done|]. apply andb_prop in H as [Hxy%Z.ltb_lt H].
  split; [|exact H]. destruct (IH y H) as [Hy _]. constructor; [done|].
  eapply List.Forall_impl; [|exact Hy]. intros z Hz. simpl in Hz. lia.
Qed.

Lemma risesb_NoDup l : risesb (merge_sort Z.le l) = true -> NoDup l.
Proof.
  intros H. rewrite <- (merge_sort_Permutation Z.le l). revert H. generalize (merge_sort Z.le l). clear l.
  induction l as [|x l IH]; intros H; [constructor|]. apply risesb_bound in H as [Hx H].
  apply list.NoDup_cons. split; [|by apply IH]. rewrite List.Forall_forall in Hx.
  intros Hin%list_elem_of_In%Hx. lia.
Qed.

Lemma server_failure_keeps_others_witness :
  exists pool pool', server_pool_run [] ring_sort (fun _ => true) 5 stable_start = Some (NC_OK, pool) /\
    server_failure [] ring_sort (fun _ => true) 1000 1002 pool 1 = Some pool' /\
    forall rnd key, exists j j', server_pool_idx hash_fnv1a_64 rnd pool key = Some j /\
      server_pool_idx hash_fnv1a_64 rnd pool' key = Some j' /\ j' <> 1 /\ (j <> 1 -> j' = j).
Proof.
  assert (Hok : pool_ok stable_start) by (apply pool_okb_ok; vm_compute; reflexivity).
  destruct (server_pool_run_live [] ring_sort (fun _ => true) 5 stable_start ring_sort_ok Hok)
    as (pool & pts & E & _ & _ & _ & Hu); [lia|vm_compute; reflexivity|reflexivity|].
  exists pool. enough (Hx : exists pool', server_failure [] ring_sort (fun _ => true) 1000 1002 pool 1 = Some pool' /\
    forall rnd key, exists j j', server_pool_idx hash_fnv1a_64 rnd pool key = Some j /\
      server_pool_idx hash_fnv1a_64 rnd pool' key = Some j' /\ j' <> 1 /\ (j <> 1 -> j' = j)).
  { destruct Hx as [pool' Hx]. exists pool'. split; [exact E|exact Hx]. }
  pose proof (up_conf _ _ _ _ _ _ Hu) as Hc. injection Hc as _ _ Ha Ht Hl.
  apply (server_failure_keeps_others [] ring_sort ring_sort_ok hash_fnv1a_64 (fun _ => true) 5 stable_start pool
    (fun _ => true) 1000 1002 1 (demo_server 98 1 0 1));
    [exact Hok|reflexivity|reflexivity|repeat constructor|vm_compute; split; discriminate|lia
    |repeat constructor; simpl; lia|reflexivity|exact E| |].
  2:{ constructor; [reflexivity|exact Ha|rewrite Ht; simpl; lia|rewrite (up_servers _ _ _ _ _ _ Hu); reflexivity
      |rewrite Hl; simpl; lia|].
      exists 0%nat, (demo_server 97 1 0 0). rewrite (up_servers _ _ _ _ _ _ Hu). by split_and!. }
  rewrite (ring_points_updated _ _ _ _ _ _ _ Hu). apply risesb_NoDup. vm_compute. reflexivity.
Defined.
