(* ===== verification/State.v ===== *)
(** A state monad with faults, for the parts of the program that update
    shared structures through pointers.

    A computation returns its value and the new state, or [None] when it does
    something the C standard leaves undefined (a NULL or dangling pointer). *)

From S2P Require Import Prelude.

Definition ST (S A : Type) : Type := S -> option (A * S).

#[export] Instance ST_ret S : MRet (ST S) := fun A x s => Some (x, s).
#[export] Instance ST_bind S : MBind (ST S) := fun A B k m s =>
  match m s with
  | Some (x, s') => k x s'
  | None => None
  end.

Section State.
Context {S : Type}.

Definition fault {A} : ST S A := fun _ => None.

(** Read a component of the state; [reads] may fault. *)
Definition gets {A} (f : S -> A) : ST S A := fun s => Some (f s, s).
Definition reads {A} (f : S -> option A) : ST S A := fun s =>
  match f s with
  | Some x => Some (x, s)
  | None => None
  end.

Definition modify (f : S -> S) : ST S unit := fun s => Some (tt, f s).

Definition when (b : bool) (m : ST S unit) : ST S unit := if b then m else mret tt.

(** A loop [for (;;)] whose body either goes round again with a new value of
    its variables ([inl]) or leaves with a result ([inr]).  Without fuel it
    faults, so a proof that it does not fault is a proof that it ends. *)
Fixpoint iterate {A B} (fuel : nat) (body : A -> ST S (A + B)) (x : A) : ST S B :=
  match fuel with
  | O => fault
  | Datatypes.S fuel' =>
      y ← body x;
      match y with
      | inl x' => iterate fuel' body x'
      | inr r => mret r
      end
  end.

(** Run [f] on each element, in order. *)
Fixpoint each {A} (f : A -> ST S unit) (l : list A) : ST S unit :=
  match l with
  | [] => mret tt
  | x :: l' => f x;; each f l'
  end.

End State.

(** ** Reasoning about computations *)

(** [m] run from [s] ends, in a value and a state that satisfy [Q]. *)
Definition runs {S A} (m : ST S A) (s : S) (Q : A -> S -> Prop) : Prop :=
  match m s with
  | Some (x, s') => Q x s'
  | None => False
  end.

Section Runs.
Context {S : Type}.

Lemma runs_ret {A} (x : A) (s : S) Q : Q x s -> runs (mret x) s Q.
Proof. done. Qed.

Lemma runs_bind {A B} (m : ST S A) (k : A -> ST S B) (s : S) Q :
  runs m s (fun x s' => runs (k x) s' Q) -> runs (m ≫= k) s Q.
Proof.
  unfold runs, mbind, ST_bind. destruct (m s) as [[x s']|]; done.
Qed.

Lemma runs_mono {A} (m : ST S A) (s : S) (P Q : A -> S -> Prop) :
  runs m s P -> (forall x s', P x s' -> Q x s') -> runs m s Q.
Proof. unfold runs. destruct (m s) as [[x s']|]; [|done]. intros H HPQ. by apply HPQ. Qed.

(** The value and state of a computation that is known to end. *)
Lemma runs_elim {A} (m : ST S A) (s : S) Q :
  runs m s Q -> exists x s', m s = Some (x, s') /\ Q x s'.
Proof. unfold runs. destruct (m s) as [[x s']|]; [|done]. intros H. by exists x, s'. Qed.

Lemma runs_gets {A} (f : S -> A) (s : S) Q : Q (f s) s -> runs (gets f) s Q.
Proof. done. Qed.

Lemma runs_reads {A} (f : S -> option A) (s : S) x Q : f s = Some x -> Q x s -> runs (reads f) s Q.
Proof. unfold runs, reads. by intros ->. Qed.

Lemma runs_modify (f : S -> S) (s : S) (Q : unit -> S -> Prop) : Q tt (f s) -> runs (modify f) s Q.
Proof. done. Qed.

Lemma runs_when_true (m : ST S unit) (s : S) Q : runs m s Q -> runs (when true m) s Q.
Proof. done. Qed.

Lemma runs_when_false (m : ST S unit) (s : S) (Q : unit -> S -> Prop) : Q tt s -> runs (when false m) s Q.
Proof. done. Qed.

(** A loop with an invariant, indexed by a measure that decreases. *)
Lemma runs_iterate {A B} (body : A -> ST S (A + B)) (Inv : nat -> A -> S -> Prop) (Q : B -> S -> Prop) :
  (forall n x s, Inv n x s ->
     runs (body x) s (fun y s' => match y with
                                  | inl x' => exists n', (n' < n)%nat /\ Inv n' x' s'
                                  | inr r => Q r s'
                                  end)) ->
  forall fuel n x s, Inv n x s -> (n < fuel)%nat -> runs (iterate fuel body x) s Q.
Proof.
  intros Hbody fuel. induction fuel as [|fuel IH]; intros n x s HI Hm; [lia|].
  simpl. apply runs_bind. eapply runs_mono; [by apply (Hbody n)|].
  intros [x'|r] s'; [|done]. intros (n' & Hlt & HI'). apply (IH n'); [done|lia].
Qed.

End Runs.

(** Step through a computation: binds, returns and reads of the state. *)
Ltac run_step :=
  lazymatch goal with
  | |- runs (mbind _ _) _ _ => apply runs_bind
  | |- runs (mret _) _ _ => apply runs_ret
  | |- runs (gets _) _ _ => apply runs_gets
  | |- runs (modify _) _ _ => apply runs_modify
  | |- runs (when true _) _ _ => apply runs_when_true
  | |- runs (when false _) _ _ => apply runs_when_false
  end.
