(* ===== verification/Rbtree.v ===== *)
(** The red-black tree of nc_rbtree.[ch].

    Nodes live in a memory from addresses to struct rbnode; a pointer is an
    optional address, NULL being [None].  Reading or writing through NULL or
    an unmapped address is a fault.  The sentinel is a node like the others:
    rbtree_delete writes its parent link. *)

From stdpp Require Import gmap.
From S2P Require Import Prelude State.

Abbreviation pointer := (option positive).

Record rbnode := mk_rbnode {
  rb_left : pointer;
  rb_right : pointer;
  rb_parent : pointer;
  rb_key : Z;                (* int64_t *)
  rb_data : pointer;
  rb_color : bool            (* red *)
}.

Record rbtree := mk_rbtree {
  rt_mem : gmap positive rbnode;
  rt_root : pointer;
  rt_sentinel : positive
}.

Definition set_left v n := mk_rbnode v (rb_right n) (rb_parent n) (rb_key n) (rb_data n) (rb_color n).
Definition set_right v n := mk_rbnode (rb_left n) v (rb_parent n) (rb_key n) (rb_data n) (rb_color n).
Definition set_parent v n := mk_rbnode (rb_left n) (rb_right n) v (rb_key n) (rb_data n) (rb_color n).
Definition set_color v n := mk_rbnode (rb_left n) (rb_right n) (rb_parent n) (rb_key n) (rb_data n) v.

Abbreviation RB := (ST rbtree).

Definition set_mem (m : gmap positive rbnode) (t : rbtree) := mk_rbtree m (rt_root t) (rt_sentinel t).
Definition set_root (p : pointer) (t : rbtree) := mk_rbtree (rt_mem t) p (rt_sentinel t).

(** A load of a field and a store to a node. *)
Definition ld {A} (f : rbnode -> A) (p : pointer) : RB A :=
  reads (fun t => match p with Some a => f <$> rt_mem t !! a | None => None end).

Definition st (f : rbnode -> rbnode) (p : pointer) : RB unit := fun t =>
  match p with
  | None => None
  | Some a =>
      match rt_mem t !! a with
      | None => None
      | Some n => Some (tt, set_mem (<[a := f n]> (rt_mem t)) t)
      end
  end.

Definition ptr_eqb (p q : pointer) : bool := bool_decide (p = q).

Definition rbtree_red := st (set_color true).
Definition rbtree_black := st (set_color false).
Definition rbtree_is_red := ld rb_color.
Definition rbtree_is_black (p : pointer) : RB bool := c ← ld rb_color p; mret (negb c).
Definition rbtree_copy_color (p q : pointer) : RB unit := c ← ld rb_color q; st (set_color c) p.

Definition sentinel : RB pointer := gets (fun t => Some (rt_sentinel t)).
Definition root : RB pointer := gets rt_root.

(** The color is left as it was. *)
Definition rbtree_node_init (p : pointer) : RB unit :=
  st (fun n => mk_rbnode None None None 0 None (rb_color n)) p.

(** [rbtree_init] on the sentinel at address [a], found in [m]. *)
Definition rbtree_init (m : gmap positive rbnode) (a : positive) : option rbtree :=
  match (rbtree_node_init (Some a);; rbtree_black (Some a)) (mk_rbtree m None a) with
  | None => None
  | Some (_, t) => Some (mk_rbtree (rt_mem t) (Some a) a)
  end.

(** A walk over the links visits a node at most once. *)
Definition walk_fuel (t : rbtree) : nat := S (size (rt_mem t)).

Definition rbtree_node_min (node : pointer) : RB pointer :=
  fuel ← gets walk_fuel;
  s ← sentinel;
  iterate fuel (fun node =>
    l ← ld rb_left node;
    mret (if ptr_eqb l s then inr node else inl l)) node.

Definition rbtree_min : RB pointer :=
  node ← root; s ← sentinel;
  if ptr_eqb node s then mret None else rbtree_node_min node.

Definition rbtree_left_rotate (node : pointer) : RB unit :=
  s ← sentinel;
  temp ← ld rb_right node;
  tl ← ld rb_left temp;
  st (set_right tl) node;;
  (if ptr_eqb tl s then mret tt else st (set_parent node) tl);;
  np ← ld rb_parent node;
  st (set_parent np) temp;;
  r ← root;
  (if ptr_eqb node r then modify (set_root temp)
   else
     npl ← ld rb_left np;
     if ptr_eqb node npl then st (set_left temp) np else st (set_right temp) np);;
  st (set_left node) temp;;
  st (set_parent temp) node.

Definition rbtree_right_rotate (node : pointer) : RB unit :=
  s ← sentinel;
  temp ← ld rb_left node;
  tr ← ld rb_right temp;
  st (set_left tr) node;;
  (if ptr_eqb tr s then mret tt else st (set_parent node) tr);;
  np ← ld rb_parent node;
  st (set_parent np) temp;;
  r ← root;
  (if ptr_eqb node r then modify (set_root temp)
   else
     npr ← ld rb_right np;
     if ptr_eqb node npr then st (set_right temp) np else st (set_left temp) np);;
  st (set_right node) temp;;
  st (set_parent temp) node.

(** The descent of rbtree_insert: the node below which [node] is linked, and
    whether as its left child. *)
Definition insert_descent (node : pointer) : RB (pointer * bool) :=
  fuel ← gets walk_fuel;
  s ← sentinel;
  r ← root;
  iterate fuel (fun temp =>
    nk ← ld rb_key node;
    tk ← ld rb_key temp;
    p ← ld (if nk <? tk then rb_left else rb_right) temp;
    mret (if ptr_eqb p s then inr (temp, nk <? tk) else inl p)) r.

(** One iteration of the loop that rebalances after an insertion, for a node
    whose parent is red; [node] is returned. *)
Definition insert_fixup_body (node : pointer) : RB pointer :=
  np ← ld rb_parent node;
  npp ← ld rb_parent np;
  nppl ← ld rb_left npp;
  if ptr_eqb np nppl then
    temp ← ld rb_right npp;
    tred ← rbtree_is_red temp;
    if (tred : bool) then
      rbtree_black np;; rbtree_black temp;; rbtree_red npp;; mret npp
    else
      npr ← ld rb_right np;
      node ← (if ptr_eqb node npr then rbtree_left_rotate np;; mret np else mret node);
      np ← ld rb_parent node;
      rbtree_black np;;
      npp ← ld rb_parent np;
      rbtree_red npp;;
      rbtree_right_rotate npp;;
      mret node
  else
    temp ← ld rb_left npp;
    tred ← rbtree_is_red temp;
    if (tred : bool) then
      rbtree_black np;; rbtree_black temp;; rbtree_red npp;; mret npp
    else
      npl ← ld rb_left np;
      node ← (if ptr_eqb node npl then rbtree_right_rotate np;; mret np else mret node);
      np ← ld rb_parent node;
      rbtree_black np;;
      npp ← ld rb_parent np;
      rbtree_red npp;;
      rbtree_left_rotate npp;;
      mret node.

Definition insert_fixup (node : pointer) : RB unit :=
  fuel ← gets walk_fuel;
  iterate fuel (fun node =>
    r ← root;
    if ptr_eqb node r then mret (inr tt)
    else
      np ← ld rb_parent node;
      red ← rbtree_is_red np;
      if (red : bool) then node ← insert_fixup_body node; mret (inl node) else mret (inr tt)) node.

Definition rbtree_insert (node : pointer) : RB unit :=
  r ← root; s ← sentinel;
  if ptr_eqb r s then
    st (set_parent None) node;;
    st (set_left s) node;;
    st (set_right s) node;;
    rbtree_black node;;
    modify (set_root node)
  else
    '(temp, at_left) ← insert_descent node;
    st (if (at_left : bool) then set_left node else set_right node) temp;;
    st (set_parent temp) node;;
    st (set_left s) node;;
    st (set_right s) node;;
    rbtree_red node;;
    insert_fixup node;;
    r ← root;
    rbtree_black r.

(** Make [q] the child of [p]'s parent in the place of [p]. *)
Definition replace_child (p q : pointer) : RB unit :=
  pp ← ld rb_parent p;
  ppl ← ld rb_left pp;
  if ptr_eqb p ppl then st (set_left q) pp else st (set_right q) pp.

(** The second half of an iteration of the delete fixup, for a left child
    [temp] with the black sibling [w]: the sibling turns red, or one or two
    rotations end the loop.  The next [temp] is returned. *)
Definition delete_fixup_left (temp w : pointer) : RB pointer :=
  wl ← ld rb_left w; wlb ← rbtree_is_black wl;
  wr ← ld rb_right w; wrb ← rbtree_is_black wr;
  if wlb && wrb then rbtree_red w;; ld rb_parent temp
  else
    w ← (if (wrb : bool) then
           rbtree_black wl;; rbtree_red w;; rbtree_right_rotate w;;
           tp ← ld rb_parent temp; ld rb_right tp
         else mret w);
    tp ← ld rb_parent temp;
    rbtree_copy_color w tp;;
    rbtree_black tp;;
    wr ← ld rb_right w;
    rbtree_black wr;;
    rbtree_left_rotate tp;;
    root.

(** The same for a right child. *)
Definition delete_fixup_right (temp w : pointer) : RB pointer :=
  wl ← ld rb_left w; wlb ← rbtree_is_black wl;
  wr ← ld rb_right w; wrb ← rbtree_is_black wr;
  if wlb && wrb then rbtree_red w;; ld rb_parent temp
  else
    w ← (if (wlb : bool) then
           rbtree_black wr;; rbtree_red w;; rbtree_left_rotate w;;
           tp ← ld rb_parent temp; ld rb_left tp
         else mret w);
    tp ← ld rb_parent temp;
    rbtree_copy_color w tp;;
    rbtree_black tp;;
    wl ← ld rb_left w;
    rbtree_black wl;;
    rbtree_right_rotate tp;;
    root.

(** One iteration of the delete fixup, for a black node that is not the root:
    a red sibling is first rotated up. *)
Definition delete_fixup_body (temp : pointer) : RB pointer :=
  tp ← ld rb_parent temp;
  tpl ← ld rb_left tp;
  if ptr_eqb temp tpl then
    w ← ld rb_right tp;
    wred ← rbtree_is_red w;
    w ← (if (wred : bool) then
           rbtree_black w;; rbtree_red tp;; rbtree_left_rotate tp;;
           tp ← ld rb_parent temp; ld rb_right tp
         else mret w);
    delete_fixup_left temp w
  else
    w ← ld rb_left tp;
    wred ← rbtree_is_red w;
    w ← (if (wred : bool) then
           rbtree_black w;; rbtree_red tp;; rbtree_right_rotate tp;;
           tp ← ld rb_parent temp; ld rb_left tp
         else mret w);
    delete_fixup_right temp w.

Definition delete_fixup (temp : pointer) : RB unit :=
  fuel ← gets walk_fuel;
  temp ← iterate fuel (fun temp =>
    r ← root;
    if ptr_eqb temp r then mret (inr temp)
    else
      black ← rbtree_is_black temp;
      if (black : bool) then temp ← delete_fixup_body temp; mret (inl temp) else mret (inr temp)) temp;
  rbtree_black temp.

(** What is unlinked in the place of [node], and the child that moves up. *)
Definition delete_subst (node : pointer) : RB (pointer * pointer) :=
  s ← sentinel;
  l ← ld rb_left node;
  r ← ld rb_right node;
  if ptr_eqb l s then mret (node, r)
  else if ptr_eqb r s then mret (node, l)
  else
    subst ← rbtree_node_min r;
    temp ← ld rb_right subst;
    mret (subst, temp).

(** [subst] takes the links and the color of [node]. *)
Definition delete_transplant (node subst temp : pointer) : RB unit :=
  s ← sentinel;
  sp ← ld rb_parent subst;
  (if ptr_eqb sp node then st (set_parent subst) temp else st (set_parent sp) temp);;
  nl ← ld rb_left node; st (set_left nl) subst;;
  nr ← ld rb_right node; st (set_right nr) subst;;
  np ← ld rb_parent node; st (set_parent np) subst;;
  rbtree_copy_color subst node;;
  r ← root;
  (if ptr_eqb node r then modify (set_root subst) else replace_child node subst);;
  sl ← ld rb_left subst;
  (if ptr_eqb sl s then mret tt else st (set_parent subst) sl);;
  sr ← ld rb_right subst;
  (if ptr_eqb sr s then mret tt else st (set_parent subst) sr).

(** The rest of rbtree_delete, once [subst] and [temp] are known. *)
Definition delete_unlink (node subst temp : pointer) : RB unit :=
  r ← root;
  if ptr_eqb subst r then
    modify (set_root temp);;
    rbtree_black temp;;
    rbtree_node_init node
  else
    red ← rbtree_is_red subst;
    replace_child subst temp;;
    (if ptr_eqb subst node then
       sp ← ld rb_parent subst; st (set_parent sp) temp
     else delete_transplant node subst temp);;
    rbtree_node_init node;;
    if (red : bool) then mret tt else delete_fixup temp.

Definition rbtree_delete (node : pointer) : RB unit :=
  '(subst, temp) ← delete_subst node;
  delete_unlink node subst temp.
