(* ===== verification/RbtreeFacts.v ===== *)
(** Red-black trees as the memory represents them: functional trees and
    their contexts, and what each pointer operation does to them. *)

From stdpp Require Import gmap sorting.
From S2P Require Import Prelude State Rbtree.

(** ** Trees and contexts *)

(** What a node carries: its address, key and data. *)
Record entry := mk_entry { e_addr : positive; e_key : Z; e_data : pointer }.

Inductive tree :=
| E
| T (c : bool) (l : tree) (x : entry) (r : tree).

(** A frame is a node with a hole for one child. *)
Record frame := mk_frame { f_left : bool; f_color : bool; f_entry : entry; f_sibling : tree }.

Definition plug1 (f : frame) (t : tree) : tree :=
  if f_left f then T (f_color f) t (f_entry f) (f_sibling f)
  else T (f_color f) (f_sibling f) (f_entry f) t.

(** A context is the list of frames from the hole to the root. *)
Definition plug (k : list frame) (t : tree) : tree := foldl (fun t f => plug1 f t) t k.

Fixpoint inorder (t : tree) : list entry :=
  match t with
  | E => []
  | T _ l x r => inorder l ++ x :: inorder r
  end.

Fixpoint before (k : list frame) : list entry :=
  match k with
  | [] => []
  | f :: k' => before k' ++ (if f_left f then [] else inorder (f_sibling f) ++ [f_entry f])
  end.

Fixpoint after (k : list frame) : list entry :=
  match k with
  | [] => []
  | f :: k' => (if f_left f then f_entry f :: inorder (f_sibling f) else []) ++ after k'
  end.

Lemma inorder_plug k t : inorder (plug k t) = before k ++ inorder t ++ after k.
Proof.
  revert t. induction k as [|[[] c x s] k IH]; intros t; simpl.
  - by rewrite app_nil_r.
  - unfold plug in *. simpl. rewrite IH. simpl. rewrite app_nil_r, <- !app_assoc. done.
  - unfold plug in *. simpl. rewrite IH. simpl. rewrite <- !app_assoc. simpl. done.
Qed.

(** ** The balance invariant *)

(** [rbt t c n]: [t] has a root of color [c] (a leaf is black), [n] black
    nodes on every path, and no red node with a red child. *)
Inductive rbt : tree -> bool -> nat -> Prop :=
| rbt_E : rbt E false 0
| rbt_red l x r n : rbt l false n -> rbt r false n -> rbt (T true l x r) true n
| rbt_black l x r c c' n : rbt l c n -> rbt r c' n -> rbt (T false l x r) false (S n).

(** [cok k b n]: the hole of [k] takes a tree with [n] black nodes on every
    path, with a red root only when [b]; the root of the whole is black. *)
Inductive cok : list frame -> bool -> nat -> Prop :=
| cok_nil n : cok [] false n
| cok_red d x s k n : rbt s false n -> cok k true n -> cok (mk_frame d true x s :: k) false n
| cok_black d x s c k b n : rbt s c n -> cok k b (S n) -> cok (mk_frame d false x s :: k) true n.

Create HintDb rb.
#[export] Hint Constructors rbt cok : rb.

Definition balanced (t : tree) : Prop := exists n, rbt t false n.

Lemma rbt_plug k b c n t : cok k b n -> rbt t c n -> (c = true -> b = true) -> balanced (plug k t).
Proof.
  intros Hk. revert c t. induction Hk as [n|d x s k n Hs Hk IH|d x s c' k b n Hs Hk IH]; intros c t Ht Hc.
  - destruct c; [naive_solver|]. by exists n.
  - destruct c; [naive_solver|]. apply (IH true); [|done].
    unfold plug1. simpl. destruct d; by constructor.
  - apply (IH false); [|done]. unfold plug1. simpl. destruct d; by econstructor.
Qed.

Lemma rbt_unplug k t : balanced (plug k t) -> exists b c n, cok k b n /\ rbt t c n /\ (c = true -> b = true).
Proof.
  revert t. induction k as [|[d c x s] k IH]; intros t; [intros [n H]; exists false, false, n; auto with rb|].
  intros (b & c' & n & Hk & Ht & Hc)%IH. unfold plug1 in Ht. simpl in Ht.
  destruct d; inversion Ht; subst.
  1, 3: rewrite Hc in Hk by done; exists false, false, n; eauto with rb.
  all: eexists true, _, _; eauto with rb.
Qed.

(** ** Representation in memory *)

Section Repr.
Variable sen : positive.

Definition rootp (t : tree) : positive := match t with E => sen | T _ _ x _ => e_addr x end.

Fixpoint nodes_of (par : pointer) (t : tree) : list (positive * rbnode) :=
  match t with
  | E => []
  | T c l x r =>
      (e_addr x, mk_rbnode (Some (rootp l)) (Some (rootp r)) par (e_key x) (e_data x) c)
      :: nodes_of (Some (e_addr x)) l ++ nodes_of (Some (e_addr x)) r
  end.

(** The parent link of what is in the hole; that of the root ([top]) is never
    read and may be anything. *)
Definition cpar (top : pointer) (k : list frame) : pointer :=
  match k with [] => top | f :: _ => Some (e_addr (f_entry f)) end.

Definition frame_node (f : frame) (hole : positive) (par : pointer) : rbnode :=
  let x := f_entry f in
  let s := rootp (f_sibling f) in
  mk_rbnode (Some (if f_left f then hole else s)) (Some (if f_left f then s else hole)) par
    (e_key x) (e_data x) (f_color f).

Fixpoint ctx_nodes (top : pointer) (k : list frame) (hole : positive) : list (positive * rbnode) :=
  match k with
  | [] => []
  | f :: k' =>
      (e_addr (f_entry f), frame_node f hole (cpar top k'))
      :: nodes_of (Some (e_addr (f_entry f))) (f_sibling f) ++ ctx_nodes top k' (e_addr (f_entry f))
  end.

Fixpoint croot (k : list frame) (hole : positive) : positive :=
  match k with
  | [] => hole
  | f :: k' => croot k' (e_addr (f_entry f))
  end.

Definition holds (m : gmap positive rbnode) (l : list (positive * rbnode)) : Prop :=
  Forall (fun p => m !! p.1 = Some p.2) l.

Fixpoint addrs (t : tree) : list positive :=
  match t with
  | E => []
  | T _ l x r => e_addr x :: addrs l ++ addrs r
  end.

Fixpoint ctx_addrs (k : list frame) : list positive :=
  match k with
  | [] => []
  | f :: k' => e_addr (f_entry f) :: addrs (f_sibling f) ++ ctx_addrs k'
  end.

Lemma nodes_of_addrs par t : map fst (nodes_of par t) = addrs t.
Proof. revert par. induction t as [|c l IHl x r IHr]; intros par; simpl; [done|]. by rewrite map_app, IHl, IHr. Qed.

Lemma ctx_nodes_addrs top k h : map fst (ctx_nodes top k h) = ctx_addrs k.
Proof. revert h. induction k as [|f k IH]; intros h; simpl; [done|]. by rewrite map_app, nodes_of_addrs, IH. Qed.

Lemma mem_holds_app m l l' : holds m (l ++ l') <-> holds m l /\ holds m l'.
Proof. apply Forall_app. Qed.

Lemma mem_holds_cons m a n l : holds m ((a, n) :: l) <-> m !! a = Some n /\ holds m l.
Proof. apply Forall_cons_iff. Qed.

(** A store elsewhere. *)
Lemma holds_insert_ne m a n l : a ∉ map fst l -> holds m l -> holds (<[a := n]> m) l.
Proof.
  unfold holds. rewrite !List.Forall_forall. intros Ha H [b x] Hb. simpl. rewrite lookup_insert_ne; [by apply (H (b, x))|].
  intros ->. apply Ha, list_elem_of_In. by apply (in_map fst l (b, x)).
Qed.

Variable top : pointer.                       (* the parent link of the root *)
Variable sp : pointer.                        (* the parent link of the sentinel *)
Variable F : positive -> option rbnode.       (* the memory around the tree *)

(** The tree is [t] in the context [k]. *)
Record reps (tr : rbtree) (k : list frame) (t : tree) : Prop := {
  rp_holds : holds (rt_mem tr) (ctx_nodes top k (rootp t) ++ nodes_of (cpar top k) t);
  rp_nodup : NoDup (sen :: ctx_addrs k ++ addrs t);
  rp_root : rt_root tr = Some (croot k (rootp t));
  rp_sen : exists n, (rt_mem tr !! sen) = Some n /\ rb_color n = false /\ rb_parent n = sp;
  rp_sentinel : rt_sentinel tr = sen;
  rp_frame : forall a, a ∉ sen :: ctx_addrs k ++ addrs t -> (rt_mem tr !! a) = F a
}.

Lemma addrs_plug1 f t : Permutation (addrs (plug1 f t)) (e_addr (f_entry f) :: addrs (f_sibling f) ++ addrs t).
Proof. unfold plug1. destruct (f_left f); simpl; [|done]. constructor. apply Permutation_app_comm. Qed.

Lemma holds_perm m l l' : Permutation l l' -> holds m l -> holds m l'.
Proof. unfold holds. intros P. by rewrite P. Qed.

Lemma nodes_plug1 par f t :
  Permutation (nodes_of par (plug1 f t))
    ((e_addr (f_entry f), frame_node f (rootp t) par)
      :: nodes_of (Some (e_addr (f_entry f))) (f_sibling f) ++ nodes_of (Some (e_addr (f_entry f))) t).
Proof.
  unfold plug1, frame_node. destruct (f_left f); simpl; [|done]. constructor. apply Permutation_app_comm.
Qed.

Lemma rootp_plug1 f t : rootp (plug1 f t) = e_addr (f_entry f).
Proof. unfold plug1. by destruct (f_left f). Qed.

Lemma reps_up tr f k t : reps tr (f :: k) t <-> reps tr k (plug1 f t).
Proof.
  assert (Pa : Permutation (sen :: ctx_addrs (f :: k) ++ addrs t) (sen :: ctx_addrs k ++ addrs (plug1 f t))).
  { rewrite addrs_plug1. simpl. constructor. rewrite <- app_assoc, <- Permutation_middle. constructor.
    rewrite !app_assoc. apply Permutation_app; [apply Permutation_app_comm|done]. }
  assert (Pn : Permutation (ctx_nodes top (f :: k) (rootp t) ++ nodes_of (cpar top (f :: k)) t)
                (ctx_nodes top k (rootp (plug1 f t)) ++ nodes_of (cpar top k) (plug1 f t))).
  { rewrite nodes_plug1, rootp_plug1. simpl. rewrite <- Permutation_middle. constructor.
    rewrite !app_assoc. apply Permutation_app; [apply Permutation_app_comm|done]. }
  split; intros [Hh Hn Hr Hs Hst Hf]; constructor; try done.
  - by eapply holds_perm.
  - by rewrite <- Pa.
  - by rewrite Hr, rootp_plug1.
  - intros a Ha. apply Hf. by rewrite Pa.
  - by eapply holds_perm; [symmetry|].
  - by rewrite Pa.
  - by rewrite Hr, rootp_plug1.
  - intros a Ha. apply Hf. by rewrite <- Pa.
Qed.

Lemma reps_swap tr d c x s k t :
  reps tr (mk_frame d c x s :: k) t <-> reps tr (mk_frame (negb d) c x t :: k) s.
Proof. rewrite !reps_up. by destruct d. Qed.

(** *** Loads *)

Definition node_of (k : list frame) c l x r : rbnode :=
  mk_rbnode (Some (rootp l)) (Some (rootp r)) (cpar top k) (e_key x) (e_data x) c.

Lemma reps_lookup tr k c l x r :
  reps tr k (T c l x r) -> rt_mem tr !! e_addr x = Some (node_of k c l x r).
Proof. intros [Hh _ _ _ _ _]. apply mem_holds_app in Hh as [_ Hh]. simpl in Hh. by apply mem_holds_cons in Hh as [Hh _]. Qed.

Lemma run_ld {A} (f : rbnode -> A) tr k c l x r (Q : A -> rbtree -> Prop) :
  reps tr k (T c l x r) -> Q (f (node_of k c l x r)) tr -> runs (ld f (Some (e_addr x))) tr Q.
Proof. intros Hr HQ. eapply runs_reads; [|done]. by rewrite (reps_lookup _ _ _ _ _ _ Hr). Qed.

(** The same for the node around the hole. *)
Lemma run_ld_up {A} (g : rbnode -> A) tr f k t (Q : A -> rbtree -> Prop) :
  reps tr (f :: k) t -> Q (g (frame_node f (rootp t) (cpar top k))) tr ->
  runs (ld g (Some (e_addr (f_entry f)))) tr Q.
Proof.
  intros Hr HQ. apply reps_up in Hr. destruct f as [[] c x s]; (eapply run_ld; [exact Hr|done]).
Qed.

(** The parent link of what fills the hole, when it is a node. *)
Lemma run_ld_parent tr k t (Q : pointer -> rbtree -> Prop) :
  reps tr k t -> (t = E -> sp = cpar top k) -> Q (cpar top k) tr -> runs (ld rb_parent (Some (rootp t))) tr Q.
Proof.
  intros Hr HE HQ. destruct t as [|c l x r]; [|by eapply run_ld].
  destruct Hr as [_ _ _ (n & Hn & _ & Hp) _ _]. eapply runs_reads; [simpl; by rewrite Hn|]. by rewrite Hp, HE.
Qed.

Definition rootcolor (t : tree) : bool := match t with E => false | T c _ _ _ => c end.

Lemma run_rootcolor tr k t (Q : bool -> rbtree -> Prop) :
  reps tr k t -> Q (rootcolor t) tr -> runs (ld rb_color (Some (rootp t))) tr Q.
Proof.
  intros Hr HQ. destruct t as [|c l x r]; [|by eapply run_ld].
  destruct Hr as [_ _ _ (n & Hn & Hc & _) _ _]. eapply runs_reads; [simpl; by rewrite Hn|]. by rewrite Hc.
Qed.

Lemma run_is_black tr k t (Q : bool -> rbtree -> Prop) :
  reps tr k t -> Q (negb (rootcolor t)) tr -> runs (rbtree_is_black (Some (rootp t))) tr Q.
Proof. intros Hr HQ. apply runs_bind. by eapply run_rootcolor. Qed.

(** *** Stores *)

Lemma run_ld_mem {A} (f : rbnode -> A) tr a n (Q : A -> rbtree -> Prop) :
  rt_mem tr !! a = Some n -> Q (f n) tr -> runs (ld f (Some a)) tr Q.
Proof. intros Ha HQ. eapply runs_reads; [simpl; by rewrite Ha|done]. Qed.

Lemma run_st (f : rbnode -> rbnode) tr a n (Q : unit -> rbtree -> Prop) :
  rt_mem tr !! a = Some n -> Q tt (set_mem (<[a := f n]> (rt_mem tr)) tr) -> runs (st f (Some a)) tr Q.
Proof. intros Ha HQ. unfold runs, st. by rewrite Ha. Qed.

Definition recolor (c : bool) (t : tree) : tree := match t with E => E | T _ l x r => T c l x r end.

Lemma run_color tr k c c' l x r (Q : unit -> rbtree -> Prop) :
  reps tr k (T c l x r) -> (forall tr', reps tr' k (T c' l x r) -> Q tt tr') ->
  runs (st (set_color c') (Some (e_addr x))) tr Q.
Proof.
  intros Hr HQ. pose proof (reps_lookup _ _ _ _ _ _ Hr) as Hx. eapply run_st; [done|]. apply HQ.
  destruct Hr as [Hh Hn Hrt (n & Hs & Hc & Hp) Hst Hf]. simpl in *.
  assert (Hx' : e_addr x <> sen /\ e_addr x ∉ ctx_addrs k /\ (e_addr x ∉ addrs l ++ addrs r)).
  { apply list.NoDup_cons in Hn as [Hs1 Hn]. apply list.NoDup_app in Hn as (Hn1 & Hn2 & Hn3).
    apply list.NoDup_cons in Hn3 as [Hn3 _]. set_solver. }
  destruct Hx' as (Hx1 & Hx2 & Hx3).
  constructor; simpl; try done.
  - apply mem_holds_app in Hh as [Hk Ht]. apply mem_holds_cons in Ht as [_ Ht]. apply mem_holds_app. split.
    + apply holds_insert_ne; [|done]. by rewrite ctx_nodes_addrs.
    + apply mem_holds_cons. split; [by rewrite lookup_insert_eq|]. apply holds_insert_ne; [|done].
      by rewrite map_app, !nodes_of_addrs.
  - exists n. by rewrite lookup_insert_ne.
  - intros a Ha. rewrite lookup_insert_ne; [by apply Hf|]. set_solver.
Qed.

(** Coloring what may be the sentinel: it stays black. *)
Lemma run_black tr k t (Q : unit -> rbtree -> Prop) :
  reps tr k t -> (forall tr', reps tr' k (recolor false t) -> Q tt tr') ->
  runs (rbtree_black (Some (rootp t))) tr Q.
Proof.
  intros Hr HQ. destruct t as [|c l x r]; [|by eapply run_color].
  pose proof Hr as [Hh Hn Hrt (n & Hs & Hc & Hp) Hst Hf]. eapply run_st; [done|]. apply HQ.
  apply list.NoDup_cons in Hn as Hn'. destruct Hn' as [Hn' _]. simpl in *. rewrite app_nil_r in *.
  constructor; simpl; rewrite ?app_nil_r; try done.
  - apply holds_insert_ne; [|done]. by rewrite ctx_nodes_addrs.
  - eexists. by rewrite lookup_insert_eq.
  - intros a Ha. rewrite lookup_insert_ne; [by apply Hf|]. set_solver.
Qed.

End Repr.

(** ** Tactics for pointer manipulations *)

Lemma nodup_app_sym (l l' : list positive) :
  NoDup (l ++ l') -> NoDup l /\ NoDup l' /\ (forall x, x ∈ l -> x ∉ l') /\ forall x, x ∈ l' -> x ∉ l.
Proof. intros (H1 & H2 & H3)%list.NoDup_app. split_and!; try done. intros x Hx Hx'. by eapply H2. Qed.

Lemma all_notin_cons (a : positive) (l l' : list positive) :
  (forall x, x ∈ (a :: l) -> x ∉ l') -> a ∉ l' /\ forall x, x ∈ l -> x ∉ l'.
Proof. intros H. split; [|intros x Hx]; apply H; by constructor. Qed.

Lemma all_notin_app (l1 l2 l' : list positive) :
  (forall x, (x ∈ l1 ++ l2) -> x ∉ l') -> (forall x, x ∈ l1 -> x ∉ l') /\ forall x, x ∈ l2 -> x ∉ l'.
Proof. intros H. split; intros x Hx; apply H, elem_of_app; auto. Qed.

Lemma croot_ne a k h : a <> h -> a ∉ ctx_addrs k -> a <> croot k h.
Proof.
  revert h. induction k as [|f k IH]; intros h Hh Hk; [done|]. simpl in *.
  apply not_elem_of_cons in Hk as [? Hk]. apply not_elem_of_app in Hk as [_ Hk]. by apply IH.
Qed.

Lemma rootp_ne sen a t : a <> sen -> a ∉ addrs t -> a <> rootp sen t.
Proof. destruct t; [done|]. simpl. intros _ []%not_elem_of_cons. done. Qed.

(** Distinctness of a list of addresses as atomic facts. *)
Ltac nodup_destruct :=
  repeat match goal with
  | H : NoDup [] |- _ => clear H
  | H : NoDup (_ :: _) |- _ => apply list.NoDup_cons in H as [? ?]
  | H : NoDup (_ ++ _) |- _ => apply nodup_app_sym in H as (? & ? & ? & ?)
  | H : _ ∉ (_ :: _) |- _ => apply not_elem_of_cons in H as [? ?]
  | H : _ ∉ (_ ++ _) |- _ => apply not_elem_of_app in H as [? ?]
  | H : _ ∉ [] |- _ => clear H
  | H : forall x, x ∈ _ :: _ -> _ |- _ => apply all_notin_cons in H as [? ?]
  | H : forall x, x ∈ _ ++ _ -> _ |- _ => apply all_notin_app in H as [? ?]
  end.

Ltac notin :=
  rewrite ?ctx_nodes_addrs, ?nodes_of_addrs;
  repeat match goal with
  | |- _ ∉ _ :: _ => apply not_elem_of_cons; split
  | |- _ ∉ _ ++ _ => apply not_elem_of_app; split
  | |- _ ∉ [] => apply not_elem_of_nil
  end;
  first [ assumption | apply not_eq_sym; assumption
        | apply croot_ne; first [assumption | apply not_eq_sym; assumption]
        | apply rootp_ne; first [assumption | apply not_eq_sym; assumption]
        | apply not_eq_sym, rootp_ne; first [assumption | apply not_eq_sym; assumption] ].

(** Break [holds] into its parts; each part is either a stored node or was
    there before. *)
Ltac hold_split :=
  repeat first
    [ apply mem_holds_app; split
    | apply mem_holds_cons; split
    | apply holds_insert_ne; [notin|] ];
  try done; try apply List.Forall_nil.

Ltac hold_destruct :=
  repeat match goal with
  | H : holds _ (_ ++ _) |- _ => apply mem_holds_app in H as [? ?]
  | H : holds _ (_ :: _) |- _ => apply mem_holds_cons in H as [? ?]
  end.

(** Lookups in an updated memory. *)
Ltac map_tac :=
  repeat first
    [ rewrite lookup_insert_eq
    | rewrite lookup_insert_ne by notin
    | eassumption
    | reflexivity ].

Lemma ptr_eqb_refl p : ptr_eqb p p = true.
Proof. by apply bool_decide_eq_true. Qed.

Lemma ptr_eqb_ne a b : a <> b -> ptr_eqb (Some a) (Some b) = false.
Proof. intros H. apply bool_decide_eq_false. congruence. Qed.

Ltac ptr_decide := first [ rewrite ptr_eqb_refl | rewrite ptr_eqb_ne by notin ].

(** The loads and stores of a pointer manipulation, one after the other. *)
Ltac run_mem :=
  lazymatch goal with
  | |- runs (mbind _ _) _ _ => apply runs_bind
  | |- runs sentinel _ _ => apply runs_gets; simpl
  | |- runs root _ _ => apply runs_gets; simpl
  | |- runs (modify _) _ _ => apply runs_modify
  | |- runs (mret _) _ _ => apply runs_ret
  | |- runs (ld _ _) _ _ => eapply run_ld_mem; [simpl; map_tac|]; simpl
  | |- runs (st _ _) _ _ => eapply run_st; [simpl; map_tac|]; simpl
  | |- runs (if ptr_eqb _ _ then _ else _) _ _ => ptr_decide; cbv iota
  end.

(** A hypothesis the tactics above leave alone. *)
Definition kept (P : Prop) : Prop := P.
Arguments kept : simpl never.

Section Rebuild.
Variable sen : positive.
Variable top sp : pointer.
Variable F : positive -> option rbnode.
Local Abbreviation reps := (reps sen top sp F).
Local Abbreviation rootp := (rootp sen).
Local Abbreviation nodes_of := (nodes_of sen).
Local Abbreviation ctx_nodes := (ctx_nodes sen).

(** Rebuild [reps] after stores to nodes of the tree. *)
Lemma reps_rebuild m rt old k t :
  kept (NoDup (sen :: old)) ->
  old ≡ₚ ctx_addrs k ++ addrs t ->
  rt = Some (croot k (rootp t)) ->
  (exists n, m !! sen = Some n /\ rb_color n = false /\ rb_parent n = sp) ->
  (forall a, kept (a ∉ sen :: old) -> a ∉ sen :: old -> m !! a = F a) ->
  holds m (ctx_nodes top k (rootp t) ++ nodes_of (cpar top k) t) ->
  reps (mk_rbtree m rt sen) k t.
Proof.
  intros Hn P Hr Hs Hf Hh. constructor; try done.
  - by rewrite <- P.
  - intros a. rewrite <- P. intros Ha. by apply Hf.
Qed.

End Rebuild.

Ltac rebuild :=
  eapply reps_rebuild;
  [ lazymatch goal with H : kept (NoDup _) |- _ => exact H end
  | simpl; rewrite ?app_nil_r; solve_Permutation
  | done
  | eexists; split_and!; [map_tac|done|done]
  | let a := fresh in let Ha := fresh in let Ha' := fresh in
    intros a Ha Ha'; simpl in Ha'; nodup_destruct; map_tac;
    match goal with H : forall _, _ ∉ _ -> _ = _ |- _ => apply H; first [exact Ha | notin] end
  | simpl; hold_split; map_tac ].

Ltac open_reps Hr :=
  destruct Hr as [Hh Hn Hrt (n & Hs & Hc & Hp) Hst Hf];
  lazymatch goal with
  | H : NoDup (_ :: _) |- _ =>
      let H' := fresh in pose proof H as H'; lazymatch type of H with ?P => change (kept P) in H end
  end.

(** ** Rotations *)

Section Rotate.
Variable sen : positive.
Variable top sp : pointer.
Variable F : positive -> option rbnode.
Local Abbreviation reps := (reps sen top sp F).
Local Abbreviation rootp := (rootp sen).
Local Abbreviation nodes_of := (nodes_of sen).
Local Abbreviation ctx_nodes := (ctx_nodes sen).

Lemma run_left_rotate tr k cx a x cy b y c (Q : unit -> rbtree -> Prop) :
  reps tr k (T cx a x (T cy b y c)) ->
  (forall tr', reps tr' k (T cy (T cx a x b) y c) -> Q tt tr') ->
  runs (rbtree_left_rotate (Some (e_addr x))) tr Q.
Proof.
  intros Hr HQ. open_reps Hr. destruct tr as [m rt s]. simpl in *. subst s rt. unfold rbtree_left_rotate.
  destruct b as [|cb bl bx br]; destruct k as [|[[] ck xk sk] k]; simpl in *; hold_destruct; nodup_destruct;
    repeat run_mem; apply HQ; rebuild.
Qed.

Lemma run_right_rotate tr k cx cy a y b x c (Q : unit -> rbtree -> Prop) :
  reps tr k (T cx (T cy a y b) x c) ->
  (forall tr', reps tr' k (T cy a y (T cx b x c)) -> Q tt tr') ->
  runs (rbtree_right_rotate (Some (e_addr x))) tr Q.
Proof.
  intros Hr HQ. open_reps Hr. destruct tr as [m rt s]. simpl in *. subst s rt. unfold rbtree_right_rotate.
  destruct b as [|cb bl bx br]; destruct k as [|[[] ck xk sk] k]; simpl in *; hold_destruct; nodup_destruct;
    repeat run_mem; apply HQ; rebuild.
Qed.

End Rotate.

(** ** Working on a part of the tree *)

Section Focus.
Variable sen : positive.
Variable top sp : pointer.
Variable F : positive -> option rbnode.
Local Abbreviation reps := (reps sen top sp F).

Lemma reps_down_left tr k c l x r : reps tr k (T c l x r) -> reps tr (mk_frame true c x r :: k) l.
Proof. intros H. by apply reps_up. Qed.
Lemma reps_down_right tr k c l x r : reps tr k (T c l x r) -> reps tr (mk_frame false c x l :: k) r.
Proof. intros H. by apply reps_up. Qed.

End Focus.

(** Move the focus of [H] to the node [y], or to the subtree [u]. *)
Ltac focus_node H y :=
  lazymatch type of H with
  | reps _ _ _ _ _ _ (T _ _ y _) => idtac
  | reps _ _ _ _ _ _ (T _ _ _ _) =>
      first [ apply reps_down_left in H; focus_node H y | apply reps_down_right in H; focus_node H y ]
  end.

Ltac focus_tree H u :=
  lazymatch type of H with
  | reps _ _ _ _ _ _ u => idtac
  | reps _ _ _ _ _ _ (T _ _ _ _) =>
      first [ apply reps_down_left in H; focus_tree H u | apply reps_down_right in H; focus_tree H u ]
  end.

(** Back to the whole of what is known of the tree. *)
Ltac unfocus H := repeat (apply reps_up in H; unfold plug1 in H; cbn [f_left f_color f_entry f_sibling] in H).

(** Compare two pointers into the tree. *)
Ltac ptr_case H :=
  first [ rewrite ptr_eqb_refl
        | rewrite ptr_eqb_ne by
            (let Hn := fresh in pose proof (rp_nodup _ _ _ _ _ _ _ H) as Hn; simpl in Hn; nodup_destruct; notin) ];
  cbv iota.

(** One operation of a program on the tree represented as [H] says. *)
Ltac rb_step H :=
  lazymatch goal with
  | |- runs (mbind _ _) _ _ => apply runs_bind
  | |- runs (mret _) _ _ => apply runs_ret
  | |- runs root _ _ => apply runs_gets
  | |- runs (if ptr_eqb _ _ then _ else _) _ _ => ptr_case H
  | |- runs (rbtree_is_red _) _ _ => unfold rbtree_is_red
  | |- runs (rbtree_red (Some (e_addr ?y))) _ _ =>
      focus_node H y; eapply run_color; [exact H|]; clear H; intros ? H; unfocus H
  | |- runs (rbtree_copy_color _ _) _ _ => unfold rbtree_copy_color
  | |- runs (rbtree_black (Some (e_addr ?y))) _ _ =>
      focus_node H y; eapply run_color; [exact H|]; clear H; intros ? H; unfocus H
  | |- runs (ld _ (Some (e_addr ?y))) _ _ =>
      let H' := fresh in pose proof H as H'; focus_node H' y;
      eapply run_ld; [exact H'|]; clear H'; cbn [node_of rb_left rb_right rb_parent rb_color rb_key cpar rootp f_entry]
  | |- runs (ld rb_color (Some (rootp _ ?u))) _ _ =>
      let H' := fresh in pose proof H as H'; focus_tree H' u;
      eapply run_rootcolor; [exact H'|]; clear H'; cbn [rootcolor]
  | |- runs (rbtree_is_black (Some (rootp _ ?u))) _ _ =>
      let H' := fresh in pose proof H as H'; focus_tree H' u;
      eapply run_is_black; [exact H'|]; clear H'; cbn [rootcolor negb]
  | |- runs (rbtree_is_black (Some (e_addr _))) _ _ => unfold rbtree_is_black
  | |- runs (st (set_color _) (Some (e_addr ?y))) _ _ =>
      focus_node H y; eapply run_color; [exact H|]; clear H; intros ? H; unfocus H
  | |- runs (rbtree_black (Some (rootp _ ?u))) _ _ =>
      focus_tree H u; eapply run_black; [exact H|]; clear H; intros ? H; cbn [recolor] in H; unfocus H
  | |- runs (rbtree_left_rotate (Some (e_addr ?y))) _ _ =>
      focus_node H y; eapply run_left_rotate; [exact H|]; clear H; intros ? H; unfocus H
  | |- runs (rbtree_right_rotate (Some (e_addr ?y))) _ _ =>
      focus_node H y; eapply run_right_rotate; [exact H|]; clear H; intros ? H; unfocus H
  end.

Lemma inorder_recolor c t : inorder (recolor c t) = inorder t.
Proof. by destruct t. Qed.

(** Two trees with the same entries in the same order. *)
Ltac in_order :=
  rewrite ?inorder_plug; simpl; rewrite ?inorder_recolor, ?app_nil_r; repeat (rewrite <- ?app_assoc; simpl); done.

(** ** Insertion *)

Section Insert.
Variable sen : positive.
Variable top sp : pointer.
Variable F : positive -> option rbnode.
Local Abbreviation reps := (reps sen top sp F).

(** The four positions of a red node under a red parent. [whole] is the tree
    around it at its grandparent, [pushed] the tree with the red moved up to the
    grandparent, for a red uncle, and [turned] the rotated tree, for a black one. *)
Ltac fixup_case H u Hred Hblack :=
  unfold insert_fixup_body; repeat rb_step H;
  destruct (rootcolor u) eqn:?; repeat rb_step H; [by apply Hred | by eapply Hblack].

Lemma run_fixup_ll tr k a x b p s g u (Q : pointer -> rbtree -> Prop) :
  reps tr k (T false (T true (T true a x b) p s) g u) ->
  (rootcolor u = true -> forall tr', reps tr' k (T true (T false (T true a x b) p s) g (recolor false u)) ->
     Q (Some (e_addr g)) tr') ->
  (rootcolor u = false -> forall tr', reps tr' k (T false (T true a x b) p (T true s g u)) ->
     Q (Some (e_addr x)) tr') ->
  runs (insert_fixup_body (Some (e_addr x))) tr Q.
Proof. intros H Hred Hblack. fixup_case H u Hred Hblack. Qed.

Lemma run_fixup_lr tr k a x b p s g u (Q : pointer -> rbtree -> Prop) :
  reps tr k (T false (T true s p (T true a x b)) g u) ->
  (rootcolor u = true -> forall tr', reps tr' k (T true (T false s p (T true a x b)) g (recolor false u)) ->
     Q (Some (e_addr g)) tr') ->
  (rootcolor u = false -> forall tr', reps tr' k (T false (T true s p a) x (T true b g u)) ->
     Q (Some (e_addr p)) tr') ->
  runs (insert_fixup_body (Some (e_addr x))) tr Q.
Proof. intros H Hred Hblack. fixup_case H u Hred Hblack. Qed.

Lemma run_fixup_rl tr k a x b p s g u (Q : pointer -> rbtree -> Prop) :
  reps tr k (T false u g (T true (T true a x b) p s)) ->
  (rootcolor u = true -> forall tr', reps tr' k (T true (recolor false u) g (T false (T true a x b) p s)) ->
     Q (Some (e_addr g)) tr') ->
  (rootcolor u = false -> forall tr', reps tr' k (T false (T true u g a) x (T true b p s)) ->
     Q (Some (e_addr p)) tr') ->
  runs (insert_fixup_body (Some (e_addr x))) tr Q.
Proof. intros H Hred Hblack. fixup_case H u Hred Hblack. Qed.

Lemma run_fixup_rr tr k a x b p s g u (Q : pointer -> rbtree -> Prop) :
  reps tr k (T false u g (T true s p (T true a x b))) ->
  (rootcolor u = true -> forall tr', reps tr' k (T true (recolor false u) g (T false s p (T true a x b))) ->
     Q (Some (e_addr g)) tr') ->
  (rootcolor u = false -> forall tr', reps tr' k (T false (T true u g s) p (T true a x b)) ->
     Q (Some (e_addr x)) tr') ->
  runs (insert_fixup_body (Some (e_addr x))) tr Q.
Proof. intros H Hred Hblack. fixup_case H u Hred Hblack. Qed.

Lemma reps_plug tr k t : reps tr k t -> reps tr [] (plug k t).
Proof. revert t. induction k as [|f k IH]; intros t H; [done|]. apply reps_up in H. by apply IH in H. Qed.

Lemma reps_unplug tr k t : reps tr [] (plug k t) -> reps tr k t.
Proof.
  revert t. induction k as [|f k IH]; intros t H; [done|]. apply reps_up. by apply IH.
Qed.

(** What the loop leaves: the same entries, balanced once the root is black. *)
Definition fixed (L : list entry) (tr : rbtree) : Prop :=
  exists t, reps tr [] t /\ inorder t = L /\ balanced (recolor false t).

Lemma fixed_intro L tr k t c n b :
  reps tr k t -> inorder (plug k t) = L -> rbt t c n -> cok k b n -> (c = true -> b = true) -> fixed L tr.
Proof.
  intros H HL Ht Hk Hc. exists (plug k t). split_and!; [by apply reps_plug|done|].
  destruct (rbt_plug k b c n t Hk Ht Hc) as [m Hm]. exists m. destruct (plug k t); [done|]. inversion Hm; simplify_eq. by econstructor.
Qed.

Lemma rbt_recolor t n : rootcolor t = true -> rbt t true n -> rbt (recolor false t) false (S n).
Proof. intros Hc H. inversion H; subst; simpl in *; econstructor; eauto. Qed.

Lemma rbt_rootcolor t c n : rbt t c n -> rootcolor t = c.
Proof. by destruct 1. Qed.

(** The loop invariant: a red node with sound subtrees in a sound context,
    which may have a red node at its top. *)
Definition fix_inv (L : list entry) (d : nat) (node : pointer) (tr : rbtree) : Prop :=
  exists k a x b n c, node = Some (e_addr x) /\ d = length k /\ reps tr k (T true a x b) /\
    inorder (plug k (T true a x b)) = L /\ rbt a false n /\ rbt b false n /\ cok k c n.

Ltac fix_here k x n c := eexists k, _, x, _, n, c; split_and!; [done|done|eassumption|in_order|eauto with rb..].

Lemma fix_inv_step L d x tr k a b n s p g u dp dg c :
  d = length k ->
  reps tr (mk_frame dp true p s :: mk_frame dg false g u :: k) (T true a x b) ->
  inorder (plug (mk_frame dp true p s :: mk_frame dg false g u :: k) (T true a x b)) = L ->
  rbt a false n -> rbt b false n -> rbt s false n -> rbt u (rootcolor u) n -> cok k c (S n) ->
  runs (insert_fixup_body (Some (e_addr x))) tr
    (fun node tr' => exists d', (d' < S (S d))%nat /\ fix_inv L d' node tr').
Proof.
  intros Hd H HL Ha Hb Hs Hu Hk. subst L. unfocus H.
  assert (Hred : rootcolor u = true -> rbt (recolor false u) false (S n)) by (intros E; rewrite E in Hu; by apply rbt_recolor).
  destruct dg, dp; simpl in H.
  - eapply run_fixup_ll; [exact H| |]; intros Hc tr' H'; rewrite ?Hc in Hu.
    + exists d. split; [lia|]. by fix_here k g (S n) c.
    + exists (S d). split; [lia|]. apply reps_down_left in H'. subst d. by eexists _, _, x, _, n, true; split_and!; [done| |exact H'|in_order|eauto with rb..].
  - eapply run_fixup_lr; [exact H| |]; intros Hc tr' H'; rewrite ?Hc in Hu.
    + exists d. split; [lia|]. by fix_here k g (S n) c.
    + exists (S d). split; [lia|]. apply reps_down_left in H'. subst d. by eexists _, _, p, _, n, true; split_and!; [done| |exact H'|in_order|eauto with rb..].
  - eapply run_fixup_rl; [exact H| |]; intros Hc tr' H'; rewrite ?Hc in Hu.
    + exists d. split; [lia|]. by fix_here k g (S n) c.
    + exists (S d). split; [lia|]. apply reps_down_right in H'. subst d. by eexists _, _, p, _, n, true; split_and!; [done| |exact H'|in_order|eauto with rb..].
  - eapply run_fixup_rr; [exact H| |]; intros Hc tr' H'; rewrite ?Hc in Hu.
    + exists d. split; [lia|]. by fix_here k g (S n) c.
    + exists (S d). split; [lia|]. apply reps_down_right in H'. subst d. by eexists _, _, x, _, n, true; split_and!; [done| |exact H'|in_order|eauto with rb..].
Qed.

(** Pointing at the root or at a node that is not it. *)
Lemma run_at_root {A} tr k c l x r (m m' : RB A) (Q : A -> rbtree -> Prop) :
  reps tr k (T c l x r) -> (k = [] -> runs m tr Q) -> (k <> [] -> runs m' tr Q) ->
  runs (r ← root; if ptr_eqb (Some (e_addr x)) r then m else m') tr Q.
Proof.
  intros H H1 H2. apply runs_bind, runs_gets. rewrite (rp_root _ _ _ _ _ _ _ H). destruct k as [|f k]; simpl.
  - rewrite ptr_eqb_refl. auto.
  - rewrite ptr_eqb_ne; [by apply H2|]. pose proof (rp_nodup _ _ _ _ _ _ _ H) as Hn. simpl in Hn. nodup_destruct. notin.
Qed.

Lemma run_insert_fixup L tr k a x b n c :
  reps tr k (T true a x b) -> inorder (plug k (T true a x b)) = L ->
  rbt a false n -> rbt b false n -> cok k c n -> (length k <= size (rt_mem tr))%nat ->
  runs (insert_fixup (Some (e_addr x))) tr (fun _ tr' => fixed L tr').
Proof.
  intros H HL Ha Hb Hk Hlen. unfold insert_fixup. apply runs_bind, runs_gets.
  eapply (runs_iterate _ (fix_inv L)); [|by exists k, a, x, b, n, c|unfold walk_fuel; lia].
  clear -sen top sp F L. intros d node tr (k & a & x & b & n & c & -> & -> & H & HL & Ha & Hb & Hk).
  eapply run_at_root; [done| |]; intros Hne.
  - subst k. apply runs_ret. exists (T true a x b). split_and!; [done..|]. exists (S n). by econstructor.
  - destruct k as [|f k]; [done|]. apply runs_bind. eapply run_ld; [done|]. simpl. apply runs_bind.
    eapply run_ld_up; [done|]. simpl. inversion Hk as [|d' p s k' n' Hs Hk'|d' p s c' k' b' n' Hs Hk']; subst; simpl.
    + destruct k as [|[dg cg g u] k]; [inversion Hk'|]. inversion Hk' as [| |d'' ? ? cu ? bu ? Hu Hk'']; subst.
      apply runs_bind. eapply runs_mono; [eapply (fix_inv_step _ (length k)); eauto|].
      * by rewrite (rbt_rootcolor _ _ _ Hu).
      * intros node tr' (e & Hd & HI). apply runs_ret. exists e. split; [simpl; lia|done].
    + apply runs_ret. eapply (fixed_intro _ _ _ _ true); eauto with rb.
Qed.

(** *** The place of the new node *)

Variable z : entry.
Variable nz : rbnode.

Definition left_of (x : entry) : Prop := e_key x <= e_key z.
Definition right_of (x : entry) : Prop := e_key z < e_key x.

(** The context is where [z] belongs. *)
Definition parted (k : list frame) : Prop := Forall left_of (before k) /\ Forall right_of (after k).

Fixpoint tsize (t : tree) : nat := match t with E => O | T _ l _ r => S (tsize l + tsize r) end.

Definition by_key (x y : entry) : Prop := e_key x <= e_key y.

Lemma sorted_mid k l x r c :
  StronglySorted by_key (inorder (plug k (T c l x r))) ->
  (forall y, y ∈ inorder l -> e_key y <= e_key x) /\ (forall y, y ∈ inorder r -> e_key x <= e_key y).
Proof.
  rewrite inorder_plug, !StronglySorted_app. simpl. rewrite StronglySorted_app, StronglySorted_cons, list.Forall_forall.
  intros (_ & _ & _ & (Hl & _ & Hr & _) & _). split; [|done]. intros y Hy. apply Hl; [done|]. by constructor.
Qed.

(** The loop of the descent: the tree below [temp] is where [z] belongs. *)
Definition descent_inv (tr : rbtree) (whole : tree) (d : nat) (temp : pointer) (tr' : rbtree) : Prop :=
  tr' = tr /\ exists k c l x r, temp = Some (e_addr x) /\ reps tr k (T c l x r) /\ plug k (T c l x r) = whole /\
    d = tsize (T c l x r) /\ parted k.

Definition descent_post (tr : rbtree) (whole : tree) (p : pointer * bool) (tr' : rbtree) : Prop :=
  tr' = tr /\ exists f k, p = (Some (e_addr (f_entry f)), f_left f) /\ reps tr (f :: k) E /\
    plug (f :: k) E = whole /\ parted (f :: k).

Lemma parted_left k c l x r :
  StronglySorted by_key (inorder (plug k (T c l x r))) -> parted k -> e_key z < e_key x ->
  parted (mk_frame true c x r :: k).
Proof.
  intros Hs [Hb Ha] Hz. apply sorted_mid in Hs as [_ Hr]. split; simpl; [by rewrite app_nil_r|].
  constructor; [done|]. apply List.Forall_app. split; [|done]. apply list.Forall_forall. intros y Hy.
  specialize (Hr y Hy). unfold right_of. lia.
Qed.

Lemma parted_right k c l x r :
  StronglySorted by_key (inorder (plug k (T c l x r))) -> parted k -> e_key x <= e_key z ->
  parted (mk_frame false c x l :: k).
Proof.
  intros Hs [Hb Ha] Hz. apply sorted_mid in Hs as [Hl _]. split; simpl; [|done].
  apply List.Forall_app. split; [done|]. apply List.Forall_app. split; [|by constructor]. apply list.Forall_forall. intros y Hy.
  specialize (Hl y Hy). unfold left_of. lia.
Qed.

Lemma run_insert_descent tr c l x r :
  let whole := T c l x r in
  reps tr [] whole -> StronglySorted by_key (inorder whole) ->
  rt_mem tr !! e_addr z = Some nz -> rb_key nz = e_key z -> (tsize whole <= size (rt_mem tr))%nat ->
  runs (insert_descent (Some (e_addr z))) tr (descent_post tr whole).
Proof.
  intros whole H Hs Hz Hk Hsz. unfold insert_descent. apply runs_bind, runs_gets. apply runs_bind, runs_gets.
  apply runs_bind, runs_gets. rewrite (rp_root _ _ _ _ _ _ _ H), (rp_sentinel _ _ _ _ _ _ _ H).
  eapply (runs_iterate _ (descent_inv tr whole)); [|split; [done|by exists [], c, l, x, r]|by apply Nat.lt_succ_r].
  clear H Hsz. intros d temp tr' (-> & k & c' & l' & y & r' & -> & H & Hw & -> & Hp).
  apply runs_bind. eapply run_ld_mem; [done|]. apply runs_bind. eapply run_ld; [done|]. rewrite Hk. simpl. apply runs_bind.
  rewrite <- Hw in Hs. destruct (Z.ltb_spec (e_key z) (e_key y)) as [Hlt|Hge].
  - pose proof (parted_left _ _ _ _ _ Hs Hp Hlt) as Hp'. eapply run_ld; [done|]. simpl. apply runs_ret.
    apply reps_down_left in H. destruct l' as [|c2 l2 y2 r2]; simpl.
    + rewrite ptr_eqb_refl. split; [done|]. by exists (mk_frame true c' y r'), k.
    + rewrite ptr_eqb_ne by (pose proof (rp_nodup _ _ _ _ _ _ _ H) as Hn; simpl in Hn; nodup_destruct; notin).
      exists (tsize (T c2 l2 y2 r2)). split; [simpl; lia|]. split; [done|]. by exists (mk_frame true c' y r' :: k), c2, l2, y2, r2.
  - pose proof (parted_right _ _ _ _ _ Hs Hp Hge) as Hp'. eapply run_ld; [done|]. simpl. apply runs_ret.
    apply reps_down_right in H. destruct r' as [|c2 l2 y2 r2]; simpl.
    + rewrite ptr_eqb_refl. split; [done|]. by exists (mk_frame false c' y l'), k.
    + rewrite ptr_eqb_ne by (pose proof (rp_nodup _ _ _ _ _ _ _ H) as Hn; simpl in Hn; nodup_destruct; notin).
      exists (tsize (T c2 l2 y2 r2)). split; [simpl; lia|]. split; [done|]. by exists (mk_frame false c' y l' :: k), c2, l2, y2, r2.
Qed.

(** *** Linking it *)

Lemma run_link {A} tr f k (rest : RB A) (Q : A -> rbtree -> Prop) :
  reps tr (f :: k) E -> rt_mem tr !! e_addr z = Some nz -> rb_key nz = e_key z -> rb_data nz = e_data z ->
  e_addr z ∉ sen :: ctx_addrs (f :: k) ->
  (forall tr', reps tr' (f :: k) (T true E z E) -> runs rest tr' Q) ->
  runs (st (if f_left f then set_left (Some (e_addr z)) else set_right (Some (e_addr z))) (Some (e_addr (f_entry f)));;
        st (set_parent (Some (e_addr (f_entry f)))) (Some (e_addr z));;
        st (set_left (Some sen)) (Some (e_addr z));;
        st (set_right (Some sen)) (Some (e_addr z));;
        rbtree_red (Some (e_addr z));; rest) tr Q.
Proof.
  intros Hr Hz Hk Hd Hin HQ. destruct Hr as [Hh Hn Hrt (n & Hs & Hc & Hp) Hst Hf].
  destruct tr as [m rt s]. simpl in *. subst s rt.
  assert (Hn' : kept (NoDup (sen :: (e_addr (f_entry f) :: addrs (f_sibling f) ++ ctx_addrs k) ++ [e_addr z]))).
  { unfold kept. rewrite app_comm_cons, list.NoDup_app. rewrite app_nil_r in Hn. split_and!; [done| |by apply NoDup_singleton].
    intros y Hy ->%list_elem_of_singleton. done. }
  destruct f as [d c x s]. simpl in *. rewrite !app_nil_r in *. hold_destruct. nodup_destruct.
  assert (Hmem : m !! e_addr z = Some nz) by done.
  destruct d; repeat run_mem; unfold rbtree_red; repeat run_mem; apply HQ.
  all: destruct nz as [? ? ? zk zd ?]; simpl in *; subst zk zd; rebuild.
Qed.

End Insert.

(** ** What the tree implements: a list sorted by key *)

Lemma inorder_addrs t : map e_addr (inorder t) ≡ₚ addrs t.
Proof.
  induction t as [|c l IHl x r IHr]; simpl; [done|]. rewrite map_app. simpl. rewrite IHl, IHr. by rewrite <- Permutation_middle.
Qed.

Lemma addrs_plug k t : addrs (plug k t) ≡ₚ ctx_addrs k ++ addrs t.
Proof.
  revert t. induction k as [|f k IH]; intros t; [done|]. unfold plug in *. simpl. rewrite IH, addrs_plug1.
  rewrite <- Permutation_middle. constructor. rewrite !app_assoc. apply Permutation_app; [apply Permutation_app_comm|done].
Qed.

Lemma length_inorder t : length (inorder t) = length (addrs t).
Proof. by rewrite <- inorder_addrs, length_map. Qed.

Section Size.
Variable sen : positive.
Variable top sp : pointer.
Variable F : positive -> option rbnode.

Lemma reps_size tr k t : reps sen top sp F tr k t -> (length (ctx_addrs k ++ addrs t) < size (rt_mem tr))%nat.
Proof.
  intros [Hh Hn _ (ns & Hs & _) _ _]. change (length (sen :: ctx_addrs k ++ addrs t) <= size (rt_mem tr))%nat.
  rewrite <- size_dom, <- (size_list_to_set (C := gset positive)) by done.
  apply subseteq_size. intros a Ha. apply elem_of_list_to_set, elem_of_cons in Ha as [->|Ha]; [by apply elem_of_dom; exists ns|].
  rewrite <- (ctx_nodes_addrs sen top k (rootp sen t)), <- (nodes_of_addrs sen (cpar top k) t), <- map_app in Ha.
  apply list_elem_of_In, in_map_iff in Ha as ([b n] & <- & Hb). unfold holds in Hh. rewrite List.Forall_forall in Hh.
  apply elem_of_dom. exists n. by apply (Hh (b, n)).
Qed.

Lemma tsize_addrs t : tsize t = length (addrs t).
Proof. induction t; simpl; [done|]. rewrite length_app. lia. Qed.

Lemma ctx_length k : (length k <= length (ctx_addrs k))%nat.
Proof. induction k as [|f k IH]; simpl; [done|]. rewrite length_app. lia. Qed.

End Size.

(** The tree at [tr] holds [l], in this order, and [F] is the memory around. *)
Definition rb_ok (sen : positive) (F : positive -> option rbnode) (l : list entry) (tr : rbtree) : Prop :=
  exists top sp t, reps sen top sp F tr [] t /\ inorder t = l /\ StronglySorted by_key l /\ balanced t.

(** Insertion in a sorted list, behind the entries with the same key. *)
Fixpoint ins (z : entry) (l : list entry) : list entry :=
  match l with
  | [] => [z]
  | x :: l' => if e_key z <? e_key x then z :: l else x :: ins z l'
  end.

Lemma ins_parted z l l' :
  Forall (left_of z) l -> Forall (right_of z) l' -> ins z (l ++ l') = l ++ z :: l'.
Proof.
  intros Hl Hl'. induction Hl as [|x l Hx Hl IH]; simpl.
  - destruct Hl' as [|y l' Hy _]; simpl; [done|]. unfold right_of in Hy. by destruct (Z.ltb_spec (e_key z) (e_key y)); [|lia].
  - unfold left_of in Hx. destruct (Z.ltb_spec (e_key z) (e_key x)); [lia|]. by rewrite IH.
Qed.

Lemma elem_ins z l y : y ∈ ins z l <-> y = z \/ y ∈ l.
Proof.
  induction l as [|x l IH]; simpl; [rewrite list_elem_of_singleton, elem_of_nil; tauto|].
  destruct (e_key z <? e_key x); rewrite !elem_of_cons, ?IH; tauto.
Qed.

Lemma ins_sorted z l : StronglySorted by_key l -> StronglySorted by_key (ins z l).
Proof.
  induction l as [|x l IH]; simpl; [by repeat constructor|]. intros Hs. apply StronglySorted_cons in Hs as [Hx Hs].
  destruct (Z.ltb_spec (e_key z) (e_key x)) as [Hlt|Hge].
  - apply StronglySorted_cons. split; [|by apply StronglySorted_cons]. constructor; [unfold by_key; lia|].
    rewrite list.Forall_forall in *. intros y Hy. specialize (Hx y Hy). unfold by_key in *. lia.
  - apply StronglySorted_cons. split; [|by apply IH]. rewrite list.Forall_forall in *. intros y [->|Hy]%elem_ins; [unfold by_key; lia|auto].
Qed.

Lemma run_rbtree_insert sen F l z nz tr :
  rb_ok sen F l tr -> rt_mem tr !! e_addr z = Some nz -> rb_key nz = e_key z -> rb_data nz = e_data z ->
  e_addr z ∉ sen :: map e_addr l ->
  runs (rbtree_insert (Some (e_addr z))) tr (fun _ tr' => rb_ok sen F (ins z l) tr').
Proof.
  intros (top & sp & t & H & <- & Hs & n & Hb) Hz Hk Hd Hin. unfold rbtree_insert. do 2 apply runs_bind, runs_gets.
  rewrite (rp_root _ _ _ _ _ _ _ H), (rp_sentinel _ _ _ _ _ _ _ H). simpl.
  rewrite not_elem_of_cons, inorder_addrs in Hin. destruct Hin as [Hz1 Hz2]. destruct t as [|c l x r]; simpl.
  - rewrite ptr_eqb_refl.
    destruct H as [Hh Hn Hrt (ns & Hsen & Hc & Hp) Hst Hf]. destruct tr as [m rt s]. simpl in *. subst s rt.
    repeat run_mem. unfold rbtree_black. repeat run_mem. exists None, sp, (T false E z E). split_and!; [|done|by repeat constructor|].
    + destruct nz as [? ? ? zk zd ?]; simpl in *; subst zk zd. constructor; simpl; try done.
      * constructor; [map_tac|constructor].
      * apply list.NoDup_cons. split; [apply not_elem_of_cons; split; [by apply not_eq_sym|apply not_elem_of_nil]|by apply NoDup_singleton].
      * exists ns. split_and!; [map_tac|done|done].
      * intros a Ha. nodup_destruct. map_tac. apply Hf. notin.
    + exists 1%nat. repeat econstructor.
  - rewrite ptr_eqb_ne by (pose proof (rp_nodup _ _ _ _ _ _ _ H) as Hn; simpl in Hn; nodup_destruct; notin). cbv iota.
    pose proof (reps_size _ _ _ _ _ _ _ H) as Hsz. simpl ctx_addrs in Hsz. rewrite app_nil_l, <- tsize_addrs in Hsz.
    apply runs_bind. eapply runs_mono; [eapply run_insert_descent; eauto; lia|].
    intros p tr' (-> & f & k & -> & H' & Hw & Hp). pose proof (reps_plug _ _ _ _ _ _ _ H') as Hw'.
    assert (Hz3 : e_addr z ∉ sen :: ctx_addrs (f :: k)).
    { apply not_elem_of_cons. split; [done|]. by rewrite <- Hw, addrs_plug, app_nil_r in Hz2. }
    eapply run_link; [done..|]. intros tr' Hr'. apply runs_bind.
    destruct (rbt_unplug (f :: k) E) as (bb & cc & m & Hck & Hm & _); [rewrite Hw; by exists n|].
    inversion Hm; subst.
    eapply runs_mono; [eapply run_insert_fixup; eauto with rb|].
    + pose proof (reps_size _ _ _ _ _ _ _ Hr') as Hsz'. rewrite length_app in Hsz'. pose proof (ctx_length (f :: k)). lia.
    + intros [] tr2 (t & Ht & HL & Hbal). apply runs_bind, runs_gets. rewrite (rp_root _ _ _ _ _ _ _ Ht).
      eapply run_black; [done|]. intros tr3 Ht3. exists top, sp, (recolor false t). split_and!; try done.
      * rewrite inorder_recolor, HL, inorder_plug. change (inorder l ++ x :: inorder r) with (inorder (T c l x r)). rewrite <- Hw, inorder_plug. simpl inorder. destruct Hp as [Hp1 Hp2]. by rewrite ins_parted.
      * by apply ins_sorted.
Qed.
