(* ===== verification/RbtreeDelete.v ===== *)
(** Deletion from the red-black tree: the rebalancing loop and the unlinking
    of a node, on the representation of RbtreeFacts. *)

From stdpp Require Import gmap sorting.
From S2P Require Import Prelude State Rbtree RbtreeFacts.

(** A load of the parent of what may be the sentinel. *)
Ltac rb_del H Hsp :=
  first
  [ lazymatch goal with
    | |- runs (ld rb_parent (Some (rootp _ ?u))) _ _ =>
        let H' := fresh in pose proof H as H'; focus_tree H' u;
        eapply run_ld_parent; [exact H'|exact Hsp|]; clear H'; cbn [cpar f_entry]
    end
  | rb_step H ].

Section Delete.
Variable sen : positive.
Variable top sp : pointer.
Variable F : positive -> option rbnode.
Local Abbreviation reps := (reps sen top sp F).
Local Abbreviation rootp := (rootp sen).

(** ** One iteration, with a black sibling *)

(** Outcomes for a left child: both nephews black, the far one red, only the
    near one red. *)
Lemma run_fixup_left tr k cp t p wl y wr (Q : pointer -> rbtree -> Prop) :
  reps tr k (T cp t p (T false wl y wr)) -> (t = E -> sp = Some (e_addr p)) ->
  (rootcolor wl = false -> rootcolor wr = false ->
     forall tr', reps tr' k (T cp t p (T true wl y wr)) -> Q (Some (e_addr p)) tr') ->
  (rootcolor wr = true ->
     forall tr', reps tr' k (T cp (T false t p wl) y (recolor false wr)) -> Q (rt_root tr') tr') ->
  (forall a x b, wl = T true a x b -> rootcolor wr = false ->
     forall tr', reps tr' k (T cp (T false t p a) x (T false b y wr)) -> Q (rt_root tr') tr') ->
  runs (delete_fixup_left (Some (rootp t)) (Some (e_addr y))) tr Q.
Proof.
  intros H Hsp H2 H4 H3. unfold delete_fixup_left. repeat rb_del H Hsp.
  destruct (rootcolor wl) eqn:El, (rootcolor wr) eqn:Er; simpl.
  - destruct wr as [|cr rl xr rr]; [done|]. repeat rb_del H Hsp. by apply H4.
  - destruct wl as [|cl a x b]; [done|]. simpl in El. subst cl. repeat rb_del H Hsp. by eapply H3.
  - destruct wr as [|cr rl xr rr]; [done|]. repeat rb_del H Hsp. by apply H4.
  - repeat rb_del H Hsp. by apply H2.
Qed.

Lemma run_fixup_right tr k cp t p wl y wr (Q : pointer -> rbtree -> Prop) :
  reps tr k (T cp (T false wl y wr) p t) -> (t = E -> sp = Some (e_addr p)) ->
  (rootcolor wl = false -> rootcolor wr = false ->
     forall tr', reps tr' k (T cp (T true wl y wr) p t) -> Q (Some (e_addr p)) tr') ->
  (rootcolor wl = true ->
     forall tr', reps tr' k (T cp (recolor false wl) y (T false wr p t)) -> Q (rt_root tr') tr') ->
  (forall a x b, wr = T true a x b -> rootcolor wl = false ->
     forall tr', reps tr' k (T cp (T false wl y a) x (T false b p t)) -> Q (rt_root tr') tr') ->
  runs (delete_fixup_right (Some (rootp t)) (Some (e_addr y))) tr Q.
Proof.
  intros H Hsp H2 H4 H3. unfold delete_fixup_right. repeat rb_del H Hsp.
  destruct (rootcolor wl) eqn:El, (rootcolor wr) eqn:Er; simpl.
  - destruct wl as [|cr rl xr rr]; [done|]. repeat rb_del H Hsp. by apply H4.
  - destruct wl as [|cr rl xr rr]; [done|]. repeat rb_del H Hsp. by apply H4.
  - destruct wr as [|cl a x b]; [done|]. simpl in Er. subst cl. repeat rb_del H Hsp. by eapply H3.
  - repeat rb_del H Hsp. by apply H2.
Qed.

(** ** The loop *)

(** [t] lacks one black node of the [S n] its place asks for; a red root can
    supply it. *)
Definition short (t : tree) (n : nat) : Prop :=
  if rootcolor t then rbt (recolor false t) false (S n) else rbt t false n.

Definition del_inv (L : list entry) (d : nat) (temp : pointer) (tr : rbtree) : Prop :=
  exists k t n b, temp = Some (rootp t) /\ d = (if rootcolor t then 0 else S (length k))%nat /\ reps tr k t /\ inorder (plug k t) = L /\
    short t n /\ cok k b (S n) /\ (t = E -> k <> [] -> sp = cpar top k).

(** Nothing is lacking any more. *)
Lemma del_inv_root L tr k t c n b :
  reps tr k t -> inorder (plug k t) = L -> rbt t c n -> cok k b n -> (c = true -> b = true) ->
  del_inv L 1 (rt_root tr) tr.
Proof.
  intros H HL Ht Hk Hc. destruct (rbt_plug k b c n t Hk Ht Hc) as [m Hm]. apply reps_plug in H.
  exists [], (plug k t), m, false. split_and!; try done; [by rewrite (rp_root _ _ _ _ _ _ _ H)|by rewrite (rbt_rootcolor _ _ _ Hm)| |constructor].
  unfold short. by rewrite (rbt_rootcolor _ _ _ Hm).
Qed.

Lemma del_inv_L L L' d temp tr : del_inv L d temp tr -> L = L' -> del_inv L' d temp tr.
Proof. by intros ? <-. Qed.

Lemma rbt_recolor_black t c n : rbt t c n -> c = true -> rbt (recolor false t) false (S n).
Proof. intros H ->. apply rbt_recolor; [by eapply rbt_rootcolor|done]. Qed.

Lemma del_left L d tr k cp t p wl y wr n cl cr b :
  d = length k -> reps tr k (T cp t p (T false wl y wr)) -> (t = E -> sp = Some (e_addr p)) ->
  inorder (plug k (T cp t p (T false wl y wr))) = L ->
  rbt t false n -> rbt wl cl n -> rbt wr cr n -> cok (mk_frame true cp p (T false wl y wr) :: k) b (S n) ->
  runs (delete_fixup_left (Some (rootp t)) (Some (e_addr y))) tr
    (fun temp tr' => exists d', (d' <= if cp then 1 else S d)%nat /\ del_inv L d' temp tr').
Proof.
  intros Hd H Hsp <- Ht Hl Hr Hk. apply run_fixup_left with (1 := H); [done|..].
  - intros El Er tr' H'. exists (if cp then 0 else S d)%nat. split; [destruct cp; lia|]. rewrite (rbt_rootcolor _ _ _ Hl) in El. rewrite (rbt_rootcolor _ _ _ Hr) in Er. subst cl cr.
    inversion Hk; subst.
    + exists k, (T true t p (T true wl y wr)), n, true. split_and!; [done|done|done|in_order| |done|done]. unfold short; simpl. eauto with rb.
    + eexists k, (T false t p (T true wl y wr)), (S n), _. split_and!; [done|done|done|in_order| |done|done]. unfold short; simpl. eauto with rb.
  - intros Er tr' H'. exists 1%nat. split; [destruct cp; lia|]. rewrite (rbt_rootcolor _ _ _ Hr) in Er. pose proof (rbt_recolor_black _ _ _ Hr Er) as Hr'.
    inversion Hk; subst; (eapply del_inv_root; [exact H'|in_order|..|eassumption|]; [eauto with rb|done]).
  - intros a x b' -> Er tr' H'. exists 1%nat. split; [destruct cp; lia|]. rewrite (rbt_rootcolor _ _ _ Hr) in Er. subst cr. inversion Hl; subst.
    inversion Hk; subst; (eapply del_inv_root; [exact H'|in_order|..|eassumption|]; [eauto with rb|done]).
Qed.

Lemma del_right L d tr k cp t p wl y wr n cl cr b :
  d = length k -> reps tr k (T cp (T false wl y wr) p t) -> (t = E -> sp = Some (e_addr p)) ->
  inorder (plug k (T cp (T false wl y wr) p t)) = L ->
  rbt t false n -> rbt wl cl n -> rbt wr cr n -> cok (mk_frame false cp p (T false wl y wr) :: k) b (S n) ->
  runs (delete_fixup_right (Some (rootp t)) (Some (e_addr y))) tr
    (fun temp tr' => exists d', (d' <= if cp then 1 else S d)%nat /\ del_inv L d' temp tr').
Proof.
  intros Hd H Hsp <- Ht Hl Hr Hk. apply run_fixup_right with (1 := H); [done|..].
  - intros El Er tr' H'. exists (if cp then 0 else S d)%nat. split; [destruct cp; lia|]. rewrite (rbt_rootcolor _ _ _ Hl) in El. rewrite (rbt_rootcolor _ _ _ Hr) in Er. subst cl cr.
    inversion Hk; subst.
    + exists k, (T true (T true wl y wr) p t), n, true. split_and!; [done|done|done|in_order| |done|done]. unfold short; simpl. eauto with rb.
    + eexists k, (T false (T true wl y wr) p t), (S n), _. split_and!; [done|done|done|in_order| |done|done]. unfold short; simpl. eauto with rb.
  - intros El tr' H'. exists 1%nat. split; [destruct cp; lia|]. rewrite (rbt_rootcolor _ _ _ Hl) in El. pose proof (rbt_recolor_black _ _ _ Hl El) as Hl'.
    inversion Hk; subst; (eapply del_inv_root; [exact H'|in_order|..|eassumption|]; [eauto with rb|done]).
  - intros a x b' -> El tr' H'. exists 1%nat. split; [destruct cp; lia|]. rewrite (rbt_rootcolor _ _ _ Hl) in El. subst cl. inversion Hr; subst.
    inversion Hk; subst; (eapply del_inv_root; [exact H'|in_order|..|eassumption|]; [eauto with rb|done]).
Qed.

(** A black tree that is not the root and lacks a black node. *)
Lemma del_body L tr f k t n b :
  reps tr (f :: k) t -> (t = E -> sp = Some (e_addr (f_entry f))) -> inorder (plug (f :: k) t) = L ->
  rbt t false n -> cok (f :: k) b (S n) ->
  runs (delete_fixup_body (Some (rootp t))) tr
    (fun temp tr' => exists d', (d' < S (S (length k)))%nat /\ del_inv L d' temp tr').
Proof.
  intros H Hsp HL Ht Hk. destruct f as [d cf p s]. unfocus H. simpl in Hsp.
  assert (Hs : exists cs, rbt s cs (S n)) by (inversion Hk; eauto). destruct Hs as [cs Hs].
  destruct d; simpl in H; (destruct s as [|cy wl y wr]; [inversion Hs|]); unfold delete_fixup_body; repeat rb_del H Hsp;
    destruct cy; inversion Hs as [|? ? ? ? Hl Hr|? ? ? cl cr ? Hl Hr]; subst.
  - inversion Hk as [|? ? ? ? ? Hw Hk'|? ? ? ? ? ? ? Hw Hk']; subst; [inversion Hw|].
    inversion Hl as [| |? ? ? ? ? ? Ha Hb]; subst. repeat rb_del H Hsp. apply reps_down_left in H.
    eapply runs_mono; [eapply del_left; [done|exact H|done|done|done|done|done|eauto with rb]|].
    simpl. intros temp tr2 (d' & Hd & HI). exists d'. split; [lia|]. eapply del_inv_L; [exact HI|in_order].
  - repeat rb_del H Hsp. eapply runs_mono; [eapply del_left; [done|exact H|done|done|done|done|done|exact Hk]|].
    simpl. intros temp tr2 (d' & Hd & HI). exists d'. split; [destruct cf; lia|done].
  - inversion Hk as [|? ? ? ? ? Hw Hk'|? ? ? ? ? ? ? Hw Hk']; subst; [inversion Hw|].
    inversion Hr as [| |? ? ? ? ? ? Ha Hb]; subst. repeat rb_del H Hsp. apply reps_down_right in H.
    eapply runs_mono; [eapply del_right; [done|exact H|done|done|done|done|done|eauto with rb]|].
    simpl. intros temp tr2 (d' & Hd & HI). exists d'. split; [lia|]. eapply del_inv_L; [exact HI|in_order].
  - repeat rb_del H Hsp. eapply runs_mono; [eapply del_right; [done|exact H|done|done|done|done|done|exact Hk]|].
    simpl. intros temp tr2 (d' & Hd & HI). exists d'. split; [destruct cf; lia|done].
Qed.

(** The loop ends with a tree that is balanced once [temp] is black. *)
Lemma run_delete_fixup L tr k t n b :
  reps tr k t -> inorder (plug k t) = L -> short t n -> cok k b (S n) -> (t = E -> k <> [] -> sp = cpar top k) ->
  (length k < size (rt_mem tr))%nat ->
  runs (delete_fixup (Some (rootp t))) tr (fun _ tr' => exists t', reps tr' [] t' /\ inorder t' = L /\ balanced t').
Proof.
  intros H HL Ht Hk Hsp Hlen. unfold delete_fixup. apply runs_bind, runs_gets. apply runs_bind.
  eapply runs_mono.
  - eapply (runs_iterate _ (del_inv L) (fun temp tr => exists k t n b, temp = Some (rootp t) /\ reps tr k t /\
      inorder (plug k t) = L /\ cok k b (S n) /\ short t n /\ (k = [] \/ rootcolor t = true))).
    2: by exists k, t, n, b. 2: unfold walk_fuel; destruct (rootcolor t); lia.
    clear -sen top sp F L. intros d temp tr (k & t & n & b & -> & -> & H & HL & Ht & Hk & Hsp).
    apply runs_bind, runs_gets. rewrite (rp_root _ _ _ _ _ _ _ H).
    destruct k as [|f k]; simpl.
    { rewrite ptr_eqb_refl. apply runs_ret. exists [], t, n, b. split_and!; auto. }
    rewrite ptr_eqb_ne; [cbv iota|]. 2: { pose proof (rp_nodup _ _ _ _ _ _ _ H) as Hn. simpl in Hn. nodup_destruct.
      apply croot_ne; destruct t; simpl in *; nodup_destruct; notin. }
    apply runs_bind. eapply run_is_black; [done|]. destruct (rootcolor t) eqn:Ec; simpl.
    + apply runs_ret. exists (f :: k), t, n, b. rewrite Ec. split_and!; auto.
    + apply runs_bind. unfold short in Ht. rewrite Ec in Ht. eapply runs_mono; [eapply del_body; eauto; naive_solver|].
      intros temp tr' (d' & Hd & HI). apply runs_ret. by exists d'.
  - intros temp tr' (k' & t' & n' & b' & -> & H' & HL' & Hk' & Ht' & Hend). eapply run_black; [done|].
    intros tr2 H2. exists (plug k' (recolor false t')). split_and!; [by apply reps_plug|by rewrite inorder_plug, inorder_recolor, <- inorder_plug|].
    unfold short in Ht'. destruct (rootcolor t') eqn:Ec.
    + by eapply rbt_plug.
    + destruct Hend as [->|]; [|done]. exists n'. simpl. destruct t'; [done|]. simpl in *. by subst c.
Qed.
End Delete.

(** ** Unlinking *)

(** The memory around the tree when the node at [a] has left it. *)
Definition freed (a : positive) (c : bool) (F : positive -> option rbnode) (b : positive) : option rbnode :=
  if decide (b = a) then Some (mk_rbnode None None None 0 None c) else F b.

Lemma freed_eq a c F : freed a c F a = Some (mk_rbnode None None None 0 None c).
Proof. unfold freed. by rewrite decide_True. Qed.

Lemma freed_ne a c F b : b <> a -> freed a c F b = F b.
Proof. intros. unfold freed. by rewrite decide_False. Qed.

Lemma nodup_drop (a : positive) (l l' : list positive) : NoDup (l ++ a :: l') -> NoDup (l ++ l').
Proof. rewrite <- Permutation_middle, list.NoDup_cons. by intros [_ H]. Qed.

Lemma cpar_app tp k k' : cpar tp (k ++ k') = cpar (cpar tp k') k.
Proof. by destruct k. Qed.

Lemma croot_app k k' h : croot (k ++ k') h = croot k' (croot k h).
Proof. revert h. induction k as [|f k IH]; intros h; simpl; [done|]. apply IH. Qed.

Lemma ctx_nodes_app sen tp k k' h :
  ctx_nodes sen tp (k ++ k') h = ctx_nodes sen (cpar tp k') k h ++ ctx_nodes sen tp k' (croot k h).
Proof.
  revert h. induction k as [|f k IH]; intros h; simpl; [done|]. by rewrite cpar_app, IH, <- app_assoc.
Qed.

Lemma ctx_addrs_app k k' : ctx_addrs (k ++ k') = ctx_addrs k ++ ctx_addrs k'.
Proof. induction k as [|f k IH]; simpl; [done|]. by rewrite IH, <- app_assoc. Qed.

(** Close [reps] for the memory the stores produced, [z] being freed. *)
Ltac rebuild_freed z :=
  constructor; simpl; rewrite ?cpar_app, ?ctx_nodes_app, ?ctx_addrs_app, ?croot_app; simpl;
  [ hold_split; map_tac
  | rewrite ?app_nil_r; lazymatch goal with H : kept (NoDup _) |- _ => exact H end
  | done
  | eexists; split_and!; [map_tac|done|first [eassumption | reflexivity]]
  | done
  | let a := fresh in let Ha := fresh in let E := fresh in
    intros a Ha; destruct (decide (a = e_addr z)) as [E|E];
    [ rewrite E, freed_eq; map_tac
    | rewrite freed_ne by exact E; nodup_destruct; map_tac;
      match goal with H : forall _, _ ∉ _ -> _ = _ |- _ => apply H; notin end ] ].

(** The same as [run_mem], entering the helpers of rbtree_delete. *)
Ltac run_unlink_code :=
  repeat first
    [ run_mem
    | lazymatch goal with
      | |- runs (replace_child _ _) _ _ => unfold replace_child at 1
      | |- runs (rbtree_node_init _) _ _ => unfold rbtree_node_init at 1
      | |- runs (rbtree_copy_color _ _) _ _ => unfold rbtree_copy_color at 1
      end ].

Section Unlink.
Variable sen : positive.
Variable top sp : pointer.
Variable F : positive -> option rbnode.
Local Abbreviation rootp := (rootp sen).

(** A node with at most one child. *)
Lemma run_unlink {A} tr f k c z t (side : bool) (rest : RB A) (Q : A -> rbtree -> Prop) :
  reps sen top sp F tr (f :: k) (if side then T c E z t else T c t z E) ->
  (forall tr' sp', reps sen top sp' (freed (e_addr z) c F) tr' (f :: k) t ->
     (t = E -> sp' = Some (e_addr (f_entry f))) -> runs rest tr' Q) ->
  runs (replace_child (Some (e_addr z)) (Some (rootp t));;
        (p ← ld rb_parent (Some (e_addr z)); st (set_parent p) (Some (rootp t)));;
        rbtree_node_init (Some (e_addr z));; rest) tr Q.
Proof.
  intros Hr HQ. destruct Hr as [Hh Hn Hrt (n & Hs & Hc & Hp) Hst Hf]. destruct tr as [m rt s]. simpl in *. subst s rt.
  assert (Hn' : kept (NoDup (sen :: ctx_addrs (f :: k) ++ addrs t))).
  { unfold kept. destruct side; simpl in Hn; rewrite ?app_nil_r in Hn; by apply (nodup_drop (e_addr z) (sen :: _)). }
  destruct f as [[] cf xf sf], side, t as [|ct lt xt rt]; simpl in *; hold_destruct; nodup_destruct;
    unfold replace_child; repeat run_mem; unfold rbtree_node_init; repeat run_mem.
  all: eapply HQ; [|simpl; first [discriminate|intros _; reflexivity]].
  all: rewrite ?app_nil_r in *.
  all: rebuild_freed z.
Qed.

Definition all_left (k : list frame) : Prop := Forall (fun f => f_left f = true) k.

(** The smallest node [m] above [z] takes the place of [z], and its right child
    its own place. *)
Lemma run_transplant {A} tr k k2 c l z cm m t (rest : RB A) (Q : A -> rbtree -> Prop) :
  reps sen top sp F tr (k2 ++ mk_frame false c z l :: k) (T cm E m t) -> all_left k2 -> l <> E ->
  (forall tr' sp', reps sen top sp' (freed (e_addr z) c F) tr' (k2 ++ mk_frame false c m l :: k) t ->
     (t = E -> sp' = cpar top (k2 ++ mk_frame false c m l :: k)) -> runs rest tr' Q) ->
  runs (replace_child (Some (e_addr m)) (Some (rootp t));;
        delete_transplant (Some (e_addr z)) (Some (e_addr m)) (Some (rootp t));;
        rbtree_node_init (Some (e_addr z));; rest) tr Q.
Proof.
  intros Hr Hleft Hl HQ. destruct Hr as [Hh Hn Hrt (n & Hs & Hc & Hp) Hst Hf]. destruct tr as [mem rt s]. simpl in *. subst s rt.
  destruct l as [|cl ll xl lr]; [done|]. clear Hl.
  assert (Hn' : kept (NoDup (sen :: ctx_addrs (k2 ++ mk_frame false c m (T cl ll xl lr) :: k) ++ addrs t))).
  { assert (P : sen :: ctx_addrs (k2 ++ mk_frame false c z (T cl ll xl lr) :: k) ++ addrs (T cm E m t) ≡ₚ
       e_addr z :: sen :: ctx_addrs (k2 ++ mk_frame false c m (T cl ll xl lr) :: k) ++ addrs t)
      by (rewrite !ctx_addrs_app; simpl; solve_Permutation).
    rewrite P in Hn. by apply list.NoDup_cons in Hn as [_ Hn]. }
  destruct k2 as [|[f2l f2c x2 s2] k3]; [|apply Forall_cons_iff in Hleft as [Hf2 Hleft]; simpl in Hf2; subst f2l;
    destruct k3 as [|[gl gc xg sg] k3 _] using rev_ind; [|apply List.Forall_app in Hleft as [_ Hg%Forall_inv]; simpl in Hg; subst gl]].
  - simpl in *. destruct k as [|[[] ck xk sk] k], t as [|ct lt xt rt]; simpl in *; hold_destruct; nodup_destruct;
      unfold delete_transplant; run_unlink_code.
    all: eapply HQ; [|simpl; first [discriminate|intros _; reflexivity]].
    all: rewrite ?app_nil_r in *; rebuild_freed z.
  - simpl in *. destruct k as [|[[] ck xk sk] k], t as [|ct lt xt rt]; simpl in *; hold_destruct; nodup_destruct;
      unfold delete_transplant; run_unlink_code.
    all: eapply HQ; [|simpl; first [discriminate|intros _; reflexivity]].
    all: rewrite ?app_nil_r in *; rebuild_freed z.
  - assert (Ek : forall K, (k3 ++ [mk_frame true gc xg sg]) ++ K = k3 ++ mk_frame true gc xg sg :: K) by (intros; by rewrite <- app_assoc).
    simpl in *. rewrite Ek in Hh, Hn, Hn'. setoid_rewrite Ek in HQ. rewrite Ek in Hf. 
    rewrite !ctx_addrs_app in Hn, Hn'. setoid_rewrite ctx_addrs_app in Hf. rewrite !cpar_app, !ctx_nodes_app in Hh.
    rewrite Ek, croot_app. simpl in *.
    destruct k as [|[[] ck xk sk] k], t as [|ct lt xt rt]; simpl in *; hold_destruct; nodup_destruct;
      unfold delete_transplant; run_unlink_code.
    all: eapply HQ; [|simpl; first [discriminate|intros _; reflexivity]].
    all: rewrite ?app_nil_r in *; rebuild_freed z.
Qed.

End Unlink.
