(* ===== verification/RbtreeOk.v ===== *)
(** The red-black tree implements a list sorted by key: what rbtree_insert,
    rbtree_delete and rbtree_min do to it. *)

From stdpp Require Import gmap sorting.
From S2P Require Import Prelude State Rbtree RbtreeFacts RbtreeDelete.

Section Min.
Variable sen : positive.
Variable top sp : pointer.
Variable F : positive -> option rbnode.
Local Abbreviation reps := (reps sen top sp F).
Local Abbreviation rootp := (rootp sen).

(** The leftmost node of a subtree. *)
Definition leftmost (tr : rbtree) (k : list frame) (t : tree) (p : pointer) : Prop :=
  exists k2 c m r, p = Some (e_addr m) /\ t = plug k2 (T c E m r) /\ all_left k2 /\ reps tr (k2 ++ k) (T c E m r).

Lemma plug_app k k' t : plug (k ++ k') t = plug k' (plug k t).
Proof. unfold plug. by rewrite foldl_app. Qed.

Definition min_inv (tr0 : rbtree) (k : list frame) (t : tree) (d : nat) (node : pointer) (tr : rbtree) : Prop :=
  tr = tr0 /\ exists k2 c l x r, node = Some (e_addr x) /\ t = plug k2 (T c l x r) /\ all_left k2 /\
    reps tr0 (k2 ++ k) (T c l x r) /\ d = tsize (T c l x r).

Lemma run_node_min tr k c l x r :
  reps tr k (T c l x r) ->
  runs (rbtree_node_min (Some (e_addr x))) tr (fun p tr' => tr' = tr /\ leftmost tr k (T c l x r) p).
Proof.
  intros H. pose proof (reps_size _ _ _ _ _ _ _ H) as Hsz. rewrite length_app, <- tsize_addrs in Hsz.
  unfold rbtree_node_min. apply runs_bind, runs_gets. apply runs_bind, runs_gets. rewrite (rp_sentinel _ _ _ _ _ _ _ H).
  eapply (runs_iterate _ (min_inv tr k (T c l x r))).
  2: { split; [done|]. exists [], c, l, x, r. split_and!; try done. apply List.Forall_nil. } 2: unfold walk_fuel; lia.
  clear -sen top sp F. intros d node tr' (-> & k2 & c2 & l2 & x2 & r2 & -> & Ht & Hk & H & ->).
  apply runs_bind. eapply run_ld; [exact H|]. simpl. apply runs_ret. apply reps_down_left in H as H'.
  destruct l2 as [|c3 l3 x3 r3]; simpl.
  - rewrite ptr_eqb_refl. split; [done|]. by exists k2, c2, x2, r2.
  - rewrite ptr_eqb_ne by (pose proof (rp_nodup _ _ _ _ _ _ _ H') as Hn; simpl in Hn; nodup_destruct; notin).
    exists (tsize (T c3 l3 x3 r3)). split; [simpl; lia|]. split; [done|].
    exists (mk_frame true c2 x2 r2 :: k2), c3, l3, x3, r3. split_and!; try done. by constructor.
Qed.

End Min.

Lemma before_left k : all_left k -> before k = [].
Proof. induction 1 as [|f k Hf _ IH]; simpl; [done|]. by rewrite IH, Hf. Qed.

(** rbtree_min finds the first entry. *)
Lemma run_rbtree_min sen F l tr :
  rb_ok sen F l tr -> runs rbtree_min tr (fun p tr' => tr' = tr /\ p = e_addr <$> head l).
Proof.
  intros (top & sp & t & H & <- & _ & _). unfold rbtree_min. apply runs_bind, runs_gets. apply runs_bind, runs_gets.
  rewrite (rp_root _ _ _ _ _ _ _ H), (rp_sentinel _ _ _ _ _ _ _ H). simpl. destruct t as [|c lt x r]; simpl.
  - rewrite ptr_eqb_refl. by apply runs_ret.
  - rewrite ptr_eqb_ne by (pose proof (rp_nodup _ _ _ _ _ _ _ H) as Hn; simpl in Hn; nodup_destruct; notin). cbv iota.
    eapply runs_mono; [by eapply run_node_min|]. intros p tr' (-> & k2 & c2 & m & r2 & -> & Ht & Hk & _). split; [done|].
    change (inorder lt ++ x :: inorder r) with (inorder (T c lt x r)). by rewrite Ht, inorder_plug, before_left.
Qed.

(** ** Deletion *)

Definition del (a : positive) (l : list entry) : list entry := filter (fun x => e_addr x <> a) l.

Lemma del_notin a l : a ∉ map e_addr l -> del a l = l.
Proof.
  induction l as [|x l IH]; simpl; [done|]. intros [? ?]%not_elem_of_cons. unfold del in *. rewrite filter_cons_True by done. by rewrite IH.
Qed.

Lemma del_mid z l l' : e_addr z ∉ map e_addr (l ++ l') -> del (e_addr z) (l ++ z :: l') = l ++ l'.
Proof.
  rewrite map_app, not_elem_of_app. intros [H1 H2]. unfold del. rewrite list.filter_app, filter_cons_False by naive_solver.
  fold (del (e_addr z) l) (del (e_addr z) l'). by rewrite !del_notin.
Qed.

Lemma del_sorted a l : StronglySorted by_key l -> StronglySorted by_key (del a l).
Proof.
  induction l as [|x l IH]; simpl; [done|]. rewrite StronglySorted_cons. intros [Hx Hl]. unfold del in *. rewrite list.filter_cons.
  case_decide; [|auto]. apply StronglySorted_cons. split; [|auto]. rewrite list.Forall_forall in *.
  intros y [_ Hy]%list_elem_of_filter. auto.
Qed.

Lemma in_plug z t : z ∈ inorder t -> exists k c l r, t = plug k (T c l z r).
Proof.
  induction t as [|c l IHl x r IHr]; simpl; [by intros ?%elem_of_nil|].
  rewrite elem_of_app, elem_of_cons. intros [H|[->|H]].
  - destruct (IHl H) as (k & c' & l' & r' & ->). exists (k ++ [mk_frame true c x r]), c', l', r'. by rewrite plug_app.
  - by exists [], c, l, r.
  - destruct (IHr H) as (k & c' & l' & r' & ->). exists (k ++ [mk_frame false c x l]), c', l', r'. by rewrite plug_app.
Qed.

Lemma cok_entry k2 d c z m s k b n :
  cok (k2 ++ mk_frame d c z s :: k) b n -> cok (k2 ++ mk_frame d c m s :: k) b n.
Proof.
  revert b n. induction k2 as [|[d2 c2 x2 s2] k2 IH]; intros b n H; simpl in *; inversion H; subst; eauto with rb.
Qed.

Section Remove.
Variable sen : positive.
Variable top sp : pointer.
Variable F : positive -> option rbnode.
Local Abbreviation reps := (reps sen top sp F).
Local Abbreviation rootp := (rootp sen).

(** The root, with at most one child. *)
Lemma run_unlink_root tr c z t (side : bool) :
  reps tr [] (if side then T c E z t else T c t z E) ->
  runs (modify (set_root (Some (rootp t)));; rbtree_black (Some (rootp t));; rbtree_node_init (Some (e_addr z))) tr
    (fun _ tr' => RbtreeFacts.reps sen (Some (e_addr z)) sp (freed (e_addr z) c F) tr' [] (recolor false t)).
Proof.
  intros Hr. destruct Hr as [Hh Hn Hrt (n & Hs & Hc & Hp) Hst Hf]. destruct tr as [m rt s]. simpl in *. subst s rt.
  assert (Hn' : kept (NoDup (sen :: addrs t))).
  { unfold kept. destruct side; simpl in Hn; rewrite ?app_nil_r in Hn; by apply (nodup_drop (e_addr z) [sen]). }
  destruct side, t as [|ct lt xt rt]; simpl in *; hold_destruct; nodup_destruct; unfold rbtree_black; run_unlink_code;
    rewrite ?app_nil_r in *; rebuild_freed z.
Qed.

(** What a deletion unlinks. *)
Inductive subst_spec (tr : rbtree) (k : list frame) (c : bool) (l : tree) (z : entry) (r : tree) : pointer * pointer -> Prop :=
| subst_right : l = E -> subst_spec tr k c l z r (Some (e_addr z), Some (rootp r))
| subst_left : r = E -> l <> E -> subst_spec tr k c l z r (Some (e_addr z), Some (rootp l))
| subst_min k2 cm m t :
    l <> E -> r = plug k2 (T cm E m t) -> all_left k2 ->
    reps tr (k2 ++ mk_frame false c z l :: k) (T cm E m t) ->
    subst_spec tr k c l z r (Some (e_addr m), Some (rootp t)).

Lemma run_delete_subst tr k c l z r :
  reps tr k (T c l z r) ->
  runs (delete_subst (Some (e_addr z))) tr (fun p tr' => tr' = tr /\ subst_spec tr k c l z r p).
Proof.
  intros H. unfold delete_subst. apply runs_bind, runs_gets. rewrite (rp_sentinel _ _ _ _ _ _ _ H).
  apply runs_bind. eapply run_ld; [exact H|]. apply runs_bind. eapply run_ld; [exact H|]. simpl.
  destruct l as [|cl ll xl lr]; simpl; [rewrite ptr_eqb_refl; apply runs_ret; split; [done|by constructor]|].
  rewrite ptr_eqb_ne by (pose proof (rp_nodup _ _ _ _ _ _ _ H) as Hn; simpl in Hn; nodup_destruct; notin).
  destruct r as [|cr rl xr rr]; simpl; [rewrite ptr_eqb_refl; apply runs_ret; split; [done|by constructor]|].
  rewrite ptr_eqb_ne by (pose proof (rp_nodup _ _ _ _ _ _ _ H) as Hn; simpl in Hn; nodup_destruct; notin).
  apply runs_bind. apply reps_down_right in H as H'. eapply runs_mono; [by eapply run_node_min|].
  intros p tr' (-> & k2 & cm & m & t & -> & Ht & Hk2 & Hm). apply runs_bind. eapply run_ld; [exact Hm|]. apply runs_ret.
  split; [done|]. by apply (subst_min tr k c _ z _ k2 cm m t).
Qed.

(** After the unlinking. *)
Lemma run_rebalance tr k t (red : bool) c n b :
  reps tr k t -> rbt t c n -> cok k b (if red then n else S n) -> (red = true -> c = false) ->
  (t = E -> k <> [] -> sp = cpar top k) ->
  runs (if red then mret tt else delete_fixup (Some (rootp t))) tr
    (fun _ tr' => exists t', reps tr' [] t' /\ inorder t' = inorder (plug k t) /\ balanced t').
Proof.
  intros H Ht Hk Hc Hsp. destruct red.
  - apply runs_ret. exists (plug k t). split_and!; [by apply reps_plug|done|]. rewrite Hc in Ht by done. by eapply rbt_plug.
  - eapply run_delete_fixup; eauto.
    + unfold short. rewrite (rbt_rootcolor _ _ _ Ht). destruct c; [by eapply rbt_recolor_black|done].
    + pose proof (reps_size _ _ _ _ _ _ _ H) as Hsz. rewrite length_app in Hsz. pose proof (ctx_length k). lia.
Qed.

Lemma rbt_one_child c z t (side : bool) cc n :
  rbt (if side then T c E z t else T c t z E) cc n ->
  exists c0 n0, rbt t c0 n0 /\ n = (if c then n0 else S n0) /\ (c = true -> c0 = false).
Proof.
  destruct side; inversion 1; subst; eexists _, _; (split; [eassumption|]); split; try done; match goal with H : rbt E _ _ |- _ => by inversion H end.
Qed.

End Remove.

Lemma inorder_del k c l z r tr sen top sp F :
  reps sen top sp F tr k (T c l z r) ->
  del (e_addr z) (inorder (plug k (T c l z r))) = before k ++ (inorder l ++ inorder r) ++ after k.
Proof.
  intros H. apply reps_plug in H. pose proof (rp_nodup _ _ _ _ _ _ _ H) as Hn. simpl in Hn. apply list.NoDup_cons in Hn as [_ Hn].
  rewrite <- inorder_addrs in Hn. rewrite inorder_plug in *. simpl in *.
  replace (before k ++ (inorder l ++ z :: inorder r) ++ after k) with
    ((before k ++ inorder l) ++ z :: (inorder r ++ after k)) in * by (by rewrite <- !app_assoc).
  rewrite del_mid; [by rewrite <- !app_assoc|]. rewrite map_app in Hn. simpl in Hn. rewrite <- Permutation_middle in Hn.
  apply list.NoDup_cons in Hn as [Hn _]. by rewrite map_app.
Qed.

(** The two ways a node leaves the tree. *)
Lemma run_delete_one sen top sp F tr k c z t (side : bool) :
  reps sen top sp F tr k (if side then T c E z t else T c t z E) -> balanced (plug k (if side then T c E z t else T c t z E)) ->
  runs (delete_unlink (Some (e_addr z)) (Some (e_addr z)) (Some (rootp sen t))) tr
    (fun _ tr' => exists top' sp' t', reps sen top' sp' (freed (e_addr z) c F) tr' [] t' /\
       inorder t' = before k ++ inorder t ++ after k /\ balanced t').
Proof.
  intros H Hb. apply rbt_unplug in Hb as (b & cc & n & Hk & Ht & Hc).
  destruct (rbt_one_child _ _ _ _ _ _ Ht) as (c0 & n0 & Ht0 & -> & Hc0). unfold delete_unlink.
  apply runs_bind, runs_gets. rewrite (rp_root _ _ _ _ _ _ _ H). destruct k as [|f k]; simpl.
  - replace (rootp sen (if side then T c E z t else T c t z E)) with (e_addr z) by (by destruct side). rewrite ptr_eqb_refl.
    eapply runs_mono; [by eapply run_unlink_root|]. intros [] tr' H'. exists (Some (e_addr z)), sp, (recolor false t).
    split_and!; [done|by rewrite inorder_recolor, app_nil_r|].
    destruct c0; [eexists; by eapply rbt_recolor_black|]. exists n0. destruct t; [done|]. inversion Ht0; subst. by econstructor.
  - rewrite ptr_eqb_ne by (pose proof (rp_nodup _ _ _ _ _ _ _ H) as Hn; destruct side; simpl in Hn; nodup_destruct; notin).
    apply runs_bind. assert (Hred : rt_mem tr !! e_addr z = Some (node_of sen top (f :: k) c (if side then E else t) z (if side then t else E)))
      by (destruct side; by eapply reps_lookup).
    eapply run_ld_mem; [done|]. simpl. rewrite ptr_eqb_refl. eapply run_unlink; [done|]. intros tr' sp' H' Hsp.
    eapply runs_mono; [eapply run_rebalance; eauto|]. intros [] tr2 (t' & Ht' & HL & Hb'). exists top, sp', t'. split_and!; [done| |done].
    by rewrite HL, inorder_plug.
Qed.

Lemma run_delete_two sen top sp F tr k k2 c l z cm m t :
  reps sen top sp F tr (k2 ++ mk_frame false c z l :: k) (T cm E m t) -> all_left k2 -> l <> E ->
  balanced (plug (k2 ++ mk_frame false c z l :: k) (T cm E m t)) ->
  runs (delete_unlink (Some (e_addr z)) (Some (e_addr m)) (Some (rootp sen t))) tr
    (fun _ tr' => exists top' sp' t', reps sen top' sp' (freed (e_addr z) c F) tr' [] t' /\
       inorder t' = inorder (plug (k2 ++ mk_frame false c m l :: k) t) /\ balanced t').
Proof.
  intros H Hk2 Hl Hb. apply rbt_unplug in Hb as (b & cc & n & Hk & Ht & Hc).
  destruct (rbt_one_child cm m t true _ _ Ht) as (c0 & n0 & Ht0 & -> & Hc0). unfold delete_unlink.
  pose proof (rp_nodup _ _ _ _ _ _ _ H) as Hn. rewrite ctx_addrs_app in Hn. simpl in Hn.
  apply runs_bind, runs_gets. rewrite (rp_root _ _ _ _ _ _ _ H), croot_app. simpl.
  rewrite !ptr_eqb_ne by (nodup_destruct; notin). apply runs_bind. eapply run_ld; [exact H|]. simpl.
  eapply run_transplant; [done..|]. intros tr' sp' H' Hsp.
  eapply runs_mono; [eapply run_rebalance; eauto; by eapply cok_entry|].
  intros [] tr2 (t' & Ht' & HL & Hb'). by exists top, sp', t'.
Qed.

Lemma run_rbtree_delete sen F l z tr :
  rb_ok sen F l tr -> z ∈ l ->
  runs (rbtree_delete (Some (e_addr z))) tr
    (fun _ tr' => exists c, rb_ok sen (freed (e_addr z) c F) (del (e_addr z) l) tr').
Proof.
  intros (top & sp & t & H & <- & Hs & Hb) Hz. apply in_plug in Hz as (k & c & lt & rt & ->).
  apply del_sorted with (a := e_addr z) in Hs. apply reps_unplug in H. pose proof (inorder_del _ _ _ _ _ _ _ _ _ _ H) as HL.
  unfold rbtree_delete. apply runs_bind. eapply runs_mono; [by eapply run_delete_subst|].
  intros p tr' (-> & Hp). destruct Hp as [El|Er Hl|k2 cm m t Hl Er Hk2 H']; [subst lt|subst rt|subst rt].
  - eapply runs_mono; [by apply (run_delete_one sen top sp F tr k c z rt true)|]. intros [] tr' (top' & sp' & t' & H' & HL' & Hb').
    exists c, top', sp', t'. split_and!; try done. by rewrite HL', HL.
  - eapply runs_mono; [by apply (run_delete_one sen top sp F tr k c z lt false)|]. intros [] tr' (top' & sp' & t' & H' & HL' & Hb').
    exists c, top', sp', t'. split_and!; try done. by rewrite HL', HL, app_nil_r.
  - eapply runs_mono; [eapply run_delete_two; try done; by rewrite plug_app|].
    intros [] tr2 (top' & sp' & t' & Ht' & HL' & Hb'). exists c, top', sp', t'. split_and!; try done.
    rewrite HL', HL, plug_app, (inorder_plug (_ :: k)), !(inorder_plug k2), (before_left k2 Hk2). simpl.
    rewrite <- ?app_assoc. cbn [app]. by rewrite <- ?app_assoc.
Qed.

(** ** Runs of operations

    A node enters the tree with the key and the data msg_tmo_insert gives it;
    a run starts from rbtree_init. *)

Inductive rb_op := Insert (z : entry) | Delete (z : entry).

Definition rb_exec (o : rb_op) : ST rbtree unit :=
  match o with
  | Insert z =>
      st (fun n => mk_rbnode (rb_left n) (rb_right n) (rb_parent n) (e_key z) (e_data z) (rb_color n)) (Some (e_addr z));;
      rbtree_insert (Some (e_addr z))
  | Delete z => rbtree_delete (Some (e_addr z))
  end.

(** The list the tree stands for. *)
Definition rb_abs (o : rb_op) (l : list entry) : list entry :=
  match o with Insert z => ins z l | Delete z => del (e_addr z) l end.

(** An insertion brings in an allocated node that is not in the tree; a
    deletion names an entry of the tree. *)
Definition rb_legal (m : gmap positive rbnode) (sen : positive) (o : rb_op) (l : list entry) : Prop :=
  match o with
  | Insert z => is_Some (m !! e_addr z) /\ e_addr z ∉ sen :: map e_addr l
  | Delete z => z ∈ l
  end.

Fixpoint rb_legals (m : gmap positive rbnode) (sen : positive) (os : list rb_op) (l : list entry) : Prop :=
  match os with
  | [] => True
  | o :: os => rb_legal m sen o l /\ rb_legals m sen os (rb_abs o l)
  end.

Definition rb_run (os : list rb_op) : ST rbtree unit := each rb_exec os.

Lemma run_set_fields sen F l z tr :
  rb_ok sen F l tr -> is_Some (F (e_addr z)) -> e_addr z ∉ sen :: map e_addr l ->
  runs (st (fun n => mk_rbnode (rb_left n) (rb_right n) (rb_parent n) (e_key z) (e_data z) (rb_color n)) (Some (e_addr z))) tr
    (fun _ tr' => exists n, rt_mem tr' !! e_addr z = Some n /\ rb_key n = e_key z /\ rb_data n = e_data z /\
       rb_ok sen (fun b => if decide (b = e_addr z) then Some n else F b) l tr').
Proof.
  intros (top & sp & t & H & <- & Hs & Hb) [n Hn] Hin. rewrite inorder_addrs in Hin.
  destruct H as [Hh Hnd Hrt (ns & Hsen & Hc & Hp) Hst Hf]. simpl in *. rewrite <- (Hf _ Hin) in Hn.
  unfold runs, st. rewrite Hn. eexists. simpl. rewrite lookup_insert_eq. split_and!; [done..|].
  exists top, sp, t. split_and!; try done. apply not_elem_of_cons in Hin as [Hz1 Hz2].
  constructor; simpl; try done.
  - by apply holds_insert_ne; [rewrite nodes_of_addrs|].
  - exists ns. by rewrite lookup_insert_ne.
  - intros b Hb'. case_decide; subst; [by rewrite lookup_insert_eq|]. rewrite lookup_insert_ne by done. auto.
Qed.

Definition rb_inv (m : gmap positive rbnode) (sen : positive) (l : list entry) (tr : rbtree) : Prop :=
  exists F, rb_ok sen F l tr /\ forall a, is_Some (m !! a) -> is_Some (F a).

Lemma run_rb_exec m sen o l tr :
  rb_inv m sen l tr -> rb_legal m sen o l -> runs (rb_exec o) tr (fun _ => rb_inv m sen (rb_abs o l)).
Proof.
  intros (F & H & HF) Hl. destruct o as [z|z]; simpl in *.
  - destruct Hl as [Hm Hin]. apply runs_bind. eapply runs_mono; [by eapply run_set_fields; eauto|].
    intros [] tr' (n & Hn & Hk & Hd & H'). eapply runs_mono; [by eapply run_rbtree_insert|].
    intros [] tr2 H2. eexists. split; [exact H2|]. intros a Ha. simpl. case_decide; eauto.
  - eapply runs_mono; [by eapply run_rbtree_delete|]. intros [] tr' (c & H'). eexists. split; [exact H'|].
    intros a Ha. unfold freed. simpl. case_decide; eauto.
Qed.

Lemma rbtree_init_inv m sen tr : rbtree_init m sen = Some tr -> rb_inv m sen [] tr.
Proof.
  unfold rbtree_init, rbtree_node_init, rbtree_black, st, mbind, ST_bind. simpl.
  destruct (m !! sen) as [n|]; [|done]. simpl. rewrite lookup_insert_eq. intros [= <-].
  exists (fun a => m !! a). split; [|done]. exists None, None, E. split_and!; try done; [|constructor|by exists 0%nat; constructor].
  constructor; simpl; try done.
  - constructor.
  - apply NoDup_singleton.
  - eexists. by rewrite lookup_insert_eq.
  - intros a Ha. rewrite !lookup_insert_ne by set_solver. done.
Qed.

Lemma run_rb_run m sen os l tr :
  rb_inv m sen l tr -> rb_legals m sen os l ->
  runs (rb_run os) tr (fun _ => rb_inv m sen (foldl (fun l o => rb_abs o l) l os)).
Proof.
  unfold rb_run. revert l tr. induction os as [|o os IH]; intros l tr H; simpl; [by intros _; apply runs_ret|].
  intros [Ho Hos]. apply runs_bind. eapply runs_mono; [by apply run_rb_exec|]. intros [] tr' H'. by apply IH.
Qed.

(** C36. From rbtree_init, every sequence of insertions of fresh nodes and
    deletions of nodes of the tree runs to its end without touching NULL or
    an unallocated node; the tree then holds, in order, the list that sorted
    insertion (behind equal keys) and removal give, it satisfies the
    red-black invariant, and rbtree_min returns the first entry (NULL when
    there is none). *)
Theorem rbtree_refines_sorted_list m sen os tr :
  rbtree_init m sen = Some tr -> rb_legals m sen os [] ->
  let l := foldl (fun l o => rb_abs o l) [] os in
  exists tr', rb_run os tr = Some (tt, tr') /\ (exists F, rb_ok sen F l tr') /\
    rbtree_min tr' = Some (e_addr <$> head l, tr').
Proof.
  intros Hi Hl l. apply rbtree_init_inv in Hi. apply (run_rb_run _ _ _ _ _ Hi) in Hl.
  apply runs_elim in Hl as ([] & tr' & Hr & F & H & _). exists tr'. split_and!; [done|by exists F|].
  apply run_rbtree_min, runs_elim in H as (p & ? & Hp & -> & ->). done.
Qed.

Definition blank : rbnode := mk_rbnode None None None 0 None true.
Definition demo_mem : gmap positive rbnode := list_to_map [(1, blank); (2, blank); (3, blank); (4, blank)]%positive.
Definition demo_entry (a : positive) (key : Z) : entry := mk_entry a key (Some a).
Definition demo_ops : list rb_op :=
  [Insert (demo_entry 2 30); Insert (demo_entry 3 10); Insert (demo_entry 4 20); Delete (demo_entry 3 10);
   Insert (demo_entry 3 20)].

Lemma rbtree_refines_sorted_list_witness :
  exists tr tr', rbtree_init demo_mem 1 = Some tr /\ rb_run demo_ops tr = Some (tt, tr') /\ rbtree_min tr' = Some (Some 4%positive, tr').
Proof.
  destruct (rbtree_init demo_mem 1) as [tr|] eqn:Hi; [|vm_compute in Hi; discriminate Hi].
  destruct (rbtree_refines_sorted_list demo_mem 1 demo_ops tr Hi) as (tr' & Hr & _ & Hm).
  - simpl. split_and!; try done; try (eexists; reflexivity); try (by apply (bool_decide_unpack _); vm_compute).
    all: cbn -[elem_of]. all: repeat (first [left; reflexivity|right]).
  - exists tr, tr'. split; [reflexivity|]. split; [exact Hr|exact Hm].
Defined.
