(* ===== verification/World.v ===== *)
(** The shared store of the proxy: messages, connections, pools, the free
    lists, the timeout tree and the counters, with the environment that
    answers the system calls.

    Messages and connections are reached through pointers (optional
    addresses).  A message that was put back on its free list is not in the
    store any more, so that using it is a fault, as is following NULL; a
    connection stays in the store, as the event loop may still look at one
    that was closed.  A queue linked through the fields of its elements is
    the list of their addresses. *)

From stdpp Require Import gmap.
From S2P Require Import Prelude CArray Mbuf Message Parser RedisReq RedisRsp Memcache Pool State Rbtree.

(** ** Messages *)

(** msg->parser and msg->state. *)
Inductive fsm :=
| NoParser
| RedisReqFsm (s : RedisReq.req_state)
| RedisRspFsm (s : RedisRsp.Rsp.rsp_state)
| McReqFsm (s : Memcache.McReq.mcreq_state)
| McRspFsm (s : Memcache.McRsp.mcrsp_state).

(** The handlers fragment, reply, add_auth, failure, pre_coalesce and
    post_coalesce come in two sets. *)
Inductive proto := Redis | Memcache.

Record times := mk_times {
  t_recv_client : Z;
  t_send_server : Z;
  t_recv_server : Z;
  t_send_client : Z
}.

Record msg := mk_msg {
  m_id : Z;
  m_peer : pointer;                   (* message peer *)
  m_owner : pointer;                  (* connection *)
  m_mhdr : list mbuf;
  m_mlen : Z;
  m_start_ts : Z;
  m_fsm : fsm;                        (* parser and its state *)
  m_pos : option Z;                   (* offset in the last mbuf *)
  m_result : parse_result;
  m_proto : option proto;             (* the protocol handlers, NULL or set *)
  m_regs : regs;                      (* type, keys, narg, ..., quit, noreply, noforward *)
  m_frag_owner : pointer;
  m_nfrag : Z;
  m_nfrag_done : Z;
  m_frag_id : Z;
  m_frag_seq : option (list pointer); (* the block, NULL or allocated *)
  m_err : Z;
  m_error : bool;
  m_ferror : bool;
  m_request : bool;
  m_done : bool;
  m_fdone : bool;
  m_swallow : bool;
  m_redis : bool;
  m_times : times
}.

Definition t_set_recv_client v (x : times) : times := mk_times v (t_send_server x) (t_recv_server x)
  (t_send_client x).
Definition t_set_send_server v (x : times) : times := mk_times (t_recv_client x) v (t_recv_server x)
  (t_send_client x).
Definition t_set_recv_server v (x : times) : times := mk_times (t_recv_client x) (t_send_server x) v
  (t_send_client x).
Definition t_set_send_client v (x : times) : times := mk_times (t_recv_client x) (t_send_server x)
  (t_recv_server x) v.

Definition m_set_id v (x : msg) : msg := mk_msg v (m_peer x) (m_owner x) (m_mhdr x) (m_mlen x) (m_start_ts x)
  (m_fsm x) (m_pos x) (m_result x) (m_proto x) (m_regs x) (m_frag_owner x) (m_nfrag x) (m_nfrag_done x)
  (m_frag_id x) (m_frag_seq x) (m_err x) (m_error x) (m_ferror x) (m_request x) (m_done x) (m_fdone x)
  (m_swallow x) (m_redis x) (m_times x).
Definition m_set_peer v (x : msg) : msg := mk_msg (m_id x) v (m_owner x) (m_mhdr x) (m_mlen x) (m_start_ts x)
  (m_fsm x) (m_pos x) (m_result x) (m_proto x) (m_regs x) (m_frag_owner x) (m_nfrag x) (m_nfrag_done x)
  (m_frag_id x) (m_frag_seq x) (m_err x) (m_error x) (m_ferror x) (m_request x) (m_done x) (m_fdone x)
  (m_swallow x) (m_redis x) (m_times x).
Definition m_set_owner v (x : msg) : msg := mk_msg (m_id x) (m_peer x) v (m_mhdr x) (m_mlen x) (m_start_ts x)
  (m_fsm x) (m_pos x) (m_result x) (m_proto x) (m_regs x) (m_frag_owner x) (m_nfrag x) (m_nfrag_done x)
  (m_frag_id x) (m_frag_seq x) (m_err x) (m_error x) (m_ferror x) (m_request x) (m_done x) (m_fdone x)
  (m_swallow x) (m_redis x) (m_times x).
Definition m_set_mhdr v (x : msg) : msg := mk_msg (m_id x) (m_peer x) (m_owner x) v (m_mlen x) (m_start_ts x)
  (m_fsm x) (m_pos x) (m_result x) (m_proto x) (m_regs x) (m_frag_owner x) (m_nfrag x) (m_nfrag_done x)
  (m_frag_id x) (m_frag_seq x) (m_err x) (m_error x) (m_ferror x) (m_request x) (m_done x) (m_fdone x)
  (m_swallow x) (m_redis x) (m_times x).
Definition m_set_mlen v (x : msg) : msg := mk_msg (m_id x) (m_peer x) (m_owner x) (m_mhdr x) v (m_start_ts x)
  (m_fsm x) (m_pos x) (m_result x) (m_proto x) (m_regs x) (m_frag_owner x) (m_nfrag x) (m_nfrag_done x)
  (m_frag_id x) (m_frag_seq x) (m_err x) (m_error x) (m_ferror x) (m_request x) (m_done x) (m_fdone x)
  (m_swallow x) (m_redis x) (m_times x).
Definition m_set_start_ts v (x : msg) : msg := mk_msg (m_id x) (m_peer x) (m_owner x) (m_mhdr x) (m_mlen x) v
  (m_fsm x) (m_pos x) (m_result x) (m_proto x) (m_regs x) (m_frag_owner x) (m_nfrag x) (m_nfrag_done x)
  (m_frag_id x) (m_frag_seq x) (m_err x) (m_error x) (m_ferror x) (m_request x) (m_done x) (m_fdone x)
  (m_swallow x) (m_redis x) (m_times x).
Definition m_set_fsm v (x : msg) : msg := mk_msg (m_id x) (m_peer x) (m_owner x) (m_mhdr x) (m_mlen x)
  (m_start_ts x) v (m_pos x) (m_result x) (m_proto x) (m_regs x) (m_frag_owner x) (m_nfrag x) (m_nfrag_done x)
  (m_frag_id x) (m_frag_seq x) (m_err x) (m_error x) (m_ferror x) (m_request x) (m_done x) (m_fdone x)
  (m_swallow x) (m_redis x) (m_times x).
Definition m_set_pos v (x : msg) : msg := mk_msg (m_id x) (m_peer x) (m_owner x) (m_mhdr x) (m_mlen x)
  (m_start_ts x) (m_fsm x) v (m_result x) (m_proto x) (m_regs x) (m_frag_owner x) (m_nfrag x) (m_nfrag_done x)
  (m_frag_id x) (m_frag_seq x) (m_err x) (m_error x) (m_ferror x) (m_request x) (m_done x) (m_fdone x)
  (m_swallow x) (m_redis x) (m_times x).
Definition m_set_result v (x : msg) : msg := mk_msg (m_id x) (m_peer x) (m_owner x) (m_mhdr x) (m_mlen x)
  (m_start_ts x) (m_fsm x) (m_pos x) v (m_proto x) (m_regs x) (m_frag_owner x) (m_nfrag x) (m_nfrag_done x)
  (m_frag_id x) (m_frag_seq x) (m_err x) (m_error x) (m_ferror x) (m_request x) (m_done x) (m_fdone x)
  (m_swallow x) (m_redis x) (m_times x).
Definition m_set_proto v (x : msg) : msg := mk_msg (m_id x) (m_peer x) (m_owner x) (m_mhdr x) (m_mlen x)
  (m_start_ts x) (m_fsm x) (m_pos x) (m_result x) v (m_regs x) (m_frag_owner x) (m_nfrag x) (m_nfrag_done x)
  (m_frag_id x) (m_frag_seq x) (m_err x) (m_error x) (m_ferror x) (m_request x) (m_done x) (m_fdone x)
  (m_swallow x) (m_redis x) (m_times x).
Definition m_set_regs v (x : msg) : msg := mk_msg (m_id x) (m_peer x) (m_owner x) (m_mhdr x) (m_mlen x)
  (m_start_ts x) (m_fsm x) (m_pos x) (m_result x) (m_proto x) v (m_frag_owner x) (m_nfrag x) (m_nfrag_done x)
  (m_frag_id x) (m_frag_seq x) (m_err x) (m_error x) (m_ferror x) (m_request x) (m_done x) (m_fdone x)
  (m_swallow x) (m_redis x) (m_times x).
Definition m_set_frag_owner v (x : msg) : msg := mk_msg (m_id x) (m_peer x) (m_owner x) (m_mhdr x) (m_mlen x)
  (m_start_ts x) (m_fsm x) (m_pos x) (m_result x) (m_proto x) (m_regs x) v (m_nfrag x) (m_nfrag_done x)
  (m_frag_id x) (m_frag_seq x) (m_err x) (m_error x) (m_ferror x) (m_request x) (m_done x) (m_fdone x)
  (m_swallow x) (m_redis x) (m_times x).
Definition m_set_nfrag v (x : msg) : msg := mk_msg (m_id x) (m_peer x) (m_owner x) (m_mhdr x) (m_mlen x)
  (m_start_ts x) (m_fsm x) (m_pos x) (m_result x) (m_proto x) (m_regs x) (m_frag_owner x) v (m_nfrag_done x)
  (m_frag_id x) (m_frag_seq x) (m_err x) (m_error x) (m_ferror x) (m_request x) (m_done x) (m_fdone x)
  (m_swallow x) (m_redis x) (m_times x).
Definition m_set_nfrag_done v (x : msg) : msg := mk_msg (m_id x) (m_peer x) (m_owner x) (m_mhdr x) (m_mlen x)
  (m_start_ts x) (m_fsm x) (m_pos x) (m_result x) (m_proto x) (m_regs x) (m_frag_owner x) (m_nfrag x) v
  (m_frag_id x) (m_frag_seq x) (m_err x) (m_error x) (m_ferror x) (m_request x) (m_done x) (m_fdone x)
  (m_swallow x) (m_redis x) (m_times x).
Definition m_set_frag_id v (x : msg) : msg := mk_msg (m_id x) (m_peer x) (m_owner x) (m_mhdr x) (m_mlen x)
  (m_start_ts x) (m_fsm x) (m_pos x) (m_result x) (m_proto x) (m_regs x) (m_frag_owner x) (m_nfrag x)
  (m_nfrag_done x) v (m_frag_seq x) (m_err x) (m_error x) (m_ferror x) (m_request x) (m_done x) (m_fdone x)
  (m_swallow x) (m_redis x) (m_times x).
Definition m_set_frag_seq v (x : msg) : msg := mk_msg (m_id x) (m_peer x) (m_owner x) (m_mhdr x) (m_mlen x)
  (m_start_ts x) (m_fsm x) (m_pos x) (m_result x) (m_proto x) (m_regs x) (m_frag_owner x) (m_nfrag x)
  (m_nfrag_done x) (m_frag_id x) v (m_err x) (m_error x) (m_ferror x) (m_request x) (m_done x) (m_fdone x)
  (m_swallow x) (m_redis x) (m_times x).
Definition m_set_err v (x : msg) : msg := mk_msg (m_id x) (m_peer x) (m_owner x) (m_mhdr x) (m_mlen x)
  (m_start_ts x) (m_fsm x) (m_pos x) (m_result x) (m_proto x) (m_regs x) (m_frag_owner x) (m_nfrag x)
  (m_nfrag_done x) (m_frag_id x) (m_frag_seq x) v (m_error x) (m_ferror x) (m_request x) (m_done x) (m_fdone
  x) (m_swallow x) (m_redis x) (m_times x).
Definition m_set_error v (x : msg) : msg := mk_msg (m_id x) (m_peer x) (m_owner x) (m_mhdr x) (m_mlen x)
  (m_start_ts x) (m_fsm x) (m_pos x) (m_result x) (m_proto x) (m_regs x) (m_frag_owner x) (m_nfrag x)
  (m_nfrag_done x) (m_frag_id x) (m_frag_seq x) (m_err x) v (m_ferror x) (m_request x) (m_done x) (m_fdone x)
  (m_swallow x) (m_redis x) (m_times x).
Definition m_set_ferror v (x : msg) : msg := mk_msg (m_id x) (m_peer x) (m_owner x) (m_mhdr x) (m_mlen x)
  (m_start_ts x) (m_fsm x) (m_pos x) (m_result x) (m_proto x) (m_regs x) (m_frag_owner x) (m_nfrag x)
  (m_nfrag_done x) (m_frag_id x) (m_frag_seq x) (m_err x) (m_error x) v (m_request x) (m_done x) (m_fdone x)
  (m_swallow x) (m_redis x) (m_times x).
Definition m_set_request v (x : msg) : msg := mk_msg (m_id x) (m_peer x) (m_owner x) (m_mhdr x) (m_mlen x)
  (m_start_ts x) (m_fsm x) (m_pos x) (m_result x) (m_proto x) (m_regs x) (m_frag_owner x) (m_nfrag x)
  (m_nfrag_done x) (m_frag_id x) (m_frag_seq x) (m_err x) (m_error x) (m_ferror x) v (m_done x) (m_fdone x)
  (m_swallow x) (m_redis x) (m_times x).
Definition m_set_done v (x : msg) : msg := mk_msg (m_id x) (m_peer x) (m_owner x) (m_mhdr x) (m_mlen x)
  (m_start_ts x) (m_fsm x) (m_pos x) (m_result x) (m_proto x) (m_regs x) (m_frag_owner x) (m_nfrag x)
  (m_nfrag_done x) (m_frag_id x) (m_frag_seq x) (m_err x) (m_error x) (m_ferror x) (m_request x) v (m_fdone x)
  (m_swallow x) (m_redis x) (m_times x).
Definition m_set_fdone v (x : msg) : msg := mk_msg (m_id x) (m_peer x) (m_owner x) (m_mhdr x) (m_mlen x)
  (m_start_ts x) (m_fsm x) (m_pos x) (m_result x) (m_proto x) (m_regs x) (m_frag_owner x) (m_nfrag x)
  (m_nfrag_done x) (m_frag_id x) (m_frag_seq x) (m_err x) (m_error x) (m_ferror x) (m_request x) (m_done x) v
  (m_swallow x) (m_redis x) (m_times x).
Definition m_set_swallow v (x : msg) : msg := mk_msg (m_id x) (m_peer x) (m_owner x) (m_mhdr x) (m_mlen x)
  (m_start_ts x) (m_fsm x) (m_pos x) (m_result x) (m_proto x) (m_regs x) (m_frag_owner x) (m_nfrag x)
  (m_nfrag_done x) (m_frag_id x) (m_frag_seq x) (m_err x) (m_error x) (m_ferror x) (m_request x) (m_done x)
  (m_fdone x) v (m_redis x) (m_times x).
Definition m_set_redis v (x : msg) : msg := mk_msg (m_id x) (m_peer x) (m_owner x) (m_mhdr x) (m_mlen x)
  (m_start_ts x) (m_fsm x) (m_pos x) (m_result x) (m_proto x) (m_regs x) (m_frag_owner x) (m_nfrag x)
  (m_nfrag_done x) (m_frag_id x) (m_frag_seq x) (m_err x) (m_error x) (m_ferror x) (m_request x) (m_done x)
  (m_fdone x) (m_swallow x) v (m_times x).
Definition m_set_times v (x : msg) : msg := mk_msg (m_id x) (m_peer x) (m_owner x) (m_mhdr x) (m_mlen x)
  (m_start_ts x) (m_fsm x) (m_pos x) (m_result x) (m_proto x) (m_regs x) (m_frag_owner x) (m_nfrag x)
  (m_nfrag_done x) (m_frag_id x) (m_frag_seq x) (m_err x) (m_error x) (m_ferror x) (m_request x) (m_done x)
  (m_fdone x) (m_swallow x) (m_redis x) v.

Definition m_upd_regs (f : regs -> regs) (x : msg) : msg := m_set_regs (f (m_regs x)) x.
Definition m_upd_times (f : times -> times) (x : msg) : msg := m_set_times (f (m_times x)) x.

(** ** Connections *)

Inductive owner := NoOwner | OwnPool (p : nat) | OwnServer (p s : nat).

Record conn := mk_conn {
  c_owner : owner;
  c_sd : Z;
  c_imsg_q : list positive;           (* incoming request Q *)
  c_omsg_q : list positive;           (* outstanding request Q *)
  c_rmsg : pointer;                   (* message being received *)
  c_smsg : pointer;                   (* message being sent *)
  c_recv_bytes : Z;
  c_send_bytes : Z;
  c_events : Z;
  c_err : Z;
  c_recv_active : bool;
  c_recv_ready : bool;
  c_send_active : bool;
  c_send_ready : bool;
  c_client : bool;
  c_proxy : bool;
  c_connecting : bool;
  c_connected : bool;
  c_eof : bool;
  c_done : bool;
  c_redis : bool;
  c_authenticated : bool
}.

Definition c_set_owner v (x : conn) : conn := mk_conn v (c_sd x) (c_imsg_q x) (c_omsg_q x) (c_rmsg x) (c_smsg
  x) (c_recv_bytes x) (c_send_bytes x) (c_events x) (c_err x) (c_recv_active x) (c_recv_ready x)
  (c_send_active x) (c_send_ready x) (c_client x) (c_proxy x) (c_connecting x) (c_connected x) (c_eof x)
  (c_done x) (c_redis x) (c_authenticated x).
Definition c_set_sd v (x : conn) : conn := mk_conn (c_owner x) v (c_imsg_q x) (c_omsg_q x) (c_rmsg x) (c_smsg
  x) (c_recv_bytes x) (c_send_bytes x) (c_events x) (c_err x) (c_recv_active x) (c_recv_ready x)
  (c_send_active x) (c_send_ready x) (c_client x) (c_proxy x) (c_connecting x) (c_connected x) (c_eof x)
  (c_done x) (c_redis x) (c_authenticated x).
Definition c_set_imsg_q v (x : conn) : conn := mk_conn (c_owner x) (c_sd x) v (c_omsg_q x) (c_rmsg x) (c_smsg
  x) (c_recv_bytes x) (c_send_bytes x) (c_events x) (c_err x) (c_recv_active x) (c_recv_ready x)
  (c_send_active x) (c_send_ready x) (c_client x) (c_proxy x) (c_connecting x) (c_connected x) (c_eof x)
  (c_done x) (c_redis x) (c_authenticated x).
Definition c_set_omsg_q v (x : conn) : conn := mk_conn (c_owner x) (c_sd x) (c_imsg_q x) v (c_rmsg x) (c_smsg
  x) (c_recv_bytes x) (c_send_bytes x) (c_events x) (c_err x) (c_recv_active x) (c_recv_ready x)
  (c_send_active x) (c_send_ready x) (c_client x) (c_proxy x) (c_connecting x) (c_connected x) (c_eof x)
  (c_done x) (c_redis x) (c_authenticated x).
Definition c_set_rmsg v (x : conn) : conn := mk_conn (c_owner x) (c_sd x) (c_imsg_q x) (c_omsg_q x) v (c_smsg
  x) (c_recv_bytes x) (c_send_bytes x) (c_events x) (c_err x) (c_recv_active x) (c_recv_ready x)
  (c_send_active x) (c_send_ready x) (c_client x) (c_proxy x) (c_connecting x) (c_connected x) (c_eof x)
  (c_done x) (c_redis x) (c_authenticated x).
Definition c_set_smsg v (x : conn) : conn := mk_conn (c_owner x) (c_sd x) (c_imsg_q x) (c_omsg_q x) (c_rmsg x)
  v (c_recv_bytes x) (c_send_bytes x) (c_events x) (c_err x) (c_recv_active x) (c_recv_ready x) (c_send_active
  x) (c_send_ready x) (c_client x) (c_proxy x) (c_connecting x) (c_connected x) (c_eof x) (c_done x) (c_redis
  x) (c_authenticated x).
Definition c_set_recv_bytes v (x : conn) : conn := mk_conn (c_owner x) (c_sd x) (c_imsg_q x) (c_omsg_q x)
  (c_rmsg x) (c_smsg x) v (c_send_bytes x) (c_events x) (c_err x) (c_recv_active x) (c_recv_ready x)
  (c_send_active x) (c_send_ready x) (c_client x) (c_proxy x) (c_connecting x) (c_connected x) (c_eof x)
  (c_done x) (c_redis x) (c_authenticated x).
Definition c_set_send_bytes v (x : conn) : conn := mk_conn (c_owner x) (c_sd x) (c_imsg_q x) (c_omsg_q x)
  (c_rmsg x) (c_smsg x) (c_recv_bytes x) v (c_events x) (c_err x) (c_recv_active x) (c_recv_ready x)
  (c_send_active x) (c_send_ready x) (c_client x) (c_proxy x) (c_connecting x) (c_connected x) (c_eof x)
  (c_done x) (c_redis x) (c_authenticated x).
Definition c_set_events v (x : conn) : conn := mk_conn (c_owner x) (c_sd x) (c_imsg_q x) (c_omsg_q x) (c_rmsg
  x) (c_smsg x) (c_recv_bytes x) (c_send_bytes x) v (c_err x) (c_recv_active x) (c_recv_ready x)
  (c_send_active x) (c_send_ready x) (c_client x) (c_proxy x) (c_connecting x) (c_connected x) (c_eof x)
  (c_done x) (c_redis x) (c_authenticated x).
Definition c_set_err v (x : conn) : conn := mk_conn (c_owner x) (c_sd x) (c_imsg_q x) (c_omsg_q x) (c_rmsg x)
  (c_smsg x) (c_recv_bytes x) (c_send_bytes x) (c_events x) v (c_recv_active x) (c_recv_ready x)
  (c_send_active x) (c_send_ready x) (c_client x) (c_proxy x) (c_connecting x) (c_connected x) (c_eof x)
  (c_done x) (c_redis x) (c_authenticated x).
Definition c_set_recv_active v (x : conn) : conn := mk_conn (c_owner x) (c_sd x) (c_imsg_q x) (c_omsg_q x)
  (c_rmsg x) (c_smsg x) (c_recv_bytes x) (c_send_bytes x) (c_events x) (c_err x) v (c_recv_ready x)
  (c_send_active x) (c_send_ready x) (c_client x) (c_proxy x) (c_connecting x) (c_connected x) (c_eof x)
  (c_done x) (c_redis x) (c_authenticated x).
Definition c_set_recv_ready v (x : conn) : conn := mk_conn (c_owner x) (c_sd x) (c_imsg_q x) (c_omsg_q x)
  (c_rmsg x) (c_smsg x) (c_recv_bytes x) (c_send_bytes x) (c_events x) (c_err x) (c_recv_active x) v
  (c_send_active x) (c_send_ready x) (c_client x) (c_proxy x) (c_connecting x) (c_connected x) (c_eof x)
  (c_done x) (c_redis x) (c_authenticated x).
Definition c_set_send_active v (x : conn) : conn := mk_conn (c_owner x) (c_sd x) (c_imsg_q x) (c_omsg_q x)
  (c_rmsg x) (c_smsg x) (c_recv_bytes x) (c_send_bytes x) (c_events x) (c_err x) (c_recv_active x)
  (c_recv_ready x) v (c_send_ready x) (c_client x) (c_proxy x) (c_connecting x) (c_connected x) (c_eof x)
  (c_done x) (c_redis x) (c_authenticated x).
Definition c_set_send_ready v (x : conn) : conn := mk_conn (c_owner x) (c_sd x) (c_imsg_q x) (c_omsg_q x)
  (c_rmsg x) (c_smsg x) (c_recv_bytes x) (c_send_bytes x) (c_events x) (c_err x) (c_recv_active x)
  (c_recv_ready x) (c_send_active x) v (c_client x) (c_proxy x) (c_connecting x) (c_connected x) (c_eof x)
  (c_done x) (c_redis x) (c_authenticated x).
Definition c_set_client v (x : conn) : conn := mk_conn (c_owner x) (c_sd x) (c_imsg_q x) (c_omsg_q x) (c_rmsg
  x) (c_smsg x) (c_recv_bytes x) (c_send_bytes x) (c_events x) (c_err x) (c_recv_active x) (c_recv_ready x)
  (c_send_active x) (c_send_ready x) v (c_proxy x) (c_connecting x) (c_connected x) (c_eof x) (c_done x)
  (c_redis x) (c_authenticated x).
Definition c_set_proxy v (x : conn) : conn := mk_conn (c_owner x) (c_sd x) (c_imsg_q x) (c_omsg_q x) (c_rmsg
  x) (c_smsg x) (c_recv_bytes x) (c_send_bytes x) (c_events x) (c_err x) (c_recv_active x) (c_recv_ready x)
  (c_send_active x) (c_send_ready x) (c_client x) v (c_connecting x) (c_connected x) (c_eof x) (c_done x)
  (c_redis x) (c_authenticated x).
Definition c_set_connecting v (x : conn) : conn := mk_conn (c_owner x) (c_sd x) (c_imsg_q x) (c_omsg_q x)
  (c_rmsg x) (c_smsg x) (c_recv_bytes x) (c_send_bytes x) (c_events x) (c_err x) (c_recv_active x)
  (c_recv_ready x) (c_send_active x) (c_send_ready x) (c_client x) (c_proxy x) v (c_connected x) (c_eof x)
  (c_done x) (c_redis x) (c_authenticated x).
Definition c_set_connected v (x : conn) : conn := mk_conn (c_owner x) (c_sd x) (c_imsg_q x) (c_omsg_q x)
  (c_rmsg x) (c_smsg x) (c_recv_bytes x) (c_send_bytes x) (c_events x) (c_err x) (c_recv_active x)
  (c_recv_ready x) (c_send_active x) (c_send_ready x) (c_client x) (c_proxy x) (c_connecting x) v (c_eof x)
  (c_done x) (c_redis x) (c_authenticated x).
Definition c_set_eof v (x : conn) : conn := mk_conn (c_owner x) (c_sd x) (c_imsg_q x) (c_omsg_q x) (c_rmsg x)
  (c_smsg x) (c_recv_bytes x) (c_send_bytes x) (c_events x) (c_err x) (c_recv_active x) (c_recv_ready x)
  (c_send_active x) (c_send_ready x) (c_client x) (c_proxy x) (c_connecting x) (c_connected x) v (c_done x)
  (c_redis x) (c_authenticated x).
Definition c_set_done v (x : conn) : conn := mk_conn (c_owner x) (c_sd x) (c_imsg_q x) (c_omsg_q x) (c_rmsg x)
  (c_smsg x) (c_recv_bytes x) (c_send_bytes x) (c_events x) (c_err x) (c_recv_active x) (c_recv_ready x)
  (c_send_active x) (c_send_ready x) (c_client x) (c_proxy x) (c_connecting x) (c_connected x) (c_eof x) v
  (c_redis x) (c_authenticated x).
Definition c_set_redis v (x : conn) : conn := mk_conn (c_owner x) (c_sd x) (c_imsg_q x) (c_omsg_q x) (c_rmsg
  x) (c_smsg x) (c_recv_bytes x) (c_send_bytes x) (c_events x) (c_err x) (c_recv_active x) (c_recv_ready x)
  (c_send_active x) (c_send_ready x) (c_client x) (c_proxy x) (c_connecting x) (c_connected x) (c_eof x)
  (c_done x) v (c_authenticated x).
Definition c_set_authenticated v (x : conn) : conn := mk_conn (c_owner x) (c_sd x) (c_imsg_q x) (c_omsg_q x)
  (c_rmsg x) (c_smsg x) (c_recv_bytes x) (c_send_bytes x) (c_events x) (c_err x) (c_recv_active x)
  (c_recv_ready x) (c_send_active x) (c_send_ready x) (c_client x) (c_proxy x) (c_connecting x) (c_connected
  x) (c_eof x) (c_done x) (c_redis x) v.

(** ** Pools *)

Record wpool := mk_wpool {
  pl_core : server_pool;              (* servers, continuum, ejection (file Pool) *)
  pl_key_hash : list Z -> Z;
  pl_s_conn_q : list (list positive); (* s_conn_q, server by server *)
  pl_ns_conn_q : list Z;
  pl_p_conn : pointer;                (* the listener *)
  pl_c_conn_q : list positive;
  pl_nc_conn_q : Z;
  pl_redis : bool;
  pl_timeout : Z;                     (* msec *)
  pl_redis_db : Z;
  pl_redis_auth : list Z;
  pl_require_auth : bool;
  pl_server_connections : Z;
  pl_preconnect : bool
}.

Definition pl_set_core v (x : wpool) : wpool := mk_wpool v (pl_key_hash x) (pl_s_conn_q x) (pl_ns_conn_q x)
  (pl_p_conn x) (pl_c_conn_q x) (pl_nc_conn_q x) (pl_redis x) (pl_timeout x) (pl_redis_db x) (pl_redis_auth x)
  (pl_require_auth x) (pl_server_connections x) (pl_preconnect x).
Definition pl_set_key_hash v (x : wpool) : wpool := mk_wpool (pl_core x) v (pl_s_conn_q x) (pl_ns_conn_q x)
  (pl_p_conn x) (pl_c_conn_q x) (pl_nc_conn_q x) (pl_redis x) (pl_timeout x) (pl_redis_db x) (pl_redis_auth x)
  (pl_require_auth x) (pl_server_connections x) (pl_preconnect x).
Definition pl_set_s_conn_q v (x : wpool) : wpool := mk_wpool (pl_core x) (pl_key_hash x) v (pl_ns_conn_q x)
  (pl_p_conn x) (pl_c_conn_q x) (pl_nc_conn_q x) (pl_redis x) (pl_timeout x) (pl_redis_db x) (pl_redis_auth x)
  (pl_require_auth x) (pl_server_connections x) (pl_preconnect x).
Definition pl_set_ns_conn_q v (x : wpool) : wpool := mk_wpool (pl_core x) (pl_key_hash x) (pl_s_conn_q x) v
  (pl_p_conn x) (pl_c_conn_q x) (pl_nc_conn_q x) (pl_redis x) (pl_timeout x) (pl_redis_db x) (pl_redis_auth x)
  (pl_require_auth x) (pl_server_connections x) (pl_preconnect x).
Definition pl_set_p_conn v (x : wpool) : wpool := mk_wpool (pl_core x) (pl_key_hash x) (pl_s_conn_q x)
  (pl_ns_conn_q x) v (pl_c_conn_q x) (pl_nc_conn_q x) (pl_redis x) (pl_timeout x) (pl_redis_db x)
  (pl_redis_auth x) (pl_require_auth x) (pl_server_connections x) (pl_preconnect x).
Definition pl_set_c_conn_q v (x : wpool) : wpool := mk_wpool (pl_core x) (pl_key_hash x) (pl_s_conn_q x)
  (pl_ns_conn_q x) (pl_p_conn x) v (pl_nc_conn_q x) (pl_redis x) (pl_timeout x) (pl_redis_db x) (pl_redis_auth
  x) (pl_require_auth x) (pl_server_connections x) (pl_preconnect x).
Definition pl_set_nc_conn_q v (x : wpool) : wpool := mk_wpool (pl_core x) (pl_key_hash x) (pl_s_conn_q x)
  (pl_ns_conn_q x) (pl_p_conn x) (pl_c_conn_q x) v (pl_redis x) (pl_timeout x) (pl_redis_db x) (pl_redis_auth
  x) (pl_require_auth x) (pl_server_connections x) (pl_preconnect x).
Definition pl_set_redis v (x : wpool) : wpool := mk_wpool (pl_core x) (pl_key_hash x) (pl_s_conn_q x)
  (pl_ns_conn_q x) (pl_p_conn x) (pl_c_conn_q x) (pl_nc_conn_q x) v (pl_timeout x) (pl_redis_db x)
  (pl_redis_auth x) (pl_require_auth x) (pl_server_connections x) (pl_preconnect x).
Definition pl_set_timeout v (x : wpool) : wpool := mk_wpool (pl_core x) (pl_key_hash x) (pl_s_conn_q x)
  (pl_ns_conn_q x) (pl_p_conn x) (pl_c_conn_q x) (pl_nc_conn_q x) (pl_redis x) v (pl_redis_db x)
  (pl_redis_auth x) (pl_require_auth x) (pl_server_connections x) (pl_preconnect x).
Definition pl_set_redis_db v (x : wpool) : wpool := mk_wpool (pl_core x) (pl_key_hash x) (pl_s_conn_q x)
  (pl_ns_conn_q x) (pl_p_conn x) (pl_c_conn_q x) (pl_nc_conn_q x) (pl_redis x) (pl_timeout x) v (pl_redis_auth
  x) (pl_require_auth x) (pl_server_connections x) (pl_preconnect x).
Definition pl_set_redis_auth v (x : wpool) : wpool := mk_wpool (pl_core x) (pl_key_hash x) (pl_s_conn_q x)
  (pl_ns_conn_q x) (pl_p_conn x) (pl_c_conn_q x) (pl_nc_conn_q x) (pl_redis x) (pl_timeout x) (pl_redis_db x)
  v (pl_require_auth x) (pl_server_connections x) (pl_preconnect x).
Definition pl_set_require_auth v (x : wpool) : wpool := mk_wpool (pl_core x) (pl_key_hash x) (pl_s_conn_q x)
  (pl_ns_conn_q x) (pl_p_conn x) (pl_c_conn_q x) (pl_nc_conn_q x) (pl_redis x) (pl_timeout x) (pl_redis_db x)
  (pl_redis_auth x) v (pl_server_connections x) (pl_preconnect x).
Definition pl_set_server_connections v (x : wpool) : wpool := mk_wpool (pl_core x) (pl_key_hash x)
  (pl_s_conn_q x) (pl_ns_conn_q x) (pl_p_conn x) (pl_c_conn_q x) (pl_nc_conn_q x) (pl_redis x) (pl_timeout x)
  (pl_redis_db x) (pl_redis_auth x) (pl_require_auth x) v (pl_preconnect x).
Definition pl_set_preconnect v (x : wpool) : wpool := mk_wpool (pl_core x) (pl_key_hash x) (pl_s_conn_q x)
  (pl_ns_conn_q x) (pl_p_conn x) (pl_c_conn_q x) (pl_nc_conn_q x) (pl_redis x) (pl_timeout x) (pl_redis_db x)
  (pl_redis_auth x) (pl_require_auth x) (pl_server_connections x) v.

(** ** The world *)

Record world := mk_world {
  w_tick : nat;                       (* answers of the environment used so far *)
  w_next : positive;                  (* the address the allocator returns next *)
  w_errno : Z;
  w_msgs : gmap positive msg;         (* messages in use *)
  w_free_msgq : list positive;
  w_nfree_msgq : Z;
  w_msg_id : Z;
  w_frag_id : Z;
  w_tmo : rbtree;                     (* tmo_rbt, one node per message *)
  w_mbufs : mbuf_pool;
  w_conns : gmap positive conn;
  w_free_connq : list positive;
  w_nfree_connq : Z;
  w_ntotal_conn : Z;
  w_ncurr_conn : Z;
  w_ncurr_cconn : Z;
  w_pools : list wpool;               (* ctx->pool *)
  w_timeout : Z;                      (* ctx->timeout *)
  w_slow_threshold : Z;               (* g_slow_threshold *)
  w_sent : list (positive * list Z)   (* bytes the kernel took, by connection *)
}.

Definition w_set_tick v (x : world) : world := mk_world v (w_next x) (w_errno x) (w_msgs x) (w_free_msgq x)
  (w_nfree_msgq x) (w_msg_id x) (w_frag_id x) (w_tmo x) (w_mbufs x) (w_conns x) (w_free_connq x)
  (w_nfree_connq x) (w_ntotal_conn x) (w_ncurr_conn x) (w_ncurr_cconn x) (w_pools x) (w_timeout x)
  (w_slow_threshold x) (w_sent x).
Definition w_set_next v (x : world) : world := mk_world (w_tick x) v (w_errno x) (w_msgs x) (w_free_msgq x)
  (w_nfree_msgq x) (w_msg_id x) (w_frag_id x) (w_tmo x) (w_mbufs x) (w_conns x) (w_free_connq x)
  (w_nfree_connq x) (w_ntotal_conn x) (w_ncurr_conn x) (w_ncurr_cconn x) (w_pools x) (w_timeout x)
  (w_slow_threshold x) (w_sent x).
Definition w_set_errno v (x : world) : world := mk_world (w_tick x) (w_next x) v (w_msgs x) (w_free_msgq x)
  (w_nfree_msgq x) (w_msg_id x) (w_frag_id x) (w_tmo x) (w_mbufs x) (w_conns x) (w_free_connq x)
  (w_nfree_connq x) (w_ntotal_conn x) (w_ncurr_conn x) (w_ncurr_cconn x) (w_pools x) (w_timeout x)
  (w_slow_threshold x) (w_sent x).
Definition w_set_msgs v (x : world) : world := mk_world (w_tick x) (w_next x) (w_errno x) v (w_free_msgq x)
  (w_nfree_msgq x) (w_msg_id x) (w_frag_id x) (w_tmo x) (w_mbufs x) (w_conns x) (w_free_connq x)
  (w_nfree_connq x) (w_ntotal_conn x) (w_ncurr_conn x) (w_ncurr_cconn x) (w_pools x) (w_timeout x)
  (w_slow_threshold x) (w_sent x).
Definition w_set_free_msgq v (x : world) : world := mk_world (w_tick x) (w_next x) (w_errno x) (w_msgs x) v
  (w_nfree_msgq x) (w_msg_id x) (w_frag_id x) (w_tmo x) (w_mbufs x) (w_conns x) (w_free_connq x)
  (w_nfree_connq x) (w_ntotal_conn x) (w_ncurr_conn x) (w_ncurr_cconn x) (w_pools x) (w_timeout x)
  (w_slow_threshold x) (w_sent x).
Definition w_set_nfree_msgq v (x : world) : world := mk_world (w_tick x) (w_next x) (w_errno x) (w_msgs x)
  (w_free_msgq x) v (w_msg_id x) (w_frag_id x) (w_tmo x) (w_mbufs x) (w_conns x) (w_free_connq x)
  (w_nfree_connq x) (w_ntotal_conn x) (w_ncurr_conn x) (w_ncurr_cconn x) (w_pools x) (w_timeout x)
  (w_slow_threshold x) (w_sent x).
Definition w_set_msg_id v (x : world) : world := mk_world (w_tick x) (w_next x) (w_errno x) (w_msgs x)
  (w_free_msgq x) (w_nfree_msgq x) v (w_frag_id x) (w_tmo x) (w_mbufs x) (w_conns x) (w_free_connq x)
  (w_nfree_connq x) (w_ntotal_conn x) (w_ncurr_conn x) (w_ncurr_cconn x) (w_pools x) (w_timeout x)
  (w_slow_threshold x) (w_sent x).
Definition w_set_frag_id v (x : world) : world := mk_world (w_tick x) (w_next x) (w_errno x) (w_msgs x)
  (w_free_msgq x) (w_nfree_msgq x) (w_msg_id x) v (w_tmo x) (w_mbufs x) (w_conns x) (w_free_connq x)
  (w_nfree_connq x) (w_ntotal_conn x) (w_ncurr_conn x) (w_ncurr_cconn x) (w_pools x) (w_timeout x)
  (w_slow_threshold x) (w_sent x).
Definition w_set_tmo v (x : world) : world := mk_world (w_tick x) (w_next x) (w_errno x) (w_msgs x)
  (w_free_msgq x) (w_nfree_msgq x) (w_msg_id x) (w_frag_id x) v (w_mbufs x) (w_conns x) (w_free_connq x)
  (w_nfree_connq x) (w_ntotal_conn x) (w_ncurr_conn x) (w_ncurr_cconn x) (w_pools x) (w_timeout x)
  (w_slow_threshold x) (w_sent x).
Definition w_set_mbufs v (x : world) : world := mk_world (w_tick x) (w_next x) (w_errno x) (w_msgs x)
  (w_free_msgq x) (w_nfree_msgq x) (w_msg_id x) (w_frag_id x) (w_tmo x) v (w_conns x) (w_free_connq x)
  (w_nfree_connq x) (w_ntotal_conn x) (w_ncurr_conn x) (w_ncurr_cconn x) (w_pools x) (w_timeout x)
  (w_slow_threshold x) (w_sent x).
Definition w_set_conns v (x : world) : world := mk_world (w_tick x) (w_next x) (w_errno x) (w_msgs x)
  (w_free_msgq x) (w_nfree_msgq x) (w_msg_id x) (w_frag_id x) (w_tmo x) (w_mbufs x) v (w_free_connq x)
  (w_nfree_connq x) (w_ntotal_conn x) (w_ncurr_conn x) (w_ncurr_cconn x) (w_pools x) (w_timeout x)
  (w_slow_threshold x) (w_sent x).
Definition w_set_free_connq v (x : world) : world := mk_world (w_tick x) (w_next x) (w_errno x) (w_msgs x)
  (w_free_msgq x) (w_nfree_msgq x) (w_msg_id x) (w_frag_id x) (w_tmo x) (w_mbufs x) (w_conns x) v
  (w_nfree_connq x) (w_ntotal_conn x) (w_ncurr_conn x) (w_ncurr_cconn x) (w_pools x) (w_timeout x)
  (w_slow_threshold x) (w_sent x).
Definition w_set_nfree_connq v (x : world) : world := mk_world (w_tick x) (w_next x) (w_errno x) (w_msgs x)
  (w_free_msgq x) (w_nfree_msgq x) (w_msg_id x) (w_frag_id x) (w_tmo x) (w_mbufs x) (w_conns x) (w_free_connq
  x) v (w_ntotal_conn x) (w_ncurr_conn x) (w_ncurr_cconn x) (w_pools x) (w_timeout x) (w_slow_threshold x)
  (w_sent x).
Definition w_set_ntotal_conn v (x : world) : world := mk_world (w_tick x) (w_next x) (w_errno x) (w_msgs x)
  (w_free_msgq x) (w_nfree_msgq x) (w_msg_id x) (w_frag_id x) (w_tmo x) (w_mbufs x) (w_conns x) (w_free_connq
  x) (w_nfree_connq x) v (w_ncurr_conn x) (w_ncurr_cconn x) (w_pools x) (w_timeout x) (w_slow_threshold x)
  (w_sent x).
Definition w_set_ncurr_conn v (x : world) : world := mk_world (w_tick x) (w_next x) (w_errno x) (w_msgs x)
  (w_free_msgq x) (w_nfree_msgq x) (w_msg_id x) (w_frag_id x) (w_tmo x) (w_mbufs x) (w_conns x) (w_free_connq
  x) (w_nfree_connq x) (w_ntotal_conn x) v (w_ncurr_cconn x) (w_pools x) (w_timeout x) (w_slow_threshold x)
  (w_sent x).
Definition w_set_ncurr_cconn v (x : world) : world := mk_world (w_tick x) (w_next x) (w_errno x) (w_msgs x)
  (w_free_msgq x) (w_nfree_msgq x) (w_msg_id x) (w_frag_id x) (w_tmo x) (w_mbufs x) (w_conns x) (w_free_connq
  x) (w_nfree_connq x) (w_ntotal_conn x) (w_ncurr_conn x) v (w_pools x) (w_timeout x) (w_slow_threshold x)
  (w_sent x).
Definition w_set_pools v (x : world) : world := mk_world (w_tick x) (w_next x) (w_errno x) (w_msgs x)
  (w_free_msgq x) (w_nfree_msgq x) (w_msg_id x) (w_frag_id x) (w_tmo x) (w_mbufs x) (w_conns x) (w_free_connq
  x) (w_nfree_connq x) (w_ntotal_conn x) (w_ncurr_conn x) (w_ncurr_cconn x) v (w_timeout x) (w_slow_threshold
  x) (w_sent x).
Definition w_set_timeout v (x : world) : world := mk_world (w_tick x) (w_next x) (w_errno x) (w_msgs x)
  (w_free_msgq x) (w_nfree_msgq x) (w_msg_id x) (w_frag_id x) (w_tmo x) (w_mbufs x) (w_conns x) (w_free_connq
  x) (w_nfree_connq x) (w_ntotal_conn x) (w_ncurr_conn x) (w_ncurr_cconn x) (w_pools x) v (w_slow_threshold x)
  (w_sent x).
Definition w_set_slow_threshold v (x : world) : world := mk_world (w_tick x) (w_next x) (w_errno x) (w_msgs x)
  (w_free_msgq x) (w_nfree_msgq x) (w_msg_id x) (w_frag_id x) (w_tmo x) (w_mbufs x) (w_conns x) (w_free_connq
  x) (w_nfree_connq x) (w_ntotal_conn x) (w_ncurr_conn x) (w_ncurr_cconn x) (w_pools x) (w_timeout x) v
  (w_sent x).
Definition w_set_sent v (x : world) : world := mk_world (w_tick x) (w_next x) (w_errno x) (w_msgs x)
  (w_free_msgq x) (w_nfree_msgq x) (w_msg_id x) (w_frag_id x) (w_tmo x) (w_mbufs x) (w_conns x) (w_free_connq
  x) (w_nfree_connq x) (w_ntotal_conn x) (w_ncurr_conn x) (w_ncurr_cconn x) (w_pools x) (w_timeout x)
  (w_slow_threshold x) v.

Abbreviation W := (ST world).

(** ** The environment

    Every answer is a function of the tick at which it is asked for. *)

Inductive read_answer := Rdata (data : list Z) | Rerrno (e : Z).     (* no data: end of file *)
Inductive write_answer := Wrote (n : Z) | Werrno (e : Z).

Class Env := {
  ev_ok : nat -> Z -> bool;             (* does an allocation of that size succeed? *)
  ev_junk : nat -> list Z;              (* uninitialised memory *)
  ev_read : nat -> read_answer;         (* read(2) *)
  ev_writev : nat -> write_answer;      (* writev(2) *)
  ev_epoll : nat -> Z;                  (* errno of epoll_ctl(2), 0 for success *)
  ev_usec : nat -> Z;                   (* nc_usec_now *)
  ev_msec : nat -> Z;                   (* nc_msec_now *)
  ev_time : nat -> Z;                   (* get_current_time *)
  ev_random : nat -> Z;                 (* random(3) *)
  ev_resolve : nat -> bool;             (* nc_resolve *)
  ev_socket : nat -> Z;                 (* socket(2), accept(2): a descriptor, or minus errno *)
  ev_setopt : nat -> Z;                 (* errno of the fcntl and setsockopt calls, 0 for success *)
  ev_connect : nat -> Z;                (* errno of connect(2), 0 for success *)
  ev_soerror : nat -> Z;                (* the pending error of a socket *)
  ev_strerror : Z -> list Z;            (* strerror(3) *)
  ev_wild : nat -> option (list Z);     (* the redis_auth found through an uninitialised pool pointer, if the load returns *)
  ev_qsort : list cpoint -> list cpoint;
  ev_notice : bool;                     (* log_loggable(LOG_NOTICE) *)
  ev_trace : option Z;                  (* trace_conf: its slow_threshold *)
  ev_max_ncconn : Z;                    (* ctx->max_ncconn *)
  ev_max_timeout : Z;                   (* ctx->max_timeout *)
  ev_retries : nat                      (* a call is interrupted, a socket readable at once, fewer times *)
}.

Definition ENOMEM : Z := 12.
Definition EINTR : Z := 4.
Definition EAGAIN : Z := 11.
Definition EINPROGRESS : Z := 115.
Definition ECONNABORTED : Z := 103.
Definition EMFILE : Z := 24.
Definition ENFILE : Z := 23.

Section Prim.
Context `{env : Env}.

Definition ask {A} (f : nat -> A) : W A := fun w => Some (f (w_tick w), w_set_tick (S (w_tick w)) w).

(** ** Loads and stores *)

Definition msg_ld {A} (f : msg -> A) (p : pointer) : W A :=
  reads (fun w => match p with Some a => f <$> w_msgs w !! a | None => None end).

Definition msg_st (f : msg -> msg) (p : pointer) : W unit := fun w =>
  match p with
  | None => None
  | Some a =>
      match w_msgs w !! a with
      | None => None
      | Some x => Some (tt, w_set_msgs (<[a := f x]> (w_msgs w)) w)
      end
  end.

Definition conn_ld {A} (f : conn -> A) (p : pointer) : W A :=
  reads (fun w => match p with Some a => f <$> w_conns w !! a | None => None end).

Definition conn_st (f : conn -> conn) (p : pointer) : W unit := fun w =>
  match p with
  | None => None
  | Some a =>
      match w_conns w !! a with
      | None => None
      | Some x => Some (tt, w_set_conns (<[a := f x]> (w_conns w)) w)
      end
  end.

Definition pool_ld {A} (f : wpool -> A) (i : nat) : W A := reads (fun w => f <$> w_pools w !! i).

Definition pool_st (f : wpool -> wpool) (i : nat) : W unit := fun w =>
  match w_pools w !! i with
  | None => None
  | Some x => Some (tt, w_set_pools (<[i := f x]> (w_pools w)) w)
  end.

Definition errno : W Z := gets w_errno.
Definition set_errno (e : Z) : W unit := modify (w_set_errno e).

(** The pointer [p] itself, which must not be NULL. *)
Definition addr (p : pointer) : W positive := reads (fun _ => p).

(** malloc: does it succeed?  It sets errno when it does not. *)
Definition nc_alloc (size : Z) : W bool :=
  ok ← ask ev_ok;
  if (ok size : bool) then mret true else set_errno ENOMEM;; mret false.

(** A new address. *)
Definition new_addr : W positive := fun w => Some (w_next w, w_set_next (Pos.succ (w_next w)) w).

(** ** Queues *)

(** TAILQ_INSERT_TAIL and TAILQ_INSERT_HEAD link an element that is in no
    such queue yet. *)
Definition tailq_insert_tail (a : positive) (q : list positive) : option (list positive) :=
  if bool_decide (a ∈ q) then None else Some (q ++ [a]).
Definition tailq_insert_head (a : positive) (q : list positive) : option (list positive) :=
  if bool_decide (a ∈ q) then None else Some (a :: q).

(** TAILQ_REMOVE of an element of the queue. *)
Fixpoint tailq_remove (a : positive) (q : list positive) : option (list positive) :=
  match q with
  | [] => None
  | x :: q' => if bool_decide (x = a) then Some q' else cons x <$> tailq_remove a q'
  end.

(** TAILQ_NEXT and TAILQ_PREV, and the elements after and before. *)
Fixpoint tailq_after (a : positive) (q : list positive) : list positive :=
  match q with
  | [] => []
  | x :: q' => if bool_decide (x = a) then q' else tailq_after a q'
  end.
Definition tailq_next (a : positive) (q : list positive) : pointer := head (tailq_after a q).
Definition tailq_before (a : positive) (q : list positive) : list positive := tailq_after a (reverse q).
Definition tailq_prev (a : positive) (q : list positive) : pointer := head (tailq_before a q).

(** A queue held in a field of a connection. *)
Definition conn_queue (get : conn -> list positive) (set : list positive -> conn -> conn)
    (f : list positive -> option (list positive)) (c : pointer) : W unit :=
  q ← conn_ld get c;
  match f q with
  | None => fault
  | Some q' => conn_st (set q') c
  end.

(** ** mbufs *)

(** mbuf_get, with malloc's answer. *)
Definition get_mbuf : W (option mbuf) :=
  g ← gets w_mbufs;
  m ← (match free_mbufq g with
       | _ :: _ => mret None
       | [] =>
           ok ← nc_alloc (mbuf_chunk_size g);
           if (ok : bool) then a ← new_addr; junk ← ask ev_junk; mret (Some (a, resize (Z.to_nat (mbuf_chunk_size g)) 0 junk)) else mret None
       end);
  match mbuf_get m g with
  | None => mret None
  | Some (b, g') => modify (w_set_mbufs g');; mret (Some b)
  end.

Definition put_mbuf (b : mbuf) : W unit := modify (fun w => w_set_mbufs (mbuf_put b (w_mbufs w)) w).

(** Overwrite an mbuf of the message. *)
Definition msg_store_mbuf (b : mbuf) (p : pointer) : W unit :=
  msg_st (fun x => m_set_mhdr (mbuf_update (m_mhdr x) b) x) p.

(** mbuf_copy of bytes that have to fit. *)
Definition copy_to (b : mbuf) (src : list Z) : W mbuf :=
  if zlen src <=? mb_end b - mb_last b then mret (mbuf_copy b src) else fault.

(** The bytes a key points to. *)
Definition key_bytes (h : list mbuf) (k : keypos) : option (list Z) :=
  match find (fun b => Pos.eqb (mb_id b) (ptr_buf (kp_start k))) h with
  | None => None
  | Some b =>
      if (0 <=? ptr_off (kp_start k)) && (ptr_off (kp_end k) <=? zlen (mb_mem b))
      then Some (slice (mb_mem b) (ptr_off (kp_start k)) (ptr_off (kp_end k))) else None
  end.

(** Key [i] of a message: array_get and the load through it. *)
Definition msg_key (i : Z) (p : pointer) : W (list Z) :=
  r ← msg_ld m_regs p;
  h ← msg_ld m_mhdr p;
  match array_load (keys r) (array_get (keys r) i) with
  | None => fault
  | Some k => reads (fun _ => key_bytes h k)
  end.

(** The timeout tree. *)
Definition tmo {A} (m : ST rbtree A) : W A := fun w =>
  match m (w_tmo w) with
  | None => None
  | Some (x, t) => Some (x, w_set_tmo t w)
  end.

(** The event backend (event/nc_epoll.c): registrations of a connection.
    The status is 0 or minus one. *)
Definition event_mod (active : bool) (c : pointer) : W Z :=
  e ← ask ev_epoll;
  if e =? 0 then conn_st (c_set_send_active active) c;; mret 0
  else set_errno e;; mret (-1).

Definition event_add_out (c : pointer) : W Z :=
  a ← conn_ld c_send_active c; if (a : bool) then mret 0 else event_mod true c.

Definition event_del_out (c : pointer) : W Z :=
  a ← conn_ld c_send_active c; if (a : bool) then event_mod false c else mret 0.

Definition event_add_conn (c : pointer) : W Z :=
  e ← ask ev_epoll;
  if e =? 0 then conn_st (c_set_send_active true) c;; conn_st (c_set_recv_active true) c;; mret 0
  else set_errno e;; mret (-1).

Definition event_del_conn (c : pointer) : W Z :=
  e ← ask ev_epoll;
  if e =? 0 then conn_st (c_set_recv_active false) c;; conn_st (c_set_send_active false) c;; mret 0
  else set_errno e;; mret (-1).

End Prim.
