(* ===== verification/MsgStore.v ===== *)
(** Messages: allocation, timeouts and the appending of data (nc_message.c). *)

From stdpp Require Import gmap.
From S2P Require Import Prelude CArray Mbuf Message Parser RedisReq RedisRsp Memcache Pool State Rbtree World.

(** %d of a 32-bit value. *)
Definition dec_s32 (z : Z) : list Z :=
  let z := s32 z in if z <? 0 then 45 :: dec (- z) else dec z.

Section MsgStore.
Context `{env : Env}.

(** ** Timeouts *)

Definition msg_tmo_min : W pointer := tmo rbtree_min.

(** server_timeout (nc_server.c). *)
Definition server_timeout (c : pointer) : W Z :=
  o ← conn_ld c_owner c;
  match o with OwnServer p _ => pool_ld pl_timeout p | _ => fault end.

Definition msg_tmo_insert (m c : pointer) : W unit :=
  timeout ← server_timeout c;
  if timeout <=? 0 then mret tt
  else
    now ← ask ev_msec;
    tmo (st (fun n => mk_rbnode (rb_left n) (rb_right n) (rb_parent n) (now + timeout) c (rb_color n)) m;;
         rbtree_insert m).

Definition msg_tmo_delete (m : pointer) : W unit :=
  data ← tmo (ld rb_data m);
  match data with
  | None => mret tt
  | Some _ => tmo (rbtree_delete m)
  end.

(** ** Allocation *)

Definition MSG_SIZE : Z := 512.        (* at least sizeof(struct msg) *)

(** The fields _msg_get sets. *)
Definition msg_fresh (id : Z) (t : times) : msg :=
  mk_msg id None None [] 0 0 NoParser None MSG_PARSE_OK None regs_init None 0 0 0 None
    0 false false false false false false false t.

Definition _msg_get : W pointer :=
  q ← gets w_free_msgq;
  p ← (match q with
       | a :: q' =>
           modify (w_set_free_msgq q');;
           modify (fun w => w_set_nfree_msgq (u32 (w_nfree_msgq w - 1)) w);;
           mret (Some (a, mk_times 0 0 0 0))
       | [] =>
           ok ← nc_alloc MSG_SIZE;
           if (ok : bool) then
             a ← new_addr;
             junk ← ask ev_junk;
             let t := mk_times (default 0 (rd junk 0)) (default 0 (rd junk 1)) (default 0 (rd junk 2)) (default 0 (rd junk 3)) in
             tmo (modify (fun tr => Rbtree.set_mem (<[a := mk_rbnode None None None 0 None false]> (rt_mem tr)) tr));;
             mret (Some (a, t))
           else mret None
       end);
  match p with
  | None => mret None
  | Some (a, t) =>
      modify (fun w => w_set_msg_id (u64 (w_msg_id w + 1)) w);;
      id ← gets w_msg_id;
      tmo (rbtree_node_init (Some a));;
      ok ← nc_alloc 16;
      if (ok : bool) then
        modify (fun w => w_set_msgs (<[a := msg_fresh id t]> (w_msgs w)) w);;
        mret (Some a)
      else mret None                    (* nc_free(msg) *)
  end.

Definition set_proto (request redis : bool) (x : msg) : msg :=
  let f := match request, redis with
           | true, true => RedisReqFsm RedisReq.SW_START
           | false, true => RedisRspFsm RedisRsp.Rsp.SW_START
           | true, false => McReqFsm Memcache.McReq.SW_START
           | false, false => McRspFsm Memcache.McRsp.SW_START
           end in
  m_set_proto (Some (if redis then Redis else World.Memcache)) (m_set_fsm f (m_set_redis redis (m_set_request request x))).

Definition msg_get (c : pointer) (request redis : bool) : W pointer :=
  p ← _msg_get;
  match p with
  | None => mret None
  | Some _ =>
      msg_st (m_set_owner c) p;;
      msg_st (set_proto request redis) p;;
      when ev_notice (now ← ask ev_usec; msg_st (m_set_start_ts now) p);;
      mret p
  end.

(** mbuf_remove and mbuf_put of every mbuf, in order. *)
Definition put_mbufs (h : list mbuf) : W unit := each put_mbuf h.

Definition msg_put (m : pointer) : W unit :=
  a ← addr m;
  h ← msg_ld m_mhdr m;
  put_mbufs h;;
  modify (fun w => w_set_msgs (delete a (w_msgs w)) w);;
  modify (fun w => w_set_nfree_msgq (u32 (w_nfree_msgq w + 1)) w);;
  modify (fun w => w_set_free_msgq (a :: w_free_msgq w) w).

(** vsnprintf into the free part of an mbuf: at most [size - 1] characters
    and a NUL; the markers do not move. *)
Definition print_at (b : mbuf) (size : Z) (s : list Z) : mbuf :=
  Mbuf.set_mem b (blit (mb_mem b) (mb_last b) (take (Z.to_nat (size - 1)) s ++ [0])).

(** The value of nc_scnprintf for a string of [n] characters. *)
Definition scnprintf_len (size n : Z) : Z := if n <=? 0 then 0 else if n <? size then n else size - 1.

Definition msg_get_error (redis : bool) (err : Z) : W pointer :=
  let errstr := if err =? 0 then bytes_of "unknown" else ev_strerror err in
  let protstr := if redis then bytes_of "-ERR" else bytes_of "SERVER_ERROR" in
  p ← _msg_get;
  match p with
  | None => mret None
  | Some _ =>
      msg_st (m_upd_regs (fun r => set_type r MSG_RSP_MC_SERVER_ERROR)) p;;
      b ← get_mbuf;
      match b with
      | None => msg_put p;; mret None
      | Some b =>
          let s := protstr ++ [SP] ++ errstr ++ [CR; LF] in
          let n := scnprintf_len (mbuf_size b) (zlen s) in
          let b := print_at b (mbuf_size b) s in
          msg_st (fun x => m_set_mhdr (mbuf_insert (m_mhdr x) (set_last b (mb_last b + n))) x) p;;
          msg_st (m_set_mlen n) p;;
          mret p
      end
  end.

Definition msg_empty (m : pointer) : W bool := n ← msg_ld m_mlen m; mret (n =? 0).

Definition msg_gen_frag_id : W Z :=
  modify (fun w => w_set_frag_id (u64 (w_frag_id w + 1)) w);; gets w_frag_id.

(** ** Appending data *)

(** The last mbuf of the message, or a new one at its end. *)
Definition msg_ensure_mbuf (m : pointer) (len : Z) : W (option mbuf) :=
  h ← msg_ld m_mhdr m;
  let fresh :=
    b ← get_mbuf;
    match b with
    | None => mret None
    | Some b => msg_st (fun x => m_set_mhdr (mbuf_insert (m_mhdr x) b) x) m;; mret (Some b)
    end in
  match list.last h with
  | None => fresh
  | Some b => if mbuf_size b <? len then fresh else mret (Some b)
  end.

Definition add_mlen (n : Z) (x : msg) : msg := m_set_mlen (u32 (m_mlen x + n)) x.

Definition msg_append (m : pointer) (src : list Z) : W Z :=
  b ← msg_ensure_mbuf m (zlen src);
  match b with
  | None => mret NC_ENOMEM
  | Some b =>
      b ← copy_to b src;
      msg_store_mbuf b m;;
      msg_st (add_mlen (zlen src)) m;;
      mret NC_OK
  end.

Definition msg_prepend (m : pointer) (src : list Z) : W Z :=
  b ← get_mbuf;
  match b with
  | None => mret NC_ENOMEM
  | Some b =>
      b ← copy_to b src;
      msg_st (add_mlen (zlen src)) m;;
      msg_st (fun x => m_set_mhdr (b :: m_mhdr x) x) m;;
      mret NC_OK
  end.

(** [s] is the formatted string; the mbuf is lost when it does not fit. *)
Definition msg_prepend_format (m : pointer) (s : list Z) : W Z :=
  b ← get_mbuf;
  match b with
  | None => mret NC_ENOMEM
  | Some b =>
      let size := mbuf_size b in
      let n := zlen s in
      if (n <=? 0) || (size <=? n) then mret NC_ERROR
      else
        let b := print_at b size s in
        msg_st (add_mlen n) m;;
        msg_st (fun x => m_set_mhdr (set_last b (mb_last b + n) :: m_mhdr x) x) m;;
        mret NC_OK
  end.

(** msg_init: [sen] is the address of the sentinel. *)
Definition msg_init (sen : positive) : W unit :=
  modify (w_set_msg_id 0);; modify (w_set_frag_id 0);; modify (w_set_nfree_msgq 0);; modify (w_set_free_msgq []);;
  t ← gets w_tmo;
  t ← reads (fun _ => rbtree_init (rt_mem t) sen);
  modify (w_set_tmo t).

(** msg_deinit frees the messages of the free list. *)
Definition msg_deinit : W unit :=
  q ← gets w_free_msgq;
  each (fun _ => modify (fun w => w_set_nfree_msgq (u32 (w_nfree_msgq w - 1)) w)) q;;
  modify (w_set_free_msgq []).

(** ** Routing *)

Definition msg_backend_idx (m : pointer) (key : list Z) : W Z :=
  c ← msg_ld m_owner m;
  o ← conn_ld c_owner c;
  match o with
  | OwnPool p =>
      pl ← pool_ld (fun x => x) p;
      rnd ← ask ev_random;
      reads (fun _ => server_pool_idx (pl_key_hash pl) rnd (pl_core pl) key)
  | _ => fault
  end.

End MsgStore.
