(* ===== verification/RedisMsg.v ===== *)
(** Multi-key commands, replies of the proxy and authentication: what
    proto/nc_redis.c does with whole messages. *)

From stdpp Require Import gmap.
From S2P Require Import Prelude CArray Mbuf Message Parser RedisReq Pool State Rbtree World MsgStore.

(** The canned replies. *)
Definition CRLF : list Z := [CR; LF].
Definition rsp_no_password := bytes_of "-ERR Client sent AUTH, but no password is set" ++ CRLF.
Definition rsp_invalid_password := bytes_of "-ERR invalid password" ++ CRLF.
Definition rsp_auth_required := bytes_of "-NOAUTH Authentication required" ++ CRLF.
Definition rsp_ok := bytes_of "+OK" ++ CRLF.
Definition rsp_pong := bytes_of "+PONG" ++ CRLF.

(** [for (; *p != c;) p++;] then the position after the character found. *)
Fixpoint skip_past (fuel : nat) (b : mbuf) (p c : Z) : option Z :=
  match fuel with
  | O => None
  | S fuel' =>
      match deref b p with
      | None => None
      | Some ch => if ch =? c then Some (p + 1) else skip_past fuel' b (p + 1) c
      end
  end.

(** The end of the digits from [p] on and their value added to [len]. *)
Fixpoint scan_digits (fuel : nat) (b : mbuf) (p len : Z) : option (Z * Z) :=
  match fuel with
  | O => None
  | S fuel' =>
      if p <? mb_last b then
        match deref b p with
        | None => None
        | Some ch => if isdigit ch then scan_digits fuel' b (p + 1) (dec_acc len ch) else Some (p, len)
        end
      else Some (p, len)
  end.

(** The length of the bulk at the head of an mbuf: its header, its data and
    two line ends; 5 for the null bulk. *)
Definition bulk_len (b : mbuf) : option Z :=
  let p := mb_pos b + 1 in
  match deref b p with
  | None => None
  | Some p0 =>
      let digits :=
        match scan_digits (S (Z.to_nat (mb_last b - p))) b p 0 with
        | None => None
        | Some (p, len) => Some (u32 (u32 (len + CRLF_LEN * 2) + (p - mb_pos b)))
        end in
      if p0 =? 45 then
        match deref b (p + 1) with
        | None => None
        | Some p1 => if p1 =? 49 then Some (1 + 2 + CRLF_LEN) else digits
        end
      else digits
  end.

Section Redis.
Context `{env : Env}.

(** Drop the empty mbufs at the head of a message. *)
Fixpoint empty_prefix (h : list mbuf) : list mbuf * list mbuf :=
  match h with
  | b :: h' => if mbuf_empty b then let '(e, r) := empty_prefix h' in (b :: e, r) else ([], h)
  | [] => ([], [])
  end.

Definition eat_empty (m : pointer) : W unit :=
  h ← msg_ld m_mhdr m;
  let '(e, r) := empty_prefix h in
  msg_st (m_set_mhdr r) m;;
  put_mbufs e.

(** Move [len] bytes from the mbufs [h] of [src] to [dst]: whole mbufs are
    handed over, the last one is copied from. *)
Fixpoint copy_bulk_loop (dst src : pointer) (h : list mbuf) (len : Z) : W Z :=
  match h with
  | [] => mret NC_OK
  | b :: h' =>
      if mbuf_length b <=? len then
        msg_st (fun x => m_set_mhdr (mbuf_remove (m_mhdr x) b) x) src;;
        match dst with
        | None => mret tt
        | Some _ => msg_st (fun x => m_set_mhdr (mbuf_insert (m_mhdr x) b) x) dst
        end;;
        copy_bulk_loop dst src h' (u32 (len - mbuf_length b))
      else
        status ← (match dst with
                  | None => mret NC_OK
                  | Some _ => msg_append dst (slice (mb_mem b) (mb_pos b) (mb_pos b + len))
                  end);
        if status =? NC_OK then msg_store_mbuf (set_pos b (mb_pos b + len)) src;; mret NC_OK
        else mret status
  end.

(** [dst] may be NULL: the bulk is eaten. *)
Definition redis_copy_bulk (dst src : pointer) : W Z :=
  eat_empty src;;
  h ← msg_ld m_mhdr src;
  match h with
  | [] => mret NC_ERROR
  | b :: _ =>
      bytes ← reads (fun _ => bulk_len b);
      status ← copy_bulk_loop dst src h bytes;
      if status =? NC_OK then
        match dst with
        | None => mret tt
        | Some _ => msg_st (add_mlen bytes) dst
        end;;
        msg_st (add_mlen (- bytes)) src;;
        mret NC_OK
      else mret status
  end.

(** ** Responses to fragments *)

(** The first mbuf of a message. *)
Definition first_mbuf (m : pointer) : W mbuf := h ← msg_ld m_mhdr m; reads (fun _ => head h).

Definition msg_type_of (m : pointer) : W msg_type := r ← msg_ld m_regs m; mret (type r).

(** Forget the data of the first mbuf of a response. *)
Definition discard_first (r : pointer) : W unit :=
  b ← first_mbuf r;
  msg_st (add_mlen (- mbuf_length b)) r;;
  msg_store_mbuf (mbuf_rewind b) r.

(** Skip the number of bulks and its line end in the first mbuf. *)
Definition skip_narg (r : pointer) : W unit :=
  g ← msg_ld m_regs r;
  match narg_start g, narg_end g with
  | Some s, Some e =>
      let e := mk_ptr (ptr_buf e) (ptr_off e + CRLF_LEN) in
      msg_st (m_upd_regs (fun g => set_narg_end g (Some e))) r;;
      msg_st (add_mlen (- u32 (ptr_off e - ptr_off s))) r;;
      b ← first_mbuf r;
      msg_store_mbuf (set_pos b (ptr_off e)) r
  | _, _ => fault
  end.

Definition redis_pre_coalesce (r : pointer) : W unit :=
  pr ← msg_ld m_peer r;
  fid ← msg_ld m_frag_id pr;
  if fid =? 0 then mret tt
  else
    fo ← msg_ld m_frag_owner pr;
    msg_st (fun x => m_set_nfrag_done (u32 (m_nfrag_done x + 1)) x) fo;;
    t ← msg_type_of r;
    if msg_type_eqb t MSG_RSP_REDIS_INTEGER then
      discard_first r;;
      n ← msg_ld (fun x => integer (m_regs x)) r;
      msg_st (m_upd_regs (fun g => set_integer g (u32 (integer g + n)))) fo
    else if msg_type_eqb t MSG_RSP_REDIS_MULTIBULK then skip_narg r
    else if msg_type_eqb t MSG_RSP_REDIS_STATUS then
      pt ← msg_type_of pr;
      when (msg_type_eqb pt MSG_REQ_REDIS_MSET) (discard_first r)
    else
      msg_st (m_set_error true) pr;;
      msg_st (m_set_err EINVAL) pr.

(** ** Fragmentation *)

(** Append [src] to the mbuf msg_ensure_mbuf finds. *)
Definition append_piece (r : pointer) (src : list Z) (then_ : mbuf -> W bool) : W Z :=
  b ← msg_ensure_mbuf r (zlen src);
  match b with
  | None => mret NC_ENOMEM
  | Some b =>
      ok ← then_ b;
      if (ok : bool) then
        b ← copy_to b src;
        msg_store_mbuf b r;;
        msg_st (add_mlen (zlen src)) r;;
        mret NC_OK
      else mret NC_ENOMEM
  end.

(** Record the key about to be written at the end of mbuf [b]. *)
Definition push_kpos (r : pointer) (len : Z) (b : mbuf) : W bool :=
  ok ← ask ev_ok;
  g ← msg_ld m_regs r;
  match push_key ok g b (mb_last b) (mb_last b + len) with
  | None => set_errno ENOMEM;; mret false
  | Some g => msg_st (m_set_regs g) r;; mret true
  end.

Definition redis_append_key (r : pointer) (key : list Z) : W Z :=
  status ← append_piece r ([36] ++ dec_s32 (zlen key) ++ CRLF) (fun _ => mret true);
  if negb (status =? NC_OK) then mret status
  else
    status ← append_piece r key (push_kpos r (zlen key));
    if negb (status =? NC_OK) then mret status
    else append_piece r CRLF (fun _ => mret true).

Definition nkeys (m : pointer) : W Z := r ← msg_ld m_regs m; mret (array_n (keys r)).

(** *narg CRLF $4 CRLF MGET CRLF is skipped in the first mbuf. *)
Definition skip_header (b : mbuf) : option Z :=
  let fuel := length (mb_mem b) in
  match skip_past fuel b 0 LF with
  | None => None
  | Some p =>
      match skip_past fuel b p LF with
      | None => None
      | Some p => skip_past fuel b p LF
      end
  end.

(** sub_msgs[idx], created when it is NULL; [None] when that fails. *)
Definition sub_msg_for (r : pointer) (idx : Z) (sub : list pointer) : W (option (pointer * list pointer)) :=
  p ← reads (fun _ => rd sub idx);
  match p with
  | Some _ => mret (Some (p, sub))
  | None =>
      x ← msg_ld (fun x => (m_owner x, m_request x, m_redis x)) r;
      let '(o, rq, rd) := x in
      p ← msg_get o rq rd;
      match p with
      | None => mret None
      | Some _ => mret (Some (p, <[Z.to_nat idx := p]> sub))
      end
  end.

(** r->frag_seq[i] = sub_msg *)
Definition set_frag_seq (r : pointer) (i : Z) (sub_msg : pointer) : W unit :=
  s ← msg_ld m_frag_seq r;
  match s with
  | None => fault
  | Some s => if (0 <=? i) && (i <? zlen s) then msg_st (m_set_frag_seq (Some (<[Z.to_nat i := sub_msg]> s))) r else fault
  end.

Definition incr_narg : msg -> msg := m_upd_regs (fun g => set_narg g (u32 (narg g + 1))).

(** One key; the status and sub_msgs. *)
Definition fragment_key (r : pointer) (key_step i : Z) (sub : list pointer) : W (Z * list pointer) :=
  key ← msg_key i r;
  idx ← msg_backend_idx r key;
  s ← sub_msg_for r idx sub;
  match s with
  | None => mret (NC_ENOMEM, sub)
  | Some (sub_msg, sub) =>
      set_frag_seq r i sub_msg;;
      msg_st incr_narg sub_msg;;
      status ← redis_append_key sub_msg key;
      if negb (status =? NC_OK) then mret (status, sub)
      else if key_step =? 1 then mret (NC_OK, sub)
      else
        status ← redis_copy_bulk None r;
        if negb (status =? NC_OK) then mret (status, sub)
        else
          status ← redis_copy_bulk sub_msg r;
          if negb (status =? NC_OK) then mret (status, sub)
          else msg_st incr_narg sub_msg;; mret (NC_OK, sub)
  end.

(** The loop over the keys from [i] on, [n] of them. *)
Fixpoint fragment_keys (r : pointer) (key_step i : Z) (n : nat) (sub : list pointer) : W (Z * list pointer) :=
  match n with
  | O => mret (NC_OK, sub)
  | S n' =>
      x ← fragment_key r key_step i sub;
      let '(status, sub) := x in
      if status =? NC_OK then fragment_keys r key_step (i + 1) n' sub else mret (status, sub)
  end.

(** The header of a fragment. *)
Definition fragment_header (t : msg_type) (narg : Z) : option (list Z) :=
  let hd name := [42] ++ dec_s32 (u32 (narg + 1)) ++ CRLF ++ name in
  if msg_type_eqb t MSG_REQ_REDIS_MGET then Some (hd (bytes_of "$4" ++ CRLF ++ bytes_of "mget" ++ CRLF))
  else if msg_type_eqb t MSG_REQ_REDIS_DEL then Some (hd (bytes_of "$3" ++ CRLF ++ bytes_of "del" ++ CRLF))
  else if msg_type_eqb t MSG_REQ_REDIS_MSET then Some (hd (bytes_of "$4" ++ CRLF ++ bytes_of "mset" ++ CRLF))
  else None.

(** A finished fragment joins the vector of [r]. *)
Definition join_vector (r sub_msg : pointer) : W unit :=
  t ← msg_type_of r;
  x ← msg_ld (fun x => (m_frag_id x, m_frag_owner x)) r;
  msg_st (m_upd_regs (fun g => set_type g t)) sub_msg;;
  msg_st (m_set_frag_id x.1) sub_msg;;
  msg_st (m_set_frag_owner x.2) sub_msg;;
  msg_st (fun y => m_set_nfrag (u32 (m_nfrag y + 1)) y) r.

(** The loop over sub_msgs; the fragments in order. *)
Fixpoint fragment_heads (r : pointer) (sub : list pointer) (frag_msgq : list positive) : W (Z * list positive) :=
  match sub with
  | [] => mret (NC_OK, frag_msgq)
  | None :: sub' => fragment_heads r sub' frag_msgq
  | Some a :: sub' =>
      t ← msg_type_of r;
      n ← msg_ld (fun x => narg (m_regs x)) (Some a);
      s ← reads (fun _ => fragment_header t n);
      status ← msg_prepend_format (Some a) s;
      if negb (status =? NC_OK) then mret (status, frag_msgq)
      else join_vector r (Some a);; fragment_heads r sub' (frag_msgq ++ [a])
  end.

(** The blocks sub_msgs and frag_seq; [None] when one of them fails. *)
Definition fragment_alloc (r : pointer) (ncontinuum : Z) : W (option (list pointer)) :=
  ok ← nc_alloc (ncontinuum * 8);
  if negb ok then mret None
  else
    n ← nkeys r;
    ok ← nc_alloc (n * 8);
    if negb ok then mret None
    else
      msg_st (m_set_frag_seq (Some (replicate (Z.to_nat n) None))) r;;
      mret (Some (replicate (Z.to_nat ncontinuum) None)).

Definition start_vector (r : pointer) : W unit :=
  fid ← msg_gen_frag_id;
  msg_st (m_set_frag_id fid) r;;
  msg_st (m_set_nfrag 0) r;;
  msg_st (m_set_frag_owner r) r.

Definition redis_fragment_argx (r : pointer) (ncontinuum key_step : Z) : W (Z * list positive) :=
  s ← fragment_alloc r ncontinuum;
  match s with
  | None => mret (NC_ENOMEM, [])
  | Some sub =>
      b ← first_mbuf r;
      p ← reads (fun _ => skip_header b);
      msg_store_mbuf (set_pos b p) r;;
      start_vector r;;
      n ← nkeys r;
      x ← fragment_keys r key_step 0 (Z.to_nat n) sub;
      let '(status, sub) := x in
      if negb (status =? NC_OK) then mret (status, [])
      else fragment_heads r sub []
  end.

Definition redis_fragment (r : pointer) (ncontinuum : Z) : W (Z * list positive) :=
  n ← nkeys r;
  if n =? 1 then mret (NC_OK, [])
  else
    t ← msg_type_of r;
    if msg_type_eqb t MSG_REQ_REDIS_MGET || msg_type_eqb t MSG_REQ_REDIS_DEL then redis_fragment_argx r ncontinuum 1
    else if msg_type_eqb t MSG_REQ_REDIS_MSET then redis_fragment_argx r ncontinuum 2
    else mret (NC_OK, []).

(** ** Replies *)

(** The pool of a client or server connection. *)
Definition conn_pool (c : pointer) : W nat :=
  o ← conn_ld c_owner c;
  match o with OwnPool p | OwnServer p _ => mret p | NoOwner => fault end.

Definition conn_authenticated (c : pointer) : W bool :=
  p ← conn_pool c;
  ra ← pool_ld pl_require_auth p;
  if negb ra then mret true else conn_ld c_authenticated c.

Definition redis_handle_auth_req (req rsp : pointer) : W Z :=
  c ← msg_ld m_owner rsp;
  p ← conn_pool c;
  ra ← pool_ld pl_require_auth p;
  if negb ra then msg_append rsp rsp_no_password
  else
    key ← msg_key 0 req;
    auth ← pool_ld pl_redis_auth p;
    if bool_decide (key = auth) then
      conn_st (c_set_authenticated true) c;; msg_append rsp rsp_ok
    else conn_st (c_set_authenticated false) c;; msg_append rsp rsp_invalid_password.

(** atoi(3): white space, a sign, digits.  The character after the digits is
    read too; a value outside of int has no defined result. *)
Fixpoint atoi_digits (l : list Z) (n : Z) : option Z :=
  match l with
  | [] => None
  | c :: l' => if isdigit c then atoi_digits l' (n * 10 + (c - 48)) else Some n
  end.

Fixpoint atoi (l : list Z) : option Z :=
  match l with
  | [] => None
  | c :: l' =>
      if (c =? 32) || (9 <=? c) && (c <=? 13) then atoi l'
      else
        n ← (if c =? 45 then Z.opp <$> atoi_digits l' 0 else if c =? 43 then atoi_digits l' 0 else atoi_digits l 0);
        if (- 2 ^ 31 <=? n) && (n <? 2 ^ 31) then Some n else None
  end.

(** The bytes of the mbuf from the start of key [i] on. *)
Definition from_key (i : Z) (p : pointer) : W (list Z) :=
  r ← msg_ld m_regs p;
  h ← msg_ld m_mhdr p;
  k ← reads (fun _ => array_load (keys r) (array_get (keys r) i));
  b ← reads (fun _ => find (fun b => Pos.eqb (mb_id b) (ptr_buf (kp_start k))) h);
  mret (slice (mb_mem b) (ptr_off (kp_start k)) (mb_last b)).

(** The key is compared with the password of [pool], which has no value
    yet; the outcome of the comparison is not used. *)
Definition redis_handle_threshold_req (req rsp : pointer) : W Z :=
  c ← msg_ld m_owner rsp;
  key ← msg_key 0 req;
  auth ← ask ev_wild;
  match auth with
  | None => fault
  | Some auth =>
      s ← from_key 0 req;
      n ← reads (fun _ => atoi s);
      modify (w_set_slow_threshold n);;
      msg_append rsp rsp_ok
  end.

Definition redis_reply (r : pointer) : W Z :=
  response ← msg_ld m_peer r;
  c ← msg_ld m_owner response;
  t ← msg_type_of r;
  if msg_type_eqb t MSG_REQ_REDIS_AUTH then redis_handle_auth_req r response
  else if msg_type_eqb t MSG_REQ_REDIS_SET_SLOW_THRESHOLD then redis_handle_threshold_req r response
  else
    a ← conn_authenticated c;
    if negb a then msg_append response rsp_auth_required
    else if msg_type_eqb t MSG_REQ_REDIS_PING then msg_append response rsp_pong
    else if msg_type_eqb t MSG_REQ_REDIS_SELECT_CLIENT then msg_append response rsp_ok
    else mret NC_ERROR.

(** ** The response to a vector *)

Definition mark_error (m : pointer) : W unit :=
  e ← errno; msg_st (m_set_error true) m;; msg_st (m_set_err e) m.

Definition redis_post_coalesce_mset (request : pointer) : W unit :=
  response ← msg_ld m_peer request;
  status ← msg_append response rsp_ok;
  when (negb (status =? NC_OK)) (mark_error response).

Definition redis_post_coalesce_del (request : pointer) : W unit :=
  response ← msg_ld m_peer request;
  n ← msg_ld (fun x => integer (m_regs x)) request;
  status ← msg_prepend_format response ([58] ++ dec_s32 n ++ CRLF);
  when (negb (status =? NC_OK)) (mark_error response).

(** The connection of a response is to be closed. *)
Definition owner_err (response : pointer) : W unit :=
  c ← msg_ld m_owner response; conn_st (c_set_err 1) c.

(** The loop over the keys: the peer of frag_seq[i] supplies a bulk, by
    [copy].  The result tells whether the loop reached its end. *)
Fixpoint coalesce_keys (copy : pointer -> pointer -> W Z) (request response : pointer) (i : Z) (n : nat) : W bool :=
  match n with
  | O => mret true
  | S n' =>
      seq ← msg_ld m_frag_seq request;
      f ← reads (fun _ => match seq with None => None | Some s => rd s i end);
      sub_msg ← msg_ld m_peer f;
      match sub_msg with
      | None => owner_err response;; mret false
      | Some _ =>
          status ← copy response sub_msg;
          if status =? NC_OK then coalesce_keys copy request response (i + 1) n'
          else owner_err response;; mret false
      end
  end.

Definition redis_post_coalesce_mget (request : pointer) : W unit :=
  response ← msg_ld m_peer request;
  n ← msg_ld (fun x => narg (m_regs x)) request;
  status ← msg_prepend_format response ([42] ++ dec_s32 (u32 (n - 1)) ++ CRLF);
  if negb (status =? NC_OK) then owner_err response
  else
    k ← nkeys request;
    coalesce_keys redis_copy_bulk request response 0 (Z.to_nat k);;
    mret tt.

Definition redis_post_coalesce (r : pointer) : W unit :=
  e ← msg_ld (fun x => m_error x || m_ferror x) r;
  if (e : bool) then mret tt
  else
    t ← msg_type_of r;
    if msg_type_eqb t MSG_REQ_REDIS_MGET then redis_post_coalesce_mget r
    else if msg_type_eqb t MSG_REQ_REDIS_DEL then redis_post_coalesce_del r
    else when (msg_type_eqb t MSG_REQ_REDIS_MSET) (redis_post_coalesce_mset r).

End Redis.
