(* ===== verification/McMsg.v ===== *)
(** Multi-key retrieval in memcache: what proto/nc_memcache.c does with whole
    messages.  The parts the two protocols share are those of RedisMsg. *)

From stdpp Require Import gmap.
From S2P Require Import Prelude CArray Mbuf Message Parser Memcache Pool State Rbtree World MsgStore RedisMsg.

Section McMsg.
Context `{env : Env}.

Definition memcache_append_key (r : pointer) (key : list Z) : W Z :=
  b ← msg_ensure_mbuf r (zlen key + 2);
  match b with
  | None => mret NC_ENOMEM
  | Some b =>
      ok ← push_kpos r (zlen key) b;
      if negb ok then mret NC_ENOMEM
      else
        b ← copy_to b key;
        msg_st (add_mlen (zlen key)) r;;
        b ← copy_to b [SP];
        msg_store_mbuf b r;;
        msg_st (add_mlen 1) r;;
        mret NC_OK
  end.

Definition mc_fragment_key (r : pointer) (i : Z) (sub : list pointer) : W (Z * list pointer) :=
  key ← msg_key i r;
  idx ← msg_backend_idx r key;
  s ← sub_msg_for r idx sub;
  match s with
  | None => mret (NC_ENOMEM, sub)
  | Some (sub_msg, sub) =>
      set_frag_seq r i sub_msg;;
      msg_st incr_narg sub_msg;;
      status ← memcache_append_key sub_msg key;
      mret (status, sub)
  end.

Fixpoint mc_fragment_keys (r : pointer) (i : Z) (n : nat) (sub : list pointer) : W (Z * list pointer) :=
  match n with
  | O => mret (NC_OK, sub)
  | S n' =>
      x ← mc_fragment_key r i sub;
      let '(status, sub) := x in
      if status =? NC_OK then mc_fragment_keys r (i + 1) n' sub else mret (status, sub)
  end.

(** The command word of a fragment. *)
Definition mc_fragment_word (t : msg_type) : option (list Z) :=
  if msg_type_eqb t MSG_REQ_MC_GET then Some (bytes_of "get ")
  else if msg_type_eqb t MSG_REQ_MC_GETS then Some (bytes_of "gets ")
  else None.

Fixpoint mc_fragment_heads (r : pointer) (sub : list pointer) (frag_msgq : list positive) : W (Z * list positive) :=
  match sub with
  | [] => mret (NC_OK, frag_msgq)
  | None :: sub' => mc_fragment_heads r sub' frag_msgq
  | Some a :: sub' =>
      t ← msg_type_of r;
      s ← reads (fun _ => mc_fragment_word t);
      status ← msg_prepend (Some a) s;
      if negb (status =? NC_OK) then mret (status, frag_msgq)
      else
        status ← msg_append (Some a) CRLF;
        if negb (status =? NC_OK) then mret (status, frag_msgq)
        else join_vector r (Some a);; mc_fragment_heads r sub' (frag_msgq ++ [a])
  end.

Definition memcache_fragment_retrieval (r : pointer) (ncontinuum : Z) : W (Z * list positive) :=
  s ← fragment_alloc r ncontinuum;
  match s with
  | None => mret (NC_ENOMEM, [])
  | Some sub =>
      b ← first_mbuf r;
      p ← reads (fun _ => skip_past (length (mb_mem b)) b 0 SP);
      msg_store_mbuf (set_pos b p) r;;
      start_vector r;;
      n ← nkeys r;
      x ← mc_fragment_keys r 0 (Z.to_nat n) sub;
      let '(status, sub) := x in
      if negb (status =? NC_OK) then mret (status, [])
      else mc_fragment_heads r sub []
  end.

Definition memcache_fragment (r : pointer) (ncontinuum : Z) : W (Z * list positive) :=
  t ← msg_type_of r;
  if memcache_retrieval t then memcache_fragment_retrieval r ncontinuum else mret (NC_OK, []).

(** Cut a response at its end marker; [h] are its mbufs, the last first. *)
Fixpoint cut_end (r : pointer) (e : ptr) (h : list mbuf) : W unit :=
  match h with
  | [] => fault
  | b :: h' =>
      if Pos.eqb (ptr_buf e) (mb_id b) && (mb_pos b <=? ptr_off e) && (ptr_off e <? mb_last b) then
        msg_st (add_mlen (- u32 (mb_last b - ptr_off e))) r;;
        msg_store_mbuf (set_last b (ptr_off e)) r
      else
        msg_st (add_mlen (- mbuf_length b)) r;;
        msg_st (fun x => m_set_mhdr (mbuf_remove (m_mhdr x) b) x) r;;
        put_mbuf b;;
        cut_end r e h'
  end.

Definition memcache_pre_coalesce (r : pointer) : W unit :=
  pr ← msg_ld m_peer r;
  fid ← msg_ld m_frag_id pr;
  if fid =? 0 then mret tt
  else
    fo ← msg_ld m_frag_owner pr;
    msg_st (fun x => m_set_nfrag_done (u32 (m_nfrag_done x + 1)) x) fo;;
    t ← msg_type_of r;
    if msg_type_eqb t MSG_RSP_MC_VALUE || msg_type_eqb t MSG_RSP_MC_END then
      g ← msg_ld m_regs r;
      e ← reads (fun _ => end_marker g);
      h ← msg_ld m_mhdr r;
      cut_end r e (reverse h)
    else
      msg_st (m_set_error true) pr;;
      msg_st (m_set_err EINVAL) pr.

(** The length of the value at the head of an mbuf, from VALUE to the end of
    its data. *)
Definition value_len (b : mbuf) : option Z :=
  let fuel := length (mb_mem b) in
  match skip_past fuel b (mb_pos b) SP with
  | None => None
  | Some p =>
  match skip_past fuel b p SP with
  | None => None
  | Some p =>
  match skip_past fuel b p SP with
  | None => None
  | Some p =>
  match scan_digits (S (Z.to_nat (mb_last b - p))) b p 0 with
  | None => None
  | Some (p, len) =>
      (* eat cas for gets *)
      let fix to_cr (fuel : nat) (p : Z) : option Z :=
        match fuel with
        | O => None
        | S fuel' =>
            if p <? mb_last b then
              match deref b p with
              | None => None
              | Some ch => if ch =? CR then Some p else to_cr fuel' (p + 1)
              end
            else Some p
        end in
      match to_cr (S (Z.to_nat (mb_last b - p))) p with
      | None => None
      | Some p => Some (u32 (u32 (len + CRLF_LEN * 2) + (p - mb_pos b)))
      end
  end end end end.

(** Move [len] bytes from the mbufs [h] of [src] to [dst]. *)
Fixpoint mc_copy_loop (dst src : pointer) (h : list mbuf) (len : Z) : W Z :=
  match h with
  | [] => mret NC_OK
  | b :: h' =>
      if mbuf_length b <=? len then
        msg_st (fun x => m_set_mhdr (mbuf_remove (m_mhdr x) b) x) src;;
        msg_st (fun x => m_set_mhdr (mbuf_insert (m_mhdr x) b) x) dst;;
        mc_copy_loop dst src h' (u32 (len - mbuf_length b))
      else
        n ← get_mbuf;
        match n with
        | None => mret NC_ENOMEM
        | Some n =>
            n ← copy_to n (slice (mb_mem b) (mb_pos b) (mb_pos b + len));
            msg_st (fun x => m_set_mhdr (mbuf_insert (m_mhdr x) n) x) dst;;
            msg_store_mbuf (set_pos b (mb_pos b + len)) src;;
            mret NC_OK
        end
  end.

Definition memcache_copy_bulk (dst src : pointer) : W Z :=
  eat_empty src;;
  h ← msg_ld m_mhdr src;
  match h with
  | [] => mret NC_OK                     (* key not exists *)
  | b :: _ =>
      bytes ← reads (fun _ => value_len b);
      status ← mc_copy_loop dst src h bytes;
      if status =? NC_OK then
        msg_st (add_mlen bytes) dst;; msg_st (add_mlen (- bytes)) src;; mret NC_OK
      else mret status
  end.

Definition memcache_post_coalesce (request : pointer) : W unit :=
  response ← msg_ld m_peer request;
  e ← msg_ld (fun x => m_error x || m_ferror x) request;
  if (e : bool) then owner_err response
  else
    k ← nkeys request;
    ok ← coalesce_keys memcache_copy_bulk request response 0 (Z.to_nat k);
    if negb ok then mret tt
    else
      status ← msg_append response (bytes_of "END" ++ CRLF);
      when (negb (status =? NC_OK)) (owner_err response).

End McMsg.
