(* ===== verification/ReqCore.v ===== *)
(** Requests in the queues of their connections: completion, errors, release
    (the first half of nc_request.c). *)

From stdpp Require Import gmap.
From S2P Require Import Prelude CArray Mbuf Message Parser Pool State Rbtree World MsgStore RedisMsg McMsg.

Section ReqCore.
Context `{env : Env}.

(** conn->err = errno *)
Definition conn_errno (c : pointer) : W unit := e ← errno; conn_st (c_set_err e) c.

Definition req_get (c : pointer) : W pointer :=
  redis ← conn_ld c_redis c;
  m ← msg_get c true redis;
  match m with
  | None => conn_errno c;; mret None
  | Some _ => mret m
  end.

(** The NUL written behind the first key. *)
Definition nul_after_key (req : pointer) : W unit :=
  g ← msg_ld m_regs req;
  h ← msg_ld m_mhdr req;
  match array_load (keys g) (array_get (keys g) 0) with
  | None => fault
  | Some k =>
      match find (fun b => Pos.eqb (mb_id b) (ptr_buf (kp_end k))) h with
      | None => fault
      | Some b => msg_store_mbuf (Mbuf.set_mem b (blit (mb_mem b) (ptr_off (kp_end k)) [0])) req
      end
  end.

(** The slow request record: the store it reads, and what it writes to the
    request.  The record itself goes to a log file. *)
Definition req_log_record (req rsp : pointer) : W unit :=
  sc ← msg_ld m_owner rsp;
  o ← conn_ld c_owner sc;
  match o with
  | OwnServer p _ =>
      pc ← pool_ld pl_p_conn p;
      conn_ld c_sd pc;;
      nul_after_key req
  | _ => fault
  end.

Definition req_log (req : pointer) : W unit :=
  if negb ev_notice then mret tt
  else
    x ← msg_ld (fun x => x) req;
    if negb (m_frag_id x =? 0) && negb (bool_decide (m_frag_owner x = req)) then mret tt
    else if m_mlen x =? 0 then mret tt
    else if m_start_ts x =? 0 then mret tt
    else
      ask ev_usec;;
      match m_peer x with None => mret 0 | Some _ => msg_ld m_mlen (m_peer x) end;;
      if array_n (keys (m_regs x)) <? 1 then mret tt
      else
        conn_ld c_sd (m_owner x);;
        msg_ld (fun y => t_recv_server (m_times y)) (m_peer x);;
        slow ← gets w_slow_threshold;
        match ev_trace with
        | None => mret tt
        | Some conf =>
            if t_send_server (m_times x) =? 0 then mret tt
            else
              let slow := if 0 <? slow then slow else conf in
              if slow =? 0 then mret tt
              else
                let dur := Z.quot (s32 (t_send_client (m_times x) - t_recv_client (m_times x))) 1000 in
                if dur <=? slow then mret tt else req_log_record req (m_peer x)
        end.

Definition rsp_put (m : pointer) : W unit := msg_put m.

(** Break the link between a request and its response and put the response. *)
Definition put_peer (m : pointer) : W unit :=
  pmsg ← msg_ld m_peer m;
  match pmsg with
  | None => mret tt
  | Some _ =>
      msg_st (m_set_peer None) m;;
      msg_st (m_set_peer None) pmsg;;
      rsp_put pmsg
  end.

Definition req_put (m : pointer) : W unit :=
  req_log m;;
  put_peer m;;
  msg_tmo_delete m;;
  msg_put m.

(** ** Vectors of fragments in the client's queue *)

(** The loops over the messages next to one in the queue, as long as they
    have the fragment id [id]. *)
Fixpoint all_done (id : Z) (l : list positive) : W bool :=
  match l with
  | [] => mret true
  | a :: l' =>
      fid ← msg_ld m_frag_id (Some a);
      if fid =? id then
        d ← msg_ld m_done (Some a);
        if (d : bool) then all_done id l' else mret false
      else mret true
  end.

Fixpoint any_error (id : Z) (l : list positive) : W bool :=
  match l with
  | [] => mret false
  | a :: l' =>
      fid ← msg_ld m_frag_id (Some a);
      if fid =? id then
        e ← msg_ld m_error (Some a);
        if (e : bool) then mret true else any_error id l'
      else mret false
  end.

Fixpoint mark_all (set : msg -> msg) (id : Z) (l : list positive) : W unit :=
  match l with
  | [] => mret tt
  | a :: l' =>
      fid ← msg_ld m_frag_id (Some a);
      if fid =? id then msg_st set (Some a);; mark_all set id l' else mret tt
  end.

(** msg->post_coalesce(msg->frag_owner) *)
Definition post_coalesce (m fo : pointer) : W unit :=
  p ← msg_ld m_proto m;
  match p with
  | None => fault
  | Some Redis => redis_post_coalesce fo
  | Some Memcache => memcache_post_coalesce fo
  end.

Definition req_done (c m : pointer) : W bool :=
  d ← msg_ld m_done m;
  if negb d then mret false
  else
    id ← msg_ld m_frag_id m;
    if id =? 0 then mret true
    else
      f ← msg_ld m_fdone m;
      if (f : bool) then mret true
      else
        x ← msg_ld (fun x => (m_nfrag_done x, m_nfrag x)) m;
        if x.1 <? x.2 then mret false
        else
          a ← addr m;
          q ← conn_ld c_omsg_q c;
          d1 ← all_done id (tailq_before a q);
          if negb d1 then mret false
          else
            d2 ← all_done id (tailq_after a q);
            if negb d2 then mret false
            else
              msg_st (m_set_fdone true) m;;
              mark_all (m_set_fdone true) id (tailq_before a q);;
              mark_all (m_set_fdone true) id (tailq_after a q);;
              fo ← msg_ld m_frag_owner m;
              post_coalesce m fo;;
              mret true.

Definition req_error (c m : pointer) : W bool :=
  e ← msg_ld m_error m;
  if (e : bool) then mret true
  else
    id ← msg_ld m_frag_id m;
    if id =? 0 then mret false
    else
      f ← msg_ld m_ferror m;
      if (f : bool) then mret true
      else
        a ← addr m;
        q ← conn_ld c_omsg_q c;
        e1 ← any_error id (tailq_before a q);
        e2 ← (if (e1 : bool) then mret true else any_error id (tailq_after a q));
        if negb e2 then mret false
        else
          msg_st (m_set_ferror true) m;;
          mark_all (m_set_ferror true) id (tailq_before a q);;
          mark_all (m_set_ferror true) id (tailq_after a q);;
          mret true.

(** ** The queues *)

Definition req_server_enqueue_imsgq (c m : pointer) : W unit :=
  nr ← msg_ld (fun x => noreply (m_regs x)) m;
  when (negb nr) (msg_tmo_insert m c);;
  a ← addr m;
  conn_queue c_imsg_q c_set_imsg_q (tailq_insert_tail a) c.

Definition req_server_enqueue_imsgq_head (c m : pointer) : W unit :=
  nr ← msg_ld (fun x => noreply (m_regs x)) m;
  when (negb nr) (msg_tmo_insert m c);;
  a ← addr m;
  conn_queue c_imsg_q c_set_imsg_q (tailq_insert_head a) c.

Definition req_server_dequeue_imsgq (c m : pointer) : W unit :=
  a ← addr m; conn_queue c_imsg_q c_set_imsg_q (tailq_remove a) c.

Definition req_client_enqueue_omsgq (c m : pointer) : W unit :=
  a ← addr m; conn_queue c_omsg_q c_set_omsg_q (tailq_insert_tail a) c.

Definition req_server_enqueue_omsgq (c m : pointer) : W unit :=
  a ← addr m; conn_queue c_omsg_q c_set_omsg_q (tailq_insert_tail a) c.

Definition req_client_dequeue_omsgq (c m : pointer) : W unit :=
  a ← addr m; conn_queue c_omsg_q c_set_omsg_q (tailq_remove a) c.

Definition req_server_dequeue_omsgq (c m : pointer) : W unit :=
  msg_tmo_delete m;;
  a ← addr m; conn_queue c_omsg_q c_set_omsg_q (tailq_remove a) c.

(** The head of the client's queue is done: make the connection writable. *)
Definition head_done (c : pointer) : W bool :=
  q ← conn_ld c_omsg_q c; req_done c (head q).

End ReqCore.
