(* ===== verification/ConnServer.v ===== *)
(** Connections and their owners (nc_connection.c, nc_client.c and the
    connection side of nc_server.c). *)

From stdpp Require Import gmap.
From S2P Require Import Prelude CArray Mbuf Message Parser Pool State Rbtree World MsgStore RedisMsg McMsg ReqCore.

Section Conn.
Context `{env : Env}.

(** ** Allocation *)

Definition CONN_SIZE : Z := 512.      (* at least sizeof(struct conn) *)

Definition conn_fresh : conn :=
  mk_conn NoOwner (-1) [] [] None None 0 0 0 0 false false false false
    false false false false false false false false.

Definition _conn_get : W pointer :=
  q ← gets w_free_connq;
  p ← (match q with
       | a :: q' =>
           modify (fun w => w_set_nfree_connq (u32 (w_nfree_connq w - 1)) w);;
           modify (w_set_free_connq q');;
           mret (Some a)
       | [] =>
           ok ← nc_alloc CONN_SIZE;
           if (ok : bool) then a ← new_addr; mret (Some a) else mret None
       end);
  match p with
  | None => mret None
  | Some a =>
      modify (fun w => w_set_conns (<[a := conn_fresh]> (w_conns w)) w);;
      modify (fun w => w_set_ntotal_conn (u64 (w_ntotal_conn w + 1)) w);;
      modify (fun w => w_set_ncurr_conn (u32 (w_ncurr_conn w + 1)) w);;
      mret (Some a)
  end.

Definition conn_put (c : pointer) : W unit :=
  a ← addr c;
  modify (fun w => w_set_nfree_connq (u32 (w_nfree_connq w + 1)) w);;
  modify (fun w => w_set_free_connq (a :: w_free_connq w) w);;
  client ← conn_ld c_client c;
  when client (modify (fun w => w_set_ncurr_cconn (u32 (w_ncurr_cconn w - 1)) w));;
  modify (fun w => w_set_ncurr_conn (u32 (w_ncurr_conn w - 1)) w).

(** A queue held in a pool. *)
Definition pool_queue (get : wpool -> option (list positive)) (set : list positive -> wpool -> wpool)
    (f : list positive -> option (list positive)) (p : nat) : W unit :=
  q ← pool_ld get p;
  match q with
  | None => fault
  | Some q =>
      match f q with
      | None => fault
      | Some q' => pool_st (set q') p
      end
  end.

Definition client_queue := pool_queue (fun x => Some (pl_c_conn_q x)) pl_set_c_conn_q.

(** s_conn_q of server [s], and its ns_conn_q. *)
Definition server_queue (s : nat) :=
  pool_queue (fun x => pl_s_conn_q x !! s) (fun q x => pl_set_s_conn_q (<[s := q]> (pl_s_conn_q x)) x).

Definition ns_conn_q (p s : nat) : W Z := n ← pool_ld (fun x => pl_ns_conn_q x !! s) p; reads (fun _ => n).
Definition add_ns_conn_q (p s : nat) (d : Z) : W unit :=
  n ← ns_conn_q p s;
  pool_st (fun x => pl_set_ns_conn_q (<[s := u32 (n + d)]> (pl_ns_conn_q x)) x) p.

Definition client_ref (c : pointer) (p : nat) : W unit :=
  a ← addr c;
  pool_st (fun x => pl_set_nc_conn_q (u32 (pl_nc_conn_q x + 1)) x) p;;
  client_queue (tailq_insert_tail a) p;;
  conn_st (c_set_owner (OwnPool p)) c.

Definition client_unref (c : pointer) : W unit :=
  o ← conn_ld c_owner c;
  conn_st (c_set_owner NoOwner) c;;
  a ← addr c;
  match o with
  | OwnPool p =>
      pool_st (fun x => pl_set_nc_conn_q (u32 (pl_nc_conn_q x - 1)) x) p;;
      client_queue (tailq_remove a) p
  | _ => fault
  end.

Definition server_resolve (c : pointer) : W unit :=
  ok ← ask ev_resolve;
  when (negb ok) (conn_st (c_set_err EHOSTDOWN) c;; conn_st (c_set_done true) c).

Definition server_ref (c : pointer) (p s : nat) : W unit :=
  a ← addr c;
  server_resolve c;;
  add_ns_conn_q p s 1;;
  server_queue s (tailq_insert_tail a) p;;
  conn_st (c_set_owner (OwnServer p s)) c.

Definition server_unref (c : pointer) : W unit :=
  o ← conn_ld c_owner c;
  conn_st (c_set_owner NoOwner) c;;
  a ← addr c;
  match o with
  | OwnServer p s => add_ns_conn_q p s (-1);; server_queue s (tailq_remove a) p
  | _ => fault
  end.

(** conn_get for a client of pool [p]. *)
Definition conn_get_client (p : nat) (redis : bool) : W pointer :=
  c ← _conn_get;
  match c with
  | None => mret None
  | Some _ =>
      conn_st (c_set_redis redis) c;;
      conn_st (c_set_client true) c;;
      modify (fun w => w_set_ncurr_cconn (u32 (w_ncurr_cconn w + 1)) w);;
      client_ref c p;;
      mret c
  end.

(** conn_get for server [s] of pool [p]. *)
Definition conn_get_server (p s : nat) (redis : bool) : W pointer :=
  c ← _conn_get;
  match c with
  | None => mret None
  | Some _ =>
      conn_st (c_set_redis redis) c;;
      conn_st (c_set_client false) c;;
      server_ref c p s;;
      mret c
  end.

Definition not_null (p : pointer) : bool := match p with Some _ => true | None => false end.
Definition not_empty (q : list positive) : bool := match q with [] => false | _ => true end.

Definition client_active (c : pointer) : W bool :=
  conn_ld (fun x => not_empty (c_omsg_q x) || not_null (c_rmsg x) || not_null (c_smsg x)) c.

Definition server_active (c : pointer) : W bool :=
  conn_ld (fun x => not_empty (c_imsg_q x) || not_empty (c_omsg_q x) || not_null (c_rmsg x) || not_null (c_smsg x)) c.

(** ** I/O *)

(** read(2) until it is not interrupted: the bytes, or minus the status. *)
Definition conn_recv (c : pointer) (size : Z) : W (Z + list Z) :=
  iterate ev_retries (fun _ : unit =>
    x ← ask ev_read;
    match x with
    | Rdata data =>
        let data := take (Z.to_nat size) data in
        if 0 <? zlen data then
          when (zlen data <? size) (conn_st (c_set_recv_ready false) c);;
          conn_st (fun y => c_set_recv_bytes (u64 (c_recv_bytes y + zlen data)) y) c;;
          mret (inr (inr data))
        else
          conn_st (c_set_recv_ready false) c;;
          conn_st (c_set_eof true) c;;
          mret (inr (inr []))
    | Rerrno e =>
        set_errno e;;
        if e =? EINTR then mret (inl tt)
        else if e =? EAGAIN then
          conn_st (c_set_recv_ready false) c;; mret (inr (inl NC_EAGAIN))
        else
          conn_st (c_set_recv_ready false) c;;
          conn_st (c_set_err e) c;;
          mret (inr (inl NC_ERROR))
    end) tt.

(** writev(2) of the bytes [data]: the number taken, or the status. *)
Definition conn_sendv (c : pointer) (data : list Z) : W Z :=
  iterate ev_retries (fun _ : unit =>
    x ← ask ev_writev;
    match x with
    | Wrote n =>
        let n := Z.max 0 (Z.min n (zlen data)) in
        if 0 <? n then
          when (n <? zlen data) (conn_st (c_set_send_ready false) c);;
          conn_st (fun y => c_set_send_bytes (u64 (c_send_bytes y + n)) y) c;;
          a ← addr c;
          modify (fun w => w_set_sent ((a, take (Z.to_nat n) data) :: w_sent w) w);;
          mret (inr n)
        else conn_st (c_set_send_ready false) c;; mret (inr 0)
    | Werrno e =>
        set_errno e;;
        if e =? EINTR then mret (inl tt)
        else if e =? EAGAIN then
          conn_st (c_set_send_ready false) c;; mret (inr NC_EAGAIN)
        else
          conn_st (c_set_send_ready false) c;;
          conn_st (c_set_err e) c;;
          mret (inr NC_ERROR)
    end) tt.

(** ** Closing *)

Definition client_close (c : pointer) : W unit :=
  sd ← conn_ld c_sd c;
  if sd <? 0 then client_unref c;; conn_put c
  else
    rmsg ← conn_ld c_rmsg c;
    match rmsg with
    | None => mret tt
    | Some _ => conn_st (c_set_rmsg None) c;; req_put rmsg
    end;;
    q ← conn_ld c_omsg_q c;
    each (fun a =>
      req_client_dequeue_omsgq c (Some a);;
      d ← msg_ld m_done (Some a);
      if (d : bool) then req_put (Some a) else msg_st (m_set_swallow true) (Some a)) q;;
    client_unref c;;
    conn_st (c_set_sd (-1)) c;;
    conn_put c.

(** server_failure on the pool of a server connection. *)
Definition conn_server_failure (c : pointer) : W unit :=
  o ← conn_ld c_owner c;
  match o with
  | OwnServer p s =>
      pl ← pool_ld pl_core p;
      now ← ask ev_usec;
      now' ← ask ev_usec;
      stack ← ask ev_junk;
      ok ← ask ev_ok;
      pl ← reads (fun _ => server_failure stack ev_qsort ok now now' pl s);
      pool_st (pl_set_core pl) p
  | _ => fault
  end.

(** A request whose server connection closes. *)
Definition close_req (c : pointer) (skip : msg -> bool) (a : positive) : W unit :=
  sk ← msg_ld skip (Some a);
  if (sk : bool) then req_put (Some a)
  else
    cc ← msg_ld m_owner (Some a);
    e ← conn_ld c_err c;
    msg_st (m_set_done true) (Some a);;
    msg_st (m_set_error true) (Some a);;
    msg_st (m_set_err e) (Some a);;
    fo ← msg_ld m_frag_owner (Some a);
    match fo with
    | None => mret tt
    | Some _ => msg_st (fun x => m_set_nfrag_done (u32 (m_nfrag_done x + 1)) x) fo
    end;;
    d ← head_done cc;
    if (d : bool) then event_add_out cc;; mret tt else mret tt.

Definition server_close (c : pointer) : W unit :=
  conn_st (c_set_connected false) c;;
  sd ← conn_ld c_sd c;
  if sd <? 0 then conn_server_failure c;; server_unref c;; conn_put c
  else
    q ← conn_ld c_imsg_q c;
    each (fun a =>
      req_server_dequeue_imsgq c (Some a);;
      close_req c (fun x => m_swallow x || noreply (m_regs x)) a) q;;
    q ← conn_ld c_omsg_q c;
    each (fun a => req_server_dequeue_omsgq c (Some a);; close_req c m_swallow a) q;;
    rmsg ← conn_ld c_rmsg c;
    match rmsg with
    | None => mret tt
    | Some _ => conn_st (c_set_rmsg None) c;; rsp_put rmsg
    end;;
    conn_server_failure c;;
    server_unref c;;
    conn_st (c_set_sd (-1)) c;;
    conn_put c.

(** ** Opening *)

Definition server_conn (p s : nat) : W pointer :=
  n ← ns_conn_q p s;
  max ← pool_ld pl_server_connections p;
  if n <? max then redis ← pool_ld pl_redis p; conn_get_server p s redis
  else
    q ← pool_ld (fun x => pl_s_conn_q x !! s) p;
    match q with
    | Some (a :: q') => server_queue s (fun _ => tailq_insert_tail a q') p;; mret (Some a)
    | _ => fault
    end.

(** The status of a call whose errno, or 0, is [e]. *)
Definition sys_status (e : Z) : W Z := if e =? 0 then mret NC_OK else set_errno e;; mret NC_ERROR.

(** Does the server's name start with a slash (a unix socket)? *)
Definition server_is_unix (p s : nat) : W bool :=
  pl ← pool_ld pl_core p;
  sv ← reads (fun _ => sp_servers pl !! s);
  mret (match sv_pname sv with 47 :: _ => true | _ => false end).

Definition server_connect (p s : nat) (c : pointer) : W Z :=
  err ← conn_ld c_err c;
  if negb (err =? 0) then set_errno err;; mret NC_ERROR
  else
    sd ← conn_ld c_sd c;
    if 0 <? sd then mret NC_OK
    else
      let error status := conn_errno c;; mret status in
      sd ← ask ev_socket;
      if sd <? 0 then conn_st (c_set_sd (-1)) c;; set_errno (- sd);; error NC_ERROR
      else
        conn_st (c_set_sd sd) c;;
        e ← ask ev_setopt;
        status ← sys_status e;
        if negb (status =? NC_OK) then error status
        else
          ux ← server_is_unix p s;
          (if (ux : bool) then mret NC_OK else e ← ask ev_setopt; sys_status e);;
          status ← event_add_conn c;
          if negb (status =? NC_OK) then error status
          else
            e ← ask ev_connect;
            status ← sys_status e;
            if negb (status =? NC_OK) then
              if e =? EINPROGRESS then conn_st (c_set_connecting true) c;; mret NC_OK
              else error status
            else conn_st (c_set_connected true) c;; mret NC_OK.

(** server_pool_update on pool [p]. *)
Definition pool_update (p : nat) : W Z :=
  pl ← pool_ld pl_core p;
  now ← ask ev_usec;
  now' ← ask ev_usec;
  stack ← ask ev_junk;
  ok ← ask ev_ok;
  x ← reads (fun _ => server_pool_update stack ev_qsort ok now now' pl);
  let '(status, e, pl) := x in
  pool_st (pl_set_core pl) p;;
  when (negb (e =? 0)) (set_errno e);;
  mret status.

Definition server_pool_conn (p : nat) (key : list Z) : W pointer :=
  status ← pool_update p;
  if negb (status =? NC_OK) then mret None
  else
    pl ← pool_ld (fun x => x) p;
    rnd ← ask ev_random;
    idx ← reads (fun _ => server_pool_idx (pl_key_hash pl) rnd (pl_core pl) key);
    let s := Z.to_nat idx in
    c ← server_conn p s;
    match c with
    | None => mret None
    | Some _ =>
        status ← server_connect p s c;
        if negb (status =? NC_OK) then server_close c;; mret None else mret c
    end.

(** server_ok on the pool of a server connection. *)
Definition conn_server_ok (c : pointer) : W unit :=
  o ← conn_ld c_owner c;
  match o with
  | OwnServer p s =>
      pl ← pool_ld pl_core p;
      pl ← reads (fun _ => server_ok pl s);
      pool_st (pl_set_core pl) p
  | _ => fault
  end.

Definition server_each_preconnect (p s : nat) : W Z :=
  c ← server_conn p s;
  match c with
  | None => mret NC_ENOMEM
  | Some _ =>
      status ← server_connect p s c;
      if negb (status =? NC_OK) then server_close c;; mret NC_OK else mret NC_OK
  end.

(** server_each_disconnect: every connection of the server is closed. *)
Definition server_each_disconnect (p s : nat) : W unit :=
  n ← ns_conn_q p s;
  iterate (S (Z.to_nat n)) (fun _ : unit =>
    q ← pool_ld (fun x => pl_s_conn_q x !! s) p;
    match q with
    | None => fault
    | Some [] => mret (inr tt)
    | Some (a :: _) => server_close (Some a);; mret (inl tt)
    end) tt.

End Conn.
