(* ===== verification/Request.v ===== *)
(** Requests on their way from a client to a server (the second half of
    nc_request.c, and redis_add_auth of proto/nc_redis.c). *)

From stdpp Require Import gmap.
From S2P Require Import Prelude CArray Mbuf Message Parser Pool State Rbtree World MsgStore RedisMsg McMsg ReqCore ConnServer.

Section Request.
Context `{env : Env}.

Definition req_recv_next (c : pointer) (alloc : bool) : W pointer :=
  eof ← conn_ld c_eof c;
  if (eof : bool) then
    rmsg ← conn_ld c_rmsg c;
    match rmsg with
    | None => mret tt
    | Some _ => conn_st (c_set_rmsg None) c;; req_put rmsg
    end;;
    act ← client_active c;
    when (negb act) (conn_st (c_set_done true) c);;
    mret None
  else
    rmsg ← conn_ld c_rmsg c;
    match rmsg with
    | Some _ => mret rmsg
    | None =>
        if negb alloc then mret None
        else
          m ← req_get c;
          match m with
          | None => mret None
          | Some _ => conn_st (c_set_rmsg m) c;; mret m
          end
    end.

Definition req_make_reply (c req : pointer) : W Z :=
  redis ← conn_ld c_redis c;
  rsp ← msg_get c false redis;
  match rsp with
  | None => conn_errno c;; mret NC_ENOMEM
  | Some _ =>
      msg_st (m_set_peer rsp) req;;
      msg_st (m_set_peer req) rsp;;
      msg_st (m_set_request false) rsp;;
      msg_st (m_set_done true) req;;
      req_client_enqueue_omsgq c req;;
      mret NC_OK
  end.

Definition req_filter (c m : pointer) : W bool :=
  e ← msg_empty m;
  if (e : bool) then req_put m;; mret true
  else
    q ← msg_ld (fun x => quit (m_regs x)) m;
    if (q : bool) then
      conn_st (c_set_eof true) c;;
      conn_st (c_set_recv_ready false) c;;
      req_put m;;
      mret true
    else
      a ← conn_authenticated c;
      when (negb a) (msg_st (m_upd_regs (fun r => set_noforward r true)) m);;
      mret false.

(** status = event_add_out(...); if (status != NC_OK) conn->err = errno; *)
Definition event_out_or_err (c : pointer) : W unit :=
  status ← event_add_out c;
  when (negb (status =? NC_OK)) (conn_errno c).

Definition req_forward_error (c m : pointer) : W unit :=
  e ← errno;
  msg_st (m_set_done true) m;;
  msg_st (m_set_error true) m;;
  msg_st (m_set_err e) m;;
  nr ← msg_ld (fun x => noreply (m_regs x)) m;
  if (nr : bool) then req_put m
  else
    d ← head_done c;
    if (d : bool) then event_out_or_err c else mret tt.

(** The text printed by %s: the bytes before the first NUL (the data of
    [pool->redis_auth] ends with one). *)
Fixpoint printed_s (l : list Z) : list Z :=
  match l with [] => [] | ch :: l' => if ch =? 0 then [] else ch :: printed_s l' end.

(** AUTH for the server, to be swallowed. *)
Definition redis_add_auth (c sc : pointer) : W Z :=
  p ← conn_pool c;
  redis ← conn_ld c_redis c;
  m ← msg_get c true redis;
  match m with
  | None => conn_errno c;; mret NC_ENOMEM
  | Some _ =>
      auth ← pool_ld pl_redis_auth p;
      status ← msg_prepend_format m
        (bytes_of "*2" ++ CRLF ++ bytes_of "$4" ++ CRLF ++ bytes_of "AUTH" ++ CRLF ++
         [36] ++ dec_s32 (zlen auth) ++ CRLF ++ printed_s auth ++ CRLF);
      if negb (status =? NC_OK) then msg_put m;; mret status
      else
        msg_st (m_set_swallow true) m;;
        req_server_enqueue_imsgq sc m;;
        conn_st (c_set_authenticated true) sc;;
        mret NC_OK
  end.

(** msg->add_auth *)
Definition add_auth (m c sc : pointer) : W Z :=
  p ← msg_ld m_proto m;
  match p with
  | None => fault
  | Some Redis => redis_add_auth c sc
  | Some Memcache => mret NC_OK
  end.

Definition req_forward (c m : pointer) : W unit :=
  nr ← msg_ld (fun x => noreply (m_regs x)) m;
  when (negb nr) (req_client_enqueue_omsgq c m);;
  p ← conn_pool c;
  key ← msg_key 0 m;
  sc ← server_pool_conn p key;
  match sc with
  | None => req_forward_error c m
  | Some _ =>
      q ← conn_ld c_imsg_q sc;
      status ← (if not_empty q then mret NC_OK else event_add_out sc);
      if negb (status =? NC_OK) then req_forward_error c m;; conn_errno sc
      else
        a ← conn_authenticated sc;
        status ← (if (a : bool) then mret NC_OK else add_auth m c sc);
        if negb (status =? NC_OK) then req_forward_error c m;; conn_errno sc
        else req_server_enqueue_imsgq sc m
  end.

(** msg->reply: no memcache message has one. *)
Definition reply (m : pointer) : W Z :=
  p ← msg_ld m_proto m;
  match p with Some Redis => redis_reply m | _ => fault end.

(** msg->fragment *)
Definition fragment (m : pointer) (ncontinuum : Z) : W (Z * list positive) :=
  p ← msg_ld m_proto m;
  match p with
  | None => fault
  | Some Redis => redis_fragment m ncontinuum
  | Some Memcache => memcache_fragment m ncontinuum
  end.

(** The request failed before it was forwarded. *)
Definition fail_req (c m : pointer) : W unit :=
  nr ← msg_ld (fun x => noreply (m_regs x)) m;
  when (negb nr) (req_client_enqueue_omsgq c m);;
  req_forward_error c m.

Definition req_reply (c m : pointer) : W unit :=
  status ← req_make_reply c m;
  if negb (status =? NC_OK) then conn_errno c
  else
    status ← reply m;
    if negb (status =? NC_OK) then conn_errno c else event_out_or_err c.

Definition req_recv_done (c m nmsg : pointer) : W unit :=
  conn_st (c_set_rmsg nmsg) c;;
  f ← req_filter c m;
  if (f : bool) then mret tt
  else
    nf ← msg_ld (fun x => noforward (m_regs x)) m;
    if (nf : bool) then req_reply c m
    else
      p ← conn_pool c;
      n ← pool_ld (fun x => sp_ncontinuum (pl_core x)) p;
      x ← fragment m n;
      let '(status, frag_msgq) := x in
      when (negb (status =? NC_OK)) (fail_req c m);;
      match frag_msgq with
      | [] => req_forward c m
      | _ =>
          status ← req_make_reply c m;
          when (negb (status =? NC_OK)) (fail_req c m);;
          each (fun a => req_forward c (Some a)) frag_msgq
      end.

(** [post] is the connection's post_connect handler. *)
Definition server_connected (post : pointer -> W unit) (c : pointer) : W unit :=
  conn_st (c_set_connecting false) c;;
  conn_st (c_set_connected true) c;;
  post c.

Definition req_send_next (post : pointer -> W unit) (c : pointer) : W pointer :=
  cg ← conn_ld c_connecting c;
  when cg (server_connected post c);;
  q ← conn_ld c_imsg_q c;
  match q with
  | [] =>
      status ← event_del_out c;
      when (negb (status =? NC_OK)) (conn_errno c);;
      mret None
  | a :: _ =>
      smsg ← conn_ld c_smsg c;
      let nmsg := match smsg with None => Some a | Some s => tailq_next s q end in
      conn_st (c_set_smsg nmsg) c;;
      mret nmsg
  end.

Definition req_send_done (c m : pointer) : W unit :=
  req_server_dequeue_imsgq c m;;
  nr ← msg_ld (fun x => noreply (m_regs x)) m;
  if (nr : bool) then req_put m else req_server_enqueue_omsgq c m.

(** writeCmd: 0 for the commands that change data. *)
Definition writeCmd (t : msg_type) : Z :=
  match t with
  | MSG_REQ_REDIS_DEL | MSG_REQ_REDIS_EXPIRE | MSG_REQ_REDIS_EXPIREAT | MSG_REQ_REDIS_DECR | MSG_REQ_REDIS_DECRBY
  | MSG_REQ_REDIS_INCR | MSG_REQ_REDIS_INCRBY | MSG_REQ_REDIS_INCRBYFLOAT | MSG_REQ_REDIS_PERSIST
  | MSG_REQ_REDIS_PEXPIRE | MSG_REQ_REDIS_GETSET | MSG_REQ_REDIS_PSETEX | MSG_REQ_REDIS_APPEND | MSG_REQ_REDIS_PFADD
  | MSG_REQ_REDIS_PEXPIREAT | MSG_REQ_REDIS_MSET | MSG_REQ_REDIS_SET | MSG_REQ_REDIS_SETBIT | MSG_REQ_REDIS_SETEX
  | MSG_REQ_REDIS_SETNX | MSG_REQ_REDIS_SETRANGE | MSG_REQ_REDIS_HDEL | MSG_REQ_REDIS_HINCRBY
  | MSG_REQ_REDIS_HINCRBYFLOAT | MSG_REQ_REDIS_HMSET | MSG_REQ_REDIS_HSET | MSG_REQ_REDIS_LPOP | MSG_REQ_REDIS_LPUSH
  | MSG_REQ_REDIS_LPUSHX | MSG_REQ_REDIS_LREM | MSG_REQ_REDIS_LSET | MSG_REQ_REDIS_LINSERT | MSG_REQ_REDIS_LTRIM
  | MSG_REQ_REDIS_HSETNX | MSG_REQ_REDIS_RPOP | MSG_REQ_REDIS_RPOPLPUSH | MSG_REQ_REDIS_RPUSH | MSG_REQ_REDIS_RPUSHX
  | MSG_REQ_REDIS_SADD | MSG_REQ_REDIS_SREM | MSG_REQ_REDIS_ZADD | MSG_REQ_REDIS_ZINCRBY | MSG_REQ_REDIS_ZREM
  | MSG_REQ_REDIS_ZREMRANGEBYRANK | MSG_REQ_REDIS_ZREMRANGEBYLEX | MSG_REQ_REDIS_ZREMRANGEBYSCORE
  | MSG_REQ_REDIS_EVAL => 0
  | _ => 1
  end.

End Request.
