(* ===== verification/Response.v ===== *)
(** Responses on their way from a server to a client (nc_response.c, and
    redis_swallow_msg of proto/nc_redis.c). *)

From stdpp Require Import gmap.
From S2P Require Import Prelude CArray Mbuf Message Parser RedisReq Memcache Pool State Rbtree World MsgStore RedisMsg McMsg ReqCore ConnServer Request.

Section Response.
Context `{env : Env}.

Definition rsp_get (c : pointer) : W pointer :=
  redis ← conn_ld c_redis c;
  m ← msg_get c false redis;
  match m with
  | None => conn_errno c;; mret None
  | Some _ => mret m
  end.

(** The fragments behind the vector leave the client's queue; the first
    error found is returned. *)
Fixpoint drop_fragments (c : pointer) (id err : Z) (l : list positive) : W Z :=
  match l with
  | [] => mret err
  | a :: l' =>
      fid ← msg_ld m_frag_id (Some a);
      if fid =? id then
        req_client_dequeue_omsgq c (Some a);;
        e ← msg_ld m_err (Some a);
        req_put (Some a);;
        drop_fragments c id (if (err =? 0) && negb (e =? 0) then e else err) l'
      else mret err
  end.

Definition rsp_make_error (c m : pointer) : W pointer :=
  id ← msg_ld m_frag_id m;
  err ← (if negb (id =? 0) then
           a ← addr m;
           q ← conn_ld c_omsg_q c;
           drop_fragments c id 0 (tailq_after a q)
         else msg_ld m_err m);
  put_peer m;;
  redis ← conn_ld c_redis c;
  msg_get_error redis err.

Definition rsp_recv_next (c : pointer) (alloc : bool) : W pointer :=
  eof ← conn_ld c_eof c;
  if (eof : bool) then
    rmsg ← conn_ld c_rmsg c;
    match rmsg with
    | None => mret tt
    | Some _ => conn_st (c_set_rmsg None) c;; rsp_put rmsg
    end;;
    conn_st (c_set_done true) c;;
    mret None
  else
    rmsg ← conn_ld c_rmsg c;
    match rmsg with
    | Some _ => mret rmsg
    | None =>
        if negb alloc then mret None
        else
          m ← rsp_get c;
          match m with
          | None => mret None
          | Some _ => conn_st (c_set_rmsg m) c;; mret m
          end
    end.

(** msg->failure *)
Definition failure (m : pointer) : W bool :=
  p ← msg_ld m_proto m;
  t ← msg_type_of m;
  match p with
  | None => fault
  | Some Redis => mret (redis_failure t)
  | Some Memcache => mret (memcache_failure t)
  end.

(** redis_swallow_msg: an error in reply to SELECT is logged, up to 127 of
    its bytes; the length is computed on 32 bits. *)
Definition redis_swallow_msg (c pm m : pointer) : W unit :=
  pt ← msg_type_of pm;
  t ← msg_type_of m;
  if msg_type_eqb pt MSG_REQ_REDIS_SELECT && redis_error t then
    conn_pool c;;
    h ← msg_ld m_mhdr m;
    match list.last h with
    | None => fault
    | Some b =>
        let copy_len := Z.min (u32 (mbuf_length b - 3)) 127 in
        if 1 + copy_len <=? zlen (mb_mem b) then mret tt else fault
    end
  else mret tt.

Definition swallow_msg (c pm m : pointer) : W unit :=
  redis ← conn_ld c_redis c;
  if (redis : bool) then redis_swallow_msg c pm m else mret tt.

(** The server connection is closed with EINVAL. *)
Definition rsp_reject (c m : pointer) : W unit :=
  rsp_put m;;
  conn_st (c_set_err EINVAL) c;;
  conn_st (c_set_done true) c.

Definition rsp_filter (c m : pointer) : W bool :=
  e ← msg_empty m;
  if (e : bool) then rsp_put m;; mret true
  else
    q ← conn_ld c_omsg_q c;
    match q with
    | [] => rsp_reject c m;; mret true
    | a :: _ =>
        f ← failure m;
        if (f : bool) then rsp_reject c m;; mret true
        else
          sw ← msg_ld m_swallow (Some a);
          if (sw : bool) then
            swallow_msg c (Some a) m;;
            req_server_dequeue_omsgq c (Some a);;
            msg_st (m_set_done true) (Some a);;
            rsp_put m;;
            req_put (Some a);;
            mret true
          else mret false
    end.

(** msg->pre_coalesce *)
Definition pre_coalesce (m : pointer) : W unit :=
  p ← msg_ld m_proto m;
  match p with
  | None => fault
  | Some Redis => redis_pre_coalesce m
  | Some Memcache => memcache_pre_coalesce m
  end.

Definition rsp_forward (sc m : pointer) : W unit :=
  conn_server_ok sc;;
  q ← conn_ld c_omsg_q sc;
  let pm := head q in
  req_server_dequeue_omsgq sc pm;;
  msg_st (m_set_done true) pm;;
  now ← ask ev_time;
  msg_st (m_upd_times (t_set_recv_server now)) m;;
  msg_st (m_set_peer m) pm;;
  msg_st (m_set_peer pm) m;;
  pre_coalesce m;;
  cc ← msg_ld m_owner pm;
  d ← head_done cc;
  if (d : bool) then event_out_or_err cc else mret tt.

Definition rsp_recv_done (c m nmsg : pointer) : W unit :=
  conn_st (c_set_rmsg nmsg) c;;
  f ← rsp_filter c m;
  if (f : bool) then mret tt else rsp_forward c m.

(** req_done of a pointer that may be NULL. *)
Definition done_or_null (c pm : pointer) : W bool :=
  match pm with None => mret false | Some _ => req_done c pm end.

Definition rsp_send_next (c : pointer) : W pointer :=
  q ← conn_ld c_omsg_q c;
  let pm := head q in
  d ← done_or_null c pm;
  if negb d then
    eof ← conn_ld c_eof c;
    when (negb (not_null pm) && eof) (conn_st (c_set_done true) c);;
    status ← event_del_out c;
    when (negb (status =? NC_OK)) (conn_errno c);;
    mret None
  else
    smsg ← conn_ld c_smsg c;
    pm ← (match smsg with
          | None => mret pm
          | Some _ =>
              pe ← msg_ld m_peer smsg;
              a ← addr pe;
              q ← conn_ld c_omsg_q c;
              mret (tailq_next a q)
          end);
    d ← done_or_null c pm;
    if negb d then conn_st (c_set_smsg None) c;; mret None
    else
      e ← req_error c pm;
      if (e : bool) then
        m ← rsp_make_error c pm;
        match m with
        | None => conn_errno c;; mret None
        | Some _ =>
            msg_st (m_set_peer pm) m;;
            msg_st (m_set_peer m) pm;;
            conn_st (c_set_smsg m) c;;
            mret m
        end
      else
        m ← msg_ld m_peer pm;
        conn_st (c_set_smsg m) c;;
        mret m.

Definition rsp_send_done (c m : pointer) : W unit :=
  pm ← msg_ld m_peer m;
  req_client_dequeue_omsgq c pm;;
  now ← ask ev_time;
  msg_st (m_upd_times (t_set_send_client now)) pm;;
  req_put pm.

End Response.
