(* ===== verification/MsgIO.v ===== *)
(** Receiving and sending messages (the rest of nc_message.c), the handlers
    of a connection, and redis_post_connect. *)

From stdpp Require Import gmap.
From S2P Require Import Prelude CArray Mbuf Message Parser RedisReq RedisRsp Memcache Pool State Rbtree World MsgStore RedisMsg McMsg ReqCore ConnServer Request Response.

Section MsgIO.
Context `{env : Env}.

(** ** Receiving *)

(** conn->recv_next and conn->recv_done *)
Definition recv_next (c : pointer) (alloc : bool) : W pointer :=
  client ← conn_ld c_client c;
  if (client : bool) then req_recv_next c alloc else rsp_recv_next c alloc.

Definition recv_done (c m nmsg : pointer) : W unit :=
  client ← conn_ld c_client c;
  if (client : bool) then req_recv_done c m nmsg else rsp_recv_done c m nmsg.

(** msg->parser: the parser of the message on its last mbuf. *)
Definition parse_with {St} (f : option (pmsg St)) (wrap_fsm : St -> fsm) (x : msg) : option msg :=
  match f with
  | None => None
  | Some y => Some (m_set_fsm (wrap_fsm (pm_state y)) (m_set_pos (Some (pm_pos y)) (m_set_result (pm_result y) (m_set_regs (pm_regs y) x))))
  end.

Definition parse_msg (ok : Z -> bool) (dsz : Z) (x : msg) : option msg :=
  match list.last (m_mhdr x), m_pos x with
  | Some b, Some pos =>
      match m_fsm x with
      | NoParser => None
      | RedisReqFsm s => parse_with (redis_parse_req ok dsz b (mk_pmsg s pos (m_result x) (m_regs x))) RedisReqFsm x
      | RedisRspFsm s => parse_with (RedisRsp.Rsp.redis_parse_rsp b (mk_pmsg s pos (m_result x) (m_regs x))) RedisRspFsm x
      | McReqFsm s => parse_with (Memcache.McReq.memcache_parse_req ok b (mk_pmsg s pos (m_result x) (m_regs x))) McReqFsm x
      | McRspFsm s => parse_with (Memcache.McRsp.memcache_parse_rsp b (mk_pmsg s pos (m_result x) (m_regs x))) McRspFsm x
      end
  | _, _ => None
  end.

(** errno after a MSG_PARSE_ERROR: the request parsers have a second exit,
    enomem, taken when the array of keys could not grow, where errno is what
    realloc left; error sets EINVAL. *)
Definition parse_errno (ok : Z -> bool) (dsz : Z) (x : msg) : Z :=
  match list.last (m_mhdr x), m_pos x with
  | Some b, Some pos =>
      match m_fsm x with
      | RedisReqFsm s =>
          match parse_loop (req_step ok dsz) (req_fuel b pos) b pos s (m_regs x) with Renomem _ _ => ENOMEM | _ => EINVAL end
      | McReqFsm s =>
          match parse_loop (Memcache.McReq.mcreq_step ok) (Memcache.McReq.mcreq_fuel b pos) b pos s (m_regs x) with
          | Renomem _ _ => ENOMEM
          | _ => EINVAL
          end
      | _ => EINVAL
      end
  | _, _ => EINVAL
  end.

Definition parser (m : pointer) : W unit :=
  ok ← ask ev_ok;
  dsz ← gets (fun w => mbuf_data_size (w_mbufs w));
  e ← msg_ld (parse_errno ok dsz) m;
  x ← msg_ld (parse_msg ok dsz) m;
  match x with
  | None => fault
  | Some x =>
      msg_st (fun _ => x) m;;
      match m_result x with MSG_PARSE_ERROR => set_errno e | _ => mret tt end
  end.

(** mbuf_split of the message at msg->pos. *)
Definition split_mbuf (m : pointer) : W (option mbuf) :=
  h ← msg_ld m_mhdr m;
  pos ← msg_ld m_pos m;
  n ← get_mbuf;
  match list.last h, pos, n with
  | _, _, None => mret None
  | Some b, Some p, Some n =>
      n ← copy_to n (slice (mb_mem b) p (mb_last b));
      msg_store_mbuf (set_last b p) m;;
      mret (Some n)
  | _, _, _ => fault
  end.

Definition msg_parsed (c m : pointer) : W Z :=
  h ← msg_ld m_mhdr m;
  pos ← msg_ld m_pos m;
  match list.last h with
  | None => fault
  | Some b =>
      if bool_decide (pos = Some (mb_last b)) then recv_done c m None;; mret NC_OK
      else
        n ← split_mbuf m;
        match n with
        | None => mret NC_ENOMEM
        | Some n =>
            x ← msg_ld (fun x => (m_owner x, m_request x)) m;
            redis ← conn_ld c_redis c;
            nmsg ← msg_get x.1 x.2 redis;
            match nmsg with
            | None => put_mbuf n;; mret NC_ENOMEM
            | Some _ =>
                msg_st (fun y => m_set_mhdr (mbuf_insert (m_mhdr y) n) y) nmsg;;
                msg_st (m_set_pos (Some (mb_pos n))) nmsg;;
                msg_st (m_set_mlen (mbuf_length n)) nmsg;;
                msg_st (add_mlen (- mbuf_length n)) m;;
                recv_done c m nmsg;;
                mret NC_OK
            end
        end
  end.

Definition msg_repair (m : pointer) : W Z :=
  n ← split_mbuf m;
  match n with
  | None => mret NC_ENOMEM
  | Some n =>
      msg_st (fun y => m_set_mhdr (mbuf_insert (m_mhdr y) n) y) m;;
      msg_st (m_set_pos (Some (mb_pos n))) m;;
      mret NC_OK
  end.

Definition msg_parse (c m : pointer) : W Z :=
  e ← msg_empty m;
  if (e : bool) then recv_done c m None;; mret NC_OK
  else
    parser m;;
    r ← msg_ld m_result m;
    status ← (match r with
              | MSG_PARSE_OK => msg_parsed c m
              | MSG_PARSE_REPAIR => msg_repair m
              | MSG_PARSE_AGAIN => mret NC_OK
              | MSG_PARSE_ERROR => conn_errno c;; mret NC_ERROR
              end);
    err ← conn_ld c_err c;
    mret (if negb (err =? 0) then NC_ERROR else status).

(** The last mbuf of the message, or a new one when it is full. *)
Definition recv_mbuf (m : pointer) : W (option mbuf) :=
  h ← msg_ld m_mhdr m;
  let fresh :=
    b ← get_mbuf;
    match b with
    | None => mret None
    | Some b =>
        msg_st (fun x => m_set_mhdr (mbuf_insert (m_mhdr x) b) x) m;;
        msg_st (m_set_pos (Some (mb_pos b))) m;;
        mret (Some b)
    end in
  match list.last h with
  | None => fresh
  | Some b => if mbuf_full b then fresh else mret (Some b)
  end.

(** The loop that parses the messages received; every round but the last
    ends a message, which has at least a byte. *)
Definition parse_messages (c m : pointer) : W Z :=
  n ← msg_ld m_mlen m;
  iterate (S (S (Z.to_nat n))) (fun m =>
    status ← msg_parse c m;
    if negb (status =? NC_OK) then mret (inr status)
    else
      nmsg ← recv_next c false;
      if bool_decide (nmsg = None) || bool_decide (nmsg = m) then mret (inr NC_OK) else mret (inl nmsg)) m.

Definition msg_recv_chain (c m : pointer) : W Z :=
  b ← recv_mbuf m;
  match b with
  | None => mret NC_ENOMEM
  | Some b =>
      x ← conn_recv c (mbuf_size b);
      match x with
      | inl status => mret (if status =? NC_EAGAIN then NC_OK else NC_ERROR)
      | inr data =>
          side ← conn_ld (fun y => c_client y || c_proxy y) c;
          when side (now ← ask ev_time; msg_st (m_upd_times (t_set_recv_client now)) m);;
          b ← copy_to b data;
          msg_store_mbuf b m;;
          msg_st (add_mlen (zlen data)) m;;
          parse_messages c m
      end
  end.

Definition msg_recv (c : pointer) : W Z :=
  conn_st (c_set_recv_ready true) c;;
  iterate ev_retries (fun _ : unit =>
    m ← recv_next c true;
    match m with
    | None => mret (inr NC_OK)
    | Some _ =>
        status ← msg_recv_chain c m;
        if negb (status =? NC_OK) then mret (inr status)
        else
          rr ← conn_ld c_recv_ready c;
          mret (if (rr : bool) then inl tt else inr NC_OK)
    end) tt.

(** ** Sending *)

Definition NC_IOV_MAX : Z := 128.
Definition SSIZE_MAX : Z := 2 ^ 63 - 1.

(** An iovec: a range of an mbuf of a message. *)
Record iovec := mk_iovec { iov_msg : positive; iov_base : ptr; iov_len : Z }.

(** The loop over the mbufs of a message. *)
Fixpoint build_iov (a : positive) (h : list mbuf) (sendv : list iovec) (nsend : Z) : list iovec * Z :=
  match h with
  | [] => (sendv, nsend)
  | b :: h' =>
      if (zlen sendv <? NC_IOV_MAX) && (nsend <? SSIZE_MAX) then
        if mbuf_empty b then build_iov a h' sendv nsend
        else
          let mlen := if SSIZE_MAX <? nsend + mbuf_length b then SSIZE_MAX - nsend else mbuf_length b in
          build_iov a h' (sendv ++ [mk_iovec a (mk_ptr (mb_id b) (mb_pos b)) mlen]) (nsend + mlen)
      else (sendv, nsend)
  end.

(** The bytes an iovec points to. *)
Definition iov_bytes (v : iovec) : W (list Z) :=
  h ← msg_ld m_mhdr (Some (iov_msg v));
  match find (fun b => Pos.eqb (mb_id b) (ptr_buf (iov_base v))) h with
  | None => fault
  | Some b => mret (slice (mb_mem b) (ptr_off (iov_base v)) (ptr_off (iov_base v) + iov_len v))
  end.

Fixpoint iovs_bytes (l : list iovec) : W (list Z) :=
  match l with
  | [] => mret []
  | v :: l' => x ← iov_bytes v; y ← iovs_bytes l'; mret (x ++ y)
  end.

(** Advance the mbufs over [nsent] bytes: the mbufs, what is left of
    [nsent], and whether the end of the message was reached. *)
Fixpoint consume (h : list mbuf) (nsent : Z) : list mbuf * Z * bool :=
  match h with
  | [] => ([], nsent, true)
  | b :: h' =>
      if mbuf_empty b then let '(h', n, d) := consume h' nsent in (b :: h', n, d)
      else if nsent <? mbuf_length b then (set_pos b (mb_pos b + nsent) :: h', 0, false)
      else let '(h', n, d) := consume h' (nsent - mbuf_length b) in (set_pos b (mb_last b) :: h', n, d)
  end.

Section Send.
Variable send_next : pointer -> W pointer.
Variable send_done : pointer -> pointer -> W unit.

(** Collect messages and their iovecs; a round visits another request of the
    connection's queues. *)
Definition collect (c m : pointer) : W (list positive * list iovec * Z) :=
  fuel ← conn_ld (fun x => S (length (c_imsg_q x) + length (c_omsg_q x))) c;
  iterate fuel (fun '(m, send_msgq, sendv, nsend) =>
    a ← addr m;
    h ← msg_ld m_mhdr m;
    let send_msgq := send_msgq ++ [a] in
    let '(sendv, nsend) := build_iov a h sendv nsend in
    if (NC_IOV_MAX <=? zlen sendv) || (SSIZE_MAX <=? nsend) then mret (inr (send_msgq, sendv, nsend))
    else
      m ← send_next c;
      match m with
      | None => mret (inr (send_msgq, sendv, nsend))
      | Some _ => mret (inl (m, send_msgq, sendv, nsend))
      end) (m, [], [], 0).

(** Process the messages after [nsent] bytes were taken. *)
Fixpoint postprocess (c : pointer) (send_msgq : list positive) (nsent : Z) : W unit :=
  match send_msgq with
  | [] => mret tt
  | a :: q =>
      if nsent =? 0 then
        e ← msg_empty (Some a);
        when e (send_done c (Some a));;
        postprocess c q 0
      else
        h ← msg_ld m_mhdr (Some a);
        let '(h, nsent, complete) := consume h nsent in
        msg_st (m_set_mhdr h) (Some a);;
        when complete (
          side ← conn_ld (fun y => c_client y || c_proxy y) c;
          when (negb side) (now ← ask ev_time; msg_st (m_upd_times (t_set_send_server now)) (Some a));;
          send_done c (Some a));;
        postprocess c q nsent
  end.

Definition msg_send_chain (c m : pointer) : W Z :=
  x ← collect c m;
  let '(send_msgq, sendv, nsend) := x in
  conn_st (c_set_smsg None) c;;
  n ← (if negb (nsend =? 0) then data ← iovs_bytes sendv; conn_sendv c data else mret 0);
  postprocess c send_msgq (if 0 <? n then n else 0);;
  mret (if 0 <=? n then NC_OK else if n =? NC_EAGAIN then NC_OK else NC_ERROR).

(** A bound for the rounds of msg_send: every full write empties an mbuf or
    ends a message. *)
Definition send_fuel (w : world) : nat :=
  S (map_fold (fun _ x n => 2 + length (m_mhdr x) + n)%nat O (w_msgs w)).

Definition msg_send_with (c : pointer) : W Z :=
  conn_st (c_set_send_ready true) c;;
  fuel ← gets send_fuel;
  iterate fuel (fun _ : unit =>
    m ← send_next c;
    match m with
    | None => mret (inr NC_OK)
    | Some _ =>
        status ← msg_send_chain c m;
        if negb (status =? NC_OK) then mret (inr status)
        else
          sr ← conn_ld c_send_ready c;
          mret (if (sr : bool) then inl tt else inr NC_OK)
    end) tt.

End Send.

(** [send] is msg_send on the connection, which is connected by now. *)
Definition redis_post_connect (send : pointer -> W Z) (c : pointer) : W unit :=
  p ← conn_pool c;
  db ← pool_ld pl_redis_db p;
  if db <=? 0 then mret tt
  else
    redis ← conn_ld c_redis c;
    m ← msg_get c true redis;
    match m with
    | None => mret tt
    | Some _ =>
        let digits := zlen (dec db) in
        status ← msg_prepend_format m
          (bytes_of "*2" ++ CRLF ++ bytes_of "$6" ++ CRLF ++ bytes_of "SELECT" ++ CRLF ++
           [36] ++ dec_s32 digits ++ CRLF ++ dec_s32 db ++ CRLF);
        if negb (status =? NC_OK) then msg_put m
        else
          msg_st (m_upd_regs (fun r => set_type r MSG_REQ_REDIS_SELECT)) m;;
          msg_st (m_set_result MSG_PARSE_OK) m;;
          msg_st (m_set_swallow true) m;;
          msg_st (m_set_owner None) m;;
          req_server_enqueue_imsgq_head c m;;
          send c;;
          mret tt
    end.

(** conn->post_connect *)
Definition post_connect (send : pointer -> W Z) (c : pointer) : W unit :=
  redis ← conn_ld c_redis c;
  if (redis : bool) then redis_post_connect send c else mret tt.

(** msg_send on a client connection and on a server connection.  The
    handler that runs when a server connection is established sends itself,
    on a connection that is not connecting any more. *)
Definition msg_send_client : pointer -> W Z := msg_send_with rsp_send_next rsp_send_done.
Definition msg_send_connected : pointer -> W Z := msg_send_with (req_send_next (fun _ => fault)) req_send_done.
Definition msg_send_server : pointer -> W Z := msg_send_with (req_send_next (post_connect msg_send_connected)) req_send_done.

Definition msg_send (c : pointer) : W Z :=
  client ← conn_ld c_client c;
  if (client : bool) then msg_send_client c else msg_send_server c.

End MsgIO.
