(* ===== verification/Core.v ===== *)
(** The listener (nc_proxy.c) and the reaction to events and timeouts
    (nc_core.c). *)

From stdpp Require Import gmap.
From S2P Require Import Prelude CArray Mbuf Message Parser Pool State Rbtree World MsgStore RedisMsg McMsg ReqCore ConnServer Request Response MsgIO.

Definition EVENT_READ : Z := 0x0000ff.
Definition EVENT_WRITE : Z := 0x00ff00.
Definition EVENT_ERR : Z := 0xff0000.

Section Core.
Context `{env : Env}.

(** ** The listener *)

Definition proxy_ref (c : pointer) (p : nat) : W unit :=
  pool_st (pl_set_p_conn c) p;; conn_st (c_set_owner (OwnPool p)) c.

Definition proxy_unref (c : pointer) : W unit :=
  o ← conn_ld c_owner c;
  conn_st (c_set_owner NoOwner) c;;
  match o with OwnPool p => pool_st (pl_set_p_conn None) p | _ => fault end.

Definition conn_get_proxy (p : nat) : W pointer :=
  c ← _conn_get;
  match c with
  | None => mret None
  | Some _ =>
      redis ← pool_ld pl_redis p;
      conn_st (c_set_redis redis) c;;
      conn_st (c_set_proxy true) c;;
      proxy_ref c p;;
      mret c
  end.

Definition proxy_close (c : pointer) : W unit :=
  sd ← conn_ld c_sd c;
  if sd <? 0 then proxy_unref c;; conn_put c
  else
    proxy_unref c;;
    conn_st (c_set_sd (-1)) c;;
    conn_put c.

(** accept(2) until it is not interrupted: the descriptor, or the errno. *)
Definition accept : W (Z + Z) :=
  iterate ev_retries (fun _ : unit =>
    sd ← ask ev_socket;
    if sd <? 0 then
      set_errno (- sd);;
      mret (if - sd =? EINTR then inl tt else inr (inl (- sd)))
    else mret (inr (inr sd))) tt.

(** The new connection [c] is closed when a call that matters fails; the
    results of the keepalive and nodelay options are only logged. *)
Definition proxy_accept (lc : pointer) : W Z :=
  p ← conn_pool lc;
  x ← accept;
  match x with
  | inl e =>
      if (e =? EAGAIN) || (e =? ECONNABORTED) || (e =? EMFILE) || (e =? ENFILE) then
        conn_st (c_set_recv_ready false) lc;; mret NC_OK
      else mret NC_ERROR
  | inr sd =>
      n ← gets w_ncurr_cconn;
      if ev_max_ncconn <=? n then mret NC_OK
      else
        redis ← conn_ld c_redis lc;
        c ← conn_get_client p redis;
        match c with
        | None => mret NC_ENOMEM
        | Some _ =>
            conn_st (c_set_sd sd) c;;
            e ← ask ev_setopt;
            status ← sys_status e;
            if status <? 0 then client_close c;; mret status
            else
              status ← event_add_conn c;
              if status <? 0 then client_close c;; mret status else mret NC_OK
        end
  end.

Definition proxy_recv (lc : pointer) : W Z :=
  conn_st (c_set_recv_ready true) lc;;
  iterate ev_retries (fun _ : unit =>
    status ← proxy_accept lc;
    if negb (status =? NC_OK) then mret (inr status)
    else
      rr ← conn_ld c_recv_ready lc;
      mret (if (rr : bool) then inl tt else inr NC_OK)) tt.

(** ** Events *)

(** conn->recv *)
Definition core_recv (c : pointer) : W Z :=
  proxy ← conn_ld c_proxy c;
  if (proxy : bool) then proxy_recv c else msg_recv c.

(** conn->send: the listener has none. *)
Definition core_send (c : pointer) : W Z :=
  proxy ← conn_ld c_proxy c;
  if (proxy : bool) then fault else msg_send c.

(** conn->close *)
Definition conn_close (c : pointer) : W unit :=
  x ← conn_ld (fun x => (c_client x, c_proxy x)) c;
  if (x.1 : bool) then client_close c else if (x.2 : bool) then proxy_close c else server_close c.

Definition core_close (c : pointer) : W unit :=
  event_del_conn c;;
  conn_close c.

Definition core_error (c : pointer) : W unit :=
  e ← ask ev_soerror;
  set_errno e;;
  conn_st (c_set_err e) c;;
  core_close c.

(** One round of core_timeout, true when it ends the loop. *)
Definition timeout_round : W bool :=
  m ← msg_tmo_min;
  match m with
  | None => modify (w_set_timeout ev_max_timeout);; mret true
  | Some _ =>
      x ← msg_ld (fun x => m_error x || m_done x) m;
      if (x : bool) then msg_tmo_delete m;; mret false
      else
        c ← tmo (ld rb_data m);
        limit ← tmo (ld rb_key m);
        now ← ask ev_msec;
        if now <? limit then
          modify (w_set_timeout (Z.min (s32 (limit - now)) ev_max_timeout));; mret true
        else
          msg_tmo_delete m;;
          conn_st (c_set_err ETIMEDOUT) c;;
          core_close c;;
          mret false
  end.

(** Every round but the last takes an entry off the tree. *)
Definition core_timeout : W unit :=
  fuel ← gets (fun w => S (base.size (rt_mem (w_tmo w))));
  iterate fuel (fun _ : unit => d ← timeout_round; mret (if (d : bool) then inr tt else inl tt)) tt.

(** conn->done || conn->err, or a status other than NC_OK: close. *)
Definition close_after (status : Z) (c : pointer) : W bool :=
  x ← conn_ld (fun x => c_done x || negb (c_err x =? 0)) c;
  if negb (status =? NC_OK) || x then core_close c;; mret true else mret false.

Definition core_core (c : pointer) (events : Z) : W Z :=
  o ← conn_ld c_owner c;
  match o with
  | NoOwner => mret NC_OK
  | _ =>
      conn_st (c_set_events events) c;;
      if negb (Z.land events EVENT_ERR =? 0) then core_error c;; mret NC_ERROR
      else
        closed ← (if negb (Z.land events EVENT_READ =? 0) then status ← core_recv c; close_after status c else mret false);
        if (closed : bool) then mret NC_ERROR
        else
          closed ← (if negb (Z.land events EVENT_WRITE =? 0) then status ← core_send c; close_after status c else mret false);
          mret (if (closed : bool) then NC_ERROR else NC_OK)
  end.

(** The callbacks of one event_wait, then the timeouts. *)
Definition core_loop (evs : list (positive * Z)) : W unit :=
  each (fun '(c, events) => core_core (Some c) events;; mret tt) evs;;
  core_timeout.

End Core.
