(* ===== verification/Frame.v ===== *)
(** Framing: parts of the state a computation leaves alone.

    [Keeps f m] says that whenever [m] returns, [f] of the state is what it
    was.  The class is resolved by following the structure of [m]. *)

From stdpp Require Import gmap.
From S2P Require Import Prelude State Rbtree World.

Class Keeps {S A B} (f : S -> B) (m : ST S A) : Prop :=
  keeps : forall s x s', m s = Some (x, s') -> f s' = f s.

Section Keeps.
Context {S B : Type} (f : S -> B).

#[export] Instance keeps_ret {A} (x : A) : Keeps f (mret x).
Proof. by intros s y s' [= _ <-]. Qed.

#[export] Instance keeps_fault {A} : Keeps f (fault (A := A)).
Proof. done. Qed.

#[export] Instance keeps_gets {A} (g : S -> A) : Keeps f (gets g).
Proof. by intros s y s' [= _ <-]. Qed.

#[export] Instance keeps_reads {A} (g : S -> option A) : Keeps f (reads g).
Proof. intros s y s'. unfold reads. destruct (g s); [|done]. by intros [= _ <-]. Qed.

#[export] Instance keeps_bind {A C} (m : ST S A) (k : A -> ST S C) :
  Keeps f m -> (forall x, Keeps f (k x)) -> Keeps f (m ≫= k).
Proof.
  intros Hm Hk s y s'. unfold mbind, ST_bind. destruct (m s) as [[x s1]|] eqn:E; [|done].
  intros H. rewrite (Hk x _ _ _ H). by apply (Hm _ _ _ E).
Qed.

#[export] Instance keeps_when (b : bool) (m : ST S unit) : Keeps f m -> Keeps f (when b m).
Proof. intros H. unfold when. destruct b; [done|apply _]. Qed.

#[export] Instance keeps_each {A} (g : A -> ST S unit) l : (forall x, Keeps f (g x)) -> Keeps f (each g l).
Proof. intros H. induction l as [|x l IH]; simpl; apply _. Qed.

Lemma keeps_iterate {A C} (body : A -> ST S (A + C)) fuel x : (forall x, Keeps f (body x)) -> Keeps f (iterate fuel body x).
Proof.
  intros H. revert x. induction fuel as [|n IH]; intros x; simpl; [apply _|].
  apply keeps_bind; [done|]. intros [y|y]; [apply IH|apply _].
Qed.

Lemma keeps_modify (g : S -> S) : (forall s, f (g s) = f s) -> Keeps f (modify g).
Proof. intros H s y s' [= _ <-]. apply H. Qed.

End Keeps.

#[export] Existing Instance keeps_iterate.

(** Case analysis on what a computation branches on, and updates of fields
    [f] does not read. *)
#[export] Hint Extern 3 (Keeps _ (match ?x with _ => _ end)) => destruct x : typeclass_instances.
#[export] Hint Extern 3 (Keeps _ (let _ := ?x in _)) => cbv zeta : typeclass_instances.
#[export] Hint Extern 2 (Keeps _ (modify _)) => apply keeps_modify; intros; reflexivity : typeclass_instances.

(** ** The primitives of the store *)

Section Prim.
Context `{env : Env} {B : Type} (f : world -> B).

Lemma keeps_ask {A} (g : nat -> A) : (forall w n, f (w_set_tick n w) = f w) -> Keeps f (ask g).
Proof. intros H s y s' [= _ <-]. apply H. Qed.

Lemma keeps_msg_st g p : (forall w a x, w_msgs w !! a = Some x -> f (w_set_msgs (<[a := g x]> (w_msgs w)) w) = f w) -> Keeps f (msg_st g p).
Proof.
  intros H s y s'. unfold msg_st. destruct p as [a|]; [|done]. destruct (w_msgs s !! a) as [x|] eqn:E; [|done].
  intros [= _ <-]. by apply H.
Qed.

Lemma keeps_conn_st g p : (forall w a x, p = Some a -> w_conns w !! a = Some x -> f (w_set_conns (<[a := g x]> (w_conns w)) w) = f w) -> Keeps f (conn_st g p).
Proof.
  intros H s y s'. unfold conn_st. destruct p as [a|]; [|done]. destruct (w_conns s !! a) as [x|] eqn:E; [|done].
  intros [= _ <-]. by apply H.
Qed.

Lemma keeps_pool_st g i : (forall w x, w_pools w !! i = Some x -> f (w_set_pools (<[i := g x]> (w_pools w)) w) = f w) -> Keeps f (pool_st g i).
Proof.
  intros H s y s'. unfold pool_st. destruct (w_pools s !! i) as [x|] eqn:E; [|done]. intros [= _ <-]. by apply H.
Qed.

Lemma keeps_new_addr : (forall w n, f (w_set_next n w) = f w) -> Keeps f new_addr.
Proof. intros H s y s' [= _ <-]. apply H. Qed.

Lemma keeps_tmo {A} (m : ST rbtree A) : (forall w t, f (w_set_tmo t w) = f w) -> Keeps f (tmo m).
Proof. intros H s y s'. unfold tmo. destruct (m (w_tmo s)) as [[x t]|]; [|done]. intros [= _ <-]. apply H. Qed.

End Prim.

#[export] Instance keeps_msg_ld {A B} (f : world -> B) (g : msg -> A) p : Keeps f (msg_ld g p).
Proof. unfold msg_ld. apply _. Qed.
#[export] Instance keeps_conn_ld {A B} (f : world -> B) (g : conn -> A) p : Keeps f (conn_ld g p).
Proof. unfold conn_ld. apply _. Qed.
#[export] Instance keeps_pool_ld {A B} (f : world -> B) (g : wpool -> A) p : Keeps f (pool_ld g p).
Proof. unfold pool_ld. apply _. Qed.
#[export] Instance keeps_addr {B} (f : world -> B) p : Keeps f (addr p).
Proof. unfold addr. apply _. Qed.
#[export] Instance keeps_errno {B} (f : world -> B) : Keeps f errno.
Proof. unfold errno. apply _. Qed.

#[export] Hint Extern 2 (Keeps _ (ask _)) => apply keeps_ask; intros; reflexivity : typeclass_instances.
#[export] Hint Extern 2 (Keeps _ (msg_st _ _)) => apply keeps_msg_st; intros; reflexivity : typeclass_instances.
#[export] Hint Extern 2 (Keeps _ (conn_st _ _)) => apply keeps_conn_st; intros; reflexivity : typeclass_instances.
#[export] Hint Extern 2 (Keeps _ (pool_st _ _)) => apply keeps_pool_st; intros; reflexivity : typeclass_instances.
#[export] Hint Extern 2 (Keeps _ new_addr) => apply keeps_new_addr; intros; reflexivity : typeclass_instances.
#[export] Hint Extern 2 (Keeps _ (tmo _)) => apply keeps_tmo; intros; reflexivity : typeclass_instances.

(** ** Taking a run apart *)

Lemma bind_Some {S A C} (m : ST S A) (k : A -> ST S C) s y s' :
  (m ≫= k) s = Some (y, s') <-> exists x s1, m s = Some (x, s1) /\ k x s1 = Some (y, s').
Proof.
  unfold mbind, ST_bind. destruct (m s) as [[x s1]|]; split; try done.
  - intros H. by exists x, s1.
  - intros (x' & s1' & [= <- <-] & H). done.
  - intros (x' & s1' & H & _). done.
Qed.

Lemma ret_Some {S A} (x y : A) (s s' : S) : (mret x : ST S A) s = Some (y, s') <-> y = x /\ s' = s.
Proof. split; [by intros [= <- <-]|by intros [-> ->]]. Qed.

Lemma msg_ld_Some {A} (f : msg -> A) p w y w' :
  msg_ld f p w = Some (y, w') <-> w' = w /\ exists a x, p = Some a /\ w_msgs w !! a = Some x /\ y = f x.
Proof.
  unfold msg_ld, reads. split.
  - destruct p as [a|]; [|done]. destruct (w_msgs w !! a) as [x|] eqn:E; [|done]. intros [= <- <-]. split; [done|]. by exists a, x.
  - intros (-> & a & x & -> & E & ->). by rewrite E.
Qed.

Lemma conn_ld_Some {A} (f : conn -> A) p w y w' :
  conn_ld f p w = Some (y, w') <-> w' = w /\ exists a x, p = Some a /\ w_conns w !! a = Some x /\ y = f x.
Proof.
  unfold conn_ld, reads. split.
  - destruct p as [a|]; [|done]. destruct (w_conns w !! a) as [x|] eqn:E; [|done]. intros [= <- <-]. split; [done|]. by exists a, x.
  - intros (-> & a & x & -> & E & ->). by rewrite E.
Qed.

Lemma pool_ld_Some {A} (f : wpool -> A) i w y w' :
  pool_ld f i w = Some (y, w') <-> w' = w /\ exists x, w_pools w !! i = Some x /\ y = f x.
Proof.
  unfold pool_ld, reads. split.
  - destruct (w_pools w !! i) as [x|] eqn:E; [|done]. intros [= <- <-]. split; [done|]. by exists x.
  - intros (-> & x & E & ->). by rewrite E.
Qed.

Lemma msg_st_Some f p w y w' :
  msg_st f p w = Some (y, w') <-> exists a x, p = Some a /\ w_msgs w !! a = Some x /\ w' = w_set_msgs (<[a := f x]> (w_msgs w)) w.
Proof.
  destruct y. unfold msg_st. split.
  - destruct p as [a|]; [|done]. destruct (w_msgs w !! a) as [x|] eqn:E; [|done]. intros [= <-]. by exists a, x.
  - intros (a & x & -> & E & ->). by rewrite E.
Qed.

Lemma conn_st_Some f p w y w' :
  conn_st f p w = Some (y, w') <-> exists a x, p = Some a /\ w_conns w !! a = Some x /\ w' = w_set_conns (<[a := f x]> (w_conns w)) w.
Proof.
  destruct y. unfold conn_st. split.
  - destruct p as [a|]; [|done]. destruct (w_conns w !! a) as [x|] eqn:E; [|done]. intros [= <-]. by exists a, x.
  - intros (a & x & -> & E & ->). by rewrite E.
Qed.

(** Split the run in [H] at its binds. *)
Ltac inv_bind H :=
  let x := fresh "x" in let w := fresh "w" in let H1 := fresh "R" in
  apply bind_Some in H as (x & w & H1 & H).

(** Unfold the computation a [Keeps] goal is about until the instances
    apply. *)
Ltac solve_keeps :=
  repeat first
    [ apply _
    | lazymatch goal with
      | |- Keeps _ (_ ≫= _) => apply keeps_bind; [|intros ?]
      | |- Keeps _ (each _ _) => apply keeps_each; intros ?
      | |- Keeps _ (iterate _ _ _) => apply keeps_iterate; intros ?
      | |- Keeps _ (when _ _) => apply keeps_when
      | |- Keeps _ (if ?b then _ else _) => destruct b
      | |- Keeps _ (match ?x with _ => _ end) => destruct x
      | |- Keeps _ ?m => let rec hd t := lazymatch t with ?g _ => hd g | _ => t end in let h := hd m in progress unfold h; cbv beta zeta
      end ].

(** ** Partial correctness *)

(** Whatever [m] returns from [s] satisfies [Q]; [m] may fault. *)
Definition gives {S A} (m : ST S A) (s : S) (Q : A -> S -> Prop) : Prop :=
  forall x s', m s = Some (x, s') -> Q x s'.

Section Gives.
Context {S : Type}.

Lemma gives_ret {A} (x : A) (s : S) (Q : A -> S -> Prop) : Q x s -> gives (mret x) s Q.
Proof. by intros H y s' [= <- <-]. Qed.

Lemma gives_fault {A} (s : S) (Q : A -> S -> Prop) : gives fault s Q.
Proof. done. Qed.

Lemma gives_bind {A B} (m : ST S A) (k : A -> ST S B) (s : S) Q :
  gives m s (fun x s' => gives (k x) s' Q) -> gives (m ≫= k) s Q.
Proof. intros H y s' (x & s1 & H1 & H2)%bind_Some. by eapply H. Qed.

Lemma gives_mono {A} (m : ST S A) (s : S) (P Q : A -> S -> Prop) :
  gives m s P -> (forall x s', P x s' -> Q x s') -> gives m s Q.
Proof. intros H HPQ x s' E. by apply HPQ, H. Qed.

Lemma gives_gets {A} (f : S -> A) (s : S) (Q : A -> S -> Prop) : Q (f s) s -> gives (gets f) s Q.
Proof. by intros H y s' [= <- <-]. Qed.

Lemma gives_modify (f : S -> S) (s : S) (Q : unit -> S -> Prop) : Q tt (f s) -> gives (modify f) s Q.
Proof. by intros H y s' [= <- <-]. Qed.

Lemma gives_reads {A} (f : S -> option A) (s : S) (Q : A -> S -> Prop) :
  (forall x, f s = Some x -> Q x s) -> gives (reads f) s Q.
Proof. intros H y s'. unfold reads. destruct (f s) eqn:E; [|done]. intros [= <- <-]. by apply H. Qed.

Lemma gives_when (b : bool) (m : ST S unit) (s : S) (Q : unit -> S -> Prop) :
  (b = true -> gives m s Q) -> (b = false -> Q tt s) -> gives (when b m) s Q.
Proof. destruct b; intros H1 H2; [by apply H1|by apply gives_ret, H2]. Qed.

(** A frame is a consequence. *)
Lemma gives_keeps {A B} (f : S -> B) (m : ST S A) (s : S) (Q : A -> S -> Prop) :
  Keeps f m -> (forall x s', f s' = f s -> Q x s') -> gives m s Q.
Proof. intros Hk HQ x s' E. by eapply HQ, keeps. Qed.

Lemma gives_and {A} (m : ST S A) (s : S) (P Q : A -> S -> Prop) :
  gives m s P -> gives m s Q -> gives m s (fun x s' => P x s' /\ Q x s').
Proof. intros HP HQ x s' E. split; [by apply HP|by apply HQ]. Qed.

End Gives.

Section GivesPrim.
Context `{env : Env}.

Lemma gives_ask {A} (g : nat -> A) w (Q : A -> world -> Prop) : Q (g (w_tick w)) (w_set_tick (S (w_tick w)) w) -> gives (ask g) w Q.
Proof. by intros H y s' [= <- <-]. Qed.

Lemma gives_new_addr w (Q : positive -> world -> Prop) : Q (w_next w) (w_set_next (Pos.succ (w_next w)) w) -> gives new_addr w Q.
Proof. by intros H y s' [= <- <-]. Qed.

Lemma gives_msg_ld {A} (f : msg -> A) p w (Q : A -> world -> Prop) :
  (forall a x, p = Some a -> w_msgs w !! a = Some x -> Q (f x) w) -> gives (msg_ld f p) w Q.
Proof. intros H y w' (-> & a & x & -> & E & ->)%msg_ld_Some. by eapply H. Qed.

Lemma gives_msg_st f p w (Q : unit -> world -> Prop) :
  (forall a x, p = Some a -> w_msgs w !! a = Some x -> Q tt (w_set_msgs (<[a := f x]> (w_msgs w)) w)) -> gives (msg_st f p) w Q.
Proof. intros H [] w' (a & x & -> & E & ->)%msg_st_Some. by eapply H. Qed.

Lemma gives_conn_ld {A} (f : conn -> A) p w (Q : A -> world -> Prop) :
  (forall a x, p = Some a -> w_conns w !! a = Some x -> Q (f x) w) -> gives (conn_ld f p) w Q.
Proof. intros H y w' (-> & a & x & -> & E & ->)%conn_ld_Some. by eapply H. Qed.

Lemma gives_conn_st f p w (Q : unit -> world -> Prop) :
  (forall a x, p = Some a -> w_conns w !! a = Some x -> Q tt (w_set_conns (<[a := f x]> (w_conns w)) w)) -> gives (conn_st f p) w Q.
Proof. intros H [] w' (a & x & -> & E & ->)%conn_st_Some. by eapply H. Qed.

Lemma gives_pool_ld {A} (f : wpool -> A) i w (Q : A -> world -> Prop) :
  (forall x, w_pools w !! i = Some x -> Q (f x) w) -> gives (pool_ld f i) w Q.
Proof. intros H y w' (-> & x & E & ->)%pool_ld_Some. by eapply H. Qed.

End GivesPrim.

(** Step through a computation for partial correctness. *)
Ltac give_step :=
  lazymatch goal with
  | |- gives (mbind _ _) _ _ => apply gives_bind
  | |- gives (mret _) _ _ => apply gives_ret
  | |- gives fault _ _ => apply gives_fault
  | |- gives (gets _) _ _ => apply gives_gets
  | |- gives (modify _) _ _ => apply gives_modify
  | |- gives (ask _) _ _ => apply gives_ask
  | |- gives new_addr _ _ => apply gives_new_addr
  end.
Ltac give_w := repeat give_step.
