(* ===== verification/StoreFacts.v ===== *)
(** The well-formed store, and what the operations of nc_message.c that
    allocate and append do to it. *)

From stdpp Require Import gmap.
From S2P Require Import Prelude CArray Mbuf Message Parser Pool State Rbtree World MsgStore Frame.

(** ** Runs of the primitives *)

Lemma runs_Some {S A} (m : ST S A) s Q x s' : runs m s Q -> m s = Some (x, s') -> Q x s'.
Proof. unfold runs. intros H E. by rewrite E in H. Qed.

Lemma runs_keeps {S A B} (f : S -> B) (m : ST S A) s Q :
  Keeps f m -> runs m s Q -> runs m s (fun x s' => Q x s' /\ f s' = f s).
Proof.
  intros Hk. unfold runs. destruct (m s) as [[x s']|] eqn:E; [|done]. intros H. split; [done|]. by apply (Hk _ _ _ E).
Qed.

Lemma runs_eq {S A} (m : ST S A) s x s' : runs m s (fun y t => y = x /\ t = s') -> m s = Some (x, s').
Proof. unfold runs. destruct (m s) as [[y t]|]; [|done]. by intros [-> ->]. Qed.

Section Prim.
Context `{env : Env}.

Lemma run_ask {A} (g : nat -> A) w (Q : A -> world -> Prop) : Q (g (w_tick w)) (w_set_tick (S (w_tick w)) w) -> runs (ask g) w Q.
Proof. done. Qed.

Lemma run_msg_ld {A} (f : msg -> A) a x w (Q : A -> world -> Prop) :
  w_msgs w !! a = Some x -> Q (f x) w -> runs (msg_ld f (Some a)) w Q.
Proof. intros E H. unfold msg_ld. eapply runs_reads; [by rewrite E|done]. Qed.

Lemma run_msg_st f a x w (Q : unit -> world -> Prop) :
  w_msgs w !! a = Some x -> Q tt (w_set_msgs (<[a := f x]> (w_msgs w)) w) -> runs (msg_st f (Some a)) w Q.
Proof. intros E H. unfold msg_st, runs. by rewrite E. Qed.

Lemma run_conn_ld {A} (f : conn -> A) a x w (Q : A -> world -> Prop) :
  w_conns w !! a = Some x -> Q (f x) w -> runs (conn_ld f (Some a)) w Q.
Proof. intros E H. unfold conn_ld. eapply runs_reads; [by rewrite E|done]. Qed.

Lemma run_conn_st f a x w (Q : unit -> world -> Prop) :
  w_conns w !! a = Some x -> Q tt (w_set_conns (<[a := f x]> (w_conns w)) w) -> runs (conn_st f (Some a)) w Q.
Proof. intros E H. unfold conn_st, runs. by rewrite E. Qed.

Lemma run_pool_ld {A} (f : wpool -> A) i x w (Q : A -> world -> Prop) :
  w_pools w !! i = Some x -> Q (f x) w -> runs (pool_ld f i) w Q.
Proof. intros E H. unfold pool_ld. eapply runs_reads; [by rewrite E|done]. Qed.

Lemma run_new_addr w (Q : positive -> world -> Prop) : Q (w_next w) (w_set_next (Pos.succ (w_next w)) w) -> runs new_addr w Q.
Proof. done. Qed.

End Prim.

(** Step through the primitives of the store; a load finds its message or
    connection among the hypotheses. *)
Ltac run_w :=
  repeat first
    [ run_step
    | lazymatch goal with
      | |- runs (ask _) _ _ => apply run_ask
      | |- runs (msg_ld _ _) _ _ => eapply run_msg_ld; [eassumption|]
      | |- runs (msg_st _ _) _ _ => eapply run_msg_st; [eassumption|]
      | |- runs (conn_ld _ _) _ _ => eapply run_conn_ld; [eassumption|]
      | |- runs (conn_st _ _) _ _ => eapply run_conn_st; [eassumption|]
      | |- runs (pool_ld _ _) _ _ => eapply run_pool_ld; [eassumption|]
      | |- runs (reads _) _ _ => eapply runs_reads; [eassumption || reflexivity|]
      end ].

(** ** Well-formed stores *)

Definition ids (h : list mbuf) : list positive := map mb_id h.

Lemma find_id h b : NoDup (ids h) -> b ∈ h -> find (fun x => Pos.eqb (mb_id x) (mb_id b)) h = Some b.
Proof.
  induction h as [|x h IH]; intros Hn Hb; [by apply elem_of_nil in Hb|]. simpl. apply list.NoDup_cons in Hn as [Hx Hn].
  apply elem_of_cons in Hb as [->|Hb]; [by rewrite Pos.eqb_refl|]. destruct (Pos.eqb_spec (mb_id x) (mb_id b)) as [E|]; [|by apply IH].
  destruct Hx. unfold ids. rewrite E. apply list_elem_of_In, in_map, list_elem_of_In, Hb.
Qed.

(** The capacity of an mbuf. *)
Definition cap (w : world) : Z := mbuf_offset (w_mbufs w).

Record mhdr_ok (w : world) (h : list mbuf) : Prop := {
  mh_wf : Forall mbuf_wf h;
  mh_end : Forall (fun b => mb_end b = cap w) h;
  mh_nodup : NoDup (ids h);
  mh_next : Forall (fun a => (a < w_next w)%positive) (ids h);
  mh_free : forall a, a ∈ ids h -> a ∉ ids (free_mbufq (w_mbufs w))
}.

Lemma mhdr_ok_mono w w' h :
  cap w' = cap w -> (w_next w <= w_next w')%positive ->
  (forall a, a ∈ ids (free_mbufq (w_mbufs w')) -> a ∈ ids (free_mbufq (w_mbufs w))) ->
  mhdr_ok w h -> mhdr_ok w' h.
Proof.
  intros Hc Hn Hf [M1 M2 M3 M4 M5]. constructor; try done.
  - by rewrite Hc.
  - eapply List.Forall_impl; [|exact M4]. simpl. lia.
  - intros a Ha Hin. by apply (M5 a Ha), Hf.
Qed.

Record store_ok (w : world) : Prop := {
  so_free : NoDup (w_free_msgq w);
  so_free_new : forall a, a ∈ w_free_msgq w ->
    w_msgs w !! a = None /\ (a < w_next w)%positive /\ is_Some (rt_mem (w_tmo w) !! a);
  so_msgs : forall a x, w_msgs w !! a = Some x -> (a < w_next w)%positive /\ mhdr_ok w (m_mhdr x);
  so_pool : pool_wf (w_mbufs w);
  so_mbufs : NoDup (ids (free_mbufq (w_mbufs w)));
  so_mbufs_next : Forall (fun a => (a < w_next w)%positive) (ids (free_mbufq (w_mbufs w)))
}.

(** What [store_ok] reads. *)
Definition store_part (w : world) := (w_free_msgq w, w_msgs w, w_next w, rt_mem (w_tmo w), w_mbufs w).

Lemma store_ok_part w w' : store_part w' = store_part w -> store_ok w -> store_ok w'.
Proof.
  unfold store_part. intros [= E1 E2 E3 E4 E5] [H1 H2 H3 H4 H5 H6].
  constructor; rewrite ?E1, ?E2, ?E3, ?E4, ?E5; try done.
  intros a x Hx. destruct (H3 a x Hx) as [Ha Hm]. split; [done|].
  eapply mhdr_ok_mono; [unfold cap; by rewrite E5|by rewrite E3|by rewrite E5|done].
Qed.

Lemma store_ok_insert w a x :
  store_ok w -> (a < w_next w)%positive -> a ∉ w_free_msgq w -> mhdr_ok w (m_mhdr x) ->
  store_ok (w_set_msgs (<[a := x]> (w_msgs w)) w).
Proof.
  intros [H1 H2 H3 H4 H5 H6] Ha Hf Hx. constructor; simpl; try done.
  - intros b Hb. rewrite lookup_insert_ne by (by intros ->). by apply H2.
  - intros b y Hy. enough ((b < w_next w)%positive /\ mhdr_ok w (m_mhdr y)) as [? ?] by (split; [done|by eapply mhdr_ok_mono; [..|done]]).
    destruct (decide (b = a)) as [->|]; [rewrite lookup_insert_eq in Hy|rewrite lookup_insert_ne in Hy by done; by apply H3].
    by injection Hy as <-.
Qed.

(** A store to a message that is in the store. *)
Lemma store_ok_update w a x f :
  store_ok w -> w_msgs w !! a = Some x -> mhdr_ok w (m_mhdr (f x)) -> store_ok (w_set_msgs (<[a := f x]> (w_msgs w)) w).
Proof.
  intros Hw Hx Hf. apply store_ok_insert; try done; [by eapply so_msgs|].
  intros Hin. destruct (so_free_new _ Hw a Hin) as [E _]. congruence.
Qed.

(** The same as booleans, for evaluation on concrete worlds. *)
Definition mhdr_okb (w : world) (h : list mbuf) : bool :=
  forallb (fun b => mbuf_wfb b && (mb_end b =? cap w)) h && bool_decide (NoDup (ids h)) &&
  forallb (fun a => (a <? w_next w)%positive && bool_decide (a ∉ ids (free_mbufq (w_mbufs w)))) (ids h).

Definition pool_wfb (g : mbuf_pool) : bool :=
  (nfree_mbufq g =? zlen (free_mbufq g)) && (zlen (free_mbufq g) <? 2 ^ 32 - 1) && (0 <? mbuf_offset g) && (mbuf_offset g <? 2 ^ 32) &&
  (mbuf_chunk_size g =? mbuf_offset g + MBUF_HSIZE) &&
  forallb (fun b => (mb_magic b =? MBUF_MAGIC) && (zlen (mb_mem b) =? mbuf_chunk_size g)) (free_mbufq g).

Lemma pool_wfb_ok g : pool_wfb g = true -> pool_wf g.
Proof.
  unfold pool_wfb. intros [H1 H2]%andb_true_iff. b2p. constructor; try lia. rewrite forallb_forall in H2.
  apply list.Forall_forall. intros b Hb. rewrite list_elem_of_In in Hb. apply H2, andb_true_iff in Hb as [? ?]. lia.
Qed.

Definition store_okb (w : world) : bool :=
  bool_decide (NoDup (w_free_msgq w)) &&
  forallb (fun a => bool_decide (w_msgs w !! a = None) && (a <? w_next w)%positive && bool_decide (is_Some (rt_mem (w_tmo w) !! a))) (w_free_msgq w) &&
  forallb (fun ax => (ax.1 <? w_next w)%positive && mhdr_okb w (m_mhdr ax.2)) (map_to_list (w_msgs w)) &&
  pool_wfb (w_mbufs w) && bool_decide (NoDup (ids (free_mbufq (w_mbufs w)))) &&
  forallb (fun a => (a <? w_next w)%positive) (ids (free_mbufq (w_mbufs w))).

Lemma mhdr_okb_ok w h : mhdr_okb w h = true -> mhdr_ok w h.
Proof.
  unfold mhdr_okb. intros [[H1 H2]%andb_true_iff H3]%andb_true_iff. apply bool_decide_eq_true in H2.
  rewrite forallb_forall in H1, H3. constructor; try done; rewrite ?list.Forall_forall.
  - intros b Hb. specialize (H1 b). rewrite list_elem_of_In in Hb. apply H1, andb_true_iff in Hb as [Hb _]. by apply mbuf_wfb_wf.
  - intros b Hb. specialize (H1 b). rewrite list_elem_of_In in Hb. apply H1, andb_true_iff in Hb as [_ Hb]. lia.
  - intros a Ha. rewrite list_elem_of_In in Ha. apply H3, andb_true_iff in Ha as [Ha _]. by apply Pos.ltb_lt.
  - intros a Ha. rewrite list_elem_of_In in Ha. apply H3, andb_true_iff in Ha as [_ Ha]. by apply bool_decide_eq_true in Ha.
Qed.

Lemma store_okb_ok w : store_okb w = true -> store_ok w.
Proof.
  unfold store_okb. intros [[[[[H1 H2]%andb_true_iff H3]%andb_true_iff H4]%andb_true_iff H5]%andb_true_iff H6]%andb_true_iff.
  apply bool_decide_eq_true in H1, H5. rewrite forallb_forall in H2, H3, H6. constructor; try done; [..|by apply pool_wfb_ok|].
  - intros a Ha. rewrite list_elem_of_In in Ha. apply H2 in Ha as [[Ha Hn]%andb_true_iff Hr]%andb_true_iff.
    apply bool_decide_eq_true in Ha, Hr. by apply Pos.ltb_lt in Hn.
  - intros a x Hx%elem_of_map_to_list. rewrite list_elem_of_In in Hx. apply H3 in Hx as [Ha Hm]%andb_true_iff. simpl in *.
    split; [by apply Pos.ltb_lt|by apply mhdr_okb_ok].
  - apply list.Forall_forall. intros a Ha. rewrite list_elem_of_In in Ha. by apply H6, Pos.ltb_lt in Ha.
Qed.

(** The store holds the messages [M], with mbufs of capacity [C]. *)
Definition msgs_at (C : Z) (M : gmap positive msg) (w : world) : Prop := store_ok w /\ w_msgs w = M /\ cap w = C.

(** A change of the world outside the store. *)
Lemma msgs_at_part C M w w' : store_part w' = store_part w -> msgs_at C M w -> msgs_at C M w'.
Proof.
  intros E (Hw & <- & <-). split_and!; [by eapply store_ok_part|by injection E|]. unfold cap. by injection E as _ _ _ _ ->.
Qed.

Lemma run_upd C M f a x w (Q : unit -> world -> Prop) :
  msgs_at C M w -> M !! a = Some x -> mhdr_ok w (m_mhdr (f x)) ->
  (forall w', msgs_at C (<[a := f x]> M) w' -> Q tt w') -> runs (msg_st f (Some a)) w Q.
Proof.
  intros (Hw & <- & <-) Hx Hf HQ. eapply run_msg_st; [done|]. apply HQ. split_and!; try done. by apply store_ok_update.
Qed.

(** A store that leaves the mbufs alone. *)
Lemma run_upd_keep C M f a x w (Q : unit -> world -> Prop) :
  msgs_at C M w -> M !! a = Some x -> m_mhdr (f x) = m_mhdr x ->
  (forall w', msgs_at C (<[a := f x]> M) w' -> Q tt w') -> runs (msg_st f (Some a)) w Q.
Proof.
  intros H Hx Hf HQ. eapply run_upd; try done. rewrite Hf. destruct H as (Hw & <- & _). by eapply so_msgs.
Qed.

(** Two stores to the same message. *)
Lemma msg_st_fuse f g p w : (msg_st f p;; msg_st g p) w = msg_st (fun x => g (f x)) p w.
Proof.
  unfold mbind, ST_bind, msg_st. destruct p as [a|]; [|done]. destruct (w_msgs w !! a) as [x|]; [|done]. simpl.
  rewrite lookup_insert_eq. simpl. unfold w_set_msgs. simpl. by rewrite insert_insert_eq.
Qed.

Section Alloc.
Context `{env : Env}.
Hypothesis alloc_ok : forall n z, ev_ok n z = true.

Lemma run_nc_alloc z w (Q : bool -> world -> Prop) : Q true (w_set_tick (S (w_tick w)) w) -> runs (nc_alloc z) w Q.
Proof. intros H. unfold nc_alloc. run_w. by rewrite alloc_ok. Qed.

(** A new mbuf: empty, and with an identity of its own. *)
Record new_mbuf (w : world) (b : mbuf) : Prop := {
  nm_wf : mbuf_wf b;
  nm_data : mdata b = [];
  nm_pos : mb_pos b = 0;
  nm_last : mb_last b = 0;
  nm_end : mb_end b = cap w;
  nm_next : (mb_id b < w_next w)%positive;
  nm_free : mb_id b ∉ ids (free_mbufq (w_mbufs w));
  nm_new : forall a x, w_msgs w !! a = Some x -> mb_id b ∉ ids (m_mhdr x)
}.

Lemma run_get_mbuf C M w :
  msgs_at C M w -> runs get_mbuf w (fun o w' => exists b, o = Some b /\ new_mbuf w' b /\ msgs_at C M w').
Proof.
  intros (Hw & <- & <-). pose proof Hw as [H1 H2 H3 H4 H5 H6]. unfold get_mbuf. run_w.
  destruct (free_mbufq (w_mbufs w)) as [|b q] eqn:Eq; run_w.
  - apply run_nc_alloc. run_w. apply run_new_addr. run_w. simpl.
    set (chunk := resize _ _ _). set (m := Some (w_next w, chunk)).
    assert (Hm : malloc_ok (w_mbufs w) m). { subst m chunk. simpl. unfold zlen. rewrite length_resize. destruct H4. unfold MBUF_HSIZE in *. lia. }
    destruct (mbuf_get m (w_mbufs w)) as [[b g]|] eqn:Eg.
    2: { unfold mbuf_get, _mbuf_get in Eg. by rewrite Eq in Eg. }
    destruct (mbuf_get_wf _ _ _ _ H4 Hm Eg) as (Hb & Hd & He & Hg & Ho).
    unfold mbuf_get, _mbuf_get in Eg. rewrite Eq in Eg. injection Eg as Eb Eg. subst b g. run_w. cbv beta. eexists. split; [done|].
    split; [constructor; simpl; rewrite ?Eq; try done; try lia; try (by apply not_elem_of_nil)|split_and!; try done].
    2: { constructor; simpl; rewrite ?Eq; try done; try (by constructor).
      - intros a Ha. destruct (H2 a Ha) as (? & ? & ?). split_and!; [done|lia|done].
      - intros a x Hx. destruct (H3 a x Hx) as [Ha Hm2]. split; [lia|]. eapply mhdr_ok_mono; [done|simpl; lia|done|done]. }
    intros a x Hx Hin. destruct (H3 a x Hx) as [_ [_ _ _ M4 _]]. rewrite list.Forall_forall in M4. specialize (M4 _ Hin). lia.
  - destruct (mbuf_get None (w_mbufs w)) as [[b' g]|] eqn:Eg.
    2: { unfold mbuf_get, _mbuf_get in Eg. by rewrite Eq in Eg. }
    destruct (mbuf_get_wf None _ _ _ H4 I Eg) as (Hb & Hd & He & Hg & Ho).
    unfold mbuf_get, _mbuf_get in Eg. rewrite Eq in Eg. injection Eg as Eb Eg. subst b' g. run_w. cbv beta. eexists. split; [done|].
    apply list.NoDup_cons in H5 as [Hn5 H5]. apply Forall_cons_iff in H6 as [Hn6 H6].
    split; [constructor; simpl; try done; try lia|split_and!; try done].
    2: { constructor; simpl; try done.
      intros a x Hx. destruct (H3 a x Hx) as [Ha Hm2]. split; [lia|]. eapply mhdr_ok_mono; [done|simpl; lia| |done].
      simpl. rewrite Eq. by constructor. }
    intros a x Hx Hin. destruct (H3 a x Hx) as [_ [_ _ _ _ M5]]. specialize (M5 _ Hin). rewrite Eq in M5. apply M5. constructor.
Qed.

(** The store with other timers, in which every node is still there. *)
Lemma store_ok_tmo w t :
  store_ok w -> (forall a, is_Some (rt_mem (w_tmo w) !! a) -> is_Some (rt_mem t !! a)) -> store_ok (w_set_tmo t w).
Proof.
  intros [H1 H2 H3 H4 H5 H6] Ht. constructor; simpl; try done.
  - intros a Ha. destruct (H2 a Ha) as (? & ? & ?). auto.
  - intros a x Hx. destruct (H3 a x Hx) as [? ?]. split; [done|]. by eapply mhdr_ok_mono; [..|done].
Qed.

Lemma mhdr_ok_nil w : mhdr_ok w [].
Proof. constructor; try (by constructor). intros a Ha. by apply elem_of_nil in Ha. Qed.

(** The rest of _msg_get, on the address found. *)
Lemma run_node_init a w n (Q : unit -> world -> Prop) :
  rt_mem (w_tmo w) !! a = Some n ->
  Q tt (w_set_tmo (Rbtree.set_mem (<[a := mk_rbnode None None None 0 None (rb_color n)]> (rt_mem (w_tmo w))) (w_tmo w)) w) ->
  runs (tmo (rbtree_node_init (Some a))) w Q.
Proof. intros E H. unfold runs, tmo, rbtree_node_init, st. by rewrite E. Qed.

Lemma run__msg_get C M w :
  msgs_at C M w ->
  runs _msg_get w (fun o w' => exists a id t, o = Some a /\ M !! a = None /\ msgs_at C (<[a := msg_fresh id t]> M) w').
Proof.
  intros (Hw & <- & <-). pose proof Hw as [H1 H2 H3 H4 H5 H6]. unfold _msg_get. run_w.
  destruct (w_free_msgq w) as [|a q] eqn:Eq; run_w.
  - apply run_nc_alloc. run_w. apply run_new_addr. run_w. unfold runs at 1. simpl. run_w. eapply run_node_init.
    { simpl. apply lookup_insert_eq. } run_w. apply run_nc_alloc. run_w. cbv beta. simpl.
    assert (Hnew : w_msgs w !! w_next w = None).
    { destruct (w_msgs w !! w_next w) as [x|] eqn:E; [|done]. destruct (H3 _ _ E). lia. }
    eexists _, _, _. split; [done|]. split; [done|]. split_and!; simpl; try done.
    constructor; simpl; rewrite ?Eq; try done; try (by constructor).
    + intros b Hb. by apply elem_of_nil in Hb.
    + intros b x. destruct (decide (b = w_next w)) as [->|].
      * rewrite lookup_insert_eq. intros [= <-]. split; [lia|]. apply mhdr_ok_nil.
      * rewrite lookup_insert_ne by done. intros Hx. destruct (H3 _ _ Hx). split; [lia|]. eapply mhdr_ok_mono; [..|done]; [done|simpl; lia|done].
    + eapply List.Forall_impl; [|exact H6]. simpl. lia.
  - destruct (H2 a) as (Ha & Hn & n & En); [by constructor|]. eapply run_node_init; [exact En|]. run_w. apply run_nc_alloc. run_w.
    cbv beta. simpl. eexists _, _, _. split; [done|]. split; [done|]. split_and!; simpl; try done.
    apply list.NoDup_cons in H1 as [Hq H1]. constructor; simpl; try done.
    + intros b Hb. destruct (H2 b) as (? & ? & ?); [by constructor|]. split_and!; [|done|].
      * rewrite lookup_insert_ne; [done|]. by intros ->.
      * destruct (decide (b = a)) as [->|]; [by rewrite lookup_insert_eq|by rewrite lookup_insert_ne].
    + intros b x. destruct (decide (b = a)) as [->|].
      * rewrite lookup_insert_eq. intros [= <-]. split; [lia|]. apply mhdr_ok_nil.
      * rewrite lookup_insert_ne by done. intros Hx. destruct (H3 _ _ Hx). split; [lia|]. by eapply mhdr_ok_mono; [..|done].
Qed.

(** A message as msg_get leaves it, the counters and times apart. *)
Definition got (c : pointer) (request redis : bool) (x : msg) : Prop :=
  exists id ts t, x = m_set_start_ts ts (set_proto request redis (m_set_owner c (msg_fresh id t))).

Lemma run_msg_get C M w c request redis :
  msgs_at C M w ->
  runs (msg_get c request redis) w (fun o w' => exists a x, o = Some a /\ M !! a = None /\ got c request redis x /\ msgs_at C (<[a := x]> M) w').
Proof.
  intros Hw. unfold msg_get. run_w. eapply runs_mono; [by eapply run__msg_get|]. intros o w1 (a & id & t & -> & Ha & H1).
  run_w. eapply run_upd_keep; [done|apply lookup_insert_eq|done|]. intros w2 H2. rewrite insert_insert_eq in H2. run_w.
  eapply run_upd_keep; [done|apply lookup_insert_eq|done|]. intros w3 H3. rewrite insert_insert_eq in H3. run_w.
  destruct ev_notice; run_w.
  - eapply run_upd_keep; [eapply msgs_at_part; [|exact H3]; reflexivity|apply lookup_insert_eq|done|]. intros w4 H4. rewrite insert_insert_eq in H4. run_w.
    cbv beta. eexists a, _. split_and!; [done|done|by eexists _, _, _|done].
  - cbv beta. eexists a, _. split_and!; [done|done| |done]. by exists id, 0, t.
Qed.

(** ** Appending *)

Lemma mhdr_ok_new w h b a x : mhdr_ok w h -> new_mbuf w b -> w_msgs w !! a = Some x -> m_mhdr x = h -> mhdr_ok w (h ++ [b]).
Proof.
  intros [M1 M2 M3 M4 M5] [N1 N2 N3 N4 N5 N6 N7 N8] Hx <-. specialize (N8 _ _ Hx).
  constructor; unfold ids in *; rewrite ?map_app; simpl.
  - apply List.Forall_app. split; [done|by constructor].
  - apply List.Forall_app. split; [done|by constructor].
  - apply list.NoDup_app. split_and!; [done| |apply NoDup_singleton]. intros i Hi Hj. apply list_elem_of_singleton in Hj. by subst.
  - apply List.Forall_app. split; [done|by constructor].
  - intros i Hi. apply elem_of_app in Hi as [Hi|Hi]; [by apply M5|]. apply list_elem_of_singleton in Hi. by subst.
Qed.

(** The last mbuf replaced by one with more data. *)
Lemma mhdr_ok_last w h b b' :
  mhdr_ok w (h ++ [b]) -> mbuf_wf b' -> mb_end b' = mb_end b -> mb_id b' = mb_id b -> mhdr_ok w (h ++ [b']).
Proof.
  intros [M1 M2 M3 M4 M5] Hb He Hi. unfold ids in *. rewrite map_app in *. simpl in *. rewrite <- Hi in M3, M4, M5.
  apply List.Forall_app in M1 as [M1 _]. apply List.Forall_app in M2 as [M2 M2']. apply Forall_cons_iff in M2' as [M2' _].
  constructor; unfold ids; rewrite ?map_app; simpl; try done.
  - apply List.Forall_app. split; [done|by constructor].
  - apply List.Forall_app. split; [done|]. constructor; [congruence|done].
Qed.

Lemma mhdr_update_last w h b b' : mhdr_ok w (h ++ [b]) -> mb_id b' = mb_id b -> mbuf_update (h ++ [b]) b' = h ++ [b'].
Proof.
  intros [_ _ M3 _ _] Hi. apply mbuf_update_app; [done|]. unfold ids in M3. rewrite map_app in M3. apply list.NoDup_app in M3 as (_ & M3 & _).
  apply list.Forall_forall. intros y Hy E. apply (M3 (mb_id y)); [apply list_elem_of_In, in_map, list_elem_of_In, Hy|].
  simpl. rewrite E. constructor.
Qed.

(** The mbufs of [h] are in [h'], with the same data and maybe more. *)
Definition grows (h h' : list mbuf) : Prop :=
  forall b, b ∈ h -> exists b', b' ∈ h' /\ mb_id b' = mb_id b /\ mb_last b <= mb_last b' /\
    forall s e, 0 <= s <= e -> e <= mb_last b -> slice (mb_mem b') s e = slice (mb_mem b) s e.

#[export] Instance grows_preorder : PreOrder grows.
Proof.
  split.
  - intros h b Hb. exists b. split_and!; done || lia.
  - intros h1 h2 h3 H12 H23 b Hb. destruct (H12 b Hb) as (b2 & Hb2 & Hi2 & Hl2 & Hs2). destruct (H23 b2 Hb2) as (b3 & Hb3 & Hi3 & Hl3 & Hs3).
    exists b3. split_and!; [done|congruence|lia|]. intros s e ? ?. rewrite Hs3, Hs2 by lia. done.
Qed.

Lemma grows_app_r h k : grows h (h ++ k).
Proof. intros b Hb. exists b. split_and!; [by apply elem_of_app; left|done|lia|done]. Qed.

Lemma grows_app_l h k : grows h (k ++ h).
Proof. intros b Hb. exists b. split_and!; [by apply elem_of_app; right|done|lia|done]. Qed.

Lemma grows_copy h b src :
  mbuf_wf b -> zlen src <= mb_end b - mb_last b -> grows (h ++ [b]) (h ++ [mbuf_copy b src]).
Proof.
  intros [? ? ? Hm ?] Hs y Hy. apply elem_of_app in Hy as [Hy|Hy]; [|apply list_elem_of_singleton in Hy as ->].
  - exists y. split_and!; [by apply elem_of_app; left|done|lia|done].
  - exists (mbuf_copy b src). pose proof (zlen_nonneg src). split; [by apply elem_of_app; right; constructor|].
    unfold mbuf_copy. destruct (_ =? 0) eqn:E; simpl; split_and!; try done; try lia. intros s e ? ?.
    apply list_eq. intros i. unfold slice.
    destruct (decide (i < Z.to_nat (e - s))%nat); [|by rewrite !lookup_take_ge by lia].
    rewrite !lookup_take_lt, !lookup_drop by lia. unfold blit. rewrite lookup_app_l; [apply lookup_take_lt; lia|].
    rewrite length_take. unfold zlen, MBUF_HSIZE in *. lia.
Qed.

Lemma run_copy_to b src w (Q : mbuf -> world -> Prop) :
  zlen src <= mb_end b - mb_last b -> Q (mbuf_copy b src) w -> runs (copy_to b src) w Q.
Proof. intros H HQ. unfold copy_to. destruct (Z.leb_spec (zlen src) (mb_end b - mb_last b)); [done|lia]. Qed.

Lemma m_set_mhdr_id x : m_set_mhdr (m_mhdr x) x = x.
Proof. by destruct x. Qed.

Lemma mbuf_size_wf b : mbuf_wf b -> mbuf_size b = mb_end b - mb_last b.
Proof. intros [? ? ? ? ?]. unfold mbuf_size. rewrite u32_small; unfold is_u32; lia. Qed.

Lemma msgs_at_mhdr C M w a x : msgs_at C M w -> M !! a = Some x -> mhdr_ok w (m_mhdr x).
Proof. intros (Hw & <- & _) Hx. by eapply so_msgs. Qed.

Lemma msgs_at_last C M w a x h b :
  msgs_at C M w -> M !! a = Some x -> m_mhdr x = h ++ [b] -> mbuf_wf b /\ mb_end b = C.
Proof.
  intros Hw Hx E. pose proof (msgs_at_mhdr _ _ _ _ _ Hw Hx) as [M1 M2 _ _ _]. rewrite E in M1, M2.
  apply List.Forall_app in M1 as [_ M1]. apply List.Forall_app in M2 as [_ M2]. apply Forall_cons_iff in M1 as [M1 _].
  apply Forall_cons_iff in M2 as [M2 _]. split; [done|]. destruct Hw as (_ & _ & <-). done.
Qed.

Lemma run_ensure C M w a x len :
  msgs_at C M w -> M !! a = Some x -> 0 <= len <= C ->
  runs (msg_ensure_mbuf (Some a) len) w (fun o w' => exists h b, o = Some b /\
    msgs_at C (<[a := m_set_mhdr (h ++ [b]) x]> M) w' /\ mhdr_data (h ++ [b]) = mhdr_data (m_mhdr x) /\
    grows (m_mhdr x) (h ++ [b]) /\ len <= mb_end b - mb_last b).
Proof.
  intros Hw Hx Hlen. unfold msg_ensure_mbuf. run_w. eapply run_msg_ld; [by destruct Hw as (_ & -> & _)|].
  assert (Hnew : runs (b ← get_mbuf;
    match b with
    | None => mret None
    | Some b => msg_st (fun x => m_set_mhdr (mbuf_insert (m_mhdr x) b) x) (Some a);; mret (Some b)
    end) w (fun o w' => exists h b, o = Some b /\
    msgs_at C (<[a := m_set_mhdr (h ++ [b]) x]> M) w' /\ mhdr_data (h ++ [b]) = mhdr_data (m_mhdr x) /\
    grows (m_mhdr x) (h ++ [b]) /\ len <= mb_end b - mb_last b)).
  { run_w. eapply runs_mono; [by eapply run_get_mbuf|]. intros o w1 (b & -> & Hb & H1). run_w.
    assert (Hx1 : w_msgs w1 !! a = Some x) by (by destruct H1 as (_ & -> & _)).
    eapply run_upd; [done|done| |].
    - simpl. unfold mbuf_insert. eapply mhdr_ok_new; try done. by eapply msgs_at_mhdr.
    - intros w2 H2. run_w. cbv beta. exists (m_mhdr x), b. split_and!; [done|done| |apply grows_app_r|].
      + rewrite mhdr_data_app, mhdr_data_one, (nm_data _ _ Hb). apply app_nil_r.
      + rewrite (nm_end _ _ Hb), (nm_last _ _ Hb). destruct H1 as (_ & _ & ->). lia. }
  destruct (list.last (m_mhdr x)) as [b|] eqn:El; [|exact Hnew].
  apply last_Some in El as [h El]. destruct (msgs_at_last _ _ _ _ _ _ _ Hw Hx El) as [Hb He].
  rewrite mbuf_size_wf by done. destruct (Z.ltb_spec (mb_end b - mb_last b) len); [exact Hnew|]. run_w. cbv beta.
  exists h, b. rewrite <- El. split_and!; try done. rewrite m_set_mhdr_id. by rewrite insert_id.
Qed.

End Alloc.
