(* ===== verification/Sample.v ===== *)
(** A small proxy: a pool with two servers, a client that has sent nothing
    yet, and an environment in which every call succeeds. *)

From stdpp Require Import gmap.
From S2P Require Import Prelude CArray Mbuf Message Parser Pool State Rbtree World MsgStore RedisMsg McMsg ReqCore ConnServer Request Response MsgIO.

(** Allocations succeed, [rd] is what read(2) returns, and writev(2) takes at
    most [wr] bytes; [notice] tells whether notices are logged. *)
Definition calm_env (notice : bool) (rd : list Z) (wr : Z) : Env := {|
  ev_ok := fun _ _ => true; ev_junk := fun _ => []; ev_read := fun _ => Rdata rd; ev_writev := fun _ => Wrote wr;
  ev_epoll := fun _ => 0; ev_usec := fun n => Z.of_nat n; ev_msec := fun n => Z.of_nat n; ev_time := fun n => Z.of_nat n;
  ev_random := fun _ => 0; ev_resolve := fun _ => true; ev_socket := fun n => 100 + Z.of_nat n; ev_setopt := fun _ => 0;
  ev_connect := fun _ => 0; ev_soerror := fun _ => 0; ev_strerror := fun _ => bytes_of "err"; ev_wild := fun _ => None;
  ev_qsort := fun l => l; ev_notice := notice; ev_trace := None; ev_max_ncconn := 100; ev_max_timeout := 1000; ev_retries := 10
|}.

Definition calm : list Z -> Z -> Env := calm_env false.

Definition sample_server (n : list Z) : server := mk_server n n 1 0 0.

(** modula over two servers, by the first byte of the key; [auth] is the
    password, if there is one. *)
Definition sample_pool (auth : list Z) : wpool :=
  mk_wpool (mk_spool [sample_server (bytes_of "x:1"); sample_server (bytes_of "y:2")] 2 12
      [Some (mk_cpoint 0 0); Some (mk_cpoint 1 0)] 2 0 DIST_MODULA [] false 1 1)
    (fun k => default 0 (head k)) [[]; []] [0; 0] None [] 0 true 400 0 auth (negb (bool_decide (auth = []))) 1 false.

Definition sample_tmo : rbtree := default (mk_rbtree ∅ None 1) (rbtree_init {[1%positive := mk_rbnode None None None 0 None false]} 1).

(** No message and no connection yet. *)
Definition sample_world (auth : list Z) : world :=
  mk_world 0 2 0 ∅ [] 0 0 0 sample_tmo (mbuf_init 512) ∅ [] 0 0 0 0 [sample_pool auth] 0 0 [].

Definition after {A} (m : W A) (w : world) : world := match m w with Some (_, w') => w' | None => w end.
Definition result {A} (d : A) (m : W A) (w : world) : A := match m w with Some (x, _) => x | None => d end.

(** A client connection of the pool. *)
Definition new_client `{env : Env} : W pointer :=
  c ← conn_get_client 0 true; conn_st (c_set_sd 5) c;; event_add_conn c;; mret c.

(** The client [c] has received [data], a whole request, and parsed it. *)
Definition receive `{env : Env} (c : pointer) (data : list Z) : W pointer :=
  m ← recv_next c true;
  b ← recv_mbuf m;
  match b with
  | None => fault
  | Some b =>
      b ← copy_to b data;
      msg_store_mbuf b m;;
      msg_st (add_mlen (zlen data)) m;;
      parser m;;
      mret m
  end.

Definition sample_get : list Z :=
  bytes_of "*2" ++ CRLF ++ bytes_of "$3" ++ CRLF ++ bytes_of "GET" ++ CRLF ++ bytes_of "$1" ++ CRLF ++ bytes_of "a" ++ CRLF.
Definition sample_mget : list Z :=
  bytes_of "*3" ++ CRLF ++ bytes_of "$4" ++ CRLF ++ bytes_of "MGET" ++ CRLF ++ bytes_of "$1" ++ CRLF ++ bytes_of "a" ++ CRLF ++
  bytes_of "$1" ++ CRLF ++ bytes_of "b" ++ CRLF.
Definition sample_reply : list Z := bytes_of "$1" ++ CRLF ++ bytes_of "A" ++ CRLF.

(** The proxy with a client that has sent [data]; the client and its
    message. *)
Definition sample_conn : positive := 2.
Definition sample_msg : positive := 3.
Definition sample_received (auth data : list Z) : world :=
  let _ := calm data 0 in after (c ← new_client; receive c data) (sample_world auth).

(** GET went to a server, which has answered; the server connection and the
    response. *)
Definition sample_server_conn : positive := 5.
Definition sample_rsp : positive := 6.
Definition sample_answered : world :=
  let _ := calm [] 1000 in
  after (c ← new_client; m ← receive c sample_get; req_recv_done c m None;; msg_send (Some sample_server_conn);;
         receive (Some sample_server_conn) sample_reply) (sample_world []).

Example sample_pointers :
  let _ := calm [] 0 in
  result (None, None) (c ← new_client; m ← receive c sample_get; mret (c, m)) (sample_world []) = (Some sample_conn, Some sample_msg).
Proof. reflexivity. Qed.
