(* ===== verification/Auth.v ===== *)
(** Authentication of clients: what a client that has not given the password
    can make the proxy do. *)

From stdpp Require Import gmap.
From S2P Require Import Prelude CArray Mbuf Message Parser Pool State Rbtree World MsgStore RedisMsg McMsg ReqCore ConnServer Request Frame StoreFacts Sample.

(** A message just allocated is at an address the store does not use. *)
Lemma _msg_get_Some `{env : Env} w :
  store_ok w ->
  gives _msg_get w (fun o w' => forall a, o = Some a ->
    w_msgs w !! a = None /\ exists id t, w_msgs w' = <[a := msg_fresh id t]> (w_msgs w)).
Proof.
  intros [_ H2 H3 _ _ _]. unfold _msg_get. give_w.
  apply gives_mono with (P := fun p w1 => w_msgs w1 = w_msgs w /\ forall a t, p = Some (a, t) -> w_msgs w !! a = None).
  - destruct (w_free_msgq w) as [|b q] eqn:Eq; give_w.
    + eapply gives_keeps with (f := fun w => (w_msgs w, w_next w)); [solve_keeps|]. intros ok w1 [= E1 E2].
      destruct ok; give_w; [|by split]. eapply gives_keeps with (f := w_msgs); [apply _|]. intros [] w2 E3. give_w.
      split; [by rewrite E3|]. intros a t [= <- _]. destruct (w_msgs w !! w_next w1) as [x|] eqn:E; [|done].
      destruct (H3 _ _ E). rewrite E2 in *. lia.
    + split; [done|]. intros a t [= <- _]. apply H2. constructor.
  - intros p w1 [E1 Hp]. destruct p as [[a t]|]; give_w; [|done].
    eapply gives_keeps with (f := w_msgs); [apply _|]. intros [] w2 E2. give_w.
    eapply gives_keeps with (f := w_msgs); [solve_keeps|]. intros ok w3 E3. destruct ok; give_w; [|done].
    intros b [= <-]. split; [by eapply Hp|]. simpl. rewrite E3, E2. simpl. rewrite E1. by eexists _, _.
Qed.

Lemma msg_get_Some `{env : Env} owner request redis w :
  store_ok w ->
  gives (msg_get owner request redis) w (fun o w' => forall a, o = Some a ->
    w_msgs w !! a = None /\ exists x, m_owner x = owner /\ w_msgs w' = <[a := x]> (w_msgs w)).
Proof.
  intros Hw. unfold msg_get. give_w. eapply gives_mono; [by apply _msg_get_Some|]. intros [a|] w1 H1; give_w; [|done].
  destruct (H1 a eq_refl) as (Ha & id & t & E1). apply gives_msg_st. intros ? x [= <-] Hx. rewrite E1, lookup_insert_eq in Hx.
  injection Hx as <-. give_w. apply gives_msg_st. intros ? x [= <-] Hx. simpl in Hx. rewrite lookup_insert_eq in Hx. injection Hx as <-.
  give_w. apply gives_mono with (P := fun _ w' => exists x, m_owner x = owner /\ w_msgs w' = <[a := x]> (w_msgs w)).
  - apply gives_when; intros _; give_w; [|simpl; rewrite E1, !insert_insert_eq; by eexists; split; [|reflexivity]].
    apply gives_msg_st. simpl. intros ? x [= <-] Hx. rewrite E1, !insert_insert_eq, lookup_insert_eq in Hx. injection Hx as <-.
    rewrite E1, !insert_insert_eq. by eexists; split; [|reflexivity].
  - intros _ w2 H2. give_w. intros b [= <-]. by split.
Qed.

Section Auth.
Context `{env : Env}.
Variable c : positive.

(** Every connection but [c], the bytes sent, the pools, and the state of [c]
    that decides what it may do. *)
Definition guarded (w : world) :=
  (delete c (w_conns w), w_sent w, (fun x => (c_owner x, c_authenticated x)) <$> w_conns w !! c, w_pools w).

Lemma keeps_guarded_conn g :
  (forall x, c_owner (g x) = c_owner x /\ c_authenticated (g x) = c_authenticated x) -> Keeps guarded (conn_st g (Some c)).
Proof.
  intros Hg. apply keeps_conn_st. intros w a x [= <-] E. unfold guarded. simpl.
  rewrite delete_insert_eq, lookup_insert_eq, E. simpl. by destruct (Hg x) as [-> ->].
Qed.
#[local] Hint Extern 1 (Keeps _ (conn_st _ (Some c))) => apply keeps_guarded_conn; intros; split; reflexivity : typeclass_instances.
#[local] Hint Extern 1 (Keeps _ (conn_queue _ _ _ _)) => unfold conn_queue : typeclass_instances.

#[local] Instance keeps_guarded_req_put m : Keeps guarded (req_put m).
Proof. solve_keeps. Qed.
#[local] Instance keeps_guarded_append m s : Keeps guarded (msg_append m s).
Proof. solve_keeps. Qed.
#[local] Instance keeps_guarded_filter m : Keeps guarded (req_filter (Some c) m).
Proof. solve_keeps. Qed.
#[local] Instance keeps_guarded_make_reply m : Keeps guarded (req_make_reply (Some c) m).
Proof. solve_keeps. Qed.
#[local] Instance keeps_guarded_threshold q r : Keeps guarded (redis_handle_threshold_req q r).
Proof. solve_keeps. Qed.
#[local] Instance keeps_guarded_out : Keeps guarded (event_out_or_err (Some c)).
Proof. solve_keeps. Qed.
#[local] Instance keeps_guarded_errno : Keeps guarded (conn_errno (Some c)).
Proof. solve_keeps. Qed.

(** The request the reply answers is linked to a response owned by [c]. *)
Lemma make_reply_peer m x w :
  store_ok w -> w_msgs w !! m = Some x ->
  gives (req_make_reply (Some c) (Some m)) w (fun s w' => s = NC_OK -> exists y rsp z,
    w_msgs w' !! m = Some y /\ m_peer y = Some rsp /\ m_regs y = m_regs x /\ m_mhdr y = m_mhdr x /\
    w_msgs w' !! rsp = Some z /\ m_owner z = Some c).
Proof.
  intros Hw Hx. unfold req_make_reply. give_w. apply gives_conn_ld. intros ? xc [= <-] Hc. give_w.
  eapply gives_mono; [by apply msg_get_Some|]. intros [a|] w1 H1; give_w.
  2: { eapply gives_keeps with (f := guarded); [apply _|]. intros ? ? _. give_w. done. }
  destruct (H1 a eq_refl) as (Ha & z & Hz & E1). assert (Hne : a <> m) by congruence.
  apply gives_msg_st. intros ? y [= <-] Hy. rewrite E1, lookup_insert_ne in Hy by done. simplify_eq. give_w.
  apply gives_msg_st. simpl. intros ? z' [= <-] Hz'. rewrite lookup_insert_ne, E1, lookup_insert_eq in Hz' by done. simplify_eq. give_w.
  apply gives_msg_st. simpl. intros ? z2 [= <-] Hz2. rewrite lookup_insert_eq in Hz2. simplify_eq. give_w.
  apply gives_msg_st. simpl. intros ? y2 [= <-] Hy2. rewrite !lookup_insert_ne, lookup_insert_eq in Hy2 by done. simplify_eq. give_w.
  eapply gives_keeps with (f := w_msgs); [solve_keeps|]. simpl. intros ? w2 E2. give_w. intros _. rewrite E2.
  eexists _, a, _. split_and!; [apply lookup_insert_eq|done|done|done|rewrite lookup_insert_ne by done; apply lookup_insert_eq|done].
Qed.

(** The step changes at most messages and [c], and only the password
    [auth] lets [c] pass. *)
Definition auth_only (m : positive) (r : regs) (auth : list Z) (w w' : world) : Prop :=
  guarded w' = guarded w \/
  delete c (w_conns w') = delete c (w_conns w) /\ w_sent w' = w_sent w /\ w_pools w' = w_pools w /\
  type r = MSG_REQ_REDIS_AUTH /\ msg_key 0 (Some m) w = Some (auth, w).

Lemma auth_only_keeps m r auth w w1 w2 : auth_only m r auth w w1 -> guarded w2 = guarded w1 -> auth_only m r auth w w2.
Proof.
  intros [H|(H1 & H2 & H3 & H)] E; [left; by rewrite E|right]. unfold guarded in E. injection E as E1 E2 _ E3.
  by rewrite E1, E2, E3.
Qed.

(** The key of a message depends on its registers and mbufs. *)
Lemma msg_key_same i m x y w w' k :
  w_msgs w !! m = Some x -> w_msgs w' !! m = Some y -> keys (m_regs y) = keys (m_regs x) -> m_mhdr y = m_mhdr x ->
  msg_key i (Some m) w' = Some (k, w') -> msg_key i (Some m) w = Some (k, w).
Proof.
  intros Hx Hy Er Eh. unfold msg_key, msg_ld, reads, mbind, ST_bind. simpl. rewrite Hy, Hx. simpl. rewrite Hy, Hx. simpl. rewrite Er, Eh.
  destruct (array_load _ _); [|done]. destruct (key_bytes _ _); [|done]. by intros [= <-].
Qed.

Lemma auth_only_trans m x y auth w w1 w2 :
  w_msgs w !! m = Some x -> w_msgs w1 !! m = Some y -> m_regs y = m_regs x -> m_mhdr y = m_mhdr x ->
  guarded w1 = guarded w -> auth_only m (m_regs y) auth w1 w2 -> auth_only m (m_regs x) auth w w2.
Proof.
  intros Hx Hy Er Eh E [H|(H1 & H2 & H3 & H4 & H5)]; [left; by rewrite H|right]. unfold guarded in E. injection E as E1 E2 _ E3.
  rewrite H1, H2, H3, E1, E2, E3. split_and!; try done; [by rewrite <- Er|]. eapply msg_key_same; try done. by rewrite Er.
Qed.

(** What [guarded] says of [c]. *)
Lemma guarded_conn w w' xc :
  guarded w' = guarded w -> w_conns w !! c = Some xc ->
  exists xc', w_conns w' !! c = Some xc' /\ c_owner xc' = c_owner xc /\ c_authenticated xc' = c_authenticated xc.
Proof.
  unfold guarded. intros [= _ _ E _] Hc. rewrite Hc in E. simpl in E. apply fmap_Some in E as (xc' & Hc' & [= -> ->]). by exists xc'.
Qed.

(** The only way to change [guarded] in a reply. *)
Lemma redis_reply_guarded m x rsp z w pl p xc :
  w_msgs w !! m = Some x -> m_peer x = Some rsp -> w_msgs w !! rsp = Some z -> m_owner z = Some c ->
  w_conns w !! c = Some xc -> c_owner xc = OwnPool p -> w_pools w !! p = Some pl -> c_authenticated xc = false ->
  gives (redis_reply (Some m)) w (fun _ w' => auth_only m (m_regs x) (pl_redis_auth pl) w w').
Proof.
  intros Hx Hp Hz Ho Hc Hcp Hpl Ha. unfold redis_reply. give_w. apply gives_msg_ld. intros ? ? [= <-] H'. simplify_eq. rewrite Hp.
  give_w. apply gives_msg_ld. intros ? ? [= <-] H2. simplify_eq. rewrite Ho. give_w. unfold msg_type_of. give_w.
  apply gives_msg_ld. intros ? ? [= <-] H3. simplify_eq. give_w.
  destruct (msg_type_eqb (type (m_regs x)) MSG_REQ_REDIS_AUTH) eqn:Et.
  2: { eapply gives_keeps with (f := guarded); [|intros; by left]. solve_keeps. }
  unfold redis_handle_auth_req. give_w. apply gives_msg_ld. intros ? ? [= <-] H4. simplify_eq. rewrite Ho. give_w.
  unfold conn_pool. give_w. apply gives_conn_ld. intros ? ? [= <-] H5. simplify_eq. rewrite Hcp. give_w.
  apply gives_pool_ld. intros ? H6. simplify_eq. destruct (pl_require_auth pl) eqn:Er; simpl.
  2: { eapply gives_keeps with (f := guarded); [apply _|intros; by left]. }
  apply gives_bind. intros key w1 Ek. assert (w1 = w) as -> by (apply (keeps (f := id) _ _ _ Ek)).
  give_w. apply gives_pool_ld. intros ? H7. simplify_eq. destruct (bool_decide_reflect (key = pl_redis_auth pl)) as [->|].
  - give_w. apply gives_conn_st. intros ? ? [= <-] H8. simplify_eq. eapply gives_keeps with (f := guarded); [apply _|].
    unfold guarded. simpl. rewrite delete_insert_eq. intros ? w' [= E1 E2 _ E3]. right. rewrite E1, E2, E3. split_and!; try done. by apply msg_type_eqb_eq.
  - give_w. apply gives_conn_st. intros ? ? [= <-] H8. simplify_eq. eapply gives_keeps with (f := guarded); [apply _|].
    intros ? w' E. left. rewrite E. unfold guarded. simpl. rewrite delete_insert_eq, lookup_insert_eq, Hc. simpl. by rewrite Ha.
Qed.

(** The filter of a client that has not given the password lets a request
    through only as one that is not forwarded. *)
Lemma req_filter_noforward m x w pl p xc :
  w_msgs w !! m = Some x -> w_conns w !! c = Some xc -> c_owner xc = OwnPool p ->
  w_pools w !! p = Some pl -> pl_require_auth pl = true -> c_authenticated xc = false ->
  gives (req_filter (Some c) (Some m)) w (fun f w' => f = false ->
    w' = w_set_msgs (<[m := m_upd_regs (fun r => set_noforward r true) x]> (w_msgs w)) w).
Proof.
  intros Hx Hc Hcp Hpl Hr Ha. unfold req_filter, msg_empty. give_w. apply gives_msg_ld. intros ? ? [= <-] H1. simplify_eq. give_w.
  destruct (_ =? 0); [by apply gives_bind; intros [] w1 _; give_w|].
  give_w. apply gives_msg_ld. intros ? ? [= <-] H2. simplify_eq. destruct (quit _).
  { give_w. intros ? w1 _. give_w. intros ? w2 _. give_w. intros ? w3 _. by give_w. }
  give_w. unfold conn_authenticated, conn_pool. give_w. apply gives_conn_ld. intros ? ? [= <-] H3. simplify_eq. rewrite Hcp. give_w.
  apply gives_pool_ld. intros ? H4. simplify_eq. rewrite Hr. simpl. apply gives_conn_ld. intros ? ? [= <-] H5. simplify_eq. rewrite Ha. simpl.
  give_w. apply gives_msg_st. intros ? ? [= <-] H6. simplify_eq. by give_w.
Qed.

Lemma req_reply_guarded m x w pl p xc :
  store_ok w -> w_msgs w !! m = Some x -> w_conns w !! c = Some xc -> c_owner xc = OwnPool p ->
  w_pools w !! p = Some pl -> c_authenticated xc = false ->
  gives (req_reply (Some c) (Some m)) w (fun _ w' => auth_only m (m_regs x) (pl_redis_auth pl) w w').
Proof.
  intros Hw Hx Hc Hcp Hpl Ha. unfold req_reply. apply gives_bind.
  eapply gives_mono; [apply gives_and; [by apply make_reply_peer|eapply gives_keeps with (f := guarded) (Q := fun _ w' => guarded w' = guarded w); [apply _|done]]|].
  intros s w1 [H1 E1]. destruct (Z.eqb_spec s NC_OK) as [->|]; simpl.
  2: { eapply gives_keeps with (f := guarded); [apply _|]. intros ? w2 E2. left. by rewrite E2. }
  destruct (H1 eq_refl) as (y & rsp & z & Hy & Hp & Er & Eh & Hz & Ho). destruct (guarded_conn _ _ _ E1 Hc) as (xc' & Hc' & Ec & Ea).
  assert (w_pools w1 = w_pools w) as Ew by (by unfold guarded in E1; injection E1).
  give_w. unfold reply. give_w. apply gives_msg_ld. intros ? ? [= <-] H2. rewrite Hy in H2. injection H2 as <-. destruct (m_proto _) as [[]|]; give_w.
  eapply gives_mono; [by apply (redis_reply_guarded m y rsp z w1 pl p xc'); congruence|].
  intros s2 w2 H5. pose proof (auth_only_trans _ _ _ _ _ _ _ Hx Hy Er Eh E1 H5).
  eapply gives_keeps with (f := guarded); [apply _|]. intros ? w3 E3. by eapply auth_only_keeps.
Qed.

End Auth.

(** C4. A client of a pool that asks for a password, before it has given
    it, makes the proxy send nothing and changes no connection but its own,
    whatever the request is: it is not forwarded to any server.  Only an AUTH
    request whose first argument is the password of the pool lets it pass. *)
Theorem unauthenticated_not_forwarded `{env : Env} c m nmsg w w' xc p pl x :
  store_ok w -> w_conns w !! c = Some xc -> c_owner xc = OwnPool p -> w_pools w !! p = Some pl ->
  pl_require_auth pl = true -> c_authenticated xc = false -> w_msgs w !! m = Some x ->
  req_recv_done (Some c) (Some m) nmsg w = Some (tt, w') ->
  delete c (w_conns w') = delete c (w_conns w) /\ w_sent w' = w_sent w /\ w_pools w' = w_pools w /\
  (forall xc', w_conns w' !! c = Some xc' -> c_authenticated xc' = true ->
    type (m_regs x) = MSG_REQ_REDIS_AUTH /\ msg_key 0 (Some m) w = Some (pl_redis_auth pl, w)).
Proof.
  intros Hw Hc Hcp Hpl Hr Ha Hx Hrun.
  enough (auth_only c m (m_regs x) (pl_redis_auth pl) w w') as Hg.
  { destruct Hg as [E|(H1 & H2 & H3 & H4)]; [|by split_and!]. pose proof E as [= E1 E2 _ E3]. split_and!; try done.
    intros xc' Hc' Ha'. destruct (guarded_conn _ _ _ _ E Hc) as (xc2 & ? & _ & ?). congruence. }
  revert Hrun. enough (gives (req_recv_done (Some c) (Some m) nmsg) w (fun _ w' => auth_only c m (m_regs x) (pl_redis_auth pl) w w')) as Hg
    by exact (Hg tt w'). clear w'.
  unfold req_recv_done. give_w. apply gives_conn_st. intros ? ? [= <-] H'. simplify_eq. give_w.
  set (w1 := w_set_conns _ w).
  assert (E1 : guarded c w1 = guarded c w).
  { unfold guarded. simpl. rewrite delete_insert_eq, lookup_insert_eq, Hc. done. }
  assert (Hc1 : w_conns w1 !! c = Some (c_set_rmsg nmsg xc)) by apply lookup_insert_eq.
  assert (Hw1 : store_ok w1) by (eapply store_ok_part; [|exact Hw]; reflexivity).
  eapply gives_mono.
  - apply gives_and; [by eapply req_filter_noforward|].
    eapply gives_keeps with (f := guarded c) (Q := fun _ w' => guarded c w' = guarded c w1); [apply keeps_guarded_filter|done].
  - intros f w2 [H2 E2]. destruct f; give_w; [left; by rewrite E2|].
    specialize (H2 eq_refl). apply gives_msg_ld. rewrite H2. simpl. intros ? y [= <-] Hy. rewrite lookup_insert_eq in Hy. injection Hy as <-. simpl.
    set (x1 := m_upd_regs _ x). set (w2' := w_set_msgs _ w1).
    assert (Hw2 : store_ok w2') by (by eapply (store_ok_update w1 m x (m_upd_regs _)), (so_msgs w1 Hw1 m x)).
    assert (E12 : guarded c w2' = guarded c w) by done.
    eapply gives_mono; [by apply (req_reply_guarded c m x1 w2' pl p (c_set_rmsg nmsg xc)); [|apply lookup_insert_eq|..]|].
    intros [] w3 [H3|(H3 & H4 & H5 & H6 & H7)]; [left; by rewrite H3|right].
    rewrite H3, H4, H5. split_and!; try done; [simpl; by rewrite delete_insert_eq|].
    by apply (msg_key_same 0 m x x1 w w2'); [|apply lookup_insert_eq|..].
Qed.

(** A client that sends GET before AUTH. *)
Definition w_auth : world := sample_received (bytes_of "pw") sample_get.

Lemma unauthenticated_not_forwarded_witness :
  match req_recv_done (env := calm [] 0) (Some sample_conn) (Some sample_msg) None w_auth with
  | Some (_, w') => w_sent w' = w_sent w_auth
  | None => False
  end.
Proof.
  destruct (req_recv_done _ _ _ w_auth) as [[[] w']|] eqn:E; [|by vm_compute in E].
  destruct (w_conns w_auth !! sample_conn) as [xc|] eqn:Hc; [|by vm_compute in Hc].
  destruct (w_msgs w_auth !! sample_msg) as [x|] eqn:Hm; [|by vm_compute in Hm].
  destruct (w_pools w_auth !! 0%nat) as [pl|] eqn:Hp; [|by vm_compute in Hp].
  refine (proj1 (proj2 (unauthenticated_not_forwarded _ _ _ _ _ xc 0 pl x _ Hc _ Hp _ _ Hm E))).
  - apply store_okb_ok. by vm_compute.
  - vm_compute in Hc. by injection Hc as <-.
  - vm_compute in Hp. by injection Hp as <-.
  - vm_compute in Hc. by injection Hc as <-.
Defined.
