(* ===== verification/Pairing.v ===== *)
(** The link between a request and its response, and the order of both: a
    response goes to the oldest request sent on its connection, and a client
    gets the responses in the order of its requests. *)

From stdpp Require Import gmap.
From S2P Require Import Prelude CArray Mbuf Message Parser RedisReq Pool State Rbtree World MsgStore RedisMsg McMsg ReqCore ConnServer Request Response Frame Sample.

Section Pairing.
Context `{env : Env}.

(** The peers and done marks of the messages, the queues of the
    connections and the messages they are sending. *)
Definition links (w : world) : gmap positive (pointer * bool) := (fun x => (m_peer x, m_done x)) <$> w_msgs w.
Definition queues (w : world) : gmap positive (list positive * list positive * pointer) :=
  (fun x => (c_imsg_q x, c_omsg_q x, c_smsg x)) <$> w_conns w.
Definition lq (w : world) := (links w, queues w).

Lemma keeps_links_st g p : (forall x, m_peer (g x) = m_peer x /\ m_done (g x) = m_done x) -> Keeps lq (msg_st g p).
Proof.
  intros Hg. apply keeps_msg_st. intros w a x Hx. unfold lq, links. simpl. rewrite fmap_insert. destruct (Hg x) as [-> ->].
  rewrite insert_id; [done|]. by rewrite lookup_fmap, Hx.
Qed.

Lemma keeps_queues_st g p : (forall x, c_imsg_q (g x) = c_imsg_q x /\ c_omsg_q (g x) = c_omsg_q x /\ c_smsg (g x) = c_smsg x) -> Keeps lq (conn_st g p).
Proof.
  intros Hg. apply keeps_conn_st. intros w a x _ Hx. unfold lq, queues. simpl. rewrite fmap_insert. destruct (Hg x) as (-> & -> & ->).
  f_equal. apply insert_id. by rewrite lookup_fmap, Hx.
Qed.

#[local] Hint Extern 1 (Keeps lq (msg_st _ _)) => apply keeps_links_st; intros; split; reflexivity : typeclass_instances.
#[local] Hint Extern 1 (Keeps lq (conn_st _ _)) => apply keeps_queues_st; intros; split_and!; reflexivity : typeclass_instances.

#[local] Instance keeps_lq_mark_fdone id l : Keeps lq (mark_all (m_set_fdone true) id l).
Proof. induction l; simpl; apply _. Qed.
#[local] Instance keeps_lq_all_done id l : Keeps lq (all_done id l).
Proof. induction l; simpl; apply _. Qed.
#[local] Instance keeps_lq_append m s : Keeps lq (msg_append m s).
Proof. solve_keeps. Qed.
#[local] Instance keeps_lq_prepend_format m s : Keeps lq (msg_prepend_format m s).
Proof. solve_keeps. Qed.
#[local] Instance keeps_lq_copy_loop dst src h len : Keeps lq (copy_bulk_loop dst src h len).
Proof. revert len. induction h; intros len; simpl; solve_keeps. Qed.
#[local] Instance keeps_lq_mc_copy_loop dst src h len : Keeps lq (mc_copy_loop dst src h len).
Proof. revert len. induction h; intros len; simpl; solve_keeps. Qed.
#[local] Instance keeps_lq_copy_bulk dst src : Keeps lq (redis_copy_bulk dst src).
Proof. solve_keeps. Qed.
#[local] Instance keeps_lq_mc_copy_bulk dst src : Keeps lq (memcache_copy_bulk dst src).
Proof. solve_keeps. Qed.
#[local] Instance keeps_lq_coalesce copy rq rs i n : (forall d s, Keeps lq (copy d s)) -> Keeps lq (coalesce_keys copy rq rs i n).
Proof. intros H. revert i. induction n; intros i; simpl; solve_keeps. Qed.
#[local] Instance keeps_lq_post_coalesce m fo : Keeps lq (post_coalesce m fo).
Proof. solve_keeps. Qed.
#[local] Instance keeps_lq_req_done c m : Keeps lq (req_done c m).
Proof. solve_keeps. Qed.
#[local] Instance keeps_lq_cut_end r e h : Keeps lq (cut_end r e h).
Proof. induction h; simpl; solve_keeps. Qed.
#[local] Instance keeps_lq_pre_coalesce m : Keeps lq (pre_coalesce m).
Proof. solve_keeps. Qed.
#[local] Instance keeps_lq_server_ok c : Keeps lq (conn_server_ok c).
Proof. solve_keeps. Qed.
#[local] Instance keeps_lq_tmo_delete m : Keeps lq (msg_tmo_delete m).
Proof. solve_keeps. Qed.

Lemma tailq_remove_head a q : tailq_remove a (a :: q) = Some q.
Proof. simpl. by rewrite bool_decide_eq_true_2. Qed.

Lemma gives_lq {A} (m : W A) w (Q : A -> world -> Prop) :
  Keeps lq m -> (forall x w', links w' = links w -> queues w' = queues w -> Q x w') -> gives m w Q.
Proof. intros Hk H. eapply gives_keeps; [exact Hk|]. intros x w' [= E1 E2]. by apply H. Qed.

(** A link of a message. *)
Lemma links_Some w a l : links w !! a = Some l -> exists x, w_msgs w !! a = Some x /\ l = (m_peer x, m_done x).
Proof. unfold links. rewrite lookup_fmap, fmap_Some. intros (x & Hx & ->). by exists x. Qed.

Lemma queues_Some w a l : queues w !! a = Some l -> exists x, w_conns w !! a = Some x /\ l = (c_imsg_q x, c_omsg_q x, c_smsg x).
Proof. unfold queues. rewrite lookup_fmap, fmap_Some. intros (x & Hx & ->). by exists x. Qed.

(** Stores to the links and to the queues. *)
Lemma gives_link g a l l' w (Q : unit -> world -> Prop) :
  links w !! a = Some l -> (forall x, (m_peer x, m_done x) = l -> (m_peer (g x), m_done (g x)) = l') ->
  (forall w', links w' = <[a := l']> (links w) -> queues w' = queues w -> Q tt w') -> gives (msg_st g (Some a)) w Q.
Proof.
  intros (x & Hx & ->)%links_Some Hg H. apply gives_msg_st. intros ? y [= <-] Hy. apply H; [|done].
  unfold links. simpl. rewrite fmap_insert. f_equal. apply Hg. by rewrite Hx in Hy; injection Hy as <-.
Qed.

Lemma gives_out_queue f sc i q s q' w (Q : unit -> world -> Prop) :
  queues w !! sc = Some (i, q, s) -> f q = Some q' ->
  (forall w', links w' = links w -> queues w' = <[sc := (i, q', s)]> (queues w) -> Q tt w') ->
  gives (conn_queue c_omsg_q c_set_omsg_q f (Some sc)) w Q.
Proof.
  intros (x & Hx & [= -> -> ->])%queues_Some Hf H. unfold conn_queue. give_w. apply gives_conn_ld. intros ? y [= <-] Hy. simplify_eq. rewrite Hf.
  apply gives_conn_st. intros ? y [= <-] Hy'. simplify_eq. apply H; [done|]. unfold queues. simpl. by rewrite fmap_insert.
Qed.

(** A response from a server: the oldest request sent on the connection
    leaves the queue, and the two are linked. *)
Lemma rsp_forward_links sc m a i q s pa da pm dm w :
  queues w !! sc = Some (i, a :: q, s) -> links w !! a = Some (pa, da) -> links w !! m = Some (pm, dm) -> m <> a ->
  gives (rsp_forward (Some sc) (Some m)) w (fun _ w' =>
    links w' = <[m := (Some a, dm)]> (<[a := (Some m, true)]> (links w)) /\
    queues w' = <[sc := (i, q, s)]> (queues w)).
Proof.
  intros Hq Ha Hm Hne. unfold rsp_forward. give_w. apply gives_lq; [apply _|]. intros [] w1 L1 Q1. give_w.
  rewrite <- Q1 in Hq. pose proof Hq as (x & Hx & [= -> Eq ->])%queues_Some. apply gives_conn_ld. intros ? y [= <-] Hy. simplify_eq.
  rewrite <- Eq. simpl. give_w. unfold req_server_dequeue_omsgq. give_w. apply gives_lq; [apply _|]. intros [] w2 L2 Q2. give_w.
  unfold addr. apply gives_reads. intros ? [= <-]. rewrite <- Q2 in Hq. eapply gives_out_queue; [exact Hq|apply tailq_remove_head|]. intros w3 L3 Q3. give_w.
  apply (gives_link _ a (pa, da) (pa, true)); [by rewrite L3, L2, L1|simpl; congruence|]. intros w4 L4 Q4. give_w.
  eapply gives_lq; [apply _|]. intros [] w5 L5 Q5. change (links w5 = links w4) in L5. change (queues w5 = queues w4) in Q5. give_w.
  apply (gives_link _ a (pa, true) (Some m, true)); [by rewrite L5, L4; apply lookup_insert_eq|simpl; congruence|]. intros w6 L6 Q6. give_w.
  apply (gives_link _ m (pm, dm) (Some a, dm)); [by rewrite L6, L5, L4, !lookup_insert_ne, L3, L2, L1|simpl; congruence|]. intros w7 L7 Q7.
  eapply gives_lq; [solve_keeps|]. intros ? w8 L8 Q8. rewrite L8, L7, L6, L5, L4, insert_insert_eq, L3, L2, L1.
  by rewrite Q8, Q7, Q6, Q5, Q4, Q3, Q2, Q1.
Qed.

(** The filter lets a response to a request through unchanged. *)
Lemma rsp_filter_pass sc m a q w x xa xm :
  w_conns w !! sc = Some x -> c_omsg_q x = a :: q -> w_msgs w !! a = Some xa -> w_msgs w !! m = Some xm ->
  m_mlen xm <> 0 -> m_swallow xa = false -> (m_proto xm = Some Redis -> redis_failure (type (m_regs xm)) = false) ->
  gives (rsp_filter (Some sc) (Some m)) w (fun f w' => f = false /\ w' = w).
Proof.
  intros Hx Hq Ha Hm Hl Hs Hf. unfold rsp_filter, msg_empty. give_w. apply gives_msg_ld. intros ? ? [= <-] H1. simplify_eq. give_w.
  destruct (Z.eqb_spec (m_mlen xm) 0); [done|]. give_w. apply gives_conn_ld. intros ? ? [= <-] H2. simplify_eq. rewrite Hq.
  unfold failure, msg_type_of. give_w. apply gives_msg_ld. intros ? ? [= <-] H3. simplify_eq. give_w.
  apply gives_msg_ld. intros ? ? [= <-] H4. simplify_eq. give_w.
  assert (Hsw : gives (sw ← msg_ld m_swallow (Some a);
    if (sw : bool) then swallow_msg (Some sc) (Some a) (Some m);; req_server_dequeue_omsgq (Some sc) (Some a);;
      msg_st (m_set_done true) (Some a);; rsp_put (Some m);; req_put (Some a);; mret true
    else mret false) w (fun f w' => f = false /\ w' = w)).
  { give_w. apply gives_msg_ld. intros ? ? [= <-] H5. simplify_eq. rewrite Hs. by give_w. }
  destruct (m_proto xm) as [[]|]; give_w; [rewrite (Hf eq_refl)|]; exact Hsw.
Qed.

(** A request is found done only if it is marked so. *)
Lemma req_done_true c a w : gives (req_done c (Some a)) w (fun d _ => d = true -> exists pe, links w !! a = Some (pe, true)).
Proof.
  unfold req_done. give_w. apply gives_msg_ld. intros ? x [= <-] Hx. destruct (m_done x) eqn:Ed; simpl; [|by give_w].
  intros d w' _ _. exists (m_peer x). unfold links. by rewrite lookup_fmap, Hx, <- Ed.
Qed.

Lemma done_or_null_true c p w :
  gives (done_or_null c p) w (fun d w' => links w' = links w /\ queues w' = queues w /\
    (d = true -> exists a pe, p = Some a /\ links w !! a = Some (pe, true))).
Proof.
  unfold done_or_null. destruct p as [a|]; [|by give_w]. intros d w' H.
  pose proof (keeps (f := lq) _ _ _ H) as [= E1 E2]. split_and!; try done. intros Hd.
  destruct (req_done_true _ _ _ _ _ H Hd) as (pe & Hpe). by exists a, pe.
Qed.

(** Where a client connection is in its queue: at the head, or behind the
    request whose response was sent last. *)
Definition send_position (x : conn) (w : world) : pointer :=
  match c_smsg x with
  | None => head (c_omsg_q x)
  | Some s => match links w !! s with Some (Some pe, _) => tailq_next pe (c_omsg_q x) | _ => None end
  end.

End Pairing.

(** C3. A response received from a server is linked with the oldest request
    sent on that connection and with no other: that request leaves the queue
    and is done, and neither the links of other messages nor the other queues
    change, whatever merging of fragments the response completes. *)
Theorem rsp_recv_done_pairs `{env : Env} sc m nmsg w w' x a q xa xm :
  w_conns w !! sc = Some x -> c_omsg_q x = a :: q -> w_msgs w !! a = Some xa -> w_msgs w !! m = Some xm -> m <> a ->
  m_mlen xm <> 0 -> m_swallow xa = false -> (m_proto xm = Some Redis -> redis_failure (type (m_regs xm)) = false) ->
  rsp_recv_done (Some sc) (Some m) nmsg w = Some (tt, w') ->
  links w' = <[m := (Some a, m_done xm)]> (<[a := (Some m, true)]> (links w)) /\
  queues w' = <[sc := (c_imsg_q x, q, c_smsg x)]> (queues w).
Proof.
  intros Hx Hq Ha Hm Hne Hl Hs Hf. revert w'.
  enough (gives (rsp_recv_done (Some sc) (Some m) nmsg) w (fun _ w' =>
    links w' = <[m := (Some a, m_done xm)]> (<[a := (Some m, true)]> (links w)) /\ queues w' = <[sc := (c_imsg_q x, q, c_smsg x)]> (queues w))) as H
    by (intros w'; exact (H tt w')).
  unfold rsp_recv_done. give_w. apply gives_conn_st. intros ? ? [= <-] H1. simplify_eq. give_w.
  set (w1 := w_set_conns _ w).
  assert (Q1 : queues w1 = queues w).
  { unfold queues. simpl. rewrite fmap_insert. apply insert_id. by rewrite lookup_fmap, Hx. }
  eapply gives_mono; [by apply (rsp_filter_pass sc m a q w1 (c_set_rmsg nmsg x) xa xm); [apply lookup_insert_eq|..]|].
  intros f w2 [-> ->]. rewrite <- Q1.
  apply (rsp_forward_links sc m a (c_imsg_q x) q (c_smsg x) (m_peer xa) (m_done xa) (m_peer xm) (m_done xm) w1); [..|done].
  - rewrite Q1. unfold queues. by rewrite lookup_fmap, Hx, <- Hq.
  - unfold links. simpl. by rewrite lookup_fmap, Ha.
  - unfold links. simpl. by rewrite lookup_fmap, Hm.
Qed.

Lemma rsp_recv_done_pairs_witness :
  match rsp_recv_done (env := calm [] 0) (Some sample_server_conn) (Some sample_rsp) None sample_answered with
  | Some (_, w') => links w' = <[sample_rsp := (Some sample_msg, false)]> (<[sample_msg := (Some sample_rsp, true)]> (links sample_answered))
  | None => False
  end.
Proof.
  destruct (rsp_recv_done _ _ _ sample_answered) as [[[] w']|] eqn:E; [|by vm_compute in E].
  destruct (w_conns sample_answered !! sample_server_conn) as [x|] eqn:Hc; [|by vm_compute in Hc].
  destruct (w_msgs sample_answered !! sample_msg) as [xa|] eqn:Ha; [|by vm_compute in Ha].
  destruct (w_msgs sample_answered !! sample_rsp) as [xm|] eqn:Hm; [|by vm_compute in Hm].
  assert (m_done xm = false) as <- by (vm_compute in Hm; by injection Hm as <-).
  refine (proj1 (rsp_recv_done_pairs _ _ _ _ _ x sample_msg [] xa xm Hc _ Ha Hm _ _ _ _ E)).
  - vm_compute in Hc. by injection Hc as <-.
  - done.
  - vm_compute in Hm. by injection Hm as <-.
  - vm_compute in Ha. by injection Ha as <-.
  - intros _. vm_compute in Hm. by injection Hm as <-.
Defined.

(** The response a client connection sends next is that of the request
    behind the one whose response it sent last, the oldest one at first, and
    only once that request is done: no response overtakes another. *)
Theorem rsp_send_next_in_order `{env : Env} c m w w' x :
  w_conns w !! c = Some x -> rsp_send_next (Some c) w = Some (Some m, w') ->
  exists a pe d, send_position x w = Some a /\ links w !! a = Some (pe, true) /\ links w' !! a = Some (Some m, d) /\
    c_smsg <$> w_conns w' !! c = Some (Some m).
Proof.
  intros Hx. revert m w'.
  enough (gives (rsp_send_next (Some c)) w (fun o w' => forall m, o = Some m -> exists a pe d, send_position x w = Some a /\
    links w !! a = Some (pe, true) /\ links w' !! a = Some (Some m, d) /\ c_smsg <$> w_conns w' !! c = Some (Some m))) as H
    by (intros m w' E; by eapply H).
  unfold rsp_send_next. give_w. apply gives_conn_ld. intros ? ? [= <-] H1. simplify_eq. give_w.
  eapply gives_mono; [apply done_or_null_true|]. intros d1 w1 (L1 & Q1 & _). destruct d1; simpl.
  2: { apply gives_mono with (P := fun o _ => o = None); [|by intros ? ? ->].
    repeat (apply gives_bind; intros ? ? _). by give_w. }
  give_w. apply gives_conn_ld. intros ? x1 [= <-] Hx1.
  assert (c_omsg_q x1 = c_omsg_q x /\ c_smsg x1 = c_smsg x) as [Eq Es].
  { assert (queues w1 !! c = queues w !! c) as E by (by rewrite Q1). unfold queues in E. rewrite !lookup_fmap, Hx, Hx1 in E. by injection E. }
  give_w. apply gives_mono with (P := fun p w2 => w2 = w1 /\ p = send_position x w).
  { unfold send_position. rewrite Es. destruct (c_smsg x) as [s|]; give_w; [|by split].
    apply gives_msg_ld. intros ? y [= <-] Hy. give_w. unfold addr. apply gives_reads. intros pe Hpe. give_w.
    apply gives_conn_ld. intros ? x2 [= <-] Hx2. give_w. simplify_eq. split; [done|]. rewrite <- L1, Eq. unfold links.
    rewrite lookup_fmap, Hy. simpl. by rewrite Hpe. }
  intros p w2 [-> ->]. give_w. eapply gives_mono; [apply done_or_null_true|]. intros d2 w2 (L2 & Q2 & Hd).
  destruct d2; simpl; [|solve [repeat (apply gives_bind; intros ? ? _); give_w; done]].
  destruct (Hd eq_refl) as (a & pe & -> & Ha). rewrite L1 in Ha.
  apply gives_mono with (P := fun o w' => forall m, o = Some m -> exists d, links w' !! a = Some (Some m, d) /\ c_smsg <$> w_conns w' !! c = Some (Some m)).
  2: { intros o w' H m Hm. destruct (H m Hm) as (d & ? & ?). by exists a, pe, d. }
  assert (Hset : forall o w3, match links w3 !! a with Some (p, _) => p = o | None => False end ->
    gives (conn_st (c_set_smsg o) (Some c);; mret o) w3
      (fun o w' => forall m, o = Some m -> exists d, links w' !! a = Some (Some m, d) /\ c_smsg <$> w_conns w' !! c = Some (Some m))).
  { intros o w3 Hl. give_w. apply gives_conn_st. intros ? y [= <-] Hy. give_w. intros m ->. destruct (links w3 !! a) as [[? d]|] eqn:E; [|done].
    subst. exists d. split; [done|]. simpl. by rewrite lookup_insert_eq. }
  give_w. intros e w3 _. destruct e.
  - give_w. intros o w4 _. destruct o as [m'|]; [|solve [repeat (apply gives_bind; intros ? ? _); give_w; done]].
    give_w. intros [] w5 _. give_w. apply gives_msg_st. intros ? y [= <-] Hy. apply Hset.
    unfold links. simpl. by rewrite fmap_insert, lookup_insert_eq.
  - give_w. apply gives_msg_ld. intros ? y [= <-] Hy. apply Hset. unfold links. by rewrite lookup_fmap, Hy.
Qed.

(** The response has been forwarded to the client. *)
Definition w_ready : world :=
  after (rsp_recv_done (env := calm [] 0) (Some sample_server_conn) (Some sample_rsp) None) sample_answered.

Lemma rsp_send_next_in_order_witness :
  match rsp_send_next (env := calm [] 0) (Some sample_conn) w_ready with
  | Some (Some m, w') => exists d, links w' !! sample_msg = Some (Some m, d)
  | _ => False
  end.
Proof.
  destruct (rsp_send_next _ w_ready) as [[[m|] w']|] eqn:E; [|by vm_compute in E|by vm_compute in E].
  destruct (w_conns w_ready !! sample_conn) as [x|] eqn:Hc; [|by vm_compute in Hc].
  destruct (rsp_send_next_in_order _ _ _ _ x Hc E) as (a & pe & d & Hp & _ & Hl & _). exists d. rewrite <- Hl. f_equal.
  vm_compute in Hc. injection Hc as <-. vm_compute in Hp. by injection Hp.
Defined.
