(* ===== verification/ReplyOrder.v ===== *)
(** A client gets its responses in the order of its requests: runs of the
    functions that touch the queue of a client connection, in any order with
    other work between them, up to the round structure of msg_send_chain
    (hand out responses, forget the position, finish the ones that were
    written whole). *)

From stdpp Require Import gmap.
From S2P Require Import Prelude CArray Mbuf Message Parser RedisReq Pool State Rbtree World MsgStore RedisMsg McMsg ReqCore ConnServer Request Response MsgIO Frame Sample Pairing.

(** ** Lists *)

Lemma tailq_after_mid a l1 l2 : a ∉ l1 -> tailq_after a (l1 ++ a :: l2) = l2.
Proof.
  induction l1 as [|x l1 IH]; simpl; intros Ha; [by rewrite bool_decide_eq_true_2|].
  apply not_elem_of_cons in Ha as [Hx Ha]. rewrite bool_decide_eq_false_2 by done. by apply IH.
Qed.

Lemma tailq_remove_mid a l1 l2 : a ∉ l1 -> tailq_remove a (l1 ++ a :: l2) = Some (l1 ++ l2).
Proof.
  induction l1 as [|x l1 IH]; simpl; intros Ha; [by rewrite bool_decide_eq_true_2|].
  apply not_elem_of_cons in Ha as [Hx Ha]. rewrite bool_decide_eq_false_2 by done. by rewrite IH.
Qed.

Lemma tailq_after_split a q l : NoDup q -> tailq_after a q = l -> a ∈ q -> exists l1, q = l1 ++ a :: l /\ a ∉ l1.
Proof.
  intros Hn <- (l1 & l2 & ->)%list_elem_of_split. exists l1. apply list.NoDup_app in Hn as (_ & Hd & _).
  assert (a ∉ l1) by (intros H; apply (Hd a H); left). by rewrite tailq_after_mid.
Qed.

Section Queues.
Context `{env : Env}.

(** ** What leaves the queues alone *)

Lemma keeps_queues_conn g p :
  (forall x, c_imsg_q (g x) = c_imsg_q x /\ c_omsg_q (g x) = c_omsg_q x /\ c_smsg (g x) = c_smsg x) -> Keeps queues (conn_st g p).
Proof.
  intros Hg. apply keeps_conn_st. intros w a x _ Hx. unfold queues. simpl. rewrite fmap_insert. destruct (Hg x) as (-> & -> & ->).
  apply insert_id. by rewrite lookup_fmap, Hx.
Qed.

#[local] Hint Extern 1 (Keeps queues (conn_st _ _)) => apply keeps_queues_conn; intros; split_and!; reflexivity : typeclass_instances.

#[local] Instance kq_mark_all g id l : Keeps queues (mark_all g id l).
Proof. induction l; simpl; apply _. Qed.
#[local] Instance kq_all_done id l : Keeps queues (all_done id l).
Proof. induction l; simpl; apply _. Qed.
#[local] Instance kq_any_error id l : Keeps queues (any_error id l).
Proof. induction l; simpl; apply _. Qed.
#[local] Instance kq_copy_loop dst src h len : Keeps queues (copy_bulk_loop dst src h len).
Proof. revert len. induction h; intros len; simpl; solve_keeps. Qed.
#[local] Instance kq_mc_copy_loop dst src h len : Keeps queues (mc_copy_loop dst src h len).
Proof. revert len. induction h; intros len; simpl; solve_keeps. Qed.
#[local] Instance kq_append m s : Keeps queues (msg_append m s).
Proof. solve_keeps. Qed.
#[local] Instance kq_prepend_format m s : Keeps queues (msg_prepend_format m s).
Proof. solve_keeps. Qed.
#[local] Instance kq_copy_bulk dst src : Keeps queues (redis_copy_bulk dst src).
Proof. solve_keeps. Qed.
#[local] Instance kq_mc_copy_bulk dst src : Keeps queues (memcache_copy_bulk dst src).
Proof. solve_keeps. Qed.
#[local] Instance kq_coalesce copy rq rs i n : (forall d s, Keeps queues (copy d s)) -> Keeps queues (coalesce_keys copy rq rs i n).
Proof. intros H. revert i. induction n; intros i; simpl; solve_keeps. Qed.
#[local] Instance kq_post_coalesce m fo : Keeps queues (post_coalesce m fo).
Proof. solve_keeps. Qed.
#[local] Instance kq_req_done c m : Keeps queues (req_done c m).
Proof. solve_keeps. Qed.
#[local] Instance kq_done_or_null c m : Keeps queues (done_or_null c m).
Proof. solve_keeps. Qed.
#[local] Instance kq_req_error c m : Keeps queues (req_error c m).
Proof. solve_keeps. Qed.
#[local] Instance kq_put_mbufs h : Keeps queues (put_mbufs h).
Proof. solve_keeps. Qed.
#[local] Instance kq_req_put m : Keeps queues (req_put m).
Proof. solve_keeps. Qed.
#[local] Instance kq_put_peer m : Keeps queues (put_peer m).
Proof. solve_keeps. Qed.
#[local] Instance kq_msg_get_error r e : Keeps queues (msg_get_error r e).
Proof. solve_keeps. Qed.
#[local] Instance kq_event_del_out c : Keeps queues (event_del_out c).
Proof. solve_keeps. Qed.
#[local] Instance kq_conn_errno c : Keeps queues (conn_errno c).
Proof. solve_keeps. Qed.

Lemma gives_queues {A} (m : W A) w (Q : A -> world -> Prop) :
  Keeps queues m -> (forall x w', queues w' = queues w -> Q x w') -> gives m w Q.
Proof. intros Hk H x w' E. apply H. by apply (Hk _ _ _ E). Qed.

(** ** What the functions do to the queue of a client *)

Variable c : positive.

Lemma enqueue_queue a w i q s :
  queues w !! c = Some (i, q, s) ->
  gives (req_client_enqueue_omsgq (Some c) (Some a)) w (fun _ w' => a ∉ q /\ queues w' !! c = Some (i, q ++ [a], s)).
Proof.
  intros Hq. unfold req_client_enqueue_omsgq. give_w. unfold addr. apply gives_reads. intros ? [= <-].
  destruct (decide (a ∈ q)) as [Hin|Hin].
  - pose proof Hq as (x & Hx & [= -> -> ->])%queues_Some. unfold conn_queue. give_w. apply gives_conn_ld. intros ? y [= <-] Hy. simplify_eq.
    unfold tailq_insert_tail. rewrite bool_decide_eq_true_2 by done. give_w.
  - eapply gives_out_queue; [exact Hq|unfold tailq_insert_tail; by rewrite bool_decide_eq_false_2|].
    intros w' _ ->. split; [done|]. apply lookup_insert_eq.
Qed.

Lemma dequeue_queue a w i l1 l2 s :
  queues w !! c = Some (i, l1 ++ a :: l2, s) -> a ∉ l1 ->
  gives (req_client_dequeue_omsgq (Some c) (Some a)) w (fun _ w' => queues w' !! c = Some (i, l1 ++ l2, s)).
Proof.
  intros Hq Ha. unfold req_client_dequeue_omsgq. give_w. unfold addr. apply gives_reads. intros ? [= <-].
  eapply gives_out_queue; [exact Hq|by apply tailq_remove_mid|]. intros w' _ ->. apply lookup_insert_eq.
Qed.

Lemma drop_fragments_queue id l err w i l1 s :
  queues w !! c = Some (i, l1 ++ l, s) -> NoDup (l1 ++ l) ->
  gives (drop_fragments (Some c) id err l) w (fun _ w' => exists d l2, l = d ++ l2 /\ queues w' !! c = Some (i, l1 ++ l2, s)).
Proof.
  revert err w. induction l as [|a l IH]; intros err w Hq Hn; simpl; [give_w; by exists [], []|].
  give_w. apply gives_msg_ld. intros ? x [= <-] _. destruct (_ =? id); give_w; [|by exists [], (a :: l)].
  pose proof Hn as (_ & Hd & _)%list.NoDup_app. assert (Ha : a ∉ l1) by (intros H; apply (Hd a H); left).
  eapply gives_mono; [by apply (dequeue_queue a w i l1 l s)|]. intros [] w1 Hq1. give_w.
  apply gives_msg_ld. intros ? y [= <-] _. give_w. apply gives_queues; [apply _|]. intros [] w2 Hq2. rewrite <- Hq2 in Hq1.
  eapply gives_mono; [apply IH; [exact Hq1|]|].
  - apply list.NoDup_app in Hn as (H1 & H2 & H3). apply list.NoDup_cons in H3 as [_ H3]. apply list.NoDup_app. split_and!; try done.
    intros b Hb Hb'. apply (H2 b Hb). by right.
  - intros e w3 (d & l2 & -> & H). by exists (a :: d), l2.
Qed.

(** The requests right behind [a] that are dropped with it. *)
Definition trimmed (a : positive) (q q' : list positive) : Prop :=
  q' = q \/ exists l1 d l2, q = l1 ++ a :: d ++ l2 /\ q' = l1 ++ a :: l2.

Lemma make_error_queue a w i q s :
  queues w !! c = Some (i, q, s) -> NoDup q -> a ∈ q ->
  gives (rsp_make_error (Some c) (Some a)) w (fun _ w' => exists q', trimmed a q q' /\ queues w' !! c = Some (i, q', s)).
Proof.
  intros Hq Hn Hin. unfold rsp_make_error. give_w. apply gives_msg_ld. intros ? x [= <-] _. give_w.
  apply gives_mono with (P := fun _ w' => exists q', trimmed a q q' /\ queues w' !! c = Some (i, q', s)).
  - destruct (negb _); [|apply gives_msg_ld; intros; exists q; split; [by left|done]].
    give_w. unfold addr. apply gives_reads. intros ? [= <-]. give_w.
    pose proof Hq as (y & Hy & [= -> -> ->])%queues_Some. apply gives_conn_ld. intros ? z [= <-] Hz. simplify_eq.
    destruct (tailq_after_split a (c_omsg_q y) _ Hn eq_refl Hin) as (l1 & E & Ha). set (l := tailq_after a (c_omsg_q y)) in *.
    eapply gives_mono; [apply (drop_fragments_queue _ l _ w (c_imsg_q y) (l1 ++ [a]) (c_smsg y)); rewrite <- app_assoc; simpl; by rewrite <- E|].
    intros e w' (d & l2 & El & H). exists (l1 ++ a :: l2). split; [|by rewrite H, <- app_assoc].
    right. exists l1, d, l2. by rewrite <- El.
  - intros err w1 (q' & Ht & Hq'). give_w. apply gives_queues; [apply _|]. intros [] w2 H2. give_w. apply gives_conn_ld.
    intros ? y [= <-] Hy. apply gives_queues; [apply _|]. intros r w3 H3. exists q'. split; [done|]. by rewrite H3, H2.
Qed.
(** Handing out a response: the queue is as it was, but for fragments dropped
    behind the request that gets an error, and the response is noted. *)
Lemma send_next_queue w x i q s :
  w_conns w !! c = Some x -> queues w !! c = Some (i, q, s) -> NoDup q ->
  (forall a, send_position x w = Some a -> a ∈ q) ->
  gives (rsp_send_next (Some c)) w (fun o w' => exists q' s', queues w' !! c = Some (i, q', s') /\
    (q' = q \/ exists a, send_position x w = Some a /\ trimmed a q q') /\
    forall m, o = Some m -> s' = Some m /\ exists a, send_position x w = Some a).
Proof.
  intros Hx Hq Hn Hpos. pose proof Hq as (x' & Hx' & [= Ei Eq Es])%queues_Some. rewrite Hx in Hx'. injection Hx' as <-.
  unfold rsp_send_next. give_w. apply gives_conn_ld. intros ? ? [= <-] H1. simplify_eq. give_w.
  eapply gives_mono; [apply done_or_null_true|]. intros d1 w1 (L1 & Q1 & _). destruct d1; simpl.
  2: { give_w. apply gives_conn_ld. intros ? ? [= <-] _. give_w. apply gives_queues; [solve_keeps|]. intros [] w2 H2. give_w.
    apply gives_queues; [apply _|]. intros st w3 H3. give_w. apply gives_queues; [solve_keeps|]. intros [] w4 H4. give_w.
    eexists _, _. rewrite H4, H3, H2, Q1, Hq. by split_and!; [|left|]. }
  rewrite <- Q1 in Hq. pose proof Hq as (x1 & Hx1 & [= Ei1 Eq1 Es1])%queues_Some. give_w.
  apply gives_conn_ld. intros ? ? [= <-] H2. simplify_eq. give_w.
  apply gives_mono with (P := fun p w2 => w2 = w1 /\ p = send_position x w).
  { unfold send_position. rewrite Es1. destruct (c_smsg x1) as [s|]; give_w; [|by split].
    apply gives_msg_ld. intros ? y [= <-] Hy. give_w. unfold addr. apply gives_reads. intros pe Hpe. give_w.
    apply gives_conn_ld. intros ? x2 [= <-] Hx2. give_w. simplify_eq. split; [done|]. rewrite <- L1, <- Eq1. unfold links.
    rewrite lookup_fmap, Hy. simpl. by rewrite Hpe. }
  intros p w2 [-> ->]. give_w. apply gives_queues; [apply _|]. intros d2 w2 Q2. rewrite <- Q2 in Hq.
  destruct d2; simpl.
  2: { give_w. apply gives_conn_st. intros ? y [= <-] Hy. give_w. pose proof Hq as (y' & Hy' & [= Ei2 Eq2 Es2])%queues_Some. simplify_eq.
    exists (c_omsg_q x), None. split_and!; [|by left|done]. unfold queues. simpl. rewrite lookup_fmap, lookup_insert_eq. simpl. congruence. }
  destruct (send_position x w) as [a|] eqn:Ep.
  2: { give_w. unfold req_error. give_w. by apply gives_msg_ld. }
  assert (Hset : forall o w3 q', queues w3 !! c = Some (c_imsg_q x, q', c_smsg x) -> trimmed a (c_omsg_q x) q' ->
    gives (conn_st (c_set_smsg o) (Some c);; mret o) w3 (fun o w' => exists q' s', queues w' !! c = Some (c_imsg_q x, q', s') /\
      (q' = c_omsg_q x \/ exists a0, Some a = Some a0 /\ trimmed a0 (c_omsg_q x) q') /\
      forall m, o = Some m -> s' = Some m /\ exists a0, Some a = Some a0)).
  { intros o w3 q' H3 Ht. give_w. apply gives_conn_st. intros ? y [= <-] Hy. give_w.
    pose proof H3 as (y' & Hy' & [= Ei2 Eq2 Es2])%queues_Some. simplify_eq. exists (c_omsg_q y), o. split_and!.
    - unfold queues. simpl. rewrite lookup_fmap, lookup_insert_eq. simpl. congruence.
    - right. by exists a.
    - intros m ->. split; [done|by exists a]. }
  give_w. apply gives_queues; [apply _|]. intros e w3 Q3. rewrite <- Q3 in Hq. destruct e.
  - give_w. eapply gives_mono; [apply (make_error_queue a w3 _ _ _ Hq Hn); by apply Hpos|]. intros o w4 (q' & Ht & Hq').
    destruct o as [m'|].
    + give_w. apply gives_queues; [apply _|]. intros [] w5 Q5. give_w. apply gives_queues; [apply _|]. intros [] w6 Q6.
      apply (Hset _ _ q'); [by rewrite Q6, Q5|done].
    + give_w. apply gives_queues; [apply _|]. intros [] w5 Q5. give_w. exists q', (c_smsg x). rewrite Q5.
      split_and!; [done|right; by exists a|done].
  - give_w. apply gives_msg_ld. intros ? y [= <-] Hy. apply (Hset _ _ (c_omsg_q x)); [done|by left].
Qed.

Lemma send_done_queue m a d w i l1 l2 s :
  links w !! m = Some (Some a, d) -> queues w !! c = Some (i, l1 ++ a :: l2, s) -> a ∉ l1 ->
  gives (rsp_send_done (Some c) (Some m)) w (fun _ w' => queues w' !! c = Some (i, l1 ++ l2, s)).
Proof.
  intros (y & Hy & [= Ea _])%links_Some Hq Ha. unfold rsp_send_done. give_w. apply gives_msg_ld. intros ? z [= <-] Hz. simplify_eq.
  rewrite <- Ea. give_w. eapply gives_mono; [by apply (dequeue_queue a w i l1 l2 s)|]. intros [] w1 H1.
  eapply gives_queues; [solve_keeps|]. intros [] w2 ->. done.
Qed.
End Queues.

(** ** Runs of a client connection *)

(** msg_send_chain hands out responses with rsp_send_next, until there is none
    or the vectors are full; then it forgets where it was (conn->smsg); then
    rsp_send_done finishes those written whole, from the first on. *)
Inductive phase := Collect | Stop | Finish.

(** What a run shows: a request enters the queue, a response is handed out
    for a request (with the state after it), a request is answered. *)
Inductive event :=
  | Arrive (a : positive)
  | Hand (a m : positive) (w : world)
  | Answer (a : positive).

Definition arrived (evs : list event) : list positive := omap (fun e => match e with Arrive a => Some a | _ => None end) evs.
Definition answered (evs : list event) : list positive := omap (fun e => match e with Answer a => Some a | _ => None end) evs.

(** The response still names its request. *)
Definition names_request (w : world) (p : positive * positive) : Prop := exists d, links w !! p.2 = Some (Some p.1, d).

Definition state : Type := world * phase * list (positive * positive).

Section Runs.
Context `{env : Env} (c : positive).

(** One step: the state with the requests and responses handed out in this
    round, the events, the state after it. *)
Inductive step : state -> list event -> state -> Prop :=
  | St_arrive a w w' ph fl :
      req_client_enqueue_omsgq (Some c) (Some a) w = Some (tt, w') -> step (w, ph, fl) [Arrive a] (w', ph, fl)
  | St_hand x a m w w' fl :
      (forall p, list.last fl = Some p -> names_request w p) -> w_conns w !! c = Some x -> send_position x w = Some a ->
      rsp_send_next (Some c) w = Some (Some m, w') -> step (w, Collect, fl) [Hand a m w'] (w', Collect, fl ++ [(a, m)])
  | St_none w w' fl :
      (forall p, list.last fl = Some p -> names_request w p) ->
      rsp_send_next (Some c) w = Some (None, w') -> step (w, Collect, fl) [] (w', Stop, fl)
  | St_full w fl : step (w, Collect, fl) [] (w, Stop, fl)
  | St_forget w w' fl : conn_st (c_set_smsg None) (Some c) w = Some (tt, w') -> step (w, Stop, fl) [] (w', Finish, fl)
  | St_answer a m w w' fl :
      names_request w (a, m) -> rsp_send_done (Some c) (Some m) w = Some (tt, w') ->
      step (w, Finish, (a, m) :: fl) [Answer a] (w', Finish, fl)
  | St_again w fl : step (w, Finish, fl) [] (w, Collect, [])
  | St_other w w' ph fl : queues w' !! c = queues w !! c -> step (w, ph, fl) [] (w', ph, fl).

Inductive steps : state -> list event -> state -> Prop :=
  | Steps_nil s : steps s [] s
  | Steps_cons s1 e s2 es s3 : step s1 e s2 -> steps s2 es s3 -> steps s1 (e ++ es) s3.

(** The requests in hand are the front of the queue; the position is the last
    of them while responses are handed out. *)
Definition in_order (base : list positive) (done : list positive) (st : state) : Prop :=
  let '(w, ph, fl) := st in
  exists i q s, queues w !! c = Some (i, q, s) /\ NoDup q /\ (map fst fl) `prefix_of` q /\
    match ph with Collect => s = snd <$> list.last fl | Stop => True | Finish => s = None end /\
    done ++ q `sublist_of` base.

Lemma position_behind w x i q fl :
  w_conns w !! c = Some x -> queues w !! c = Some (i, q, snd <$> list.last fl) -> NoDup q ->
  (map fst fl) `prefix_of` q -> (forall p, list.last fl = Some p -> names_request w p) ->
  forall a, send_position x w = Some a -> exists l, q = map fst fl ++ a :: l.
Proof.
  intros Hx (x' & Hx' & [= -> -> Es])%queues_Some Hn [k Hk] Hp a Ha. rewrite Hx in Hx'. injection Hx' as <-.
  unfold send_position in Ha. rewrite <- Es in Ha. destruct (list.last fl) as [[a0 m0]|] eqn:El; simpl in Ha.
  - destruct (Hp _ eq_refl) as [d Hd]. simpl in Hd. rewrite Hd in Ha.
    apply list.last_Some in El as [fl' ->]. rewrite map_app in Hk. simpl in Hk. rewrite <- app_assoc in Hk. simpl in Hk.
    rewrite Hk in Ha, Hn. unfold tailq_next in Ha. rewrite tailq_after_mid in Ha.
    + destruct k as [|b k]; [done|]. injection Ha as ->. exists k. by rewrite Hk, map_app, <- app_assoc.
    + intros Hin. apply list.NoDup_app in Hn as (_ & Hd' & _). apply (Hd' a0 Hin). left.
  - apply list.last_None in El as ->. simpl in *. subst k. destruct (c_omsg_q x) as [|b k]; [done|]. injection Ha as ->. by exists k.
Qed.
Lemma trimmed_behind a pre l q' :
  NoDup (pre ++ a :: l) -> trimmed a (pre ++ a :: l) q' ->
  exists l', q' = pre ++ a :: l' /\ l' `sublist_of` l.
Proof.
  intros Hn [->|(l1 & d & l2 & E & ->)]; [by exists l|].
  assert (H1 : a ∉ pre) by (intros H; apply list.NoDup_app in Hn as (_ & Hd & _); apply (Hd a H); left).
  rewrite E in Hn. assert (H2 : a ∉ l1) by (intros H; apply list.NoDup_app in Hn as (_ & Hd & _); apply (Hd a H); left).
  assert (pre = l1 /\ l = d ++ l2) as [-> ->].
  { clear Hn. revert l1 E H2. induction pre as [|b pre IH]; intros [|b' l1] E H2; simpl in E.
    - by injection E.
    - injection E as -> _. apply not_elem_of_cons in H2 as [H2 _]. done.
    - injection E as -> _. apply not_elem_of_cons in H1 as [H1 _]. done.
    - injection E as -> E. apply not_elem_of_cons in H1 as [_ H1]. apply not_elem_of_cons in H2 as [_ H2].
      destruct (IH H1 l1 E H2) as [-> ->]. done. }
  exists l2. split; [done|]. apply sublist_inserts_l. done.
Qed.

Definition handed (e : event) : Prop :=
  match e with Hand a m w => exists d, links w !! a = Some (Some m, d) | _ => True end.

(** Handing out, with or without a response to give. *)
Lemma hand_in_order base done w fl o w' :
  in_order base done (w, Collect, fl) -> (forall p, list.last fl = Some p -> names_request w p) ->
  rsp_send_next (Some c) w = Some (o, w') ->
  exists i q s, queues w' !! c = Some (i, q, s) /\ NoDup q /\ (map fst fl) `prefix_of` q /\ done ++ q `sublist_of` base /\
    forall m x a, o = Some m -> w_conns w !! c = Some x -> send_position x w = Some a ->
      s = Some m /\ (map fst (fl ++ [(a, m)])) `prefix_of` q.
Proof.
  intros (i & q & s & Hq & Hn & Hpre & -> & Hsub) Hp E. pose proof Hq as (x & Hx & _)%queues_Some.
  pose proof (position_behind w x i q fl Hx Hq Hn Hpre Hp) as Hpos.
  destruct (send_next_queue c w x i q (snd <$> list.last fl) Hx Hq Hn) with o w' as (q' & s' & Hq' & Ht & Ho); [|done|].
  { intros a Ha. destruct (Hpos a Ha) as [l ->]. apply elem_of_app. right. left. }
  assert (Hfront : forall a, send_position x w = Some a -> exists l l', q = map fst fl ++ a :: l /\ q' = map fst fl ++ a :: l' /\ l' `sublist_of` l).
  { intros a Ha. destruct (Hpos a Ha) as [l ->]. destruct Ht as [->|(b & Hb & Ht)]; [by exists l, l|].
    assert (b = a) as -> by congruence. destruct (trimmed_behind a (map fst fl) l q' Hn Ht) as (l' & -> & Hl). by exists l, l'. }
  assert (Hqq : q' `sublist_of` q /\ (map fst fl) `prefix_of` q').
  { destruct Ht as [->|(b & Hb & _)]; [done|]. destruct (Hfront b Hb) as (l & l' & -> & -> & Hl).
    split; [|by apply prefix_app_r]. apply sublist_app; [done|]. by apply sublist_skip. }
  exists i, q', s'. split_and!; try done; try apply Hqq.
  - eapply sublist_NoDup; [exact Hn|apply Hqq].
  - etrans; [|exact Hsub]. apply sublist_app; [done|apply Hqq].
  - intros m y a -> Hy Ha. assert (y = x) as -> by congruence. destruct (Ho m eq_refl) as [-> _]. split; [done|].
    destruct (Hfront a Ha) as (l & l' & _ & -> & _). rewrite map_app. simpl. apply prefix_app. by apply (prefix_app_r [a] [a] l').
Qed.

Lemma step_in_order base done s1 e s2 :
  step s1 e s2 -> in_order base done s1 -> in_order (base ++ arrived e) (done ++ answered e) s2 /\ Forall handed e.
Proof.
  intros Hs. destruct Hs as [a w w' ph fl E|x a m w w' fl Hp Hx Ha E|w w' fl Hp E|w fl|w w' fl E|a m w w' fl Hp E|w fl|w w' ph fl E];
    intros Hi; (split; [|try (by repeat constructor)]); simpl; rewrite ?app_nil_r.
  - destruct Hi as (i & q & s & Hq & Hn & Hpre & Hph & Hsub).
    destruct (enqueue_queue c a w i q s Hq _ _ E) as [Hin Hq']. exists i, (q ++ [a]), s. split_and!; try done.
    + apply list.NoDup_app. split_and!; [done| |apply NoDup_singleton]. intros b Hb ->%list_elem_of_singleton. done.
    + by apply prefix_app_r.
    + rewrite app_assoc. by apply sublist_app.
  - destruct (hand_in_order _ _ _ _ _ _ Hi Hp E) as (i & q & s & Hq & Hn & _ & Hsub & Ho).
    destruct (Ho m x a eq_refl Hx Ha) as [-> Hpre]. exists i, q, (Some m). split_and!; try done. by rewrite list.last_snoc.
  - constructor; [|constructor]. destruct (rsp_send_next_in_order c m w w' x Hx E) as (b & pe & d & Hb & _ & Hl & _).
    assert (b = a) as -> by congruence. by exists d.
  - destruct (hand_in_order _ _ _ _ _ _ Hi Hp E) as (i & q & s & Hq & Hn & Hpre & Hsub & _). by exists i, q, s.
  - destruct Hi as (i & q & s & Hq & Hn & Hpre & _ & Hsub). by exists i, q, s.
  - destruct Hi as (i & q & s & Hq & Hn & Hpre & _ & Hsub). exists i, q, None. split_and!; try done.
    revert E. apply (gives_conn_st (c_set_smsg None) (Some c) w (fun _ w' => queues w' !! c = Some (i, q, None))).
    intros ? x [= <-] Hx. apply queues_Some in Hq as (y & Hy & [= -> -> _]). simplify_eq.
    unfold queues. simpl. by rewrite lookup_fmap, lookup_insert_eq.
  - destruct Hi as (i & q & s & Hq & Hn & [k Hk] & -> & Hsub). simpl in Hk. subst q. destruct Hp as [d Hd].
    exists i, (map fst fl ++ k), None. split_and!; try done.
    + exact (send_done_queue c m a d w i [] (map fst fl ++ k) None Hd Hq (not_elem_of_nil a) _ _ E).
    + by apply list.NoDup_cons in Hn as [_ ?].
    + by apply prefix_app_r.
    + by rewrite <- app_assoc.
  - destruct Hi as (i & q & s & Hq & Hn & _ & -> & Hsub). exists i, q, None. split_and!; try done. apply prefix_nil.
  - destruct Hi as (i & q & s & Hq & H). exists i, q, s. by rewrite E.
Qed.
Lemma steps_in_order base done s1 evs s2 :
  steps s1 evs s2 -> in_order base done s1 -> in_order (base ++ arrived evs) (done ++ answered evs) s2 /\ Forall handed evs.
Proof.
  intros H. revert base done. induction H as [s|s1 e s2 es s3 Hs _ IH]; intros base done Hi.
  - simpl. rewrite !app_nil_r. by split; [|constructor].
  - destruct (step_in_order _ _ _ _ _ Hs Hi) as [Hi2 He]. destruct (IH _ _ Hi2) as [Hi3 Hes].
    unfold arrived, answered in *. rewrite !omap_app, !app_assoc. split; [done|]. by apply Forall_app.
Qed.
End Runs.


(** ** A run

    Two requests of a client have been answered by the server. *)
Definition w_answered2 : world :=
  let _ := calm [] 1000 in
  after (c ← new_client; m ← receive c sample_get; req_recv_done c m None;; m ← receive c sample_get; req_recv_done c m None;;
         msg_send (Some sample_server_conn);;
         r ← receive (Some sample_server_conn) sample_reply; rsp_recv_done (Some sample_server_conn) r None;;
         r ← receive (Some sample_server_conn) sample_reply; rsp_recv_done (Some sample_server_conn) r None) (sample_world []).

(** Both responses are handed out, a third request arrives meanwhile, and the
    first response has been written whole. *)
Definition w_hand1 : world := after (rsp_send_next (env := calm [] 0) (Some sample_conn)) w_answered2.
Definition w_hand2 : world := after (rsp_send_next (env := calm [] 0) (Some sample_conn)) w_hand1.
Definition w_third : world := after (req_client_enqueue_omsgq (Some sample_conn) (Some 50%positive)) w_hand2.
Definition w_forgot : world := after (conn_st (c_set_smsg None) (Some sample_conn)) w_third.
Definition w_done1 : world := after (rsp_send_done (env := calm [] 0) (Some sample_conn) (Some 8%positive)) w_forgot.

