(* ===== verification/Faults.v ===== *)
(** Where the request path goes wrong: the response a log record takes for
    granted, fragments that are not counted, and the fragment table that is
    too short. *)

From stdpp Require Import gmap.
From S2P Require Import Prelude CArray Mbuf Message Parser RedisReq Pool PoolFacts PoolSafe PoolRoute PoolEject State Rbtree World MsgStore RedisMsg McMsg ReqCore ConnServer Request Frame StoreFacts Sample.

(** C39. With notices logged, releasing a request that has a key but no
    response (a noreply request once it is sent, a request of a client that
    closes its connection) follows a NULL pointer: req_log reads the times of
    the response without looking whether there is one. *)
Theorem req_put_without_response_faults `{env : Env} m x xc oc w :
  ev_notice = true -> w_msgs w !! m = Some x -> m_owner x = Some oc -> w_conns w !! oc = Some xc ->
  m_frag_id x = 0 -> m_mlen x <> 0 -> m_start_ts x <> 0 -> 1 <= array_n (keys (m_regs x)) -> m_peer x = None ->
  req_put (Some m) w = None.
Proof.
  intros Hn Hx Ho Hc Hf Hl Hs Hk Hp. unfold req_put, mbind, ST_bind. enough (req_log (Some m) w = None) as -> by done.
  unfold req_log. rewrite Hn. simpl. unfold mbind, ST_bind, msg_ld, conn_ld, reads, ask. rewrite Hx. simpl. rewrite Hf. simpl.
  destruct (Z.eqb_spec (m_mlen x) 0); [done|]. destruct (Z.eqb_spec (m_start_ts x) 0); [done|]. rewrite Hp. simpl.
  destruct (Z.ltb_spec (array_n (keys (m_regs x))) 1); [lia|]. rewrite Ho. simpl. by rewrite Hc.
Qed.

(** A client has sent GET, and notices are logged. *)
Definition w_logged : world :=
  let _ := calm_env true sample_get 0 in after (c ← new_client; receive c sample_get) (sample_world []).

Lemma req_put_without_response_faults_witness : req_put (env := calm_env true [] 0) (Some sample_msg) w_logged = None.
Proof.
  destruct (w_msgs w_logged !! sample_msg) as [x|] eqn:Hm; [|by vm_compute in Hm].
  destruct (w_conns w_logged !! sample_conn) as [xc|] eqn:Hc; [|by vm_compute in Hc].
  apply (req_put_without_response_faults (env := calm_env true [] 0) _ x xc sample_conn _ eq_refl Hm); [|exact Hc|..];
    vm_compute in Hm; injection Hm as <-; by vm_compute.
Defined.

(** req_forward_error on a fragment (no connection to its server, no
    memory) marks it done and in error but does not count it in its vector,
    as the responses and server_close do for theirs: the vector is as it was,
    and req_done says it is not complete. *)
Theorem failed_fragment_not_counted `{env : Env} c a r q w xc xr xa :
  w_conns w !! c = Some xc -> c_omsg_q xc = r :: q -> w_msgs w !! r = Some xr -> w_msgs w !! a = Some xa -> a <> r ->
  m_frag_id xr <> 0 -> m_fdone xr = false -> m_nfrag_done xr < m_nfrag xr ->
  m_frag_owner xa = Some r -> noreply (m_regs xa) = false ->
  exists w' ya, req_forward_error (Some c) (Some a) w = Some (tt, w') /\
    w_msgs w' !! a = Some ya /\ m_done ya = true /\ m_error ya = true /\
    w_msgs w' !! r = Some xr /\ req_done (Some c) (Some r) w' = Some (false, w').
Proof.
  intros Hc Hq Hr Ha Hne Hi Hf Hn Ho Hnr.
  set (ya := m_set_err (w_errno w) (m_set_error true (m_set_done true xa))).
  set (w' := w_set_msgs (<[a := ya]> (w_msgs w)) w).
  assert (Hr' : w_msgs w' !! r = Some xr) by (simpl; by rewrite lookup_insert_ne).
  assert (Hd : req_done (Some c) (Some r) w' = Some (false, w')).
  { apply runs_eq. unfold req_done. run_w. destruct (m_done xr); run_w; [|done]. simpl.
    run_w. rewrite (proj2 (Z.eqb_neq _ _) Hi). run_w. rewrite Hf. run_w. simpl. by destruct (Z.ltb_spec (m_nfrag_done xr) (m_nfrag xr)); [|lia]. }
  exists w', ya. split_and!; try done; [|apply lookup_insert_eq].
  apply runs_eq. unfold req_forward_error, errno. run_w. eapply run_msg_st; [by apply lookup_insert_eq|]. simpl. rewrite insert_insert_eq. run_w.
  eapply run_msg_st; [by apply lookup_insert_eq|]. simpl. rewrite insert_insert_eq. run_w. eapply run_msg_ld; [by apply lookup_insert_eq|].
  simpl. rewrite Hnr. unfold head_done. run_w. rewrite Hq. simpl. change (w_set_msgs _ _) with w'.
  unfold runs. rewrite Hd. by run_w.
Qed.

(** MGET of two keys on two servers, split, with the first fragment about to
    be forwarded. *)
Definition w_split : world :=
  let _ := calm [] 0 in
  after (c ← new_client; m ← receive c sample_mget; x ← redis_fragment m 2; req_make_reply c m) (sample_world []).
Definition sample_fragment : positive := 5.

Lemma failed_fragment_not_counted_witness :
  exists w', req_done (env := calm [] 0) (Some sample_conn) (Some sample_msg) w' = Some (false, w') /\
    m_done <$> w_msgs w' !! sample_fragment = Some true.
Proof.
  destruct (w_msgs w_split !! sample_msg) as [xr|] eqn:Hm; [|by vm_compute in Hm].
  destruct (w_msgs w_split !! sample_fragment) as [xa|] eqn:Ha; [|by vm_compute in Ha].
  destruct (w_conns w_split !! sample_conn) as [xc|] eqn:Hc; [|by vm_compute in Hc].
  destruct (failed_fragment_not_counted (env := calm [] 0) sample_conn sample_fragment sample_msg [] w_split xc xr xa Hc) as (w' & ya & _ & Hy & Hd & _ & _ & Hr);
    [..|exists w'; split; [exact Hr|]; rewrite Hy; exact (f_equal Some Hd)].
  all: try exact Hm; try exact Ha.
  all: vm_compute in Hm, Ha, Hc; injection Hm as <-; injection Ha as <-; injection Hc as <-; by vm_compute.
Defined.

(** Moving the marker of the first mbuf does not move a key. *)
Lemma key_bytes_pos b h p k : key_bytes (mbuf_update (b :: h) (set_pos b p)) k = key_bytes (b :: h) k.
Proof.
  unfold key_bytes. simpl. rewrite Pos.eqb_refl. simpl. destruct (Pos.eqb_spec (mb_id b) (ptr_buf (kp_start k))) as [|Hne]; [done|].
  enough (find (fun b => Pos.eqb (mb_id b) (ptr_buf (kp_start k))) (mbuf_update h (set_pos b p)) =
    find (fun b => Pos.eqb (mb_id b) (ptr_buf (kp_start k))) h) as -> by done.
  induction h as [|x h IH]; [done|]. simpl. destruct (Pos.eqb_spec (mb_id x) (mb_id b)) as [E|]; simpl.
  - rewrite E. by destruct (Pos.eqb_spec (mb_id b) (ptr_buf (kp_start k))).
  - by destruct (Pos.eqb (mb_id x) _).
Qed.

Lemma msg_key_inv i r x w k :
  w_msgs w !! r = Some x -> msg_key i (Some r) w = Some (k, w) ->
  exists kp, array_load (keys (m_regs x)) (array_get (keys (m_regs x)) i) = Some kp /\ key_bytes (m_mhdr x) kp = Some k.
Proof.
  intros Hx. unfold msg_key, msg_ld, reads, mbind, ST_bind. rewrite Hx. simpl. rewrite Hx. simpl.
  destruct (array_load _ _) as [kp|]; [|done]. destruct (key_bytes _ _) as [k'|] eqn:E; [|done]. intros [= <-]. by exists kp.
Qed.

(** The message of a load or store is the one stored last. *)
Ltac at_own :=
  let y := fresh "y" in let Hy := fresh "Hy" in
  intros ? y [= <-] Hy; simpl in Hy; rewrite lookup_insert_eq in Hy; injection Hy as <-; simpl.

(** An allocation in an environment where they succeed. *)
Lemma gives_alloc `{env : Env} z w :
  (forall n z, ev_ok n z = true) ->
  gives (nc_alloc z) w (fun ok w' => ok = true /\ w_tick w' = S (w_tick w) /\ w_msgs w' = w_msgs w /\ w_conns w' = w_conns w /\ w_pools w' = w_pools w).
Proof. intros H. unfold nc_alloc. give_w. rewrite H. by give_w. Qed.

(** C37. The table of fragments has an entry for every point of the
    continuum, but is indexed with servers.  After the failure that ejects a
    server from a pool with random distribution, or with modula and unit
    weights, the continuum has fewer points than the pool has servers: a
    request of several keys whose first key goes to the last server of the
    pool makes redis_fragment access the table (a read, then a write) behind
    its end. *)
Theorem fragment_table_overrun `{env : Env} stack qsort ok now now' pool i s r c p x xc pl k w :
  qsort_ok qsort -> pool_inv pool -> limit_reached ok now now' pool i s ->
  sp_dist_type pool <> DIST_KETAMA ->
  (sp_dist_type pool = DIST_MODULA -> Forall (fun s => sv_weight s = 1) (sp_servers pool)) ->
  server_failure stack qsort ok now now' pool i = Some (pl_core pl) ->
  (forall n z, ev_ok n z = true) ->
  w_msgs w !! r = Some x -> type (m_regs x) = MSG_REQ_REDIS_MGET \/ type (m_regs x) = MSG_REQ_REDIS_DEL -> 2 <= array_n (keys (m_regs x)) ->
  m_owner x = Some c -> w_conns w !! c = Some xc -> c_owner xc = OwnPool p -> w_pools w !! p = Some pl ->
  msg_key 0 (Some r) w = Some (k, w) ->
  server_pool_idx (pl_key_hash pl) (ev_random (S (S (w_tick w)))) (pl_core pl) k = Some (zlen (sp_servers pool) - 1) ->
  redis_fragment (Some r) (sp_ncontinuum (pl_core pl)) w = None.
Proof.
  intros Hq Hinv Hlr Hd Hw Hfail Hal Hx Ht Hn Ho Hc Hcp Hpl Hk Hidx.
  pose proof (limit_short_ring _ _ _ _ _ _ _ _ _ Hq Hinv Hlr Hd Hw Hfail) as Hlt.
  destruct (redis_fragment _ _ w) as [[y w']|] eqn:E; [exfalso|done]. revert y w' E.
  change (gives (redis_fragment (Some r) (sp_ncontinuum (pl_core pl))) w (fun _ _ => False)).
  unfold redis_fragment, nkeys. give_w. apply gives_msg_ld. intros ? ? [= <-] H1. simplify_eq. give_w.
  destruct (Z.eqb_spec (array_n (keys (m_regs x))) 1); [lia|]. unfold msg_type_of. give_w. apply gives_msg_ld. intros ? ? [= <-] H2. simplify_eq. give_w.
  assert (msg_type_eqb (type (m_regs x)) MSG_REQ_REDIS_MGET || msg_type_eqb (type (m_regs x)) MSG_REQ_REDIS_DEL = true) as ->.
  { by destruct Ht as [-> | ->]. }
  unfold redis_fragment_argx, fragment_alloc. give_w. eapply gives_mono; [by apply gives_alloc|]. intros ok1 w1 (-> & T1 & M1 & C1 & P1). simpl. give_w.
  unfold nkeys. give_w. apply gives_msg_ld. intros ? ? [= <-] H3. rewrite M1 in H3. simplify_eq. give_w.
  eapply gives_mono; [by apply gives_alloc|]. intros ok2 w2 (-> & T2 & M2 & C2 & P2). simpl. give_w.
  apply gives_msg_st. intros ? ? [= <-] H4. rewrite M2, M1 in H4. simplify_eq. give_w. unfold first_mbuf. give_w.
  apply gives_msg_ld. at_own. give_w. apply gives_reads. simpl. intros b Hb.
  destruct (m_mhdr x) as [|b' h] eqn:Eh; [done|]. injection Hb as ->. apply gives_bind, gives_reads. intros pos _.
  unfold msg_store_mbuf. give_w. apply gives_msg_st. at_own. rewrite insert_insert_eq. give_w.
  unfold start_vector, msg_gen_frag_id. give_w. simpl.
  apply gives_msg_st. at_own. rewrite insert_insert_eq. give_w.
  apply gives_msg_st. at_own. rewrite insert_insert_eq. give_w.
  apply gives_msg_st. at_own. rewrite insert_insert_eq. give_w.
  apply gives_msg_ld. at_own. give_w. simpl.
  destruct (Z.to_nat (array_n (keys (m_regs x)))) as [|nk] eqn:En; [lia|]. simpl. unfold fragment_key.
  apply (msg_key_inv _ _ x) in Hk as (kp & Ek & Hkb); [|done]. rewrite Eh in Hkb.
  give_w. unfold msg_key. give_w. apply gives_msg_ld. at_own. give_w. apply gives_msg_ld. at_own. rewrite Ek. apply gives_reads. intros key Hkey.
  rewrite Eh in Hkey. rewrite key_bytes_pos, Hkb in Hkey. injection Hkey as <-. give_w.
  unfold msg_backend_idx. give_w. apply gives_msg_ld. at_own. rewrite Ho. give_w. apply gives_conn_ld. simpl. rewrite C2, C1.
  intros ? ? [= <-] H5. simplify_eq. rewrite Hcp. give_w. apply gives_pool_ld. simpl. rewrite P2, P1. intros ? H6. simplify_eq. give_w.
  apply gives_reads. intros idx Hi. simpl in Hi. rewrite T2, T1 in Hi. rewrite Hidx in Hi. injection Hi as <-. give_w. unfold sub_msg_for. give_w.
  apply gives_reads. intros e He. exfalso. apply rd_Some_range in He. unfold zlen in He. rewrite length_replicate in He.
  unfold zlen in Hlt. lia.
Qed.

(** modula over three servers; the first one is ejected, which leaves two
    points, for the servers 1 and 2. *)
Definition eject_start : server_pool :=
  mk_spool [sample_server (bytes_of "x:1"); sample_server (bytes_of "y:2"); sample_server (bytes_of "z:3")] 3 3
    (map Some [mk_cpoint 0 0; mk_cpoint 1 0; mk_cpoint 2 0]) 3 0 DIST_MODULA [] true 1000 1.

Lemma eject_start_inv : pool_inv eject_start.
Proof.
  split; [by apply pool_okb_ok; vm_compute|]. exists [mk_cpoint 0 0; mk_cpoint 1 0; mk_cpoint 2 0].
  constructor; try done; [by exists []|]. repeat constructor; by eexists.
Qed.

Definition ejected_core : server_pool :=
  default eject_start (server_failure [] ring_sort (fun _ => true) 5 6 eject_start 0).

Definition w_ejected : world :=
  let _ := calm [] 0 in
  after (c ← new_client; receive c sample_mget) (w_set_pools [pl_set_core ejected_core (sample_pool [])] (sample_world [])).

Lemma fragment_table_overrun_witness : redis_fragment (env := calm [] 0) (Some sample_msg) 2 w_ejected = None.
Proof.
  destruct (w_msgs w_ejected !! sample_msg) as [x|] eqn:Hm; [|by vm_compute in Hm].
  destruct (w_conns w_ejected !! sample_conn) as [xc|] eqn:Hc; [|by vm_compute in Hc].
  destruct (w_pools w_ejected !! 0%nat) as [pl|] eqn:Hp; [|by vm_compute in Hp].
  assert (sp_ncontinuum (pl_core pl) = 2) as Hn by (vm_compute in Hp; by injection Hp as <-). rewrite <- Hn.
  refine (fragment_table_overrun (env := calm [] 0) [] ring_sort (fun _ => true) 5 6 eject_start 0 (sample_server (bytes_of "x:1"))
    sample_msg sample_conn 0 x xc pl [97] w_ejected ring_sort_ok eject_start_inv _ _ _ _ (fun _ _ => eq_refl) Hm _ _ _ Hc _ Hp _ _).
  - constructor; [reflexivity|reflexivity|simpl; lia|reflexivity|simpl; lia|].
    exists 1%nat, (sample_server (bytes_of "y:2")). split; [reflexivity|]. split; [lia|reflexivity].
  - discriminate.
  - intros _. repeat constructor.
  - vm_compute in Hp. injection Hp as <-. vm_compute. reflexivity.
  - vm_compute in Hm. injection Hm as <-. by left.
  - vm_compute in Hm. by injection Hm as <-.
  - vm_compute in Hm. by injection Hm as <-.
  - vm_compute in Hc. by injection Hc as <-.
  - vm_compute. reflexivity.
  - vm_compute in Hp. by injection Hp as <-.
Defined.
