(* ===== verification/SendFacts.v ===== *)
(** Sending: what msg_send_chain writes, and what is left to write after
    it. *)

From stdpp Require Import gmap.
From S2P Require Import Prelude CArray Mbuf Message Parser Pool State Rbtree World MsgStore RedisMsg McMsg ReqCore ConnServer Request Response MsgIO Frame StoreFacts Sample.

(** ** Walking over the mbufs of a message *)

Lemma mbuf_empty_data b : mbuf_wf b -> mbuf_empty b = true <-> mdata b = [].
Proof.
  intros Hb. pose proof (mbuf_length_data b Hb) as Hl. destruct Hb as [? ? ? ? ?]. unfold mbuf_empty. rewrite Z.eqb_eq.
  unfold mbuf_length in Hl. rewrite u32_small in Hl by (unfold is_u32; lia). split.
  - intros E. destruct (mdata b); [done|]. rewrite zlen_cons in Hl. pose proof (zlen_nonneg l). lia.
  - intros E. rewrite E in Hl. unfold zlen in Hl. simpl in Hl. lia.
Qed.

Lemma mhdr_data_cons b h : mhdr_data (b :: h) = mdata b ++ mhdr_data h.
Proof. done. Qed.

Lemma mdata_set_pos b n : mbuf_wf b -> 0 <= n <= mbuf_length b -> mdata (set_pos b (mb_pos b + n)) = drop (Z.to_nat n) (mdata b) /\ mbuf_wf (set_pos b (mb_pos b + n)).
Proof.
  intros [? ? ? Hm ?] Hn. unfold mbuf_length in Hn. rewrite u32_small in Hn by (unfold is_u32; lia). split.
  - unfold mdata. simpl. unfold slice. rewrite skipn_firstn_comm, skipn_skipn. f_equal; [lia|]. f_equal. lia.
  - constructor; simpl; try lia; done.
Qed.

(** Sending [n] bytes of a message: all of it, or a part. *)
Lemma consume_spec h n :
  Forall mbuf_wf h -> 0 <= n ->
  exists h', Forall mbuf_wf h' /\ ids h' = ids h /\
    (zlen (mhdr_data h) <= n /\ consume h n = (h', n - zlen (mhdr_data h), true) /\ mhdr_data h' = [] \/
     n < zlen (mhdr_data h) /\ consume h n = (h', 0, false) /\ mhdr_data h' = drop (Z.to_nat n) (mhdr_data h)).
Proof.
  intros Hh. revert n. induction Hh as [|b h Hb Hh IH]; intros n Hn.
  - exists []. split_and!; try done. left. split_and!; [done| |done]. simpl. by rewrite Z.sub_0_r.
  - rewrite mhdr_data_cons, zlen_app. simpl. destruct (mbuf_empty b) eqn:Eb.
    + apply (mbuf_empty_data b Hb) in Eb. rewrite Eb. destruct (IH n Hn) as (h' & Hw & Hi & [(H1 & -> & H2)|(H1 & -> & H2)]); exists (b :: h').
      all: split_and!; [by constructor|by unfold ids in *; simpl; rewrite Hi|].
      * left. rewrite mhdr_data_cons, Eb, H2. done.
      * right. rewrite mhdr_data_cons, Eb, H2. done.
    + pose proof (mbuf_length_data b Hb) as Hl. pose proof (zlen_nonneg (mhdr_data h)). destruct (Z.ltb_spec n (mbuf_length b)).
      * destruct (mdata_set_pos b n Hb) as [Hd Hw]; [lia|]. exists (set_pos b (mb_pos b + n) :: h). split_and!; [by constructor|done|]. right.
        split_and!; [lia|done|]. rewrite mhdr_data_cons, Hd. symmetry. apply drop_app_le. unfold zlen in *. lia.
      * destruct (mdata_set_pos b (mbuf_length b) Hb) as [Hd Hw]; [pose proof (zlen_nonneg (mdata b)); lia|].
        assert (mb_pos b + mbuf_length b = mb_last b) as E by (destruct Hb; unfold mbuf_length; rewrite u32_small by (unfold is_u32; lia); lia).
        rewrite E in Hd, Hw. rewrite drop_ge in Hd by (unfold zlen in *; lia).
        destruct (IH (n - mbuf_length b)) as (h' & Hw' & Hi & [(H1 & -> & H2)|(H1 & -> & H2)]); [lia|..]; exists (set_pos b (mb_last b) :: h').
        all: split_and!; [by constructor|by unfold ids in *; simpl; rewrite Hi|]; rewrite mhdr_data_cons, Hd, H2.
        -- left. split_and!; [lia| |done]. do 2 f_equal. lia.
        -- right. split_and!; [lia|done|]. rewrite drop_app_ge by (unfold zlen in *; lia). simpl. f_equal. unfold zlen in *. lia.
Qed.

(** ** Gathering *)

Lemma iovs_bytes_app `{env : Env} l1 l2 w x y :
  iovs_bytes l1 w = Some (x, w) -> iovs_bytes l2 w = Some (y, w) -> iovs_bytes (l1 ++ l2) w = Some (x ++ y, w).
Proof.
  revert x. induction l1 as [|v l1 IH]; intros x; simpl; [by intros [= <-]|].
  intros (u & w1 & Hu & (u' & w2 & Hu' & [= <- ->])%bind_Some)%bind_Some Hy.
  assert (w1 = w) as -> by (apply (keeps (f := id) (m := iov_bytes v) _ _ _ Hu)).
  unfold mbind at 1, ST_bind. rewrite Hu. unfold mbind, ST_bind. by rewrite (IH u' Hu' Hy), <- app_assoc.
Qed.

(** The iovecs [vs] point to [bs], in any world with the messages of [w]. *)
Definition points_to `{env : Env} (w : world) (vs : list iovec) (bs : list Z) : Prop :=
  forall w', w_msgs w' = w_msgs w -> iovs_bytes vs w' = Some (bs, w').

Lemma points_to_app `{env : Env} w l1 l2 x y : points_to w l1 x -> points_to w l2 y -> points_to w (l1 ++ l2) (x ++ y).
Proof. intros H1 H2 w' E. by apply iovs_bytes_app; [apply H1|apply H2]. Qed.

Lemma points_to_one `{env : Env} w a x b :
  w_msgs w !! a = Some x -> NoDup (ids (m_mhdr x)) -> b ∈ m_mhdr x -> mbuf_wf b ->
  points_to w [mk_iovec a (mk_ptr (mb_id b) (mb_pos b)) (mbuf_length b)] (mdata b).
Proof.
  intros Hx Hn Hb Hw w' E. simpl. unfold iov_bytes, mbind, ST_bind, msg_ld, reads. simpl. rewrite E, Hx. simpl. rewrite find_id by done.
  simpl. rewrite app_nil_r. enough (mb_pos b + mbuf_length b = mb_last b) as -> by done.
  destruct Hw. unfold mbuf_length. rewrite u32_small by (unfold is_u32; lia). lia.
Qed.

Lemma build_iov_spec `{env : Env} w a x h sv n :
  w_msgs w !! a = Some x -> NoDup (ids (m_mhdr x)) -> (forall b, b ∈ h -> b ∈ m_mhdr x) -> Forall mbuf_wf h ->
  n + zlen (mhdr_data h) < SSIZE_MAX ->
  exists vs h1 h2, h = h1 ++ h2 /\ build_iov a h sv n = (sv ++ vs, n + zlen (mhdr_data h1)) /\
    points_to w vs (mhdr_data h1) /\ (h2 = [] \/ NC_IOV_MAX <= zlen (sv ++ vs)).
Proof.
  intros Hx Hn Hin Hw. revert sv n. induction Hw as [|b h Hb Hw IH]; intros sv n Hlt.
  - exists [], [], []. split_and!; try done; [|by left]. simpl. by rewrite app_nil_r, Z.add_0_r.
  - rewrite mhdr_data_cons, zlen_app in Hlt. pose proof (zlen_nonneg (mdata b)). pose proof (zlen_nonneg (mhdr_data h)).
    assert (Hin' : forall b, b ∈ h -> b ∈ m_mhdr x) by (intros; apply Hin; by constructor). specialize (IH Hin').
    simpl. destruct (Z.ltb_spec (zlen sv) NC_IOV_MAX); simpl.
    2: { exists [], [], (b :: h). rewrite app_nil_r. split_and!; try done; [|by right]. simpl. by rewrite Z.add_0_r. }
    destruct (Z.ltb_spec n SSIZE_MAX); [|lia]. destruct (mbuf_empty b) eqn:Eb.
    + apply (mbuf_empty_data b Hb) in Eb. rewrite Eb in Hlt. destruct (IH sv n) as (vs & h1 & h2 & -> & -> & Hp & Hf); [done|].
      exists vs, (b :: h1), h2. rewrite mhdr_data_cons, Eb. done.
    + pose proof (mbuf_length_data b Hb) as Hl. destruct (Z.ltb_spec SSIZE_MAX (n + mbuf_length b)); [lia|].
      destruct (IH (sv ++ [mk_iovec a (mk_ptr (mb_id b) (mb_pos b)) (mbuf_length b)]) (n + mbuf_length b)) as (vs & h1 & h2 & -> & -> & Hp & Hf); [lia|].
      exists (mk_iovec a (mk_ptr (mb_id b) (mb_pos b)) (mbuf_length b) :: vs), (b :: h1), h2. rewrite <- app_assoc in Hf |- *. simpl in *.
      split_and!; try done.
      * rewrite mhdr_data_cons, zlen_app. f_equal. lia.
      * rewrite mhdr_data_cons. apply (points_to_app w [_]); [|done]. eapply points_to_one; try done. apply Hin. constructor.
Qed.

(** ** The queue of a server connection *)

Lemma tailq_after_app l1 s l2 : NoDup (l1 ++ s :: l2) -> tailq_after s (l1 ++ s :: l2) = l2.
Proof.
  intros Hn. induction l1 as [|y l1 IH]; simpl in *; [by rewrite bool_decide_eq_true_2|]. apply list.NoDup_cons in Hn as [Hy Hn].
  rewrite bool_decide_eq_false_2; [by apply IH|]. intros ->. apply Hy, elem_of_app. right. constructor.
Qed.

(** The unsent bytes of the requests [q], in order. *)
Definition msg_data (w : world) (a : positive) : list Z := match w_msgs w !! a with Some x => mhdr_data (m_mhdr x) | None => [] end.
Definition stream (w : world) (q : list positive) : list Z := concat (map (msg_data w) q).

Lemma stream_app w q1 q2 : stream w (q1 ++ q2) = stream w q1 ++ stream w q2.
Proof. unfold stream. by rewrite map_app, concat_app. Qed.

Lemma stream_cons w a q : stream w (a :: q) = msg_data w a ++ stream w q.
Proof. done. Qed.

Lemma msg_data_Some w a x : w_msgs w !! a = Some x -> msg_data w a = mhdr_data (m_mhdr x).
Proof. unfold msg_data. by intros ->. Qed.

Lemma stream_ext w w' q : (forall a, a ∈ q -> w_msgs w' !! a = w_msgs w !! a) -> stream w' q = stream w q.
Proof.
  intros H. unfold stream. f_equal. apply map_ext_in. intros a Ha. unfold msg_data. by rewrite H by (by apply list_elem_of_In).
Qed.

Lemma stream_other w a x q : a ∉ q -> stream (w_set_msgs (<[a := x]> (w_msgs w)) w) q = stream w q.
Proof. intros Ha. apply stream_ext. intros b Hb. simpl. rewrite lookup_insert_ne; [done|]. by intros ->. Qed.

(** A request that can be sent: its mbufs are well-formed and its own, and it
    expects a response. *)
Record sendable (x : msg) : Prop := {
  sd_wf : Forall mbuf_wf (m_mhdr x);
  sd_nodup : NoDup (ids (m_mhdr x));
  sd_mlen : m_mlen x <> 0;
  sd_reply : noreply (m_regs x) = false
}.
Definition all_sendable (w : world) (q : list positive) : Prop := forall a, a ∈ q -> exists x, w_msgs w !! a = Some x /\ sendable x.

Section Send.
Context `{env : Env}.
Variable post : pointer -> W unit.
Variable c : positive.

(** What sending reads of a connection; two worlds that differ in the rest of
    [c] only. *)
Definition sendq (x : conn) := (c_imsg_q x, c_omsg_q x, c_client x, c_proxy x, c_connecting x).
Definition outside (w : world) := (w_sent w, delete c (w_conns w), w_pools w).
Definition near (w w' : world) : Prop :=
  w_msgs w' = w_msgs w /\ outside w' = outside w /\ sendq <$> w_conns w' !! c = sendq <$> w_conns w !! c.

#[local] Instance near_preorder : PreOrder near.
Proof.
  split; [done|]. intros w1 w2 w3 (? & ? & ?) (? & ? & ?). repeat split; congruence.
Qed.

Lemma near_conn w x f :
  w_conns w !! c = Some x -> sendq (f x) = sendq x -> near w (w_set_conns (<[c := f x]> (w_conns w)) w).
Proof.
  intros Hx Hf. split_and!; [done|unfold outside; simpl; by rewrite delete_insert_eq|]. simpl. rewrite lookup_insert_eq, Hx. simpl. by rewrite Hf.
Qed.

Lemma run_send_next l1 s l2 w x :
  w_conns w !! c = Some x -> c_connecting x = false -> c_imsg_q x = l1 ++ s :: l2 -> NoDup (c_imsg_q x) -> c_smsg x = Some s ->
  runs (req_send_next post (Some c)) w (fun o w' => o = head l2 /\ near w w' /\ c_smsg <$> w_conns w' !! c = Some (head l2)).
Proof.
  intros Hx Hg Hq Hn Hs. unfold req_send_next. run_w. rewrite Hg. run_w. rewrite Hq in *.
  destruct (l1 ++ s :: l2) as [|y l] eqn:E; [by destruct l1|]. rewrite <- E in *. run_w. rewrite Hs. unfold tailq_next. rewrite tailq_after_app by done.
  run_w. cbv beta. split_and!; [done|by apply (near_conn w x (c_set_smsg (head l2)))|]. simpl. by rewrite lookup_insert_eq.
Qed.

(** Gathering visits requests from the head of the queue on, and takes the
    bytes of all but perhaps the last one whole. *)
Lemma run_collect w0 x0 a0 q0 :
  let q := a0 :: q0 in
  w_conns w0 !! c = Some x0 -> c_connecting x0 = false -> c_imsg_q x0 = q -> NoDup q -> c_smsg x0 = Some a0 ->
  all_sendable w0 q -> zlen (stream w0 q) < SSIZE_MAX ->
  runs (collect (req_send_next post) (Some c) (Some a0)) w0 (fun r w' =>
    exists l2 P tail, q = r.1.1 ++ l2 /\ stream w0 r.1.1 = P ++ tail /\ points_to w0 r.1.2 P /\ r.2 = zlen P /\ near w0 w').
Proof.
  intros q Hx Hg Hq Hn Hs Hall Hlen. unfold collect. run_w. cbv beta.
  set (Inv := fun (k : nat) (t : pointer * list positive * list iovec * Z) (w : world) =>
    let '(m, msgq, sv, n) := t in exists a l2, m = Some a /\ q = msgq ++ a :: l2 /\ k = length (a :: l2) /\
      points_to w0 sv (stream w0 msgq) /\ n = zlen (stream w0 msgq) /\ near w0 w /\ c_smsg <$> w_conns w !! c = Some (Some a)).
  eapply (runs_iterate _ Inv) with (n := length q).
  2: { exists a0, q0. split_and!; try done. rewrite Hx. simpl. by rewrite Hs. }
  2: { rewrite Hq. lia. }
  intros k [[[m msgq] sv] n] w (a & l2 & -> & Hsplit & -> & Hp & -> & Hnear & Hsm).
  pose proof Hnear as (Hm & Ho & Hsq). destruct (w_conns w !! c) as [x|] eqn:Hxw; [|by rewrite Hx in Hsq].
  rewrite Hx in Hsq. simpl in Hsm, Hsq. injection Hsm as Hsm. unfold sendq in Hsq. injection Hsq as Eq Eo _ _ Eg.
  assert (Ha : a ∈ q) by (rewrite Hsplit; apply elem_of_app; right; constructor).
  destruct (Hall a Ha) as (y & Hy & [Hwf Hnd Hml Hnr]).
  assert (Hd : msg_data w0 a = mhdr_data (m_mhdr y)) by (unfold msg_data; by rewrite Hy).
  assert (Hst : stream w0 q = stream w0 msgq ++ mhdr_data (m_mhdr y) ++ stream w0 l2).
  { rewrite Hsplit, stream_app. unfold stream at 2. simpl. by rewrite Hd. }
  rewrite Hst, !zlen_app in Hlen. pose proof (zlen_nonneg (stream w0 l2)).
  destruct (build_iov_spec w0 a y (m_mhdr y) sv (zlen (stream w0 msgq))) as (vs & h1 & h2 & Eh & Eb & Hvs & Hfull); try done; [lia|].
  assert (Hsa : stream w0 (msgq ++ [a]) = (stream w0 msgq ++ mhdr_data h1) ++ mhdr_data h2).
  { rewrite stream_app. unfold stream at 2. simpl. by rewrite app_nil_r, Hd, Eh, mhdr_data_app, app_assoc. }
  assert (Hpt : points_to w0 (sv ++ vs) (stream w0 msgq ++ mhdr_data h1)) by (by apply points_to_app).
  run_w. unfold addr. eapply runs_reads; [done|]. run_w. eapply run_msg_ld; [by rewrite Hm|]. rewrite Eb. cbv beta iota.
  destruct (Z.leb_spec NC_IOV_MAX (zlen (sv ++ vs))) as [|Hsv]; simpl.
  { run_w. exists l2, (stream w0 msgq ++ mhdr_data h1), (mhdr_data h2). simpl. rewrite <- app_assoc, zlen_app. by split_and!. }
  destruct Hfull as [->|]; [|lia]. rewrite app_nil_r in Eh, Hsa. subst h1.
  destruct (Z.leb_spec SSIZE_MAX (zlen (stream w0 msgq) + zlen (mhdr_data (m_mhdr y)))); [lia|].
  run_w. eapply runs_mono; [apply (run_send_next msgq a l2 w x); [done|congruence|congruence|by rewrite Eq, Hq|done]|].
  intros o w1 (-> & Hn1 & Hs1). assert (Hn01 : near w0 w1) by (by etrans).
  destruct l2 as [|a2 l2]; simpl; run_w; cbv beta.
  - exists [], (stream w0 msgq ++ mhdr_data (m_mhdr y)), []. simpl. rewrite !app_nil_r, zlen_app. by split_and!.
  - exists (length (a2 :: l2)). split; [simpl; lia|]. exists a2, l2. rewrite <- app_assoc, Hsa, zlen_app. by split_and!.
Qed.

(** ** Writing *)

(** writev(2) is not interrupted for ever. *)
Hypothesis retries : forall t, exists i, (i < ev_retries)%nat /\ ev_writev (t + i) <> Werrno EINTR.

(** A store to [c] that sending does not see. *)
Lemma run_near_st f w0 w x0 (Q : unit -> world -> Prop) :
  w_conns w0 !! c = Some x0 -> near w0 w -> (forall x, sendq (f x) = sendq x) ->
  (forall w', near w0 w' -> Q tt w') -> runs (conn_st f (Some c)) w Q.
Proof.
  intros Hx Hnear Hf HQ. pose proof Hnear as (_ & _ & Hsq). destruct (w_conns w !! c) as [x|] eqn:Hxw; [|by rewrite Hx in Hsq].
  run_w. apply HQ. etrans; [exact Hnear|]. by apply near_conn.
Qed.

(** Some bytes of [data] are written, the first ones, or none. *)
Lemma run_sendv data w0 x0 :
  w_conns w0 !! c = Some x0 ->
  runs (conn_sendv (Some c) data) w0 (fun n w' => exists w1, near w0 w1 /\
    (0 < n <= zlen data /\ w' = w_set_sent ((c, take (Z.to_nat n) data) :: w_sent w0) w1 \/ n <= 0 /\ w' = w1)).
Proof.
  intros Hx. unfold conn_sendv. destruct (retries (w_tick w0)) as (i & Hi & He).
  eapply (runs_iterate _ (fun k _ w => near w0 w /\ ev_writev (w_tick w + k) <> Werrno EINTR)) with (n := i); [|done|done].
  intros k [] w [Hnear Hk]. run_w. destruct (ev_writev (w_tick w)) as [n|e] eqn:Ew.
  - destruct (Z.ltb_spec 0 (Z.max 0 (Z.min n (zlen data)))) as [Hpos|].
    + run_w. eapply runs_mono with (P := fun _ w' => near w0 w').
      { destruct (_ <? zlen data); run_w; [|done]. by eapply run_near_st; [exact Hx|exact Hnear|..]. }
      intros [] w1 H1. run_w. eapply run_near_st; [exact Hx|exact H1|done|]. intros w2 H2. run_w. unfold addr. eapply runs_reads; [done|]. run_w.
      cbv beta. exists w2. split; [done|]. left. split; [lia|]. by destruct H2 as (_ & [= -> _ _] & _).
    + run_w. eapply run_near_st; [exact Hx|exact Hnear|done|]. intros w1 H1. run_w. exists w1. split; [done|]. by right.
  - run_w. unfold set_errno. run_w. destruct (Z.eqb_spec e EINTR) as [->|].
    + run_w. destruct k as [|k]; [by rewrite Nat.add_0_r in Hk|]. exists k. split; [lia|]. split; [done|]. simpl. by rewrite <- Nat.add_succ_comm in Hk.
    + destruct (e =? EAGAIN); run_w; (eapply run_near_st; [exact Hx|exact Hnear|done|]); intros w1 H1; run_w.
      * exists w1. split; [done|]. by right.
      * eapply run_near_st; [exact Hx|exact H1|done|]. intros w2 H2. run_w. exists w2. split; [done|]. by right.
Qed.

(** ** After the write *)

Lemma run_send_done a q x y w :
  w_conns w !! c = Some x -> c_imsg_q x = a :: q -> a ∉ c_omsg_q x -> w_msgs w !! a = Some y -> noreply (m_regs y) = false ->
  runs (req_send_done (Some c) (Some a)) w (fun _ w' =>
    w_msgs w' = w_msgs w /\ outside w' = outside w /\ w_conns w' !! c = Some (c_set_omsg_q (c_omsg_q x ++ [a]) (c_set_imsg_q q x))).
Proof.
  intros Hx Hq Ho Hy Hr. unfold req_send_done, req_server_dequeue_imsgq, req_server_enqueue_omsgq, conn_queue. run_w. unfold addr.
  eapply runs_reads; [done|]. run_w. rewrite Hq. simpl. rewrite bool_decide_eq_true_2 by done. run_w. rewrite Hr. run_w.
  eapply run_conn_ld; [by simpl; apply lookup_insert_eq|]. simpl. unfold tailq_insert_tail.
  rewrite bool_decide_eq_false_2 by done. eapply run_conn_st; [by simpl; apply lookup_insert_eq|]. simpl. split_and!; [done| |].
  - unfold outside. simpl. by rewrite !delete_insert_eq.
  - by rewrite lookup_insert_eq.
Qed.

(** Nothing was taken of the requests [q]. *)
Lemma run_postprocess_none q w : all_sendable w q -> runs (postprocess req_send_done (Some c) q 0) w (fun _ w' => w' = w).
Proof.
  induction q as [|a q IH]; intros Hall; simpl; run_w; [done|]. destruct (Hall a) as (x & Hx & [_ _ Hl _]); [constructor|].
  unfold msg_empty. run_w. rewrite (proj2 (Z.eqb_neq _ _) Hl). run_w. apply IH. intros b Hb. apply Hall. by constructor.
Qed.

Lemma run_postprocess pre rest n w x :
  w_conns w !! c = Some x -> c_client x || c_proxy x = false -> c_imsg_q x = pre ++ rest -> NoDup (c_omsg_q x ++ pre) ->
  all_sendable w pre -> 0 <= n <= zlen (stream w pre) ->
  runs (postprocess req_send_done (Some c) pre n) w (fun _ w' => exists pre1 pre2 x', pre = pre1 ++ pre2 /\
    w_conns w' !! c = Some x' /\ c_imsg_q x' = pre2 ++ rest /\ c_omsg_q x' = c_omsg_q x ++ pre1 /\ outside w' = outside w /\
    stream w' pre1 = [] /\ stream w' pre2 = drop (Z.to_nat n) (stream w pre) /\
    (forall a, a ∉ pre -> w_msgs w' !! a = w_msgs w !! a)).
Proof.
  revert n w x. induction pre as [|a pre IH]; intros n w x Hx Hside Hq Hnd Hall Hn.
  { simpl. run_w. exists [], [], x. unfold stream. simpl. rewrite drop_nil, app_nil_r. by split_and!. }
  simpl. destruct (Z.eqb_spec n 0) as [->|Hn0].
  { assert (H0 := run_postprocess_none (a :: pre) w Hall). simpl in H0. eapply runs_mono; [exact H0|]. intros [] w' ->.
    exists [], (a :: pre), x. rewrite app_nil_r. by split_and!. }
  destruct (Hall a) as (y & Hy & [Hwf Hnm Hml Hnr]); [constructor|].
  assert (Hst : stream w (a :: pre) = mhdr_data (m_mhdr y) ++ stream w pre) by (by rewrite stream_cons, (msg_data_Some w a y)).
  apply list.NoDup_app in Hnd as (Hno & Hop & [Ha Hnp]%list.NoDup_cons).
  assert (Hall' : forall w' z, w_msgs w' = <[a := z]> (w_msgs w) -> all_sendable w' pre).
  { intros w' z0 E b Hb. destruct (Hall b) as (z & Hz & Hsz); [by constructor|]. exists z. split; [|done]. rewrite E, lookup_insert_ne; [done|]. by intros ->. }
  run_w. destruct (consume_spec (m_mhdr y) n Hwf) as (h' & Hwf' & Hid & [(Hle & -> & Hd)|(Hlt & -> & Hd)]); [lia|..]; cbv beta iota.
  2: { run_w. eapply runs_mono; [apply run_postprocess_none|].
    { by eapply Hall'. }
    intros [] w' ->. exists [], (a :: pre), x. rewrite app_nil_r. split_and!; try done.
    - rewrite stream_cons, (msg_data_Some _ a (m_set_mhdr h' y)) by apply lookup_insert_eq. simpl. rewrite Hd, Hst, drop_app_le by (unfold zlen in *; lia).
      f_equal. by apply stream_other.
    - intros b Hb. simpl. rewrite lookup_insert_ne; [done|]. intros ->. apply Hb. constructor. }
  run_w. rewrite Hside. run_w. eapply run_msg_st; [by apply lookup_insert_eq|]. simpl. rewrite insert_insert_eq.
  set (y' := m_upd_times _ _). set (w1 := w_set_msgs _ _). run_w.
  assert (Hd1 : msg_data w1 a = []) by (by rewrite (msg_data_Some w1 a y') by apply lookup_insert_eq).
  eapply runs_mono; [apply (run_send_done a (pre ++ rest) x y' w1); [done|done| |apply lookup_insert_eq|done]|].
  { intros Hin. destruct (Hop a Hin). constructor. }
  intros [] w2 (Hm2 & Ho2 & Hx2). assert (Es : stream w2 pre = stream w pre).
  { apply stream_ext. intros b Hb. rewrite Hm2. simpl. rewrite lookup_insert_ne; [done|]. by intros ->. }
  assert (Hz : n - zlen (mhdr_data (m_mhdr y)) <= zlen (stream w pre)) by (rewrite Hst, zlen_app in Hn; lia).
  eapply runs_mono; [apply (IH _ w2 _ Hx2); simpl; [done|done| |by apply (Hall' w2 y'); rewrite Hm2|rewrite Es; lia]|].
  - rewrite <- app_assoc. simpl. apply list.NoDup_app. split_and!; [done|done|by apply list.NoDup_cons].
  - intros [] w3 (p1 & p2 & x3 & -> & Hx3 & Hq3 & Ho3 & Hou & Hs1 & Hs2 & Hot).
    exists (a :: p1), p2, x3. simpl in Ho3. rewrite <- app_assoc in Ho3. split_and!; try done.
    + by rewrite Hou, Ho2.
    + rewrite stream_cons, Hs1, app_nil_r. unfold msg_data. rewrite Hot by done. rewrite Hm2. exact Hd1.
    + rewrite Hs2, Es, Hst, drop_app_ge by (unfold zlen in *; lia). f_equal. unfold zlen in *. lia.
    + intros b [Hb1 Hb2]%not_elem_of_cons. rewrite Hot by done. rewrite Hm2. simpl. by rewrite lookup_insert_ne.
Qed.

End Send.

(** The write and what follows it, on the requests gathered. *)
Lemma run_write_post `{env : Env} (status : Z -> Z) c w0 x0 pre rest P tail sv :
  (forall t, exists i, (i < ev_retries)%nat /\ ev_writev (t + i) <> Werrno EINTR) ->
  w_conns w0 !! c = Some x0 -> c_client x0 || c_proxy x0 = false -> c_imsg_q x0 = pre ++ rest -> NoDup (c_omsg_q x0 ++ pre ++ rest) ->
  all_sendable w0 pre -> stream w0 pre = P ++ tail -> points_to w0 sv P ->
  runs (n ← (if negb (zlen P =? 0) then data ← iovs_bytes sv; conn_sendv (Some c) data else mret 0);
        postprocess req_send_done (Some c) pre (if 0 <? n then n else 0);; mret (status n)) w0 (fun _ w' =>
    exists x' sent done_, outside c w' = ((if zlen sent =? 0 then w_sent w0 else (c, sent) :: w_sent w0), delete c (w_conns w0), w_pools w0) /\
      w_conns w' !! c = Some x' /\ pre ++ rest = done_ ++ c_imsg_q x' /\ c_omsg_q x' = c_omsg_q x0 ++ done_ /\
      stream w' done_ = [] /\ sent ++ stream w' (c_imsg_q x') = stream w0 (pre ++ rest)).
Proof.
  intros Hre Hx Hside Hq Hnd Hall HP Hpt. rewrite app_assoc in Hnd. pose proof Hnd as (Hnp & _)%list.NoDup_app.
  apply runs_bind. eapply runs_mono with (P := fun n w1 => exists w2, near c w0 w2 /\
    (0 < n <= zlen P /\ w1 = w_set_sent ((c, take (Z.to_nat n) P) :: w_sent w0) w2 \/ n <= 0 /\ w1 = w2)).
  { destruct (Z.eqb_spec (zlen P) 0) as [E|E]; simpl; [run_w; exists w0; split; [done|by right]|].
    run_w. unfold runs at 1. rewrite (Hpt w0 eq_refl). by eapply run_sendv. }
  intros n w1 (w2 & (Hm & Ho & Hsq) & Hcase). rewrite Hx in Hsq. destruct (w_conns w2 !! c) as [x2|] eqn:Hx2; [|done].
  simpl in Hsq. injection Hsq as Eq Eo Ec Ep _.
  set (k := if 0 <? n then n else 0). set (sent := take (Z.to_nat k) P).
  assert (Hk : 0 <= k <= zlen P) by (pose proof (zlen_nonneg P); unfold k; destruct (Z.ltb_spec 0 n); lia).
  assert (Hm1 : w_msgs w1 = w_msgs w0) by (by destruct Hcase as [[_ ->]|[_ ->]]).
  assert (Hx1 : w_conns w1 !! c = Some x2) by (by destruct Hcase as [[_ ->]|[_ ->]]).
  assert (Ho1 : outside c w1 = ((if zlen sent =? 0 then w_sent w0 else (c, sent) :: w_sent w0), delete c (w_conns w0), w_pools w0)).
  { injection Ho as Es Ed Epl. unfold sent, k in *. destruct Hcase as [[Hn ->]|[Hn ->]]; destruct (Z.ltb_spec 0 n); try lia.
    - unfold outside. simpl. rewrite Ed, Epl. destruct (Z.eqb_spec (zlen (take (Z.to_nat n) P)) 0) as [E|]; [|done].
      unfold zlen in *. rewrite length_take in E. lia.
    - unfold outside. by rewrite Es, Ed, Epl. }
  assert (Hs1 : forall q, stream w1 q = stream w0 q) by (intros q; apply stream_ext; by rewrite Hm1).
  apply runs_bind. eapply runs_mono; [apply (run_postprocess c pre rest k w1 x2); try congruence|].
  - intros b Hb. rewrite Hm1. by apply Hall.
  - rewrite Hs1, HP, zlen_app. pose proof (zlen_nonneg tail). lia.
  - intros [] w3 (p1 & p2 & x3 & -> & Hx3 & Hq3 & Hoq & Hou & Hd & Hd2 & Hot). run_w.
    exists x3, sent, p1. split_and!; try done; [congruence|by rewrite Hq3, app_assoc|congruence|].
    rewrite Hq3, stream_app, Hd2, Hs1, HP, !stream_app.
    assert (stream w3 rest = stream w0 rest) as ->.
    { rewrite <- Hs1. apply stream_ext. intros b Hb. apply Hot. intros Hb2.
      apply list.NoDup_app in Hnd as (_ & Hdis & _). apply (Hdis b); [by apply elem_of_app; right|done]. }
    rewrite <- stream_app, HP, !app_assoc. f_equal. unfold sent. rewrite drop_app_le by (unfold zlen in *; lia). by rewrite app_assoc, take_drop.
Qed.

(** C5. Sending on a server connection loses, repeats and reorders nothing,
    however much of it the socket takes: what msg_send_chain writes, followed
    by what is unsent in the queue after it, is what was unsent in the queue
    before it.  The requests sent whole, the first ones, are those that moved
    to the queue of requests waiting for a response, in their order. *)
Theorem msg_send_chain_stream `{env : Env} post c a q w x :
  (forall t, exists i, (i < ev_retries)%nat /\ ev_writev (t + i) <> Werrno EINTR) ->
  w_conns w !! c = Some x -> c_client x || c_proxy x = false -> c_connecting x = false ->
  c_imsg_q x = a :: q -> NoDup (c_omsg_q x ++ a :: q) -> c_smsg x = Some a ->
  all_sendable w (a :: q) -> zlen (stream w (a :: q)) < SSIZE_MAX ->
  exists status w' x' sent finished,
    msg_send_chain (req_send_next post) req_send_done (Some c) (Some a) w = Some (status, w') /\
    w_sent w' = (if zlen sent =? 0 then w_sent w else (c, sent) :: w_sent w) /\ delete c (w_conns w') = delete c (w_conns w) /\
    w_conns w' !! c = Some x' /\ a :: q = finished ++ c_imsg_q x' /\ c_omsg_q x' = c_omsg_q x ++ finished /\
    stream w' finished = [] /\ sent ++ stream w' (c_imsg_q x') = stream w (a :: q).
Proof.
  intros Hre Hx Hside Hg Hq Hnd Hs Hall Hlen. pose proof Hnd as (_ & _ & Hnq)%list.NoDup_app.
  enough (runs (msg_send_chain (req_send_next post) req_send_done (Some c) (Some a)) w (fun _ w' => exists x' sent finished,
    outside c w' = ((if zlen sent =? 0 then w_sent w else (c, sent) :: w_sent w), delete c (w_conns w), w_pools w) /\
    w_conns w' !! c = Some x' /\ a :: q = finished ++ c_imsg_q x' /\ c_omsg_q x' = c_omsg_q x ++ finished /\
    stream w' finished = [] /\ sent ++ stream w' (c_imsg_q x') = stream w (a :: q))) as H.
  { apply runs_elim in H as (st & w' & E & x' & sent & f & [= H1 H2 _] & H). by exists st, w', x', sent, f. }
  unfold msg_send_chain. run_w. eapply runs_mono; [by apply (run_collect post c w x a q)|].
  intros [[pre sv] n] w1 (rest & P & tail & Epre & HP & Hpt & En & Hnear). simpl in *. subst n. run_w.
  eapply (run_near_st c _ w); [done|exact Hnear|done|]. intros w2 (Hm & Ho & Hsq). rewrite Hx in Hsq.
  destruct (w_conns w2 !! c) as [x2|] eqn:Hx2; [|done]. simpl in Hsq. injection Hsq as Eq Eo Ec Ep _.
  assert (Hs2 : forall q, stream w2 q = stream w q) by (intros; apply stream_ext; by rewrite Hm).
  eapply runs_mono; [apply (run_write_post _ c w2 x2 pre rest P tail sv); try done; try congruence|].
  - intros b Hb. rewrite Hm. apply Hall. rewrite Epre. apply elem_of_app. by left.
  - intros w' E. apply Hpt. congruence.
  - intros st w3 (x3 & sent & f & H1 & H2 & H3 & H4 & H5 & H6). injection Ho as E1 E2 E3. rewrite E1, E2, E3 in H1.
    exists x3, sent, f. rewrite Hs2, <- Epre in H6. rewrite <- Epre in H3. split_and!; try done. by rewrite H4, Eo.
Qed.

(** Two requests wait for a server whose socket takes 25 bytes, the first
    request and a part of the second one. *)
Definition w_two : world :=
  let _ := calm [] 25 in
  after (c ← new_client; m ← receive c sample_get; req_recv_done c m None;; m ← receive c sample_get; req_recv_done c m None;;
         req_send_next (fun _ => mret tt) (Some sample_server_conn)) (sample_world []).

Lemma sendable_in w a :
  match w_msgs w !! a with
  | Some x => forallb mbuf_wfb (m_mhdr x) && bool_decide (NoDup (ids (m_mhdr x))) && negb (m_mlen x =? 0) && negb (noreply (m_regs x))
  | None => false
  end = true -> exists x, w_msgs w !! a = Some x /\ sendable x.
Proof.
  destruct (w_msgs w !! a) as [x|]; [|done]. intros [[[H1 H2]%andb_true_iff H3]%andb_true_iff H4]%andb_true_iff. exists x. split; [done|].
  apply bool_decide_eq_true in H2. constructor; [|done|by destruct (Z.eqb_spec (m_mlen x) 0)|by destruct (noreply _)].
  rewrite forallb_forall in H1. apply list.Forall_forall. intros b Hb. rewrite list_elem_of_In in Hb. by apply mbuf_wfb_wf, H1.
Qed.

Lemma msg_send_chain_stream_witness :
  let _ := calm [] 25 in
  exists q status w' x' sent finished,
    msg_send_chain (req_send_next (fun _ => mret tt)) req_send_done (Some sample_server_conn) (Some sample_msg) w_two = Some (status, w') /\
    sample_msg :: q = finished ++ c_imsg_q x' /\ sent ++ stream w' (c_imsg_q x') = stream w_two (sample_msg :: q).
Proof.
  intros env. destruct (w_conns w_two !! sample_server_conn) as [x|] eqn:Hc; [|by vm_compute in Hc]. exists [6%positive].
  destruct (msg_send_chain_stream (env := calm [] 25) (fun _ => mret tt) sample_server_conn sample_msg [6%positive] w_two x)
    as (st & w' & x' & sent & f & H1 & _ & _ & _ & H2 & _ & _ & H3).
  - intros t. exists 0%nat. split; [simpl; lia|done].
  - exact Hc.
  - vm_compute in Hc. by injection Hc as <-.
  - vm_compute in Hc. by injection Hc as <-.
  - vm_compute in Hc. by injection Hc as <-.
  - vm_compute in Hc. injection Hc as <-. apply (bool_decide_eq_true_1 _). by vm_compute.
  - vm_compute in Hc. by injection Hc as <-.
  - intros b Hb. apply sendable_in. apply elem_of_cons in Hb as [->|Hb]; [by vm_compute|].
    apply list_elem_of_singleton in Hb as ->. by vm_compute.
  - by vm_compute.
  - exists st, w', x', sent, f. split; [exact H1|]. split; [exact H2|exact H3].
Defined.
