(* ===== verification/FragFacts.v ===== *)
(** Splitting MGET and DEL: the fragments redis_fragment makes. *)

From stdpp Require Import gmap.
From S2P Require Import Prelude CArray Mbuf Message Parser Pool State Rbtree World MsgStore RedisReqResume RedisReqRoundtrip RedisMsg Frame StoreFacts.

(** ** The keys of a message *)

(** The key [kp] is [k], in the data of one of the mbufs [h]. *)
Definition key_at (h : list mbuf) (kp : keypos) (k : list Z) : Prop :=
  exists b, b ∈ h /\ mb_id b = ptr_buf (kp_start kp) /\ 0 <= ptr_off (kp_start kp) <= ptr_off (kp_end kp) /\
    ptr_off (kp_end kp) <= mb_last b /\ slice (mb_mem b) (ptr_off (kp_start kp)) (ptr_off (kp_end kp)) = k.

Definition msg_keys (x : msg) (ks : list (list Z)) : Prop :=
  exists kps, array_rel (keys (m_regs x)) kps /\ Forall2 (key_at (m_mhdr x)) kps ks.

Lemma key_at_grows h h' kp k : grows h h' -> key_at h kp k -> key_at h' kp k.
Proof.
  intros Hg (b & Hb & Hi & Ho & Hl & Hs). destruct (Hg b Hb) as (b' & Hb' & Hi' & Hl' & Hs'). exists b'.
  split; [done|]. split; [congruence|]. split; [done|]. split; [lia|]. by rewrite Hs' by lia.
Qed.

Lemma key_at_bytes w h kp k : mhdr_ok w h -> key_at h kp k -> World.key_bytes h kp = Some k.
Proof.
  intros [Hwf _ Hnd _ _] (b & Hb & Hi & Ho & Hl & Hs). unfold World.key_bytes. rewrite <- Hi, find_id by done.
  rewrite list.Forall_forall in Hwf. destruct (Hwf b Hb) as [? ? ? Hm ?]. unfold MBUF_HSIZE in *.
  destruct (Z.leb_spec 0 (ptr_off (kp_start kp))); [|lia]. destruct (Z.leb_spec (ptr_off (kp_end kp)) (zlen (mb_mem b))); [|lia]. by rewrite Hs.
Qed.

Lemma msg_keys_n x ks : msg_keys x ks -> array_n (keys (m_regs x)) = zlen ks.
Proof. intros (kps & Hr & Hf). unfold array_n. rewrite (array_rel_length _ _ Hr). unfold zlen. by rewrite (Forall2_length Hf). Qed.

Lemma run_msg_key `{env : Env} C M w r x ks i k :
  msgs_at C M w -> M !! r = Some x -> msg_keys x ks -> 0 <= i -> ks !! Z.to_nat i = Some k ->
  runs (msg_key i (Some r)) w (fun k' w' => k' = k /\ w' = w).
Proof.
  intros Hw Hx (kps & Hr & Hf) Hi Hk. destruct (Forall2_lookup_r _ _ _ _ _ Hf Hk) as (kp & Hkp & Hat).
  assert (Hx' : w_msgs w !! r = Some x) by (by destruct Hw as (_ & -> & _)). unfold msg_key. run_w.
  rewrite (array_load_get _ kps) by (try done; apply lookup_lt_Some in Hkp; unfold zlen; lia). rewrite Hkp.
  eapply runs_reads; [by eapply key_at_bytes, Hat; eapply msgs_at_mhdr|done].
Qed.

(** ** Appending to a fragment *)

Lemma dec_s32_small n : 0 <= n < 2 ^ 31 -> dec_s32 n = dec n.
Proof. intros Hn. unfold dec_s32. assert (s32 n = n) as -> by (unfold s32, swrap; rewrite Z.mod_small by lia; lia). by destruct (Z.ltb_spec n 0); [lia|]. Qed.

(** The message without its data, keys and lengths. *)
Definition shape (x : msg) : msg :=
  m_set_mhdr [] (m_set_mlen 0 (m_upd_regs (fun g => set_keys (set_narg g 0) (mk_array 0 [] 0 0)) x)).

(** [x'] is [x] with [src] behind its data. *)
Record appended (x x' : msg) (src : list Z) : Prop := {
  ap_data : mhdr_data (m_mhdr x') = mhdr_data (m_mhdr x) ++ src;
  ap_grows : grows (m_mhdr x) (m_mhdr x');
  ap_shape : shape x' = shape x;
  ap_narg : narg (m_regs x') = narg (m_regs x)
}.

Lemma appended_trans x1 x2 x3 s t : appended x1 x2 s -> appended x2 x3 t -> appended x1 x3 (s ++ t).
Proof.
  intros [A1 A2 A3 A4] [B1 B2 B3 B4]. constructor; [by rewrite B1, A1, app_assoc|by etrans|congruence|congruence].
Qed.

Section Append.
Context `{env : Env}.
Hypothesis alloc_ok : forall n z, ev_ok n z = true.

(** The bytes are copied to the end of the last mbuf [b]. *)
Lemma run_copy_piece C M w a x h b src (Q : Z -> world -> Prop) :
  msgs_at C M w -> M !! a = Some x -> m_mhdr x = h ++ [b] -> zlen src <= mb_end b - mb_last b ->
  (forall w', msgs_at C (<[a := add_mlen (zlen src) (m_set_mhdr (h ++ [mbuf_copy b src]) x)]> M) w' -> Q NC_OK w') ->
  runs (copy_to b src) w (fun b w => runs (msg_store_mbuf b (Some a);; msg_st (add_mlen (zlen src)) (Some a);; mret NC_OK) w Q).
Proof.
  intros Hw Hx Eh Hs HQ. destruct (msgs_at_last _ _ _ _ _ _ _ Hw Hx Eh) as [Hb He]. pose proof (msgs_at_mhdr _ _ _ _ _ Hw Hx) as Hok. rewrite Eh in Hok.
  assert (Hid : mb_id (mbuf_copy b src) = mb_id b) by (unfold mbuf_copy; by destruct (_ =? 0)).
  eapply run_copy_to; [done|]. run_w. unfold msg_store_mbuf. eapply run_upd; [exact Hw|done| |].
  { simpl. rewrite Eh, (mhdr_update_last w) by done. eapply mhdr_ok_last; try done; [by apply mbuf_copy_wf|]. unfold mbuf_copy. by destruct (_ =? 0). }
  intros w1 H1. rewrite Eh, (mhdr_update_last w) in H1 by done. run_w. eapply run_upd_keep; [exact H1|apply lookup_insert_eq|done|].
  intros w2 H2. rewrite insert_insert_eq in H2. run_w. by apply HQ.
Qed.

Lemma appended_copy x h b src y :
  mhdr_data (h ++ [b]) = mhdr_data (m_mhdr x) -> grows (m_mhdr x) (h ++ [b]) -> mbuf_wf b -> zlen src <= mb_end b - mb_last b ->
  m_mhdr y = h ++ [mbuf_copy b src] -> shape y = shape x -> narg (m_regs y) = narg (m_regs x) -> appended x y src.
Proof.
  intros Hd Hg Hb Hs Ey Hsh Hn. constructor; try done; rewrite Ey.
  - rewrite mhdr_data_app, mhdr_data_one, mbuf_copy_data by done. by rewrite app_assoc, <- (mhdr_data_one b), <- mhdr_data_app, Hd.
  - etrans; [exact Hg|by apply grows_copy].
Qed.

(** A piece without a key. *)
Lemma run_piece C M w a x src (Q : Z -> world -> Prop) :
  msgs_at C M w -> M !! a = Some x -> zlen src <= C ->
  (forall x' w', appended x x' src -> keys (m_regs x') = keys (m_regs x) -> msgs_at C (<[a := x']> M) w' -> Q NC_OK w') ->
  runs (append_piece (Some a) src (fun _ => mret true)) w Q.
Proof.
  intros Hw Hx Hs HQ. unfold append_piece. run_w. pose proof (zlen_nonneg src).
  eapply runs_mono; [by eapply (run_ensure alloc_ok C M w a x)|]. intros o w1 (h & b & -> & H1 & Hd & Hg & Hl). run_w.
  eapply run_copy_piece; [exact H1|apply lookup_insert_eq|done|done|]. intros w2 H2. rewrite insert_insert_eq in H2.
  eapply HQ; [|  |exact H2]; [|done]. eapply appended_copy; try done.
  by eapply (msgs_at_last _ _ _ _ _ h b H1); [apply lookup_insert_eq|].
Qed.

(** The array of keys has room to grow. *)
Definition keys_room (x : msg) : Prop := nalloc (keys (m_regs x)) <= 2 * nelem (keys (m_regs x)) + 1.

Lemma push_key_rel ok g b s e kps :
  (forall z, ok z = true) -> array_rel (keys g) kps -> nalloc (keys g) <= 2 * nelem (keys g) + 1 -> zlen kps < 2 ^ 28 ->
  exists arr, push_key ok g b s e = Some (set_keys g arr) /\
    array_rel arr (kps ++ [mk_keypos (mk_ptr (mb_id b) s) (mk_ptr (mb_id b) e)]) /\ nalloc arr <= 2 * nelem arr + 1.
Proof.
  intros Hok Hr Hroom Hz. pose proof (array_rel_length _ _ Hr) as Hne. destruct Hr as [Hwf Hc]. unfold push_key.
  destruct (array_push ok (keys g)) as [[kp a]|] eqn:E.
  2:{ unfold array_push in E. destruct (_ =? _); [|done]. by rewrite Hok in E. }
  set (kv := mk_keypos _ _). destruct (array_push_store_spec ok (keys g) a kp kv Hwf) as (Hwf' & Hc' & _); [lia|done|].
  eexists. split; [done|]. split; [split; [done|by rewrite map_app, Hc', Hc]|].
  unfold array_push in E. destruct Hwf as [? ? ? ?]. repeat dmatch_in E; simplify_eq/=; b2p;
    rewrite ?(u32_small (nelem _ + 1)), ?(u32_small (nalloc _ * 2)) by (unfold is_u32; lia); lia.
Qed.

(** A key. *)
Lemma run_piece_key C M w a x src ks (Q : Z -> world -> Prop) :
  msgs_at C M w -> M !! a = Some x -> zlen src <= C -> msg_keys x ks -> keys_room x -> zlen ks < 2 ^ 28 ->
  (forall x' w', appended x x' src -> msg_keys x' (ks ++ [src]) -> keys_room x' -> msgs_at C (<[a := x']> M) w' -> Q NC_OK w') ->
  runs (append_piece (Some a) src (push_kpos (Some a) (zlen src))) w Q.
Proof.
  intros Hw Hx Hs (kps & Hr & Hf) Hroom Hz HQ. unfold append_piece. run_w. pose proof (zlen_nonneg src).
  eapply runs_mono; [by eapply (run_ensure alloc_ok C M w a x)|]. intros o w1 (h & b & -> & H1 & Hd & Hg & Hl).
  assert (Hb : mbuf_wf b) by (by eapply (msgs_at_last _ _ _ _ _ h b H1); [apply lookup_insert_eq|]).
  assert (Hx1 : w_msgs w1 !! a = Some (m_set_mhdr (h ++ [b]) x)) by (destruct H1 as (_ & -> & _); apply lookup_insert_eq).
  unfold push_kpos. run_w. cbv beta.
  destruct (push_key_rel (ev_ok (w_tick w1)) (m_regs x) b (mb_last b) (mb_last b + zlen src) kps) as (arr & Ep & Ha & Hroom'); [by apply alloc_ok|done|done| |].
  { unfold zlen in *. by rewrite (Forall2_length Hf). }
  simpl. rewrite Ep. clear Hx1. run_w. eapply run_upd_keep; [eapply msgs_at_part; [|exact H1]; reflexivity|apply lookup_insert_eq|done|].
  intros w2 H2. rewrite insert_insert_eq in H2. run_w.
  eapply run_copy_piece; [exact H2|apply lookup_insert_eq|done|done|]. intros w3 H3. rewrite insert_insert_eq in H3.
  set (x' := add_mlen _ _) in H3. assert (Hap : appended x x' src) by (by eapply appended_copy).
  apply (HQ x'); [done| |done|done]. exists (kps ++ [mk_keypos (mk_ptr (mb_id b) (mb_last b)) (mk_ptr (mb_id b) (mb_last b + zlen src))]).
  split; [done|]. apply Forall2_app.
  - eapply List.Forall2_impl; [|exact Hf]. intros kp k. apply key_at_grows. apply Hap.
  - constructor; [|constructor]. exists (mbuf_copy b src). split; [apply elem_of_app; right; constructor|]. destruct Hb as [? ? ? Hm ?].
    unfold mbuf_copy. destruct (Z.eqb_spec (zlen src) 0) as [E|]; simpl.
    + split_and!; try done; try lia. destruct src; [|rewrite zlen_cons in E; pose proof (zlen_nonneg src); lia].
      unfold slice. by rewrite Z.add_0_r, Z.sub_diag.
    + split_and!; try done; try lia. apply slice_blit; unfold MBUF_HSIZE in *; lia.
Qed.

Lemma msg_keys_piece x x' src ks : appended x x' src -> keys (m_regs x') = keys (m_regs x) -> msg_keys x ks -> msg_keys x' ks.
Proof.
  intros Hap Ek (kps & Hr & Hf). exists kps. rewrite Ek. split; [done|]. eapply List.Forall2_impl; [|exact Hf]. intros kp k. apply key_at_grows, Hap.
Qed.

(** A key as a bulk. *)
Lemma run_append_key C M w a x key ks (Q : Z -> world -> Prop) :
  msgs_at C M w -> M !! a = Some x -> zlen key <= C -> 13 <= C -> zlen key < 2 ^ 31 -> msg_keys x ks -> keys_room x -> zlen ks < 2 ^ 28 ->
  (forall x' w', appended x x' (bulk key) -> msg_keys x' (ks ++ [key]) -> keys_room x' -> msgs_at C (<[a := x']> M) w' -> Q NC_OK w') ->
  runs (redis_append_key (Some a) key) w Q.
Proof.
  intros Hw Hx Hs HC Hk Hks Hroom Hz HQ. unfold redis_append_key. apply runs_bind. rewrite dec_s32_small by (pose proof (zlen_nonneg key); lia).
  eapply run_piece; [exact Hw|exact Hx| |].
  { rewrite !zlen_app. assert (zlen (dec (zlen key)) <= 10) by (unfold zlen at 1; pose proof (dec_length (zlen key)); lia).
    change (zlen [36]) with 1. change (zlen CRLF) with 2. lia. }
  intros x1 w1 A1 K1 H1. simpl. apply runs_bind.
  eapply run_piece_key; [exact H1|apply lookup_insert_eq|done|by eapply msg_keys_piece|unfold keys_room; by rewrite K1|done|].
  intros x2 w2 A2 K2 R2 H2. rewrite insert_insert_eq in H2. simpl. eapply run_piece; [exact H2|apply lookup_insert_eq|unfold zlen; simpl; lia|].
  intros x3 w3 A3 K3 H3. rewrite insert_insert_eq in H3. apply (HQ x3 w3); [|by eapply msg_keys_piece|unfold keys_room; by rewrite K3|done].
  assert (bulk key = (([36] ++ dec (zlen key) ++ CRLF) ++ key) ++ CRLF) as -> by (unfold bulk; by rewrite <- !app_assoc).
  apply (appended_trans _ x2); [|done]. by apply (appended_trans _ x1).
Qed.

(** ** The header of a fragment *)

Lemma mhdr_ok_cons w h b a x : mhdr_ok w h -> mbuf_wf b -> mb_end b = cap w -> (mb_id b < w_next w)%positive ->
  mb_id b ∉ ids (free_mbufq (w_mbufs w)) -> (forall a x, w_msgs w !! a = Some x -> mb_id b ∉ ids (m_mhdr x)) ->
  w_msgs w !! a = Some x -> m_mhdr x = h -> mhdr_ok w (b :: h).
Proof.
  intros [M1 M2 M3 M4 M5] N1 N5 N6 N7 N8 Hx <-. specialize (N8 _ _ Hx).
  constructor; unfold ids in *; simpl; try (by constructor). intros i Hi. apply elem_of_cons in Hi as [->|Hi]; [done|by apply M5].
Qed.

Lemma print_at_data b s :
  mbuf_wf b -> mb_pos b = 0 -> mb_last b = 0 -> 0 < zlen s < mb_end b ->
  let b' := set_last (print_at b (mbuf_size b) s) (zlen s) in mbuf_wf b' /\ mdata b' = s.
Proof.
  intros Hb Hp Hl Hs b'. pose proof Hb as [? ? ? Hm ?]. assert (Ht : take (Z.to_nat (mbuf_size b - 1)) s = s).
  { rewrite mbuf_size_wf, Hl by done. apply take_ge. unfold zlen in *. lia. }
  assert (Hlen : zlen (s ++ [0]) = zlen s + 1) by (rewrite zlen_app; done).
  unfold b', print_at. rewrite Ht, Hl. unfold MBUF_HSIZE in *. split.
  - constructor; simpl; rewrite ?Hp; try lia; try done. unfold zlen at 1. rewrite length_blit; [exact Hm|lia|lia].
  - unfold mdata. simpl. rewrite Hp. unfold slice, blit. simpl. rewrite drop_0, Z.sub_0_r, <- app_assoc. unfold zlen. rewrite Nat2Z.id.
    by rewrite take_app_length.
Qed.

Lemma run_prepend C M w a x s (Q : Z -> world -> Prop) :
  msgs_at C M w -> M !! a = Some x -> 0 < zlen s < C ->
  (forall b w', mdata b = s -> msgs_at C (<[a := m_set_mhdr (b :: m_mhdr x) (add_mlen (zlen s) x)]> M) w' -> Q NC_OK w') ->
  runs (msg_prepend_format (Some a) s) w Q.
Proof.
  intros Hw Hx Hs HQ. unfold msg_prepend_format. run_w. eapply runs_mono; [by eapply run_get_mbuf|]. intros o w1 (b & -> & [N1 N2 N3 N4 N5 N6 N7 N8] & H1).
  assert (HC : cap w1 = C) by (by destruct H1 as (_ & _ & ?)). cbv beta iota zeta.
  rewrite mbuf_size_wf by done. destruct (Z.leb_spec (zlen s) 0); [lia|]. destruct (Z.leb_spec (mb_end b - mb_last b) (zlen s)); [lia|]. simpl.
  rewrite <- mbuf_size_wf by done. rewrite N4, Z.add_0_l. destruct (print_at_data b s N1 N3 N4) as [Hb Hd]; [lia|].
  destruct H1 as (Hok & EM & _). assert (Hx1 : w_msgs w1 !! a = Some x) by (by rewrite EM).
  run_w. eapply run_msg_st; [by apply lookup_insert_eq|]. simpl. rewrite insert_insert_eq. run_w.
  eapply HQ; [exact Hd|]. unfold w_set_msgs at 1. simpl.
  set (f := fun x0 => m_set_mhdr (set_last (print_at b (mbuf_size b) s) (zlen s) :: m_mhdr x0) (add_mlen (zlen s) x0)).
  assert (Hf : store_ok (w_set_msgs (<[a := f x]> (w_msgs w1)) w1)).
  { apply (store_ok_update w1 a x f); try done. simpl. eapply mhdr_ok_cons; try done; [by eapply so_msgs|done..]. }
  split_and!; [eapply store_ok_part; [|exact Hf]; reflexivity|simpl; by rewrite EM|done].
Qed.

End Append.
