(* ===== verification/Split.v ===== *)
(** redis_fragment on MGET and DEL: one fragment for every server that has
    keys, which asks it for its keys in their order. *)

From stdpp Require Import gmap.
From S2P Require Import Prelude CArray Mbuf Message Parser Pool State Rbtree World MsgStore RedisReqResume RedisReqRoundtrip RedisMsg ReqCore ConnServer Request Response MsgIO Frame StoreFacts Sample FragFacts.

(** A fragment under construction for the client [c]: a fresh request with
    the keys [g]. *)
Record frag_ok (c : pointer) (x : msg) (g : list (list Z)) : Prop := {
  fo_data : mhdr_data (m_mhdr x) = bulks g;
  fo_keys : msg_keys x g;
  fo_room : keys_room x;
  fo_narg : narg (m_regs x) = zlen g;
  fo_fresh : exists x0, got c true true x0 /\ shape x = shape x0
}.

Lemma frag_ok_fresh c x : got c true true x -> frag_ok c x [].
Proof.
  intros H. pose proof H as (id & ts & t & ->). constructor; try done; [|by eexists].
  exists []. split; [|constructor]. split; [|done]. constructor; simpl; try lia; done.
Qed.

Lemma bulks_snoc g k : bulks (g ++ [k]) = bulks g ++ bulk k.
Proof. unfold bulks. rewrite map_app, concat_app. simpl. by rewrite app_nil_r. Qed.

Lemma frag_ok_snoc c x x' g k :
  frag_ok c x g -> appended (incr_narg x) x' (bulk k) -> msg_keys x' (g ++ [k]) -> keys_room x' -> zlen g < 2 ^ 28 -> frag_ok c x' (g ++ [k]).
Proof.
  intros [F1 F2 F3 F4 (x0 & F5 & F6)] [A1 A2 A3 A4] Hk Hr Hz. constructor; try done.
  - rewrite bulks_snoc, <- F1. exact A1.
  - rewrite A4. simpl. rewrite F4, zlen_app, u32_small; [done|]. unfold is_u32. pose proof (zlen_nonneg g). lia.
  - exists x0. split; [done|]. by rewrite A3, <- F6.
Qed.

Section Split.
Context `{env : Env}.
Hypothesis alloc_ok : forall n z, ev_ok n z = true.
Variables (C : Z) (M0 : gmap positive msg) (r : positive) (x1 : msg) (c : positive) (route : list Z -> Z) (total : Z).

(** The keys of server [j]. *)
Definition group (ks : list (list Z)) (j : nat) : list (list Z) := filter (fun k => route k = Z.of_nat j) ks.

Lemma group_snoc ks k j : group (ks ++ [k]) j = group ks j ++ (if decide (route k = Z.of_nat j) then [k] else []).
Proof. unfold group. rewrite list.filter_app. f_equal. Qed.

Lemma group_elem ks i k : ks !! i = Some k -> 0 <= route k -> group ks (Z.to_nat (route k)) <> [].
Proof.
  intros Hk Hr E. assert (k ∈ group ks (Z.to_nat (route k))) as Hin.
  { unfold group. apply list_elem_of_filter. split; [by rewrite Z2Nat.id|by eapply list_elem_of_lookup_2]. }
  rewrite E in Hin. by apply elem_of_nil in Hin.
Qed.

(** The keys [ks] of the vector [r] are spread over the fragments [sub]. *)
Record spread (ks : list (list Z)) (fs sub : list pointer) (M : gmap positive msg) : Prop := {
  sp_r : M !! r = Some (m_set_frag_seq (Some fs) x1);
  sp_fs : zlen fs = total;
  sp_seq : forall i k, ks !! i = Some k -> exists p, fs !! i = Some p /\ sub !! Z.to_nat (route k) = Some p;
  sp_none : forall j, sub !! j = Some None -> group ks j = [];
  sp_some : forall j a, sub !! j = Some (Some a) -> a <> r /\ M0 !! a = None /\ exists x, M !! a = Some x /\ frag_ok (Some c) x (group ks j);
  sp_inj : forall j j' a, sub !! j = Some (Some a) -> sub !! j' = Some (Some a) -> j = j';
  sp_frame : forall a, a <> r -> Some a ∉ sub -> M !! a = M0 !! a
}.

(** Every fragment has a key. *)
Definition used (ks : list (list Z)) (sub : list pointer) : Prop := forall j a, sub !! j = Some (Some a) -> group ks j <> [].

Hypothesis Hx1 : m_owner x1 = Some c /\ m_request x1 = true /\ m_redis x1 = true.

Lemma run_sub_msg_for ks fs sub M w j :
  msgs_at C M w -> spread ks fs sub M -> (j < length sub)%nat -> (forall k, k ∈ ks -> 0 <= route k) ->
  runs (sub_msg_for (Some r) (Z.of_nat j) sub) w (fun o w' => exists a sub' M', o = Some (Some a, sub') /\ msgs_at C M' w' /\
    spread ks fs sub' M' /\ sub' !! j = Some (Some a) /\ length sub' = length sub /\ (forall j', j' <> j -> sub' !! j' = sub !! j')).
Proof.
  intros Hw HS Hj Hroute. destruct (lookup_lt_is_Some_2 _ _ Hj) as [p Hp]. unfold sub_msg_for. run_w. unfold rd.
  destruct (Z.leb_spec 0 (Z.of_nat j)); [|lia]. rewrite Nat2Z.id. eapply runs_reads; [exact Hp|]. destruct p as [a|].
  { run_w. exists a, sub, M. by split_and!. }
  destruct HS as [S1 S2 S3 S4 S5 S6 S7]. destruct Hx1 as (E1 & E2 & E3).
  assert (Hr : w_msgs w !! r = Some (m_set_frag_seq (Some fs) x1)) by (by destruct Hw as (_ & -> & _)).
  run_w. simpl. rewrite E1, E2, E3. run_w. eapply runs_mono; [by apply (run_msg_get alloc_ok C M w)|].
  intros o w1 (a & x & -> & Ha & Hgot & H1). run_w.
  assert (Hnew : Some a ∉ sub).
  { intros Hin. apply list_elem_of_lookup in Hin as [j' Hj']. destruct (S5 _ _ Hj') as (_ & _ & y & Hy & _). congruence. }
  assert (Har : a <> r) by congruence.
  exists a, (<[j := Some a]> sub), (<[a := x]> M). split_and!; try done; [|by apply list_lookup_insert_eq|by rewrite length_insert|intros; by rewrite list_lookup_insert_ne].
  constructor; try done.
  - by rewrite lookup_insert_ne.
  - intros i k Hk. destruct (S3 i k Hk) as (q & Hq1 & Hq2). exists q. split; [done|]. rewrite list_lookup_insert_ne; [done|]. intros ->.
    rewrite Hp in Hq2. injection Hq2 as <-. apply (group_elem ks i k); [done|by eapply Hroute, list_elem_of_lookup_2|by apply S4].
  - intros j' Hj'. apply S4. by apply list_lookup_insert_Some in Hj' as [(-> & [= ] & _)|[_ Hj']].
  - intros j' a' Hj'. apply list_lookup_insert_Some in Hj' as [(-> & [= <-] & _)|[_ Hj']].
    + split_and!; [done|by rewrite <- S7|]. exists x. split; [apply lookup_insert_eq|]. rewrite (S4 _ Hp). by apply frag_ok_fresh.
    + destruct (S5 _ _ Hj') as (? & ? & y & Hy & ?). split_and!; try done. exists y. split; [|done]. rewrite lookup_insert_ne; [done|]. intros ->. congruence.
  - intros j1 j2 a' H1' H2'. apply list_lookup_insert_Some in H1' as [(-> & E4 & _)|[? H1']]; apply list_lookup_insert_Some in H2' as [(-> & E5 & _)|[? H2']]; simplify_eq; try done.
    + destruct Hnew. by eapply list_elem_of_lookup_2.
    + destruct Hnew. by eapply list_elem_of_lookup_2.
    + by eapply S6.
  - intros a' Hne Hnot. rewrite lookup_insert_ne; [apply S7; [done|]|].
    + intros Hin. apply Hnot. apply list_elem_of_lookup in Hin as [j' Hj']. apply list_elem_of_lookup. exists j'.
      rewrite list_lookup_insert_ne; [done|]. intros ->. congruence.
    + intros ->. apply Hnot, list_elem_of_lookup. exists j. by apply list_lookup_insert_eq.
Qed.

(** Before the first key. *)
Lemma spread_nil M n :
  M !! r = Some (m_set_frag_seq (Some (replicate (Z.to_nat total) None)) x1) -> 0 <= total -> (forall a, a <> r -> M !! a = M0 !! a) ->
  spread [] (replicate (Z.to_nat total) None) (replicate n None) M.
Proof.
  intros Hr Ht Hf. constructor; try done.
  - unfold zlen. rewrite length_replicate. lia.
  - intros j a Hj. by apply lookup_replicate in Hj as [[=] _].
  - intros j j' a Hj. by apply lookup_replicate in Hj as [[=] _].
  - intros a Ha _. by apply Hf.
Qed.

(** A key was added to fragment [a] of server [route k]. *)
Lemma spread_snoc ks fs sub M k a x :
  spread ks fs sub M -> zlen ks < total -> 0 <= route k -> sub !! Z.to_nat (route k) = Some (Some a) ->
  frag_ok (Some c) x (group ks (Z.to_nat (route k)) ++ [k]) ->
  spread (ks ++ [k]) (<[length ks := Some a]> fs) sub (<[a := x]> (<[r := m_set_frag_seq (Some (<[length ks := Some a]> fs)) x1]> M)).
Proof.
  intros [S1 S2 S3 S4 S5 S6 S7] Ht Hr Ha Hx. destruct (S5 _ _ Ha) as (Har & HM0 & _).
  assert (Hg : forall j, j <> Z.to_nat (route k) -> group (ks ++ [k]) j = group ks j).
  { intros j Hj. rewrite group_snoc, decide_False by lia. apply app_nil_r. }
  assert (Hg1 : group (ks ++ [k]) (Z.to_nat (route k)) = group ks (Z.to_nat (route k)) ++ [k]) by (rewrite group_snoc, decide_True by lia; done).
  constructor; try done.
  - rewrite lookup_insert_ne by done. apply lookup_insert_eq.
  - unfold zlen in *. by rewrite length_insert.
  - intros i k' Hk. apply lookup_app_Some in Hk as [Hk|[Hle Hk]].
    + destruct (S3 i k' Hk) as (p & Hp1 & Hp2). exists p. split; [|done]. rewrite list_lookup_insert_ne; [done|]. apply lookup_lt_Some in Hk. lia.
    + apply list_lookup_singleton_Some in Hk as [Hi <-]. assert (i = length ks) as -> by lia. exists (Some a). split; [|done].
      apply list_lookup_insert_eq. unfold zlen in *. lia.
  - intros j Hj. rewrite Hg; [by apply S4|]. intros ->. congruence.
  - intros j b Hj. destruct (S5 _ _ Hj) as (? & ? & y & Hy & Hf). split_and!; try done. destruct (decide (j = Z.to_nat (route k))) as [->|Hne].
    + rewrite Hj in Ha. injection Ha as <-. exists x. split; [apply lookup_insert_eq|]. by rewrite Hg1.
    + exists y. rewrite Hg by done. split; [|done]. rewrite !lookup_insert_ne; [done|done|]. intros ->. by apply Hne, (S6 _ _ b).
  - intros b Hne Hnot. rewrite !lookup_insert_ne; [by apply S7|done|]. intros ->. apply Hnot, list_elem_of_lookup. by eexists.
Qed.

(** The key goes to fragment [a], which its server has. *)
Lemma run_add_key {A} (kont : Z -> W A) ks fs sub M w k a (Q : A -> world -> Prop) :
  msgs_at C M w -> spread ks fs sub M -> zlen ks < total -> total < 2 ^ 28 -> 0 <= route k -> sub !! Z.to_nat (route k) = Some (Some a) ->
  zlen k <= C -> 13 <= C -> zlen k < 2 ^ 31 ->
  (forall fs' M' w', msgs_at C M' w' -> spread (ks ++ [k]) fs' sub M' -> runs (kont NC_OK) w' Q) ->
  runs (set_frag_seq (Some r) (zlen ks) (Some a);; msg_st incr_narg (Some a);; status ← redis_append_key (Some a) k; kont status) w Q.
Proof.
  intros Hw HS Ht Hmax Hrk Ha HkC HC Hk31 HQ. pose proof (sp_r _ _ _ _ HS) as Hr. pose proof (sp_fs _ _ _ _ HS) as Hfs. pose proof (zlen_nonneg ks).
  destruct (sp_some _ _ _ _ HS _ _ Ha) as (Har & Hfa & x & Hx & Fx). unfold set_frag_seq.
  assert (Hr' : w_msgs w !! r = Some (m_set_frag_seq (Some fs) x1)) by (by destruct Hw as (_ & -> & _)).
  run_w. clear Hr'. cbv beta. simpl m_frag_seq. cbv iota beta. rewrite Hfs. destruct (Z.leb_spec 0 (zlen ks)); [|lia]. destruct (Z.ltb_spec (zlen ks) total); [|lia]. simpl.
  unfold zlen at 1. rewrite Nat2Z.id. eapply run_upd_keep; [exact Hw|exact Hr|done|]. intros w1 Hw1. run_w.
  eapply run_upd_keep; [exact Hw1|by rewrite lookup_insert_ne|done|]. intros w2 Hw2. pose proof Fx as [F1 F2 F3 F4 F5]. apply runs_bind.
  assert (Hg : zlen (group ks (Z.to_nat (route k))) <= zlen ks) by (unfold zlen, group; pose proof (list.length_filter (λ k0, route k0 = Z.of_nat (Z.to_nat (route k))) ks); lia).
  eapply (run_append_key alloc_ok); [exact Hw2|apply lookup_insert_eq|done|done|done|exact F2|exact F3|lia|].
  intros x' w3 A3 K3 R3 H3. rewrite insert_insert_eq in H3. eapply HQ; [exact H3|]. eapply spread_snoc; try done. eapply frag_ok_snoc; try done. lia.
Qed.

Lemma run_fragment_key ks fs sub M w k rest xc p pl :
  msgs_at C M w -> spread ks fs sub M -> used ks sub -> msg_keys x1 (ks ++ k :: rest) -> total = zlen (ks ++ k :: rest) -> total < 2 ^ 28 ->
  (forall k', k' ∈ ks ++ [k] -> 0 <= route k' < zlen sub) -> zlen k <= C -> 13 <= C -> zlen k < 2 ^ 31 ->
  w_conns w !! c = Some xc -> c_owner xc = OwnPool p -> w_pools w !! p = Some pl ->
  (forall rnd, server_pool_idx (pl_key_hash pl) rnd (pl_core pl) k = Some (route k)) ->
  runs (fragment_key (Some r) 1 (zlen ks) sub) w (fun res w' => exists fs' sub' M', res = (NC_OK, sub') /\ msgs_at C M' w' /\
    spread (ks ++ [k]) fs' sub' M' /\ used (ks ++ [k]) sub' /\ length sub' = length sub).
Proof.
  intros Hw HS Hu Hkeys Htot Hmax Hroute HkC HC Hk31 Hc Hcp Hpl Hidx. pose proof (zlen_nonneg ks). pose proof (zlen_nonneg rest).
  rewrite zlen_app, zlen_cons in Htot.
  assert (Hrk : 0 <= route k < zlen sub) by (apply Hroute, elem_of_app; right; constructor).
  unfold fragment_key. apply runs_bind. eapply runs_mono.
  { eapply (run_msg_key C M w r (m_set_frag_seq (Some fs) x1) (ks ++ k :: rest)); [done|by apply (sp_r _ _ _ _ HS)|exact Hkeys|done|].
    unfold zlen. rewrite Nat2Z.id. apply list_lookup_middle. done. }
  intros k' w' [-> ->]. apply runs_bind. unfold msg_backend_idx.
  assert (Hr : w_msgs w !! r = Some (m_set_frag_seq (Some fs) x1)) by (destruct Hw as (_ & -> & _); by apply (sp_r _ _ _ _ HS)).
  destruct Hx1 as (E1 & E2 & E3). run_w. simpl. rewrite E1. run_w. rewrite Hcp. run_w. eapply runs_reads; [apply Hidx|].
  apply runs_bind. rewrite <- (Z2Nat.id (route k)) by lia. eapply runs_mono.
  { eapply (run_sub_msg_for ks fs sub M); [eapply msgs_at_part; [|exact Hw]; reflexivity|done|unfold zlen in *; lia|].
    intros k' Hk'. apply Hroute, elem_of_app. by left. }
  clear Hr. intros o w1 (a & sub1 & M1 & -> & H1 & S1 & Ha & Hlen & Hoth). cbv iota beta.
  eapply run_add_key; try done; [lia..|].
  intros fs' M' w' H' S'. simpl. run_w. exists fs', sub1, M'. split_and!; try done. intros j b Hj. rewrite group_snoc. destruct (decide _) as [|Hne]; [by destruct (group ks j)|].
  rewrite app_nil_r. eapply Hu. rewrite <- Hoth; [done|]. intros ->. apply Hne. lia.
Qed.

Lemma keeps_fragment_key i sub : Keeps (fun w => (w_conns w, w_pools w)) (fragment_key (Some r) 1 i sub).
Proof. solve_keeps. Qed.

Lemma run_fragment_keys rest : forall ks fs sub M w xc p pl,
  msgs_at C M w -> spread ks fs sub M -> used ks sub -> msg_keys x1 (ks ++ rest) -> total = zlen (ks ++ rest) -> total < 2 ^ 28 -> 13 <= C ->
  (forall k, k ∈ ks ++ rest -> 0 <= route k < zlen sub /\ zlen k <= C /\ zlen k < 2 ^ 31) ->
  w_conns w !! c = Some xc -> c_owner xc = OwnPool p -> w_pools w !! p = Some pl ->
  (forall k rnd, k ∈ rest -> server_pool_idx (pl_key_hash pl) rnd (pl_core pl) k = Some (route k)) ->
  runs (fragment_keys (Some r) 1 (zlen ks) (length rest) sub) w (fun res w' => exists fs' sub' M', res = (NC_OK, sub') /\ msgs_at C M' w' /\
    spread (ks ++ rest) fs' sub' M' /\ used (ks ++ rest) sub' /\ length sub' = length sub).
Proof.
  induction rest as [|k rest IH]; intros ks fs sub M w xc p pl Hw HS Hu Hkeys Htot Hmax HC Hks Hc Hcp Hpl Hidx; simpl.
  { rewrite app_nil_r. run_w. by exists fs, sub, M. }
  apply runs_bind. eapply runs_mono.
  { eapply (runs_keeps (fun w => (w_conns w, w_pools w))); [apply keeps_fragment_key|].
    eapply run_fragment_key; try done; try (apply Hks; apply elem_of_app; right; constructor); [|intros rnd; apply Hidx; constructor].
    intros k' Hk'. apply Hks. apply elem_of_app in Hk' as [?|?%list_elem_of_singleton]; apply elem_of_app; [by left|subst; right; constructor]. }
  intros res w1 [(fs1 & sub1 & M1 & -> & H1 & S1 & U1 & L1) Ek]. injection Ek as Ec Ep. simpl.
  assert (zlen ks + 1 = zlen (ks ++ [k])) as -> by (rewrite zlen_app; done). assert (Ea : ks ++ k :: rest = (ks ++ [k]) ++ rest) by (by rewrite <- app_assoc). rewrite Ea in *.
  rewrite <- L1. eapply IH; try done; [|by rewrite Ec|by rewrite Ep|].
  - intros k' Hk'. unfold zlen. rewrite L1. by apply Hks.
  - intros k' rnd Hk'. apply Hidx. by constructor.
Qed.

(** ** The headers *)

(** The fragments of a table, in its order. *)
Definition present (sub : list pointer) : list positive := omap id sub.

Lemma present_cons a sub : present (Some a :: sub) = a :: present sub.
Proof. done. Qed.

Lemma elem_of_present a sub : a ∈ present sub <-> Some a ∈ sub.
Proof. unfold present. rewrite list_elem_of_omap. unfold id. split; [by intros (? & ? & ->)|intros H; by exists (Some a)]. Qed.

(** Fragment [x], with its header in front, as a member of the vector of [xr]. *)
Record headed (xr x x' : msg) : Prop := {
  hd_data : exists s, fragment_header (type (m_regs xr)) (narg (m_regs x)) = Some s /\ mhdr_data (m_mhdr x') = s ++ mhdr_data (m_mhdr x);
  hd_grows : grows (m_mhdr x) (m_mhdr x');
  hd_type : type (m_regs x') = type (m_regs xr);
  hd_keys : keys (m_regs x') = keys (m_regs x);
  hd_id : m_frag_id x' = m_frag_id xr;
  hd_frag : m_frag_owner x' = m_frag_owner xr;
  hd_owner : m_owner x' = m_owner x;
  hd_proto : (m_request x', m_redis x') = (m_request x, m_redis x)
}.

Lemma run_join_vector M w xr a x (Q : unit -> world -> Prop) :
  msgs_at C M w -> M !! r = Some xr -> M !! a = Some x -> a <> r ->
  (forall y w', y = m_set_frag_owner (m_frag_owner xr) (m_set_frag_id (m_frag_id xr) (m_upd_regs (fun g => set_type g (type (m_regs xr))) x)) ->
    msgs_at C (<[r := m_set_nfrag (u32 (m_nfrag xr + 1)) xr]> (<[a := y]> M)) w' -> Q tt w') ->
  runs (join_vector (Some r) (Some a)) w Q.
Proof.
  intros Hw Hr Ha Hne HQ. unfold join_vector, msg_type_of.
  assert (Hr' : w_msgs w !! r = Some xr) by (by destruct Hw as (_ & -> & _)). run_w. clear Hr'. cbv beta.
  eapply run_upd_keep; [exact Hw|exact Ha|done|]. intros w1 H1. run_w.
  eapply run_upd_keep; [exact H1|apply lookup_insert_eq|done|]. intros w2 H2. rewrite insert_insert_eq in H2. run_w.
  eapply run_upd_keep; [exact H2|apply lookup_insert_eq|done|]. intros w3 H3. rewrite insert_insert_eq in H3.
  eapply run_upd_keep; [exact H3|by rewrite lookup_insert_ne|done|]. intros w4 H4. by eapply HQ.
Qed.

(** The name of the command in a fragment. *)
Definition command (t : msg_type) : list Z := if msg_type_eqb t MSG_REQ_REDIS_MGET then bytes_of "mget" else bytes_of "del".

Lemma fragment_header_resp t g :
  t = MSG_REQ_REDIS_MGET \/ t = MSG_REQ_REDIS_DEL -> zlen g < 2 ^ 28 ->
  exists s, fragment_header t (zlen g) = Some s /\ 0 < zlen s < 24 /\ s ++ bulks g = resp (command t :: g).
Proof.
  intros Ht Hg. pose proof (zlen_nonneg g). assert (En : dec_s32 (u32 (zlen g + 1)) = dec (zlen g + 1)).
  { rewrite u32_small by (unfold is_u32; lia). apply dec_s32_small. lia. }
  unfold fragment_header. rewrite En. pose proof (dec_length (zlen g + 1)).
  assert (Hd : 0 <= zlen (dec (zlen g + 1)) <= 10) by (unfold zlen at 1 3; lia).
  unfold resp. rewrite zlen_cons, (Z.add_comm 1). destruct Ht as [-> | ->]; (eexists; split; [reflexivity|]);
    (split; [rewrite !zlen_app; change (zlen [42]) with 1; vm_compute (zlen CRLF); vm_compute (zlen (bytes_of _)); lia|]);
    unfold bulks; simpl map; simpl concat; rewrite <- !app_assoc; reflexivity.
Qed.

Lemma headed_header xr x y b s :
  fragment_header (type (m_regs xr)) (narg (m_regs x)) = Some s -> mdata b = s ->
  y = m_set_frag_owner (m_frag_owner xr) (m_set_frag_id (m_frag_id xr) (m_upd_regs (fun g => set_type g (type (m_regs xr)))
    (m_set_mhdr (b :: m_mhdr x) (add_mlen (zlen s) x)))) -> headed xr x y.
Proof.
  intros Hs <- ->. constructor; try done.
  - exists (mdata b). split; [done|]. done.
  - apply (grows_app_l _ [b]).
Qed.

(** The loop over the table of fragments. *)
Lemma run_fragment_heads sub : forall q M w xr,
  msgs_at C M w -> M !! r = Some xr -> type (m_regs xr) = MSG_REQ_REDIS_MGET \/ type (m_regs xr) = MSG_REQ_REDIS_DEL -> 24 <= C ->
  NoDup (present sub) -> 0 <= m_nfrag xr -> m_nfrag xr + zlen (present sub) < 2 ^ 32 ->
  (forall a, Some a ∈ sub -> a <> r /\ exists x (g : list (list Z)), M !! a = Some x /\ narg (m_regs x) = zlen g /\ zlen g < 2 ^ 28) ->
  runs (fragment_heads (Some r) sub q) w (fun res w' => exists M', res = (NC_OK, q ++ present sub) /\ msgs_at C M' w' /\
    M' !! r = Some (m_set_nfrag (m_nfrag xr + zlen (present sub)) xr) /\
    (forall a, Some a ∈ sub -> exists x x', M !! a = Some x /\ M' !! a = Some x' /\ headed xr x x') /\
    (forall a, a <> r -> Some a ∉ sub -> M' !! a = M !! a)).
Proof.
  induction sub as [|[a|] sub IH]; intros q M w xr Hw Hr Ht HC Hnd Hn0 Hn Hsub; simpl.
  - run_w. exists M. rewrite app_nil_r. change (zlen (present [])) with 0. rewrite Z.add_0_r. split_and!; try done.
    + rewrite Hr. by destruct xr.
    + intros a Ha. by apply elem_of_nil in Ha.
  - destruct (Hsub a) as (Har & x & g & Hx & Hg & Hgz); [constructor|]. rewrite present_cons in *. apply list.NoDup_cons in Hnd as [Hna Hnd].
    rewrite zlen_cons in Hn. pose proof (zlen_nonneg (present sub)).
    destruct (fragment_header_resp _ g Ht Hgz) as (s & Hs & Hsz & _). unfold msg_type_of.
    assert (Hr' : w_msgs w !! r = Some xr) by (by destruct Hw as (_ & -> & _)).
    assert (Hx' : w_msgs w !! a = Some x) by (by destruct Hw as (_ & -> & _)). run_w. clear Hr' Hx'. cbv beta. rewrite Hg.
    eapply runs_reads; [exact Hs|]. apply runs_bind. eapply (run_prepend alloc_ok); [exact Hw|exact Hx|lia|]. intros b w1 Hb H1. simpl.
    apply runs_bind. eapply run_join_vector; [exact H1|by rewrite lookup_insert_ne|apply lookup_insert_eq|done|].
    intros y w2 Ey H2. rewrite insert_insert_eq in H2.
    assert (Hin : forall a', Some a' ∈ sub -> a' <> a) by (intros a' Ha' ->; by apply Hna, elem_of_present).
    rewrite u32_small in H2 by (unfold is_u32; lia).
    eapply runs_mono; [eapply IH; [exact H2|apply lookup_insert_eq|done|done|done|simpl; lia|simpl; lia|]|].
    { intros a' Ha'. destruct (Hsub a') as (Hr1 & x' & g' & Hx' & ?); [by constructor|]. split; [done|]. exists x', g'. rewrite !lookup_insert_ne; [done|by intros ->; apply (Hin a')|done]. }
    intros res w3 (M' & -> & H3 & E1 & E2 & E3). exists M'. split_and!; [by rewrite <- app_assoc|done| | |].
    + rewrite E1, zlen_cons, Z.add_assoc. done.
    + intros a' Ha'. apply elem_of_cons in Ha' as [[= ->]|Ha'].
      * exists x, y. split; [done|]. split; [|by eapply headed_header; [rewrite Hg; exact Hs|exact Hb|exact Ey]].
        rewrite E3; [|done|by intros Ha'%Hin]. rewrite lookup_insert_ne by done. apply lookup_insert_eq.
      * destruct (E2 a' Ha') as (x' & y' & Hx' & Hy' & Hh). destruct (Hsub a') as (Hr1 & _); [by constructor|].
        rewrite !lookup_insert_ne in Hx' by (done || by intros ->; apply (Hin a')). exists x', y'. split_and!; try done. by destruct Hh; constructor.
    + intros a' Hne Hnot. apply not_elem_of_cons in Hnot as [Hnot1 Hnot2]. rewrite E3 by done. rewrite !lookup_insert_ne; [done|by intros ->|done].
  - eapply runs_mono; [eapply IH; try done; intros a Ha; apply Hsub; by constructor|]. intros res w3 (M' & -> & H3 & E1 & E2 & E3). exists M'. split_and!; try done.
    + intros a Ha. apply elem_of_cons in Ha as [|Ha]; [done|by apply E2].
    + intros a Hne Hnot. apply not_elem_of_cons in Hnot as [_ Hnot]. by apply E3.
Qed.

(** ** The vector *)

(** [x] as redis_fragment_argx prepares it: the header of its first mbuf
    [b] skipped up to [p], and a frag_seq for [n] keys. *)
Definition vector (fid n p : Z) (b : mbuf) (h : list mbuf) (x : msg) : msg :=
  m_set_frag_owner (Some r) (m_set_nfrag 0 (m_set_frag_id fid (m_set_mhdr (set_pos b p :: h) (m_set_frag_seq (Some (replicate (Z.to_nat n) None)) x)))).

Lemma vector_mhdr w b h p : mhdr_ok w (b :: h) -> 0 <= p <= mb_last b -> mbuf_update (b :: h) (set_pos b p) = set_pos b p :: h /\ mhdr_ok w (set_pos b p :: h).
Proof.
  intros [M1 M2 M3 M4 M5] Hp. apply Forall_cons_iff in M1 as [[? ? ? ? ?] M1]. apply Forall_cons_iff in M2 as [? M2]. split.
  - unfold mbuf_update. simpl. rewrite Pos.eqb_refl. f_equal. apply list.NoDup_cons in M3 as [Hn _]. clear - Hn.
    induction h as [|y h IH]; [done|]. unfold ids in *. simpl in *. apply not_elem_of_cons in Hn as [Hne Hn].
    destruct (Pos.eqb_spec (mb_id y) (mb_id b)); [congruence|]. by rewrite IH.
  - constructor; try done; by constructor.
Qed.

Lemma vector_keys fid n p b h x ks : m_mhdr x = b :: h -> msg_keys x ks -> msg_keys (vector fid n p b h x) ks.
Proof.
  intros Eh (kps & Hr & Hf). exists kps. split; [done|]. eapply List.Forall2_impl; [|exact Hf]. intros kp k (y & Hy & Hat). rewrite Eh in Hy.
  apply elem_of_cons in Hy as [-> |Hy]; [exists (set_pos b p)|exists y]; (split; [|exact Hat]); simpl; [constructor|by constructor].
Qed.

Lemma run_vector w x b h p ks nc step (Q : Z * list positive -> world -> Prop) :
  store_ok w -> w_msgs w !! r = Some x -> m_mhdr x = b :: h -> skip_header b = Some p -> 0 <= p <= mb_last b -> msg_keys x ks ->
  (forall fid w', msgs_at (cap w) (<[r := vector fid (zlen ks) p b h x]> (w_msgs w)) w' -> w_conns w' = w_conns w -> w_pools w' = w_pools w ->
    runs (fragment_keys (Some r) step 0 (Z.to_nat (zlen ks)) (replicate (Z.to_nat nc) None)) w' (fun x w' =>
      runs (let '(status, sub) := x in if negb (status =? NC_OK) then mret (status, []) else fragment_heads (Some r) sub []) w' Q)) ->
  runs (redis_fragment_argx (Some r) nc step) w Q.
Proof.
  intros Hok Hx Eh Hs Hp Hk HQ. unfold redis_fragment_argx, fragment_alloc, nkeys. run_w. apply (run_nc_alloc alloc_ok). simpl.
  run_w. rewrite (msg_keys_n _ _ Hk). apply (run_nc_alloc alloc_ok). simpl. run_w. simpl. unfold first_mbuf. run_w. eapply run_msg_ld; [simpl; apply lookup_insert_eq|]. simpl. rewrite Eh.
  run_w. unfold msg_store_mbuf. eapply run_msg_st; [simpl; apply lookup_insert_eq|]. simpl. rewrite Eh, insert_insert_eq.
  destruct (so_msgs _ Hok _ _ Hx) as [_ Hm]. rewrite Eh in Hm. destruct (vector_mhdr _ _ _ _ Hm Hp) as [-> Hm']. unfold start_vector, msg_gen_frag_id. run_w. simpl.
  do 3 (eapply run_msg_st; [simpl; apply lookup_insert_eq|]; simpl; rewrite insert_insert_eq; run_w). eapply run_msg_ld; [simpl; apply lookup_insert_eq|].
  run_w. simpl m_regs. rewrite (msg_keys_n _ _ Hk).
  eapply (HQ (u64 (w_frag_id w + 1))); try done. split_and!; try done.
  eapply store_ok_part; [|apply (store_ok_update w r x (vector (u64 (w_frag_id w + 1)) (zlen ks) p b h) Hok Hx Hm')]. reflexivity.
Qed.

End Split.

(** ** The whole split *)

Lemma present_nodup sub :
  (forall j j' a, sub !! j = Some (Some a) -> sub !! j' = Some (Some a) -> j = j') -> NoDup (present sub).
Proof.
  induction sub as [|[a|] sub IH]; intros H; [constructor| |].
  - rewrite present_cons. apply list.NoDup_cons. split.
    + intros Hin. apply elem_of_present, list_elem_of_lookup in Hin as [j Hj]. by specialize (H 0%nat (S j) a eq_refl Hj).
    + apply IH. intros j j' b Hj Hj'. by injection (H (S j) (S j') b Hj Hj').
  - apply IH. intros j j' b Hj Hj'. by injection (H (S j) (S j') b Hj Hj').
Qed.

Lemma present_length sub : zlen (present sub) <= zlen sub.
Proof. induction sub as [|[a|] sub IH]; [done| |]; [rewrite present_cons, !zlen_cons; lia|]. rewrite zlen_cons. change (present (None :: sub)) with (present sub). lia. Qed.

(** The request at [r], [x] in [w], with the keys [ks] was split into the
    fragments of the table [sub], which has an entry for every server. *)
Record split_into (route : list Z -> Z) (r : positive) (x : msg) (ks : list (list Z)) (sub : list pointer) (w w' : world) : Prop := {
  si_nodup : NoDup (present sub);
  si_none : forall j, sub !! j = Some None -> group route ks j = [];
  si_frag : forall j a, sub !! j = Some (Some a) -> w_msgs w !! a = None /\ group route ks j <> [] /\
    exists y, w_msgs w' !! a = Some y /\ mhdr_data (m_mhdr y) = resp (command (type (m_regs x)) :: group route ks j) /\
      msg_keys y (group route ks j) /\ type (m_regs y) = type (m_regs x) /\ m_owner y = m_owner x /\ m_request y = true /\ m_redis y = true /\
      m_frag_owner y = Some r /\ Some (m_frag_id y) = m_frag_id <$> w_msgs w' !! r;
  si_vector : exists x' fs, w_msgs w' !! r = Some x' /\ m_frag_seq x' = Some fs /\ zlen fs = zlen ks /\ m_frag_owner x' = Some r /\
    m_nfrag x' = zlen (present sub) /\
    (forall i k, ks !! i = Some k -> exists a, fs !! i = Some (Some a) /\ sub !! Z.to_nat (route k) = Some (Some a));
  si_frame : forall a, a <> r -> a ∉ present sub -> w_msgs w' !! a = w_msgs w !! a
}.

(** A fragment with its header. *)
Lemma headed_frag c xr x x' g :
  frag_ok c x g -> headed xr x x' -> type (m_regs xr) = MSG_REQ_REDIS_MGET \/ type (m_regs xr) = MSG_REQ_REDIS_DEL -> zlen g < 2 ^ 28 ->
  mhdr_data (m_mhdr x') = resp (command (type (m_regs xr)) :: g) /\ msg_keys x' g /\ m_owner x' = c /\ m_request x' = true /\ m_redis x' = true.
Proof.
  intros [F1 F2 F3 F4 (x0 & F5 & F6)] [(s & Hs & Hd) Hg Ht Hk Hi Hf Ho Hp] HT Hz. destruct (fragment_header_resp _ g HT Hz) as (s' & Hs' & _ & Er).
  rewrite F4, Hs' in Hs. injection Hs as <-. destruct F5 as (id & ts & t & ->).
  injection Hp as -> ->. rewrite Ho. split_and!.
  - by rewrite Hd, F1.
  - destruct F2 as (kps & Hrel & Hall). exists kps. rewrite Hk. split; [done|]. eapply List.Forall2_impl; [|exact Hall]. intros kp k. by apply key_at_grows.
  - by apply (f_equal m_owner) in F6.
  - by apply (f_equal m_request) in F6.
  - by apply (f_equal m_redis) in F6.
Qed.

(** The fragments after their headers. *)
Lemma split_into_heads C w w' r x x1 c route ks fs sub M M' :
  msgs_at C M' w' -> w_msgs w !! r = Some x -> type (m_regs x1) = type (m_regs x) -> m_owner x = Some c -> m_frag_owner x1 = Some r -> m_nfrag x1 = 0 ->
  type (m_regs x) = MSG_REQ_REDIS_MGET \/ type (m_regs x) = MSG_REQ_REDIS_DEL -> zlen ks < 2 ^ 28 -> (forall k, k ∈ ks -> 0 <= route k) ->
  spread (w_msgs w) r x1 c route (zlen ks) ks fs sub M -> used route ks sub ->
  M' !! r = Some (m_set_nfrag (zlen (present sub)) (m_set_frag_seq (Some fs) x1)) ->
  (forall a, Some a ∈ sub -> exists y y', M !! a = Some y /\ M' !! a = Some y' /\ headed (m_set_frag_seq (Some fs) x1) y y') ->
  (forall a, a <> r -> Some a ∉ sub -> M' !! a = M !! a) ->
  split_into route r x ks sub w w'.
Proof.
  intros (_ & <- & _) Hx Et Ho Hfo Hn HT Hz Hroute [S1 S2 S3 S4 S5 S6 S7] Hu E1 E2 E3. constructor.
  - by apply present_nodup.
  - done.
  - intros j a Hj. destruct (S5 _ _ Hj) as (Har & Ha & y & Hy & Fy). split; [done|]. split; [by eapply Hu|].
    destruct (E2 a) as (y0 & y' & Hy0 & Hy' & Hh); [by eapply list_elem_of_lookup_2|]. simplify_eq. exists y'. split; [done|].
    assert (zlen (group route ks j) < 2 ^ 28) by (unfold zlen, group in *; pose proof (list.length_filter (λ k0, route k0 = Z.of_nat j) ks); lia).
    destruct (headed_frag _ _ _ _ _ Fy Hh) as (D1 & D2 & D3 & D4 & D5); [simpl; by rewrite Et|done|]. destruct Hh as [_ _ H1 _ H2 H3 _ _]. simpl in *.
    rewrite Et in *. rewrite E1, Ho. split_and!; try done; [by rewrite H3|simpl; by rewrite H2].
  - eexists _, fs. split; [exact E1|]. split_and!; try done. intros i k Hk. destruct (S3 i k Hk) as (p & Hp1 & Hp2). destruct p as [a|]; [by exists a|].
    destruct (group_elem route ks i k); [done|by eapply Hroute, list_elem_of_lookup_2|by apply S4].
  - intros a Hne Hnot. rewrite elem_of_present in Hnot. rewrite E3 by done. by apply S7.
Qed.

(** C2. Splitting MGET or DEL.  When allocations succeed and every key of
    the request [r] goes to a server below [nc], the size of the table,
    redis_fragment succeeds with one fragment for every server that has keys
    and none for the others: a new request of the same client that asks the
    server, under the same command, for exactly its keys in the order of the
    request.  frag_seq gives for every key of [r] the fragment of its server,
    the fragments share the id and owner of the vector, which counts them, and
    no other message is touched. *)
Theorem redis_fragment_splits `{env : Env} r x b h p ks c xc pi pl route nc w :
  (forall n z, ev_ok n z = true) -> store_ok w -> 24 <= cap w < 2 ^ 31 -> 0 <= nc < 2 ^ 32 ->
  w_msgs w !! r = Some x -> m_owner x = Some c -> m_request x = true -> m_redis x = true ->
  type (m_regs x) = MSG_REQ_REDIS_MGET \/ type (m_regs x) = MSG_REQ_REDIS_DEL ->
  m_mhdr x = b :: h -> skip_header b = Some p -> 0 <= p <= mb_last b -> msg_keys x ks -> 2 <= zlen ks < 2 ^ 28 ->
  w_conns w !! c = Some xc -> c_owner xc = OwnPool pi -> w_pools w !! pi = Some pl ->
  (forall k, k ∈ ks -> zlen k <= cap w /\ 0 <= route k < nc /\ forall rnd, server_pool_idx (pl_key_hash pl) rnd (pl_core pl) k = Some (route k)) ->
  exists sub w', redis_fragment (Some r) nc w = Some ((NC_OK, present sub), w') /\ zlen sub = nc /\ split_into route r x ks sub w w'.
Proof.
  intros Hal Hok Hcap Hnc Hx Ho Hrq Hrd HT Eh Hs Hp Hk Hz Hc Hcp Hpl Hks.
  enough (runs (redis_fragment (Some r) nc) w (fun res w' => exists sub, res = (NC_OK, present sub) /\ zlen sub = nc /\ split_into route r x ks sub w w')) as H.
  { unfold runs in H. destruct (redis_fragment _ _ _) as [[res w']|]; [|done]. destruct H as (sub & -> & ?). by exists sub, w'. }
  unfold redis_fragment, nkeys, msg_type_of. run_w. rewrite (msg_keys_n _ _ Hk). destruct (Z.eqb_spec (zlen ks) 1); [lia|]. run_w.
  assert (msg_type_eqb (type (m_regs x)) MSG_REQ_REDIS_MGET || msg_type_eqb (type (m_regs x)) MSG_REQ_REDIS_DEL = true) as -> by (by destruct HT as [-> | ->]).
  eapply (run_vector Hal); try done. intros fid w1 H1 Ec Ep.
  assert (Hlen : zlen (replicate (Z.to_nat nc) (None : pointer)) = nc) by (unfold zlen; rewrite length_replicate; lia).
  set (x1 := vector r fid (zlen ks) p b h x) in *. assert (Hlk : Z.to_nat (zlen ks) = length ks) by apply Nat2Z.id.
  rewrite Hlk. eapply runs_mono.
  { eapply (run_fragment_keys Hal (cap w) (w_msgs w) r x1 c route (zlen ks) (conj Ho (conj Hrq Hrd)) ks []
      (replicate (Z.to_nat (zlen ks)) None) _ _ w1 xc pi pl H1); try done; [| |by apply vector_keys|lia|lia| |by rewrite Ec|by rewrite Ep|].
    - apply spread_nil; [by rewrite lookup_insert_eq|lia|]. intros a Ha. by rewrite lookup_insert_ne.
    - intros j a Hj. by apply lookup_replicate in Hj as [[=] _].
    - intros k Hin. rewrite Hlen. destruct (Hks k Hin) as (? & ? & _). lia.
    - intros k rnd Hin. by apply Hks. }
  intros res w2 (fs & sub & M2 & -> & H2 & S2 & U2 & L2). simpl. pose proof S2 as [Sr _ _ _ Sf Si _]. unfold zlen in Hlen. rewrite <- L2 in Hlen.
  pose proof (present_length sub). eapply runs_mono.
  { eapply (run_fragment_heads Hal (cap w) r sub [] M2); try done; [lia|by apply present_nodup|change (0 + zlen (present sub) < 2 ^ 32); unfold zlen in *; lia|].
    intros a Ha. apply list_elem_of_lookup in Ha as [j Hj]. destruct (Sf _ _ Hj) as (? & _ & y & Hy & Fy). split; [done|]. exists y, (group route ks j).
    split_and!; [done|by apply Fy|]. unfold zlen, group in *; pose proof (list.length_filter (λ k0, route k0 = Z.of_nat j) ks); lia. }
  intros res w3 (M3 & -> & H3 & E1 & E2 & E3). exists sub. split_and!; [done|done|]. eapply (split_into_heads (cap w) w w3 r x x1); try done; [lia|].
  intros k Hin. by apply Hks.
Qed.

(** MGET a b, whose keys go to the servers 1 and 0. *)
Definition w_mget : world := let _ := calm [] 0 in after (c ← new_client; receive c sample_mget) (sample_world []).
Definition mget_route (k : list Z) : Z := if decide (k = [97]) then 1 else 0.

Lemma redis_fragment_splits_witness : exists sub w', redis_fragment (env := calm [] 0) (Some sample_msg) 2 w_mget = Some ((NC_OK, present sub), w') /\ length sub = 2%nat.
Proof.
  destruct (w_msgs w_mget !! sample_msg) as [x|] eqn:Hm; [|by vm_compute in Hm].
  destruct (w_conns w_mget !! sample_conn) as [xc|] eqn:Hc; [|by vm_compute in Hc].
  destruct (w_pools w_mget !! 0%nat) as [pl|] eqn:Hp; [|by vm_compute in Hp].
  destruct (m_mhdr x) as [|b h] eqn:Eh; [vm_compute in Hm; injection Hm as <-; by vm_compute in Eh|].
  assert (Hcap : cap w_mget = 464) by (vm_compute; reflexivity).
  assert (Hks : msg_keys x [[97]; [98]]).
  { exists [mk_keypos (mk_ptr 4 18) (mk_ptr 4 19); mk_keypos (mk_ptr 4 25) (mk_ptr 4 26)]. vm_compute in Hm. injection Hm as <-.
    split; [split; [constructor; vm_compute; split; congruence|reflexivity]|].
    repeat constructor; (eexists; split; [left|]; vm_compute; repeat split; congruence). }
  assert (Hx : m_owner x = Some sample_conn /\ m_request x = true /\ m_redis x = true /\ type (m_regs x) = MSG_REQ_REDIS_MGET)
    by (vm_compute in Hm; injection Hm as <-; vm_compute; repeat split).
  destruct Hx as (Ho & Hrq & Hrd & Ht).
  assert (Hb : skip_header b = Some 14 /\ mb_last b = 28)
    by (vm_compute in Hm; injection Hm as <-; injection Eh as <- _; vm_compute; split; reflexivity).
  destruct Hb as [Hsk Hlast].
  assert (Hco : c_owner xc = OwnPool 0) by (vm_compute in Hc; injection Hc as <-; reflexivity).
  assert (Hidx : forall rnd, server_pool_idx (pl_key_hash pl) rnd (pl_core pl) [97] = Some 1 /\ server_pool_idx (pl_key_hash pl) rnd (pl_core pl) [98] = Some 0)
    by (intros rnd; vm_compute in Hp; injection Hp as <-; vm_compute; split; reflexivity).
  destruct (redis_fragment_splits (env := calm [] 0) sample_msg x b h 14 [[97]; [98]] sample_conn xc 0 pl mget_route 2 w_mget) as (sub & w' & Hr & Hl & _).
  all: try assumption.
  - intros. reflexivity.
  - apply store_okb_ok. vm_compute. reflexivity.
  - rewrite Hcap. lia.
  - lia.
  - left. exact Ht.
  - rewrite Hlast. lia.
  - vm_compute. split; congruence.
  - intros k Hk. rewrite Hcap. apply elem_of_cons in Hk as [-> |Hk]; [|apply list_elem_of_singleton in Hk as ->]; (split; [vm_compute; congruence|]);
      (split; [vm_compute; split; congruence|]); intros rnd; apply Hidx.
  - exists sub, w'. split; [exact Hr|]. unfold zlen in Hl. lia.
Defined.
