(* ===== verification/CString.v ===== *)
(** Counted strings, numbers and the signal-safe printf: nc_string.[ch] and
    the number functions of nc_util.c.

    A block of characters is a list of bytes and a pointer into it an offset;
    reading or writing outside of it is [None].  The varargs of a printf are a
    list of typed arguments, and fetching one of another type is [None]. *)

From S2P Require Import Prelude.

(** ** Strings *)

Record cstr := mk_cstr {
  str_len : Z;                   (* uint32_t *)
  str_data : option (list Z)     (* the block, NULL if [None] *)
}.

Definition null_string : cstr := mk_cstr 0 None.

(** A text with its terminator: the macro string and string_set_text. *)
Definition string_text (text : list Z) : cstr := mk_cstr (zlen text) (Some (text ++ [0])).

Definition string_init : cstr := null_string.
Definition string_deinit (str : cstr) : cstr :=
  match str_data str with Some _ => string_init | None => str end.
Definition string_empty (str : cstr) : bool := str_len str =? 0.

(** The bytes [str_len] counts. *)
Definition text_of (s : cstr) : list Z := match str_data s with Some d => take (Z.to_nat (str_len s)) d | None => [] end.

(** strndup(3): at most [n] bytes up to a NUL, and a terminator. *)
Fixpoint strndup (src : list Z) (n : nat) {struct n} : option (list Z) :=
  match n with
  | O => Some [0]
  | S n' =>
      match src with
      | [] => None
      | ch :: src' => if ch =? 0 then Some [0] else (ch ::.) <$> strndup src' n'
      end
  end.

(** string_copy of the [srclen] bytes at [src]; [ok] tells whether memory is
    available.  The status and [dst] after the call. *)
Definition string_copy (ok : bool) (dst : cstr) (src : list Z) (srclen : Z) : option (Z * cstr) :=
  match strndup src (Z.to_nat (u32 (srclen + 1))) with
  | None => None
  | Some data =>
      if negb ok then Some (NC_ENOMEM, mk_cstr (str_len dst) None)
      else if srclen <? zlen data then Some (NC_OK, mk_cstr srclen (Some (blit data srclen [0])))
      else None
  end.

(** The block of a string that has one. *)
Definition string_duplicate (ok : bool) (dst src : cstr) : option (Z * cstr) :=
  match str_data src with
  | None => None
  | Some d => string_copy ok dst d (str_len src)
  end.

(** strncmp(3). *)
Fixpoint strncmp (s1 s2 : list Z) (n : nat) {struct n} : option Z :=
  match n with
  | O => Some 0
  | S n' =>
      match s1, s2 with
      | c1 :: s1', c2 :: s2' =>
          if negb (c1 =? c2) then Some (c1 - c2) else if c1 =? 0 then Some 0 else strncmp s1' s2' n'
      | _, _ => None
      end
  end.

Definition string_compare (s1 s2 : cstr) : option Z :=
  if negb (str_len s1 =? str_len s2) then Some (if str_len s2 <? str_len s1 then 1 else -1)
  else if str_len s1 =? 0 then Some 0
  else
    match str_data s1, str_data s2 with
    | Some d1, Some d2 => strncmp d1 d2 (Z.to_nat (str_len s1))
    | _, _ => None
    end.

(** _nc_strrchr from [start + n - 1] down to [start]: the offset found. *)
Fixpoint strrchr_from (d : list Z) (start : Z) (n : nat) (ch : Z) : option (option Z) :=
  match n with
  | O => Some None
  | S n' =>
      match rd d (start + Z.of_nat n') with
      | None => None
      | Some x => if x =? ch then Some (Some (start + Z.of_nat n')) else strrchr_from d start n' ch
      end
  end.
Definition nc_strrchr (d : list Z) (p start ch : Z) : option (option Z) :=
  strrchr_from d start (Z.to_nat (p - start + 1)) ch.

(** ** Numbers *)

Definition UINT16_MAX : Z := 65535.

(** The loop of _nc_atoi over [n] bytes at [line]; [None] for -1. *)
Fixpoint atoi_loop (d : list Z) (line : Z) (n : nat) (value : Z) : option (option Z) :=
  match n with
  | O => Some (Some value)
  | S n' =>
      match rd d line with
      | None => None
      | Some ch =>
          if (ch <? 48) || (57 <? ch) then Some None
          else atoi_loop d (line + 1) n' (s32 (value * 10 + (ch - 48)))
      end
  end.

Definition nc_atoi (d : list Z) (line n : Z) : option Z :=
  if n =? 0 then Some (-1)
  else
    match atoi_loop d line (Z.to_nat n) 0 with
    | None => None
    | Some None => Some (-1)
    | Some (Some value) => Some (if value <? 0 then -1 else value)
    end.

Definition nc_valid_port (n : Z) : bool := negb ((n <? 1) || (UINT16_MAX <? n)).

(** ** The signal-safe printf *)

Definition hex_digit (i : Z) : option Z := rd (bytes_of "0123456789abcdef") i.

(** *p = ch *)
Definition put_char (b : list Z) (p ch : Z) : option (list Z) :=
  if (0 <=? p) && (p <? zlen b) then Some (<[Z.to_nat p := ch]> b) else None.

(** do *buf-- = hex[val % base]; while ((val /= base) != 0); C division and
    remainder. *)
Fixpoint put_digits (fuel : nat) (base val : Z) (b : list Z) (p : Z) : option (list Z * Z) :=
  match fuel with
  | O => None
  | S fuel' =>
      match hex_digit (Z.rem val base) with
      | None => None
      | Some ch =>
          match put_char b p ch with
          | None => None
          | Some b =>
              let val := Z.quot val base in
              if negb (val =? 0) then put_digits fuel' base val b (p - 1) else Some (b, p - 1)
          end
      end
  end.

(** A 64-bit number has at most 20 digits in base 10 and 16. *)
Definition digits_fuel : nat := 20.

(** The buffer and the offset of the first digit. *)
Definition _safe_utoa (base val : Z) (b : list Z) (buf : Z) : option (list Z * Z) :=
  match put_char b buf 0 with
  | None => None
  | Some b =>
      match put_digits digits_fuel base val b (buf - 1) with
      | None => None
      | Some (b, p) => Some (b, p + 1)
      end
  end.

(** for (ix = 0; ix < 16; ++ix) buf[-ix] = '0'; *)
Fixpoint put_zeros (n : nat) (b : list Z) (p : Z) : option (list Z) :=
  match n with
  | O => Some b
  | S n' => match put_char b p 48 with None => None | Some b => put_zeros n' b (p - 1) end
  end.

(** The switch: the complement of a hexadecimal digit. *)
Definition flip_digit (ch : Z) : Z :=
  if (48 <=? ch) && (ch <=? 53) then 150 - ch
  else if (54 <=? ch) && (ch <=? 57) then 111 - ch
  else if (97 <=? ch) && (ch <=? 102) then 150 - ch
  else ch.

(** for (ix = 0; ix < 16; ++ix, --buf) switch ( *buf ) ... *)
Fixpoint flip_digits (n : nat) (b : list Z) (p : Z) : option (list Z * Z) :=
  match n with
  | O => Some (b, p)
  | S n' =>
      match rd b p with
      | None => None
      | Some ch => match put_char b p (flip_digit ch) with None => None | Some b => flip_digits n' b (p - 1) end
      end
  end.

Definition s64 (z : Z) : Z := swrap 64 z.

Definition _safe_itoa (base val : Z) (b : list Z) (orig_buf : Z) : option (list Z * Z) :=
  let is_neg := val <? 0 in
  match put_char b orig_buf 0 with
  | None => None
  | Some b =>
      let val := if is_neg then s64 (- val) else val in
      let neg16 := is_neg && (base =? 16) in
      let val := if neg16 then s64 (val - 1) else val in
      match (if neg16 then put_zeros 16 b (orig_buf - 1) else Some b) with
      | None => None
      | Some b =>
          match put_digits digits_fuel base val b (orig_buf - 1) with
          | None => None
          | Some (b, p) =>
              match (if is_neg && (base =? 10) then (fun b => (b, p - 1)) <$> put_char b p 45 else Some (b, p)) with
              | None => None
              | Some (b, p) =>
                  match (if neg16 then flip_digits 16 b (orig_buf - 1) else Some (b, p)) with
                  | None => None
                  | Some (b, p) => Some (b, p + 1)
                  end
              end
          end
      end
  end.

(** The arguments behind an ellipsis: int32_t or uint32_t, int64_t or
    uint64_t or a pointer, and strings without their terminator. *)
Inductive vararg := Arg32 (z : Z) | Arg64 (z : Z) | ArgStr (s : option (list Z)).

(** The format after the length modifiers, and have_longlong. *)
Definition _safe_check_longlong (fmt : list Z) : option (list Z * bool) :=
  match fmt with
  | [] => None
  | ch :: fmt' =>
      if ch =? 108 then
        match fmt' with
        | [] => None
        | ch' :: fmt'' => if negb (ch' =? 108) then Some (fmt', true) else Some (fmt'', true)
        end
      else Some (fmt, false)
  end.

(** while ( *val && to < end) *to++ = *val++; for a text without NUL. *)
Fixpoint put_text (s : list Z) (b : list Z) (to last : Z) : option (list Z * Z) :=
  match s with
  | [] => Some (b, to)
  | ch :: s' =>
      if to <? last then match put_char b to ch with None => None | Some b => put_text s' b (to + 1) last end
      else Some (b, to)
  end.

(** The text up to its terminator. *)
Fixpoint cstring_at (b : list Z) : option (list Z) :=
  match b with
  | [] => None
  | ch :: b' => if ch =? 0 then Some [] else (ch ::.) <$> cstring_at b'
  end.

Section Printf.

(** What the 22 bytes of buff hold on entry. *)
Variable buff : list Z.

Definition is_int_conv (ch : Z) : bool :=
  (ch =? 100) || (ch =? 105) || (ch =? 117) || (ch =? 120) || (ch =? 112).

(** va_arg: the unsigned or signed value of an integer argument. *)
Definition va_int (unsigned longlong : bool) (args : list vararg) : option (Z * list vararg) :=
  match args with
  | Arg32 z :: args' => if longlong then None else Some (if unsigned then u32 z else s32 z, args')
  | Arg64 z :: args' => if longlong then Some (if unsigned then u64 z else s64 z, args') else None
  | _ => None
  end.

(** The digits of an integer conversion. *)
Definition int_text (conv : Z) (longlong : bool) (v : Z) : option (list Z) :=
  let base := if (conv =? 120) || (conv =? 112) then 16 else 10 in
  match (if conv =? 117 then _safe_utoa base v buff 21 else _safe_itoa base v buff 21) with
  | None => None
  | Some (b, p) =>
      let p := if (conv =? 120) && negb longlong && (v <? 0) then p + 8 else p in
      if 0 <=? p then cstring_at (drop (Z.to_nat p) b) else None
  end.

(** Where the value is u, ival is 0; where it is not, uval is. *)
Definition conv_longlong (conv : Z) (longlong : bool) : bool := if conv =? 112 then true else longlong.

(** The loop over the format: the buffer and the end of what was written. *)
Fixpoint safe_format (fuel : nat) (format : list Z) (args : list vararg) (b : list Z) (to last : Z) : option (list Z * Z) :=
  match fuel with
  | O => None
  | S fuel' =>
      match format with
      | [] => None
      | ch :: format =>
          if ch =? 0 then Some (b, to)
          else if negb (ch =? 37) then
            if to =? last then Some (b, to)
            else match put_char b to ch with None => None | Some b => safe_format fuel' format args b (to + 1) last end
          else
            match _safe_check_longlong format with
            | None | Some ([], _) => None
            | Some (conv :: format, longlong) =>
                if is_int_conv conv then
                  let longlong := conv_longlong conv longlong in
                  match va_int (conv =? 117) longlong args with
                  | None => None
                  | Some (v, args) =>
                      match int_text conv longlong v with
                      | None => None
                      | Some s => match put_text s b to last with None => None | Some (b, to) => safe_format fuel' format args b to last end
                      end
                  end
                else if conv =? 115 then
                  match args with
                  | ArgStr s :: args =>
                      match put_text (default (bytes_of "(null)") s) b to last with
                      | None => None
                      | Some (b, to) => safe_format fuel' format args b to last
                      end
                  | _ => None
                  end
                else safe_format fuel' format args b to last
            end
      end
  end.

(** The value returned and the buffer; [size] is the size the caller states. *)
Definition _safe_vsnprintf (b : list Z) (size : Z) (format : list Z) (args : list vararg) : option (Z * list Z) :=
  match safe_format (length format) format args b 0 (size - 1) with
  | None => None
  | Some (b, to) => match put_char b to 0 with None => None | Some b => Some (to, b) end
  end.

Definition _safe_snprintf (b : list Z) (n : Z) (fmt : list Z) (args : list vararg) : option (Z * list Z) :=
  _safe_vsnprintf b n fmt args.

End Printf.

(** ** Facts on strings *)

(** [s] holds the bytes [l]. *)
Definition str_is (s : cstr) (l : list Z) : Prop :=
  str_len s = zlen l /\ exists rest, str_data s = Some (l ++ 0 :: rest).

Lemma str_is_text l : str_is (string_text l) l.
Proof. split; [done|]. by exists []. Qed.

Lemma text_of_is s l : str_is s l -> text_of s = l.
Proof. intros [E [rest D]]. unfold text_of. rewrite D, E. unfold zlen. by rewrite Nat2Z.id, take_app_length. Qed.

Lemma strndup_take src n : 0 ∉ take n src -> (n <= length src)%nat -> strndup src n = Some (take n src ++ [0]).
Proof.
  revert src. induction n as [|n IH]; intros src Hn Hl; [done|]. destruct src as [|ch src]; [simpl in Hl; lia|]. simpl in *.
  apply not_elem_of_cons in Hn as [Hne Hn]. destruct (Z.eqb_spec ch 0); [congruence|]. by rewrite IH by (done || lia).
Qed.

Lemma strndup_stop l rest n : 0 ∉ l -> (length l < n)%nat -> strndup (l ++ 0 :: rest) n = Some (l ++ [0]).
Proof.
  revert n. induction l as [|ch l IH]; intros n Hn Hl; (destruct n as [|n]; [simpl in Hl; lia|]); simpl in *; [done|].
  apply not_elem_of_cons in Hn as [Hne Hn]. destruct (Z.eqb_spec ch 0); [congruence|]. by rewrite IH by (done || lia).
Qed.

(** Copying [l], which has no NUL and is followed by a byte of its block. *)
Lemma string_copy_spec dst l ch rest :
  0 ∉ l -> zlen l < 2 ^ 32 - 1 -> exists s, string_copy true dst (l ++ ch :: rest) (zlen l) = Some (NC_OK, s) /\ str_is s l.
Proof.
  intros Hl Hz. unfold string_copy. rewrite u32_small by (unfold is_u32; pose proof (zlen_nonneg l); lia).
  assert (Hn : Z.to_nat (zlen l + 1) = S (length l)) by (unfold zlen; lia). rewrite Hn.
  assert (exists t, strndup (l ++ ch :: rest) (S (length l)) = Some (l ++ t ++ [0])) as [t ->].
  { destruct (decide (ch = 0)) as [-> |Hc]; [exists []; apply strndup_stop; [done|lia]|]. exists [ch]. rewrite strndup_take.
    - rewrite take_S_r with (x := ch); [by rewrite take_app_length, <- app_assoc|]. by apply list_lookup_middle.
    - rewrite take_S_r with (x := ch) by (by apply list_lookup_middle). rewrite take_app_length. rewrite elem_of_app, list_elem_of_singleton. by intros [?|<-].
    - rewrite length_app. simpl. lia. }
  simpl. destruct (Z.ltb_spec (zlen l) (zlen (l ++ t ++ [0]))) as [_|H]; [|rewrite !zlen_app in H; pose proof (zlen_nonneg t); change (zlen [0]) with 1 in H; lia].
  eexists. split; [done|]. split; [done|]. simpl. unfold blit, zlen. rewrite Nat2Z.id, take_app_length.
  exists (drop (length l + 1) (l ++ t ++ [0])). done.
Qed.

Lemma strncmp_self l t1 t2 n : (n <= length l)%nat -> strncmp (l ++ t1) (l ++ t2) n = Some 0.
Proof.
  revert l. induction n as [|n IH]; intros l Hl; [done|]. destruct l as [|ch l]; simpl in *; [lia|].
  rewrite Z.eqb_refl. simpl. destruct (ch =? 0); [done|]. apply IH. lia.
Qed.

Lemma strncmp_neq l1 l2 t1 t2 :
  length l1 = length l2 -> 0 ∉ l1 -> l1 <> l2 -> exists c, strncmp (l1 ++ t1) (l2 ++ t2) (length l1) = Some c /\ c <> 0.
Proof.
  revert l2. induction l1 as [|c1 l1 IH]; intros [|c2 l2] Hl Hn Hne; try done. simpl in *. apply not_elem_of_cons in Hn as [Hc Hn].
  destruct (Z.eqb_spec c1 c2) as [-> |]; simpl; [|exists (c1 - c2); split; [done|lia]].
  destruct (Z.eqb_spec c2 0); [congruence|]. apply IH; [lia|done|congruence].
Qed.

(** string_compare is 0 on equal strings only. *)
Lemma string_compare_spec s1 s2 l1 l2 :
  str_is s1 l1 -> str_is s2 l2 -> 0 ∉ l1 -> exists c, string_compare s1 s2 = Some c /\ (c = 0 <-> l1 = l2).
Proof.
  intros [E1 [t1 D1]] [E2 [t2 D2]] Hn. unfold string_compare. rewrite E1, E2, D1, D2.
  destruct (Z.eqb_spec (zlen l1) (zlen l2)) as [E|E]; simpl.
  2:{ eexists. split; [done|]. split; [destruct (_ <? _); lia|by intros ->]. }
  assert (Hlen : length l1 = length l2) by (unfold zlen in E; lia).
  destruct (Z.eqb_spec (zlen l1) 0) as [E0|_]; [exists 0; split; [done|]; by destruct l1, l2|]. unfold zlen at 1. rewrite Nat2Z.id.
  destruct (decide (l1 = l2)) as [<- |Hne]; [exists 0; split; [by apply strncmp_self|done]|].
  destruct (strncmp_neq l1 l2 (0 :: t1) (0 :: t2) Hlen Hn Hne) as (c & Hc & ?). by exists c.
Qed.

(** The last [ch] before the end of [a ++ ch :: b]. *)
Lemma nc_strrchr_found a ch b rest : ch ∉ b -> nc_strrchr (a ++ ch :: b ++ rest) (zlen a + zlen b) 0 ch = Some (Some (zlen a)).
Proof.
  intros Hb. unfold nc_strrchr, zlen. replace (Z.to_nat _) with (length a + S (length b))%nat by lia.
  assert (H : forall n, (n <= length b)%nat -> strrchr_from (a ++ ch :: b ++ rest) 0 (length a + S n) ch = Some (Some (Z.of_nat (length a)))); [|by apply H].
  intros n. induction n as [|n IH]; intros Hn; rewrite Nat.add_succ_r; cbn [strrchr_from]; rewrite Z.add_0_l.
  - unfold rd. destruct (Z.leb_spec 0 (Z.of_nat (length a + 0))); [|lia]. rewrite Nat2Z.id, Nat.add_0_r, list_lookup_middle by done. by rewrite Z.eqb_refl.
  - destruct (lookup_lt_is_Some_2 b n) as [x Hx]; [lia|].
    assert (rd (a ++ ch :: b ++ rest) (Z.of_nat (length a + S n)) = Some x) as ->.
    { rewrite rd_app_r by (unfold zlen; lia). unfold rd, zlen. destruct (Z.leb_spec 0 (Z.of_nat (length a + S n) - Z.of_nat (length a))); [|lia].
      replace (Z.to_nat _) with (S n) by lia. simpl. by rewrite lookup_app_l by lia. }
    destruct (Z.eqb_spec x ch) as [-> |]; [by apply list_elem_of_lookup_2 in Hx|]. apply IH. lia.
Qed.

Lemma nc_strrchr_none a rest ch : ch ∉ a -> nc_strrchr (a ++ rest) (zlen a - 1) 0 ch = Some None.
Proof.
  intros Ha. unfold nc_strrchr, zlen. replace (Z.to_nat _) with (length a) by lia.
  assert (H : forall n, (n <= length a)%nat -> strrchr_from (a ++ rest) 0 n ch = Some None); [|by apply H].
  intros n. induction n as [|n IH]; intros Hn; [done|]. cbn [strrchr_from]. rewrite Z.add_0_l.
  destruct (lookup_lt_is_Some_2 a n) as [x Hx]; [lia|]. unfold rd. destruct (Z.leb_spec 0 (Z.of_nat n)); [|lia].
  rewrite Nat2Z.id, lookup_app_l, Hx by lia. destruct (Z.eqb_spec x ch) as [-> |]; [by apply list_elem_of_lookup_2 in Hx|]. apply IH. lia.
Qed.

(** ** Facts on numbers *)

Lemma s32_u32 z : s32 (u32 z) = s32 z.
Proof. unfold s32, swrap, u32, wrap. change (32 - 1) with 31. f_equal. apply Zplus_mod_idemp_l. Qed.

Lemma s32_range z : - 2 ^ 31 <= s32 z < 2 ^ 31.
Proof. unfold s32, swrap. change (32 - 1) with 31. pose proof (Z.mod_pos_bound (z + 2 ^ 31) (2 ^ 32)). lia. Qed.

Lemma s32_small z : - 2 ^ 31 <= z < 2 ^ 31 -> s32 z = z.
Proof. intros. unfold s32, swrap. change (32 - 1) with 31. rewrite Z.mod_small; lia. Qed.

Lemma atoi_loop_digits a l rest v :
  Forall (fun ch => isdigit ch = true) l ->
  atoi_loop (a ++ l ++ rest) (zlen a) (length l) v = Some (Some (fold_left (fun x ch => s32 (x * 10 + (ch - 48))) l v)).
Proof.
  revert a v. induction l as [|ch l IH]; intros a v Hl; [done|]. apply Forall_cons_iff in Hl as [Hc Hl]. simpl.
  rewrite rd_app_r, Z.sub_diag by lia. simpl. unfold isdigit in Hc. b2p. zcase. simpl.
  specialize (IH (a ++ [ch]) (s32 (v * 10 + (ch - 48))) Hl). rewrite <- app_assoc, zlen_app in IH. exact IH.
Qed.

Lemma s32_fold l x : s32 (fold_left (fun x ch => s32 (x * 10 + (ch - 48))) l x) = s32 (fold_left (fun x ch => u32 (x * 10 + (ch - 48))) l (u32 x)).
Proof.
  revert x. induction l as [|ch l IH]; intros x; simpl; [by rewrite s32_u32|]. rewrite IH. do 2 f_equal.
  unfold s32, swrap, u32, wrap. change (2 ^ (32 - 1)) with (2 ^ 31).
  rewrite Zminus_mod, Z.mod_mod by lia. rewrite <- Zminus_mod. replace (x * 10 + (ch - 48) + 2 ^ 31 - 2 ^ 31) with (x * 10 + (ch - 48)) by lia.
  rewrite <- (Zplus_mod_idemp_l (x mod 2 ^ 32 * 10)), Zmult_mod_idemp_l, Zplus_mod_idemp_l. done.
Qed.

(** nc_atoi reads back a number that fits an int. *)
Lemma nc_atoi_dec a n rest : 0 <= n < 2 ^ 31 -> nc_atoi (a ++ dec n ++ rest) (zlen a) (zlen (dec n)) = Some n.
Proof.
  intros Hn. unfold nc_atoi. destruct (Z.eqb_spec (zlen (dec n)) 0) as [E|_]; [pose proof (dec_nonempty n); by destruct (dec n)|].
  unfold zlen at 2. rewrite Nat2Z.id, atoi_loop_digits by (apply dec_isdigit; lia).
  enough (fold_left (fun x ch => s32 (x * 10 + (ch - 48))) (dec n) 0 = n) as -> by (by destruct (Z.ltb_spec n 0); [lia|]).
  pose proof (s32_fold (dec n) 0) as Hf. rewrite u32_small, dec_value, (s32_small n) in Hf by (unfold is_u32; lia).
  etrans; [|exact Hf]. symmetry. apply s32_small. clear Hf. pose proof (dec_nonempty n) as Hne.
  destruct (dec n) as [|ch l _] using rev_ind; [done|]. rewrite fold_left_app. apply s32_range.
Qed.
