(* ===== verification/Conf.v ===== *)
(** The configuration: struct conf and its parts (nc_conf.h), and the
    directives (the handlers in nc_conf.c).

    The arrays are those of CArray.  libyaml, getaddrinfo(3), qsort(3) and
    malloc(3) are the fields of [ConfEnv]: libyaml as the documents, tokens
    and events it finds in the file.  A read of a NULL pointer, of a slot no
    element was stored in or outside a block faults. *)

From S2P Require Import Prelude CArray State CString.

(** ** Data *)

(** struct sockinfo: zeroed, a path or an address of getaddrinfo(3). *)
Inductive sockinfo := SockZero | SockUnix (path : list Z) | SockInet (sockaddr : list Z).

Record conf_listen := mk_clisten {
  cl_pname : cstr;
  cl_name : cstr;
  cl_port : Z;
  cl_perm : option Z;         (* [None] before it is first written *)
  cl_info : sockinfo;
  cl_valid : bool
}.

Record conf_server := mk_cserver {
  cs_pname : cstr;
  cs_name : cstr;
  cs_addrstr : cstr;
  cs_port : Z;
  cs_weight : Z;
  cs_info : sockinfo;
  cs_valid : bool
}.

Record conf_pool := mk_cpool {
  cp_name : cstr;
  cp_listen : conf_listen;
  cp_hash : Z;                (* index of hash_strings *)
  cp_hash_tag : cstr;
  cp_distribution : Z;        (* index of dist_strings *)
  cp_timeout : Z;
  cp_backlog : Z;
  cp_client_connections : Z;
  cp_tcpkeepalive : Z;
  cp_redis : Z;
  cp_redis_auth : cstr;
  cp_redis_db : Z;
  cp_preconnect : Z;
  cp_auto_eject_hosts : Z;
  cp_server_connections : Z;
  cp_server_retry_timeout : Z;
  cp_server_failure_limit : Z;
  cp_server : array conf_server;
  cp_valid : bool
}.

Definition cl_set_pname v (x : conf_listen) : conf_listen := mk_clisten v (cl_name x) (cl_port x) (cl_perm x)
  (cl_info x) (cl_valid x).
Definition cl_set_name v (x : conf_listen) : conf_listen := mk_clisten (cl_pname x) v (cl_port x) (cl_perm x)
  (cl_info x) (cl_valid x).
Definition cl_set_port v (x : conf_listen) : conf_listen := mk_clisten (cl_pname x) (cl_name x) v (cl_perm x)
  (cl_info x) (cl_valid x).
Definition cl_set_perm v (x : conf_listen) : conf_listen := mk_clisten (cl_pname x) (cl_name x) (cl_port x) v
  (cl_info x) (cl_valid x).
Definition cl_set_info v (x : conf_listen) : conf_listen := mk_clisten (cl_pname x) (cl_name x) (cl_port x)
  (cl_perm x) v (cl_valid x).
Definition cl_set_valid v (x : conf_listen) : conf_listen := mk_clisten (cl_pname x) (cl_name x) (cl_port x)
  (cl_perm x) (cl_info x) v.

Definition cs_set_pname v (x : conf_server) : conf_server := mk_cserver v (cs_name x) (cs_addrstr x) (cs_port
  x) (cs_weight x) (cs_info x) (cs_valid x).
Definition cs_set_name v (x : conf_server) : conf_server := mk_cserver (cs_pname x) v (cs_addrstr x) (cs_port
  x) (cs_weight x) (cs_info x) (cs_valid x).
Definition cs_set_addrstr v (x : conf_server) : conf_server := mk_cserver (cs_pname x) (cs_name x) v (cs_port
  x) (cs_weight x) (cs_info x) (cs_valid x).
Definition cs_set_port v (x : conf_server) : conf_server := mk_cserver (cs_pname x) (cs_name x) (cs_addrstr x)
  v (cs_weight x) (cs_info x) (cs_valid x).
Definition cs_set_weight v (x : conf_server) : conf_server := mk_cserver (cs_pname x) (cs_name x) (cs_addrstr
  x) (cs_port x) v (cs_info x) (cs_valid x).
Definition cs_set_info v (x : conf_server) : conf_server := mk_cserver (cs_pname x) (cs_name x) (cs_addrstr x)
  (cs_port x) (cs_weight x) v (cs_valid x).
Definition cs_set_valid v (x : conf_server) : conf_server := mk_cserver (cs_pname x) (cs_name x) (cs_addrstr
  x) (cs_port x) (cs_weight x) (cs_info x) v.

Definition cp_set_name v (x : conf_pool) : conf_pool := mk_cpool v (cp_listen x) (cp_hash x) (cp_hash_tag x)
  (cp_distribution x) (cp_timeout x) (cp_backlog x) (cp_client_connections x) (cp_tcpkeepalive x) (cp_redis x)
  (cp_redis_auth x) (cp_redis_db x) (cp_preconnect x) (cp_auto_eject_hosts x) (cp_server_connections x)
  (cp_server_retry_timeout x) (cp_server_failure_limit x) (cp_server x) (cp_valid x).
Definition cp_set_listen v (x : conf_pool) : conf_pool := mk_cpool (cp_name x) v (cp_hash x) (cp_hash_tag x)
  (cp_distribution x) (cp_timeout x) (cp_backlog x) (cp_client_connections x) (cp_tcpkeepalive x) (cp_redis x)
  (cp_redis_auth x) (cp_redis_db x) (cp_preconnect x) (cp_auto_eject_hosts x) (cp_server_connections x)
  (cp_server_retry_timeout x) (cp_server_failure_limit x) (cp_server x) (cp_valid x).
Definition cp_set_hash v (x : conf_pool) : conf_pool := mk_cpool (cp_name x) (cp_listen x) v (cp_hash_tag x)
  (cp_distribution x) (cp_timeout x) (cp_backlog x) (cp_client_connections x) (cp_tcpkeepalive x) (cp_redis x)
  (cp_redis_auth x) (cp_redis_db x) (cp_preconnect x) (cp_auto_eject_hosts x) (cp_server_connections x)
  (cp_server_retry_timeout x) (cp_server_failure_limit x) (cp_server x) (cp_valid x).
Definition cp_set_hash_tag v (x : conf_pool) : conf_pool := mk_cpool (cp_name x) (cp_listen x) (cp_hash x) v
  (cp_distribution x) (cp_timeout x) (cp_backlog x) (cp_client_connections x) (cp_tcpkeepalive x) (cp_redis x)
  (cp_redis_auth x) (cp_redis_db x) (cp_preconnect x) (cp_auto_eject_hosts x) (cp_server_connections x)
  (cp_server_retry_timeout x) (cp_server_failure_limit x) (cp_server x) (cp_valid x).
Definition cp_set_distribution v (x : conf_pool) : conf_pool := mk_cpool (cp_name x) (cp_listen x) (cp_hash x)
  (cp_hash_tag x) v (cp_timeout x) (cp_backlog x) (cp_client_connections x) (cp_tcpkeepalive x) (cp_redis x)
  (cp_redis_auth x) (cp_redis_db x) (cp_preconnect x) (cp_auto_eject_hosts x) (cp_server_connections x)
  (cp_server_retry_timeout x) (cp_server_failure_limit x) (cp_server x) (cp_valid x).
Definition cp_set_timeout v (x : conf_pool) : conf_pool := mk_cpool (cp_name x) (cp_listen x) (cp_hash x)
  (cp_hash_tag x) (cp_distribution x) v (cp_backlog x) (cp_client_connections x) (cp_tcpkeepalive x) (cp_redis
  x) (cp_redis_auth x) (cp_redis_db x) (cp_preconnect x) (cp_auto_eject_hosts x) (cp_server_connections x)
  (cp_server_retry_timeout x) (cp_server_failure_limit x) (cp_server x) (cp_valid x).
Definition cp_set_backlog v (x : conf_pool) : conf_pool := mk_cpool (cp_name x) (cp_listen x) (cp_hash x)
  (cp_hash_tag x) (cp_distribution x) (cp_timeout x) v (cp_client_connections x) (cp_tcpkeepalive x) (cp_redis
  x) (cp_redis_auth x) (cp_redis_db x) (cp_preconnect x) (cp_auto_eject_hosts x) (cp_server_connections x)
  (cp_server_retry_timeout x) (cp_server_failure_limit x) (cp_server x) (cp_valid x).
Definition cp_set_client_connections v (x : conf_pool) : conf_pool := mk_cpool (cp_name x) (cp_listen x)
  (cp_hash x) (cp_hash_tag x) (cp_distribution x) (cp_timeout x) (cp_backlog x) v (cp_tcpkeepalive x)
  (cp_redis x) (cp_redis_auth x) (cp_redis_db x) (cp_preconnect x) (cp_auto_eject_hosts x)
  (cp_server_connections x) (cp_server_retry_timeout x) (cp_server_failure_limit x) (cp_server x) (cp_valid
  x).
Definition cp_set_tcpkeepalive v (x : conf_pool) : conf_pool := mk_cpool (cp_name x) (cp_listen x) (cp_hash x)
  (cp_hash_tag x) (cp_distribution x) (cp_timeout x) (cp_backlog x) (cp_client_connections x) v (cp_redis x)
  (cp_redis_auth x) (cp_redis_db x) (cp_preconnect x) (cp_auto_eject_hosts x) (cp_server_connections x)
  (cp_server_retry_timeout x) (cp_server_failure_limit x) (cp_server x) (cp_valid x).
Definition cp_set_redis v (x : conf_pool) : conf_pool := mk_cpool (cp_name x) (cp_listen x) (cp_hash x)
  (cp_hash_tag x) (cp_distribution x) (cp_timeout x) (cp_backlog x) (cp_client_connections x) (cp_tcpkeepalive
  x) v (cp_redis_auth x) (cp_redis_db x) (cp_preconnect x) (cp_auto_eject_hosts x) (cp_server_connections x)
  (cp_server_retry_timeout x) (cp_server_failure_limit x) (cp_server x) (cp_valid x).
Definition cp_set_redis_auth v (x : conf_pool) : conf_pool := mk_cpool (cp_name x) (cp_listen x) (cp_hash x)
  (cp_hash_tag x) (cp_distribution x) (cp_timeout x) (cp_backlog x) (cp_client_connections x) (cp_tcpkeepalive
  x) (cp_redis x) v (cp_redis_db x) (cp_preconnect x) (cp_auto_eject_hosts x) (cp_server_connections x)
  (cp_server_retry_timeout x) (cp_server_failure_limit x) (cp_server x) (cp_valid x).
Definition cp_set_redis_db v (x : conf_pool) : conf_pool := mk_cpool (cp_name x) (cp_listen x) (cp_hash x)
  (cp_hash_tag x) (cp_distribution x) (cp_timeout x) (cp_backlog x) (cp_client_connections x) (cp_tcpkeepalive
  x) (cp_redis x) (cp_redis_auth x) v (cp_preconnect x) (cp_auto_eject_hosts x) (cp_server_connections x)
  (cp_server_retry_timeout x) (cp_server_failure_limit x) (cp_server x) (cp_valid x).
Definition cp_set_preconnect v (x : conf_pool) : conf_pool := mk_cpool (cp_name x) (cp_listen x) (cp_hash x)
  (cp_hash_tag x) (cp_distribution x) (cp_timeout x) (cp_backlog x) (cp_client_connections x) (cp_tcpkeepalive
  x) (cp_redis x) (cp_redis_auth x) (cp_redis_db x) v (cp_auto_eject_hosts x) (cp_server_connections x)
  (cp_server_retry_timeout x) (cp_server_failure_limit x) (cp_server x) (cp_valid x).
Definition cp_set_auto_eject_hosts v (x : conf_pool) : conf_pool := mk_cpool (cp_name x) (cp_listen x)
  (cp_hash x) (cp_hash_tag x) (cp_distribution x) (cp_timeout x) (cp_backlog x) (cp_client_connections x)
  (cp_tcpkeepalive x) (cp_redis x) (cp_redis_auth x) (cp_redis_db x) (cp_preconnect x) v
  (cp_server_connections x) (cp_server_retry_timeout x) (cp_server_failure_limit x) (cp_server x) (cp_valid
  x).
Definition cp_set_server_connections v (x : conf_pool) : conf_pool := mk_cpool (cp_name x) (cp_listen x)
  (cp_hash x) (cp_hash_tag x) (cp_distribution x) (cp_timeout x) (cp_backlog x) (cp_client_connections x)
  (cp_tcpkeepalive x) (cp_redis x) (cp_redis_auth x) (cp_redis_db x) (cp_preconnect x) (cp_auto_eject_hosts x)
  v (cp_server_retry_timeout x) (cp_server_failure_limit x) (cp_server x) (cp_valid x).
Definition cp_set_server_retry_timeout v (x : conf_pool) : conf_pool := mk_cpool (cp_name x) (cp_listen x)
  (cp_hash x) (cp_hash_tag x) (cp_distribution x) (cp_timeout x) (cp_backlog x) (cp_client_connections x)
  (cp_tcpkeepalive x) (cp_redis x) (cp_redis_auth x) (cp_redis_db x) (cp_preconnect x) (cp_auto_eject_hosts x)
  (cp_server_connections x) v (cp_server_failure_limit x) (cp_server x) (cp_valid x).
Definition cp_set_server_failure_limit v (x : conf_pool) : conf_pool := mk_cpool (cp_name x) (cp_listen x)
  (cp_hash x) (cp_hash_tag x) (cp_distribution x) (cp_timeout x) (cp_backlog x) (cp_client_connections x)
  (cp_tcpkeepalive x) (cp_redis x) (cp_redis_auth x) (cp_redis_db x) (cp_preconnect x) (cp_auto_eject_hosts x)
  (cp_server_connections x) (cp_server_retry_timeout x) v (cp_server x) (cp_valid x).
Definition cp_set_server v (x : conf_pool) : conf_pool := mk_cpool (cp_name x) (cp_listen x) (cp_hash x)
  (cp_hash_tag x) (cp_distribution x) (cp_timeout x) (cp_backlog x) (cp_client_connections x) (cp_tcpkeepalive
  x) (cp_redis x) (cp_redis_auth x) (cp_redis_db x) (cp_preconnect x) (cp_auto_eject_hosts x)
  (cp_server_connections x) (cp_server_retry_timeout x) (cp_server_failure_limit x) v (cp_valid x).
Definition cp_set_valid v (x : conf_pool) : conf_pool := mk_cpool (cp_name x) (cp_listen x) (cp_hash x)
  (cp_hash_tag x) (cp_distribution x) (cp_timeout x) (cp_backlog x) (cp_client_connections x) (cp_tcpkeepalive
  x) (cp_redis x) (cp_redis_auth x) (cp_redis_db x) (cp_preconnect x) (cp_auto_eject_hosts x)
  (cp_server_connections x) (cp_server_retry_timeout x) (cp_server_failure_limit x) (cp_server x) v.

(** What libyaml finds in the file: events, tokens. *)
Inductive yaml_event :=
| YAML_NO_EVENT | YAML_STREAM_START_EVENT | YAML_STREAM_END_EVENT | YAML_DOCUMENT_START_EVENT | YAML_DOCUMENT_END_EVENT
| YAML_ALIAS_EVENT | YAML_SCALAR_EVENT (value : list Z) | YAML_SEQUENCE_START_EVENT | YAML_SEQUENCE_END_EVENT
| YAML_MAPPING_START_EVENT | YAML_MAPPING_END_EVENT.

Inductive yaml_token :=
| YAML_NO_TOKEN | YAML_STREAM_START_TOKEN | YAML_STREAM_END_TOKEN | YAML_VERSION_DIRECTIVE_TOKEN | YAML_TAG_DIRECTIVE_TOKEN
| YAML_DOCUMENT_START_TOKEN | YAML_DOCUMENT_END_TOKEN | YAML_BLOCK_SEQUENCE_START_TOKEN | YAML_BLOCK_MAPPING_START_TOKEN
| YAML_BLOCK_END_TOKEN | YAML_FLOW_SEQUENCE_START_TOKEN | YAML_FLOW_SEQUENCE_END_TOKEN | YAML_FLOW_MAPPING_START_TOKEN
| YAML_FLOW_MAPPING_END_TOKEN | YAML_BLOCK_ENTRY_TOKEN | YAML_FLOW_ENTRY_TOKEN | YAML_KEY_TOKEN | YAML_VALUE_TOKEN
| YAML_ALIAS_TOKEN | YAML_ANCHOR_TOKEN | YAML_TAG_TOKEN | YAML_SCALAR_TOKEN.

(** How far a yaml parser is: the documents (with or without a root), tokens
    and events it has not delivered yet. *)
Record yaml_input := mk_input { yi_documents : list bool; yi_tokens : list yaml_token; yi_events : list yaml_event }.

Record conf := mk_conf {
  cf_arg : array cstr;
  cf_pool : array conf_pool;
  cf_depth : Z;
  cf_seq : bool;
  cf_valid_parser : bool;
  cf_valid_event : bool;
  cf_valid_token : bool;
  cf_sound : bool;
  cf_parsed : bool;
  cf_valid : bool;
  cf_event : option yaml_event;
  cf_token : option yaml_token;
  cf_input : yaml_input;
  cf_tick : nat
}.

Definition cf_set_arg v (x : conf) : conf := mk_conf v (cf_pool x) (cf_depth x) (cf_seq x) (cf_valid_parser x)
  (cf_valid_event x) (cf_valid_token x) (cf_sound x) (cf_parsed x) (cf_valid x) (cf_event x) (cf_token x)
  (cf_input x) (cf_tick x).
Definition cf_set_pool v (x : conf) : conf := mk_conf (cf_arg x) v (cf_depth x) (cf_seq x) (cf_valid_parser x)
  (cf_valid_event x) (cf_valid_token x) (cf_sound x) (cf_parsed x) (cf_valid x) (cf_event x) (cf_token x)
  (cf_input x) (cf_tick x).
Definition cf_set_depth v (x : conf) : conf := mk_conf (cf_arg x) (cf_pool x) v (cf_seq x) (cf_valid_parser x)
  (cf_valid_event x) (cf_valid_token x) (cf_sound x) (cf_parsed x) (cf_valid x) (cf_event x) (cf_token x)
  (cf_input x) (cf_tick x).
Definition cf_set_seq v (x : conf) : conf := mk_conf (cf_arg x) (cf_pool x) (cf_depth x) v (cf_valid_parser x)
  (cf_valid_event x) (cf_valid_token x) (cf_sound x) (cf_parsed x) (cf_valid x) (cf_event x) (cf_token x)
  (cf_input x) (cf_tick x).
Definition cf_set_valid_parser v (x : conf) : conf := mk_conf (cf_arg x) (cf_pool x) (cf_depth x) (cf_seq x) v
  (cf_valid_event x) (cf_valid_token x) (cf_sound x) (cf_parsed x) (cf_valid x) (cf_event x) (cf_token x)
  (cf_input x) (cf_tick x).
Definition cf_set_valid_event v (x : conf) : conf := mk_conf (cf_arg x) (cf_pool x) (cf_depth x) (cf_seq x)
  (cf_valid_parser x) v (cf_valid_token x) (cf_sound x) (cf_parsed x) (cf_valid x) (cf_event x) (cf_token x)
  (cf_input x) (cf_tick x).
Definition cf_set_valid_token v (x : conf) : conf := mk_conf (cf_arg x) (cf_pool x) (cf_depth x) (cf_seq x)
  (cf_valid_parser x) (cf_valid_event x) v (cf_sound x) (cf_parsed x) (cf_valid x) (cf_event x) (cf_token x)
  (cf_input x) (cf_tick x).
Definition cf_set_sound v (x : conf) : conf := mk_conf (cf_arg x) (cf_pool x) (cf_depth x) (cf_seq x)
  (cf_valid_parser x) (cf_valid_event x) (cf_valid_token x) v (cf_parsed x) (cf_valid x) (cf_event x)
  (cf_token x) (cf_input x) (cf_tick x).
Definition cf_set_parsed v (x : conf) : conf := mk_conf (cf_arg x) (cf_pool x) (cf_depth x) (cf_seq x)
  (cf_valid_parser x) (cf_valid_event x) (cf_valid_token x) (cf_sound x) v (cf_valid x) (cf_event x) (cf_token
  x) (cf_input x) (cf_tick x).
Definition cf_set_valid v (x : conf) : conf := mk_conf (cf_arg x) (cf_pool x) (cf_depth x) (cf_seq x)
  (cf_valid_parser x) (cf_valid_event x) (cf_valid_token x) (cf_sound x) (cf_parsed x) v (cf_event x)
  (cf_token x) (cf_input x) (cf_tick x).
Definition cf_set_event v (x : conf) : conf := mk_conf (cf_arg x) (cf_pool x) (cf_depth x) (cf_seq x)
  (cf_valid_parser x) (cf_valid_event x) (cf_valid_token x) (cf_sound x) (cf_parsed x) (cf_valid x) v
  (cf_token x) (cf_input x) (cf_tick x).
Definition cf_set_token v (x : conf) : conf := mk_conf (cf_arg x) (cf_pool x) (cf_depth x) (cf_seq x)
  (cf_valid_parser x) (cf_valid_event x) (cf_valid_token x) (cf_sound x) (cf_parsed x) (cf_valid x) (cf_event
  x) v (cf_input x) (cf_tick x).
Definition cf_set_input v (x : conf) : conf := mk_conf (cf_arg x) (cf_pool x) (cf_depth x) (cf_seq x)
  (cf_valid_parser x) (cf_valid_event x) (cf_valid_token x) (cf_sound x) (cf_parsed x) (cf_valid x) (cf_event
  x) (cf_token x) v (cf_tick x).
Definition cf_set_tick v (x : conf) : conf := mk_conf (cf_arg x) (cf_pool x) (cf_depth x) (cf_seq x)
  (cf_valid_parser x) (cf_valid_event x) (cf_valid_token x) (cf_sound x) (cf_parsed x) (cf_valid x) (cf_event
  x) (cf_token x) (cf_input x) v.

(** The world outside. *)
Class ConfEnv := {
  ce_ok : nat -> Z -> bool;                      (* does malloc of a size succeed *)
  ce_sizeof_conf : Z;                            (* sizeof(struct conf), which holds the parser of libyaml *)
  ce_fopen : bool;                               (* can the file be opened *)
  ce_yaml_init : nat -> bool;                    (* do fseek and yaml_parser_initialize *)
  ce_input : yaml_input;                         (* what a parser finds in the file *)
  ce_inet : list Z -> Z -> option (list Z);      (* getaddrinfo of a node and a port *)
  ce_qsort_server : list conf_server -> list conf_server;
  ce_qsort_listen : list conf_pool -> list conf_pool;
  ce_qsort_name : list conf_pool -> list conf_pool
}.

Definition CONF_UNSET_NUM : Z := -1.
Definition CONF_UNSET_HASH : Z := -1.
Definition CONF_UNSET_DIST : Z := -1.
Definition CONF_ROOT_DEPTH : Z := 1.
Definition CONF_MAX_DEPTH : Z := CONF_ROOT_DEPTH + 1.
Definition CONF_DEFAULT_SERVERS : Z := 8.
Definition CONF_DEFAULT_KETAMA_PORT : Z := 11211.

(** sizeof of the elements of the arrays on a 64-bit system. *)
Definition SIZEOF_STRING : Z := 16.
Definition SIZEOF_CONF_SERVER : Z := 184.
Definition SIZEOF_CONF_POOL : Z := 312.

Abbreviation C := (ST conf).

(** What a handler returns: an error message, or NULL. *)
Abbreviation message := (option (list Z)).
Definition CONF_OK : message := None.
Definition CONF_ERROR : message := Some (bytes_of "has an invalid value").

Section Conf.
Context `{env : ConfEnv}.

Definition c_tick : C nat := n ← gets cf_tick; modify (cf_set_tick (S n));; mret n.
Definition c_alloc (size : Z) : C bool := n ← c_tick; mret (ce_ok n size).

(** array_push of an array. *)
Definition c_push {A} (a : array A) : C (option (Z * array A)) := n ← c_tick; mret (array_push (ce_ok n) a).
Definition c_array_init {A} (a : array A) (n size : Z) : C (Z * array A) := t ← c_tick; mret (array_init (ce_ok t) a n size).
Definition c_load {A} (a : array A) (p : Z) : C A := reads (fun _ => array_load a p).

Definition c_string_duplicate (dst src : cstr) : C (Z * cstr) :=
  ok ← c_alloc (str_len src + 2); reads (fun _ => string_duplicate ok dst src).
(** string_copy of [len] bytes at offset [off] of the block [d]. *)
Definition c_string_copy (dst : cstr) (d : list Z) (off len : Z) : C (Z * cstr) :=
  ok ← c_alloc (len + 2); if 0 <=? off then reads (fun _ => string_copy ok dst (drop (Z.to_nat off) d) len) else fault.

(** str->data and its first byte. *)
Definition c_data (s : cstr) : C (list Z) := reads (fun _ => str_data s).

(** ** Servers and pools *)

Definition conf_server_init : conf_server := mk_cserver string_init string_init string_init 0 0 SockZero false.

Definition conf_server_deinit (cs : conf_server) : conf_server :=
  mk_cserver (string_deinit (cs_pname cs)) (string_deinit (cs_name cs)) (string_deinit (cs_addrstr cs)) (cs_port cs) (cs_weight cs)
    (cs_info cs) false.

(** The fields conf_pool_init sets before it allocates; perm is not one of
    them. *)
Definition conf_pool_unset : conf_pool :=
  mk_cpool string_init (mk_clisten string_init string_init 0 None SockZero false) CONF_UNSET_HASH string_init CONF_UNSET_DIST
    CONF_UNSET_NUM CONF_UNSET_NUM CONF_UNSET_NUM CONF_UNSET_NUM CONF_UNSET_NUM string_init CONF_UNSET_NUM CONF_UNSET_NUM CONF_UNSET_NUM
    CONF_UNSET_NUM CONF_UNSET_NUM CONF_UNSET_NUM array_null false.

(** The status and the pool. *)
Definition conf_pool_init (name : cstr) : C (Z * conf_pool) :=
  let cp := conf_pool_unset in
  x ← c_string_duplicate (cp_name cp) name;
  let cp := cp_set_name x.2 cp in
  if negb (x.1 =? NC_OK) then mret (x.1, cp)
  else
    y ← c_array_init (cp_server cp) CONF_DEFAULT_SERVERS SIZEOF_CONF_SERVER;
    let cp := cp_set_server y.2 cp in
    if negb (y.1 =? NC_OK) then mret (y.1, cp_set_name (string_deinit (cp_name cp)) cp)
    else mret (NC_OK, cp).

(** while (array_n(a) != 0) f(array_pop(a)); *)
Fixpoint pop_all {A} (f : A -> C unit) (fuel : nat) (a : array A) : C (array A) :=
  match fuel with
  | O => fault
  | S fuel' =>
      if array_n a =? 0 then mret a
      else let '(p, a') := array_pop a in x ← c_load a p; f x;; pop_all f fuel' a'
  end.
Definition pop_fuel {A} (a : array A) : nat := S (Z.to_nat (array_n a)).

Definition conf_pool_deinit (cp : conf_pool) : C conf_pool :=
  let cp := cp_set_name (string_deinit (cp_name cp)) cp in
  let l := cp_listen cp in
  let cp := cp_set_listen (cl_set_name (string_deinit (cl_name l)) (cl_set_pname (string_deinit (cl_pname l)) l)) cp in
  let cp := if 0 <? str_len (cp_redis_auth cp) then cp_set_redis_auth (string_deinit (cp_redis_auth cp)) cp else cp in
  a ← pop_all (fun cs => let _ := conf_server_deinit cs in mret tt) (pop_fuel (cp_server cp)) (cp_server cp);
  mret (cp_set_server (array_deinit a) cp).

(** ** Directives

    A handler gets the value, array_top(&cf->arg), and the pool it changes;
    it returns the message and the pool.  The offset of its command is the
    pair of a projection and an update. *)

Definition is_a_duplicate : message := Some (bytes_of "is a duplicate").

Definition conf_set_string (get : conf_pool -> cstr) (set : cstr -> conf_pool -> conf_pool) (value : cstr) (cp : conf_pool) : C (message * conf_pool) :=
  match str_data (get cp) with
  | Some _ => mret (is_a_duplicate, cp)
  | None =>
      x ← c_string_duplicate (get cp) value;
      mret (if negb (x.1 =? NC_OK) then CONF_ERROR else CONF_OK, set x.2 cp)
  end.

Definition conf_set_hashtag (value : cstr) (cp : conf_pool) : C (message * conf_pool) :=
  match str_data (cp_hash_tag cp) with
  | Some _ => mret (is_a_duplicate, cp)
  | None =>
      if negb (str_len value =? 2) then mret (Some (bytes_of "is not a valid hash tag string with two characters"), cp)
      else
        x ← c_string_duplicate (cp_hash_tag cp) value;
        mret (if negb (x.1 =? NC_OK) then CONF_ERROR else CONF_OK, cp_set_hash_tag x.2 cp)
  end.

Definition conf_set_num (get : conf_pool -> Z) (set : Z -> conf_pool -> conf_pool) (value : cstr) (cp : conf_pool) : C (message * conf_pool) :=
  if negb (get cp =? CONF_UNSET_NUM) then mret (is_a_duplicate, cp)
  else
    d ← c_data value;
    num ← reads (fun _ => nc_atoi d 0 (str_len value));
    if num <? 0 then mret (Some (bytes_of "is not a number"), cp) else mret (CONF_OK, set num cp).

Definition conf_set_bool (get : conf_pool -> Z) (set : Z -> conf_pool -> conf_pool) (value : cstr) (cp : conf_pool) : C (message * conf_pool) :=
  if negb (get cp =? CONF_UNSET_NUM) then mret (is_a_duplicate, cp)
  else
    t ← reads (fun _ => string_compare value (string_text (bytes_of "true")));
    if t =? 0 then mret (CONF_OK, set 1 cp)
    else
      f ← reads (fun _ => string_compare value (string_text (bytes_of "false")));
      if f =? 0 then mret (CONF_OK, set 0 cp)
      else mret (Some (bytes_of "is not true or false"), cp).

(** The position of [value] among [names], from [i] on. *)
Fixpoint find_string (value : cstr) (names : list (list Z)) (i : Z) : C (option Z) :=
  match names with
  | [] => mret None
  | n :: names' =>
      t ← reads (fun _ => string_compare value (string_text n));
      if t =? 0 then mret (Some i) else find_string value names' (i + 1)
  end.

Definition hash_strings : list (list Z) :=
  [bytes_of "one_at_a_time"; bytes_of "md5"; bytes_of "crc16"; bytes_of "crc32"; bytes_of "crc32a"; bytes_of "fnv1_64"; bytes_of "fnv1a_64";
   bytes_of "fnv1_32"; bytes_of "fnv1a_32"; bytes_of "hsieh"; bytes_of "murmur"; bytes_of "jenkins"].
Definition dist_strings : list (list Z) := [bytes_of "ketama"; bytes_of "modula"; bytes_of "random"].

Definition conf_set_hash (value : cstr) (cp : conf_pool) : C (message * conf_pool) :=
  if negb (cp_hash cp =? CONF_UNSET_HASH) then mret (is_a_duplicate, cp)
  else
    i ← find_string value hash_strings 0;
    mret (match i with Some i => (CONF_OK, cp_set_hash i cp) | None => (Some (bytes_of "is not a valid hash"), cp) end).

Definition conf_set_distribution (value : cstr) (cp : conf_pool) : C (message * conf_pool) :=
  if negb (cp_distribution cp =? CONF_UNSET_DIST) then mret (is_a_duplicate, cp)
  else
    i ← find_string value dist_strings 0;
    mret (match i with Some i => (CONF_OK, cp_set_distribution i cp) | None => (Some (bytes_of "is not a valid distribution"), cp) end).

(** strtol(s, NULL, 8): the value and whether errno was set. *)
Definition isspace (ch : Z) : bool := (ch =? 32) || ((9 <=? ch) && (ch <=? 13)).
Fixpoint skip_space (s : list Z) : option (list Z) :=
  match s with
  | [] => None
  | ch :: s' => if isspace ch then skip_space s' else Some s
  end.
Fixpoint octal (s : list Z) (v : Z) : option Z :=
  match s with
  | [] => None
  | ch :: s' => if (48 <=? ch) && (ch <=? 55) then octal s' (v * 8 + (ch - 48)) else Some v
  end.
Definition strtol8 (s : list Z) : option (Z * bool) :=
  match skip_space s with
  | None => None
  | Some s =>
      let neg := bool_decide (head s = Some 45) in
      let s := if neg || bool_decide (head s = Some 43) then tail s else s in
      match octal s 0 with
      | None => None
      | Some v =>
          let v := if neg then - v else v in
          Some (if v <? - 2 ^ 63 then (- 2 ^ 63, true) else if 2 ^ 63 - 1 <? v then (2 ^ 63 - 1, true) else (v, false))
      end
  end.

(** nc_resolve_unix; sizeof(sun_path) is 108. *)
Definition NC_UNIX_ADDRSTRLEN : Z := 108.
Definition nc_resolve_unix (name : cstr) (d : list Z) (si : sockinfo) : Z * sockinfo :=
  if NC_UNIX_ADDRSTRLEN <=? str_len name then (-1, si) else (0, SockUnix (take (Z.to_nat (str_len name)) d)).

Definition nc_resolve_inet (d : list Z) (port : Z) (si : sockinfo) : C (Z * sockinfo) :=
  node ← reads (fun _ => cstring_at d);
  mret (match ce_inet node port with None => (-1, si) | Some a => (0, SockInet a) end).

Definition nc_resolve (name : cstr) (port : Z) (si : sockinfo) : C (Z * sockinfo) :=
  d ← c_data name;
  ch ← reads (fun _ => rd d 0);
  if ch =? 47 then mret (nc_resolve_unix name d si) else nc_resolve_inet d port si.

(** "socket_path permissions": a message, or the length of the path; and the
    field. *)
Definition listen_unix (value : cstr) (d : list Z) (field : conf_listen) : C ((list Z + Z) * conf_listen) :=
  let p := str_len value - 1 in
  q ← reads (fun _ => nc_strrchr d p 0 32);
  match q with
  | None => mret (inr (str_len value), field)
  | Some q =>
      t ← reads (fun _ => strtol8 (drop (Z.to_nat (q + 1)) d));
      let perm := u32 t.1 in
      let field := cl_set_perm (Some perm) field in
      mret (if (t.2 : bool) || (511 <? perm)
            then inl (bytes_of "has an invalid file permission in socket_path permission format string")
            else inr (u32 (q - 1 - 0 + 1)), field)
  end.

(** "hostname:port" *)
Definition listen_inet (value : cstr) (d : list Z) (field : conf_listen) : C ((list Z + Z) * conf_listen) :=
  let p := str_len value - 1 in
  q ← reads (fun _ => nc_strrchr d p 0 58);
  match q with
  | None => mret (inl (bytes_of "has an invalid hostname:port format string"), field)
  | Some q =>
      port ← reads (fun _ => nc_atoi d (q + 1) (u32 (p - (q + 1) + 1)));
      let field := cl_set_port port field in
      mret (if (port <? 0) || negb (nc_valid_port port) then inl (bytes_of "has an invalid port in hostname:port format string")
            else inr (u32 (q - 1 - 0 + 1)), field)
  end.

Definition conf_set_listen (value : cstr) (cp : conf_pool) : C (message * conf_pool) :=
  let field := cp_listen cp in
  if cl_valid field then mret (is_a_duplicate, cp)
  else
    x ← c_string_duplicate (cl_pname field) value;
    let field := cl_set_pname x.2 field in
    if negb (x.1 =? NC_OK) then mret (CONF_ERROR, cp_set_listen field cp)
    else
      d ← c_data value;
      ch ← reads (fun _ => rd d 0);
      y ← (if ch =? 47 then listen_unix value d field else listen_inet value d field);
      let '(r, field) := y in
      match r with
      | inl e => mret (Some e, cp_set_listen field cp)
      | inr namelen =>
          x ← c_string_copy (cl_name field) d 0 namelen;
          let field := cl_set_name x.2 field in
          if negb (x.1 =? NC_OK) then mret (CONF_ERROR, cp_set_listen field cp)
          else
            z ← nc_resolve (cl_name field) (cl_port field) (cl_info field);
            let field := cl_set_info z.2 field in
            if negb (z.1 =? NC_OK) then mret (CONF_ERROR, cp_set_listen field cp)
            else mret (CONF_OK, cp_set_listen (cl_set_valid true field) cp)
      end.

(** A part of a server line: offset and length; NULL if [None]. *)
Record parts := mk_parts { pt_name : option (Z * Z); pt_weight : option (Z * Z); pt_port : option (Z * Z) }.

(** switch (k) *)
Definition set_part (k : Z) (v : Z * Z) (pt : parts) : parts :=
  if k =? 0 then mk_parts (Some v) (pt_weight pt) (pt_port pt)
  else if k =? 1 then mk_parts (pt_name pt) (Some v) (pt_port pt)
  else if k =? 2 then mk_parts (pt_name pt) (pt_weight pt) (Some v)
  else pt.

(** The loop over delim, which includes its terminator: k, p and the parts. *)
Fixpoint split_server (d : list Z) (delim : list Z) (k p : Z) (pt : parts) : C (Z * Z * parts) :=
  match delim with
  | [] => mret (k, p, pt)
  | ch :: delim' =>
      q ← reads (fun _ => nc_strrchr d p 0 ch);
      match q with
      | None => if k =? 0 then split_server d delim' (k + 1) p pt else mret (k, p, pt)
      | Some q => split_server d delim' (k + 1) (q - 1) (set_part k (q + 1, u32 (p - (q + 1) + 1)) pt)
      end
  end.
Definition delim : list Z := bytes_of " ::" ++ [0].

Definition bad_server : message := Some (bytes_of "has an invalid hostname:port:weight [name] or /path/unix_socket:weight [name] format string").
Definition bad_weight : message := Some (bytes_of "has an invalid weight in hostname:port:weight [name] format string").
Definition zero_weight : message := Some (bytes_of "has a zero weight in hostname:port:weight [name] format string").
Definition bad_port : message := Some (bytes_of "has an invalid port in hostname:port:weight [name] format string").

(** nc_atoi of a part; NULL has length 0. *)
Definition atoi_part (d : list Z) (v : option (Z * Z)) : C Z :=
  let '(off, len) := default (0, 0) v in reads (fun _ => nc_atoi d off len).

(** From the copies of name and addrstr on. *)
Definition server_names (d : list Z) (addrlen : Z) (pt : parts) (field : conf_server) : C (message * conf_server) :=
  let '(name, namelen) :=
    match pt_name pt with
    | Some v => v
    | None => if cs_port field =? CONF_DEFAULT_KETAMA_PORT then (0, addrlen) else (0, u32 (addrlen + 1 + (default (0, 0) (pt_port pt)).2))
    end in
  x ← c_string_copy (cs_name field) d name namelen;
  let field := cs_set_name x.2 field in
  if negb (x.1 =? NC_OK) then mret (CONF_ERROR, field)
  else
    x ← c_string_copy (cs_addrstr field) d 0 addrlen;
    let field := cs_set_addrstr x.2 field in
    if negb (x.1 =? NC_OK) then mret (CONF_ERROR, field) else mret (CONF_OK, cs_set_valid true field).

(** From the weight on. *)
Definition server_numbers (d : list Z) (p : Z) (pt : parts) (field : conf_server) : C (message * conf_server) :=
  let addrlen := u32 (p - 0 + 1) in
  weight ← atoi_part d (pt_weight pt);
  let field := cs_set_weight weight field in
  if weight <? 0 then mret (bad_weight, field)
  else if weight =? 0 then mret (zero_weight, field)
  else
    ch ← reads (fun _ => rd d 0);
    if ch =? 47 then server_names d addrlen pt field
    else
      port ← atoi_part d (pt_port pt);
      let field := cs_set_port port field in
      if (port <? 0) || negb (nc_valid_port port) then mret (bad_port, field) else server_names d addrlen pt field.

Definition conf_add_server (value : cstr) (cp : conf_pool) : C (message * conf_pool) :=
  o ← c_push (cp_server cp);
  match o with
  | None => mret (CONF_ERROR, cp)
  | Some (fp, a) =>
      let field := conf_server_init in
      let store field := cp_set_server (array_store a fp field) cp in
      d ← c_data value;
      ch ← reads (fun _ => rd d 0);
      let delimlen := if ch =? 47 then 2 else 3 in
      x ← split_server d delim 0 (str_len value - 1) (mk_parts None None None);
      let '(k, p, pt) := x in
      if negb (k =? delimlen) then mret (bad_server, store field)
      else
        let namelen := (default (0, 0) (pt_name pt)).2 in
        let pnamelen := if 0 <? namelen then u32 (str_len value - (namelen + 1)) else str_len value in
        x ← c_string_copy (cs_pname field) d 0 pnamelen;
        let field := cs_set_pname x.2 field in
        if negb (x.1 =? NC_OK) then mret (CONF_ERROR, cp_set_server (array_pop (array_store a fp field)).2 cp)
        else
          y ← server_numbers d p pt field;
          mret (y.1, store y.2)
  end.

(** struct command and its table. *)
Record command := mk_command { cmd_name : list Z; cmd_set : cstr -> conf_pool -> C (message * conf_pool) }.

Definition conf_commands : list command :=
  [ mk_command (bytes_of "listen") conf_set_listen;
    mk_command (bytes_of "hash") conf_set_hash;
    mk_command (bytes_of "hash_tag") conf_set_hashtag;
    mk_command (bytes_of "distribution") conf_set_distribution;
    mk_command (bytes_of "timeout") (conf_set_num cp_timeout cp_set_timeout);
    mk_command (bytes_of "backlog") (conf_set_num cp_backlog cp_set_backlog);
    mk_command (bytes_of "client_connections") (conf_set_num cp_client_connections cp_set_client_connections);
    mk_command (bytes_of "redis") (conf_set_bool cp_redis cp_set_redis);
    mk_command (bytes_of "tcpkeepalive") (conf_set_bool cp_tcpkeepalive cp_set_tcpkeepalive);
    mk_command (bytes_of "redis_auth") (conf_set_string cp_redis_auth cp_set_redis_auth);
    mk_command (bytes_of "redis_db") (conf_set_num cp_redis_db cp_set_redis_db);
    mk_command (bytes_of "preconnect") (conf_set_bool cp_preconnect cp_set_preconnect);
    mk_command (bytes_of "auto_eject_hosts") (conf_set_bool cp_auto_eject_hosts cp_set_auto_eject_hosts);
    mk_command (bytes_of "server_connections") (conf_set_num cp_server_connections cp_set_server_connections);
    mk_command (bytes_of "server_retry_timeout") (conf_set_num cp_server_retry_timeout cp_set_server_retry_timeout);
    mk_command (bytes_of "server_failure_limit") (conf_set_num cp_server_failure_limit cp_set_server_failure_limit);
    mk_command (bytes_of "servers") conf_add_server ].

End Conf.
