(* ===== verification/ConfParse.v ===== *)
(** Reading the configuration file: the checks before the parse, the parse
    over the events of libyaml, the checks after it, and conf_create
    (nc_conf.c). *)

From S2P Require Import Prelude CArray State CString Conf.

Definition CONF_DEFAULT_ARGS : Z := 3.
Definition CONF_DEFAULT_POOL : Z := 8.

(** enum values of hash_type_t and dist_type_t. *)
Definition CONF_DEFAULT_HASH : Z := 6.
Definition CONF_DEFAULT_DIST : Z := 0.
Definition CONF_DEFAULT_TIMEOUT : Z := -1.
Definition CONF_DEFAULT_LISTEN_BACKLOG : Z := 512.
Definition CONF_DEFAULT_CLIENT_CONNECTIONS : Z := 0.
Definition CONF_DEFAULT_REDIS : Z := 0.
Definition CONF_DEFAULT_REDIS_DB : Z := 0.
Definition CONF_DEFAULT_PRECONNECT : Z := 0.
Definition CONF_DEFAULT_AUTO_EJECT_HOSTS : Z := 0.
Definition CONF_DEFAULT_SERVER_RETRY_TIMEOUT : Z := 30 * 1000.
Definition CONF_DEFAULT_SERVER_FAILURE_LIMIT : Z := 2.
Definition CONF_DEFAULT_SERVER_CONNECTIONS : Z := 1.
Definition CONF_DEFAULT_TCPKEEPALIVE : Z := 0.

Section Parse.
Context `{env : ConfEnv}.

(** ** libyaml *)

Definition conf_yaml_init : C Z :=
  n ← c_tick;
  if negb (ce_yaml_init n) then mret NC_ERROR
  else modify (cf_set_input ce_input);; modify (cf_set_valid_parser true);; mret NC_OK.

Definition conf_yaml_deinit : C unit := modify (cf_set_valid_parser false).

(** The next token; the end of what libyaml delivers is its failure. *)
Definition conf_token_next : C Z :=
  i ← gets cf_input;
  match yi_tokens i with
  | [] => mret NC_ERROR
  | t :: ts =>
      modify (cf_set_input (mk_input (yi_documents i) ts (yi_events i)));;
      modify (cf_set_token (Some t));; modify (cf_set_valid_token true);; mret NC_OK
  end.
Definition conf_token_done : C unit :=
  v ← gets cf_valid_token; when v (modify (cf_set_token None);; modify (cf_set_valid_token false)).

Definition conf_event_next : C Z :=
  i ← gets cf_input;
  match yi_events i with
  | [] => mret NC_ERROR
  | e :: es =>
      modify (cf_set_input (mk_input (yi_documents i) (yi_tokens i) es));;
      modify (cf_set_event (Some e));; modify (cf_set_valid_event true);; mret NC_OK
  end.
Definition conf_event_done : C unit :=
  v ← gets cf_valid_event; when v (modify (cf_set_event None);; modify (cf_set_valid_event false)).

(** cf->event, cf->token *)
Definition the_event : C yaml_event := reads cf_event.
Definition the_token : C yaml_token := reads cf_token.

(** One round of a loop over events or tokens for each left, and one more. *)
Definition event_fuel : C nat := i ← gets cf_input; mret (S (length (yi_events i))).
Definition token_fuel : C nat := i ← gets cf_input; mret (S (length (yi_tokens i))).

(** ** The arguments *)

Definition conf_push_scalar : C Z :=
  e ← the_event;
  match e with
  | YAML_SCALAR_EVENT scalar =>
      let scalar_len := u32 (zlen scalar) in
      if scalar_len =? 0 then mret NC_ERROR
      else
        a ← gets cf_arg;
        o ← c_push a;
        match o with
        | None => mret NC_ENOMEM
        | Some (p, a) =>
            x ← c_string_copy string_init (scalar ++ [0]) 0 scalar_len;
            let a := array_store a p x.2 in
            if negb (x.1 =? NC_OK) then modify (cf_set_arg (array_pop a).2);; mret x.1
            else modify (cf_set_arg a);; mret NC_OK
        end
  | _ => fault
  end.

(** The popped string is released. *)
Definition conf_pop_scalar : C unit :=
  a ← gets cf_arg;
  let '(p, a') := array_pop a in
  value ← c_load a p;
  modify (cf_set_arg (array_store a' p (string_deinit value))).

(** *data *)
Definition pool_at (data : option Z) : C conf_pool :=
  match data with None => fault | Some p => a ← gets cf_pool; c_load a p end.
Definition pool_put (data : option Z) (cp : conf_pool) : C unit :=
  match data with None => fault | Some p => modify (fun cf => cf_set_pool (array_store (cf_pool cf) p cp) cf) end.

(** The loop over the commands. *)
Fixpoint run_command (cmds : list command) (key value : cstr) (data : option Z) : C Z :=
  match cmds with
  | [] => mret NC_ERROR
  | cmd :: cmds' =>
      t ← reads (fun _ => string_compare key (string_text (cmd_name cmd)));
      if negb (t =? 0) then run_command cmds' key value data
      else
        cp ← pool_at data;
        x ← cmd_set cmd value cp;
        pool_put data x.2;;
        mret (match x.1 with None => NC_OK | Some _ => NC_ERROR end)
  end.

Definition conf_handler (data : option Z) : C Z :=
  a ← gets cf_arg;
  if array_n a =? 1 then
    value ← c_load a (array_top a);
    x ← conf_pool_init value;
    pool_put data x.2;;
    mret x.1
  else
    let narg := array_n a in
    value ← c_load a (array_get a (u32 (narg - 1)));
    key ← c_load a (array_get a (u32 (narg - 2)));
    run_command conf_commands key value data.

(** ** The parse *)

Definition conf_begin_parse : C Z :=
  status ← conf_yaml_init;
  if negb (status =? NC_OK) then mret status
  else
    fuel ← event_fuel;
    iterate fuel (fun _ : unit =>
      status ← conf_event_next;
      if negb (status =? NC_OK) then mret (inr status)
      else
        e ← the_event;
        done ← (match e with
          | YAML_MAPPING_START_EVENT => modify (fun cf => cf_set_depth (u32 (cf_depth cf + 1)) cf);; mret true
          | _ => mret false
          end);
        conf_event_done;;
        mret (if (done : bool) then inr NC_OK else inl tt)) tt.

Definition conf_end_parse : C Z :=
  fuel ← event_fuel;
  iterate fuel (fun _ : unit =>
    status ← conf_event_next;
    if negb (status =? NC_OK) then mret (inr status)
    else
      e ← the_event;
      conf_event_done;;
      match e with
      | YAML_STREAM_END_EVENT => conf_yaml_deinit;; mret (inr NC_OK)
      | _ => mret (inl tt)
      end) tt.

(** The switch of conf_parse_core: the status, done, leaf, new_pool and
    data. *)
Record core_step := mk_step { cr_status : Z; cr_done : bool; cr_leaf : bool; cr_new_pool : bool; cr_data : option Z }.

Definition core_scalar (data : option Z) : C core_step :=
  status ← conf_push_scalar;
  if negb (status =? NC_OK) then mret (mk_step status false false false data)
  else
    cf ← gets id;
    if cf_seq cf then mret (mk_step NC_OK false true false data)
    else if cf_depth cf =? CONF_ROOT_DEPTH then
      o ← c_push (cf_pool cf);
      match o with
      | None => mret (mk_step NC_ENOMEM false false false None)
      | Some (p, a) => modify (cf_set_pool a);; mret (mk_step NC_OK false false true (Some p))
      end
    else mret (mk_step NC_OK false (array_n (cf_arg cf) =? u32 (cf_depth cf + 1)) false data).

Definition core_event (e : yaml_event) (data : option Z) : C core_step :=
  let next := mk_step NC_OK false false false data in
  match e with
  | YAML_MAPPING_END_EVENT =>
      modify (fun cf => cf_set_depth (u32 (cf_depth cf - 1)) cf);;
      d ← gets cf_depth;
      if d =? 1 then conf_pop_scalar;; mret next
      else mret (if d =? 0 then mk_step NC_OK true false false data else next)
  | YAML_MAPPING_START_EVENT => modify (fun cf => cf_set_depth (u32 (cf_depth cf + 1)) cf);; mret next
  | YAML_SEQUENCE_START_EVENT => modify (cf_set_seq true);; mret next
  | YAML_SEQUENCE_END_EVENT => conf_pop_scalar;; modify (cf_set_seq false);; mret next
  | YAML_SCALAR_EVENT _ => core_scalar data
  | _ => mret next
  end.

(** conf_parse_core behind its switch: the data of the next call, or the
    status. *)
Definition core_finish (r : core_step) : C (option Z + Z) :=
  conf_event_done;;
  if negb (cr_status r =? NC_OK) then mret (inr (cr_status r))
  else if cr_done r then mret (inr NC_OK)
  else if cr_leaf r || cr_new_pool r then
    status ← conf_handler (cr_data r);
    when (cr_leaf r) (
      conf_pop_scalar;;
      s ← gets cf_seq;
      when (negb s) conf_pop_scalar);;
    mret (if negb (status =? NC_OK) then inr status else inl (cr_data r))
  else mret (inl (cr_data r)).

(** One call of conf_parse_core. *)
Definition core_round (data : option Z) : C (option Z + Z) :=
  status ← conf_event_next;
  if negb (status =? NC_OK) then mret (inr status)
  else
    e ← the_event;
    r ← core_event e data;
    core_finish r.

Definition conf_parse_core (data : option Z) : C Z :=
  fuel ← event_fuel; iterate fuel core_round data.

Definition conf_parse : C Z :=
  status ← conf_begin_parse;
  if negb (status =? NC_OK) then mret status
  else
    status ← conf_parse_core None;
    if negb (status =? NC_OK) then mret status
    else
      status ← conf_end_parse;
      if negb (status =? NC_OK) then mret status
      else modify (cf_set_parsed true);; mret NC_OK.

(** ** Before the parse *)

(** yaml_parser_load: whether the next document has a root. *)
Definition document_next : C (option bool) :=
  i ← gets cf_input;
  match yi_documents i with
  | [] => mret None
  | d :: ds => modify (cf_set_input (mk_input ds (yi_tokens i) (yi_events i)));; mret (Some d)
  end.

Definition conf_validate_document : C Z :=
  status ← conf_yaml_init;
  if negb (status =? NC_OK) then mret status
  else
    i ← gets cf_input;
    iterate (S (length (yi_documents i))) (fun count : Z =>
      d ← document_next;
      match d with
      | None => conf_yaml_deinit;; mret (inr NC_ERROR)
      | Some true => mret (inl (u32 (count + 1)))
      | Some false => conf_yaml_deinit;; mret (inr (if negb (count =? 1) then NC_ERROR else NC_OK))
      end) 0.

(** The switch of conf_validate_tokens: done, error or neither. *)
Inductive token_verdict := TokenDone | TokenError | TokenNext.
Definition token_check (t : yaml_token) : token_verdict :=
  match t with
  | YAML_BLOCK_SEQUENCE_START_TOKEN | YAML_BLOCK_MAPPING_START_TOKEN | YAML_BLOCK_END_TOKEN | YAML_BLOCK_ENTRY_TOKEN
  | YAML_KEY_TOKEN | YAML_VALUE_TOKEN | YAML_SCALAR_TOKEN | YAML_STREAM_START_TOKEN => TokenNext
  | YAML_STREAM_END_TOKEN => TokenDone
  | _ => TokenError
  end.

Definition conf_validate_tokens : C Z :=
  status ← conf_yaml_init;
  if negb (status =? NC_OK) then mret status
  else
    fuel ← token_fuel;
    iterate fuel (fun _ : unit =>
      status ← conf_token_next;
      if negb (status =? NC_OK) then mret (inr status)
      else
        t ← the_token;
        conf_token_done;;
        match token_check t with
        | TokenNext => mret (inl tt)
        | TokenDone => conf_yaml_deinit;; mret (inr NC_OK)
        | TokenError => conf_yaml_deinit;; mret (inr NC_ERROR)
        end) tt.

(** The local variables of conf_validate_structure. *)
Record structure := mk_structure { st_depth : Z; st_count : list Z; st_seq : bool; st_done : bool; st_error : bool }.

Definition structure_start : structure := mk_structure 0 (replicate (Z.to_nat (CONF_MAX_DEPTH + 1)) 0) false false false.

(** count[depth] = v *)
Definition count_set (count : list Z) (depth v : Z) : option (list Z) :=
  if (0 <=? depth) && (depth <? zlen count) then Some (<[Z.to_nat depth := v]> count) else None.

Definition structure_mapping_start (s : structure) : option structure :=
  let depth := st_depth s in
  let go error := Some (mk_structure (depth + 1) (st_count s) (st_seq s) (st_done s) (st_error s || error)) in
  if depth =? CONF_ROOT_DEPTH then
    match rd (st_count s) depth with
    | None => None
    | Some n => go (negb (n =? 1) || (CONF_MAX_DEPTH <=? depth))
    end
  else go (CONF_MAX_DEPTH <=? depth).

Definition structure_mapping_end (s : structure) : option structure :=
  let '(seq, error) :=
    if st_depth s =? CONF_MAX_DEPTH then if st_seq s then (false, st_error s) else (st_seq s, true) else (st_seq s, st_error s) in
  let depth := st_depth s - 1 in
  match count_set (st_count s) depth 0 with
  | None => None
  | Some count => Some (mk_structure depth count seq (st_done s) error)
  end.

Definition structure_sequence_start (s : structure) : option structure :=
  let go error := Some (mk_structure (st_depth s) (st_count s) true (st_done s) (st_error s || error)) in
  if st_seq s then go true
  else if negb (st_depth s =? CONF_MAX_DEPTH) then go true
  else match rd (st_count s) (st_depth s) with None => None | Some n => go (negb (n =? 1)) end.

Definition structure_sequence_end (s : structure) : option structure :=
  match count_set (st_count s) (st_depth s) 0 with
  | None => None
  | Some count => Some (mk_structure (st_depth s) count (st_seq s) (st_done s) (st_error s))
  end.

Definition structure_scalar (s : structure) : option structure :=
  match rd (st_count s) (st_depth s) with
  | None => None
  | Some n =>
      let error := (st_depth s =? 0) || ((st_depth s =? CONF_ROOT_DEPTH) && negb (n =? 0)) in
      let n := if negb error && (st_depth s =? CONF_MAX_DEPTH) && (n =? 2) then 0 else n in
      match count_set (st_count s) (st_depth s) (u32 (n + 1)) with
      | None => None
      | Some count => Some (mk_structure (st_depth s) count (st_seq s) (st_done s) (st_error s || error))
      end
  end.

(** The switch. *)
Definition structure_event (e : yaml_event) (s : structure) : option structure :=
  match e with
  | YAML_STREAM_END_EVENT => Some (mk_structure (st_depth s) (st_count s) (st_seq s) true (st_error s))
  | YAML_MAPPING_START_EVENT => structure_mapping_start s
  | YAML_MAPPING_END_EVENT => structure_mapping_end s
  | YAML_SEQUENCE_START_EVENT => structure_sequence_start s
  | YAML_SEQUENCE_END_EVENT => structure_sequence_end s
  | YAML_SCALAR_EVENT _ => structure_scalar s
  | _ => Some s
  end.

Definition structure_round (s : structure) : C (structure + Z) :=
  status ← conf_event_next;
  if negb (status =? NC_OK) then mret (inr status)
  else
    e ← the_event;
    s ← reads (fun _ => structure_event e s);
    conf_event_done;;
    if negb (st_done s) && negb (st_error s) then mret (inl s)
    else conf_yaml_deinit;; mret (inr (if negb (st_error s) then NC_OK else NC_ERROR)).

Definition conf_validate_structure : C Z :=
  status ← conf_yaml_init;
  if negb (status =? NC_OK) then mret status
  else fuel ← event_fuel; iterate fuel structure_round structure_start.

Definition conf_pre_validate : C Z :=
  status ← conf_validate_document;
  if negb (status =? NC_OK) then mret status
  else
    status ← conf_validate_tokens;
    if negb (status =? NC_OK) then mret status
    else
      status ← conf_validate_structure;
      if negb (status =? NC_OK) then mret status
      else modify (cf_set_sound true);; mret NC_OK.

(** ** After the parse *)

Definition conf_server_name_cmp (s1 s2 : conf_server) : option Z := string_compare (cs_name s1) (cs_name s2).
Definition conf_pool_name_cmp (p1 p2 : conf_pool) : option Z := string_compare (cp_name p1) (cp_name p2).
Definition conf_pool_listen_cmp (p1 p2 : conf_pool) : option Z := string_compare (cl_pname (cp_listen p1)) (cl_pname (cp_listen p2)).

(** array_sort of an array whose elements were all stored. *)
Definition c_sort {A} (q : list A -> list A) (a : array A) : C (array A) :=
  l ← reads (fun _ => mapM id (contents a));
  mret (array_sort (fun _ => map Some (q l)) a).

(** for (i = 0; i < n - 1; i++) compare the elements i and i + 1. *)
Fixpoint adjacent_differ {A} (cmp : A -> A -> option Z) (a : array A) (i : Z) (n : nat) : C bool :=
  match n with
  | O => mret true
  | S n' =>
      x ← c_load a (array_get a i);
      y ← c_load a (array_get a (i + 1));
      t ← reads (fun _ => cmp x y);
      if t =? 0 then mret false else adjacent_differ cmp a (i + 1) n'
  end.

(** The status and the pool. *)
Definition conf_validate_server (cp : conf_pool) : C (Z * conf_pool) :=
  let nserver := array_n (cp_server cp) in
  if nserver =? 0 then mret (NC_ERROR, cp)
  else
    a ← c_sort ce_qsort_server (cp_server cp);
    let cp := cp_set_server a cp in
    valid ← adjacent_differ conf_server_name_cmp a 0 (Z.to_nat (u32 (nserver - 1)));
    mret (if negb valid then NC_ERROR else NC_OK, cp).

(** if (field == unset) field = default; *)
Definition default_num (get : conf_pool -> Z) (set : Z -> conf_pool -> conf_pool) (unset dflt : Z) (cp : conf_pool) : conf_pool :=
  if get cp =? unset then set dflt cp else cp.

Definition conf_validate_pool (cp : conf_pool) : C (Z * conf_pool) :=
  if negb (cl_valid (cp_listen cp)) then mret (NC_ERROR, cp)
  else
    let cp := default_num cp_distribution cp_set_distribution CONF_UNSET_DIST CONF_DEFAULT_DIST cp in
    let cp := default_num cp_hash cp_set_hash CONF_UNSET_HASH CONF_DEFAULT_HASH cp in
    let cp := default_num cp_timeout cp_set_timeout CONF_UNSET_NUM CONF_DEFAULT_TIMEOUT cp in
    let cp := default_num cp_backlog cp_set_backlog CONF_UNSET_NUM CONF_DEFAULT_LISTEN_BACKLOG cp in
    let cp := cp_set_client_connections CONF_DEFAULT_CLIENT_CONNECTIONS cp in
    let cp := default_num cp_redis cp_set_redis CONF_UNSET_NUM CONF_DEFAULT_REDIS cp in
    let cp := default_num cp_tcpkeepalive cp_set_tcpkeepalive CONF_UNSET_NUM CONF_DEFAULT_TCPKEEPALIVE cp in
    let cp := default_num cp_redis_db cp_set_redis_db CONF_UNSET_NUM CONF_DEFAULT_REDIS_DB cp in
    let cp := default_num cp_preconnect cp_set_preconnect CONF_UNSET_NUM CONF_DEFAULT_PRECONNECT cp in
    let cp := default_num cp_auto_eject_hosts cp_set_auto_eject_hosts CONF_UNSET_NUM CONF_DEFAULT_AUTO_EJECT_HOSTS cp in
    if cp_server_connections cp =? 0 then mret (NC_ERROR, cp)
    else
      let cp := default_num cp_server_connections cp_set_server_connections CONF_UNSET_NUM CONF_DEFAULT_SERVER_CONNECTIONS cp in
      let cp := default_num cp_server_retry_timeout cp_set_server_retry_timeout CONF_UNSET_NUM CONF_DEFAULT_SERVER_RETRY_TIMEOUT cp in
      let cp := default_num cp_server_failure_limit cp_set_server_failure_limit CONF_UNSET_NUM CONF_DEFAULT_SERVER_FAILURE_LIMIT cp in
      if (cp_redis cp =? 0) && (0 <? str_len (cp_redis_auth cp)) then mret (NC_ERROR, cp)
      else
        x ← conf_validate_server cp;
        if negb (x.1 =? NC_OK) then mret x else mret (NC_OK, cp_set_valid true x.2).

(** The loop over the pools. *)
Fixpoint validate_pools (i : Z) (n : nat) : C Z :=
  match n with
  | O => mret NC_OK
  | S n' =>
      a ← gets cf_pool;
      let p := Some (array_get a i) in
      cp ← pool_at p;
      x ← conf_validate_pool cp;
      pool_put p x.2;;
      if negb (x.1 =? NC_OK) then mret x.1 else validate_pools (i + 1) n'
  end.

(** array_sort(&cf->pool, cmp) and the loop behind it: no two neighbours are
    equal. *)
Definition pools_differ (q : list conf_pool -> list conf_pool) (cmp : conf_pool -> conf_pool -> option Z) (npool : Z) : C bool :=
  a ← gets cf_pool;
  a ← c_sort q a;
  modify (cf_set_pool a);;
  adjacent_differ cmp a 0 (Z.to_nat (u32 (npool - 1))).

Definition conf_post_validate : C Z :=
  a ← gets cf_pool;
  let npool := array_n a in
  if npool =? 0 then mret NC_ERROR
  else
    status ← validate_pools 0 (Z.to_nat npool);
    if negb (status =? NC_OK) then mret status
    else
      v ← pools_differ ce_qsort_listen conf_pool_listen_cmp npool;
      if negb v then mret NC_ERROR
      else
        v ← pools_differ ce_qsort_name conf_pool_name_cmp npool;
        mret (if negb v then NC_ERROR else NC_OK).

(** ** The whole file *)

(** conf_open: the struct, or NULL. [t] counts the allocations so far. *)
Definition conf_open (t : nat) : option conf :=
  if negb ce_fopen then None
  else if negb (ce_ok t ce_sizeof_conf) then None
  else
    let '(s1, arg) := array_init (ce_ok (t + 1)) array_null CONF_DEFAULT_ARGS SIZEOF_STRING in
    if negb (s1 =? NC_OK) then None
    else
      let '(s2, pool) := array_init (ce_ok (t + 2)) array_null CONF_DEFAULT_POOL SIZEOF_CONF_POOL in
      if negb (s2 =? NC_OK) then None
      else Some (mk_conf arg pool 0 false false false false false false false None None (mk_input [] [] []) (t + 3)).

Definition conf_destroy : C unit :=
  a ← gets cf_arg;
  a ← pop_all (fun value => let _ := string_deinit value in mret tt) (pop_fuel a) a;
  modify (cf_set_arg (array_deinit a));;
  a ← gets cf_pool;
  a ← pop_all (fun cp => conf_pool_deinit cp;; mret tt) (pop_fuel a) a;
  modify (cf_set_pool (array_deinit a)).

(** The three stages of conf_create; the status of the first that fails. *)
Definition conf_load : C Z :=
  status ← conf_pre_validate;
  if negb (status =? NC_OK) then mret status
  else
    status ← conf_parse;
    if negb (status =? NC_OK) then mret status else conf_post_validate.

(** The configuration, or NULL; [None] for a fault. *)
Definition conf_create (t : nat) : option (option conf) :=
  match conf_open t with
  | None => Some None
  | Some cf =>
      match conf_load cf with
      | None => None
      | Some (status, cf) =>
          if status =? NC_OK then Some (Some cf)
          else match conf_destroy cf with None => None | Some _ => Some None end
      end
  end.

End Parse.
