(* ===== verification/ConfPure.v ===== *)
(** The directives as functions: when memory is available, what a handler
    does depends on the value and the pool alone.

    [Yields m x]: from every state [m] returns [x] and changes nothing but the
    count of allocations. *)

From S2P Require Import Prelude CArray State CString Conf ConfParse.

Definition yields {A} (m : C A) (x : A) : Prop := forall cf, exists t, m cf = Some (x, cf_set_tick t cf).

Lemma cf_set_tick_same cf : cf_set_tick (cf_tick cf) cf = cf.
Proof. by destruct cf. Qed.

Lemma cf_set_tick_twice t t' cf : cf_set_tick t (cf_set_tick t' cf) = cf_set_tick t cf.
Proof. done. Qed.

(** [m] returns the same from all states, or faults in all. *)
Class Pure {A} (m : C A) : Prop := pure : (exists x, yields m x) \/ (forall cf, m cf = None).

Lemma pure_yields {A} (m : C A) `{!Pure m} cf x cf' : m cf = Some (x, cf') -> yields m x.
Proof.
  intros E. destruct pure as [[y Hy]|Hn]; [|by rewrite Hn in E]. destruct (Hy cf) as [t Ht]. rewrite E in Ht. by injection Ht as -> ->.
Qed.

#[export] Instance pure_ret {A} (x : A) : Pure (mret x).
Proof. left. exists x. intros cf. exists (cf_tick cf). by rewrite cf_set_tick_same. Qed.

#[export] Instance pure_fault {A} : Pure (fault (A := A)).
Proof. by right. Qed.

#[export] Instance pure_reads {A} (o : option A) : Pure (reads (fun _ => o)).
Proof.
  destruct o as [x|]; [left; exists x|by right]. intros cf. exists (cf_tick cf). unfold reads. by rewrite cf_set_tick_same.
Qed.

#[export] Instance pure_bind {A B} (m : C A) (k : A -> C B) : Pure m -> (forall x, Pure (k x)) -> Pure (m ≫= k).
Proof.
  intros [[x Hx]|Hn] Hk.
  - destruct (Hk x) as [[y Hy]|Hy]; [left; exists y|right]; intros cf; destruct (Hx cf) as [t Ht]; unfold mbind, ST_bind; rewrite Ht; [|by apply Hy].
    destruct (Hy (cf_set_tick t cf)) as [t' Ht']. exists t'. by rewrite Ht'.
  - right. intros cf. unfold mbind, ST_bind. by rewrite Hn.
Qed.

Lemma array_push_ext {A} (f g : Z -> bool) (a : array A) : (forall z, f z = g z) -> array_push f a = array_push g a.
Proof. intros H. unfold array_push. by rewrite H. Qed.

#[export] Hint Extern 3 (Pure (match ?x with _ => _ end)) => destruct x : typeclass_instances.
#[export] Hint Extern 3 (Pure (let _ := ?x in _)) => cbv zeta : typeclass_instances.

Section Pure.
Context `{env : ConfEnv}.
Hypothesis alloc_ok : forall n z, ce_ok n z = true.

#[local] Instance pure_alloc size : Pure (c_alloc size).
Proof. left. exists true. intros cf. exists (S (cf_tick cf)). unfold c_alloc, c_tick, mbind, ST_bind. simpl. by rewrite alloc_ok. Qed.

#[local] Instance pure_push {A} (a : array A) : Pure (c_push a).
Proof.
  left. exists (array_push (fun _ => true) a). intros cf. exists (S (cf_tick cf)). unfold c_push, c_tick, mbind, ST_bind. simpl.
  by rewrite (array_push_ext _ (fun _ => true)) by apply alloc_ok.
Qed.

#[local] Instance pure_array_init {A} (a : array A) n size : Pure (c_array_init a n size).
Proof.
  left. exists (array_init (fun _ => true) a n size). intros cf. exists (S (cf_tick cf)). unfold c_array_init, c_tick, mbind, ST_bind, array_init. simpl.
  by rewrite alloc_ok.
Qed.

#[local] Instance pure_duplicate dst src : Pure (c_string_duplicate dst src).
Proof. unfold c_string_duplicate. apply _. Qed.

#[local] Instance pure_copy dst d off len : Pure (c_string_copy dst d off len).
Proof. unfold c_string_copy. apply _. Qed.

#[local] Instance pure_data s : Pure (c_data s).
Proof. unfold c_data. apply _. Qed.

#[local] Instance pure_find value names i : Pure (find_string value names i).
Proof. revert i. induction names as [|n names IH]; intros i; simpl; apply _. Qed.

#[local] Instance pure_split d ds k p pt : Pure (split_server d ds k p pt).
Proof. revert k p pt. induction ds as [|ch ds IH]; intros k p pt; simpl; apply _. Qed.

Lemma pure_command cmd value cp : cmd ∈ conf_commands -> Pure (cmd_set cmd value cp).
Proof.
  unfold conf_commands. intros H. repeat (apply elem_of_cons in H as [-> |H]); [..|by apply elem_of_nil in H]; simpl;
    unfold conf_set_listen, conf_set_hash, conf_set_hashtag, conf_set_distribution, conf_set_num, conf_set_bool, conf_set_string, conf_add_server,
      listen_unix, listen_inet, nc_resolve, nc_resolve_inet, server_numbers, server_names, atoi_part; apply _.
Qed.

Lemma pure_pool_init name : Pure (conf_pool_init name).
Proof. unfold conf_pool_init. apply _. Qed.

End Pure.
