(* ===== verification/ConfSafe.v ===== *)
(** The directives do not fault: whatever the text of a value, no handler
    reads or writes outside the strings, provided the text has no NUL. *)

From S2P Require Import Prelude CArray State CString Conf ConfParse ConfPure.

(** ** Strings with a terminator *)

Definition text_ok (v : list Z) : Prop := (0 ∉ v) /\ zlen v < 2 ^ 32 - 1.

(** [strrchr_from] stays in the block and finds an offset in its range. *)
Lemma strrchr_from_total d start ch n : 0 <= start -> start + Z.of_nat n <= zlen d ->
  exists o, strrchr_from d start n ch = Some o /\ forall q, o = Some q -> start <= q < start + Z.of_nat n /\ rd d q = Some ch.
Proof.
  intros Hs. induction n as [|n IH]; intros Hn; simpl; [by exists None|].
  destruct (rd_is_Some d (start + Z.of_nat n)) as [x Hx]; [lia|]. rewrite Hx. destruct (Z.eqb_spec x ch) as [<- |].
  - eexists. split; [done|]. intros q [= <-]. split; [lia|done].
  - destruct IH as (o & E & H); [lia|]. exists o. split; [done|]. intros q Hq. destruct (H q Hq). split; [lia|done].
Qed.

Lemma nc_strrchr_total d p ch : p < zlen d ->
  exists o, nc_strrchr d p 0 ch = Some o /\ forall q, o = Some q -> 0 <= q <= p /\ rd d q = Some ch.
Proof.
  intros Hp. unfold nc_strrchr. destruct (Z.leb_spec 0 p).
  - destruct (strrchr_from_total d 0 ch (Z.to_nat (p - 0 + 1))) as (o & E & H1); [lia..|]. exists o. split; [done|].
    intros q Hq. destruct (H1 q Hq). split; [lia|done].
  - replace (Z.to_nat (p - 0 + 1)) with 0%nat by lia. by exists None.
Qed.

Lemma atoi_loop_total d n : forall line v, 0 <= line -> line + Z.of_nat n <= zlen d -> is_Some (atoi_loop d line n v).
Proof.
  induction n as [|n IH]; intros line v Hl Hn; simpl; [by eexists|]. destruct (rd_is_Some d line) as [x ->]; [lia|].
  destruct (_ || _); [by eexists|]. apply IH; lia.
Qed.

Lemma nc_atoi_total d line n : 0 <= line -> 0 <= n -> line + n <= zlen d -> is_Some (nc_atoi d line n).
Proof.
  intros Hl Hn Hd. unfold nc_atoi. destruct (_ =? 0); [by eexists|].
  destruct (atoi_loop_total d (Z.to_nat n) line 0) as [[x|] ->]; [lia|lia|by eexists|by eexists].
Qed.

(** Copies of a part of a text. *)
Lemma string_copy_total dst v off len :
  text_ok v -> 0 <= off -> 0 <= len -> off + len <= zlen v ->
  exists s, string_copy true dst (drop (Z.to_nat off) (v ++ [0])) len = Some (NC_OK, s) /\ str_is s (slice v off (off + len)).
Proof.
  intros [Hv Hz] Ho Hl Hlen. destruct (drop (Z.to_nat (off + len)) (v ++ [0])) as [|ch rest] eqn:E.
  { apply (f_equal length) in E. rewrite length_drop, length_app in E. unfold zlen in *. simpl in E. lia. }
  assert (Ed : drop (Z.to_nat off) (v ++ [0]) = slice v off (off + len) ++ ch :: rest).
  { rewrite <- E. rewrite Z2Nat.inj_add by lia. rewrite <- drop_drop. unfold slice. replace (off + len - off) with len by lia.
    rewrite drop_app_le by (unfold zlen in *; lia). rewrite <- (take_drop (Z.to_nat len) (drop (Z.to_nat off) v ++ [0])) at 1.
    rewrite take_app_le; [done|]. rewrite length_drop. unfold zlen in *. lia. }
  rewrite Ed. assert (Hsl : zlen (slice v off (off + len)) = len).
  { unfold slice, zlen in *. rewrite length_take, length_drop. lia. }
  destruct (string_copy_spec dst (slice v off (off + len)) ch rest) as (s & Es & Hs); [|lia|rewrite Hsl in Es; by exists s].
  intros Hin. apply Hv. rewrite <- (take_drop (Z.to_nat off) v). apply elem_of_app. right.
  rewrite <- (take_drop (Z.to_nat (off + len - off)) (drop _ v)). apply elem_of_app. by left.
Qed.

Lemma cstring_at_text l rest : 0 ∉ l -> cstring_at (l ++ 0 :: rest) = Some l.
Proof.
  induction l as [|ch l IH]; intros Hl; simpl; [done|]. apply not_elem_of_cons in Hl as [Hc Hl].
  destruct (Z.eqb_spec ch 0); [congruence|]. by rewrite IH.
Qed.

(** strtol reads up to the terminator. *)
Lemma skip_space_text v : exists v', skip_space (v ++ [0]) = Some (v' ++ [0]) /\ (length v' <= length v)%nat.
Proof.
  induction v as [|ch v IH]; simpl; [by exists []|]. destruct (isspace ch); [|by exists (ch :: v)].
  destruct IH as (v' & E & H). exists v'. split; [done|lia].
Qed.

Lemma octal_text v n : is_Some (octal (v ++ [0]) n).
Proof. revert n. induction v as [|ch v IH]; intros n; simpl; [by eexists|]. destruct (_ && _); [apply IH|by eexists]. Qed.

Lemma strtol8_text v : is_Some (strtol8 (v ++ [0])).
Proof.
  unfold strtol8. destruct (skip_space_text v) as (v' & -> & _). cbv zeta.
  assert (H : exists v2, (if bool_decide (head (v' ++ [0]) = Some 45) || bool_decide (head (v' ++ [0]) = Some 43) then tail (v' ++ [0]) else v' ++ [0]) = v2 ++ [0]).
  { destruct v' as [|ch v']; [by exists []|]. destruct (_ || _); by eexists. }
  destruct H as [v2 ->]. destruct (octal_text v2 0) as [x ->]. by eexists.
Qed.

(** ** The handlers *)

Section Safe.
Context `{env : ConfEnv}.
Hypothesis alloc_ok : forall n z, ce_ok n z = true.

(** [m] returns a value that satisfies [Q], from every state. *)
Definition total {A} (m : C A) (Q : A -> Prop) : Prop := forall cf, runs m cf (fun x _ => Q x).

Lemma total_ret {A} (x : A) (Q : A -> Prop) : Q x -> total (mret x) Q.
Proof. intros H cf. by apply runs_ret. Qed.

Lemma total_bind {A B} (m : C A) (k : A -> C B) P Q : total m P -> (forall x, P x -> total (k x) Q) -> total (m ≫= k) Q.
Proof. intros Hm Hk cf. apply runs_bind. eapply runs_mono; [apply Hm|]. intros x cf' Hx. by apply Hk. Qed.

Lemma total_mono {A} (m : C A) (P Q : A -> Prop) : total m P -> (forall x, P x -> Q x) -> total m Q.
Proof. intros Hm H cf. eapply runs_mono; [apply Hm|]. auto. Qed.

Lemma total_reads {A} (o : option A) (Q : A -> Prop) : (exists x, o = Some x /\ Q x) -> total (reads (fun _ => o)) Q.
Proof. intros (x & -> & H) cf. by eapply runs_reads. Qed.

Lemma total_alloc z (Q : bool -> Prop) : Q true -> total (c_alloc z) Q.
Proof. intros H cf. unfold c_alloc, c_tick. repeat run_step. by rewrite alloc_ok. Qed.

Lemma total_push {A} (a : array A) (Q : option (Z * array A) -> Prop) : Q (array_push (fun _ => true) a) -> total (c_push a) Q.
Proof. intros H cf. unfold c_push, c_tick. repeat run_step. by rewrite (array_push_ext _ (fun _ => true)) by apply alloc_ok. Qed.

Lemma total_duplicate dst v (Q : Z * cstr -> Prop) :
  text_ok v -> (forall s, str_is s v -> Q (NC_OK, s)) -> total (c_string_duplicate dst (string_text v)) Q.
Proof.
  intros [Hv Hz] HQ. unfold c_string_duplicate. eapply total_bind; [by apply (total_alloc _ (fun b => b = true))|]. intros ? ->. apply total_reads.
  unfold string_duplicate. simpl. destruct (string_copy_spec dst v 0 [] Hv Hz) as (s & E & Hs). exists (NC_OK, s). auto.
Qed.

Lemma total_copy dst v off len (Q : Z * cstr -> Prop) :
  text_ok v -> 0 <= off -> 0 <= len -> off + len <= zlen v -> (forall s, str_is s (slice v off (off + len)) -> Q (NC_OK, s)) ->
  total (c_string_copy dst (v ++ [0]) off len) Q.
Proof.
  intros Hv Ho Hl Hlen HQ. unfold c_string_copy. eapply total_bind; [by apply (total_alloc _ (fun b => b = true))|]. intros ? ->.
  destruct (Z.leb_spec 0 off); [|lia]. apply total_reads. destruct (string_copy_total dst v off len) as (s & E & Hs); try done. exists (NC_OK, s). auto.
Qed.

Lemma total_data v (Q : list Z -> Prop) : Q (v ++ [0]) -> total (c_data (string_text v)) Q.
Proof. intros H. apply total_reads. by eexists. Qed.

Lemma total_first v (Q : Z -> Prop) : (forall ch, rd (v ++ [0]) 0 = Some ch -> Q ch) -> total (reads (fun _ => rd (v ++ [0]) 0)) Q.
Proof. intros H. apply total_reads. destruct v as [|ch v]; eexists; split; try done; by apply H. Qed.

Lemma total_strrchr v p ch (Q : option Z -> Prop) :
  p < zlen v -> (forall o, (forall q, o = Some q -> 0 <= q <= p) -> Q o) -> total (reads (fun _ => nc_strrchr (v ++ [0]) p 0 ch)) Q.
Proof.
  intros Hp H. apply total_reads. destruct (nc_strrchr_total (v ++ [0]) p ch) as (o & E & Ho); [rewrite zlen_app; change (zlen [0]) with 1; lia|].
  exists o. split; [done|]. apply H. intros q Hq. by apply Ho.
Qed.

Lemma total_atoi v line n (Q : Z -> Prop) :
  0 <= line -> 0 <= n -> line + n <= zlen v + 1 -> (forall x, Q x) -> total (reads (fun _ => nc_atoi (v ++ [0]) line n)) Q.
Proof.
  intros Hl Hn Hv H. apply total_reads. destruct (nc_atoi_total (v ++ [0]) line n) as [x E]; [done|done|rewrite zlen_app; done|]. exists x. auto.
Qed.

Lemma u32_span p q : 0 <= q <= p + 1 -> p < 2 ^ 32 - 1 -> u32 (p - q + 1) = p - q + 1.
Proof. intros. apply u32_small. unfold is_u32. lia. Qed.

(** The value is the text [v]. *)
Variable v : list Z.
Hypothesis Hv : text_ok v.

Let trivial_result {A} : A -> Prop := fun _ => True.

Lemma total_set_string get set cp : total (conf_set_string get set (string_text v) cp) trivial_result.
Proof.
  unfold conf_set_string. destruct (str_data (get cp)); [by apply total_ret|].
  eapply total_bind; [by apply (total_duplicate _ _ trivial_result Hv)|]. intros x _. by apply total_ret.
Qed.

Lemma total_set_hashtag cp : total (conf_set_hashtag (string_text v) cp) trivial_result.
Proof.
  unfold conf_set_hashtag. destruct (str_data (cp_hash_tag cp)); [by apply total_ret|]. destruct (negb _); [by apply total_ret|].
  eapply total_bind; [by apply (total_duplicate _ _ trivial_result Hv)|]. intros x _. by apply total_ret.
Qed.

Lemma total_set_num get set cp : total (conf_set_num get set (string_text v) cp) trivial_result.
Proof.
  unfold conf_set_num. destruct (negb _); [by apply total_ret|]. eapply total_bind; [by apply (total_data v (fun d => d = v ++ [0]))|]. intros ? ->.
  eapply total_bind; [apply (total_atoi v _ _ trivial_result); try done; [apply zlen_nonneg|simpl; lia]|]. intros num _. destruct (num <? 0); by apply total_ret.
Qed.

Lemma total_compare l (Q : Z -> Prop) : (forall x, Q x) -> total (reads (fun _ => string_compare (string_text v) (string_text l))) Q.
Proof.
  intros H. apply total_reads. destruct (string_compare_spec _ _ v l (str_is_text v) (str_is_text l)) as (c & E & _); [apply Hv|]. exists c. auto.
Qed.

Lemma total_set_bool get set cp : total (conf_set_bool get set (string_text v) cp) trivial_result.
Proof.
  unfold conf_set_bool. destruct (negb _); [by apply total_ret|]. eapply total_bind; [by apply (total_compare _ trivial_result)|]. intros t _.
  destruct (t =? 0); [by apply total_ret|]. eapply total_bind; [by apply (total_compare _ trivial_result)|]. intros f _. destruct (f =? 0); by apply total_ret.
Qed.

Lemma total_find names i : total (find_string (string_text v) names i) trivial_result.
Proof.
  revert i. induction names as [|n names IH]; intros i; simpl; [by apply total_ret|].
  eapply total_bind; [by apply (total_compare _ trivial_result)|]. intros t _. destruct (t =? 0); [by apply total_ret|apply IH].
Qed.

Lemma total_set_hash cp : total (conf_set_hash (string_text v) cp) trivial_result.
Proof. unfold conf_set_hash. destruct (negb _); [by apply total_ret|]. eapply total_bind; [apply total_find|]. intros i _. by apply total_ret. Qed.

Lemma total_set_distribution cp : total (conf_set_distribution (string_text v) cp) trivial_result.
Proof. unfold conf_set_distribution. destruct (negb _); [by apply total_ret|]. eapply total_bind; [apply total_find|]. intros i _. by apply total_ret. Qed.

(** The length of the name, when there is no error. *)
Let name_fits (y : (list Z + Z) * conf_listen) : Prop := match y.1 with inl _ => True | inr n => 0 <= n <= zlen v end.

Lemma total_listen_unix field : total (listen_unix (string_text v) (v ++ [0]) field) name_fits.
Proof.
  destruct Hv as [_ Hz]. unfold listen_unix. eapply total_bind.
  { apply (total_strrchr v _ _ (fun o => forall q, o = Some q -> 0 <= q <= zlen v - 1)); simpl; [lia|]. auto. }
  intros [q|] Hq; [|apply total_ret; unfold name_fits; simpl; pose proof (zlen_nonneg v); lia]. specialize (Hq q eq_refl).
  eapply total_bind.
  { apply (total_reads _ trivial_result). rewrite drop_app_le by (unfold zlen in *; lia). destruct (strtol8_text (drop (Z.to_nat (q + 1)) v)) as [x ->]. by eexists. }
  intros t _. apply total_ret. unfold name_fits. destruct (_ || _); simpl; [done|]. rewrite u32_span; lia.
Qed.

Lemma total_listen_inet field : total (listen_inet (string_text v) (v ++ [0]) field) name_fits.
Proof.
  destruct Hv as [_ Hz]. unfold listen_inet. eapply total_bind.
  { apply (total_strrchr v _ _ (fun o => forall q, o = Some q -> 0 <= q <= zlen v - 1)); simpl; [lia|]. auto. }
  intros [q|] Hq; [|by apply total_ret]. specialize (Hq q eq_refl). simpl. rewrite (u32_span (zlen v - 1) (q + 1)) by lia.
  eapply total_bind; [apply (total_atoi v _ _ trivial_result); try done; lia|]. intros port _.
  apply total_ret. unfold name_fits. destruct (_ || _); simpl; [done|]. rewrite u32_span; lia.
Qed.

Lemma total_resolve s l port si : str_is s l -> 0 ∉ l -> total (nc_resolve s port si) trivial_result.
Proof.
  intros [E [rest D]] Hl. unfold nc_resolve, c_data. eapply total_bind; [apply (total_reads _ (fun d => d = l ++ 0 :: rest)); by eauto|]. intros ? ->.
  eapply total_bind; [apply (total_reads _ trivial_result); destruct l; by eexists|]. intros ch _. destruct (ch =? 47); [by apply total_ret|].
  unfold nc_resolve_inet. eapply total_bind; [apply (total_reads _ trivial_result); rewrite cstring_at_text by done; by eexists|]. intros n _. by apply total_ret.
Qed.

Lemma total_set_listen cp : total (conf_set_listen (string_text v) cp) trivial_result.
Proof.
  unfold conf_set_listen. destruct (cl_valid _); [by apply total_ret|]. eapply total_bind; [by apply (total_duplicate _ _ trivial_result Hv)|]. intros [st s] _.
  destruct (negb _); [by apply total_ret|]. eapply total_bind; [by apply (total_data v (fun d => d = v ++ [0]))|]. intros ? ->.
  eapply total_bind; [by apply (total_first v trivial_result)|]. intros ch _. eapply total_bind with (P := name_fits).
  { destruct (ch =? 47); [apply total_listen_unix|apply total_listen_inet]. }
  intros [[e|n] field] Hn; [by apply total_ret|]. unfold name_fits in Hn. simpl in Hn. eapply total_bind.
  { apply (total_copy _ v 0 n (fun x => str_is x.2 (slice v 0 (0 + n)))); [done|lia|lia|lia|by intros]. }
  intros [st2 s2] Hs. simpl in *. destruct (negb _); [by apply total_ret|]. eapply total_bind; [eapply total_resolve; [exact Hs|]|].
  { intros Hin. destruct Hv as [Hv0 _]. apply Hv0. unfold slice in Hin. rewrite drop_0 in Hin. rewrite <- (take_drop (Z.to_nat (0 + n - 0)) v). apply elem_of_app. by left. }
  intros [st3 si] _. simpl. destruct (negb _); by apply total_ret.
Qed.

(** ** Server lines *)

Definition part_ok (o : option (Z * Z)) : Prop := forall off len, o = Some (off, len) -> 1 <= off /\ 0 <= len /\ off + len <= zlen v.

(** The parts found behind [p] in [k] rounds. *)
Record parts_ok (k p : Z) (pt : parts) : Prop := {
  po_p : -1 <= p <= zlen v - 1;
  po_name : part_ok (pt_name pt);
  po_weight : part_ok (pt_weight pt);
  po_port : part_ok (pt_port pt);
  po_rest : 2 <= k -> p + 2 <= zlen v;
  po_last : k <= 3 -> pt_port pt = None \/ exists len, pt_port pt = Some (p + 2, len)
}.

Lemma part_ok_new p q : 0 <= q <= p -> p <= zlen v - 1 -> part_ok (Some (q + 1, u32 (p - (q + 1) + 1))).
Proof. destruct Hv as [_ Hz]. intros Hq Hp off len [= <- <-]. rewrite u32_span; lia. Qed.

Lemma parts_ok_set k p q pt :
  0 <= k -> (k <= 2 -> pt_port pt = None) -> parts_ok k p pt -> 0 <= q <= p -> parts_ok (k + 1) (q - 1) (set_part k (q + 1, u32 (p - (q + 1) + 1)) pt).
Proof.
  intros Hk H2 [P1 P2 P3 P4 P5 P6] Hq. pose proof (part_ok_new p q Hq ltac:(lia)) as Hnew. unfold set_part.
  destruct (Z.eqb_spec k 0); [|destruct (Z.eqb_spec k 1); [|destruct (Z.eqb_spec k 2)]]; constructor; simpl; try done; try lia.
  - intros _. left. apply H2. lia.
  - intros _. left. apply H2. lia.
  - intros _. right. replace (q - 1 + 2) with (q + 1) by lia. by eexists.
Qed.

Lemma total_split ds : forall k p pt, 0 <= k -> (k <= 2 -> pt_port pt = None) -> parts_ok k p pt ->
  total (split_server (v ++ [0]) ds k p pt) (fun '(k, p, pt) => parts_ok k p pt).
Proof.
  induction ds as [|ch ds IH]; intros k p pt Hk H2 Hpt; simpl; [by apply total_ret|]. pose proof Hpt as [Hp _ _ _ _ _].
  eapply total_bind; [apply (total_strrchr v p ch (fun o => forall q, o = Some q -> 0 <= q <= p)); [lia|auto]|].
  intros [q|] Hq.
  - specialize (Hq q eq_refl). apply IH; [lia| |by apply parts_ok_set]. intros Hk2. unfold set_part.
    destruct (Z.eqb_spec k 0); [|destruct (Z.eqb_spec k 1); [|lia]]; apply H2; lia.
  - destruct (Z.eqb_spec k 0) as [-> |]; [|by apply total_ret]. apply IH; [lia|intros; apply H2; lia|]. destruct Hpt. constructor; try done; lia.
Qed.

Lemma total_atoi_part o (Q : Z -> Prop) : part_ok o -> (forall x, Q x) -> total (atoi_part (v ++ [0]) o) Q.
Proof.
  intros Ho HQ. unfold atoi_part. destruct o as [[off len]|]; simpl; [destruct (Ho off len eq_refl)|pose proof (zlen_nonneg v)]; apply total_atoi; (lia || done).
Qed.

Lemma total_server_names k p pt field : parts_ok k p pt -> 2 <= k <= 3 -> total (server_names (v ++ [0]) (u32 (p - 0 + 1)) pt field) trivial_result.
Proof.
  intros [P1 P2 P3 P4 P5 P6] Hk. destruct (Hv) as [_ Hz]. unfold server_names. rewrite u32_span by lia.
  set (nm := match pt_name pt with Some _ => _ | None => _ end).
  assert (Hn : 0 <= nm.1 /\ 0 <= nm.2 /\ nm.1 + nm.2 <= zlen v).
  { unfold nm. destruct (pt_name pt) as [[off len]|]; [destruct (P2 off len eq_refl); simpl; lia|]. specialize (P5 ltac:(lia)).
    destruct (_ =? _); simpl; [lia|]. destruct (P6 ltac:(lia)) as [-> |[len E]]; simpl; [rewrite u32_small by (unfold is_u32; lia); lia|].
    rewrite E. destruct (P4 _ _ E). simpl. rewrite u32_small by (unfold is_u32; lia). lia. }
  destruct nm as [name namelen]. simpl in Hn. eapply total_bind; [apply (total_copy _ v name namelen trivial_result); (done || lia)|].
  intros [st s] _. simpl. destruct (negb _); [by apply total_ret|]. eapply total_bind; [apply (total_copy _ v 0 (p - 0 + 1) trivial_result); (done || lia)|].
  intros [st2 s2] _. simpl. destruct (negb _); by apply total_ret.
Qed.

Lemma total_add_server cp : total (conf_add_server (string_text v) cp) trivial_result.
Proof.
  destruct (Hv) as [_ Hz]. unfold conf_add_server. eapply total_bind; [by apply (total_push _ trivial_result)|]. intros [[fp a]|] _; [|by apply total_ret].
  eapply total_bind; [by apply (total_data v (fun d => d = v ++ [0]))|]. intros ? ->. eapply total_bind; [by apply (total_first v trivial_result)|]. intros ch _.
  eapply total_bind; [apply total_split; [done|done|]|].
  { constructor; simpl; try done; pose proof (zlen_nonneg v); solve [lia | auto]. }
  intros [[k p] pt] Hpt. destruct (Z.eqb_spec k (if ch =? 47 then 2 else 3)) as [Ek|]; simpl; [|by apply total_ret].
  assert (Hk : 2 <= k <= 3) by (destruct (ch =? 47); lia).
  set (pn := if 0 <? _ then _ else _). assert (Hpn : 0 <= pn <= zlen v).
  { unfold pn. destruct Hpt as [? P2 ? ? ? ?]. destruct (pt_name pt) as [[off len]|]; simpl; [|pose proof (zlen_nonneg v); lia].
    destruct (P2 off len eq_refl). destruct (0 <? len); [|pose proof (zlen_nonneg v); lia]. rewrite u32_small; unfold is_u32; lia. }
  eapply total_bind; [apply (total_copy _ v 0 pn trivial_result); (done || lia)|]. intros [st s] _. simpl. destruct (negb _); [by apply total_ret|].
  eapply total_bind with (P := trivial_result); [|intros y _; by apply total_ret]. unfold server_numbers.
  eapply total_bind; [apply (total_atoi_part _ trivial_result); [apply Hpt|done]|]. intros weight _. destruct (weight <? 0); [by apply total_ret|].
  destruct (weight =? 0); [by apply total_ret|]. eapply total_bind; [by apply (total_first v trivial_result)|]. intros ch2 _.
  destruct (ch2 =? 47); [by eapply total_server_names|]. eapply total_bind; [apply (total_atoi_part _ trivial_result); [apply Hpt|done]|]. intros port _.
  destruct (_ || _); [by apply total_ret|by eapply total_server_names].
Qed.

Lemma total_command cmd cp : cmd ∈ conf_commands -> total (cmd_set cmd (string_text v) cp) trivial_result.
Proof.
  unfold conf_commands. intros H. repeat (apply elem_of_cons in H as [-> |H]); [..|by apply elem_of_nil in H]; simpl;
    auto using total_set_listen, total_set_hash, total_set_hashtag, total_set_distribution, total_set_num, total_set_bool, total_set_string, total_add_server.
Qed.

End Safe.
