(* ===== verification/ConfTree.v ===== *)
(** The YAML trees a configuration file can be: what conf_validate_structure
    accepts, and that the event driven parse reads it as the recursive
    interpretation of the tree. *)

From S2P Require Import Prelude CArray State CString Conf ConfParse ConfPure ConfSafe.

(** The status is NC_OK, or NC_ERROR. *)
Ltac run_ok := change (negb (NC_OK =? NC_OK)) with false; cbv iota.
Ltac run_err := change (negb (NC_ERROR =? NC_OK)) with true; cbv iota.

(** ** YAML documents *)

(** The nodes of a document without aliases. *)
#[warnings="-register-all"]
Inductive node := Scalar (v : list Z) | Sequence (l : list node) | Mapping (l : list (node * node)).

(** The events libyaml delivers for a node. *)
Fixpoint events (n : node) : list yaml_event :=
  match n with
  | Scalar v => [YAML_SCALAR_EVENT v]
  | Sequence l => YAML_SEQUENCE_START_EVENT :: concat (map events l) ++ [YAML_SEQUENCE_END_EVENT]
  | Mapping l => YAML_MAPPING_START_EVENT :: concat (map (fun kv => events kv.1 ++ events kv.2) l) ++ [YAML_MAPPING_END_EVENT]
  end.

(** ... and for a file with one document. *)
Definition stream (root : node) : list yaml_event :=
  YAML_STREAM_START_EVENT :: YAML_DOCUMENT_START_EVENT :: events root ++ [YAML_DOCUMENT_END_EVENT; YAML_STREAM_END_EVENT].

(** ** The accepted trees *)

Definition is_scalar (n : node) : bool := match n with Scalar _ => true | _ => false end.

(** A directive: a scalar key with a scalar or a sequence of scalars. *)
Definition is_directive (kv : node * node) : bool :=
  is_scalar kv.1 && match kv.2 with Scalar _ => true | Sequence l => forallb is_scalar l | Mapping _ => false end.

Definition is_sequence (n : node) : bool := match n with Sequence _ => true | _ => false end.

(** How many of the directives are sequences. *)
Definition sequences (ds : list (node * node)) : nat := length (filter (fun d : node * node => is_sequence d.2 = true) ds).

(** A pool has a name and directives, exactly one of them a sequence. *)
Definition is_pool (kv : node * node) : bool :=
  is_scalar kv.1 &&
  match kv.2 with
  | Mapping ds => forallb is_directive ds && bool_decide (sequences ds = 1%nat)
  | _ => false
  end.

Definition is_configuration (root : node) : bool := match root with Mapping ps => forallb is_pool ps | _ => false end.

(** ** The check of the structure *)

(** The events one after the other, up to the first error. *)
Fixpoint check (es : list yaml_event) (s : structure) : option structure :=
  match es with
  | [] => Some s
  | e :: es' => if st_done s || st_error s then Some s else match structure_event e s with None => None | Some s => check es' s end
  end.

Lemma check_stop es s : st_error s = true -> check es s = Some s.
Proof. intros E. destruct es; simpl; [done|]. by rewrite E, orb_true_r. Qed.

Lemma check_app es es' s : check (es ++ es') s = match check es s with None => None | Some s => check es' s end.
Proof.
  revert s. induction es as [|e es IH]; intros s; simpl; [done|].
  destruct (st_done s || st_error s) eqn:E; [destruct es'; simpl; by rewrite ?E|]. destruct (structure_event e s); [apply IH|done].
Qed.

(** Inside the pools: [n] scalars since the last directive, [seq] after a
    sequence. *)
Definition at_depth2 (c0 c1 n : Z) (seq : bool) : structure := mk_structure 2 [c0; c1; n] seq false false.
Definition at_depth1 (c0 c1 c2 : Z) : structure := mk_structure 1 [c0; c1; c2] false false false.

(** The check ends with an error, or in a state that satisfies [P]. *)
Definition checks (good : bool) (es : list yaml_event) (s : structure) (P : structure -> Prop) : Prop :=
  exists s', check es s = Some s' /\ if good then P s' else st_error s' = true.

Lemma checks_app good1 good2 es es' s P Q :
  checks good1 es s P -> (forall s', P s' -> checks good2 es' s' Q) -> checks (good1 && good2) (es ++ es') s Q.
Proof.
  intros (s1 & E1 & H1) H2. unfold checks. rewrite check_app, E1. destruct good1; simpl; [by apply H2|].
  exists s1. by rewrite check_stop.
Qed.

Lemma checks_mono good es s (P Q : structure -> Prop) : (forall s', P s' -> Q s') -> checks good es s P -> checks good es s Q.
Proof. intros HPQ (s' & E & H). exists s'. split; [done|]. destruct good; auto. Qed.

(** The first event is an error. *)
Lemma checks_error e es s P : st_done s = false -> (exists s', structure_event e s = Some s' /\ st_error s' = true) -> checks false (e :: es) s P.
Proof.
  intros Hd (s' & E & He). unfold checks. simpl. rewrite Hd. destruct (st_error s) eqn:E0; simpl; [by eauto|]. rewrite E, check_stop by done. by eauto.
Qed.

(** The first event is not. *)
Lemma checks_step good e es s s' P :
  st_done s = false -> st_error s = false -> structure_event e s = Some s' -> checks good es s' P -> checks good (e :: es) s P.
Proof. intros Hd He E (s2 & E2 & H). exists s2. simpl. by rewrite Hd, He, E. Qed.

(** The elements of the sequence. *)
Lemma check_elements c0 c1 l n : n = 1 \/ n = 2 ->
  checks (forallb is_scalar l) (concat (map events l)) (at_depth2 c0 c1 n true) (fun s => exists n', (n' = 1 \/ n' = 2) /\ s = at_depth2 c0 c1 n' true).
Proof.
  revert n. induction l as [|x l IH]; intros n Hn; simpl; [exists (at_depth2 c0 c1 n true); by eauto|].
  eapply checks_app with (P := fun s => exists n', (n' = 1 \/ n' = 2) /\ s = at_depth2 c0 c1 n' true); [|intros s (n' & Hn' & ->); by apply IH].
  destruct x as [v|l'|m]; simpl.
  - destruct Hn as [-> | ->]; (eexists; split; [reflexivity|]); [exists 2|exists 1]; auto.
  - apply checks_error; [done|]. by eexists.
  - apply checks_error; [done|]. by eexists.
Qed.

(** A directive, after [n] scalars. *)
Lemma check_directive c0 c1 n seq kv : n = 0 \/ n = 2 ->
  checks (is_directive kv && negb (seq && is_sequence kv.2)) (events kv.1 ++ events kv.2) (at_depth2 c0 c1 n seq)
    (fun s => exists n', (n' = 0 \/ n' = 2) /\ s = at_depth2 c0 c1 n' (seq || is_sequence kv.2)).
Proof.
  intros Hn. destruct kv as [k v]. unfold is_directive. simpl. rewrite <- andb_assoc.
  eapply checks_app with (P := fun s => s = at_depth2 c0 c1 1 seq).
  - destruct k as [u|l|m]; simpl.
    + destruct Hn as [-> | ->]; eexists; split; reflexivity.
    + apply checks_error; [done|]. destruct seq, Hn as [-> | ->]; by eexists.
    + apply checks_error; [done|]. by eexists.
  - intros s ->. destruct v as [u|l|m]; simpl.
    + rewrite andb_false_r. simpl. eexists. split; [reflexivity|]. exists 2. rewrite (orb_false_r seq). by auto.
    + rewrite andb_true_r, orb_true_r. destruct seq; simpl.
      * rewrite andb_false_r. apply checks_error; [done|]. by eexists.
      * eapply checks_step; [done|done|reflexivity|]. eapply checks_app; [apply check_elements; auto|].
        intros s (n' & _ & ->). eexists. split; [reflexivity|]. exists 0. by auto.
    + apply checks_error; [done|]. by eexists.
Qed.

Lemma check_directives c0 c1 ds : forall n (seq : bool), n = 0 \/ n = 2 ->
  checks (forallb is_directive ds && bool_decide (sequences ds <= if seq then 0 else 1)%nat) (concat (map (fun kv => events kv.1 ++ events kv.2) ds)) (at_depth2 c0 c1 n seq)
    (fun s => exists n', (n' = 0 \/ n' = 2) /\ s = at_depth2 c0 c1 n' (seq || bool_decide (0 < sequences ds)%nat)).
Proof.
  induction ds as [|kv ds IH]; intros n seq Hn.
  { exists (at_depth2 c0 c1 n seq). split; [done|]. destruct seq; exists n; by split. }
  assert (Es : sequences (kv :: ds) = ((if is_sequence kv.2 then 1 else 0) + sequences ds)%nat).
  { unfold sequences. rewrite filter_cons. destruct (is_sequence kv.2); [by rewrite decide_True|by rewrite decide_False]. }
  assert (E : forallb is_directive (kv :: ds) && bool_decide (sequences (kv :: ds) <= if seq then 0 else 1)%nat =
    (is_directive kv && negb (seq && is_sequence kv.2)) && (forallb is_directive ds && bool_decide (sequences ds <= if seq || is_sequence kv.2 then 0 else 1)%nat)).
  { rewrite Es. simpl. destruct (is_directive kv), (forallb is_directive ds), seq, (is_sequence kv.2); simpl; try done; repeat case_bool_decide; done || lia. }
  rewrite E. simpl. eapply checks_app; [by apply check_directive|]. intros s (n' & Hn' & ->).
  eapply checks_mono; [|by apply IH]. intros s (n2 & Hn2 & ->). exists n2. split; [done|]. f_equal. rewrite Es. destruct seq, (is_sequence kv.2); simpl; try done.
Qed.

(** A pool. *)
Lemma check_pool c0 c2 kv : c2 = 0 \/ c2 = 2 ->
  checks (is_pool kv) (events kv.1 ++ events kv.2) (at_depth1 c0 0 c2) (fun s => exists n', (n' = 0 \/ n' = 2) /\ s = at_depth1 c0 0 n').
Proof.
  intros Hn. destruct kv as [k v]. unfold is_pool. simpl.
  eapply checks_app with (P := fun s => s = at_depth1 c0 1 c2).
  - destruct k as [u|l|m]; simpl; [by eexists|..]; (apply checks_error; [done|by eexists]).
  - intros s ->. destruct v as [u|l|ds]; simpl; [apply checks_error; [done|by eexists]..|].
    assert (E : forallb is_directive ds && bool_decide (sequences ds = 1%nat) =
      (forallb is_directive ds && bool_decide (sequences ds <= 1)%nat) && bool_decide (0 < sequences ds)%nat).
    { destruct (forallb is_directive ds); simpl; [|done]. repeat case_bool_decide; done || lia. }
    rewrite E. eapply checks_step; [done|done|reflexivity|]. eapply checks_app; [by apply (check_directives c0 1 ds c2 false)|].
    clear E. intros s (n' & Hn' & ->). simpl. destruct (bool_decide (0 < sequences ds)%nat); [|apply checks_error; [done|by eexists]].
    eexists. split; [reflexivity|]. by exists n'.
Qed.

Lemma check_pools c0 ps : forall c2, c2 = 0 \/ c2 = 2 ->
  checks (forallb is_pool ps) (concat (map (fun kv => events kv.1 ++ events kv.2) ps)) (at_depth1 c0 0 c2) (fun s => exists n', s = at_depth1 c0 0 n').
Proof.
  induction ps as [|kv ps IH]; intros c2 Hn; [exists (at_depth1 c0 0 c2); split; [done|by exists c2]|].
  simpl. eapply checks_app; [by apply check_pool|]. intros s (n' & Hn' & ->). by apply IH.
Qed.

Lemma check_root root : checks (is_configuration root) (events root) structure_start (fun s => exists c, s = mk_structure 0 c false false false).
Proof.
  destruct root as [u|l|ps]; simpl; [apply checks_error; [done|by eexists]..|].
  rewrite <- (andb_true_r (forallb is_pool ps)). eapply checks_step; [done|done|reflexivity|]. eapply checks_app; [apply (check_pools 0 ps 0); auto|].
  intros s (n' & ->). eexists. split; [reflexivity|]. by eexists.
Qed.

(** ** Arrays *)

(** Pushing an element where memory is available. *)
Lemma arr_push {A} ok (a : array A) l :
  array_rel a l -> nalloc a < 2 ^ 30 -> (forall z, ok z = true) ->
  exists a', array_push ok a = Some (array_get a (zlen l), a') /\ size a' = size a /\ nalloc a' = (if zlen l =? nalloc a then 2 * zlen l else nalloc a) /\
    forall v, array_rel (array_store a' (array_get a (zlen l)) v) (l ++ [v]).
Proof.
  intros HR Hb Hok. pose proof (array_rel_length _ _ HR) as Hn. pose proof HR as [Hwf Hc]. pose proof Hwf as [Hs Hne Hna Hel].
  destruct (array_push ok a) as [[p a']|] eqn:E; [|unfold array_push in E; destruct (_ =? _); [by rewrite Hok in E|done]].
  destruct (array_push_slot ok a p a' Hwf Hb E) as (-> & Esz & _). exists a'. unfold array_get. rewrite <- Hn. split_and!; [done|done| |].
  - unfold array_push in E. destruct (Z.eqb_spec (nelem a) (nalloc a)) as [Eq|]; [rewrite Hok in E|]; injection E as <-; simpl; [|done].
    rewrite u32_small by (unfold is_u32; lia). lia.
  - intros v. destruct (array_push_store_spec ok a a' (size a * nelem a) v Hwf Hb E) as (W & Cn & _). split; [done|]. by rewrite Cn, Hc, map_app.
Qed.

(** Popping one, and what is written to its slot afterwards. *)
Lemma arr_pop {A} (a : array A) l v :
  array_rel a (l ++ [v]) ->
  array_load a (array_pop a).1 = Some v /\ nalloc (array_pop a).2 = nalloc a /\ array_rel (array_pop a).2 l /\
    forall u, array_rel (array_store (array_pop a).2 (array_pop a).1 u) l.
Proof.
  intros HR. pose proof (array_rel_length _ _ HR) as Hn. pose proof HR as [Hwf Hc]. pose proof Hwf as [Hs Hne Hna Hel]. rewrite zlen_app in Hn. change (zlen [v]) with 1 in Hn.
  unfold array_pop. pose proof (zlen_nonneg l). rewrite u32_small by (unfold is_u32; lia). simpl.
  assert (Hl : array_rel (mk_array (nelem a - 1) (elem a) (size a) (nalloc a)) l).
  { split; [constructor; simpl; try done; lia|]. unfold contents in *. simpl. replace (Z.to_nat (nelem a - 1)) with (Nat.min (length l) (Z.to_nat (nelem a))) by (unfold zlen in *; lia).
    rewrite <- take_take, Hc, map_app. rewrite <- (length_map Some l) at 1. by rewrite take_app_length. }
  split_and!; [|done|done|].
  - fold (array_get a (nelem a - 1)). rewrite (array_load_get a (l ++ [v])) by (try done; rewrite zlen_app; change (zlen [v]) with 1; lia).
    replace (Z.to_nat (nelem a - 1)) with (length l) by (unfold zlen in *; lia). by apply list_lookup_middle.
  - intros u. destruct Hl as [[W1 W2 W3 W4] Cn]. simpl in *. unfold array_store. simpl. rewrite Z.mul_comm, Z.div_mul by lia. split.
    + constructor; simpl; try done. unfold zlen in *. by rewrite length_insert.
    + unfold contents in *. simpl in *. by rewrite take_insert_ge by lia.
Qed.

(** Reading and writing the last element. *)
Lemma arr_last {A} (a : array A) l x : array_rel a (l ++ [x]) ->
  array_load a (array_get a (zlen l)) = Some x /\ forall y, array_rel (array_store a (array_get a (zlen l)) y) (l ++ [y]).
Proof.
  intros HR. pose proof (array_rel_length _ _ HR) as Hn. rewrite zlen_app in Hn. change (zlen [x]) with 1 in Hn. pose proof (zlen_nonneg l). split.
  - rewrite (array_load_get a (l ++ [x])) by (try done; rewrite zlen_app; change (zlen [x]) with 1; lia).
    unfold zlen. rewrite Nat2Z.id. by apply list_lookup_middle.
  - intros y. destruct HR as [[W1 W2 W3 W4] Cn]. unfold array_store, array_get. rewrite Z.mul_comm, Z.div_mul by lia. split.
    + constructor; simpl; try done. unfold zlen in *. by rewrite length_insert.
    + unfold contents in *. simpl. rewrite take_insert_lt, Cn by lia. rewrite !map_app. unfold zlen. rewrite Nat2Z.id.
      rewrite <- (length_map Some l). by rewrite insert_app_r_alt, Nat.sub_diag by lia.
Qed.

(** ** The configuration a tree stands for *)

Section Tree.
Context `{env : ConfEnv}.

(** What a handler returns when memory is available, whatever the state. *)
Definition blank : conf := mk_conf array_null array_null 0 false false false false false false false None None (mk_input [] [] []) 0.
Definition outcome {A} (m : C A) : option A := fst <$> m blank.

(** One value of the directive [key] of the pool [cp]: the status and the
    pool. *)
Definition find_command (cmds : list Conf.command) (key : list Z) : option Conf.command :=
  List.find (fun cmd => bool_decide (cmd_name cmd = key)) cmds.
Definition load_with (cmd : option Conf.command) (v : list Z) (cp : conf_pool) : option (Z * conf_pool) :=
  match cmd with
  | None => Some (NC_ERROR, cp)
  | Some cmd => (fun x => (match x.1 with None => NC_OK | Some _ => NC_ERROR end, x.2)) <$> outcome (cmd_set cmd (string_text v) cp)
  end.
Definition load_value (key v : list Z) (cp : conf_pool) : option (Z * conf_pool) :=
  if bool_decide (v = []) then Some (NC_ERROR, cp) else load_with (find_command conf_commands key) v cp.

(** Go on if the status is NC_OK. *)
Definition and_then {A} (x : option (Z * A)) (k : A -> option (Z * A)) : option (Z * A) :=
  match x with
  | Some (status, y) => if status =? NC_OK then k y else x
  | None => None
  end.

Definition scalar_of (n : node) : list Z := match n with Scalar v => v | _ => [] end.

Fixpoint load_values (key : list Z) (vs : list node) (cp : conf_pool) : option (Z * conf_pool) :=
  match vs with
  | [] => Some (NC_OK, cp)
  | v :: vs' => and_then (load_value key (scalar_of v) cp) (load_values key vs')
  end.

Definition load_directive (kv : node * node) (cp : conf_pool) : option (Z * conf_pool) :=
  let key := scalar_of kv.1 in
  if bool_decide (key = []) then Some (NC_ERROR, cp)
  else load_values key (match kv.2 with Sequence l => l | n => [n] end) cp.

Fixpoint load_directives (ds : list (node * node)) (cp : conf_pool) : option (Z * conf_pool) :=
  match ds with
  | [] => Some (NC_OK, cp)
  | d :: ds' => and_then (load_directive d cp) (load_directives ds')
  end.

(** A new pool. *)
Definition load_pool (kv : node * node) : option (Z * conf_pool) :=
  and_then (outcome (conf_pool_init (string_text (scalar_of kv.1)))) (load_directives (match kv.2 with Mapping ds => ds | _ => [] end)).

(** The pools of a file, behind [pools]. *)
Fixpoint load_pools (ps : list (node * node)) (pools : list conf_pool) : option (Z * list conf_pool) :=
  match ps with
  | [] => Some (NC_OK, pools)
  | kv :: ps' =>
      if bool_decide (scalar_of kv.1 = []) then Some (NC_ERROR, pools)
      else
        match load_pool kv with
        | None => None
        | Some (status, cp) => if status =? NC_OK then load_pools ps' (pools ++ [cp]) else Some (status, pools ++ [cp])
        end
  end.

Definition load_tree (root : node) : option (Z * list conf_pool) := load_pools (match root with Mapping ps => ps | _ => [] end) [].

(** ** The parse *)

Hypothesis alloc_ok : forall n z, ce_ok n z = true.

(** The state of the parse: the events to come, the arguments, the pools, the
    depth and whether it is in a sequence. *)
Record core_at (es : list yaml_event) (args : list cstr) (pools : list conf_pool) (depth : Z) (seq : bool) (cf : conf) : Prop := {
  ca_events : yi_events (cf_input cf) = es;
  ca_args : array_rel (cf_arg cf) args;
  ca_args_room : nalloc (cf_arg cf) = 3;
  ca_pools : array_rel (cf_pool cf) pools;
  ca_pools_room : nalloc (cf_pool cf) <= 2 * zlen pools + 8;
  ca_pools_size : size (cf_pool cf) = SIZEOF_CONF_POOL;
  ca_depth : cf_depth cf = depth;
  ca_seq : cf_seq cf = seq
}.

Lemma string_copy_text dst v : text_ok v -> string_copy true dst (v ++ [0]) (zlen v) = Some (NC_OK, string_text v).
Proof.
  intros [Hv Hz]. unfold string_copy. rewrite u32_small by (unfold is_u32; pose proof (zlen_nonneg v); lia).
  rewrite strndup_stop by (try done; unfold zlen; lia). simpl. rewrite zlen_app. change (zlen [0]) with 1. destruct (Z.ltb_spec (zlen v) (zlen v + 1)); [|lia].
  unfold string_text, blit, zlen. rewrite Nat2Z.id, take_app_length. do 4 f_equal. rewrite drop_ge; [done|]. rewrite length_app. simpl. lia.
Qed.

Lemma run_event_done es args pools d s cf (Q : unit -> conf -> Prop) :
  core_at es args pools d s cf -> (forall cf', core_at es args pools d s cf' -> Q tt cf') -> runs conf_event_done cf Q.
Proof.
  intros H HQ. unfold conf_event_done. run_step. run_step. destruct (cf_valid_event cf); repeat run_step; apply HQ; [|done]. by destruct H.
Qed.

Lemma run_core_round e es args pools d s data cf Q :
  core_at (e :: es) args pools d s cf ->
  (forall cf', core_at es args pools d s cf' -> cf_event cf' = Some e -> runs (core_event e data) cf' (fun r cf' => runs (core_finish r) cf' Q)) ->
  runs (core_round data) cf Q.
Proof.
  intros H HQ. unfold core_round, conf_event_next. repeat run_step. rewrite (ca_events _ _ _ _ _ _ H). repeat run_step. simpl. repeat run_step.
  unfold the_event. eapply runs_reads; [done|]. repeat run_step. apply HQ; [|done]. by destruct H.
Qed.

Lemma run_finish_next es args pools d s data cf (Q : option Z + Z -> conf -> Prop) :
  core_at es args pools d s cf -> (forall cf', core_at es args pools d s cf' -> Q (inl data) cf') -> runs (core_finish (mk_step NC_OK false false false data)) cf Q.
Proof. intros H HQ. unfold core_finish. run_step. eapply run_event_done; [done|]. intros cf' H'. simpl. repeat run_step. by apply HQ. Qed.

Lemma run_finish_error es args pools d s data status l n cf (Q : option Z + Z -> conf -> Prop) :
  core_at es args pools d s cf -> status <> NC_OK -> (forall cf', core_at es args pools d s cf' -> Q (inr status) cf') ->
  runs (core_finish (mk_step status false l n data)) cf Q.
Proof.
  intros H Hs HQ. unfold core_finish. run_step. eapply run_event_done; [done|]. intros cf' H'. simpl.
  destruct (Z.eqb_spec status NC_OK); [done|]. simpl. repeat run_step. by apply HQ.
Qed.

Lemma run_push_scalar es args pools d s v cf (Q : Z -> conf -> Prop) :
  core_at es args pools d s cf -> cf_event cf = Some (YAML_SCALAR_EVENT v) -> text_ok v -> v <> [] -> zlen args < 3 ->
  (forall cf', core_at es (args ++ [string_text v]) pools d s cf' -> Q NC_OK cf') -> runs conf_push_scalar cf Q.
Proof.
  intros H He Hv Hne Hl HQ. unfold conf_push_scalar, the_event. run_step. eapply runs_reads; [done|]. cbv beta iota.
  pose proof (zlen_nonneg v). assert (zlen v <> 0) by (destruct v; [done|rewrite zlen_cons; pose proof (zlen_nonneg v); lia]). pose proof Hv as [_ Hz].
  rewrite u32_small by (unfold is_u32; lia). destruct (Z.eqb_spec (zlen v) 0); [lia|]. repeat run_step. unfold c_push, c_tick. repeat run_step.
  destruct (arr_push (ce_ok (cf_tick cf)) (cf_arg cf) args) as (a' & -> & Es & En & HR); [apply H|rewrite (ca_args_room _ _ _ _ _ _ H); lia|by apply alloc_ok|].
  rewrite (ca_args_room _ _ _ _ _ _ H) in En. destruct (Z.eqb_spec (zlen args) 3); [lia|]. unfold c_string_copy, c_alloc, c_tick. repeat run_step. rewrite alloc_ok. simpl.
  eapply runs_reads; [by apply string_copy_text|]. simpl. repeat run_step. apply HQ. destruct H; constructor; simpl; done.
Qed.

Lemma run_push_empty es args pools d s cf (Q : Z -> conf -> Prop) :
  core_at es args pools d s cf -> cf_event cf = Some (YAML_SCALAR_EVENT []) -> Q NC_ERROR cf -> runs conf_push_scalar cf Q.
Proof. intros H He HQ. unfold conf_push_scalar, the_event. run_step. eapply runs_reads; [done|]. exact HQ. Qed.

Lemma run_pop_scalar es args x pools d s cf (Q : unit -> conf -> Prop) :
  core_at es (args ++ [x]) pools d s cf -> (forall cf', core_at es args pools d s cf' -> Q tt cf') -> runs conf_pop_scalar cf Q.
Proof.
  intros [H1 H2 H3 H4 H5 H6 H7 H8] HQ. destruct (arr_pop _ _ _ H2) as (L & N & _ & R). unfold conf_pop_scalar. repeat run_step.
  destruct (array_pop (cf_arg cf)) as [p a'] eqn:E. simpl in *. repeat run_step. unfold c_load. eapply runs_reads; [exact L|]. repeat run_step. apply HQ.
  constructor; simpl; try done. by rewrite N.
Qed.

Lemma outcome_yields {A} (m : C A) x : Pure m -> outcome m = Some x -> yields m x.
Proof. unfold outcome. intros Hm E. destruct (m blank) as [[y cf]|] eqn:Em; [|done]. injection E as <-. by eapply pure_yields. Qed.

Lemma run_yields {A} (m : C A) x es args pools d s cf (Q : A -> conf -> Prop) :
  yields m x -> core_at es args pools d s cf -> (forall cf', core_at es args pools d s cf' -> Q x cf') -> runs m cf Q.
Proof. intros Hy H HQ. destruct (Hy cf) as [t Ht]. unfold runs. rewrite Ht. apply HQ. by destruct H. Qed.

(** The pointer to pool [n]. *)
Definition pool_ptr (n : Z) : Z := SIZEOF_CONF_POOL * n.

Lemma run_pool_put es args ps cp cp' d s cf (Q : unit -> conf -> Prop) :
  core_at es args (ps ++ [cp]) d s cf -> (forall cf', core_at es args (ps ++ [cp']) d s cf' -> Q tt cf') -> runs (pool_put (Some (pool_ptr (zlen ps))) cp') cf Q.
Proof.
  intros H HQ. pose proof H as [H1 H2 H3 H4 H5 H6 H7 H8]. destruct (arr_last _ _ _ H4) as [_ HR]. unfold array_get in HR. rewrite H6 in HR.
  unfold pool_put. run_step. apply HQ. constructor; simpl; try done. by rewrite zlen_app in *.
Qed.

Lemma run_commands cmds key v status cp' ps cp es args d s cf (Q : Z -> conf -> Prop) :
  (forall cmd, cmd ∈ cmds -> cmd ∈ conf_commands) -> 0 ∉ key -> core_at es args (ps ++ [cp]) d s cf ->
  load_with (find_command cmds key) v cp = Some (status, cp') ->
  (forall cf', core_at es args (ps ++ [cp']) d s cf' -> Q status cf') ->
  runs (run_command cmds (string_text key) (string_text v) (Some (pool_ptr (zlen ps)))) cf Q.
Proof.
  intros Hin Hk H. induction cmds as [|cmd cmds IH]; intros E HQ.
  { injection E as <- <-. simpl. run_step. by apply HQ. }
  simpl. run_step. destruct (string_compare_spec _ _ key (cmd_name cmd) (str_is_text key) (str_is_text _) Hk) as (t & Et & Heq).
  eapply runs_reads; [exact Et|]. cbv beta. unfold find_command in E. simpl in E. destruct (Z.eqb_spec t 0) as [E0|Hne]; simpl.
  - rewrite bool_decide_true in E by (symmetry; by apply Heq). repeat run_step. pose proof H as [H1 H2 H3 H4 H5 H6 H7 H8].
    destruct (arr_last _ _ _ H4) as [HL _]. unfold array_get in HL. rewrite H6 in HL. eapply runs_reads; [exact HL|]. repeat run_step.
    simpl in E. destruct (outcome (cmd_set cmd (string_text v) cp)) as [[msg cp2]|] eqn:Eo; [|done]. injection E as <- <-. simpl.
    eapply run_yields; [eapply outcome_yields; [apply (pure_command alloc_ok); apply Hin; constructor|exact Eo]|exact H|]. intros cf1 C1. run_step.
    eapply run_pool_put; [exact C1|]. intros cf2 C2. simpl. run_step. by apply HQ.
  - rewrite bool_decide_false in E by (intros Hn; apply Hne, Heq; done). apply IH; [|done|done]. intros c Hc. apply Hin. by constructor.
Qed.

(** An element of the arguments. *)
Lemma arg_load es args pools d s cf i x : core_at es args pools d s cf -> 0 <= i -> args !! Z.to_nat i = Some x -> array_load (cf_arg cf) (array_get (cf_arg cf) i) = Some x.
Proof.
  intros H Hi Hx. rewrite (array_load_get (cf_arg cf) args); [done|apply H|]. apply lookup_lt_Some in Hx. unfold zlen. lia.
Qed.

Lemma run_handler key v nm status cp' ps cp es d s cf (Q : Z -> conf -> Prop) :
  0 ∉ key -> core_at es [nm; string_text key; string_text v] (ps ++ [cp]) d s cf ->
  load_with (find_command conf_commands key) v cp = Some (status, cp') ->
  (forall cf', core_at es [nm; string_text key; string_text v] (ps ++ [cp']) d s cf' -> Q status cf') ->
  runs (conf_handler (Some (pool_ptr (zlen ps)))) cf Q.
Proof.
  intros Hk H E HQ. unfold conf_handler. repeat run_step. pose proof (array_rel_length _ _ (ca_args _ _ _ _ _ _ H)) as Hn. unfold array_n. rewrite Hn.
  change (zlen [nm; string_text key; string_text v]) with 3. change (3 =? 1) with false. cbv iota zeta. repeat run_step. unfold c_load. eapply runs_reads; [by eapply (arg_load _ _ _ _ _ _ 2); [exact H|..]|]. repeat run_step.
  eapply runs_reads; [by eapply (arg_load _ _ _ _ _ _ 1); [exact H|..]|]. by eapply run_commands.
Qed.

(** The rest of the parse, from [cf] with [fuel] rounds. *)
Definition goes (fuel : nat) (data : option Z) (cf : conf) (Q : Z -> conf -> Prop) : Prop := runs (iterate fuel core_round data) cf Q.

Lemma goes_step fuel data cf Q :
  runs (core_round data) cf (fun y cf' => match y with inl data' => goes fuel data' cf' Q | inr r => Q r cf' end) -> goes (S fuel) data cf Q.
Proof. intros H. unfold goes. simpl. run_step. eapply runs_mono; [exact H|]. by intros [data'|r] cf' H'. Qed.

(** The parse may end with [status] and [pools]. *)
Definition ends (status : Z) (pools : list conf_pool) (Q : Z -> conf -> Prop) : Prop :=
  forall es args d s cf, core_at es args pools d s cf -> Q status cf.

(** A value of a directive. *)
Lemma goes_value fuel key v nm status cp' ps cp es (s : bool) cf Q :
  core_at (YAML_SCALAR_EVENT v :: es) [nm; string_text key] (ps ++ [cp]) 2 s cf -> text_ok v -> 0 ∉ key -> load_value key v cp = Some (status, cp') ->
  (status = NC_OK -> forall cf', core_at es (if s then [nm; string_text key] else [nm]) (ps ++ [cp']) 2 s cf' -> goes fuel (Some (pool_ptr (zlen ps))) cf' Q) ->
  (status <> NC_OK -> ends status (ps ++ [cp']) Q) -> goes (S fuel) (Some (pool_ptr (zlen ps))) cf Q.
Proof.
  intros H Hv Hk E HOk HErr. apply goes_step. eapply run_core_round; [exact H|]. intros cf1 C1 He. simpl. unfold core_scalar. run_step.
  unfold load_value in E. case_bool_decide as Hne; [subst v|].
  { injection E as <- <-. eapply run_push_empty; [exact C1|exact He|]. simpl. run_step. eapply run_finish_error; [exact C1|done|]. intros cf2 C2. by eapply HErr. }
  eapply run_push_scalar; [exact C1|exact He|done|done|simpl; done|]. intros cf2 C2. simpl. repeat run_step.
  pose proof (array_rel_length _ _ (ca_args _ _ _ _ _ _ C2)) as Hn. unfold array_n, id. rewrite Hn, (ca_seq _ _ _ _ _ _ C2), (ca_depth _ _ _ _ _ _ C2).
  assert (Hleaf : runs (core_finish (mk_step NC_OK false true false (Some (pool_ptr (zlen ps))))) cf2
    (fun y cf' => match y with inl data' => goes fuel data' cf' Q | inr r => Q r cf' end)).
  { unfold core_finish. run_step. eapply run_event_done; [exact C2|]. intros cf3 C3. simpl. run_step. eapply run_handler; [done|exact C3|exact E|].
    intros cf4 C4. repeat run_step. eapply (run_pop_scalar es [nm; string_text key]); [exact C4|]. intros cf5 C5. repeat run_step.
    rewrite (ca_seq _ _ _ _ _ _ C5). assert (Hfin : forall cf6, core_at es (if s then [nm; string_text key] else [nm]) (ps ++ [cp']) 2 s cf6 ->
      match (if negb (status =? NC_OK) then inr status else inl (Some (pool_ptr (zlen ps)))) with inl data' => goes fuel data' cf6 Q | inr r => Q r cf6 end).
    { intros cf6 C6. destruct (Z.eqb_spec status NC_OK); simpl; [by apply HOk|by eapply HErr]. }
    destruct s; simpl; repeat run_step; [by apply Hfin|]. eapply (run_pop_scalar es [nm]); [exact C5|]. intros cf6 C6. repeat run_step. by apply Hfin. }
  destruct s; simpl; run_step; exact Hleaf.
Qed.

(** The scalars are texts. *)
Definition event_ok (e : yaml_event) : Prop := match e with YAML_SCALAR_EVENT v => text_ok v | _ => True end.

Lemma goes_values vs : forall fuel key nm status cp' ps cp es cf Q,
  forallb is_scalar vs = true -> Forall event_ok (concat (map events vs)) -> 0 ∉ key ->
  core_at (concat (map events vs) ++ es) [nm; string_text key] (ps ++ [cp]) 2 true cf -> load_values key vs cp = Some (status, cp') ->
  (status = NC_OK -> forall cf', core_at es [nm; string_text key] (ps ++ [cp']) 2 true cf' -> goes fuel (Some (pool_ptr (zlen ps))) cf' Q) ->
  (status <> NC_OK -> ends status (ps ++ [cp']) Q) -> goes (length vs + fuel) (Some (pool_ptr (zlen ps))) cf Q.
Proof.
  induction vs as [|v vs IH]; intros fuel key nm status cp' ps cp es cf Q Hs He Hk H E HOk HErr; simpl in *.
  { injection E as <- <-. by apply HOk. }
  destruct v as [v|l|m]; simpl in *; try done. apply Forall_cons_iff in He as [Hv He].
  destruct (load_value key v cp) as [[st cp1]|] eqn:Ev; [|done]. simpl in E.
  eapply goes_value; [exact H|done|done|exact Ev| |].
  - intros -> cf1 C1. simpl in E. by eapply IH.
  - intros Hst. destruct (Z.eqb_spec st NC_OK); [done|]. injection E as <- <-. by apply HErr.
Qed.

(** The events that only move the parse. *)
Lemma goes_mapping_start fuel data es args pools d s cf Q :
  core_at (YAML_MAPPING_START_EVENT :: es) args pools d s cf -> 0 <= d < 2 ^ 32 - 1 ->
  (forall cf', core_at es args pools (d + 1) s cf' -> goes fuel data cf' Q) -> goes (S fuel) data cf Q.
Proof.
  intros H Hd HQ. apply goes_step. eapply run_core_round; [exact H|]. intros cf1 C1 _. simpl. repeat run_step.
  eapply run_finish_next; [|apply HQ]. destruct C1 as [H1 H2 H3 H4 H5 H6 H7 H8]. constructor; simpl; try done. rewrite H7. apply u32_small. unfold is_u32. lia.
Qed.

Lemma goes_sequence_start fuel data es args pools d s cf Q :
  core_at (YAML_SEQUENCE_START_EVENT :: es) args pools d s cf -> (forall cf', core_at es args pools d true cf' -> goes fuel data cf' Q) -> goes (S fuel) data cf Q.
Proof.
  intros H HQ. apply goes_step. eapply run_core_round; [exact H|]. intros cf1 C1 _. simpl. repeat run_step.
  eapply run_finish_next; [|apply HQ]. by destruct C1.
Qed.

Lemma goes_sequence_end fuel data es args x pools d s cf Q :
  core_at (YAML_SEQUENCE_END_EVENT :: es) (args ++ [x]) pools d s cf -> (forall cf', core_at es args pools d false cf' -> goes fuel data cf' Q) -> goes (S fuel) data cf Q.
Proof.
  intros H HQ. apply goes_step. eapply run_core_round; [exact H|]. intros cf1 C1 _. simpl. run_step. eapply run_pop_scalar; [exact C1|]. intros cf2 C2. repeat run_step.
  eapply run_finish_next; [|apply HQ]. by destruct C2.
Qed.

(** The end of a pool. *)
Lemma goes_pool_end fuel data es nm pools s cf Q :
  core_at (YAML_MAPPING_END_EVENT :: es) [nm] pools 2 s cf -> (forall cf', core_at es [] pools 1 s cf' -> goes fuel data cf' Q) -> goes (S fuel) data cf Q.
Proof.
  intros H HQ. apply goes_step. eapply run_core_round; [exact H|]. intros cf1 C1 _. simpl. repeat run_step. simpl. rewrite (ca_depth _ _ _ _ _ _ C1). simpl.
  run_step. eapply (run_pop_scalar es [] nm pools 1 s); [destruct C1 as [H1 H2 H3 H4 H5 H6 H7 H8]; constructor; simpl; try done; by rewrite H7|].
  intros cf2 C2. repeat run_step. by eapply run_finish_next.
Qed.

(** The end of the file's mapping. *)
Lemma goes_root_end fuel data es args pools s cf (Q : Z -> conf -> Prop) :
  core_at (YAML_MAPPING_END_EVENT :: es) args pools 1 s cf -> (forall cf', core_at es args pools 0 s cf' -> Q NC_OK cf') -> goes (S fuel) data cf Q.
Proof.
  intros H HQ. apply goes_step. eapply run_core_round; [exact H|]. intros cf1 C1 _. simpl. repeat run_step. simpl. rewrite (ca_depth _ _ _ _ _ _ C1). simpl.
  repeat run_step. unfold core_finish. run_step. eapply run_event_done; [destruct C1 as [H1 H2 H3 H4 H5 H6 H7 H8]; constructor; simpl; try done; by rewrite H7|].
  intros cf2 C2. simpl. run_step. by apply HQ.
Qed.

(** The key of a directive. *)
Lemma goes_key fuel data k nm es pools cf Q :
  core_at (YAML_SCALAR_EVENT k :: es) [nm] pools 2 false cf -> text_ok k -> (k = [] -> ends NC_ERROR pools Q) ->
  (k <> [] -> forall cf', core_at es [nm; string_text k] pools 2 false cf' -> goes fuel data cf' Q) -> goes (S fuel) data cf Q.
Proof.
  intros H Hk HErr HQ. apply goes_step. eapply run_core_round; [exact H|]. intros cf1 C1 He. simpl. unfold core_scalar. run_step.
  destruct (decide (k = [])) as [-> |Hne].
  { eapply run_push_empty; [exact C1|exact He|]. simpl. run_step. eapply run_finish_error; [exact C1|done|]. intros cf2 C2. by eapply HErr. }
  eapply run_push_scalar; [exact C1|exact He|done|done|simpl; done|]. intros cf2 C2. simpl. repeat run_step.
  pose proof (array_rel_length _ _ (ca_args _ _ _ _ _ _ C2)) as Hn. unfold array_n, id. rewrite Hn, (ca_seq _ _ _ _ _ _ C2), (ca_depth _ _ _ _ _ _ C2). simpl.
  run_step. eapply run_finish_next; [exact C2|]. by apply HQ.
Qed.

Abbreviation pair_events := (fun kv : node * node => events kv.1 ++ events kv.2).

Lemma goes_directive kv fuel nm status cp' ps cp es cf Q :
  is_directive kv = true -> Forall event_ok (pair_events kv) ->
  core_at (pair_events kv ++ es) [nm] (ps ++ [cp]) 2 false cf -> load_directive kv cp = Some (status, cp') ->
  (status = NC_OK -> forall cf', core_at es [nm] (ps ++ [cp']) 2 false cf' -> goes fuel (Some (pool_ptr (zlen ps))) cf' Q) ->
  (status <> NC_OK -> ends status (ps ++ [cp']) Q) -> goes (length (pair_events kv) + fuel) (Some (pool_ptr (zlen ps))) cf Q.
Proof.
  destruct kv as [k v]. unfold is_directive, load_directive. simpl. intros Hd He H E HOk HErr. apply andb_true_iff in Hd as [Hk Hv].
  destruct k as [k| |]; try done. simpl in *. apply Forall_cons_iff in He as [Hke He]. eapply goes_key; [exact H|exact Hke|intros ->|].
  { rewrite bool_decide_true in E by done. injection E as <- <-. by apply HErr. }
  intros Hne cf1 C1. rewrite bool_decide_false in E by done. destruct Hke as [Hk0 _]. destruct v as [v|l|m]; try done; simpl in *.
  - destruct (load_value k v cp) as [[st cp1]|] eqn:Ev; [|done]. simpl in E. apply Forall_cons_iff in He as [Hv0 _].
    eapply goes_value; [exact C1|done|done|exact Ev| |].
    + intros -> cf2 C2. simpl in E. injection E as <- <-. by apply HOk.
    + intros Hst. destruct (Z.eqb_spec st NC_OK); [done|]. injection E as <- <-. by apply HErr.
  - apply Forall_cons_iff in He as [_ He]. apply Forall_app in He as [He _]. eapply goes_sequence_start; [exact C1|]. intros cf2 C2. rewrite <- app_assoc in C2.
    assert (Hlen : length (concat (map events l)) = length l).
    { clear -Hv. induction l as [|[v| |] l IH]; simpl in *; try done. by rewrite IH. }
    rewrite length_app, Hlen. simpl. rewrite <- Nat.add_assoc. eapply goes_values; [done|done|done|exact C2|exact E| |done].
    intros Hst cf3 C3. simpl. eapply (goes_sequence_end _ _ _ [nm]); [exact C3|]. by apply HOk.
Qed.

Lemma goes_directives ds : forall fuel nm status cp' ps cp es cf Q,
  forallb is_directive ds = true -> Forall event_ok (concat (map pair_events ds)) ->
  core_at (concat (map pair_events ds) ++ es) [nm] (ps ++ [cp]) 2 false cf -> load_directives ds cp = Some (status, cp') ->
  (status = NC_OK -> forall cf', core_at es [nm] (ps ++ [cp']) 2 false cf' -> goes fuel (Some (pool_ptr (zlen ps))) cf' Q) ->
  (status <> NC_OK -> ends status (ps ++ [cp']) Q) -> goes (length (concat (map pair_events ds)) + fuel) (Some (pool_ptr (zlen ps))) cf Q.
Proof.
  induction ds as [|kv ds IH]; intros fuel nm status cp' ps cp es cf Q Hd He H E HOk HErr; simpl in *.
  { injection E as <- <-. by apply HOk. }
  apply andb_true_iff in Hd as [Hd1 Hd2]. apply Forall_app in He as [He1 He2]. rewrite <- app_assoc in H. rewrite length_app, <- Nat.add_assoc.
  destruct (load_directive kv cp) as [[st cp1]|] eqn:Ev; [|done]. simpl in E. eapply goes_directive; [done|done|exact H|exact Ev| |].
  - intros -> cf1 C1. simpl in E. by eapply IH.
  - intros Hst. destruct (Z.eqb_spec st NC_OK); [done|]. injection E as <- <-. by apply HErr.
Qed.

(** Like [core_at], with a pool behind [pools] that is not initialised. *)
Record new_at (es : list yaml_event) (args : list cstr) (pools : list conf_pool) (depth : Z) (seq : bool) (cf : conf) : Prop := {
  na_events : yi_events (cf_input cf) = es;
  na_args : array_rel (cf_arg cf) args;
  na_args_room : nalloc (cf_arg cf) = 3;
  na_pools : forall cp, array_rel (array_store (cf_pool cf) (pool_ptr (zlen pools)) cp) (pools ++ [cp]);
  na_pools_room : nalloc (cf_pool cf) <= 2 * (zlen pools + 1) + 8;
  na_pools_size : size (cf_pool cf) = SIZEOF_CONF_POOL;
  na_depth : cf_depth cf = depth;
  na_seq : cf_seq cf = seq
}.

(** The name of a pool. *)
Lemma goes_name fuel data name status cp es ps cf Q :
  core_at (YAML_SCALAR_EVENT name :: es) [] ps 1 false cf -> text_ok name -> zlen ps < 2 ^ 28 ->
  (name = [] -> ends NC_ERROR ps Q) ->
  (name <> [] -> outcome (conf_pool_init (string_text name)) = Some (status, cp) /\
    (status = NC_OK -> forall cf', core_at es [string_text name] (ps ++ [cp]) 1 false cf' -> goes fuel (Some (pool_ptr (zlen ps))) cf' Q) /\
    (status <> NC_OK -> ends status (ps ++ [cp]) Q)) ->
  goes (S fuel) data cf Q.
Proof.
  intros H Hk Hz HErr HQ. apply goes_step. eapply run_core_round; [exact H|]. intros cf1 C1 He. simpl. unfold core_scalar. run_step.
  destruct (decide (name = [])) as [-> |Hne].
  { eapply run_push_empty; [exact C1|exact He|]. simpl. run_step. eapply run_finish_error; [exact C1|done|]. intros cf2 C2. by eapply HErr. }
  destruct (HQ Hne) as (Eo & HOk & HEr). eapply run_push_scalar; [exact C1|exact He|done|done|simpl; done|]. intros cf2 C2. simpl. repeat run_step.
  pose proof C2 as [H1 H2 H3 H4 H5 H6 H7 H8]. unfold id. rewrite H7, H8. simpl. run_step. unfold c_push, c_tick. repeat run_step.
  destruct (arr_push (ce_ok (cf_tick cf2)) (cf_pool cf2) ps) as (a' & Ep & Esz & Ena & HR); [done|lia|by apply alloc_ok|]. rewrite Ep. repeat run_step.
  unfold array_get. rewrite H6. fold (pool_ptr (zlen ps)). unfold array_get in HR. rewrite H6 in HR. fold (pool_ptr (zlen ps)) in HR.
  set (cf3 := cf_set_pool a' _). assert (N : new_at es [string_text name] ps 1 false cf3).
  { constructor; simpl; try done; [|by rewrite Esz]. rewrite Ena. destruct (_ =? _); lia. }
  clearbody cf3. unfold core_finish. run_step. unfold conf_event_done. run_step. run_step.
  assert (Hdone : forall cf4, new_at es [string_text name] ps 1 false cf4 -> runs (conf_handler (Some (pool_ptr (zlen ps)))) cf4
    (fun st cf5 => st = status /\ core_at es [string_text name] (ps ++ [cp]) 1 false cf5)).
  { intros cf4 [N1 N2 N3 N4 N5 N6 N7 N8]. unfold conf_handler. repeat run_step. pose proof (array_rel_length _ _ N2) as Hn. unfold array_n. rewrite Hn.
    change (zlen [string_text name]) with 1. change (1 =? 1) with true. cbv iota. run_step. unfold c_load, array_top. rewrite Hn. eapply runs_reads.
    { rewrite (array_load_get _ [string_text name]); [reflexivity|done|]. by vm_compute. }
    repeat run_step. pose proof (outcome_yields _ _ (pure_pool_init alloc_ok _) Eo) as Hy. destruct (Hy cf4) as [t Ht]. unfold runs at 1. rewrite Ht. repeat run_step.
    simpl. split; [done|]. constructor; simpl; try done. rewrite zlen_app. change (zlen [cp]) with 1. lia. }
  destruct (cf_valid_event cf3); repeat run_step; simpl; run_step; (eapply runs_mono; [apply Hdone; by destruct N|]); intros st cf5 [-> C5]; repeat run_step;
    (destruct (Z.eqb_spec status NC_OK); simpl; [by apply HOk|by eapply HEr]).
Qed.

Lemma goes_pool kv fuel data es ps cf Q status cp :
  is_pool kv = true -> Forall event_ok (pair_events kv) -> zlen ps < 2 ^ 28 -> scalar_of kv.1 <> [] ->
  core_at (pair_events kv ++ es) [] ps 1 false cf -> load_pool kv = Some (status, cp) ->
  (status = NC_OK -> forall data' cf', core_at es [] (ps ++ [cp]) 1 false cf' -> goes fuel data' cf' Q) ->
  (status <> NC_OK -> ends status (ps ++ [cp]) Q) -> goes (length (pair_events kv) + fuel) data cf Q.
Proof.
  destruct kv as [k v]. unfold is_pool, load_pool. simpl. intros Hp He Hz Hk H E HOk HErr. apply andb_true_iff in Hp as [Hn Hv].
  destruct k as [name| |]; try done. destruct v as [| |ds]; try done. apply andb_true_iff in Hv as [Hd _]. simpl in *.
  apply Forall_cons_iff in He as [Hne He]. apply Forall_cons_iff in He as [_ He]. apply Forall_app in He as [He _].
  destruct (outcome (conf_pool_init (string_text name))) as [[st cp0]|] eqn:Eo; [|done]. simpl in E.
  eapply (goes_name _ _ _ st cp0); [exact H|done|done|done|]. intros _. split_and!; [done|intros ->|].
  - intros cf1 C1. eapply goes_mapping_start; [exact C1|lia|]. intros cf2 C2. simpl in E. rewrite <- app_assoc in C2.
    rewrite length_app, <- Nat.add_assoc. eapply goes_directives; [done|done|exact C2|exact E| |done].
    intros Hst cf3 C3. eapply goes_pool_end; [exact C3|]. by apply HOk.
  - intros Hst. destruct (Z.eqb_spec st NC_OK); [done|]. injection E as <- <-. by apply HErr.
Qed.

Lemma goes_pools kvs : forall fuel data es ps cf Q status pools,
  forallb is_pool kvs = true -> Forall event_ok (concat (map pair_events kvs)) -> zlen ps + zlen kvs <= 2 ^ 28 ->
  core_at (concat (map pair_events kvs) ++ es) [] ps 1 false cf -> load_pools kvs ps = Some (status, pools) ->
  (status = NC_OK -> forall data' cf', core_at es [] pools 1 false cf' -> goes fuel data' cf' Q) ->
  (status <> NC_OK -> ends status pools Q) -> goes (length (concat (map pair_events kvs)) + fuel) data cf Q.
Proof.
  induction kvs as [|kv kvs IH]; intros fuel data es ps cf Q status pools Hp He Hz H E HOk HErr; simpl in *.
  { injection E as <- <-. by apply HOk. }
  apply andb_true_iff in Hp as [Hp1 Hp2]. apply Forall_app in He as [He1 He2]. rewrite <- app_assoc in H. rewrite length_app, <- Nat.add_assoc.
  rewrite zlen_cons in Hz. pose proof (zlen_nonneg kvs). case_bool_decide as Hk.
  - injection E as <- <-. destruct kv as [k v]. unfold is_pool in Hp1. simpl in *. destruct k as [name| |]; try done. simpl in Hk. subst name. simpl in *.
    apply Forall_cons_iff in He1 as [Hne _]. eapply (goes_name _ _ _ NC_OK conf_pool_unset); [exact H|done|lia|intros _; by apply HErr|done].
  - destruct (load_pool kv) as [[st cp]|] eqn:Ep; [|done]. eapply (goes_pool _ _ _ _ ps); [done|done|lia|done|exact H|exact Ep| |].
    + intros -> data' cf1 C1. eapply IH; [done|done| |exact C1|exact E|done|done]. rewrite zlen_app. change (zlen [cp]) with 1. lia.
    + intros Hst. destruct (Z.eqb_spec st NC_OK); [done|]. injection E as <- <-. by apply HErr.
Qed.

End Tree.
