(* ===== verification/ConfLoad.v ===== *)
(** The configuration file as a tree: what the structure check and the parse
    make of the stream of a document. *)

From S2P Require Import Prelude CArray State CString Conf ConfParse ConfPure ConfSafe ConfTree.

Section Load.
Context `{env : ConfEnv}.
Hypothesis alloc_ok : forall n z, ce_ok n z = true.
Hypothesis yaml_ok : forall n, ce_yaml_init n = true.

Lemma run_yaml_init es args pools d s cf (Q : Z -> conf -> Prop) :
  core_at es args pools d s cf -> (forall cf', core_at (yi_events ce_input) args pools d s cf' -> cf_input cf' = ce_input -> Q NC_OK cf') -> runs conf_yaml_init cf Q.
Proof.
  intros H HQ. unfold conf_yaml_init, c_tick. repeat run_step. rewrite yaml_ok. simpl. repeat run_step. apply HQ; [|done]. by destruct H.
Qed.

Lemma run_event_next e es args pools d s cf (Q : Z -> conf -> Prop) :
  core_at (e :: es) args pools d s cf -> (forall cf', core_at es args pools d s cf' -> cf_event cf' = Some e -> Q NC_OK cf') -> runs conf_event_next cf Q.
Proof.
  intros H HQ. unfold conf_event_next. repeat run_step. rewrite (ca_events _ _ _ _ _ _ H). repeat run_step. apply HQ; [|done]. by destruct H.
Qed.

Lemma run_event_fuel es args pools d s cf (Q : nat -> conf -> Prop) : core_at es args pools d s cf -> Q (S (length es)) cf -> runs event_fuel cf Q.
Proof. intros H HQ. unfold event_fuel. repeat run_step. by rewrite (ca_events _ _ _ _ _ _ H). Qed.

Lemma run_yaml_deinit es args pools d s cf (Q : unit -> conf -> Prop) :
  core_at es args pools d s cf -> (forall cf', core_at es args pools d s cf' -> Q tt cf') -> runs conf_yaml_deinit cf Q.
Proof. intros H HQ. unfold conf_yaml_deinit. run_step. apply HQ. by destruct H. Qed.

(** ** The structure *)

(** What the check of the structure answers. *)
Definition verdict (s : structure) : Z := if st_error s then NC_ERROR else NC_OK.

Lemma goes_structure es : forall fuel s0 s' args pools d q cf (Q : Z -> conf -> Prop),
  core_at es args pools d q cf -> (length es < fuel)%nat -> check es s0 = Some s' -> st_done s' || st_error s' = true -> st_done s0 || st_error s0 = false ->
  (forall es' cf', core_at es' args pools d q cf' -> Q (verdict s') cf') -> runs (iterate fuel structure_round s0) cf Q.
Proof.
  induction es as [|e es IH]; intros fuel s0 s' args pools d q cf Q H Hf E Hend Hs HQ; simpl in E; [injection E as ->; congruence|].
  rewrite Hs in E. destruct (structure_event e s0) as [s1|] eqn:Es; [|done]. destruct fuel as [|fuel]; [simpl in Hf; lia|]. simpl. run_step.
  unfold structure_round. run_step. eapply run_event_next; [exact H|]. intros cf1 C1 He. simpl. repeat run_step. unfold the_event. eapply runs_reads; [exact He|].
  repeat run_step. eapply runs_reads; [exact Es|]. run_step. eapply run_event_done; [exact C1|]. intros cf2 C2. rewrite <- negb_orb.
  destruct (st_done s1 || st_error s1) eqn:E1; simpl.
  - run_step. eapply run_yaml_deinit; [exact C2|]. intros cf3 C3. repeat run_step. assert (s' = s1) as -> by (destruct es; simpl in E; rewrite ?E1 in E; by injection E).
    specialize (HQ _ _ C3). unfold verdict in HQ. by destruct (st_error s1).
  - run_step. eapply IH; [exact C2|simpl in Hf; lia|exact E|done|done|done].
Qed.

Lemma run_structure root es args pools d s cf (Q : Z -> conf -> Prop) :
  yi_events ce_input = stream root -> core_at es args pools d s cf ->
  (forall es' cf', core_at es' args pools d s cf' -> Q (if is_configuration root then NC_OK else NC_ERROR) cf') -> runs conf_validate_structure cf Q.
Proof.
  intros Hs H HQ. unfold conf_validate_structure. run_step. eapply run_yaml_init; [exact H|]. intros cf1 C1 _. simpl. run_step.
  eapply run_event_fuel; [exact C1|]. rewrite Hs in *.
  assert (Hc : exists s', check (stream root) structure_start = Some s' /\ st_done s' || st_error s' = true /\ verdict s' = if is_configuration root then NC_OK else NC_ERROR).
  { destruct (check_root root) as (s1 & E1 & H1). unfold stream. rewrite !app_comm_cons, check_app. 
    change (check (YAML_STREAM_START_EVENT :: YAML_DOCUMENT_START_EVENT :: events root) structure_start) with (check (events root) structure_start). rewrite E1.
    destruct (is_configuration root); [destruct H1 as [c ->]; simpl; by eexists|]. exists s1. rewrite check_stop by done. unfold verdict. by rewrite H1, orb_true_r. }
  destruct Hc as (s' & E & Hend & Hv). eapply goes_structure; [exact C1|lia|exact E|done|done|]. rewrite Hv. exact HQ.
Qed.

(** ** Documents and tokens *)

(** One document with a root. *)
Definition one_document (ds : list bool) : bool := match ds with true :: false :: _ => true | _ => false end.

(** Block style, up to the end of the stream. *)
Fixpoint block_style (ts : list yaml_token) : bool :=
  match ts with
  | [] => false
  | t :: ts' => match token_check t with TokenDone => true | TokenError => false | TokenNext => block_style ts' end
  end.

(** The parser holds [ds] documents. *)
Lemma goes_documents ds : forall fuel count es args pools d s cf (Q : Z -> conf -> Prop),
  core_at es args pools d s cf -> yi_documents (cf_input cf) = ds -> (length ds < fuel)%nat -> 0 <= count -> count + zlen ds < 2 ^ 32 ->
  (forall cf', core_at es args pools d s cf' ->
    Q (if (if count =? 0 then one_document ds else (count =? 1) && bool_decide (head ds = Some false)) then NC_OK else NC_ERROR) cf') ->
  runs (iterate fuel (fun count : Z =>
      d ← document_next;
      match d with
      | None => conf_yaml_deinit;; mret (inr NC_ERROR)
      | Some true => mret (inl (u32 (count + 1)))
      | Some false => conf_yaml_deinit;; mret (inr (if negb (count =? 1) then NC_ERROR else NC_OK))
      end) count) cf Q.
Proof.
  induction ds as [|b ds IH]; intros fuel count es args pools d s cf Q H Hds Hf Hc Hz HQ; (destruct fuel as [|fuel]; [simpl in Hf; lia|]);
    simpl; unfold document_next; repeat run_step; rewrite Hds; repeat run_step.
  - eapply run_yaml_deinit; [exact H|]. intros cf1 C1. repeat run_step. specialize (HQ _ C1). by destruct (count =? 0), (count =? 1).
  - rewrite zlen_cons in Hz. pose proof (zlen_nonneg ds). destruct b; repeat run_step.
    + rewrite u32_small by (unfold is_u32; lia). simpl in Hf. eapply (IH fuel (count + 1)); [by destruct H|done|lia|lia|lia|].
      intros cf1 C1. specialize (HQ _ C1). destruct (Z.eqb_spec count 0) as [-> |]; simpl in HQ.
      * by destruct ds as [|[] ds].
      * destruct (Z.eqb_spec (count + 1) 0); [lia|]. destruct (Z.eqb_spec (count + 1) 1); [lia|]. rewrite andb_false_r in HQ. exact HQ.
    + eapply run_yaml_deinit; [by destruct H|]. intros cf1 C1. repeat run_step. specialize (HQ cf1). destruct (Z.eqb_spec count 0) as [-> |]; simpl in HQ; [by apply HQ|].
      destruct (count =? 1); by apply HQ.
Qed.

Lemma run_document es args pools d s cf (Q : Z -> conf -> Prop) :
  zlen (yi_documents ce_input) < 2 ^ 32 -> core_at es args pools d s cf ->
  (forall es' cf', core_at es' args pools d s cf' -> Q (if one_document (yi_documents ce_input) then NC_OK else NC_ERROR) cf') -> runs conf_validate_document cf Q.
Proof.
  intros Hz H HQ. unfold conf_validate_document. run_step. eapply run_yaml_init; [exact H|]. intros cf1 C1 E1. run_ok. repeat run_step.
  rewrite E1. eapply goes_documents; [exact C1|by rewrite E1|lia|lia|lia|]. apply HQ.
Qed.

Lemma goes_tokens ts : forall fuel es args pools d s cf (Q : Z -> conf -> Prop),
  core_at es args pools d s cf -> yi_tokens (cf_input cf) = ts -> (length ts < fuel)%nat ->
  (forall cf', core_at es args pools d s cf' -> Q (if block_style ts then NC_OK else NC_ERROR) cf') ->
  runs (iterate fuel (fun _ : unit =>
      status ← conf_token_next;
      if negb (status =? NC_OK) then mret (inr status)
      else
        t ← the_token;
        conf_token_done;;
        match token_check t with
        | TokenNext => mret (inl tt)
        | TokenDone => conf_yaml_deinit;; mret (inr NC_OK)
        | TokenError => conf_yaml_deinit;; mret (inr NC_ERROR)
        end) tt) cf Q.
Proof.
  induction ts as [|t ts IH]; intros fuel es args pools d s cf Q H Ht Hf HQ; (destruct fuel as [|fuel]; [simpl in Hf; lia|]);
    simpl; unfold conf_token_next; repeat run_step; rewrite Ht; repeat run_step; simpl; repeat run_step; [by apply HQ|].
  unfold the_token. eapply runs_reads; [done|]. repeat run_step. unfold conf_token_done. repeat run_step. simpl. repeat run_step.
  simpl in HQ. destruct (token_check t); repeat run_step.
  - eapply run_yaml_deinit; [by destruct H|]. intros cf1 C1. repeat run_step. by apply HQ.
  - eapply run_yaml_deinit; [by destruct H|]. intros cf1 C1. repeat run_step. by apply HQ.
  - eapply IH; [by destruct H|done|simpl in Hf; lia|done].
Qed.

Lemma run_tokens es args pools d s cf (Q : Z -> conf -> Prop) :
  core_at es args pools d s cf ->
  (forall es' cf', core_at es' args pools d s cf' -> Q (if block_style (yi_tokens ce_input) then NC_OK else NC_ERROR) cf') -> runs conf_validate_tokens cf Q.
Proof.
  intros H HQ. unfold conf_validate_tokens. run_step. eapply run_yaml_init; [exact H|]. intros cf1 C1 E1. run_ok. unfold token_fuel. repeat run_step.
  rewrite E1. eapply goes_tokens; [exact C1|by rewrite E1|lia|]. apply HQ.
Qed.

(** What the checks before the parse accept. *)
Definition acceptable (i : yaml_input) (root : node) : bool := one_document (yi_documents i) && (block_style (yi_tokens i) && is_configuration root).

Lemma run_pre_validate root es args pools d s cf (Q : Z -> conf -> Prop) :
  yi_events ce_input = stream root -> zlen (yi_documents ce_input) < 2 ^ 32 -> core_at es args pools d s cf ->
  (forall es' cf', core_at es' args pools d s cf' -> Q (if acceptable ce_input root then NC_OK else NC_ERROR) cf') -> runs conf_pre_validate cf Q.
Proof.
  intros Hs Hz H HQ. unfold conf_pre_validate, acceptable in *. run_step. eapply run_document; [done|exact H|]. intros es1 cf1 C1.
  destruct (one_document _); simpl in *; [|run_step; by eapply HQ]. run_step. eapply run_tokens; [exact C1|]. intros es2 cf2 C2.
  destruct (block_style _); simpl in *; [|run_step; by eapply HQ]. run_step. eapply run_structure; [done|exact C2|]. intros es3 cf3 C3.
  destruct (is_configuration _); simpl in *; repeat run_step; [|by eapply HQ]. eapply (HQ es3). by destruct C3.
Qed.

(** ** The parse *)

Lemma runs_iterate_S {A B} n (body : A -> C (A + B)) x cf Q :
  runs (body x) cf (fun y cf' => match y with inl x' => runs (iterate n body x') cf' Q | inr r => Q r cf' end) -> runs (iterate (S n) body x) cf Q.
Proof. intros H. simpl. run_step. eapply runs_mono; [exact H|]. by intros [x'|r] cf' H'. Qed.

(** One round of a loop over events: its event is read and released. *)
Ltac next_event cf C :=
  apply runs_iterate_S; run_step; (eapply run_event_next; [eassumption|]);
  let He := fresh "He" in
  intros cf C He; run_ok; run_step; unfold the_event; (eapply runs_reads; [exact He|]); repeat run_step.

Lemma run_begin_parse ps es s cf (Q : Z -> conf -> Prop) :
  yi_events ce_input = stream (Mapping ps) -> core_at es [] [] 0 s cf ->
  (forall cf', core_at (concat (map (fun kv => events kv.1 ++ events kv.2) ps) ++ [YAML_MAPPING_END_EVENT; YAML_DOCUMENT_END_EVENT; YAML_STREAM_END_EVENT]) [] [] 1 s cf' -> Q NC_OK cf') ->
  runs conf_begin_parse cf Q.
Proof.
  intros Hs H HQ. unfold conf_begin_parse. run_step. eapply run_yaml_init; [exact H|]. intros cf1 C1 _. run_ok. run_step. rewrite Hs in C1. unfold stream in C1. simpl in C1.
  rewrite <- app_assoc in C1. eapply run_event_fuel; [exact C1|]. cbn [length].
  next_event cf2 C2. eapply run_event_done; [eassumption|]. intros cf3 C3. repeat run_step.
  next_event cf4 C4. eapply run_event_done; [eassumption|]. intros cf5 C5. repeat run_step.
  next_event cf6 C6. eapply run_event_done; [|intros cf7 C7; repeat run_step; by apply HQ].
  destruct C6 as [H1 H2 H3 H4 H5 H6 H7 H8]. constructor; simpl; try done. by rewrite H7.
Qed.

Lemma run_end_parse args pools d s cf (Q : Z -> conf -> Prop) :
  core_at [YAML_DOCUMENT_END_EVENT; YAML_STREAM_END_EVENT] args pools d s cf -> (forall cf', core_at [] args pools d s cf' -> Q NC_OK cf') -> runs conf_end_parse cf Q.
Proof.
  intros H HQ. unfold conf_end_parse. run_step. eapply run_event_fuel; [exact H|]. cbn [length].
  next_event cf2 C2. eapply run_event_done; [eassumption|]. intros cf3 C3. repeat run_step.
  next_event cf4 C4. eapply run_event_done; [eassumption|]. intros cf5 C5. repeat run_step. eapply run_yaml_deinit; [exact C5|]. intros cf6 C6. repeat run_step. by apply HQ.
Qed.

(** The parse is the interpretation of the tree. *)
Lemma run_parse ps es cf status pools (Q : Z -> conf -> Prop) :
  yi_events ce_input = stream (Mapping ps) -> is_configuration (Mapping ps) = true -> Forall event_ok (events (Mapping ps)) -> zlen ps <= 2 ^ 28 ->
  load_tree (Mapping ps) = Some (status, pools) -> core_at es [] [] 0 false cf -> ends status pools Q -> runs conf_parse cf Q.
Proof.
  intros Hs Hc He Hz El H HQ. unfold conf_parse. run_step. eapply run_begin_parse; [done|exact H|]. intros cf1 C1. run_ok. run_step. unfold conf_parse_core. run_step.
  eapply run_event_fuel; [exact C1|]. rewrite length_app, <- Nat.add_succ_r. simpl in He. apply Forall_cons_iff in He as [_ He]. apply Forall_app in He as [He _].
  eapply (goes_pools alloc_ok ps _ _ _ []); [done|done|exact Hz|exact C1|exact El| |].
  - intros -> data cf2 C2. eapply goes_root_end; [exact C2|]. intros cf3 C3. run_ok. run_step. eapply run_end_parse; [exact C3|]. intros cf4 C4. run_ok.
    repeat run_step. eapply (HQ [] [] 0 false). by destruct C4.
  - intros Hst es' args d s cf2 C2. destruct (Z.eqb_spec status NC_OK); [done|]. simpl. run_step. by eapply HQ.
Qed.

(** ** The interpretation is defined *)

Lemma outcome_total {A} (m : C A) (P : A -> Prop) : total m P -> exists x, outcome m = Some x /\ P x.
Proof. intros H. destruct (runs_elim _ _ _ (H blank)) as (x & cf & E & Hx). exists x. unfold outcome. by rewrite E. Qed.

Lemma load_value_total key v cp : text_ok v -> is_Some (load_value key v cp).
Proof.
  intros Hv. unfold load_value. case_bool_decide; [by eexists|]. destruct (find_command conf_commands key) as [cmd|] eqn:E; [|by eexists]. simpl.
  apply List.find_some in E as [Hin _]. apply list_elem_of_In in Hin. destruct (outcome_total _ _ (total_command alloc_ok v Hv cmd cp Hin)) as (x & -> & _). by eexists.
Qed.

Lemma and_then_total {A} (x : option (Z * A)) k : is_Some x -> (forall y, is_Some (k y)) -> is_Some (and_then x k).
Proof. intros [[st y] ->] Hk. simpl. destruct (_ =? _); [apply Hk|by eexists]. Qed.

Lemma load_values_total key vs cp : forallb is_scalar vs = true -> Forall event_ok (concat (map events vs)) -> is_Some (load_values key vs cp).
Proof.
  revert cp. induction vs as [|v vs IH]; intros cp Hs He; simpl; [by eexists|]. destruct v as [v| |]; try done. simpl in *.
  apply Forall_cons_iff in He as [Hv He]. apply and_then_total; [by apply load_value_total|]. intros cp'. by apply IH.
Qed.

Lemma load_directives_total ds cp : forallb is_directive ds = true -> Forall event_ok (concat (map (fun kv => events kv.1 ++ events kv.2) ds)) -> is_Some (load_directives ds cp).
Proof.
  revert cp. induction ds as [|[k v] ds IH]; intros cp Hs He; simpl; [by eexists|]. simpl in *. apply andb_true_iff in Hs as [Hd Hs].
  apply Forall_app in He as [Hkv He]. apply and_then_total; [|intros cp'; by apply IH]. unfold is_directive, load_directive in *. simpl in *.
  apply andb_true_iff in Hd as [_ Hv]. apply Forall_app in Hkv as [_ Hve]. case_bool_decide; [by eexists|].
  destruct v as [v|l|]; try done; apply load_values_total; try done; simpl in Hve. apply Forall_cons_iff in Hve as [_ Hve]. by apply Forall_app in Hve as [Hve _].
Qed.

Lemma pool_init_total name : text_ok name -> total (conf_pool_init (string_text name)) (fun _ => True).
Proof.
  intros Hn. unfold conf_pool_init. eapply total_bind; [by apply (total_duplicate alloc_ok _ _ (fun _ => True))|]. intros x _. destruct (negb _); [by apply total_ret|].
  intros cf. unfold c_array_init, c_tick. repeat run_step. by destruct (negb _).
Qed.

Lemma load_pools_total ps pools : forallb is_pool ps = true -> Forall event_ok (concat (map (fun kv => events kv.1 ++ events kv.2) ps)) -> is_Some (load_pools ps pools).
Proof.
  revert pools. induction ps as [|[k v] ps IH]; intros pools Hs He; simpl; [by eexists|]. simpl in *. apply andb_true_iff in Hs as [Hd Hs].
  apply Forall_app in He as [Hkv He]. case_bool_decide; [by eexists|]. unfold is_pool, load_pool in *. simpl in *. apply andb_true_iff in Hd as [Hk Hv].
  apply Forall_app in Hkv as [Hke Hve]. destruct k as [name| |]; try done. destruct v as [| |ds]; try done. apply andb_true_iff in Hv as [Hd _].
  simpl in *. apply Forall_cons_iff in Hke as [Hn _]. apply Forall_cons_iff in Hve as [_ Hve]. apply Forall_app in Hve as [Hve _].
  destruct (outcome_total _ _ (pool_init_total name Hn)) as ([st cp] & -> & _). simpl. destruct (st =? NC_OK); [|destruct (st =? NC_OK); [by apply IH|by eexists]].
  destruct (load_directives_total ds cp Hd Hve) as [[st' cp'] ->]. destruct (st' =? NC_OK); [by apply IH|by eexists].
Qed.

Lemma load_tree_total root : is_configuration root = true -> Forall event_ok (events root) -> is_Some (load_tree root).
Proof.
  destruct root as [| |ps]; try done. simpl. intros Hc He. apply load_pools_total; [done|]. apply Forall_cons_iff in He as [_ He]. by apply Forall_app in He as [He _].
Qed.

End Load.
