(* ===== verification/ConfSample.v ===== *)
(** qsort(3) as an insertion sort and a machine to run the configuration on:
    memory is available, hosts resolve and the file holds one document. *)

From S2P Require Import Prelude CArray State CString Conf ConfParse ConfPure ConfSafe ConfTree.
From Stdlib Require Import Sorted String.

(** [x] is not after [y]. *)
Definition le_by {A} (cmp : A -> A -> option Z) (x y : A) : Prop := exists c, cmp x y = Some c /\ c <= 0.

(** [cmp] orders the elements of [l]. *)
Record orders {A} (cmp : A -> A -> option Z) (l : list A) : Prop := {
  or_total : forall x y, x ∈ l -> y ∈ l -> le_by cmp x y \/ le_by cmp y x;
  or_defined : forall x y, x ∈ l -> y ∈ l -> is_Some (cmp x y);
  or_trans : forall x y z, x ∈ l -> y ∈ l -> z ∈ l -> le_by cmp x y -> le_by cmp y z -> le_by cmp x z
}.

(** qsort(3): the elements in ascending order, if there is one. *)
Definition sorts {A} (cmp : A -> A -> option Z) (q : list A -> list A) : Prop :=
  forall l, orders cmp l -> q l ≡ₚ l /\ StronglySorted (le_by cmp) (q l).

(** ** An insertion sort *)

Section Insertion.
Context {A : Type} (cmp : A -> A -> option Z).

Fixpoint insert_by (x : A) (l : list A) : list A :=
  match l with
  | [] => [x]
  | y :: l' => if default 1 (cmp x y) <=? 0 then x :: l else y :: insert_by x l'
  end.
Definition sort_by (l : list A) : list A := foldr insert_by [] l.

Lemma insert_by_perm x l : insert_by x l ≡ₚ x :: l.
Proof. induction l as [|y l IH]; simpl; [done|]. destruct (_ <=? 0); [done|]. rewrite IH. apply Permutation_swap. Qed.

Lemma sort_by_perm l : sort_by l ≡ₚ l.
Proof. induction l as [|x l IH]; simpl; [done|]. by rewrite insert_by_perm, IH. Qed.

Lemma insert_by_sorted x l : orders cmp (x :: l) -> StronglySorted (le_by cmp) l -> StronglySorted (le_by cmp) (insert_by x l).
Proof.
  intros HO Hs. induction Hs as [|y l Hs IH Hy]; simpl; [by repeat constructor|]. pose proof HO as [Ht Hd Hr].
  destruct (Hd x y) as [c Hc]; [constructor|do 2 constructor|]. rewrite Hc. simpl. destruct (Z.leb_spec c 0) as [Hc0|Hc0].
  - assert (Hxy : le_by cmp x y) by (by exists c). constructor; [by constructor|]. constructor; [done|]. apply list.Forall_forall. intros z Hz.
    eapply (Hr x y z); [constructor|do 2 constructor|by do 2 constructor|done|]. rewrite list.Forall_forall in Hy. by apply Hy.
  - assert (Hyx : le_by cmp y x).
    { destruct (Ht x y) as [[c' [E' H']]|]; [constructor|do 2 constructor| |done]. rewrite Hc in E'. injection E' as <-. lia. }
    constructor.
    + apply IH. split; intros *; rewrite !elem_of_cons; intros; [apply Ht|apply Hd|eapply Hr]; rewrite ?elem_of_cons; try eassumption; tauto.
    + apply list.Forall_forall. intros z Hz. rewrite insert_by_perm in Hz. apply elem_of_cons in Hz as [-> |Hz]; [done|]. rewrite list.Forall_forall in Hy. by apply Hy.
Qed.

Lemma orders_perm l l' : l ≡ₚ l' -> orders cmp l -> orders cmp l'.
Proof. intros Hp [Ht Hd Hr]. split; intros *; rewrite <- Hp; eauto. Qed.

Lemma sort_by_sorts : sorts cmp sort_by.
Proof.
  intros l HO. split; [apply sort_by_perm|]. induction l as [|x l IH]; [constructor|]. simpl. apply insert_by_sorted.
  - eapply orders_perm; [|exact HO]. by rewrite sort_by_perm.
  - apply IH. destruct HO as [Ht Hd Hr]. split; intros *; intros; [apply Ht|apply Hd|eapply Hr]; try eassumption; by constructor.
Qed.

End Insertion.

(** ** The machine *)

Definition sample_env (i : yaml_input) : ConfEnv := {|
  ce_ok _ _ := true;
  ce_sizeof_conf := 1136;
  ce_fopen := true;
  ce_yaml_init _ := true;
  ce_input := i;
  ce_inet node port := Some (node ++ [port / 256; port mod 256]);
  ce_qsort_server := sort_by conf_server_name_cmp;
  ce_qsort_listen := sort_by conf_pool_listen_cmp;
  ce_qsort_name := sort_by conf_pool_name_cmp
|}.

(** A file with one document. *)
Definition sample_input (root : node) : yaml_input :=
  mk_input [true; false] [YAML_STREAM_START_TOKEN; YAML_BLOCK_MAPPING_START_TOKEN; YAML_BLOCK_END_TOKEN; YAML_STREAM_END_TOKEN] (stream root).

Definition text (s : String.string) : node := Scalar (bytes_of s).

(** alpha: two servers, one of them with a name. *)
Definition sample_root : node :=
  Mapping [(text "alpha", Mapping
    [(text "listen", text "127.0.0.1:22121"); (text "hash", text "fnv1a_64"); (text "redis", text "true"); (text "server_connections", text "2");
     (text "servers", Sequence [text "10.0.0.2:6379:1 second"; text "10.0.0.1:6379:3"])])].
