(* ===== verification/ConfServer.v ===== *)
(** Server lines: conf_add_server reads what a split of the line at its last
    separators says. *)

From S2P Require Import Prelude CArray State CString Conf ConfParse ConfPure ConfSafe ConfTree ConfSample.

(** ** The reference *)

(** At the last [ch]. *)
Fixpoint rsplit (ch : Z) (l : list Z) : option (list Z * list Z) :=
  match l with
  | [] => None
  | x :: l' =>
      match rsplit ch l' with
      | Some (a, b) => Some (x :: a, b)
      | None => if x =? ch then Some ([], l') else None
      end
  end.

(** A decimal number that fits an int; -1 if it is none.  An overflow wraps. *)
Definition number (l : list Z) : Z :=
  if bool_decide (l = []) || negb (forallb isdigit l) then -1
  else let v := s32 (fold_left (fun x ch => x * 10 + (ch - 48)) l 0) in if v <? 0 then -1 else v.

(** "hostname:port:weight [name]" or "/path/unix_socket:weight [name]": the
    text before the name, the name, the address, the port and the weight; the
    name and the port may be missing. *)
Record server_line := mk_line { sl_front : list Z; sl_name : option (list Z); sl_addr : list Z; sl_port : option (list Z); sl_weight : list Z }.

Definition is_unix (v : list Z) : bool := bool_decide (head v = Some 47).

Definition split_line (v : list Z) : option server_line :=
  let '(front, name) := match rsplit 32 v with Some (a, b) => (a, Some b) | None => (v, None) end in
  match rsplit 58 front with
  | None => None
  | Some (rest, weight) =>
      match rsplit 58 rest with
      | None => if is_unix v then Some (mk_line front name rest None weight) else None
      | Some (addr, port) => if is_unix v then None else Some (mk_line front name addr (Some port) weight)
      end
  end.

(** The server of a line. *)
Record server_text := mk_server_text { se_pname : list Z; se_name : list Z; se_addrstr : list Z; se_port : Z; se_weight : Z }.

(** The name a server without one has in the hash. *)
Definition ketama_name (addr : list Z) (port : option (list Z)) (n : Z) : list Z :=
  if n =? CONF_DEFAULT_KETAMA_PORT then addr else addr ++ 58 :: default [] port.

Definition read_server (v : list Z) : message + server_text :=
  match split_line v with
  | None => inl bad_server
  | Some l =>
      let weight := number (sl_weight l) in
      if weight <? 0 then inl bad_weight
      else if weight =? 0 then inl zero_weight
      else
        let port := match sl_port l with None => 0 | Some p => number p end in
        if negb (is_unix v) && negb (nc_valid_port port) then inl bad_port
        else
          let pname := match sl_name l with Some (_ :: _) => sl_front l | _ => v end in
          inr (mk_server_text pname (default (ketama_name (sl_addr l) (sl_port l) port) (sl_name l)) (sl_addr l) port weight)
  end.

Record server_is (cs : conf_server) (t : server_text) : Prop := {
  si_pname : str_is (cs_pname cs) (se_pname t);
  si_name : str_is (cs_name cs) (se_name t);
  si_addrstr : str_is (cs_addrstr cs) (se_addrstr t);
  si_port : cs_port cs = se_port t;
  si_weight : cs_weight cs = se_weight t;
  si_info : cs_info cs = SockZero;
  si_valid : cs_valid cs = true
}.

(** ** The splits *)

Lemma rsplit_Some ch l a b : rsplit ch l = Some (a, b) -> l = a ++ ch :: b /\ ch ∉ b.
Proof.
  revert a b. induction l as [|x l IH]; intros a b E; simpl in E; [done|]. destruct (rsplit ch l) as [[a' b']|] eqn:El.
  - injection E as <- <-. destruct (IH a' b' eq_refl) as [-> H]. done.
  - destruct (Z.eqb_spec x ch) as [-> |]; [|done]. injection E as <- <-. split; [done|]. clear IH. intros Hin.
    induction l as [|y l IH]; [by apply elem_of_nil in Hin|]. simpl in El. destruct (rsplit ch l) as [[??]|]; [done|].
    destruct (Z.eqb_spec y ch); [done|]. apply elem_of_cons in Hin as [-> |Hin]; [done|by apply IH].
Qed.

Lemma rsplit_None ch l : rsplit ch l = None -> ch ∉ l.
Proof.
  induction l as [|x l IH]; intros E; simpl in E; [apply not_elem_of_nil|]. destruct (rsplit ch l) as [[??]|]; [done|].
  destruct (Z.eqb_spec x ch); [done|]. apply not_elem_of_cons. split; [congruence|by apply IH].
Qed.

Lemma rsplit_free ch l : ch ∉ l -> rsplit ch l = None.
Proof.
  intros H. destruct (rsplit ch l) as [[a b]|] eqn:E; [|done]. apply rsplit_Some in E as [-> _]. exfalso. apply H, elem_of_app. right. constructor.
Qed.

Lemma rsplit_last ch a b : ch ∉ b -> rsplit ch (a ++ ch :: b) = Some (a, b).
Proof.
  intros Hb. induction a as [|x a IH]; simpl; [by rewrite rsplit_free, Z.eqb_refl|by rewrite IH].
Qed.

Lemma strrchr_rsplit l rest ch : nc_strrchr (l ++ rest) (zlen l - 1) 0 ch = Some ((fun ab => zlen ab.1) <$> rsplit ch l).
Proof.
  destruct (rsplit ch l) as [[a b]|] eqn:E.
  - apply rsplit_Some in E as [-> Hb]. rewrite zlen_app, zlen_cons, <- app_assoc. replace (zlen a + (1 + zlen b) - 1) with (zlen a + zlen b) by lia.
    by rewrite <- app_comm_cons, nc_strrchr_found.
  - apply rsplit_None in E. by rewrite nc_strrchr_none.
Qed.

(** ** Numbers *)

Lemma atoi_loop_bad a l rest v : forallb isdigit l = false -> atoi_loop (a ++ l ++ rest) (zlen a) (length l) v = Some None.
Proof.
  revert a v. induction l as [|ch l IH]; intros a v Hl; [done|]. simpl in *. rewrite rd_app_r, Z.sub_diag by lia. simpl.
  unfold isdigit in Hl at 1. destruct (Z.leb_spec 48 ch), (Z.leb_spec ch 57); simpl in Hl; destruct (Z.ltb_spec ch 48), (Z.ltb_spec 57 ch); try lia; simpl; try done.
  specialize (IH (a ++ [ch]) (s32 (v * 10 + (ch - 48))) Hl). rewrite <- app_assoc, zlen_app in IH. exact IH.
Qed.

Lemma s32_idemp x : s32 (s32 x) = s32 x.
Proof. apply s32_small, s32_range. Qed.

Lemma s32_acc x ch : s32 (s32 x * 10 + ch) = s32 (x * 10 + ch).
Proof.
  unfold s32, swrap. change (2 ^ (32 - 1)) with (2 ^ 31). f_equal. replace (((x + 2 ^ 31) mod 2 ^ 32 - 2 ^ 31) * 10 + ch + 2 ^ 31) with ((x + 2 ^ 31) mod 2 ^ 32 * 10 + (ch - 9 * 2 ^ 31)) by lia.
  rewrite <- Zplus_mod_idemp_l, Zmult_mod_idemp_l, Zplus_mod_idemp_l. f_equal. lia.
Qed.

Lemma fold_s32 l x : l <> [] -> fold_left (fun x ch => s32 (x * 10 + (ch - 48))) l x = s32 (fold_left (fun x ch => x * 10 + (ch - 48)) l x).
Proof.
  intros Hl. assert (H : forall l x y, s32 x = s32 y -> s32 (fold_left (fun x ch => s32 (x * 10 + (ch - 48))) l x) = s32 (fold_left (fun x ch => x * 10 + (ch - 48)) l y)).
  { clear. induction l as [|ch l IH]; intros x y E; simpl; [done|]. apply IH. rewrite s32_idemp, <- s32_acc, E. apply s32_acc. }
  rewrite <- (H l x x) by done. symmetry. apply s32_small. destruct l as [|ch l _] using rev_ind; [done|]. rewrite fold_left_app. apply s32_range.
Qed.

Lemma nc_atoi_number a l rest : nc_atoi (a ++ l ++ rest) (zlen a) (zlen l) = Some (number l).
Proof.
  unfold nc_atoi, number. destruct l as [|ch l]; [done|]. rewrite bool_decide_false by done. rewrite zlen_cons. pose proof (zlen_nonneg l).
  destruct (Z.eqb_spec (1 + zlen l) 0); [lia|]. rewrite orb_false_l. replace (Z.to_nat (1 + zlen l)) with (length (ch :: l)) by (unfold zlen; simpl; lia).
  destruct (forallb isdigit (ch :: l)) eqn:E.
  - rewrite atoi_loop_digits by (apply list.Forall_forall; intros y Hy; apply list_elem_of_In in Hy; by eapply List.forallb_forall in E). by rewrite fold_s32.
  - by rewrite atoi_loop_bad.
Qed.

Lemma number_dec n : 0 <= n < 2 ^ 31 -> number (dec n) = n.
Proof. intros Hn. pose proof (nc_atoi_dec [] n [] Hn) as H. pose proof (nc_atoi_number [] (dec n) []) as H'. rewrite H in H'. by injection H' as <-. Qed.

(** ** conf_add_server *)

(** Where the parts of [v] are. *)
Definition line_parts (v : list Z) : Z * Z * parts :=
  let '(front, name) := match rsplit 32 v with Some (a, b) => (a, Some (zlen a + 1, zlen b)) | None => (v, None) end in
  match rsplit 58 front with
  | None => (1, zlen front - 1, mk_parts name None None)
  | Some (rest, weight) =>
      let weight := Some (zlen rest + 1, zlen weight) in
      match rsplit 58 rest with
      | None => (2, zlen rest - 1, mk_parts name weight None)
      | Some (addr, port) => (3, zlen addr - 1, mk_parts name weight (Some (zlen addr + 1, zlen port)))
      end
  end.

Section Line.
Context `{env : ConfEnv}.

Lemma run_split_none ds d k l rest pt ch cf (Q : Z * Z * parts -> conf -> Prop) :
  d = l ++ rest -> rsplit ch l = None ->
  (if k =? 0 then runs (split_server d ds (k + 1) (zlen l - 1) pt) cf Q else Q (k, zlen l - 1, pt) cf) -> runs (split_server d (ch :: ds) k (zlen l - 1) pt) cf Q.
Proof.
  intros -> E H. simpl. run_step. eapply runs_reads; [apply strrchr_rsplit|]. rewrite E. simpl. destruct (k =? 0); [done|]. by run_step.
Qed.

Lemma run_split_some ds d k l rest pt ch a b cf (Q : Z * Z * parts -> conf -> Prop) :
  d = l ++ rest -> rsplit ch l = Some (a, b) -> zlen l < 2 ^ 32 ->
  runs (split_server d ds (k + 1) (zlen a - 1) (set_part k (zlen a + 1, zlen b) pt)) cf Q -> runs (split_server d (ch :: ds) k (zlen l - 1) pt) cf Q.
Proof.
  intros -> E Hz H. simpl. run_step. eapply runs_reads; [apply strrchr_rsplit|]. rewrite E. simpl. apply rsplit_Some in E as [-> _].
  rewrite zlen_app, zlen_cons in *. pose proof (zlen_nonneg a). pose proof (zlen_nonneg b). rewrite u32_small by (unfold is_u32; lia).
  replace (zlen a + (1 + zlen b) - 1 - (zlen a + 1) + 1) with (zlen b) by lia. done.
Qed.

Lemma run_split_line v cf (Q : Z * Z * parts -> conf -> Prop) :
  text_ok v -> Q (line_parts v) cf -> runs (split_server (v ++ [0]) delim 0 (zlen v - 1) (mk_parts None None None)) cf Q.
Proof.
  intros [Hv Hz] HQ. unfold line_parts in HQ. unfold delim. change (bytes_of " ::" ++ [0]) with [32; 58; 58; 0].
  assert (Hgo : forall front rest pt, v ++ [0] = front ++ rest -> 0 ∉ front -> zlen front < 2 ^ 32 -> pt_weight pt = None -> pt_port pt = None ->
    Q match rsplit 58 front with
      | None => (1, zlen front - 1, mk_parts (pt_name pt) None None)
      | Some (rest, weight) =>
          match rsplit 58 rest with
          | None => (2, zlen rest - 1, mk_parts (pt_name pt) (Some (zlen rest + 1, zlen weight)) None)
          | Some (addr, port) => (3, zlen addr - 1, mk_parts (pt_name pt) (Some (zlen rest + 1, zlen weight)) (Some (zlen addr + 1, zlen port)))
          end
      end cf -> runs (split_server (v ++ [0]) [58; 58; 0] 1 (zlen front - 1) pt) cf Q).
  { clear HQ. intros front rest [nm w0 p0] Ed H0 Hf Hw Hp HQ. simpl in Hw, Hp, HQ. subst w0 p0. destruct (rsplit 58 front) as [[a b]|] eqn:E1; [|by eapply run_split_none].
    eapply run_split_some; [done|exact E1|done|]. apply rsplit_Some in E1 as [-> _]. rewrite zlen_app, zlen_cons in Hf. pose proof (zlen_nonneg b). rewrite <- app_assoc in Ed.
    destruct (rsplit 58 a) as [[a2 b2]|] eqn:E2; [|by eapply run_split_none]. eapply run_split_some; [done|exact E2|lia|].
    apply rsplit_Some in E2 as [-> _]. rewrite <- app_assoc in Ed. eapply run_split_none; [exact Ed|apply rsplit_free|exact HQ].
    intros Hin. apply H0. rewrite <- app_assoc. apply elem_of_app. by left. }
  destruct (rsplit 32 v) as [[a b]|] eqn:E.
  - eapply run_split_some; [done|exact E|lia|]. apply rsplit_Some in E as [-> _]. rewrite zlen_app, zlen_cons in Hz. pose proof (zlen_nonneg b).
    eapply Hgo; [by rewrite <- app_assoc| |lia|done|done|exact HQ]. intros Hin. apply Hv, elem_of_app. by left.
  - eapply run_split_none; [done|exact E|]. simpl. eapply Hgo; [done|done|lia|done|done|exact HQ].
Qed.

(** The parts found are those of [l]. *)
Record line_is (v : list Z) (l : server_line) (pt : parts) : Prop := {
  li_name : match sl_name l with
            | None => pt_name pt = None /\ v = sl_front l
            | Some n => pt_name pt = Some (zlen (sl_front l) + 1, zlen n) /\ v = sl_front l ++ 32 :: n
            end;
  li_rest : exists rest, pt_weight pt = Some (zlen rest + 1, zlen (sl_weight l)) /\ sl_front l = rest ++ 58 :: sl_weight l /\
            match sl_port l with
            | None => pt_port pt = None /\ rest = sl_addr l /\ is_unix v = true
            | Some p => pt_port pt = Some (zlen (sl_addr l) + 1, zlen p) /\ rest = sl_addr l ++ 58 :: p /\ is_unix v = false
            end
}.

Lemma line_parts_split v :
  let delimlen := if is_unix v then 2 else 3 in
  match split_line v with
  | None => (line_parts v).1.1 <> delimlen
  | Some l => exists pt, line_parts v = (delimlen, zlen (sl_addr l) - 1, pt) /\ line_is v l pt
  end.
Proof.
  unfold split_line, line_parts.
  assert (Hgo : forall front name nm, match name with None => nm = None /\ v = front | Some n => nm = Some (zlen front + 1, zlen n) /\ v = front ++ 32 :: n end ->
    match match rsplit 58 front with
      | None => None
      | Some (rest, weight) =>
          match rsplit 58 rest with
          | None => if is_unix v then Some (mk_line front name rest None weight) else None
          | Some (addr, port) => if is_unix v then None else Some (mk_line front name addr (Some port) weight)
          end
      end with
    | None => (match rsplit 58 front with
        | None => (1, zlen front - 1, mk_parts nm None None)
        | Some (rest, weight) =>
            match rsplit 58 rest with
            | None => (2, zlen rest - 1, mk_parts nm (Some (zlen rest + 1, zlen weight)) None)
            | Some (addr, port) => (3, zlen addr - 1, mk_parts nm (Some (zlen rest + 1, zlen weight)) (Some (zlen addr + 1, zlen port)))
            end
        end).1.1 <> if is_unix v then 2 else 3
    | Some l => exists pt, match rsplit 58 front with
        | None => (1, zlen front - 1, mk_parts nm None None)
        | Some (rest, weight) =>
            match rsplit 58 rest with
            | None => (2, zlen rest - 1, mk_parts nm (Some (zlen rest + 1, zlen weight)) None)
            | Some (addr, port) => (3, zlen addr - 1, mk_parts nm (Some (zlen rest + 1, zlen weight)) (Some (zlen addr + 1, zlen port)))
            end
        end = (if is_unix v then 2 else 3, zlen (sl_addr l) - 1, pt) /\ line_is v l pt
    end).
  { intros front name nm Hn. destruct (rsplit 58 front) as [[rest w]|] eqn:E1; [|destruct (is_unix v); simpl; lia]. apply rsplit_Some in E1 as [E1 _].
    destruct (rsplit 58 rest) as [[addr port]|] eqn:E2.
    - apply rsplit_Some in E2 as [E2 _]. destruct (is_unix v) eqn:Eu; [simpl; lia|]. eexists. split; [done|]. split; simpl; [by destruct name|]. by exists rest.
    - destruct (is_unix v) eqn:Eu; [|simpl; lia]. eexists. split; [done|]. split; simpl; [by destruct name|]. by exists rest. }
  destruct (rsplit 32 v) as [[a b]|] eqn:E; apply Hgo; [|done]. by apply rsplit_Some in E as [E _].
Qed.

Hypothesis alloc_ok : forall n z, ce_ok n z = true.
Variable v : list Z.
Hypothesis Hv : text_ok v.

(** A copy of a part of the line. *)
Lemma copy_mid dst off len a b c : v = a ++ b ++ c -> off = zlen a -> len = zlen b ->
  total (c_string_copy dst (v ++ [0]) off len) (fun x => x.1 = NC_OK /\ str_is x.2 b).
Proof.
  intros Ev -> ->. apply (total_copy alloc_ok _ v); [done|apply zlen_nonneg|apply zlen_nonneg|rewrite Ev, !zlen_app; pose proof (zlen_nonneg c); lia|].
  intros s Hs. simpl. split; [done|]. replace (slice v (zlen a) (zlen a + zlen b)) with b in Hs; [done|].
  unfold slice, zlen. rewrite Ev. replace (Z.to_nat (Z.of_nat (length a) + Z.of_nat (length b) - Z.of_nat (length a))) with (length b) by lia.
  by rewrite Nat2Z.id, drop_app_length, take_app_length.
Qed.

Lemma atoi_mid off len a b c : v = a ++ b ++ c -> off = zlen a -> len = zlen b -> total (atoi_part (v ++ [0]) (Some (off, len))) (fun x => x = number b).
Proof. intros -> -> ->. unfold atoi_part. simpl. apply total_reads. rewrite <- !app_assoc. exists (number b). by rewrite nc_atoi_number. Qed.

Lemma total_names l pt field :
  line_is v l pt -> (sl_port l = None -> cs_port field = 0) ->
  total (server_names (v ++ [0]) (u32 (zlen (sl_addr l) - 1 - 0 + 1)) pt field)
    (fun y => exists s1 s2, y = (CONF_OK, cs_set_valid true (cs_set_addrstr s2 (cs_set_name s1 field))) /\
      str_is s1 (default (ketama_name (sl_addr l) (sl_port l) (cs_port field)) (sl_name l)) /\ str_is s2 (sl_addr l)).
Proof.
  intros [Hn (rest & Hw & Hf & Hp)] Hport. destruct (Hv) as [_ Hz].
  assert (Hlen : zlen (sl_addr l) + 1 + zlen (default [] (sl_port l)) <= zlen v).
  { assert (zlen (sl_front l) <= zlen v) by (destruct (sl_name l) as [n|]; destruct Hn as [_ Ev]; rewrite Ev, ?zlen_app, ?zlen_cons; try pose proof (zlen_nonneg n); lia).
    rewrite Hf in H. pose proof (zlen_nonneg (sl_weight l)). destruct (sl_port l) as [p|]; destruct Hp as (_ & -> & _); simpl; rewrite !zlen_app, !zlen_cons in H; unfold zlen in *; simpl; lia. }
  pose proof (zlen_nonneg (sl_addr l)). pose proof (zlen_nonneg (default [] (sl_port l))).
  assert (Hva : exists c, v = [] ++ sl_addr l ++ c).
  { destruct (sl_name l) as [n|]; destruct Hn as [_ Ev]; rewrite Ev, Hf; destruct (sl_port l) as [p|]; destruct Hp as (_ & -> & _); rewrite <- ?app_assoc; by eexists. }
  assert (Hvk : exists c, v = [] ++ (sl_addr l ++ 58 :: default [] (sl_port l)) ++ c).
  { destruct (sl_name l) as [n|]; destruct Hn as [_ Ev]; rewrite Ev, Hf; destruct (sl_port l) as [p|]; destruct Hp as (_ & -> & _); eexists; simpl; rewrite <- ?app_assoc; simpl; reflexivity. }
  destruct Hva as [ca Hva], Hvk as [ck Hvk]. unfold server_names. replace (zlen (sl_addr l) - 1 - 0 + 1) with (zlen (sl_addr l)) by lia. rewrite u32_small by (unfold is_u32; lia).
  set (nm := match pt_name pt with Some _ => _ | None => _ end).
  assert (Hnm : total (c_string_copy (cs_name field) (v ++ [0]) nm.1 nm.2)
    (fun x => x.1 = NC_OK /\ str_is x.2 (default (ketama_name (sl_addr l) (sl_port l) (cs_port field)) (sl_name l)))).
  { unfold nm, ketama_name. destruct (sl_name l) as [n|]; destruct Hn as [-> Ev]; simpl.
    - eapply (copy_mid _ _ _ (sl_front l ++ [32]) n []); [rewrite app_nil_r, <- app_assoc; exact Ev|by rewrite zlen_app|done].
    - destruct (cs_port field =? CONF_DEFAULT_KETAMA_PORT); simpl; [eapply copy_mid; [exact Hva|done|done]|]. eapply copy_mid; [exact Hvk|done|].
      rewrite zlen_app, zlen_cons. destruct (sl_port l) as [p|]; destruct Hp as (-> & _); simpl in *; rewrite u32_small by (unfold is_u32; lia); [lia|]. change (zlen []) with 0. lia. }
  destruct nm as [name namelen]. eapply total_bind; [exact Hnm|]. intros [st s1] [Hst Hs1]. simpl in *. subst st. run_ok.
  eapply total_bind; [apply (copy_mid _ _ _ [] (sl_addr l) ca); [exact Hva|done|done]|]. intros [st s2] [Hst Hs2]. simpl in *. subst st. run_ok. apply total_ret. eauto.
Qed.

Lemma total_unix : v <> [] -> total (reads (fun _ => rd (v ++ [0]) 0)) (fun ch => (ch =? 47) = is_unix v).
Proof.
  intros Hne. apply total_first. intros ch Hch. unfold is_unix. destruct v as [|x w]; [done|]. injection Hch as ->. simpl.
  destruct (Z.eqb_spec ch 47) as [-> |]; [by rewrite bool_decide_true|]. rewrite bool_decide_false; [done|congruence].
Qed.

Lemma total_numbers l pt field :
  line_is v l pt -> v <> [] -> cs_port field = 0 -> cs_info field = SockZero ->
  total (server_numbers (v ++ [0]) (zlen (sl_addr l) - 1) pt field) (fun y =>
    let weight := number (sl_weight l) in
    let port := match sl_port l with None => 0 | Some p => number p end in
    if weight <? 0 then y.1 = bad_weight
    else if weight =? 0 then y.1 = zero_weight
    else if negb (is_unix v) && negb (nc_valid_port port) then y.1 = bad_port
    else y.1 = CONF_OK /\ forall pname, str_is (cs_pname field) pname ->
      server_is y.2 (mk_server_text pname (default (ketama_name (sl_addr l) (sl_port l) port) (sl_name l)) (sl_addr l) port weight)).
Proof.
  intros HL Hne Hp0 Hi0. pose proof HL as [Hn (rest & Hw & Hf & Hp)]. unfold server_numbers.
  assert (Hvf : exists c, v = sl_front l ++ c) by (destruct (sl_name l) as [n|]; destruct Hn as [_ ->]; [by eexists|exists []; by rewrite app_nil_r]).
  destruct Hvf as [c Hvf]. rewrite Hf, <- app_assoc in Hvf. rewrite Hw. eapply total_bind.
  { apply (atoi_mid _ _ (rest ++ [58]) (sl_weight l) c); [by rewrite <- app_assoc|by rewrite zlen_app|done]. }
  intros ? ->. simpl. destruct (number (sl_weight l) <? 0); [by apply total_ret|]. destruct (number (sl_weight l) =? 0); [by apply total_ret|].
  eapply total_bind; [by apply total_unix|]. intros ch ->. destruct (sl_port l) as [p|] eqn:Ep; destruct Hp as (Ept & Er & ->); simpl.
  - rewrite Ept. eapply total_bind.
    { apply (atoi_mid _ _ (sl_addr l ++ [58]) p (58 :: sl_weight l ++ c)); [|by rewrite zlen_app|done]. rewrite Hvf, Er, <- !app_assoc. done. }
    intros ? ->. assert (Hnp : (number p <? 0) || negb (nc_valid_port (number p)) = negb (nc_valid_port (number p))).
    { unfold nc_valid_port. destruct (Z.ltb_spec (number p) 0), (Z.ltb_spec (number p) 1); simpl; lia || done. }
    rewrite Hnp. destruct (negb (nc_valid_port _)); [by apply total_ret|]. eapply total_mono; [apply total_names; [done|by rewrite Ep]|].
    intros y (s1 & s2 & -> & H1 & H2). rewrite Ep in H1. split; [done|]. by intros pname Hpn.
  - eapply total_mono; [apply total_names; [done|done]|]. intros y (s1 & s2 & -> & H1 & H2). rewrite Ep in H1. simpl in H1. rewrite Hp0 in H1.
    split; [done|]. by intros pname Hpn.
Qed.

(** conf_add_server adds the server of the line, or the message. *)
Lemma total_add_line cp servers :
  v <> [] -> array_rel (cp_server cp) servers -> nalloc (cp_server cp) < 2 ^ 30 ->
  total (conf_add_server (string_text v) cp) (fun x => exists cs,
    array_rel (cp_server x.2) (servers ++ [cs]) /\ x.2 = cp_set_server (cp_server x.2) cp /\
    nalloc (cp_server x.2) = (if zlen servers =? nalloc (cp_server cp) then 2 * zlen servers else nalloc (cp_server cp)) /\
    match read_server v with inl message => x.1 = message | inr t => x.1 = CONF_OK /\ server_is cs t end).
Proof.
  intros Hne HR Hb. unfold conf_add_server. destruct (arr_push (fun _ => true) (cp_server cp) servers HR Hb) as (a' & Ep & _ & En & HR'); [done|].
  eapply total_bind; [by apply (total_push alloc_ok _ (fun o => o = Some (array_get (cp_server cp) (zlen servers), a')))|]. intros ? ->.
  eapply total_bind; [by apply (total_data v (fun d => d = v ++ [0]))|]. intros ? ->. eapply total_bind; [by apply total_unix|]. intros ch ->. eapply total_bind with (P := fun x => x = line_parts v); [intros cf; by apply run_split_line|]. intros ? ->.
  pose proof (line_parts_split v) as Hl. cbv zeta in Hl. unfold read_server. destruct (split_line v) as [l|].
  - destruct Hl as (pt & -> & HL). rewrite Z.eqb_refl. cbn [negb]. cbv iota zeta.
    set (pname := match sl_name l with Some (_ :: _) => sl_front l | _ => v end). eapply total_bind with (P := fun x => x.1 = NC_OK /\ str_is x.2 pname).
    { destruct Hv as [_ Hz]. pose proof (li_name _ _ _ HL) as Hn. unfold pname. destruct (sl_name l) as [[|x n]|]; destruct Hn as [-> Ev]; simpl.
      - apply (copy_mid _ _ _ [] v []); [by rewrite app_nil_r|done|done].
      - rewrite zlen_cons in *. pose proof (zlen_nonneg n). destruct (Z.ltb_spec 0 (1 + zlen n)); [|lia].
        apply (copy_mid _ _ _ [] (sl_front l) (32 :: x :: n)); [done|done|]. apply (f_equal zlen) in Ev. rewrite zlen_app, !zlen_cons in Ev. pose proof (zlen_nonneg (sl_front l)).
        rewrite u32_small by (unfold is_u32; lia). lia.
      - apply (copy_mid _ _ _ [] v []); [by rewrite app_nil_r|done|done]. }
    intros [st s] [Hst Hs]. simpl in Hst. subst st. run_ok. eapply total_bind; [by apply total_numbers|]. intros y Hy. apply total_ret. exists y.2. simpl.
    split_and!; [apply HR'|done|done|]. cbv zeta in Hy. repeat (destruct (_ : bool) in Hy |- *; [exact Hy|]). by destruct Hy as [-> Hy]; split; [|apply Hy].
  - destruct (line_parts v) as [[k p] pt]. simpl in Hl. destruct (Z.eqb_spec k (if is_unix v then 2 else 3)); [done|]. apply total_ret. exists conf_server_init. simpl.
    split_and!; [apply HR'|done|done|done].
Qed.

End Line.

(** ** The properties *)

(** What conf_add_server does to the pool for a server line [v]. *)
Definition adds_server (v : list Z) (servers : list conf_server) (cp : conf_pool) (x : message * conf_pool) : Prop :=
  exists cs, array_rel (cp_server x.2) (servers ++ [cs]) /\ x.2 = cp_set_server (cp_server x.2) cp /\
    match read_server v with inl message => x.1 = message | inr t => x.1 = CONF_OK /\ server_is cs t end.

(** C38. Whatever the text of a server line (not empty, without NUL) and with
    memory available, the backwards search of
    conf_add_server for the three separators, its index arithmetic and its
    number reading find what splitting the line at its last space and its
    last two colons gives: the server with exactly those texts and numbers is
    appended to the pool, or the message says which part is wrong, and nothing
    else of the pool changes. *)
Theorem conf_add_server_reads_line (env : ConfEnv) (v : list Z) (cp : conf_pool) (servers : list conf_server) (cf : conf) :
  (forall n z, ce_ok n z = true) -> text_ok v -> v <> [] -> array_rel (cp_server cp) servers -> nalloc (cp_server cp) < 2 ^ 30 ->
  exists x cf', conf_add_server (string_text v) cp cf = Some (x, cf') /\ adds_server v servers cp x.
Proof.
  intros Ho Hv Hne HR Hb. destruct (runs_elim _ _ _ (total_add_line Ho v Hv cp servers Hne HR Hb cf)) as (x & cf' & E & cs & H1 & H2 & _ & H3).
  exists x, cf'. split; [done|]. by exists cs.
Qed.

(** A pool without servers. *)
Definition sample_pool : conf_pool := cp_set_server (mk_array 0 (replicate 8 None) SIZEOF_CONF_SERVER 8) conf_pool_unset.

Lemma sample_pool_rel : array_rel (cp_server sample_pool) [].
Proof. split; [|done]. constructor; simpl; try done; vm_compute; repeat split; congruence. Qed.

Lemma conf_add_server_reads_line_witness :
  exists x cf', conf_add_server (env := sample_env (mk_input [] [] [])) (string_text (bytes_of "10.0.0.1:6379:0 a")) sample_pool blank = Some (x, cf') /\ x.1 = zero_weight.
Proof.
  destruct (conf_add_server_reads_line (sample_env (mk_input [] [] [])) (bytes_of "10.0.0.1:6379:0 a") sample_pool [] blank) as (x & cf' & E & cs & _ & _ & H).
  - intros n z. reflexivity.
  - split; [by vm_compute; repeat (apply not_elem_of_cons; split; [congruence|]); apply not_elem_of_nil|by vm_compute].
  - vm_compute. congruence.
  - exact sample_pool_rel.
  - by vm_compute.
  - exists x, cf'. split; [exact E|]. exact H.
Defined.

(** "hostname:port:weight name" as the file has it. *)
Definition print_server (host : list Z) (port weight : Z) (name : option (list Z)) : list Z :=
  host ++ 58 :: dec port ++ 58 :: dec weight ++ match name with Some n => 32 :: n | None => [] end.

Lemma dec_free n ch : 0 <= n -> isdigit ch = false -> ch ∉ dec n.
Proof. intros Hn Hc Hin. pose proof (dec_isdigit n Hn) as H. rewrite list.Forall_forall in H. apply H in Hin. congruence. Qed.

Lemma read_print_server host port weight name :
  1 <= port <= UINT16_MAX -> 1 <= weight < 2 ^ 31 -> head host <> Some 47 -> host <> [] ->
  match name with Some n => (32 ∉ n) /\ n <> [] | None => 32 ∉ host end ->
  read_server (print_server host port weight name) =
    inr (mk_server_text (print_server host port weight None) (default (ketama_name host (Some (dec port)) port) name) host port weight).
Proof.
  intros Hp Hw Hu Hh Hn. unfold UINT16_MAX in Hp. assert (Hp' : 58 ∉ dec port) by (apply dec_free; [lia|done]). assert (Hw' : 58 ∉ dec weight) by (apply dec_free; [lia|done]).
  set (front := host ++ 58 :: dec port ++ 58 :: dec weight).
  assert (Ef : front = (host ++ 58 :: dec port) ++ 58 :: dec weight) by (unfold front; by rewrite <- app_assoc).
  assert (Ev : print_server host port weight name = front ++ match name with Some n => 32 :: n | None => [] end).
  { unfold print_server, front. by rewrite <- !app_assoc, <- !app_comm_cons, <- !app_assoc. }
  assert (E32 : match rsplit 32 (print_server host port weight name) with Some (a, b) => (a, Some b) | None => (print_server host port weight name, None) end = (front, name)).
  { rewrite Ev. destruct name as [n|]; [by rewrite rsplit_last by apply Hn|]. rewrite app_nil_r, rsplit_free; [done|]. unfold front.
    rewrite !elem_of_app, !elem_of_cons, !elem_of_app, !elem_of_cons. intros [?|[?|[H|[?|H]]]]; try done; by eapply dec_free in H; [|lia|]. }
  assert (Hx : is_unix (print_server host port weight name) = false).
  { unfold is_unix, print_server. destruct host as [|x host]; [done|]. simpl. by rewrite bool_decide_false. }
  unfold read_server, split_line. rewrite E32, Ef, rsplit_last, rsplit_last, Hx by done. simpl. rewrite !number_dec by lia.
  destruct (Z.ltb_spec weight 0), (Z.eqb_spec weight 0); try lia.
  assert (nc_valid_port port = true) as -> by (unfold nc_valid_port, UINT16_MAX; destruct (Z.ltb_spec port 1), (Z.ltb_spec 65535 port); try lia; done). simpl.
  assert (E2 : print_server host port weight None = front) by (unfold print_server, front; by rewrite app_nil_r). rewrite E2, <- Ef.
  destruct name as [[|y nm]|]; simpl; [by destruct Hn|done|by rewrite E2].
Qed.

(** A server written to the file as "host:port:weight name", with a
    decimal port and weight in range, is read back by conf_add_server as
    exactly that host, port, weight and name; without a name it is called by
    the host and port, and by the host alone on port 11211. *)
Theorem conf_add_server_roundtrip (env : ConfEnv) (host : list Z) (port weight : Z) (name : option (list Z)) (cp : conf_pool) (servers : list conf_server) (cf : conf) :
  (forall n z, ce_ok n z = true) -> text_ok (print_server host port weight name) ->
  1 <= port <= UINT16_MAX -> 1 <= weight < 2 ^ 31 -> head host <> Some 47 -> host <> [] ->
  match name with Some n => (32 ∉ n) /\ n <> [] | None => 32 ∉ host end ->
  array_rel (cp_server cp) servers -> nalloc (cp_server cp) < 2 ^ 30 ->
  exists cp' cf' cs, conf_add_server (string_text (print_server host port weight name)) cp cf = Some ((CONF_OK, cp'), cf') /\
    array_rel (cp_server cp') (servers ++ [cs]) /\
    server_is cs (mk_server_text (print_server host port weight None)
      (match name with Some n => n | None => if port =? CONF_DEFAULT_KETAMA_PORT then host else host ++ 58 :: dec port end) host port weight).
Proof.
  intros Ho Hv Hp Hw Hu Hh Hn HR Hb. assert (Hne : print_server host port weight name <> []) by (unfold print_server; by destruct host).
  destruct (runs_elim _ _ _ (total_add_line Ho _ Hv cp servers Hne HR Hb cf)) as ([m cp'] & cf' & E & cs & H1 & _ & _ & H3).
  rewrite read_print_server in H3 by done. destruct H3 as [Hm H3]. simpl in Hm. subst m. exists cp', cf', cs. split_and!; [done|done|]. by destruct name.
Qed.

Lemma conf_add_server_roundtrip_witness :
  exists cp' cf' cs, conf_add_server (env := sample_env (mk_input [] [] [])) (string_text (bytes_of "10.0.0.1:11211:3")) sample_pool blank = Some ((CONF_OK, cp'), cf') /\
    array_rel (cp_server cp') [cs] /\ str_is (cs_name cs) (bytes_of "10.0.0.1").
Proof.
  destruct (conf_add_server_roundtrip (sample_env (mk_input [] [] [])) (bytes_of "10.0.0.1") 11211 3 None sample_pool [] blank) as (cp' & cf' & cs & E & HR & Hs).
  - intros n z. reflexivity.
  - split; [by vm_compute; repeat (apply not_elem_of_cons; split; [congruence|]); apply not_elem_of_nil|by vm_compute].
  - unfold UINT16_MAX. lia.
  - lia.
  - vm_compute. congruence.
  - vm_compute. congruence.
  - vm_compute. repeat (apply not_elem_of_cons; split; [congruence|]). apply not_elem_of_nil.
  - exact sample_pool_rel.
  - by vm_compute.
  - exists cp', cf', cs. split; [exact E|]. split; [exact HR|]. exact (si_name _ _ Hs).
Defined.
