(* ===== verification/ConfInv.v ===== *)
(** What the parse keeps of a pool: its numbers are in their ranges, its
    strings are texts and its servers are those of server lines. *)

From S2P Require Import Prelude CArray State CString Conf ConfParse ConfPure ConfSafe ConfTree ConfLoad ConfSample ConfServer.

(** ** The invariant *)

(** A string that holds a text. *)
Definition is_text (s : cstr) : Prop := exists l, str_is s l /\ text_ok l.

(** A server that can be connected to: a weight, and a port or a path. *)
Record conf_server_ok (cs : conf_server) : Prop := {
  sv_valid : cs_valid cs = true;
  sv_pname : is_text (cs_pname cs);
  sv_name : is_text (cs_name cs);
  sv_addr : exists a, str_is (cs_addrstr cs) a /\ text_ok a /\ (nc_valid_port (cs_port cs) = true \/ (cs_port cs = 0 /\ is_unix a = true));
  sv_weight : 1 <= cs_weight cs < 2 ^ 31
}.

(** The bounds of a number or a flag; -1 is unset. *)
Definition num_ok (z : Z) : Prop := -1 <= z < 2 ^ 31.
Definition flag_ok (z : Z) : Prop := -1 <= z <= 1.

Definition numbers (cp : conf_pool) : list Z :=
  [cp_timeout cp; cp_backlog cp; cp_client_connections cp; cp_redis_db cp; cp_server_connections cp; cp_server_retry_timeout cp; cp_server_failure_limit cp].
Definition flags (cp : conf_pool) : list Z := [cp_tcpkeepalive cp; cp_redis cp; cp_preconnect cp; cp_auto_eject_hosts cp].

Definition listen_ok (l : conf_listen) : Prop :=
  cl_valid l = true -> is_text (cl_name l) /\
    exists n, str_is (cl_pname l) n /\ text_ok n /\ (is_unix n = false -> nc_valid_port (cl_port l) = true).

(** The array holds at most [n] servers. *)
Definition servers_in (n : Z) (a : array conf_server) (servers : list conf_server) : Prop :=
  array_rel a servers /\ zlen servers <= n /\ nalloc a <= 2 * n + 8.

Record conf_pool_inv (n : Z) (cp : conf_pool) : Prop := {
  pi_name : is_text (cp_name cp);
  pi_listen : listen_ok (cp_listen cp);
  pi_hash : -1 <= cp_hash cp < zlen hash_strings;
  pi_tag : cp_hash_tag cp = string_init \/ exists a b, str_is (cp_hash_tag cp) [a; b];
  pi_distribution : -1 <= cp_distribution cp < zlen dist_strings;
  pi_numbers : Forall num_ok (numbers cp);
  pi_flags : Forall flag_ok (flags cp);
  pi_auth : cp_redis_auth cp = string_init \/ is_text (cp_redis_auth cp);
  pi_servers : exists servers, servers_in n (cp_server cp) servers /\ Forall conf_server_ok servers
}.

(** ... and when a directive failed: the servers can still be released. *)
Definition pool_wf (n : Z) (cp : conf_pool) : Prop := exists servers, servers_in n (cp_server cp) servers.

Lemma servers_in_mono n n' a servers : n <= n' -> servers_in n a servers -> servers_in n' a servers.
Proof. unfold servers_in. intros Hn (H1 & H2 & H3). split_and!; [done|lia|lia]. Qed.

Lemma pool_inv_wf n cp : conf_pool_inv n cp -> pool_wf n cp.
Proof. intros [???????? (s & H & _)]. by exists s. Qed.

Lemma pool_inv_mono n n' cp : n <= n' -> conf_pool_inv n cp -> conf_pool_inv n' cp.
Proof. intros Hn [???????? (s & H & Hs)]. split; try done. exists s. split; [by eapply servers_in_mono|done]. Qed.

(** ** Numbers *)

Lemma atoi_loop_range d n : forall line v x, 0 <= v < 2 ^ 31 \/ v < 0 -> atoi_loop d line n v = Some (Some x) -> x < 2 ^ 31.
Proof.
  induction n as [|n IH]; intros line v x Hv E; simpl in E; [injection E as <-; lia|]. destruct (rd d line); [|done]. destruct (_ || _); [done|].
  eapply IH; [|exact E]. pose proof (s32_range (v * 10 + (z - 48))). lia.
Qed.

Lemma nc_atoi_range d line n x : nc_atoi d line n = Some x -> -1 <= x < 2 ^ 31.
Proof.
  unfold nc_atoi. destruct (n =? 0); [intros [= <-]; lia|]. destruct (atoi_loop d line (Z.to_nat n) 0) as [[v|]|] eqn:E; [| |done]; intros [= <-]; [|lia].
  apply atoi_loop_range in E; [|lia]. destruct (Z.ltb_spec v 0); lia.
Qed.

Lemma number_range l : -1 <= number l < 2 ^ 31.
Proof. exact (nc_atoi_range _ _ _ _ (nc_atoi_number [] l [])). Qed.

(** ** Server lines *)

Lemma text_ok_part v a b c : text_ok v -> v = a ++ b ++ c -> text_ok b.
Proof.
  intros [H0 Hz] ->. split; [intros Hin; apply H0, elem_of_app; right; apply elem_of_app; by left|]. rewrite !zlen_app in Hz.
  pose proof (zlen_nonneg a). pose proof (zlen_nonneg c). lia.
Qed.

Lemma read_server_ok v t cs : text_ok v -> v <> [] -> read_server v = inr t -> server_is cs t -> conf_server_ok cs.
Proof.
  intros Hv Hne. unfold read_server. pose proof (line_parts_split v) as Hl. cbv zeta in Hl. destruct (split_line v) as [l|]; [|done]. destruct Hl as (pt & _ & [Hn (rest & _ & Hf & Hp)]).
  pose proof (number_range (sl_weight l)) as Hw. destruct (Z.ltb_spec (number (sl_weight l)) 0); [done|]. destruct (Z.eqb_spec (number (sl_weight l)) 0); [done|].
  set (port := match sl_port l with None => 0 | Some p => number p end). destruct (negb (is_unix v) && negb (nc_valid_port port)) eqn:Eport; [done|]. intros [= <-] [S1 S2 S3 S4 S5 S6 S7]. simpl in *.
  assert (Hfr : exists c, v = [] ++ sl_front l ++ c) by (destruct (sl_name l); destruct Hn as [_ Ev]; [by eexists|exists []; by rewrite app_nil_r]). destruct Hfr as [c Hfr].
  assert (Hfront : text_ok (sl_front l)) by (by eapply text_ok_part). simpl in Hfr. rewrite Hf, <- app_assoc in Hfr.
  assert (Haddr : text_ok (sl_addr l)).
  { destruct (sl_port l) as [p|]; destruct Hp as (_ & Er & _); rewrite Er, <- ?app_assoc in Hfr; by eapply (text_ok_part v []). }
  split; [done| | | |lia].
  - exists (match sl_name l with Some (_ :: _) => sl_front l | _ => v end). split; [done|]. by destruct (sl_name l) as [[|??]|].
  - eexists. split; [exact S2|]. destruct (sl_name l) as [nm|]; simpl.
    + destruct Hn as [_ Ev]. eapply (text_ok_part v (sl_front l ++ [32]) nm []); [done|]. rewrite app_nil_r, <- app_assoc. exact Ev.
    + unfold ketama_name. destruct (_ =? _); [done|]. destruct (sl_port l) as [p|]; destruct Hp as (_ & Er & _); rewrite Er in Hfr; simpl.
      * by eapply (text_ok_part v [] _ ((58 :: sl_weight l) ++ c)).
      * eapply (text_ok_part v [] _ (sl_weight l ++ c)); [done|]. rewrite Hfr. simpl. by rewrite <- app_assoc.
  - exists (sl_addr l). split_and!; [done|done|]. rewrite S4. destruct (sl_port l) as [p|]; destruct Hp as (_ & Er & Eu); rewrite Eu in Eport; simpl in Eport.
    + left. by destruct (nc_valid_port port).
    + right. split; [done|]. unfold is_unix in *. rewrite Hfr, Er in Eu. by destruct (sl_addr l).
Qed.

(** ** The directives *)

Section Inv.
Context `{env : ConfEnv}.
Hypothesis alloc_ok : forall n z, ce_ok n z = true.
Variable v : list Z.
Hypothesis Hv : text_ok v.

(** A directive on a pool that satisfies the invariant. *)
Definition keeps (n : Z) (m : C (message * conf_pool)) : Prop := total m (fun x => pool_wf n x.2 /\ (x.1 = CONF_OK -> conf_pool_inv n x.2)).

Lemma keeps_ret n e cp : conf_pool_inv n cp -> keeps n (mret (e, cp)).
Proof. intros H. apply total_ret. split; [by apply pool_inv_wf|done]. Qed.

Ltac pool_update := intros; split; simpl; try done; unfold numbers, flags in *; simpl; rewrite !Forall_cons_iff in *; tauto.

Lemma keeps_set_num n get set cp : conf_pool_inv n cp -> (forall z, num_ok z -> conf_pool_inv n (set z cp)) -> keeps n (conf_set_num get set (string_text v) cp).
Proof.
  intros H Hset. unfold conf_set_num. destruct (negb _); [by apply keeps_ret|]. eapply total_bind; [by apply (total_data v (fun d => d = v ++ [0]))|]. intros ? ->.
  eapply total_bind with (P := num_ok); [|intros num Hnum; destruct (num <? 0); apply keeps_ret; [done|by apply Hset]].
  apply total_reads. simpl. destruct (nc_atoi_total (v ++ [0]) 0 (zlen v)) as [x E]; [lia|apply zlen_nonneg|rewrite zlen_app; change (zlen [0]) with 1; lia|].
  exists x. split; [done|]. by eapply nc_atoi_range.
Qed.

Lemma keeps_set_bool n get set cp : conf_pool_inv n cp -> (forall z, flag_ok z -> conf_pool_inv n (set z cp)) -> keeps n (conf_set_bool get set (string_text v) cp).
Proof.
  intros H Hset. unfold conf_set_bool. destruct (negb _); [by apply keeps_ret|]. eapply total_bind; [by apply (total_compare v Hv _ (fun _ => True))|]. intros t _.
  destruct (t =? 0); [apply keeps_ret, Hset; unfold flag_ok; lia|]. eapply total_bind; [by apply (total_compare v Hv _ (fun _ => True))|]. intros f _.
  destruct (f =? 0); apply keeps_ret; [apply Hset; unfold flag_ok; lia|done].
Qed.

Lemma find_range names i : total (find_string (string_text v) names i) (fun o => forall j, o = Some j -> i <= j < i + zlen names).
Proof.
  revert i. induction names as [|x names IH]; intros i; simpl; [by apply total_ret|]. rewrite zlen_cons. pose proof (zlen_nonneg names).
  eapply total_bind; [by apply (total_compare v Hv _ (fun _ => True))|]. intros t _. destruct (t =? 0); [apply total_ret; intros j [= <-]; lia|].
  eapply total_mono; [apply IH|]. intros o Ho j Hj. specialize (Ho j Hj). lia.
Qed.

Lemma keeps_set_hash n cp : conf_pool_inv n cp -> keeps n (conf_set_hash (string_text v) cp).
Proof.
  intros H. unfold conf_set_hash. destruct (negb _); [by apply keeps_ret|]. eapply total_bind; [apply find_range|]. intros [i|] Hi; apply keeps_ret; [|done].
  specialize (Hi i eq_refl). destruct H. split; simpl; try done. lia.
Qed.

Lemma keeps_set_distribution n cp : conf_pool_inv n cp -> keeps n (conf_set_distribution (string_text v) cp).
Proof.
  intros H. unfold conf_set_distribution. destruct (negb _); [by apply keeps_ret|]. eapply total_bind; [apply find_range|]. intros [i|] Hi; apply keeps_ret; [|done].
  specialize (Hi i eq_refl). destruct H. split; simpl; try done. lia.
Qed.

Lemma keeps_set_hashtag n cp : conf_pool_inv n cp -> keeps n (conf_set_hashtag (string_text v) cp).
Proof.
  intros H. unfold conf_set_hashtag. destruct (str_data (cp_hash_tag cp)); [by apply keeps_ret|]. simpl. destruct (Z.eqb_spec (zlen v) 2) as [E|]; simpl; [|by apply keeps_ret].
  eapply total_bind; [by apply (total_duplicate alloc_ok _ _ (fun x => str_is x.2 v) Hv)|]. intros [st s] Hs. simpl in *. apply keeps_ret. destruct H. split; simpl; try done.
  right. destruct v as [|a [|b [|]]]; unfold zlen in E; simpl in E; try lia. by exists a, b.
Qed.

Lemma keeps_set_auth n cp : conf_pool_inv n cp -> keeps n (conf_set_string cp_redis_auth cp_set_redis_auth (string_text v) cp).
Proof.
  intros H. unfold conf_set_string. destruct (str_data (cp_redis_auth cp)); [by apply keeps_ret|].
  eapply total_bind; [by apply (total_duplicate alloc_ok _ _ (fun x => str_is x.2 v) Hv)|]. intros [st s] Hs. simpl in *. apply keeps_ret. destruct H. split; simpl; try done.
  right. by exists v.
Qed.

Lemma keeps_add_server n cp : v <> [] -> conf_pool_inv n cp -> n < 2 ^ 28 -> keeps (n + 1) (conf_add_server (string_text v) cp).
Proof.
  intros Hne H Hn. pose proof (pi_servers _ _ H) as (servers & (HR & Hl & Hb) & Hs). eapply total_mono; [eapply (total_add_line alloc_ok); [done|done|exact HR|lia]|].
  intros [m cp'] (cs & HR' & Ecp & Ena & Hm). simpl in *.
  assert (Hin : servers_in (n + 1) (cp_server cp') (servers ++ [cs])).
  { split_and!; [done|rewrite zlen_app; change (zlen [cs]) with 1; lia|]. rewrite Ena. destruct (_ =? _); lia. }
  split; [by eexists|]. intros ->. rewrite Ecp. destruct H. split; simpl; try done. exists (servers ++ [cs]). split; [done|]. apply Forall_app. split; [done|]. constructor; [|done].
  destruct (read_server v) as [e|t] eqn:Er; [|destruct Hm as [_ Hm]; by eapply read_server_ok].
  exfalso. revert Er Hm. unfold read_server. cbv zeta. destruct (split_line v); [|by intros [= <-]]. destruct (_ <? 0); [by intros [= <-]|].
  destruct (_ =? 0); [by intros [= <-]|]. destruct (negb _ && _); [by intros [= <-]|]. done.
Qed.

(** The address to listen on. *)
Definition listen_result (ok : conf_listen -> Prop) (field : conf_listen) (y : (list Z + Z) * conf_listen) : Prop :=
  cl_pname y.2 = cl_pname field /\ match y.1 with inl _ => True | inr n => 0 <= n <= zlen v /\ ok y.2 end.

Lemma listen_unix_result field : total (listen_unix (string_text v) (v ++ [0]) field) (listen_result (fun _ => True) field).
Proof.
  pose proof Hv as [_ Hz]. unfold listen_unix. eapply total_bind.
  { apply (total_strrchr v _ _ (fun o => forall q, o = Some q -> 0 <= q <= zlen v - 1)); simpl; [lia|]. auto. }
  intros [q|] Hq; [|apply total_ret; split; [done|]; simpl; pose proof (zlen_nonneg v); lia]. specialize (Hq q eq_refl).
  eapply total_bind.
  { apply (total_reads _ (fun _ => True)). rewrite drop_app_le by (unfold zlen in *; lia). destruct (strtol8_text (drop (Z.to_nat (q + 1)) v)) as [x ->]. by eexists. }
  intros t _. apply total_ret. split; [done|]. destruct (_ || _); simpl; [done|]. rewrite u32_span; lia.
Qed.

Lemma listen_inet_result field : total (listen_inet (string_text v) (v ++ [0]) field) (listen_result (fun l => nc_valid_port (cl_port l) = true) field).
Proof.
  pose proof Hv as [_ Hz]. unfold listen_inet. eapply total_bind.
  { apply (total_strrchr v _ _ (fun o => forall q, o = Some q -> 0 <= q <= zlen v - 1)); simpl; [lia|]. auto. }
  intros [q|] Hq; [|by apply total_ret]. specialize (Hq q eq_refl). simpl. rewrite (u32_span (zlen v - 1) (q + 1)) by lia.
  eapply total_bind; [apply (total_atoi v _ _ (fun _ => True)); try done; lia|]. intros port _.
  apply total_ret. split; [done|]. destruct (port <? 0); simpl; [done|]. destruct (nc_valid_port port) eqn:E; simpl; [|done]. split; [rewrite u32_span; lia|done].
Qed.

Lemma keeps_set_listen n cp : v <> [] -> conf_pool_inv n cp -> keeps n (conf_set_listen (string_text v) cp).
Proof.
  intros Hne H. assert (Hw : forall l, pool_wf n (cp_set_listen l cp)) by (intros l; exact (pool_inv_wf _ _ H)).
  assert (Herr : forall e l, keeps n (mret (Some e, cp_set_listen l cp))) by (intros e l; apply total_ret; split; [apply Hw|done]).
  unfold conf_set_listen. destruct (cl_valid _); [by apply keeps_ret|]. eapply total_bind; [by apply (total_duplicate alloc_ok _ _ (fun x => str_is x.2 v) Hv)|].
  intros [st s] Hs. simpl in Hs. destruct (negb _); [apply Herr|]. eapply total_bind; [by apply (total_data v (fun d => d = v ++ [0]))|]. intros ? ->.
  eapply total_bind; [by apply total_unix|]. intros ch Hch. set (field := cl_set_pname _ _).
  eapply total_bind with (P := listen_result (fun l => is_unix v = false -> nc_valid_port (cl_port l) = true) field).
  { rewrite Hch. destruct (is_unix v); (eapply total_mono; [apply listen_unix_result || apply listen_inet_result|]); intros [[e|m] l] [H1 H2]; (split; [done|]); simpl in *; [done|by destruct H2|done|by destruct H2]. }
  intros [[e|m] l] [Hl Hm]; [by apply Herr|]. simpl in Hl, Hm. destruct Hm as [Hm Hp]. eapply total_bind.
  { apply (total_copy alloc_ok _ v 0 m (fun x => str_is x.2 (slice v 0 (0 + m)))); [done|lia|lia|lia|by intros]. }
  intros [st2 s2] Hs2. simpl in Hs2. destruct (negb _); [apply Herr|].
  assert (Ht : text_ok (slice v 0 (0 + m))).
  { eapply (text_ok_part v [] _ (drop (Z.to_nat (0 + m - 0)) v)); [done|]. unfold slice. simpl. by rewrite drop_0, take_drop. }
  eapply total_bind; [eapply total_resolve; [exact Hs2|apply Ht]|]. intros [st3 si] _. simpl. destruct (negb _); [apply Herr|]. apply keeps_ret.
  destruct H. split; simpl; try done. intros _. simpl. split; [by eexists|]. exists v. split_and!; [by rewrite Hl|done|done].
Qed.

(** Every directive. *)
Lemma keeps_command n cmd cp : cmd ∈ conf_commands -> v <> [] -> conf_pool_inv n cp -> n < 2 ^ 28 -> keeps (n + 1) (cmd_set cmd (string_text v) cp).
Proof.
  intros Hin Hne H Hn. pose proof (pool_inv_mono n (n + 1) cp ltac:(lia) H) as H1. unfold conf_commands in Hin.
  repeat (apply elem_of_cons in Hin as [-> |Hin]); [..|by apply elem_of_nil in Hin]; simpl;
    first [by apply keeps_set_listen | by apply keeps_set_hash | by apply keeps_set_hashtag | by apply keeps_set_distribution | by apply keeps_set_auth
      | by apply keeps_add_server | apply keeps_set_num; [done|clear H; destruct H1; pool_update] | apply keeps_set_bool; [done|clear H; destruct H1; pool_update]].
Qed.

End Inv.

(** ** The tree *)

Section LoadInv.
Context `{env : ConfEnv}.
Hypothesis alloc_ok : forall n z, ce_ok n z = true.

(** A status and a pool: the invariant holds if the status is NC_OK. *)
Definition loads (n : Z) (x : Z * conf_pool) : Prop := pool_wf n x.2 /\ (x.1 = NC_OK -> conf_pool_inv n x.2).

Lemma pool_wf_mono n n' cp : n <= n' -> pool_wf n cp -> pool_wf n' cp.
Proof. intros Hn [s H]. exists s. by eapply servers_in_mono. Qed.

Lemma loads_mono n n' x : n <= n' -> loads n x -> loads n' x.
Proof. intros Hn [H1 H2]. split; [by eapply pool_wf_mono|]. intros E. eapply pool_inv_mono; [done|by apply H2]. Qed.

Lemma outcome_spec {A} (m : C A) (P : A -> Prop) x : total m P -> outcome m = Some x -> P x.
Proof. intros Hm E. destruct (outcome_total m P Hm) as (y & Ey & Hy). rewrite E in Ey. by injection Ey as ->. Qed.

Lemma and_then_loads n n' x (k : conf_pool -> option (Z * conf_pool)) y :
  n <= n' -> and_then x k = Some y -> (forall z, x = Some z -> loads n z) -> (forall cp, conf_pool_inv n cp -> k cp = Some y -> loads n' y) -> loads n' y.
Proof.
  intros Hn E Hx Hk. destruct x as [[st cp]|]; [|done]. simpl in E. specialize (Hx _ eq_refl). destruct (Z.eqb_spec st NC_OK) as [-> |].
  - apply (Hk cp); [by apply Hx|done].
  - injection E as <-. by eapply loads_mono.
Qed.

Lemma load_value_inv n key v cp x : text_ok v -> conf_pool_inv n cp -> n < 2 ^ 28 -> load_value key v cp = Some x -> loads (n + 1) x.
Proof.
  intros Hv H Hn E. pose proof (pool_inv_mono n (n + 1) cp ltac:(lia) H) as H1. assert (Herr : loads (n + 1) (NC_ERROR, cp)) by (split; [by apply pool_inv_wf|done]).
  unfold load_value in E. case_bool_decide; [by injection E as <-|]. destruct (find_command conf_commands key) as [cmd|] eqn:Ec; simpl in E; [|by injection E as <-].
  apply List.find_some in Ec as [Hin _]. apply list_elem_of_In in Hin. destruct (outcome (cmd_set cmd (string_text v) cp)) as [[m cp']|] eqn:Eo; [|done]. injection E as <-.
  apply (outcome_spec _ _ _ (keeps_command alloc_ok v Hv n cmd cp Hin ltac:(done) H Hn)) in Eo as [W I]. simpl in *. split; [done|]. simpl. destruct m; [done|auto].
Qed.

Abbreviation pair_events := (fun kv : node * node => events kv.1 ++ events kv.2).

Lemma load_values_inv key vs : forall n cp x, forallb is_scalar vs = true -> Forall event_ok (concat (map events vs)) -> 0 <= n ->
  conf_pool_inv n cp -> n + zlen (concat (map events vs)) < 2 ^ 28 -> load_values key vs cp = Some x -> loads (n + zlen (concat (map events vs))) x.
Proof.
  induction vs as [|u vs IH]; intros n cp x Hs He Hn H Hz E; simpl in *.
  { injection E as <-. change (zlen []) with 0. rewrite Z.add_0_r. split; [by apply pool_inv_wf|done]. }
  destruct u as [u| |]; try done. simpl in *. apply Forall_cons_iff in He as [Hu He]. rewrite zlen_cons in *. pose proof (zlen_nonneg (concat (map events vs))).
  eapply (and_then_loads (n + 1)); [|exact E| |]; [lia|intros z Ez; eapply load_value_inv; [exact Hu|exact H|lia|exact Ez]|].
  intros cp' H' E'. rewrite Z.add_assoc. eapply IH; try done; lia.
Qed.

Lemma load_directive_inv kv n cp x : is_directive kv = true -> Forall event_ok (pair_events kv) -> 0 <= n ->
  conf_pool_inv n cp -> n + zlen (pair_events kv) < 2 ^ 28 -> load_directive kv cp = Some x -> loads (n + zlen (pair_events kv)) x.
Proof.
  destruct kv as [k u]. unfold is_directive, load_directive. simpl. intros Hd He Hn H Hz E. apply andb_true_iff in Hd as [Hk Hu]. apply Forall_app in He as [_ He].
  rewrite zlen_app in *. pose proof (zlen_nonneg (events k)). pose proof (zlen_nonneg (events u)). case_bool_decide.
  { injection E as <-. split; [|done]. eapply pool_wf_mono; [|by apply pool_inv_wf]. simpl. lia. }
  destruct u as [u|l|]; try done.
  - eapply (loads_mono (n + zlen (concat (map events [Scalar u])))); [|eapply load_values_inv; try done]; simpl in *; change (zlen [_]) with 1 in *; lia.
  - simpl in *. apply Forall_cons_iff in He as [_ He]. apply Forall_app in He as [He _]. rewrite zlen_cons, zlen_app in *. change (zlen [_]) with 1 in *.
    eapply (loads_mono (n + zlen (concat (map events l)))); [|eapply load_values_inv; try done]; lia.
Qed.

Lemma load_directives_inv ds : forall n cp x, forallb is_directive ds = true -> Forall event_ok (concat (map pair_events ds)) -> 0 <= n ->
  conf_pool_inv n cp -> n + zlen (concat (map pair_events ds)) < 2 ^ 28 -> load_directives ds cp = Some x -> loads (n + zlen (concat (map pair_events ds))) x.
Proof.
  induction ds as [|d ds IH]; intros n cp x Hs He Hn H Hz E; simpl in *.
  { injection E as <-. change (zlen []) with 0. rewrite Z.add_0_r. split; [by apply pool_inv_wf|done]. }
  apply andb_true_iff in Hs as [Hd Hs]. apply Forall_app in He as [Hde He]. rewrite zlen_app in *. pose proof (zlen_nonneg (concat (map pair_events ds))). pose proof (zlen_nonneg (pair_events d)).
  simpl in *. eapply (and_then_loads (n + zlen (pair_events d))); [|exact E| |]; [simpl; lia|intros z Ez; eapply load_directive_inv; try done; simpl; lia|].
  intros cp' H' E'. simpl in *. rewrite Z.add_assoc. eapply IH; try done; lia.
Qed.

Lemma pool_init_inv name : text_ok name -> total (conf_pool_init (string_text name)) (fun x => x.1 = NC_OK /\ conf_pool_inv 0 x.2 /\ str_is (cp_name x.2) name).
Proof.
  intros Hn. unfold conf_pool_init. eapply total_bind; [by apply (total_duplicate alloc_ok _ _ (fun x => x.1 = NC_OK /\ str_is x.2 name))|]. intros [st s] [Hst Hs]. simpl in *. subst st. run_ok.
  intros cf. unfold c_array_init, c_tick. repeat run_step. unfold array_init. rewrite alloc_ok. cbv iota. run_ok. repeat run_step. simpl. split; [done|]. split; [|done].
  assert (HR : array_rel (mk_array (A := conf_server) 0 (replicate 8 None) SIZEOF_CONF_SERVER 8) []).
  { split; [|done]. constructor; simpl; try done; vm_compute; repeat split; congruence. }
  split; simpl; try done; [by exists name|by left|unfold numbers, flags; simpl; rewrite !Forall_cons_iff; unfold num_ok, CONF_UNSET_NUM; split_and!; (lia || constructor)|unfold numbers, flags; simpl; rewrite !Forall_cons_iff; unfold flag_ok, CONF_UNSET_NUM; split_and!; (lia || constructor)|by left|].
  exists []. split; [|constructor]. split_and!; [exact HR|done|done].
Qed.

Lemma load_pool_inv kv x : is_pool kv = true -> Forall event_ok (pair_events kv) -> zlen (pair_events kv) < 2 ^ 28 -> load_pool kv = Some x -> loads (zlen (pair_events kv)) x.
Proof.
  destruct kv as [k u]. unfold is_pool, load_pool. simpl. intros Hp He Hz E. apply andb_true_iff in Hp as [Hk Hu]. destruct k as [name| |]; try done. destruct u as [| |ds]; try done.
  apply andb_true_iff in Hu as [Hd _]. simpl in *. apply Forall_cons_iff in He as [Hn He]. apply Forall_cons_iff in He as [_ He]. apply Forall_app in He as [He _].
  rewrite !zlen_cons, zlen_app in *. change (zlen [_]) with 1 in *. pose proof (zlen_nonneg (concat (map pair_events ds))).
  eapply (and_then_loads 0); [|exact E| |]; [lia| |].
  - intros z Ez. apply (outcome_spec _ _ _ (pool_init_inv name Hn)) in Ez as (E1 & I & _). split; [by apply pool_inv_wf|done].
  - intros cp I E'. eapply loads_mono; [|eapply (load_directives_inv ds 0); try done]; lia.
Qed.

(** No pool has more than [N] servers. *)
Lemma load_pools_inv N ps : forall pools st pools', forallb is_pool ps = true -> Forall event_ok (concat (map pair_events ps)) -> zlen (concat (map pair_events ps)) <= N -> N < 2 ^ 28 ->
  Forall (conf_pool_inv N) pools -> load_pools ps pools = Some (st, pools') -> Forall (pool_wf N) pools' /\ (st = NC_OK -> Forall (conf_pool_inv N) pools').
Proof.
  induction ps as [|kv ps IH]; intros pools st pools' Hp He Hz HN H E; simpl in *.
  { injection E as <- <-. split; [|done]. eapply List.Forall_impl; [|exact H]. apply pool_inv_wf. }
  apply andb_true_iff in Hp as [Hd Hs]. apply Forall_app in He as [Hde He]. rewrite zlen_app in *. pose proof (zlen_nonneg (concat (map pair_events ps))). pose proof (zlen_nonneg (pair_events kv)).
  assert (Hw : Forall (pool_wf N) pools) by (eapply List.Forall_impl; [|exact H]; apply pool_inv_wf). case_bool_decide; [injection E as <- <-; by split|].
  destruct (load_pool kv) as [[st1 cp]|] eqn:El; [|done]. simpl in *. assert (HL : loads N (st1, cp)) by (eapply loads_mono; [|eapply load_pool_inv; try done]; simpl; lia).
  destruct (Z.eqb_spec st1 NC_OK) as [-> |].
  - eapply IH; [done|done|lia|done| |exact E]. apply Forall_app. split; [done|]. constructor; [|done]. by apply HL.
  - injection E as <- <-. split; [|done]. apply Forall_app. split; [done|]. constructor; [|done]. by apply HL.
Qed.

(** The pools of a tree. *)
Lemma load_tree_inv root st pools :
  is_configuration root = true -> Forall event_ok (events root) -> zlen (events root) < 2 ^ 28 -> load_tree root = Some (st, pools) ->
  Forall (pool_wf (2 ^ 28 - 1)) pools /\ (st = NC_OK -> Forall (conf_pool_inv (2 ^ 28 - 1)) pools).
Proof.
  destruct root as [| |ps]; try done. simpl. intros Hc He Hz E. apply Forall_cons_iff in He as [_ He]. apply Forall_app in He as [He _]. rewrite zlen_cons, zlen_app in Hz.
  change (zlen [_]) with 1 in Hz. eapply (load_pools_inv (2 ^ 28 - 1) ps []); [done|done|lia|lia|done|exact E].
Qed.

End LoadInv.
