(* ===== verification/ConfCheck.v ===== *)
(** The checks after the parse: sorting by name and looking at neighbours
    finds the duplicates, and what passes is ready to be served. *)

From S2P Require Import Prelude CArray State CString Conf ConfParse ConfPure ConfSafe ConfTree ConfLoad ConfSample ConfServer ConfInv.
From Stdlib Require Import Sorted.

(** ** string_compare as an order *)

(** The lexicographic order. *)
Fixpoint lex (l1 l2 : list Z) : Prop :=
  match l1, l2 with
  | c1 :: l1', c2 :: l2' => c1 < c2 \/ (c1 = c2 /\ lex l1' l2')
  | _, _ => True
  end.

(** By length, then byte by byte. *)
Definition text_le (l1 l2 : list Z) : Prop := zlen l1 < zlen l2 \/ (zlen l1 = zlen l2 /\ lex l1 l2).

Lemma lex_trans l1 : forall l2 l3, length l1 = length l2 -> length l2 = length l3 -> lex l1 l2 -> lex l2 l3 -> lex l1 l3.
Proof.
  induction l1 as [|c1 l1 IH]; intros [|c2 l2] [|c3 l3] H1 H2; simpl in *; try done. intros [?|[-> ?]] [?|[-> ?]]; [left; lia|left; lia|left; lia|].
  right. split; [done|]. eapply IH; [| |done|done]; lia.
Qed.

Lemma lex_antisym l1 : forall l2, length l1 = length l2 -> lex l1 l2 -> lex l2 l1 -> l1 = l2.
Proof.
  induction l1 as [|c1 l1 IH]; intros [|c2 l2] H; simpl in *; try done. intros [?|[-> ?]] [?|[? ?]]; try lia. f_equal. apply IH; [lia|done|done].
Qed.

Lemma lex_total l1 : forall l2, lex l1 l2 \/ lex l2 l1.
Proof. induction l1 as [|c1 l1 IH]; intros [|c2 l2]; simpl; auto. destruct (Z.lt_total c1 c2) as [?|[-> |?]]; auto. destruct (IH l2); auto. Qed.

Lemma text_le_trans l1 l2 l3 : text_le l1 l2 -> text_le l2 l3 -> text_le l1 l3.
Proof.
  unfold text_le. intros [?|[? H1]] [?|[? H2]]; try (left; lia). right. split; [lia|]. eapply lex_trans; [| |exact H1|exact H2]; unfold zlen in *; lia.
Qed.

Lemma text_le_antisym l1 l2 : text_le l1 l2 -> text_le l2 l1 -> l1 = l2.
Proof. unfold text_le. intros [?|[? H1]] [?|[? H2]]; try lia. apply lex_antisym; [unfold zlen in *; lia|done|done]. Qed.

Lemma text_le_total l1 l2 : text_le l1 l2 \/ text_le l2 l1.
Proof. unfold text_le. destruct (Z.lt_total (zlen l1) (zlen l2)) as [?|[?|?]]; auto. destruct (lex_total l1 l2); auto. Qed.

Lemma strncmp_lex l1 : forall l2 t1 t2, length l1 = length l2 -> 0 ∉ l1 -> exists c, strncmp (l1 ++ t1) (l2 ++ t2) (length l1) = Some c /\ (c <= 0 <-> lex l1 l2).
Proof.
  induction l1 as [|c1 l1 IH]; intros [|c2 l2] t1 t2 Hl H0; try done; simpl in *; [by exists 0|]. apply not_elem_of_cons in H0 as [Hc H0].
  destruct (Z.eqb_spec c1 c2) as [-> |]; simpl; [|exists (c1 - c2); split; [done|]; split; [intros; left; lia|intros [?|[? _]]; lia]].
  destruct (Z.eqb_spec c2 0); [congruence|]. destruct (IH l2 t1 t2) as (c & E & H); [lia|done|]. exists c. split; [done|]. rewrite H. split; [by right|intros [?|[_ ?]]; [lia|done]].
Qed.

Lemma string_compare_le s1 s2 l1 l2 : str_is s1 l1 -> str_is s2 l2 -> 0 ∉ l1 -> exists c, string_compare s1 s2 = Some c /\ (c <= 0 <-> text_le l1 l2).
Proof.
  intros [E1 [t1 D1]] [E2 [t2 D2]] H0. unfold string_compare, text_le. rewrite E1, E2, D1, D2. destruct (Z.eqb_spec (zlen l1) (zlen l2)) as [E|E]; simpl.
  - assert (Hlen : length l1 = length l2) by (unfold zlen in E; lia). destruct (Z.eqb_spec (zlen l1) 0) as [Ez|_].
    + exists 0. split; [done|]. destruct l1, l2; unfold zlen in *; simpl in *; lia.
    + unfold zlen at 1. rewrite Nat2Z.id. destruct (strncmp_lex l1 l2 (0 :: t1) (0 :: t2) Hlen H0) as (c & Ec & H). exists c. split; [done|]. rewrite H. split; [by right|intros [?|[_ ?]]; [lia|done]].
  - destruct (Z.ltb_spec (zlen l2) (zlen l1)); eexists; (split; [done|]); split; try lia; intros [?|[? _]]; lia.
Qed.

(** ** Duplicates *)

Section Names.
Context {A : Type} (key : A -> cstr).
Let cmp (x y : A) : option Z := string_compare (key x) (key y).

Definition name_of (x : A) : list Z := text_of (key x).

Lemma name_le x y : is_text (key x) -> is_text (key y) -> exists c, cmp x y = Some c /\ (c <= 0 <-> text_le (name_of x) (name_of y)) /\ (c = 0 <-> name_of x = name_of y).
Proof.
  intros (l1 & H1 & [T1 _]) (l2 & H2 & _). unfold name_of. rewrite (text_of_is _ _ H1), (text_of_is _ _ H2).
  destruct (string_compare_le _ _ _ _ H1 H2 T1) as (c & E & Hc). destruct (string_compare_spec _ _ _ _ H1 H2 T1) as (c' & E' & Hc'). unfold cmp. rewrite E in E'. injection E' as <-. by exists c.
Qed.

Lemma le_by_name x y : is_text (key x) -> is_text (key y) -> le_by cmp x y <-> text_le (name_of x) (name_of y).
Proof.
  intros Hx Hy. destruct (name_le x y Hx Hy) as (c & E & Hc & _). unfold le_by. rewrite E, <- Hc. split; [intros (c' & [= <-] & H); done|by exists c].
Qed.

Lemma names_order l : Forall (fun x => is_text (key x)) l -> orders cmp l.
Proof.
  rewrite list.Forall_forall. intros Ht. split.
  - intros x y Hx Hy. rewrite !le_by_name by auto. apply text_le_total.
  - intros x y Hx Hy. destruct (name_le x y) as (c & E & _); [auto..|]. exact (ex_intro _ c E).
  - intros x y z Hx Hy Hz. rewrite !le_by_name by auto. apply text_le_trans.
Qed.

(** No two neighbours are equal. *)
Fixpoint neighbours_differ (l : list A) : bool :=
  match l with
  | x :: (y :: _) as l' => negb (bool_decide (name_of x = name_of y)) && neighbours_differ l'
  | _ => true
  end.

Lemma neighbours_NoDup l : Forall (fun x => is_text (key x)) l -> StronglySorted (le_by cmp) l -> neighbours_differ l = bool_decide (NoDup (map name_of l)).
Proof.
  intros Ht Hs. induction Hs as [|x l Hs IH Hx]; [by rewrite bool_decide_true by constructor|]. apply Forall_cons_iff in Ht as [Hxt Ht]. specialize (IH Ht).
  assert (Hin : name_of x ∈ map name_of l -> head (map name_of l) = Some (name_of x)).
  { destruct l as [|y l]; [by intros ?%elem_of_nil|]. simpl. intros [Heq|Hin]%elem_of_cons; [by rewrite Heq|]. apply list_elem_of_In, List.in_map_iff in Hin as (z & Ez & Hz). apply list_elem_of_In in Hz.
    apply Forall_cons_iff in Ht as [Hyt Ht]. apply Forall_cons_iff in Hx as [Hxy Hx]. inversion_clear Hs as [|?? _ Hy]. rewrite list.Forall_forall in Ht, Hy.
    f_equal. apply text_le_antisym; [rewrite <- Ez|]; apply le_by_name; auto. }
  assert (E : neighbours_differ (x :: l) = negb (bool_decide (head (map name_of l) = Some (name_of x))) && neighbours_differ l).
  { destruct l as [|y l]; [by rewrite bool_decide_false|]. change (neighbours_differ (x :: y :: l)) with (negb (bool_decide (name_of x = name_of y)) && neighbours_differ (y :: l)).
    simpl map. simpl head. f_equal. f_equal. apply bool_decide_ext. split; [by intros ->|by intros [= ->]]. }
  rewrite E, IH. simpl. rewrite (bool_decide_ext (NoDup (name_of x :: map name_of l)) (head (map name_of l) <> Some (name_of x) /\ NoDup (map name_of l))).
  - by rewrite bool_decide_and, bool_decide_not.
  - rewrite list.NoDup_cons. split; (intros [H1 H2]; split; [|done]); [|by intros ?%Hin]. intros Hh. apply H1. destruct l; [done|]. injection Hh as Eh. simpl. rewrite Eh. constructor.
Qed.

Lemma run_adjacent_differ (a : array A) l cf (Q : bool -> conf -> Prop) : array_rel a l -> Forall (fun x => is_text (key x)) l ->
  Q (neighbours_differ l) cf -> runs (adjacent_differ cmp a 0 (Z.to_nat (zlen l - 1))) cf Q.
Proof.
  intros HR Ht. assert (H : forall l2 l1 i, l = l1 ++ l2 -> i = zlen l1 -> Q (neighbours_differ l2) cf -> runs (adjacent_differ cmp a i (Nat.pred (length l2))) cf Q).
  { induction l2 as [|x [|y l2] IH]; intros l1 i El Ei HQ; [exact HQ|exact HQ|]. change (Nat.pred (length (x :: y :: l2))) with (S (Nat.pred (length (y :: l2)))).
    cbn [adjacent_differ]. pose proof (zlen_nonneg l1). assert (Hl : zlen l = zlen l1 + 2 + zlen l2) by (rewrite El, zlen_app, !zlen_cons; lia). pose proof (zlen_nonneg l2).
    assert (Ex : l !! Z.to_nat i = Some x) by (rewrite El, Ei; unfold zlen; rewrite Nat2Z.id; by apply list_lookup_middle).
    assert (Ey : l !! Z.to_nat (i + 1) = Some y).
    { rewrite El, Ei. replace (Z.to_nat (zlen l1 + 1)) with (length l1 + 1)%nat by (unfold zlen; lia). rewrite lookup_app_r by lia. by replace (length l1 + 1 - length l1)%nat with 1%nat by lia. }
    unfold c_load. run_step. eapply runs_reads; [rewrite (array_load_get a l), Ex by (done || lia); done|]. run_step. eapply runs_reads; [rewrite (array_load_get a l), Ey by (done || lia); done|].
    rewrite list.Forall_forall in Ht. destruct (name_le x y) as (c & Ec & _ & Hc); [apply Ht; by eapply list_elem_of_lookup_2..|]. run_step. eapply runs_reads; [exact Ec|].
    simpl in HQ. destruct (Z.eqb_spec c 0) as [E0|E0].
    - run_step. rewrite bool_decide_true in HQ by (by apply Hc). done.
    - rewrite bool_decide_false in HQ by (intros En; by apply E0, Hc). apply (IH (l1 ++ [x])); [by rewrite <- app_assoc|rewrite zlen_app; change (zlen [x]) with 1; lia|done]. }
  intros HQ. replace (Z.to_nat (zlen l - 1)) with (Nat.pred (length l)) by (unfold zlen; lia). by apply (H l []).
Qed.

Lemma run_sort (q : list A -> list A) (a : array A) l cf (Q : array A -> conf -> Prop) : array_rel a l -> sorts cmp q -> Forall (fun x => is_text (key x)) l ->
  (forall a' l', array_rel a' l' -> l' ≡ₚ l -> StronglySorted (le_by cmp) l' -> nalloc a' = nalloc a -> size a' = size a -> Q a' cf) -> runs (c_sort q a) cf Q.
Proof.
  intros HR Hq Ht HQ. destruct (Hq l (names_order l Ht)) as [Hp Hs]. pose proof HR as [[W1 W2 W3 W4] Hc]. unfold c_sort. run_step. rewrite Hc.
  assert (E : mapM id (map Some l) = Some l) by (clear; induction l as [|x l IH]; simpl; [done|by rewrite IH]). eapply runs_reads; [exact E|]. run_step.
  apply (HQ _ (q l)); [|done|done|done|done]. pose proof (array_rel_length _ _ HR) as Hn. assert (Hlen : length (q l) = length l) by (by rewrite Hp).
  unfold array_sort. split; [constructor; simpl; try done|].
  - unfold zlen in *. rewrite length_app, length_map, length_drop. lia.
  - unfold contents. simpl. replace (Z.to_nat (nelem a)) with (length (map Some (q l))) by (rewrite length_map; unfold zlen in *; lia). by rewrite take_app_length.
Qed.

End Names.

(** ** The checks of a pool *)

Definition server_names_of (l : list conf_server) : list (list Z) := map (name_of cs_name) l.
Definition pool_names_of (l : list conf_pool) : list (list Z) := map (name_of cp_name) l.
Definition listen_names_of (l : list conf_pool) : list (list Z) := map (name_of (fun cp => cl_pname (cp_listen cp))) l.

(** What a pool has to say. *)
Definition pool_accepts (cp : conf_pool) : bool :=
  cl_valid (cp_listen cp) && negb (cp_server_connections cp =? 0) &&
  negb ((cp_redis cp <=? 0) && (0 <? str_len (cp_redis_auth cp))) &&
  negb (bool_decide (stored (cp_server cp) = [])) && bool_decide (NoDup (server_names_of (stored (cp_server cp)))).

(** The pool with the defaults filled in. *)
Definition or_default (v dflt : Z) : Z := if v =? -1 then dflt else v.

(** [cp'] is [cp], complete. *)
Record completes (cp cp' : conf_pool) : Prop := {
  co_name : cp_name cp' = cp_name cp;
  co_listen : cp_listen cp' = cp_listen cp;
  co_hash : cp_hash cp' = or_default (cp_hash cp) CONF_DEFAULT_HASH;
  co_tag : cp_hash_tag cp' = cp_hash_tag cp;
  co_distribution : cp_distribution cp' = or_default (cp_distribution cp) CONF_DEFAULT_DIST;
  co_timeout : cp_timeout cp' = cp_timeout cp;
  co_backlog : cp_backlog cp' = or_default (cp_backlog cp) CONF_DEFAULT_LISTEN_BACKLOG;
  co_client_connections : cp_client_connections cp' = 0;
  co_tcpkeepalive : cp_tcpkeepalive cp' = or_default (cp_tcpkeepalive cp) 0;
  co_redis : cp_redis cp' = or_default (cp_redis cp) 0;
  co_auth : cp_redis_auth cp' = cp_redis_auth cp;
  co_redis_db : cp_redis_db cp' = or_default (cp_redis_db cp) 0;
  co_preconnect : cp_preconnect cp' = or_default (cp_preconnect cp) 0;
  co_auto_eject_hosts : cp_auto_eject_hosts cp' = or_default (cp_auto_eject_hosts cp) 0;
  co_server_connections : cp_server_connections cp' = or_default (cp_server_connections cp) CONF_DEFAULT_SERVER_CONNECTIONS;
  co_server_retry_timeout : cp_server_retry_timeout cp' = or_default (cp_server_retry_timeout cp) CONF_DEFAULT_SERVER_RETRY_TIMEOUT;
  co_server_failure_limit : cp_server_failure_limit cp' = or_default (cp_server_failure_limit cp) CONF_DEFAULT_SERVER_FAILURE_LIMIT;
  co_servers : stored (cp_server cp') ≡ₚ stored (cp_server cp);
  co_valid : cp_valid cp' = true
}.

(** A pool that can be served. *)
Record pool_ready (cp : conf_pool) : Prop := {
  pr_valid : cp_valid cp = true;
  pr_name : is_text (cp_name cp);
  pr_listen : cl_valid (cp_listen cp) = true /\ listen_ok (cp_listen cp);
  pr_hash : 0 <= cp_hash cp < zlen hash_strings;
  pr_tag : cp_hash_tag cp = string_init \/ exists a b, str_is (cp_hash_tag cp) [a; b];
  pr_distribution : 0 <= cp_distribution cp < zlen dist_strings;
  pr_timeout : -1 <= cp_timeout cp < 2 ^ 31;
  pr_numbers : Forall (fun n => 0 <= n < 2 ^ 31) [cp_backlog cp; cp_client_connections cp; cp_redis_db cp; cp_server_retry_timeout cp; cp_server_failure_limit cp];
  pr_flags : Forall (fun n => n = 0 \/ n = 1) (flags cp);
  pr_server_connections : 1 <= cp_server_connections cp < 2 ^ 31;
  pr_auth : cp_redis cp = 0 -> str_len (cp_redis_auth cp) = 0;
  pr_servers : exists servers, array_rel (cp_server cp) servers /\ 1 <= zlen servers < 2 ^ 28 /\ Forall conf_server_ok servers /\ NoDup (server_names_of servers)
}.

Section Check.
Context `{env : ConfEnv}.
Hypothesis sort_server : sorts conf_server_name_cmp ce_qsort_server.

Lemma validate_server_total n cp servers :
  servers_in n (cp_server cp) servers -> n < 2 ^ 28 -> Forall conf_server_ok servers ->
  total (conf_validate_server cp) (fun x =>
    x.1 = (if negb (bool_decide (servers = [])) && bool_decide (NoDup (server_names_of servers)) then NC_OK else NC_ERROR) /\
    exists a' servers', servers_in n a' servers' /\ servers' ≡ₚ servers /\ x.2 = cp_set_server a' cp).
Proof.
  intros (HR & Hl & Hb) Hn Hs cf. assert (Ht : Forall (fun x => is_text (cs_name x)) servers) by (eapply List.Forall_impl; [|exact Hs]; apply sv_name).
  pose proof (array_rel_length _ _ HR) as Hlen. unfold conf_validate_server, array_n. rewrite Hlen. destruct (Z.eqb_spec (zlen servers) 0) as [E0|E0].
  { assert (servers = []) as -> by (by destruct servers). run_step. simpl. split; [done|]. exists (cp_server cp), []. split_and!; [split_and!; done|done|by destruct cp]. }
  rewrite (bool_decide_false (servers = [])) by (by intros ->). run_step. eapply (run_sort cs_name); [exact HR|done|done|]. intros a' servers' HR' Hp Hso Hna Hsz.
  pose proof (zlen_nonneg servers). rewrite u32_small by (unfold is_u32; lia). assert (Hz : zlen servers' = zlen servers) by (unfold zlen; by rewrite Hp).
  repeat run_step. rewrite <- Hz. assert (Ht' : Forall (fun x => is_text (cs_name x)) servers') by (by rewrite Hp).
  eapply (run_adjacent_differ cs_name); [exact HR'|done|]. run_step. simpl. rewrite (neighbours_NoDup cs_name servers') by done. split.
  - rewrite (bool_decide_ext (NoDup (map (name_of cs_name) servers')) (NoDup (server_names_of servers))) by (unfold server_names_of; by rewrite Hp). by destruct (bool_decide _).
  - exists a', servers'. split_and!; [split_and!; [done|lia|lia]|done|done].
Qed.

Lemma default_num_set (get : conf_pool -> Z) (set : Z -> conf_pool -> conf_pool) dflt cp :
  set (get cp) cp = cp -> default_num get set (-1) dflt cp = set (or_default (get cp) dflt) cp.
Proof. intros H. unfold default_num, or_default. by destruct (get cp =? -1). Qed.

Lemma num_default z d : num_ok z -> 0 <= d < 2 ^ 31 -> 0 <= or_default z d < 2 ^ 31.
Proof. unfold num_ok, or_default. intros. destruct (Z.eqb_spec z (-1)); lia. Qed.

Lemma flag_default z d : flag_ok z -> d = 0 \/ d = 1 -> or_default z d = 0 \/ or_default z d = 1.
Proof. unfold flag_ok, or_default. intros. destruct (Z.eqb_spec z (-1)); lia. Qed.

(** conf_validate_pool up to the check of the servers: the pool it has
    filled in. *)
Definition filled_in (cp : conf_pool) : conf_pool :=
  mk_cpool (cp_name cp) (cp_listen cp) (or_default (cp_hash cp) CONF_DEFAULT_HASH) (cp_hash_tag cp) (or_default (cp_distribution cp) CONF_DEFAULT_DIST)
    (cp_timeout cp) (or_default (cp_backlog cp) CONF_DEFAULT_LISTEN_BACKLOG) 0 (or_default (cp_tcpkeepalive cp) 0) (or_default (cp_redis cp) 0) (cp_redis_auth cp)
    (or_default (cp_redis_db cp) 0) (or_default (cp_preconnect cp) 0) (or_default (cp_auto_eject_hosts cp) 0)
    (or_default (cp_server_connections cp) CONF_DEFAULT_SERVER_CONNECTIONS) (or_default (cp_server_retry_timeout cp) CONF_DEFAULT_SERVER_RETRY_TIMEOUT)
    (or_default (cp_server_failure_limit cp) CONF_DEFAULT_SERVER_FAILURE_LIMIT) (cp_server cp) (cp_valid cp).

Lemma filled_ready n cp a' servers servers' :
  conf_pool_inv n cp -> n < 2 ^ 28 -> servers_in n (cp_server cp) servers -> servers_in n a' servers' -> servers' ≡ₚ servers -> Forall conf_server_ok servers -> pool_accepts cp = true ->
  completes cp (cp_set_valid true (cp_set_server a' (filled_in cp))) /\ pool_ready (cp_set_valid true (cp_set_server a' (filled_in cp))).
Proof.
  intros [I1 I2 I3 I4 I5 I6 I7 I8 _] Hn (HR & _ & _) (HR' & Hl & _) Hp Hs Ha. unfold pool_accepts in Ha. rewrite (stored_rel _ _ HR) in Ha.
  rewrite !andb_true_iff, !negb_true_iff in Ha. destruct Ha as ((((A1 & A2) & A3) & A4) & A5). apply bool_decide_eq_false in A4. apply bool_decide_eq_true in A5. apply Z.eqb_neq in A2.
  split; [split; simpl; try done; by rewrite (stored_rel _ _ HR), (stored_rel _ _ HR')|]. unfold numbers, flags in I6, I7. rewrite !Forall_cons_iff in I6. rewrite !Forall_cons_iff in I7.
  destruct I6 as (N1 & N2 & N3 & N4 & N5 & N6 & N7 & _), I7 as (F1 & F2 & F3 & F4 & _). unfold zlen in *. simpl in *. split; simpl; try done.
  - unfold or_default, CONF_DEFAULT_HASH, zlen. simpl. destruct (Z.eqb_spec (cp_hash cp) (-1)); lia.
  - unfold or_default, CONF_DEFAULT_DIST, zlen. simpl. destruct (Z.eqb_spec (cp_distribution cp) (-1)); lia.
  - rewrite !Forall_cons_iff. split_and!; try (apply num_default; [done|unfold CONF_DEFAULT_LISTEN_BACKLOG, CONF_DEFAULT_SERVER_RETRY_TIMEOUT, CONF_DEFAULT_SERVER_FAILURE_LIMIT; lia]); [lia|lia|constructor].
  - unfold flags. simpl. rewrite !Forall_cons_iff. split_and!; try (apply flag_default; [done|auto]). constructor.
  - unfold or_default, CONF_DEFAULT_SERVER_CONNECTIONS. unfold num_ok in N5. destruct (Z.eqb_spec (cp_server_connections cp) (-1)); lia.
  - intros Hr. assert (Hle : (cp_redis cp <=? 0) = true) by (apply Z.leb_le; revert Hr; unfold or_default; destruct (Z.eqb_spec (cp_redis cp) (-1)); lia).
    rewrite Hle in A3. simpl in A3. apply Z.ltb_ge in A3. destruct I8 as [-> |(l & [El _] & _)]; [done|]. pose proof (zlen_nonneg l). lia.
  - exists servers'. split_and!; [done| |unfold zlen in *; lia|by rewrite Hp|unfold server_names_of in *; by rewrite Hp]. assert (length servers' <> 0%nat) by (rewrite Hp; by destruct servers). unfold zlen. lia.
Qed.

Lemma timeout_default z : or_default z (-1) = z.
Proof. unfold or_default. by destruct (Z.eqb_spec z (-1)). Qed.

Lemma validate_pool_total n cp :
  conf_pool_inv n cp -> n < 2 ^ 28 ->
  total (conf_validate_pool cp) (fun x => x.1 = (if pool_accepts cp then NC_OK else NC_ERROR) /\ pool_wf n x.2 /\ (x.1 = NC_OK -> completes cp x.2 /\ pool_ready x.2)).
Proof.
  intros H Hn. pose proof (pool_inv_wf _ _ H) as Hw. pose proof (pi_servers _ _ H) as (servers & Hin & Hs). pose proof (stored_rel _ _ (proj1 Hin)) as Est.
  assert (Eacc : pool_accepts cp = cl_valid (cp_listen cp) && negb (cp_server_connections cp =? 0) && negb ((cp_redis cp <=? 0) && (0 <? str_len (cp_redis_auth cp))) &&
    (negb (bool_decide (servers = [])) && bool_decide (NoDup (server_names_of servers)))) by (unfold pool_accepts; by rewrite Est, !andb_assoc).
  unfold conf_validate_pool. destruct (cl_valid (cp_listen cp)) eqn:El; cbn [negb andb] in *; [|apply total_ret; rewrite Eacc; by split_and!].
  unfold CONF_UNSET_DIST, CONF_UNSET_HASH, CONF_UNSET_NUM.
  rewrite !default_num_set by (match goal with |- ?s _ ?x = ?x => generalize x; by intros [] end). cbv zeta.
  match goal with |- context [cp_server_connections ?x =? 0] => change (cp_server_connections x) with (cp_server_connections cp) end.
  destruct (cp_server_connections cp =? 0) eqn:Ec; cbn [negb andb] in *; [apply total_ret; rewrite Eacc; by split_and!|].
  match goal with |- context [conf_validate_server ?x] => assert (Ex : x = filled_in cp) ; [|rewrite Ex; clear Ex] end.
  { simpl. change CONF_DEFAULT_TIMEOUT with (-1). by rewrite timeout_default. }
  assert (Er : (cp_redis (filled_in cp) =? 0) = (cp_redis cp <=? 0)).
  { pose proof (pi_flags _ _ H) as F. unfold flags in F. rewrite !Forall_cons_iff in F. destruct F as (_ & F & _). unfold flag_ok in F. simpl. unfold or_default.
    destruct (Z.eqb_spec (cp_redis cp) (-1)), (Z.leb_spec (cp_redis cp) 0); lia. }
  rewrite Er. change (cp_redis_auth (filled_in cp)) with (cp_redis_auth cp).
  destruct ((cp_redis cp <=? 0) && (0 <? str_len (cp_redis_auth cp))); cbn [negb andb] in *; [apply total_ret; rewrite Eacc; by split_and!|].
  eapply total_bind; [by apply (validate_server_total n (filled_in cp) servers)|]. intros [st cp'] (Est' & a' & servers' & Hin' & Hp & Ecp). cbn [fst snd] in *. subst cp'. rewrite <- Eacc in Est'. subst st.
  destruct (pool_accepts cp) eqn:Ea; cbn; apply total_ret; cbn; (split; [done|]); split; [by exists servers'| |by exists servers'|done].
  intros _. by eapply filled_ready.
Qed.

(** ** The checks of all pools *)

Lemma arr_set {A} (a : array A) l1 x l2 y : array_rel a (l1 ++ x :: l2) ->
  array_load a (array_get a (zlen l1)) = Some x /\ array_rel (array_store a (array_get a (zlen l1)) y) (l1 ++ y :: l2).
Proof.
  intros HR. pose proof (array_rel_length _ _ HR) as Hn. rewrite zlen_app, zlen_cons in Hn. pose proof (zlen_nonneg l1). pose proof (zlen_nonneg l2). split.
  - rewrite (array_load_get a (l1 ++ x :: l2)) by (try done; rewrite zlen_app, zlen_cons; lia). unfold zlen. rewrite Nat2Z.id. by apply list_lookup_middle.
  - destruct HR as [[W1 W2 W3 W4] Cn]. unfold array_store, array_get. rewrite Z.mul_comm, Z.div_mul by lia. split.
    + constructor; simpl; try done. unfold zlen in *. by rewrite length_insert.
    + unfold contents in *. simpl. rewrite take_insert_lt, Cn by lia. rewrite !map_app. unfold zlen. rewrite Nat2Z.id.
      rewrite <- (length_map Some l1). by rewrite insert_app_r_alt, Nat.sub_diag by lia.
Qed.

#[local] Instance pure_load {A} (a : array A) p : Pure (c_load a p).
Proof. unfold c_load. apply _. Qed.

#[local] Instance pure_adjacent {A} (cmp : A -> A -> option Z) a i n : Pure (adjacent_differ cmp a i n).
Proof. revert i. induction n as [|n IH]; intros i; simpl; apply _. Qed.

#[local] Instance pure_sort {A} (q : list A -> list A) a : Pure (c_sort q a).
Proof. unfold c_sort. apply _. Qed.

#[local] Instance pure_validate_server cp : Pure (conf_validate_server cp).
Proof. unfold conf_validate_server. apply _. Qed.

#[local] Instance pure_validate_pool cp : Pure (conf_validate_pool cp).
Proof. unfold conf_validate_pool. cbv zeta. repeat (destruct (_ : bool); [apply _|]). apply _. Qed.

Lemma run_pure {A} (m : C A) P cf (Q : A -> conf -> Prop) : Pure m -> total m P -> (forall x t, P x -> Q x (cf_set_tick t cf)) -> runs m cf Q.
Proof.
  intros Hm Ht HQ. destruct (runs_elim _ _ _ (Ht cf)) as (x & cf' & E & Hx). destruct (pure_yields m cf x cf' E cf) as [t Et]. unfold runs. rewrite Et. by apply HQ.
Qed.

(** The state after the parse: the arguments and the pools. *)
Record holds (args : list cstr) (pools : list conf_pool) (cf : conf) : Prop := {
  ho_args : array_rel (cf_arg cf) args;
  ho_pools : array_rel (cf_pool cf) pools
}.

Lemma run_validate_pools n args l2 : forall l1 cf, holds args (l1 ++ l2) cf -> Forall (conf_pool_inv n) l2 -> n < 2 ^ 28 ->
  runs (validate_pools (zlen l1) (length l2)) cf (fun st cf' =>
    st = (if forallb pool_accepts l2 then NC_OK else NC_ERROR) /\
    exists l2', holds args (l1 ++ l2') cf' /\ Forall (pool_wf n) l2' /\ (st = NC_OK -> Forall2 completes l2 l2' /\ Forall pool_ready l2')).
Proof.
  induction l2 as [|cp l2 IH]; intros l1 cf [HA HP] Hi Hn; simpl.
  { split; [done|]. exists []. split_and!; [done|constructor|]. split; constructor. }
  apply Forall_cons_iff in Hi as [Hcp Hi]. unfold pool_at, c_load, pool_put. repeat run_step. eapply runs_reads; [by eapply arr_set|]. run_step.
  eapply run_pure; [apply _|by apply (validate_pool_total n)|]. intros [st cp'] t (Est & Hw & HOk). cbn [fst snd] in *. repeat run_step.
  set (cf1 := cf_set_pool _ _). assert (H1 : holds args (l1 ++ cp' :: l2) cf1) by (split; [done|]; simpl; by eapply arr_set). clearbody cf1. subst st.
  destruct (pool_accepts cp); cbn.
  - replace (zlen l1 + 1) with (zlen (l1 ++ [cp'])) by (by rewrite zlen_app). eapply runs_mono; [apply (IH (l1 ++ [cp'])); [by rewrite <- app_assoc|done|done]|].
    intros st cf2 (-> & l2' & H2 & W2 & R2). split; [done|]. exists (cp' :: l2'). rewrite <- app_assoc in H2. destruct (HOk eq_refl) as [C0 R0].
    split_and!; [done|by constructor|]. intros E. destruct (R2 E) as [C R]. split; by constructor.
  - split; [done|]. exists (cp' :: l2). split_and!; [done|constructor; [done|]|done]. eapply List.Forall_impl; [|exact Hi]. apply pool_inv_wf.
Qed.

Lemma run_pools_differ (key : conf_pool -> cstr) q args pools cf : holds args pools cf -> sorts (fun x y => string_compare (key x) (key y)) q -> Forall (fun cp => is_text (key cp)) pools ->
  pools <> [] -> zlen pools < 2 ^ 32 ->
  runs (pools_differ q (fun x y => string_compare (key x) (key y)) (zlen pools)) cf (fun b cf' =>
    b = bool_decide (NoDup (map (name_of key) pools)) /\ exists pools', holds args pools' cf' /\ pools' ≡ₚ pools).
Proof.
  intros [HA HP] Hq Ht Hne Hz. unfold pools_differ. repeat run_step. eapply (run_sort key); [exact HP|done|done|]. intros a' pools' HR' Hp Hs _ _. repeat run_step.
  assert (Hz' : zlen pools' = zlen pools) by (unfold zlen; by rewrite Hp). assert (0 < zlen pools) by (destruct pools; [done|rewrite zlen_cons; pose proof (zlen_nonneg pools); lia]).
  rewrite u32_small, <- Hz' by (unfold is_u32; lia). assert (Ht' : Forall (fun cp => is_text (key cp)) pools') by (by rewrite Hp).
  eapply (run_adjacent_differ key); [exact HR'|done|]. split; [|by exists pools']. rewrite (neighbours_NoDup key) by done. apply bool_decide_ext. by rewrite Hp.
Qed.

(** What the configuration has to say. *)
Definition conf_accepts (pools : list conf_pool) : bool :=
  negb (bool_decide (pools = [])) && (forallb pool_accepts pools &&
    (bool_decide (NoDup (listen_names_of pools)) && bool_decide (NoDup (pool_names_of pools)))).

Hypothesis sort_listen : sorts conf_pool_listen_cmp ce_qsort_listen.
Hypothesis sort_name : sorts conf_pool_name_cmp ce_qsort_name.

Lemma completes_names l l' : Forall2 completes l l' -> zlen l = zlen l' /\ listen_names_of l' = listen_names_of l /\ pool_names_of l' = pool_names_of l.
Proof.
  induction 1 as [|x y l l' Hxy _ (E1 & E2 & E3)]; [done|]. rewrite !zlen_cons, E1. unfold listen_names_of, pool_names_of in *. simpl. rewrite E2, E3. unfold name_of.
  by rewrite (co_name _ _ Hxy), (co_listen _ _ Hxy).
Qed.

(** The outcome of the checks: the pools, complete and in some order. *)
Lemma run_post_validate n args pools cf : holds args pools cf -> Forall (conf_pool_inv n) pools -> n < 2 ^ 28 -> zlen pools < 2 ^ 32 ->
  runs conf_post_validate cf (fun st cf' =>
    st = (if conf_accepts pools then NC_OK else NC_ERROR) /\
    exists pools', holds args pools' cf' /\ Forall (pool_wf n) pools' /\
      (st = NC_OK -> Forall pool_ready pools' /\ exists l, pools' ≡ₚ l /\ Forall2 completes pools l)).
Proof.
  intros H Hi Hn Hz. pose proof (array_rel_length _ _ (ho_pools _ _ _ H)) as Hlen. unfold conf_post_validate, conf_accepts, array_n. repeat run_step. rewrite Hlen.
  destruct (Z.eqb_spec (zlen pools) 0) as [E0|E0].
  { assert (pools = []) as -> by (by destruct pools). run_step. split; [done|]. exists []. split_and!; [done|constructor|done]. }
  rewrite bool_decide_false by (by intros ->). cbn [negb andb]. run_step. unfold zlen at 1. rewrite Nat2Z.id.
  eapply runs_mono; [apply (run_validate_pools n args pools []); done|]. intros st cf1 (-> & pools1 & H1 & W1 & R1). simpl in H1.
  destruct (forallb pool_accepts pools); cbn [andb negb]; [|run_err; run_step; split; [done|]; by exists pools1].
  run_ok. destruct (R1 eq_refl) as [C1 R1']. clear R1. destruct (completes_names _ _ C1) as (Ez & El & En). rewrite <- El, <- En.
  assert (Hne : pools1 <> []) by (intros ->; by destruct pools). rewrite Ez. run_step.
  eapply runs_mono; [apply (run_pools_differ (fun cp => cl_pname (cp_listen cp)) _ args pools1); [done|done| |done|lia]|].
  { eapply List.Forall_impl; [|exact R1']. intros cp [_ _ [V L] _ _ _ _ _ _ _ _ _]. destruct (L V) as [_ (l & ? & ? & _)]. by exists l. }
  intros b cf2 (-> & pools2 & H2 & P2). fold (listen_names_of pools1). assert (Hwr : forall p, p ≡ₚ pools1 -> Forall (pool_wf n) p /\ Forall pool_ready p) by (intros p ->; done).
  destruct (bool_decide (NoDup (listen_names_of pools1))); cbn [negb andb]; run_step; [|split; [done|]; exists pools2; destruct (Hwr pools2 P2); by split_and!].
  replace (zlen pools1) with (zlen pools2) by (unfold zlen; by rewrite P2). eapply runs_mono; [apply (run_pools_differ cp_name _ args pools2)|].
  - done.
  - done.
  - destruct (Hwr pools2 P2) as [_ R2]. eapply List.Forall_impl; [|exact R2]. apply pr_name.
  - intros ->. by apply Permutation_nil_l in P2.
  - unfold zlen in *. rewrite P2. lia.
  - intros b cf3 (-> & pools3 & H3 & P3). run_step. rewrite P2 in P3. destruct (Hwr pools3 P3) as [W3 R3]. split.
    + rewrite (bool_decide_ext (NoDup (map (name_of cp_name) pools2)) (NoDup (pool_names_of pools1))) by (unfold pool_names_of; by rewrite P2). by destruct (bool_decide _).
    + exists pools3. split_and!; [done|done|]. intros _. split; [done|]. by exists pools1.
Qed.

(** ** Releasing the configuration *)

(** [m] only reads. *)
Definition reader {A} (m : C A) : Prop := forall cf, runs m cf (fun _ cf' => cf' = cf).

Lemma run_pop_all {A} (f : A -> C unit) l : forall fuel a cf (Q : array A -> conf -> Prop), array_rel a l -> (length l < fuel)%nat -> Forall (fun x => reader (f x)) l ->
  (forall a', Q a' cf) -> runs (pop_all f fuel a) cf Q.
Proof.
  induction l as [|x l IH] using rev_ind; intros fuel a cf Q HR Hf Ht HQ; (destruct fuel as [|fuel]; [simpl in Hf; lia|]); simpl; unfold array_n; pose proof (array_rel_length _ _ HR) as Hlen;
    destruct (Z.eqb_spec (nelem a) 0) as [E0|E0]; try (run_step; apply HQ); rewrite Hlen in E0; [done|].
  apply Forall_app in Ht as [Ht Hx]. apply Forall_cons_iff in Hx as [Hx _].
  destruct (arr_pop _ _ _ HR) as (Hl & _ & HR' & _). simpl in Hl, HR'. run_step. unfold c_load. eapply runs_reads; [exact Hl|]. run_step.
  eapply runs_mono; [apply Hx|]. intros [] cf1 ->. apply (IH fuel); [done| |done|done]. rewrite length_app in Hf. simpl in Hf. lia.
Qed.

Lemma pop_fuel_enough {A} (a : array A) l : array_rel a l -> (length l < pop_fuel a)%nat.
Proof. intros HR. pose proof (array_rel_length _ _ HR) as Hlen. unfold pop_fuel, array_n. rewrite Hlen. unfold zlen. lia. Qed.

Lemma reader_ret {A B} (g : A -> B) l : Forall (fun x => reader (let _ := g x in mret tt)) l.
Proof. apply list.Forall_forall. intros x _ cf. done. Qed.

Lemma reader_pool_deinit n cp : pool_wf n cp -> reader (conf_pool_deinit cp;; mret tt).
Proof.
  intros (servers & HR & _) cf. unfold conf_pool_deinit. repeat run_step.
  eapply (run_pop_all _ servers); [destruct (0 <? _); exact HR|apply pop_fuel_enough; destruct (0 <? _); exact HR|apply (reader_ret conf_server_deinit)|]. intros a'. by repeat run_step.
Qed.

Lemma run_destroy n args pools cf : holds args pools cf -> Forall (pool_wf n) pools -> runs conf_destroy cf (fun _ _ => True).
Proof.
  intros [HA HP] Hw. unfold conf_destroy. repeat run_step. eapply (run_pop_all _ args); [exact HA|by apply pop_fuel_enough|apply (reader_ret string_deinit)|]. intros a'. repeat run_step.
  eapply (run_pop_all _ pools); [exact HP|by apply pop_fuel_enough| |].
  - eapply List.Forall_impl; [|exact Hw]. apply reader_pool_deinit.
  - intros a2. by repeat run_step.
Qed.

End Check.
