(* ===== verification/ConfCreate.v ===== *)
(** conf_create on the stream of a document: it never faults, and it returns
    a configuration exactly if the document is one, with pools that are ready
    to be served. *)

From S2P Require Import Prelude CArray State CString Conf ConfParse ConfPure ConfSafe ConfTree ConfLoad ConfSample ConfServer ConfInv ConfCheck.

(** Memory is available, the file opens, libyaml starts and qsort(3) sorts. *)
Record machine_ok (env : ConfEnv) : Prop := {
  mo_alloc : forall n z, ce_ok n z = true;
  mo_open : ce_fopen = true;
  mo_yaml : forall n, ce_yaml_init n = true;
  mo_sort_server : sorts conf_server_name_cmp ce_qsort_server;
  mo_sort_listen : sorts conf_pool_listen_cmp ce_qsort_listen;
  mo_sort_name : sorts conf_pool_name_cmp ce_qsort_name
}.

(** The file holds the document [root]; no scalar has a NUL, and there are
    fewer than 2^28 events. *)
Record file_holds (env : ConfEnv) (root : node) : Prop := {
  fh_events : yi_events ce_input = stream root;
  fh_documents : zlen (yi_documents ce_input) < 2 ^ 32;
  fh_texts : Forall event_ok (events root);
  fh_size : zlen (events root) < 2 ^ 28
}.

Section Create.
Context (env : ConfEnv) (Hm : machine_ok env).

Lemma open_core t : exists cf, conf_open t = Some cf /\ core_at [] [] [] 0 false cf.
Proof.
  unfold conf_open, array_init. rewrite (mo_open _ Hm), !(mo_alloc _ Hm). simpl. eexists. split; [done|].
  constructor; simpl; try done; (split; [|done]); constructor; simpl; try done; vm_compute; repeat split; congruence.
Qed.

Context (root : node) (Hf : file_holds env root).

(** The pools of the document, where it is accepted. *)
Definition accepted_pools (pools : list conf_pool) : Prop := acceptable ce_input root = true /\ load_tree root = Some (NC_OK, pools) /\ conf_accepts pools = true.

Lemma pools_of_mapping : is_configuration root = true -> exists ps, root = Mapping ps /\ zlen ps <= 2 ^ 28.
Proof.
  destruct Hf as [_ _ _ Hz]. destruct root as [| |ps]; try done. intros _. exists ps. split; [done|]. simpl in Hz. rewrite zlen_cons, zlen_app in Hz.
  assert (Hl : forall l, zlen l <= zlen (concat (map (fun kv : node * node => events kv.1 ++ events kv.2) l))).
  { intros l. induction l as [|[k u] l IH]; [done|]. simpl. rewrite zlen_cons, !zlen_app. assert (0 < zlen (events k)) by (destruct k; simpl; rewrite zlen_cons; pose proof (fun A => zlen_nonneg (A := A)); [change (zlen []) with 0; lia|..];
      match goal with |- context [zlen (?x ++ ?y)] => pose proof (zlen_nonneg (x ++ y)); lia end).
    pose proof (zlen_nonneg (events u)). lia. }
  specialize (Hl ps). change (zlen [_]) with 1 in Hz. lia.
Qed.

Lemma load_pools_length ps : forall pools st pools', load_pools ps pools = Some (st, pools') -> zlen pools' <= zlen pools + zlen ps.
Proof.
  induction ps as [|kv ps IH]; intros pools st pools' E; simpl in E; rewrite ?zlen_cons; [injection E as <- <-; change (zlen []) with 0; lia|]. pose proof (zlen_nonneg ps).
  case_bool_decide; [injection E as <- <-; lia|]. destruct (load_pool kv) as [[st1 cp]|]; [|done]. destruct (st1 =? NC_OK); [apply IH in E|injection E as <- <-]; rewrite zlen_app in *; change (zlen [cp]) with 1 in *; lia.
Qed.

(** The three stages; [Q] says what they leave. *)
Lemma run_load cf : core_at [] [] [] 0 false cf ->
  runs conf_load cf (fun st cf' => exists args pools', holds args pools' cf' /\ Forall (pool_wf (2 ^ 28 - 1)) pools' /\
    (st = NC_OK <-> exists pools, accepted_pools pools) /\
    (st = NC_OK -> Forall pool_ready pools' /\ exists pools l, accepted_pools pools /\ pools' ≡ₚ l /\ Forall2 completes pools l)).
Proof.
  intros C. destruct Hf as [H1 H2 H3 H4]. unfold conf_load. run_step. eapply (run_pre_validate (mo_yaml _ Hm) root); [done|done|exact C|]. intros es1 cf1 C1. unfold accepted_pools.
  destruct (acceptable ce_input root) eqn:Ea.
  2:{ run_err. run_step. exists [], []. split_and!; [by destruct C1|constructor|split; [done|by intros (? & ? & _)]|done]. }
  run_ok. run_step. assert (Hc : is_configuration root = true) by (unfold acceptable in Ea; by apply andb_true_iff in Ea as [_ [_ ?]%andb_true_iff]).
  destruct (pools_of_mapping Hc) as (ps & Er & Hz). destruct (load_tree_total (mo_alloc _ Hm) root Hc H3) as [[st pools] El].
  destruct (load_tree_inv (mo_alloc _ Hm) root st pools Hc H3 H4 El) as [Hw Hi]. pose proof El as El'. rewrite Er in *.
  eapply (run_parse (mo_alloc _ Hm) (mo_yaml _ Hm) ps); [done|done|done|done|exact El|exact C1|]. intros es args d s cf2 C2. assert (H0 : holds args pools cf2) by (by destruct C2).
  destruct (Z.eqb_spec st NC_OK) as [-> |Hst]; simpl.
  - eapply runs_mono; [apply (run_post_validate (mo_sort_server _ Hm) (mo_sort_listen _ Hm) (mo_sort_name _ Hm) (2 ^ 28 - 1) args pools); [done|by apply Hi|lia|]|].
    { apply (load_pools_length ps []) in El. change (zlen []) with 0 in El. lia. }
    intros st cf3 (-> & pools' & H' & W' & R'). exists args, pools'. split_and!; [done|done| |].
    + destruct (conf_accepts pools) eqn:Eac; split; try done; [by exists pools|]. intros (p & _ & Ep & Eac'). rewrite El' in Ep. injection Ep as <-. congruence.
    + destruct (conf_accepts pools) eqn:Eac; [|done]. intros _. destruct (R' eq_refl) as [R (l & P & C3)]. split; [done|]. by exists pools, l.
  - run_step. exists args, pools. split_and!; [done|done| |done]. split; [done|]. intros (p & _ & Ep & _). rewrite El' in Ep. injection Ep as -> _. done.
Qed.

Lemma create_cases t : exists r, conf_create t = Some r /\
  match r with
  | None => ~ exists pools, accepted_pools pools
  | Some cf => exists pools loaded l, array_rel (cf_pool cf) pools /\ Forall pool_ready pools /\ accepted_pools loaded /\ pools ≡ₚ l /\ Forall2 completes loaded l
  end.
Proof.
  destruct (open_core t) as (cf & Eo & C). unfold conf_create. rewrite Eo. destruct (runs_elim _ _ _ (run_load cf C)) as (st & cf' & -> & args & pools' & H & Hw & Hiff & HOk).
  destruct (Z.eqb_spec st NC_OK) as [E|E].
  - exists (Some cf'). split; [done|]. destruct (HOk E) as [R (pools & l & A & P & C')]. exists pools', pools, l. split_and!; try done. apply H.
  - destruct (runs_elim _ _ _ (run_destroy _ _ _ _ H Hw)) as (u & cf2 & -> & _). exists None. split; [done|]. intros HA. by apply E, Hiff.
Qed.

End Create.

(** ** The properties *)

(** The checks before the parse, as a property of the file. *)
Lemma sample_machine i : machine_ok (sample_env i).
Proof. split; try done; apply sort_by_sorts. Qed.

Ltac solve_texts := repeat (constructor; [first [exact I | split; [by apply (bool_decide_unpack _); vm_compute | by vm_compute]]|]); constructor.

Lemma sample_file : file_holds (sample_env (sample_input sample_root)) sample_root.
Proof. split; [done|by vm_compute|simpl; solve_texts|by vm_compute]. Qed.

(** A pool without a sequence of servers. *)
Definition sample_flat : node := Mapping [(text "alpha", Mapping [(text "listen", text "127.0.0.1:22121")])].

Lemma sample_flat_file : file_holds (sample_env (sample_input sample_flat)) sample_flat.
Proof. split; [done|by vm_compute|simpl; solve_texts|by vm_compute]. Qed.

(** The three passes of conf_pre_validate over the documents, the tokens
    and the events of a file, with their counters per depth, accept it exactly
    if it holds one document in block style whose tree is a configuration: a
    mapping of pool names to mappings of directives to scalars or sequences of
    scalars, with exactly one sequence in each pool. *)
Theorem conf_pre_validate_accepts (env : ConfEnv) (root : node) (t : nat) :
  machine_ok env -> file_holds env root ->
  exists cf cf', conf_open t = Some cf /\
    conf_pre_validate cf = Some (if one_document (yi_documents ce_input) && (block_style (yi_tokens ce_input) && is_configuration root) then NC_OK else NC_ERROR, cf').
Proof.
  intros Hm Hf. destruct (open_core env Hm t) as (cf & Eo & C). destruct Hf as [H1 H2 _ _].
  destruct (runs_elim _ _ _ (run_pre_validate (mo_yaml _ Hm) root _ _ _ _ _ cf (fun st _ => st = if acceptable ce_input root then NC_OK else NC_ERROR) H1 H2 C ltac:(done)))
    as (st & cf' & E & ->). by exists cf, cf'.
Qed.

Lemma conf_pre_validate_accepts_witness :
  exists cf cf', conf_open (env := sample_env (sample_input sample_flat)) 0 = Some cf /\
    conf_pre_validate (env := sample_env (sample_input sample_flat)) cf = Some (NC_ERROR, cf').
Proof.
  destruct (conf_pre_validate_accepts (sample_env (sample_input sample_flat)) sample_flat 0 (sample_machine _) sample_flat_file) as (cf & cf' & E & H).
  exists cf, cf'. split; [exact E|exact H].
Defined.

(** C8. With memory available, on a file of one well-formed configuration
    document (no NUL in its scalars, fewer than 2^28 events, as [file_holds]
    says), the event driven parse, one call of conf_parse_core per libyaml event
    with the depth, the sequence flag and the stack of arguments as its only
    memory, computes the recursive interpretation of the document: pool by
    pool, directive by directive and value by value each handler is applied to
    the pool it belongs to, the first error ends the parse with its status, no
    event is lost and nothing outside the strings and arrays is touched. *)
Theorem conf_parse_interprets (env : ConfEnv) (root : node) (t : nat) :
  machine_ok env -> file_holds env root -> is_configuration root = true ->
  exists cf status pools cf', conf_open t = Some cf /\ load_tree root = Some (status, pools) /\
    conf_parse cf = Some (status, cf') /\ array_rel (cf_pool cf') pools.
Proof.
  intros Hm Hf Hc. destruct (open_core env Hm t) as (cf & Eo & C). destruct (pools_of_mapping env root Hf Hc) as (ps & -> & Hz). destruct Hf as [H1 H2 H3 H4].
  destruct (load_tree_total (mo_alloc _ Hm) _ Hc H3) as [[st pools] El].
  destruct (runs_elim _ _ _ (run_parse (mo_alloc _ Hm) (mo_yaml _ Hm) ps _ cf st pools (fun st' cf' => st' = st /\ array_rel (cf_pool cf') pools) H1 Hc H3 Hz El C
    ltac:(intros es args d s cf' C'; split; [done|apply C']))) as (st' & cf' & E & -> & HR). by exists cf, st, pools, cf'.
Qed.

Lemma conf_parse_interprets_witness :
  exists cf status pools cf', conf_open (env := sample_env (sample_input sample_root)) 0 = Some cf /\
    load_tree (env := sample_env (sample_input sample_root)) sample_root = Some (status, pools) /\ status = NC_OK /\ length pools = 1%nat /\
    conf_parse (env := sample_env (sample_input sample_root)) cf = Some (status, cf').
Proof.
  destruct (conf_parse_interprets (sample_env (sample_input sample_root)) sample_root 0 (sample_machine _) sample_file eq_refl) as (cf & status & pools & cf' & E & El & Ep & _).
  exists cf, status, pools, cf'. split; [exact E|]. split; [exact El|]. vm_compute in El. injection El as E1 E2. split; [symmetry; exact E1|]. split; [rewrite <- E2; reflexivity|exact Ep].
Defined.

(** C9. With memory available ([machine_ok]), on every file of one well-formed
    document (no NUL in its scalars, fewer than 2^28 events, as [file_holds]
    says) conf_create ends without a fault and returns a configuration exactly if the checks before the parse accept the file, the
    interpretation of its document succeeds and its pools say what they have
    to: there is a pool, each listens, has servers with distinct names, at
    least one connection per server and a password only with redis, and no two
    pools share an address or a name.  Sorting with qsort and comparing
    neighbours finds every duplicate. *)
Theorem conf_create_decides (env : ConfEnv) (root : node) (t : nat) :
  machine_ok env -> file_holds env root ->
  exists r, conf_create t = Some r /\
    (is_Some r <-> acceptable ce_input root = true /\ exists pools, load_tree root = Some (NC_OK, pools) /\ conf_accepts pools = true).
Proof.
  intros Hm Hf. destruct (create_cases env Hm root Hf t) as (r & E & H). exists r. split; [done|]. destruct r as [cf|].
  - destruct H as (_ & pools & _ & _ & _ & (A1 & A2 & A3) & _). split; [|by eexists]. intros _. split; [done|]. by exists pools.
  - split; [by intros [??]|]. intros (A & pools & El & Ea). exfalso. apply H. by exists pools.
Qed.

Lemma conf_create_decides_witness : exists cf, conf_create (env := sample_env (sample_input sample_root)) 0 = Some (Some cf).
Proof.
  destruct (conf_create_decides (sample_env (sample_input sample_root)) sample_root 0 (sample_machine _) sample_file) as (r & E & [_ H]).
  destruct H as [cf Er].
  - split; [reflexivity|]. destruct (load_tree (env := sample_env (sample_input sample_root)) sample_root) as [[st pools]|] eqn:El; [|discriminate]. exists pools.
    vm_compute in El. injection El as E1 E2. split; [f_equal; f_equal; symmetry; exact E1|]. rewrite <- E2. reflexivity.
  - exists cf. rewrite E, Er. reflexivity.
Defined.

(** C10. Every pool of a configuration conf_create returns is ready to be
    served, whatever the file says: hash and distribution are entries of their
    tables, numbers and flags are set and in range, the address has a valid
    port or is a path, there is at least one server, each with a weight of at
    least one and a valid port or a path, server names are distinct, and so
    are the names and the addresses of the pools. *)
Theorem conf_create_ready (env : ConfEnv) (root : node) (t : nat) (cf : conf) :
  machine_ok env -> file_holds env root -> conf_create t = Some (Some cf) ->
  exists pools, array_rel (cf_pool cf) pools /\ pools <> [] /\ Forall pool_ready pools /\ NoDup (pool_names_of pools) /\ NoDup (listen_names_of pools) /\
    exists loaded l, load_tree root = Some (NC_OK, loaded) /\ pools ≡ₚ l /\ Forall2 completes loaded l.
Proof.
  intros Hm Hf E. destruct (create_cases env Hm root Hf t) as (r & E' & H). rewrite E in E'. injection E' as <-.
  destruct H as (pools & loaded & l & HR & Hr & (_ & El & Ea) & P & C). exists pools. destruct (completes_names _ _ C) as (Ez & E1 & E2).
  unfold conf_accepts in Ea. rewrite !andb_true_iff, negb_true_iff in Ea. destruct Ea as (A1 & _ & A2 & A3). apply bool_decide_eq_false in A1. apply bool_decide_eq_true in A2, A3. rewrite <- E1 in A2. rewrite <- E2 in A3.
  split_and!; [done| |done|unfold pool_names_of in *; by rewrite P|unfold listen_names_of in *; by rewrite P|by exists loaded, l].
  intros ->. apply Permutation_nil_l in P. subst l. apply A1. by inversion C.
Qed.

Lemma conf_create_ready_witness :
  exists cf pools, conf_create (env := sample_env (sample_input sample_root)) 0 = Some (Some cf) /\ array_rel (cf_pool cf) pools /\ Forall pool_ready pools.
Proof.
  destruct (conf_create (env := sample_env (sample_input sample_root)) 0) as [[cf|]|] eqn:E; [|vm_compute in E; discriminate..].
  destruct (conf_create_ready (sample_env (sample_input sample_root)) sample_root 0 cf (sample_machine _) sample_file E) as (pools & HR & _ & Hr & _).
  exists cf, pools. split; [reflexivity|]. split; [exact HR|exact Hr].
Defined.
