(* ===== verification/PoolInit.v ===== *)
(** From the configuration to the server pools: server_init, server_deinit,
    server_pool_init and server_pool_deinit of nc_server.c with the transforms
    of nc_conf.c.

    A struct server or struct server_pool is a record with the fields of the
    source; [core_of] and [wpool_of] are the views of it the files Pool and
    World work on.  A pool is named by its offset in the array. *)

From S2P Require Import Prelude CArray State Rbtree HashKit Md5 HashAlgo Pool World CString Conf ConfParse.

(** ** Data *)

Record server_struct := mk_ss {
  ss_idx : Z;
  ss_owner : option Z;              (* the pool *)
  ss_core : server;                 (* pname, name, weight, next_retry, failure_count *)
  ss_addrstr : cstr;
  ss_port : Z;
  ss_info : sockinfo;
  ss_ns_conn_q : Z;
  ss_s_conn_q : list positive
}.

Record pool_struct := mk_ps {
  ps_idx : Z;
  ps_ctx : bool;                    (* set to the context *)
  ps_p_conn : pointer;
  ps_nc_conn_q : Z;
  ps_c_conn_q : list positive;
  ps_server : array server_struct;
  ps_ncontinuum : Z;
  ps_nserver_continuum : Z;
  ps_continuum : list (option cpoint);
  ps_nlive_server : Z;
  ps_next_rebuild : Z;
  ps_name : cstr;
  ps_addrstr : cstr;
  ps_port : Z;
  ps_info : sockinfo;
  ps_perm : option Z;
  ps_dist_type : Z;
  ps_key_hash_type : Z;
  ps_key_hash : hash_type;
  ps_hash_tag : cstr;
  ps_timeout : Z;
  ps_backlog : Z;
  ps_redis_db : Z;
  ps_client_connections : Z;
  ps_server_connections : Z;
  ps_server_retry_timeout : Z;
  ps_server_failure_limit : Z;
  ps_redis_auth : cstr;
  ps_require_auth : bool;
  ps_auto_eject_hosts : bool;
  ps_preconnect : bool;
  ps_redis : bool;
  ps_tcpkeepalive : bool
}.

Definition ps_set_ctx v (x : pool_struct) : pool_struct := mk_ps (ps_idx x) v (ps_p_conn x) (ps_nc_conn_q x)
  (ps_c_conn_q x) (ps_server x) (ps_ncontinuum x) (ps_nserver_continuum x) (ps_continuum x) (ps_nlive_server x)
  (ps_next_rebuild x) (ps_name x) (ps_addrstr x) (ps_port x) (ps_info x) (ps_perm x) (ps_dist_type x)
  (ps_key_hash_type x) (ps_key_hash x) (ps_hash_tag x) (ps_timeout x) (ps_backlog x) (ps_redis_db x)
  (ps_client_connections x) (ps_server_connections x) (ps_server_retry_timeout x) (ps_server_failure_limit x)
  (ps_redis_auth x) (ps_require_auth x) (ps_auto_eject_hosts x) (ps_preconnect x) (ps_redis x) (ps_tcpkeepalive
  x).
Definition ps_set_server v (x : pool_struct) : pool_struct := mk_ps (ps_idx x) (ps_ctx x) (ps_p_conn x)
  (ps_nc_conn_q x) (ps_c_conn_q x) v (ps_ncontinuum x) (ps_nserver_continuum x) (ps_continuum x)
  (ps_nlive_server x) (ps_next_rebuild x) (ps_name x) (ps_addrstr x) (ps_port x) (ps_info x) (ps_perm x)
  (ps_dist_type x) (ps_key_hash_type x) (ps_key_hash x) (ps_hash_tag x) (ps_timeout x) (ps_backlog x)
  (ps_redis_db x) (ps_client_connections x) (ps_server_connections x) (ps_server_retry_timeout x)
  (ps_server_failure_limit x) (ps_redis_auth x) (ps_require_auth x) (ps_auto_eject_hosts x) (ps_preconnect x)
  (ps_redis x) (ps_tcpkeepalive x).
Definition ps_set_ring ncontinuum nserver continuum nlive rebuild (x : pool_struct) : pool_struct := mk_ps
  (ps_idx x) (ps_ctx x) (ps_p_conn x) (ps_nc_conn_q x) (ps_c_conn_q x) (ps_server x) ncontinuum nserver
  continuum nlive rebuild (ps_name x) (ps_addrstr x) (ps_port x) (ps_info x) (ps_perm x) (ps_dist_type x)
  (ps_key_hash_type x) (ps_key_hash x) (ps_hash_tag x) (ps_timeout x) (ps_backlog x) (ps_redis_db x)
  (ps_client_connections x) (ps_server_connections x) (ps_server_retry_timeout x) (ps_server_failure_limit x)
  (ps_redis_auth x) (ps_require_auth x) (ps_auto_eject_hosts x) (ps_preconnect x) (ps_redis x) (ps_tcpkeepalive
  x).

Definition ss_set_owner v (x : server_struct) : server_struct := mk_ss (ss_idx x) v (ss_core x) (ss_addrstr x) (ss_port x) (ss_info x) (ss_ns_conn_q x) (ss_s_conn_q x).
Definition ss_set_core v (x : server_struct) : server_struct := mk_ss (ss_idx x) (ss_owner x) v (ss_addrstr x) (ss_port x) (ss_info x) (ss_ns_conn_q x) (ss_s_conn_q x).

(** sizeof on a 64-bit system. *)
Definition SIZEOF_SERVER : Z := 232.
Definition SIZEOF_SERVER_POOL : Z := 368.

(** The entries of hash_algos and the values of dist_type_t. *)
Definition hash_table : list hash_type :=
  [HASH_ONE_AT_A_TIME; HASH_MD5; HASH_CRC16; HASH_CRC32; HASH_CRC32A; HASH_FNV1_64; HASH_FNV1A_64; HASH_FNV1_32; HASH_FNV1A_32; HASH_HSIEH; HASH_MURMUR; HASH_JENKINS].
Definition dist_table : list dist_type := [DIST_KETAMA; DIST_MODULA; DIST_RANDOM].

(** ** Views *)

Definition core_of (d : dist_type) (ps : pool_struct) : server_pool :=
  mk_spool (map ss_core (stored (ps_server ps))) (ps_ncontinuum ps) (ps_nserver_continuum ps) (ps_continuum ps) (ps_nlive_server ps) (ps_next_rebuild ps) d
    (text_of (ps_hash_tag ps)) (ps_auto_eject_hosts ps) (ps_server_retry_timeout ps) (ps_server_failure_limit ps).

(** The pool after an operation on its core. *)
Definition put_cores (cores : list server) (a : array server_struct) : array server_struct :=
  mk_array (nelem a) (zip_with (fun s c => ss_set_core c <$> s) (contents a) cores ++ drop (Z.to_nat (nelem a)) (elem a)) (size a) (nalloc a).
Definition put_core (pl : server_pool) (ps : pool_struct) : pool_struct :=
  ps_set_ring (sp_ncontinuum pl) (sp_nserver_continuum pl) (sp_continuum pl) (sp_nlive_server pl) (sp_next_rebuild pl)
    (ps_set_server (put_cores (sp_servers pl) (ps_server ps)) ps).

(** The pool the event loop works on; [pl] is where keys lie. *)
Definition wpool_of (pl : placement) (d : dist_type) (ps : pool_struct) : wpool :=
  mk_wpool (core_of d ps) (hash_algos (ps_key_hash ps) pl) (map ss_s_conn_q (stored (ps_server ps))) (map ss_ns_conn_q (stored (ps_server ps)))
    (ps_p_conn ps) (ps_c_conn_q ps) (ps_nc_conn_q ps) (ps_redis ps) (ps_timeout ps) (ps_redis_db ps) (text_of (ps_redis_auth ps)) (ps_require_auth ps)
    (ps_server_connections ps) (ps_preconnect ps).

(** ** State *)

Record init_state := mk_init { in_tick : nat; in_pool : array pool_struct; in_max_nsconn : Z }.
Definition in_set_tick v (x : init_state) : init_state := mk_init v (in_pool x) (in_max_nsconn x).
Definition in_set_pool v (x : init_state) : init_state := mk_init (in_tick x) v (in_max_nsconn x).
Definition in_set_max_nsconn v (x : init_state) : init_state := mk_init (in_tick x) (in_pool x) v.

Abbreviation I := (ST init_state).

(** array_each: [func] gets the element's pointer and threads [data]. *)
Fixpoint each_from {A T} (func : Z -> T -> I (Z * T)) (a : array A) (i : Z) (n : nat) (data : T) : I (Z * T) :=
  match n with
  | O => mret (NC_OK, data)
  | S n' =>
      x ← func (array_get a i) data;
      if x.1 =? NC_OK then each_from func a (i + 1) n' x.2 else mret x
  end.
Definition each_elem {A T} (func : Z -> T -> I (Z * T)) (a : array A) (data : T) : I (Z * T) := each_from func a 0 (Z.to_nat (array_n a)) data.

Definition i_load {A} (a : array A) (p : Z) : I A := reads (fun _ => array_load a p).

(** n times array_pop. *)
Fixpoint pop_n {A} (n : nat) (a : array A) : array A := match n with O => a | S n' => pop_n n' (array_pop a).2 end.

Section Init.
Context `{env : Env}.

Definition i_ask {A} (f : nat -> A) : I A := n ← gets in_tick; modify (in_set_tick (S n));; mret (f n).

(** ** Servers *)

Definition conf_server_each_transform (conf : array conf_server) (elem : Z) (servers : array server_struct) : I (Z * array server_struct) :=
  cs ← i_load conf elem;
  ok ← i_ask ev_ok;
  match array_push ok servers with
  | None => fault
  | Some (p, servers) =>
      let s := mk_ss (array_idx servers p) None (mk_server (text_of (cs_pname cs)) (text_of (cs_name cs)) (u32 (cs_weight cs)) 0 0)
        (cs_addrstr cs) (u16 (cs_port cs)) (cs_info cs) 0 [] in
      mret (NC_OK, array_store servers p s)
  end.

Definition server_each_set_owner (sp : Z) (elem : Z) (servers : array server_struct) : I (Z * array server_struct) :=
  s ← i_load servers elem;
  mret (NC_OK, array_store servers elem (ss_set_owner (Some sp) s)).

Definition server_deinit (servers : array server_struct) : array server_struct := array_deinit (pop_n (Z.to_nat (array_n servers)) servers).

(** The status and sp->server. *)
Definition server_init (servers : array server_struct) (conf : array conf_server) (sp : Z) : I (Z * array server_struct) :=
  let nserver := array_n conf in
  ok ← i_ask ev_ok;
  let '(status, servers) := array_init ok servers nserver SIZEOF_SERVER in
  if negb (status =? NC_OK) then mret (status, servers)
  else
    x ← each_elem (conf_server_each_transform conf) conf servers;
    let '(status, servers) := x in
    if negb (status =? NC_OK) then mret (status, server_deinit servers)
    else
      x ← each_elem (server_each_set_owner sp) servers servers;
      let '(status, servers) := x in
      if negb (status =? NC_OK) then mret (status, server_deinit servers) else mret (NC_OK, servers).

(** ** Pools *)

(** The pool before its servers. *)
Definition pool_of_conf (idx : Z) (h : hash_type) (cp : conf_pool) : pool_struct :=
  let l := cp_listen cp in
  mk_ps idx false None 0 [] array_null 0 0 [] 0 0 (cp_name cp) (cl_pname l) (u16 (cl_port l)) (cl_info l) (cl_perm l)
    (cp_distribution cp) (cp_hash cp) h (cp_hash_tag cp) (cp_timeout cp) (cp_backlog cp) (cp_redis_db cp) (u32 (cp_client_connections cp))
    (u32 (cp_server_connections cp)) (cp_server_retry_timeout cp * 1000) (u32 (cp_server_failure_limit cp)) (cp_redis_auth cp)
    (0 <? str_len (cp_redis_auth cp)) (negb (cp_auto_eject_hosts cp =? 0)) (negb (cp_preconnect cp =? 0)) (negb (cp_redis cp =? 0))
    (negb (cp_tcpkeepalive cp =? 0)).

Definition conf_pool_each_transform (conf : array conf_pool) (elem : Z) (_ : unit) : I (Z * unit) :=
  cp ← i_load conf elem;
  ok ← i_ask ev_ok;
  a ← gets in_pool;
  match array_push ok a with
  | None => fault
  | Some (p, a) =>
      h ← reads (fun _ => rd hash_table (cp_hash cp));
      let sp := pool_of_conf (array_idx a p) h cp in
      x ← server_init (ps_server sp) (cp_server cp) p;
      modify (in_set_pool (array_store a p (ps_set_server x.2 sp)));;
      mret (x.1, tt)
  end.

(** sp at [elem] of the array of pools. *)
Definition sp_load (elem : Z) : I pool_struct := a ← gets in_pool; i_load a elem.
Definition sp_store (elem : Z) (sp : pool_struct) : I unit := modify (fun x => in_set_pool (array_store (in_pool x) elem sp) x).

Definition server_pool_each_set_owner (elem : Z) (_ : unit) : I (Z * unit) :=
  sp ← sp_load elem; sp_store elem (ps_set_ctx true sp);; mret (NC_OK, tt).

Definition server_pool_each_calc_connections (elem : Z) (_ : unit) : I (Z * unit) :=
  sp ← sp_load elem;
  modify (fun x => in_set_max_nsconn (u32 (in_max_nsconn x + u32 (ps_server_connections sp * array_n (ps_server sp)))) x);;
  modify (fun x => in_set_max_nsconn (u32 (in_max_nsconn x + 1)) x);;
  mret (NC_OK, tt).

(** server_pool_run on a struct server_pool. *)
Definition server_pool_each_run (elem : Z) (_ : unit) : I (Z * unit) :=
  sp ← sp_load elem;
  now ← i_ask ev_usec;
  stack ← i_ask ev_junk;
  ok ← i_ask ev_ok;
  match rd dist_table (ps_dist_type sp) with
  | None => mret (NC_ERROR, tt)
  | Some d =>
      x ← reads (fun _ => server_pool_run stack ev_qsort ok now (core_of d sp));
      sp_store elem (put_core x.2 sp);;
      mret (x.1, tt)
  end.

(** The loop of server_pool_deinit. *)
Fixpoint pools_pop (n : nat) : I unit :=
  match n with
  | O => mret tt
  | S n' =>
      a ← gets in_pool;
      let '(p, a') := array_pop a in
      sp ← i_load a p;
      let sp := if negb (bool_decide (ps_continuum sp = [])) then ps_set_ring 0 0 (ps_continuum sp) 0 (ps_next_rebuild sp) sp else sp in
      modify (in_set_pool (array_store a' p (ps_set_server (server_deinit (ps_server sp)) sp)));;
      pools_pop n'
  end.
Definition server_pool_deinit : I unit :=
  a ← gets in_pool;
  pools_pop (Z.to_nat (array_n a));;
  modify (fun x => in_set_pool (array_deinit (in_pool x)) x).

(** array_each over the pools; on an error they are released. *)
Definition pools_each (func : Z -> unit -> I (Z * unit)) (k : I Z) : I Z :=
  a ← gets in_pool;
  x ← each_elem func a tt;
  if negb (x.1 =? NC_OK) then server_pool_deinit;; mret x.1 else k.

Definition server_pool_init (conf : array conf_pool) : I Z :=
  let npool := array_n conf in
  ok ← i_ask ev_ok;
  a ← gets in_pool;
  let '(status, a) := array_init ok a npool SIZEOF_SERVER_POOL in
  modify (in_set_pool a);;
  if negb (status =? NC_OK) then mret status
  else
    x ← each_elem (conf_pool_each_transform conf) conf tt;
    if negb (x.1 =? NC_OK) then server_pool_deinit;; mret x.1
    else
      pools_each server_pool_each_set_owner (
        modify (in_set_max_nsconn 0);;
        pools_each server_pool_each_calc_connections (
          pools_each server_pool_each_run (mret NC_OK))).

End Init.
