(* ===== verification/PoolReady.v ===== *)
(** server_pool_init on a configuration: every pool gets its servers and a
    continuum that routes every key to one of them. *)

From S2P Require Import Prelude CArray State Rbtree HashKit Md5 HashAlgo Pool PoolFacts PoolSafe PoolRoute World CString Conf ConfParse ConfPure ConfSafe ConfTree ConfLoad ConfSample ConfServer ConfInv ConfCheck ConfCreate PoolInit.

(** A loop with an invariant over the elements seen. *)
Lemma run_each {A T} (func : Z -> T -> I (Z * T)) (a : array A) l (Inv : nat -> T -> init_state -> Prop) data s (Q : Z * T -> init_state -> Prop) :
  array_rel a l ->
  (forall k x data s, l !! k = Some x -> Inv k data s -> runs (func (array_get a (Z.of_nat k)) data) s (fun y s' => y.1 = NC_OK /\ Inv (S k) y.2 s')) ->
  Inv 0%nat data s -> (forall data s', Inv (length l) data s' -> Q (NC_OK, data) s') -> runs (each_elem func a data) s Q.
Proof.
  intros HR Hf H0 HQ. unfold each_elem, array_n. rewrite (array_rel_length _ _ HR). unfold zlen. rewrite Nat2Z.id.
  assert (H : forall n k data s, (k + n)%nat = length l -> Inv k data s -> runs (each_from func a (Z.of_nat k) n data) s Q).
  { clear data s H0. induction n as [|n IH]; intros k data s Hk H; simpl; [run_step; apply HQ; by replace (length l) with k by lia|].
    destruct (lookup_lt_is_Some_2 l k) as [x Hx]; [lia|]. run_step. eapply runs_mono; [by apply (Hf k x)|]. intros [st d] s' [Est H']. simpl in Est. subst st. simpl.
    replace (Z.of_nat k + 1) with (Z.of_nat (S k)) by lia. apply IH; [lia|done]. }
  by apply (H (length l) 0%nat).
Qed.

(** ** Servers *)

Section Servers.
Context `{env : Env}.
Hypothesis alloc_ok : forall n z, ev_ok n z = true.

(** The server of a line. *)
Definition server_made (owner : option Z) (i : nat) (cs : conf_server) : server_struct :=
  mk_ss (Z.of_nat i) owner (mk_server (text_of (cs_pname cs)) (text_of (cs_name cs)) (cs_weight cs) 0 0) (cs_addrstr cs) (cs_port cs) (cs_info cs) 0 [].

(** Only the tick differs. *)
Definition same_pools (s s' : init_state) : Prop := in_pool s' = in_pool s /\ in_max_nsconn s' = in_max_nsconn s.

Lemma array_idx_small {A} (a : array A) i : 0 < size a < 2 ^ 32 -> 0 <= i -> size a * i < 2 ^ 32 -> array_idx a (size a * i) = i.
Proof. intros Hs Hi Hb. unfold array_idx. rewrite !u32_small by (unfold is_u32; nia). rewrite Z.mul_comm, Z.div_mul by lia. done. Qed.

Lemma run_i_ask {A} (f : nat -> A) s (Q : A -> init_state -> Prop) : (forall s', same_pools s s' -> Q (f (in_tick s)) s') -> runs (i_ask f) s Q.
Proof. intros HQ. unfold i_ask. repeat run_step. by apply HQ. Qed.

Lemma same_pools_trans s1 s2 s3 : same_pools s1 s2 -> same_pools s2 s3 -> same_pools s1 s3.
Proof. unfold same_pools. intros [-> ->] [-> ->]. done. Qed.

(** An element of the array the loop runs over. *)
Lemma load_nth {A} (a : array A) l k x : array_rel a l -> l !! k = Some x -> array_load a (array_get a (Z.of_nat k)) = Some x.
Proof. intros HR Hx. rewrite (array_load_get a l) by (try done; apply lookup_lt_Some in Hx; unfold zlen; lia). by rewrite Nat2Z.id. Qed.

Lemma run_transform conf cs servers s (Q : Z * array server_struct -> init_state -> Prop) :
  array_rel conf cs -> array_rel servers [] -> size servers = SIZEOF_SERVER -> nalloc servers = zlen cs -> zlen cs < 2 ^ 24 -> Forall conf_server_ok cs ->
  (forall servers' s', array_rel servers' (imap (server_made None) cs) -> size servers' = SIZEOF_SERVER -> same_pools s s' -> Q (NC_OK, servers') s') ->
  runs (each_elem (conf_server_each_transform conf) conf servers) s Q.
Proof.
  intros HR HS Hsz Hna Hb Hok HQ.
  apply (run_each _ _ cs (fun k data s' => array_rel data (imap (server_made None) (take k cs)) /\ size data = SIZEOF_SERVER /\ nalloc data = zlen cs /\ same_pools s s')); [done| | |].
  - intros k x data s1 Hx (HD & H1 & H2 & H3). pose proof (lookup_lt_Some _ _ _ Hx) as Hk. unfold conf_server_each_transform, i_load. run_step.
    eapply runs_reads; [by eapply load_nth|]. run_step. apply run_i_ask. intros s2 H4.
    assert (Hlen : zlen (imap (server_made None) (take k cs)) = Z.of_nat k) by (unfold zlen; rewrite length_imap, length_take; lia).
    destruct (arr_push (ev_ok (in_tick s1)) data _ HD) as (a' & -> & Esz & Ena & HR'); [unfold zlen in *; lia|by apply alloc_ok|].
    run_step. simpl. split; [done|]. rewrite Hlen in *. destruct (Z.eqb_spec (Z.of_nat k) (nalloc data)); [unfold zlen in *; lia|].
    split_and!; [|by rewrite Esz|by rewrite Ena|by eapply same_pools_trans].
    rewrite (take_S_r _ _ _ Hx), imap_app. simpl. rewrite length_take, Nat.add_0_r, Nat.min_l by lia.
    replace (server_made None k x) with (mk_ss (array_idx a' (array_get data (Z.of_nat k))) None (mk_server (text_of (cs_pname x)) (text_of (cs_name x)) (u32 (cs_weight x)) 0 0)
      (cs_addrstr x) (u16 (cs_port x)) (cs_info x) 0 []); [apply HR'|].
    rewrite list.Forall_forall in Hok. destruct (Hok x) as [_ _ _ (a & _ & _ & Hp) Hw]; [by eapply list_elem_of_lookup_2|].
    unfold server_made, array_get. rewrite <- Esz, array_idx_small by (rewrite ?Esz, ?H1; unfold SIZEOF_SERVER, zlen in *; lia).
    rewrite u32_small by (unfold is_u32; lia). unfold u16. rewrite wrap_small; [done|].
    destruct Hp as [Hp|[-> _]]; [|lia]. unfold nc_valid_port, UINT16_MAX in Hp. apply negb_true_iff, orb_false_iff in Hp as [?%Z.ltb_ge ?%Z.ltb_ge]. lia.
  - split_and!; try done.
  - intros data s' (HD & H1 & _ & H3). rewrite take_ge in HD by lia. by apply HQ.
Qed.

(** A store at the [k]-th element. *)
Lemma store_nth {A} (a : array A) l k x y : array_rel a l -> l !! k = Some x -> array_rel (array_store a (array_get a (Z.of_nat k)) y) (<[k := y]> l).
Proof.
  intros HR Hx. pose proof (take_drop_middle _ _ _ Hx) as E. rewrite <- E in HR. destruct (arr_set a (take k l) x (drop (S k) l) y HR) as [_ H].
  pose proof (lookup_lt_Some _ _ _ Hx). unfold zlen in H. rewrite length_take, Nat.min_l in H by lia. by rewrite insert_take_drop by lia.
Qed.

Lemma run_set_owner sp servers l s (Q : Z * array server_struct -> init_state -> Prop) :
  array_rel servers l -> (forall servers' s', array_rel servers' (map (ss_set_owner (Some sp)) l) -> size servers' = size servers -> same_pools s s' -> Q (NC_OK, servers') s') ->
  runs (each_elem (server_each_set_owner sp) servers servers) s Q.
Proof.
  intros HR HQ. set (f := ss_set_owner (Some sp)).
  apply (run_each _ _ l (fun k data s' => array_rel data (map f (take k l) ++ drop k l) /\ size data = size servers /\ same_pools s s')); [done| | |].
  - intros k x data s1 Hx (HD & Hsz & Hs). pose proof (lookup_lt_Some _ _ _ Hx) as Hk.
    assert (Hg : array_get servers (Z.of_nat k) = array_get data (Z.of_nat k)) by (unfold array_get; by rewrite Hsz). rewrite Hg.
    assert (Hlen : length (map f (take k l)) = k) by (rewrite length_map, length_take; lia).
    assert (Hx' : (map f (take k l) ++ drop k l) !! k = Some x) by (rewrite lookup_app_r, Hlen, Nat.sub_diag, lookup_drop, Nat.add_0_r by lia; done).
    unfold server_each_set_owner, i_load. run_step. eapply runs_reads; [by eapply load_nth|]. run_step. simpl. split_and!; try done.
    pose proof (store_nth _ _ k x (f x) HD Hx') as HN. rewrite insert_app_r_alt, Hlen, Nat.sub_diag in HN by lia.
    rewrite (take_S_r _ _ _ Hx), map_app, <- app_assoc. simpl. rewrite (drop_S _ _ _ Hx) in HN. done.
  - done.
  - intros data s' (HD & Hsz & Hs). rewrite take_ge, drop_ge, app_nil_r in HD by lia. by apply HQ.
Qed.

Lemma run_server_init conf cs sp s (Q : Z * array server_struct -> init_state -> Prop) :
  array_rel conf cs -> 1 <= zlen cs < 2 ^ 24 -> Forall conf_server_ok cs ->
  (forall servers s', array_rel servers (imap (server_made (Some sp)) cs) -> same_pools s s' -> Q (NC_OK, servers) s') -> runs (server_init array_null conf sp) s Q.
Proof.
  intros HR Hb Hok HQ. unfold server_init. run_step. apply run_i_ask. intros s1 H1. unfold array_init, array_n. rewrite alloc_ok, (array_rel_length _ _ HR). run_ok. run_step.
  eapply run_transform; [exact HR| |done|done|lia|done|].
  { split; [|done]. constructor; simpl; unfold SIZEOF_SERVER, zlen in *; try lia. rewrite length_replicate. lia. }
  intros servers s2 HS Hsz H2. run_ok. run_step. eapply run_set_owner; [exact HS|]. intros servers' s3 HS' _ H3. run_ok. run_step.
  apply HQ; [|by do 2 (eapply same_pools_trans; [|eassumption])]. replace (imap (server_made (Some sp)) cs) with (map (ss_set_owner (Some sp)) (imap (server_made None) cs)); [done|].
  exact (fmap_imap (server_made None) (ss_set_owner (Some sp)) cs).
Qed.

End Servers.

(** ** Pools *)

(** What the ketama ring of a pool takes: names that fit its buffers, a total
    weight that is exact in single precision, and a number of servers. *)
Definition within_limits (cp : conf_pool) : bool :=
  let cs := stored (cp_server cp) in
  (foldr (fun c t => cs_weight c + t) 0 cs <? 2 ^ 24) &&
  (negb (cp_distribution cp =? 0) ||
   ((zlen cs <=? 2 ^ 14) && forallb (fun c => (zlen (text_of (cs_name c)) <=? 74) && sprintf_name_ok (text_of (cs_pname c))) cs)).

(** The pool of [cp] at position [i], before its ring is made. *)
Definition pool_made (ctx : bool) (i : nat) (cp : conf_pool) (ps : pool_struct) : Prop :=
  exists h servers, rd hash_table (cp_hash cp) = Some h /\
    array_rel servers (imap (server_made (Some (SIZEOF_SERVER_POOL * Z.of_nat i))) (stored (cp_server cp))) /\
    ps = ps_set_ctx ctx (ps_set_server servers (pool_of_conf (Z.of_nat i) h cp)).

(** The pools of a list, by position. *)
Definition all_made (P : nat -> conf_pool -> pool_struct -> Prop) (l : list conf_pool) (l' : list pool_struct) : Prop :=
  length l = length l' /\ forall i cp ps, l !! i = Some cp -> l' !! i = Some ps -> P i cp ps.

Lemma all_made_snoc P l l' cp ps : all_made P l l' -> P (length l) cp ps -> all_made P (l ++ [cp]) (l' ++ [ps]).
Proof.
  intros [Hl H] Hp. split; [rewrite !length_app; simpl; lia|]. intros i c p. rewrite !lookup_app_Some. intros [Hc|[Hi Hc]] [Hq|[Hj Hq]].
  - by eapply H.
  - apply lookup_lt_Some in Hc. lia.
  - apply lookup_lt_Some in Hq. lia.
  - pose proof (lookup_lt_Some _ _ _ Hc) as Hlt. simpl in Hlt. assert (i = length l) as -> by lia. rewrite Nat.sub_diag in Hc. rewrite <- Hl, Nat.sub_diag in Hq. simpl in *. by simplify_eq.
Qed.

Lemma all_made_insert (P P' : nat -> conf_pool -> pool_struct -> Prop) l l' k cp ps :
  all_made (fun i cp ps => if decide (i < k)%nat then P' i cp ps else P i cp ps) l l' -> l !! k = Some cp -> P' k cp ps ->
  all_made (fun i cp ps => if decide (i < S k)%nat then P' i cp ps else P i cp ps) l (<[k := ps]> l').
Proof.
  intros [Hl H] Hcp Hp. split; [by rewrite length_insert|]. intros i c p Hc Hq. destruct (decide (i = k)) as [-> |Hne].
  - rewrite list_lookup_insert_eq in Hq by (rewrite <- Hl; by eapply lookup_lt_Some). simplify_eq. by rewrite decide_True by lia.
  - rewrite list_lookup_insert_ne in Hq by done. specialize (H i c p Hc Hq). destruct (decide (i < k)%nat); [rewrite decide_True by lia|rewrite decide_False by lia]; done.
Qed.

Lemma all_made_done (P P' : nat -> conf_pool -> pool_struct -> Prop) l l' :
  all_made (fun i cp ps => if decide (i < length l)%nat then P' i cp ps else P i cp ps) l l' -> all_made P' l l'.
Proof. intros [Hl H]. split; [done|]. intros i c p Hc Hq. specialize (H i c p Hc Hq). rewrite decide_True in H; [done|]. by eapply lookup_lt_Some. Qed.

Section Pools.
Context `{env : Env}.
Hypothesis alloc_ok : forall n z, ev_ok n z = true.

Variable conf : array conf_pool.
Variable pools : list conf_pool.
Hypothesis Hconf : array_rel conf pools.
Hypothesis Hready : Forall pool_ready pools.
Hypothesis Hlimits : Forall (fun cp => within_limits cp = true) pools.
Hypothesis Hnpool : 1 <= zlen pools < 2 ^ 23.

Lemma pool_facts k cp : pools !! k = Some cp -> pool_ready cp /\ within_limits cp = true.
Proof. intros H. rewrite list.Forall_forall in Hready, Hlimits. apply list_elem_of_lookup_2 in H. auto. Qed.

Lemma weights_count cs : Forall conf_server_ok cs -> zlen cs <= foldr (fun c t => cs_weight c + t) 0 cs.
Proof. induction 1 as [|c cs Hc _ IH]; [done|]. rewrite zlen_cons. simpl. destruct Hc as [_ _ _ _ Hw]. lia. Qed.

Lemma hash_in_table h : 0 <= h < zlen hash_strings -> is_Some (rd hash_table h).
Proof. intros Hh. apply rd_is_Some. exact Hh. Qed.

(** Each pool is in the array, with its servers. *)
Lemma run_pools_transform s (Q : Z * unit -> init_state -> Prop) :
  array_rel (in_pool s) [] -> size (in_pool s) = SIZEOF_SERVER_POOL -> nalloc (in_pool s) = zlen pools ->
  (forall s' l, array_rel (in_pool s') l -> size (in_pool s') = SIZEOF_SERVER_POOL -> all_made (pool_made false) pools l -> Q (NC_OK, tt) s') ->
  runs (each_elem (conf_pool_each_transform conf) conf tt) s Q.
Proof.
  intros HR Hsz Hna HQ.
  apply (run_each _ _ pools (fun k _ s' => exists l, array_rel (in_pool s') l /\ size (in_pool s') = SIZEOF_SERVER_POOL /\ nalloc (in_pool s') = zlen pools /\ all_made (pool_made false) (take k pools) l)); [done| | |].
  - intros k cp [] s1 Hcp (l & HL & H1 & H2 & HM). pose proof (lookup_lt_Some _ _ _ Hcp) as Hk. destruct (pool_facts _ _ Hcp) as [Hr Hlim]. pose proof (proj1 HM) as Hlen. rewrite length_take, Nat.min_l in Hlen by lia.
    unfold conf_pool_each_transform, i_load. run_step. eapply runs_reads; [by eapply load_nth|]. run_step. apply run_i_ask. intros s2 [E2 _]. repeat run_step. rewrite E2.
    destruct (arr_push (ev_ok (in_tick s1)) (in_pool s1) l HL) as (a' & -> & Esz & Ena & HR'); [unfold zlen in *; lia|by apply alloc_ok|].
    assert (Hzl : zlen l = Z.of_nat k) by (unfold zlen; lia). rewrite Hzl in *. destruct (Z.eqb_spec (Z.of_nat k) (nalloc (in_pool s1))); [unfold zlen in *; lia|].
    destruct (hash_in_table (cp_hash cp) (pr_hash _ Hr)) as [h Hh]. run_step. eapply runs_reads; [exact Hh|]. repeat run_step.
    destruct (pr_servers _ Hr) as (cs & HRc & Hz & Hok & _). unfold within_limits in Hlim. rewrite (stored_rel _ _ HRc) in Hlim. apply andb_true_iff in Hlim as [Hw _]. apply Z.ltb_lt in Hw. pose proof (weights_count cs Hok).
    eapply (run_server_init alloc_ok _ cs); [done|lia|done|]. intros servers s3 HS H3. repeat run_step. simpl. split; [done|].
    assert (Hidx : array_idx a' (array_get (in_pool s1) (Z.of_nat k)) = Z.of_nat k).
    { unfold array_get. rewrite <- Esz, array_idx_small; [done|rewrite Esz, H1; unfold SIZEOF_SERVER_POOL; lia|lia|rewrite Esz, H1; unfold SIZEOF_SERVER_POOL, zlen in *; lia]. }
    eexists (l ++ [_]). split_and!; [apply HR'|by rewrite Esz|by rewrite Ena|]. rewrite (take_S_r _ _ _ Hcp). apply all_made_snoc; [done|]. rewrite length_take, Nat.min_l by lia.
    exists h, servers. rewrite (stored_rel _ _ HRc), Hidx. split_and!; [done| |done]. unfold array_get in HS. by rewrite H1 in HS.
  - exists []. split_and!; try done.
  - intros [] s' (l & HL & H1 & _ & HM). rewrite take_ge in HM by lia. by eapply HQ.
Qed.

(** A step that changes the pool it is called on from [P] to [P']. *)
Definition updates (P P' : nat -> conf_pool -> pool_struct -> Prop) (func : Z -> unit -> I (Z * unit)) : Prop :=
  forall k cp ps s l, pools !! k = Some cp -> P k cp ps -> array_rel (in_pool s) l -> size (in_pool s) = SIZEOF_SERVER_POOL -> l !! k = Some ps ->
  runs (func (array_get (in_pool s) (Z.of_nat k)) tt) s (fun y s' => y.1 = NC_OK /\ size (in_pool s') = SIZEOF_SERVER_POOL /\ in_max_nsconn s' = in_max_nsconn s /\
    exists ps', array_rel (in_pool s') (<[k := ps']> l) /\ P' k cp ps').

Lemma run_pools_each P P' func k s l Q :
  updates P P' func -> array_rel (in_pool s) l -> size (in_pool s) = SIZEOF_SERVER_POOL -> all_made P pools l ->
  (forall s' l', array_rel (in_pool s') l' -> size (in_pool s') = SIZEOF_SERVER_POOL -> in_max_nsconn s' = in_max_nsconn s -> all_made P' pools l' -> runs k s' Q) ->
  runs (pools_each func k) s Q.
Proof.
  intros Hf HL Hsz HM HQ. unfold pools_each. repeat run_step. pose proof (proj1 HM) as Hlen.
  apply (run_each _ _ l (fun k _ s' => exists l', array_rel (in_pool s') l' /\ size (in_pool s') = SIZEOF_SERVER_POOL /\ in_max_nsconn s' = in_max_nsconn s /\
    all_made (fun i cp ps => if decide (i < k)%nat then P' i cp ps else P i cp ps) pools l')); [done| | |].
  - intros j ps0 [] s1 Hps0 (l1 & H1 & H2 & H3 & H4). pose proof (lookup_lt_Some _ _ _ Hps0) as Hj. destruct (lookup_lt_is_Some_2 pools j) as [cp Hcp]; [lia|].
    destruct (lookup_lt_is_Some_2 l1 j) as [ps Hps]; [rewrite <- (proj1 H4); lia|]. pose proof (proj2 H4 j cp ps Hcp Hps) as HP. simpl in HP. rewrite decide_False in HP by lia.
    assert (Eg : array_get (in_pool s) (Z.of_nat j) = array_get (in_pool s1) (Z.of_nat j)) by (unfold array_get; by rewrite Hsz, H2). rewrite Eg.
    eapply runs_mono; [by eapply Hf|]. intros y s2 (Ey & E2 & E3 & ps' & H5 & H6). split; [done|]. exists (<[j := ps']> l1). split_and!; [done|done|by rewrite E3|]. by eapply all_made_insert.
  - exists l. by split_and!.
  - intros [] s' (l' & H1 & H2 & H3 & H4). simpl. rewrite <- Hlen in H4. apply all_made_done in H4. by eapply HQ.
Qed.

Lemma updates_set_owner : updates (pool_made false) (pool_made true) server_pool_each_set_owner.
Proof.
  intros k cp ps s l Hcp (h & servers & H1 & H2 & ->) HL Hsz Hps. unfold server_pool_each_set_owner, sp_load, sp_store, i_load. repeat run_step.
  eapply runs_reads; [by eapply load_nth|]. repeat run_step. simpl. split_and!; try done. eexists. split; [by eapply store_nth|]. by exists h, servers.
Qed.

(** ** The connections *)

(** What the pools may use: server_connections for each server and one for
    the listener. *)
Definition connections (l : list conf_pool) : Z := foldr (fun cp t => cp_server_connections cp * zlen (stored (cp_server cp)) + 1 + t) 0 l.

Lemma connections_snoc l cp : connections (l ++ [cp]) = connections l + (cp_server_connections cp * zlen (stored (cp_server cp)) + 1).
Proof. unfold connections. induction l as [|c l IH]; simpl; lia. Qed.

Lemma run_calc_connections k s l Q :
  array_rel (in_pool s) l -> size (in_pool s) = SIZEOF_SERVER_POOL -> all_made (pool_made true) pools l -> in_max_nsconn s = 0 ->
  (forall s', in_pool s' = in_pool s -> in_max_nsconn s' = u32 (connections pools) -> runs k s' Q) ->
  runs (pools_each server_pool_each_calc_connections k) s Q.
Proof.
  intros HL Hsz [Hlen HM] H0 HQ. unfold pools_each. repeat run_step.
  apply (run_each _ _ l (fun k _ s' => in_pool s' = in_pool s /\ in_max_nsconn s' = u32 (connections (take k pools)))); [done| |by rewrite H0|].
  - intros j ps [] s1 Hps [E1 E2]. pose proof (lookup_lt_Some _ _ _ Hps) as Hj. destruct (lookup_lt_is_Some_2 pools j) as [cp Hcp]; [lia|].
    destruct (HM j cp ps Hcp Hps) as (h & servers & _ & HS & ->). unfold server_pool_each_calc_connections, sp_load, i_load. repeat run_step. rewrite E1. eapply runs_reads; [by eapply load_nth|].
    repeat run_step. simpl. split_and!; [done|done|]. rewrite E2, (take_S_r _ _ _ Hcp), connections_snoc. unfold array_n. rewrite (array_rel_length _ _ HS).
    replace (zlen (imap _ _)) with (zlen (stored (cp_server cp))) by (unfold zlen; by rewrite length_imap).
    pose proof (pr_server_connections _ (proj1 (pool_facts _ _ Hcp))). rewrite (u32_small (cp_server_connections cp)) by (unfold is_u32; lia).
    rewrite u32_add_l, <- Z.add_assoc, u32_add_l, (Z.add_comm (u32 _) 1), Z.add_assoc, u32_add_r. f_equal. lia.
  - intros [] s' [E1 E2]. simpl. rewrite take_ge in E2 by lia. by apply HQ.
Qed.

(** ** The continuum *)

(** The server of a line, as the ring sees it. *)
Definition core_server (cs : conf_server) : server := mk_server (text_of (cs_pname cs)) (text_of (cs_name cs)) (cs_weight cs) 0 0.

(** The pool of [cp] at position [i], in service. *)
Definition in_service (i : nat) (cp : conf_pool) (ps : pool_struct) : Prop :=
  exists d h servers ncontinuum nserver continuum nlive rebuild,
    rd dist_table (cp_distribution cp) = Some d /\ rd hash_table (cp_hash cp) = Some h /\
    array_rel servers (imap (server_made (Some (SIZEOF_SERVER_POOL * Z.of_nat i))) (stored (cp_server cp))) /\
    ps = ps_set_ring ncontinuum nserver continuum nlive rebuild (ps_set_ctx true (ps_set_server servers (pool_of_conf (Z.of_nat i) h cp))) /\
    PoolRoute.pool_inv (core_of d ps) /\ sp_servers (core_of d ps) = map core_server (stored (cp_server cp)).

Lemma cores_made o cs : map ss_core (imap (server_made o) cs) = map core_server cs.
Proof.
  transitivity (imap (fun _ => core_server) cs); [exact (fmap_imap (server_made o) ss_core cs)|]. exact (imap_const core_server cs).
Qed.

Lemma put_cores_same a l : array_rel a l -> array_rel (put_cores (map ss_core l) a) l.
Proof.
  intros HR. pose proof (array_rel_length a l HR) as Hn. destruct HR as [[W1 W2 W3 W4] Hc].
  assert (E : zip_with (fun s c => ss_set_core c <$> s) (contents a) (map ss_core l) = map Some l).
  { rewrite Hc. clear. induction l as [|x l IH]; [done|]. simpl. rewrite IH. f_equal. by destruct x. }
  unfold put_cores. rewrite E. split; [constructor; simpl; try done|].
  - unfold zlen in *. rewrite length_app, length_map, length_drop. lia.
  - unfold contents. simpl. replace (Z.to_nat (nelem a)) with (length (map Some l)) by (rewrite length_map; unfold zlen in *; lia). by rewrite take_app_length.
Qed.

Lemma revive_fresh auto now cs : map (revive auto now) (map core_server cs) = map core_server cs.
Proof. rewrite map_map. apply map_ext. intros c. unfold revive, core_server. destruct (_ && _); done. Qed.

Lemma nlive_fresh auto now cs : 0 <= now -> nlive auto now (map core_server cs) = zlen cs.
Proof.
  intros Hnow. unfold nlive. induction cs as [|c cs IH]; [done|]. simpl. rewrite filter_cons_True by (unfold live; simpl; destruct (Z.leb_spec 0 now); [by rewrite orb_true_r|lia]).
  by rewrite !zlen_cons, IH.
Qed.

Lemma weight_fresh cs : live_weight false 0 (map core_server cs) = foldr (fun c t => cs_weight c + t) 0 cs.
Proof. induction cs as [|c cs IH]; [done|]. unfold live_weight in *. simpl in *. lia. Qed.

Lemma dist_ketama z : rd dist_table z = Some DIST_KETAMA -> z = 0.
Proof. unfold rd. destruct (Z.leb_spec 0 z); [|done]. destruct (Z.to_nat z) as [|[|[|?]]] eqn:E; try done. lia. Qed.

Lemma fresh_pool_ok d ps cp cs :
  rd dist_table (cp_distribution cp) = Some d -> stored (cp_server cp) = cs -> Forall conf_server_ok cs -> within_limits cp = true ->
  sp_servers (core_of d ps) = map core_server cs -> ps_continuum ps = [] -> ps_nserver_continuum ps = 0 -> pool_ok (core_of d ps).
Proof.
  intros Hd Es Hok Hlim Hs Hc Hn. unfold within_limits in Hlim. rewrite Es in Hlim. apply andb_true_iff in Hlim as [Hw Hk]. apply Z.ltb_lt in Hw. split.
  - rewrite Hs. apply List.Forall_map. eapply List.Forall_impl; [|exact Hok]. intros c [_ _ _ _ ?]. simpl. lia.
  - by rewrite Hs, weight_fresh.
  - intros Ed. rewrite Hs. simpl in Ed. subst d. rewrite (dist_ketama _ Hd) in Hk. simpl in Hk. apply andb_true_iff in Hk as [_ Hk]. rewrite forallb_forall in Hk. apply List.Forall_map, List.Forall_forall. intros c Hc0. apply Hk in Hc0.
    apply andb_true_iff in Hc0 as [H1%Z.leb_le H2]. by split.
  - intros Ed. rewrite Hs. simpl in Ed. subst d. rewrite (dist_ketama _ Hd) in Hk. simpl in Hk. apply andb_true_iff in Hk as [Hk _]. apply Z.leb_le in Hk. unfold zlen in *. by rewrite length_map.
  - simpl. rewrite Hc, Hn. done.
Qed.

Hypothesis Hqsort : qsort_ok ev_qsort.
Hypothesis Hclock : forall n, 0 <= ev_usec n.

Lemma updates_run : updates (pool_made true) in_service server_pool_each_run.
Proof.
  intros k cp ps s l Hcp (h & servers & Hh & HS & Eps) HL Hsz Hps. destruct (pool_facts _ _ Hcp) as [Hr Hlim]. destruct (pr_servers _ Hr) as (cs & HRc & Hz & Hok & _).
  assert (Hd : is_Some (rd dist_table (cp_distribution cp))) by (apply rd_is_Some; exact (pr_distribution _ Hr)). destruct Hd as [d Hd].
  assert (Hsv : sp_servers (core_of d ps) = map core_server cs) by (rewrite Eps; simpl; rewrite (stored_rel _ _ HS), cores_made; by rewrite (stored_rel _ _ HRc)).
  assert (Hpok : pool_ok (core_of d ps)) by (apply (fresh_pool_ok d ps cp cs); rewrite ?Eps; try done; [by apply stored_rel|by rewrite <- Eps]).
  unfold server_pool_each_run, sp_load, sp_store, i_load. repeat run_step. eapply runs_reads; [by eapply load_nth|].
  run_step. apply run_i_ask. intros s1 H1. run_step. apply run_i_ask. intros s2 H2. run_step. apply run_i_ask. intros s3 H3.
  assert (H03 : same_pools s s3) by (do 2 (eapply same_pools_trans; [|eassumption]); done). destruct H03 as [E3 M3].
  assert (Ed : ps_dist_type ps = cp_distribution cp) by (by rewrite Eps). rewrite Ed, Hd. run_step.
  destruct (server_pool_run_live (ev_junk (in_tick s1)) ev_qsort (ev_ok (in_tick s2)) (ev_usec (in_tick s)) (core_of d ps)) as (pool' & pts & Erun & Hok' & Hring & _ & Hu);
    [done|done|by apply Hclock|rewrite Hsv, nlive_fresh by apply Hclock; lia|by apply alloc_ok|].
  eapply runs_reads; [exact Erun|]. repeat run_step. cbn [fst snd]. split; [done|]. rewrite E3. simpl. split_and!; [done|done|].
  eexists. split; [by eapply store_nth|].
  assert (Hs' : sp_servers pool' = map core_server cs) by (by rewrite (up_servers _ _ _ _ _ _ Hu), Hsv, revive_fresh).
  assert (Hcores : sp_servers pool' = map ss_core (imap (server_made (Some (SIZEOF_SERVER_POOL * Z.of_nat k))) (stored (cp_server cp)))) by (by rewrite Hs', cores_made, (stored_rel _ _ HRc)).
  assert (HS' : array_rel (put_cores (sp_servers pool') servers) (imap (server_made (Some (SIZEOF_SERVER_POOL * Z.of_nat k))) (stored (cp_server cp)))) by (rewrite Hcores; by apply put_cores_same).
  assert (Ecore : core_of d (put_core pool' ps) = pool').
  { pose proof (up_conf _ _ _ _ _ _ Hu) as Hc. unfold pool_conf in Hc. rewrite Eps in *. unfold core_of, put_core in *. simpl in *. rewrite (stored_rel _ _ HS'), <- Hcores.
    destruct pool'. simpl in *. by simplify_eq. }
  exists d, h, (put_cores (sp_servers pool') servers), (sp_ncontinuum pool'), (sp_nserver_continuum pool'), (sp_continuum pool'), (sp_nlive_server pool'), (sp_next_rebuild pool').
  rewrite Ecore. split_and!; [done|done|done|by rewrite Eps|split; [done|by exists pts]|by rewrite Hs', (stored_rel _ _ HRc)].
Qed.

(** All of it. *)
Lemma run_server_pool_init s : in_pool s = array_null ->
  runs (server_pool_init conf) s (fun st s' => st = NC_OK /\ in_max_nsconn s' = u32 (connections pools) /\
    exists l, array_rel (in_pool s') l /\ all_made in_service pools l).
Proof.
  intros Hs. unfold server_pool_init. run_step. apply run_i_ask. intros s1 [E1 _]. repeat run_step. unfold array_init, array_n. rewrite alloc_ok, (array_rel_length _ _ Hconf). repeat run_step. run_ok. run_step.
  eapply run_pools_transform; [|done|done|].
  { split; [|done]. constructor; simpl; unfold SIZEOF_SERVER_POOL, zlen in *; try lia. rewrite length_replicate. lia. }
  intros s2 l2 HL2 Hsz2 HM2. run_ok. eapply (run_pools_each _ _ _ _ _ l2 _ updates_set_owner); [done|done|done|]. intros s3 l3 HL3 Hsz3 _ HM3. repeat run_step.
  eapply (run_calc_connections _ _ l3); [done|done|done|done|]. intros s4 E4 M4. simpl in E4.
  eapply (run_pools_each _ _ _ _ _ l3 _ updates_run); [by rewrite E4|by rewrite E4|done|]. intros s5 l5 HL5 _ M5 HM5. run_step. split_and!; [done|by rewrite M5|]. by exists l5.
Qed.

End Pools.

(** ** From the file to the servers *)

(** What the file says of a pool, in the pool: every setting that
    conf_pool_each_transform hands over. *)
Record configured (i : nat) (cp : conf_pool) (ps : pool_struct) : Prop := {
  cd_idx : ps_idx ps = Z.of_nat i /\ ps_ctx ps = true;
  cd_name : ps_name ps = cp_name cp;
  cd_listen : ps_addrstr ps = cl_pname (cp_listen cp) /\ ps_port ps = u16 (cl_port (cp_listen cp)) /\
    (nc_valid_port (cl_port (cp_listen cp)) = true -> ps_port ps = cl_port (cp_listen cp)) /\
    ps_info ps = cl_info (cp_listen cp) /\ ps_perm ps = cl_perm (cp_listen cp);
  cd_hash : ps_key_hash_type ps = cp_hash cp /\ rd hash_table (cp_hash cp) = Some (ps_key_hash ps);
  cd_dist : ps_dist_type ps = cp_distribution cp;
  cd_tag : ps_hash_tag ps = cp_hash_tag cp;
  cd_redis : ps_redis ps = negb (cp_redis cp =? 0) /\ ps_redis_db ps = cp_redis_db cp;
  cd_auth : ps_redis_auth ps = cp_redis_auth cp /\ ps_require_auth ps = (0 <? str_len (cp_redis_auth cp));
  cd_timeout : ps_timeout ps = cp_timeout cp;
  cd_backlog : ps_backlog ps = cp_backlog cp;
  cd_keepalive : ps_tcpkeepalive ps = negb (cp_tcpkeepalive cp =? 0);
  cd_preconnect : ps_preconnect ps = negb (cp_preconnect cp =? 0);
  cd_connections : ps_client_connections ps = cp_client_connections cp /\ ps_server_connections ps = cp_server_connections cp;
  cd_ejection : ps_auto_eject_hosts ps = negb (cp_auto_eject_hosts cp =? 0) /\ ps_server_failure_limit ps = cp_server_failure_limit cp /\
    ps_server_retry_timeout ps = cp_server_retry_timeout cp * 1000
}.

Lemma in_service_configured i cp ps : pool_ready cp -> in_service i cp ps -> configured i cp ps.
Proof.
  intros Hr (d & h & servers & ? & ? & ? & ? & ? & _ & Hh & _ & -> & _). pose proof (pr_server_connections _ Hr).
  pose proof (pr_numbers _ Hr) as Hn.
  rewrite !Forall_cons_iff in Hn. destruct Hn as (_ & Hcc & _ & _ & Hfl & _).
  constructor; simpl; try done; split_and!; try done; try (apply u32_small; unfold is_u32; lia).
  unfold nc_valid_port, UINT16_MAX. intros Hp%negb_true_iff%orb_false_iff. destruct Hp as [H1%Z.ltb_ge H2%Z.ltb_ge].
  unfold u16. apply wrap_small; lia.
Qed.

(** C7. From the configuration file to routing: when, with memory available,
    conf_create accepts a file of one well-formed document (no NUL in its
    scalars) and the pools of the configuration stay within the limits of the
    ketama ring, server_pool_init builds every pool without a fault and
    returns NC_OK.  Each pool has all the settings of its conf_pool (name,
    address, port, socket mode, hash, distribution, tag, timeout, backlog,
    keepalive, preconnect, redis and its database and password, connection
    limits, ejection), max_nsconn counts server_connections for every server
    and one listener per pool, and with the hash and the distribution the
    file names every key is routed to a server one of the pool's server lines
    describes. *)
Theorem conf_create_serves (cenv : ConfEnv) (env : Env) (root : node) (t tick : nat) (cf : conf) :
  machine_ok cenv -> file_holds cenv root -> conf_create t = Some (Some cf) ->
  Forall (fun cp => within_limits cp = true) (stored (cf_pool cf)) -> zlen (stored (cf_pool cf)) < 2 ^ 23 ->
  (forall n z, ev_ok n z = true) -> qsort_ok ev_qsort -> (forall n, 0 <= ev_usec n) ->
  exists s, server_pool_init (cf_pool cf) (mk_init tick array_null 0) = Some (NC_OK, s) /\
    in_max_nsconn s = u32 (connections (stored (cf_pool cf))) /\
    length (stored (in_pool s)) = length (stored (cf_pool cf)) /\
    forall i cp ps, stored (cf_pool cf) !! i = Some cp -> stored (in_pool s) !! i = Some ps ->
      configured i cp ps /\ exists d, rd dist_table (cp_distribution cp) = Some d /\
        forall pl rnd key, exists cs, In cs (stored (cp_server cp)) /\
          server_pool_server (hash_algos (ps_key_hash ps) pl) rnd (core_of d ps) key = Some (core_server cs).
Proof.
  intros Hm Hf E Hlim Hz Ha Hq Hc. destruct (create_cases cenv Hm root Hf t) as (r & E' & H). rewrite E in E'. injection E' as <-.
  destruct H as (pools & loaded & l & HR & Hready & (_ & _ & Hacc) & P & C). rewrite (stored_rel _ _ HR) in *.
  assert (Hne : 1 <= zlen pools).
  { unfold conf_accepts in Hacc. apply andb_true_iff in Hacc as [Hne%negb_true_iff%bool_decide_eq_false _]. destruct (completes_names _ _ C) as (Ez & _). destruct loaded; [done|].
    rewrite zlen_cons in Ez. pose proof (zlen_nonneg loaded). unfold zlen in *. rewrite P. lia. }
  destruct (runs_elim _ _ _ (run_server_pool_init Ha (cf_pool cf) pools HR Hready Hlim (conj Hne Hz) Hq Hc (mk_init tick array_null 0) eq_refl)) as (st & s & Es & -> & Hmax & ps & HP & Hlen & Hall).
  exists s. rewrite (stored_rel _ _ HP). split_and!; [done|done|done|]. intros i cp p Hcp Hp. pose proof (Hall i cp p Hcp Hp) as Hi. rewrite list.Forall_forall in Hready.
  split; [eapply in_service_configured; [apply Hready; by eapply list_elem_of_lookup_2|exact Hi]|]. destruct Hi as (d & h & servers & ? & ? & ? & ? & ? & Hd & _ & _ & _ & [_ [pts Hring]] & Hs).
  exists d. split; [done|]. intros pl rnd key. destruct (server_pool_server_Some (hash_algos (ps_key_hash p) pl) rnd (core_of d p) pts key Hring) as (pt & sv & _ & Hrd & Esv).
  apply rd_In in Hrd. rewrite Hs in Hrd. apply in_map_iff in Hrd as (cs & <- & Hin). by exists cs.
Qed.

(** A machine whose qsort(3) sorts the ring. *)
Definition ring_env : Env := {|
  ev_ok := fun _ _ => true; ev_junk := fun _ => replicate 200 0; ev_read := fun _ => Rdata []; ev_writev := fun _ => Wrote 0;
  ev_epoll := fun _ => 0; ev_usec := fun n => Z.of_nat n; ev_msec := fun n => Z.of_nat n; ev_time := fun n => Z.of_nat n;
  ev_random := fun _ => 0; ev_resolve := fun _ => true; ev_socket := fun n => 100 + Z.of_nat n; ev_setopt := fun _ => 0;
  ev_connect := fun _ => 0; ev_soerror := fun _ => 0; ev_strerror := fun _ => []; ev_wild := fun _ => None;
  ev_qsort := ring_sort; ev_notice := false; ev_trace := None; ev_max_ncconn := 100; ev_max_timeout := 1000; ev_retries := 10
|}.

Lemma conf_create_serves_witness :
  exists cf s, conf_create (env := sample_env (sample_input sample_root)) 0 = Some (Some cf) /\
    server_pool_init (env := ring_env) (cf_pool cf) (mk_init 0 array_null 0) = Some (NC_OK, s) /\ in_max_nsconn s = 5.
Proof.
  destruct (conf_create (env := sample_env (sample_input sample_root)) 0) as [[cf|]|] eqn:E; [|vm_compute in E; discriminate..].
  assert (Hl : forallb within_limits (stored (cf_pool cf)) = true) by (vm_compute in E; injection E as <-; vm_compute; reflexivity).
  assert (Hn : zlen (stored (cf_pool cf)) = 1) by (vm_compute in E; injection E as <-; vm_compute; reflexivity).
  assert (Hc : connections (stored (cf_pool cf)) = 5) by (vm_compute in E; injection E as <-; vm_compute; reflexivity).
  destruct (conf_create_serves (sample_env (sample_input sample_root)) ring_env sample_root 0 0 cf (sample_machine _) sample_file E) as (s & Es & Hm & _).
  - apply list.Forall_forall. intros cp Hcp. apply list_elem_of_In in Hcp. exact (proj1 (forallb_forall _ _) Hl cp Hcp).
  - rewrite Hn. lia.
  - intros n z. reflexivity.
  - exact ring_sort_ok.
  - intros n. exact (Zle_0_nat n).
  - exists cf, s. split; [reflexivity|]. split; [exact Es|]. rewrite Hm, Hc. reflexivity.
Defined.
