(* ===== verification/Stats.v ===== *)
(** Statistics: nc_stats.c.

    An array that keeps its size once it is made is the list of its elements,
    and an access outside of it faults.  The output buffer is a block of
    bytes; a write outside of it faults.  The clock, malloc(3), the counts of
    connections and the socket calls are answers of [StatsEnv]. *)

From S2P Require Import Prelude State CString.

(** ** Data *)

Inductive stats_type := STATS_COUNTER | STATS_GAUGE | STATS_TIMESTAMP.

Record stats_metric := mk_stm { stm_type : stats_type; stm_name : list Z; stm_value : Z }.
Record stats_server := mk_sts { sts_name : list Z; sts_metric : list stats_metric }.
Record stats_pool := mk_stp { stp_name : list Z; stp_metric : list stats_metric; stp_server : list stats_server }.

Definition stm_set_value v (x : stats_metric) : stats_metric := mk_stm (stm_type x) (stm_name x) v.
Definition sts_set_metric v (x : stats_server) : stats_server := mk_sts (sts_name x) v.
Definition stp_set_metric v (x : stats_pool) : stats_pool := mk_stp (stp_name x) v (stp_server x).
Definition stp_set_server v (x : stats_pool) : stats_pool := mk_stp (stp_name x) (stp_metric x) v.

(** STATS_POOL_CODEC and STATS_SERVER_CODEC. *)
Definition stats_pool_codec : list stats_metric :=
  [mk_stm STATS_COUNTER (bytes_of "client_eof") 0; mk_stm STATS_COUNTER (bytes_of "client_err") 0; mk_stm STATS_GAUGE (bytes_of "client_connections") 0;
   mk_stm STATS_COUNTER (bytes_of "server_ejects") 0; mk_stm STATS_COUNTER (bytes_of "forward_error") 0; mk_stm STATS_COUNTER (bytes_of "fragments") 0].
Definition stats_server_codec : list stats_metric :=
  [mk_stm STATS_COUNTER (bytes_of "server_eof") 0; mk_stm STATS_COUNTER (bytes_of "server_err") 0; mk_stm STATS_COUNTER (bytes_of "server_timedout") 0;
   mk_stm STATS_GAUGE (bytes_of "server_connections") 0; mk_stm STATS_TIMESTAMP (bytes_of "server_ejected_at") 0; mk_stm STATS_COUNTER (bytes_of "requests") 0;
   mk_stm STATS_COUNTER (bytes_of "request_bytes") 0; mk_stm STATS_COUNTER (bytes_of "responses") 0; mk_stm STATS_COUNTER (bytes_of "response_bytes") 0;
   mk_stm STATS_GAUGE (bytes_of "in_queue") 0; mk_stm STATS_GAUGE (bytes_of "in_queue_bytes") 0; mk_stm STATS_GAUGE (bytes_of "out_queue") 0;
   mk_stm STATS_GAUGE (bytes_of "out_queue_bytes") 0].

(** struct stats, without its constant strings. *)
Record stats := mk_stats {
  st_start_ts : Z;
  st_buf_len : Z;
  st_buf_data : option (list Z);
  st_buf_size : Z;
  st_current : list stats_pool;
  st_shadow : list stats_pool;
  st_sum : list stats_pool;
  st_sd : Z;
  st_source : list Z;
  st_version : list Z;
  st_aggregate : bool;
  st_updated : bool;
  st_tick : nat
}.

Definition st_set_buf_len v (x : stats) : stats := mk_stats (st_start_ts x) v (st_buf_data x) (st_buf_size x)
  (st_current x) (st_shadow x) (st_sum x) (st_sd x) (st_source x) (st_version x) (st_aggregate x) (st_updated x)
  (st_tick x).
Definition st_set_buf_data v (x : stats) : stats := mk_stats (st_start_ts x) (st_buf_len x) v (st_buf_size x)
  (st_current x) (st_shadow x) (st_sum x) (st_sd x) (st_source x) (st_version x) (st_aggregate x) (st_updated x)
  (st_tick x).
Definition st_set_buf_size v (x : stats) : stats := mk_stats (st_start_ts x) (st_buf_len x) (st_buf_data x) v
  (st_current x) (st_shadow x) (st_sum x) (st_sd x) (st_source x) (st_version x) (st_aggregate x) (st_updated x)
  (st_tick x).
Definition st_set_current v (x : stats) : stats := mk_stats (st_start_ts x) (st_buf_len x) (st_buf_data x)
  (st_buf_size x) v (st_shadow x) (st_sum x) (st_sd x) (st_source x) (st_version x) (st_aggregate x) (st_updated
  x) (st_tick x).
Definition st_set_shadow v (x : stats) : stats := mk_stats (st_start_ts x) (st_buf_len x) (st_buf_data x)
  (st_buf_size x) (st_current x) v (st_sum x) (st_sd x) (st_source x) (st_version x) (st_aggregate x)
  (st_updated x) (st_tick x).
Definition st_set_sum v (x : stats) : stats := mk_stats (st_start_ts x) (st_buf_len x) (st_buf_data x)
  (st_buf_size x) (st_current x) (st_shadow x) v (st_sd x) (st_source x) (st_version x) (st_aggregate x)
  (st_updated x) (st_tick x).
Definition st_set_sd v (x : stats) : stats := mk_stats (st_start_ts x) (st_buf_len x) (st_buf_data x)
  (st_buf_size x) (st_current x) (st_shadow x) (st_sum x) v (st_source x) (st_version x) (st_aggregate x)
  (st_updated x) (st_tick x).
Definition st_set_aggregate v (x : stats) : stats := mk_stats (st_start_ts x) (st_buf_len x) (st_buf_data x)
  (st_buf_size x) (st_current x) (st_shadow x) (st_sum x) (st_sd x) (st_source x) (st_version x) v (st_updated
  x) (st_tick x).
Definition st_set_updated v (x : stats) : stats := mk_stats (st_start_ts x) (st_buf_len x) (st_buf_data x)
  (st_buf_size x) (st_current x) (st_shadow x) (st_sum x) (st_sd x) (st_source x) (st_version x) (st_aggregate
  x) v (st_tick x).
Definition st_set_tick v (x : stats) : stats := mk_stats (st_start_ts x) (st_buf_len x) (st_buf_data x)
  (st_buf_size x) (st_current x) (st_shadow x) (st_sum x) (st_sd x) (st_source x) (st_version x) (st_aggregate
  x) (st_updated x) v.

Class StatsEnv := {
  se_ok : nat -> Z -> bool;           (* does malloc of a size succeed *)
  se_time : nat -> Z;                 (* time(2) *)
  se_pid : Z;
  se_ntotal_conn : nat -> Z;          (* conn_ntotal_conn, a uint64_t *)
  se_ncurr_conn : nat -> Z;           (* conn_ncurr_conn, a uint32_t *)
  se_resolve : nat -> Z;              (* nc_resolve of the address *)
  se_socket : nat -> Z;               (* socket(2) *)
  se_reuseaddr : nat -> Z;            (* nc_set_reuseaddr *)
  se_bind : nat -> Z;                 (* bind(2) *)
  se_listen : nat -> Z;               (* listen(2) *)
  se_thread : nat -> Z;               (* pthread_create(3) *)
  se_accept : nat -> Z;               (* accept(2) *)
  se_sendn : nat -> Z                 (* nc_sendn *)
}.

Abbreviation M := (ST stats).

Definition SIZEOF_STATS_METRIC : Z := 32.
Definition SIZEOF_STATS_SERVER : Z := 48.
Definition SIZEOF_STATS_POOL : Z := 80.

Definition s64 (z : Z) : Z := swrap 64 z.

(** l[i] = f(l[i]) *)
Definition alter_at {A} (f : A -> option A) (i : Z) (l : list A) : option (list A) :=
  match rd l i with
  | None => None
  | Some x => match f x with None => None | Some y => Some (<[Z.to_nat i := y]> l) end
  end.

(** ** Metrics *)

Definition stats_metric_init (stm : stats_metric) : stats_metric := stm_set_value 0 stm.
Definition stats_metric_reset (metric : list stats_metric) : list stats_metric := map stats_metric_init metric.

Definition stats_pool_reset (pools : list stats_pool) : list stats_pool :=
  map (fun stp => mk_stp (stp_name stp) (stats_metric_reset (stp_metric stp))
    (map (fun sts => sts_set_metric (stats_metric_reset (sts_metric sts)) sts) (stp_server stp))) pools.

(** The switch of stats_aggregate_metric: [stm1] is added to [stm2]. *)
Definition merge_value (t : stats_type) (v2 v1 : Z) : Z :=
  match t with
  | STATS_COUNTER | STATS_GAUGE => s64 (v2 + v1)
  | STATS_TIMESTAMP => if negb (v1 =? 0) then v1 else v2
  end.
Definition merge_metric (stm2 stm1 : stats_metric) : stats_metric := stm_set_value (merge_value (stm_type stm1) (stm_value stm2) (stm_value stm1)) stm2.

(** for (i = 0; i < array_n(src); i++) dst[i] = f(dst[i], src[i]) *)
Fixpoint merge_lists {A} (f : A -> A -> option A) (dst src : list A) : option (list A) :=
  match src, dst with
  | [], _ => Some dst
  | x1 :: src', x2 :: dst' =>
      match f x2 x1, merge_lists f dst' src' with
      | Some y, Some l => Some (y :: l)
      | _, _ => None
      end
  | _ :: _, [] => None
  end.

Definition stats_aggregate_metric (dst src : list stats_metric) : option (list stats_metric) :=
  merge_lists (fun stm2 stm1 => Some (merge_metric stm2 stm1)) dst src.
Definition aggregate_server (sts2 sts1 : stats_server) : option stats_server :=
  (fun m => sts_set_metric m sts2) <$> stats_aggregate_metric (sts_metric sts2) (sts_metric sts1).
Definition aggregate_pool (stp2 stp1 : stats_pool) : option stats_pool :=
  match stats_aggregate_metric (stp_metric stp2) (stp_metric stp1), merge_lists aggregate_server (stp_server stp2) (stp_server stp1) with
  | Some m, Some s => Some (mk_stp (stp_name stp2) m s)
  | _, _ => None
  end.

Definition stats_aggregate : M unit :=
  a ← gets st_aggregate;
  if negb a then mret tt
  else
    shadow ← gets st_shadow;
    sum ← reads (fun st => merge_lists aggregate_pool (st_sum st) shadow);
    modify (st_set_sum sum);;
    modify (st_set_aggregate false).

Definition stats_swap : M unit :=
  a ← gets st_aggregate;
  if (a : bool) then mret tt
  else
    u ← gets st_updated;
    if negb u then mret tt
    else
      st ← gets id;
      modify (st_set_current (st_shadow st));;
      modify (st_set_shadow (st_current st));;
      modify (fun st => st_set_current (stats_pool_reset (st_current st)) st);;
      modify (st_set_updated false);;
      modify (st_set_aggregate true).

(** *stats_pool_to_metric(ctx, pool, fidx) = f(...) *)
Definition stats_pool_to_metric (pidx fidx : Z) (f : stats_metric -> stats_metric) : M unit :=
  c ← reads (fun st => alter_at (fun stp => (fun m => stp_set_metric m stp) <$> alter_at (fun stm => Some (f stm)) fidx (stp_metric stp)) pidx (st_current st));
  modify (st_set_updated true);;
  modify (st_set_current c).

Definition _stats_pool_incr (pidx fidx : Z) : M unit := stats_pool_to_metric pidx fidx (fun stm => stm_set_value (s64 (stm_value stm + 1)) stm).
Definition _stats_pool_decr (pidx fidx : Z) : M unit := stats_pool_to_metric pidx fidx (fun stm => stm_set_value (s64 (stm_value stm - 1)) stm).
Definition _stats_pool_incr_by (pidx fidx val : Z) : M unit := stats_pool_to_metric pidx fidx (fun stm => stm_set_value (s64 (stm_value stm + val)) stm).
Definition _stats_pool_decr_by (pidx fidx val : Z) : M unit := stats_pool_to_metric pidx fidx (fun stm => stm_set_value (s64 (stm_value stm - val)) stm).
Definition _stats_pool_set_ts (pidx fidx val : Z) : M unit := stats_pool_to_metric pidx fidx (stm_set_value val).

Definition stats_server_to_metric (pidx sidx fidx : Z) (f : stats_metric -> stats_metric) : M unit :=
  c ← reads (fun st => alter_at (fun stp => (fun l => stp_set_server l stp) <$>
    alter_at (fun sts => (fun m => sts_set_metric m sts) <$> alter_at (fun stm => Some (f stm)) fidx (sts_metric sts)) sidx (stp_server stp)) pidx (st_current st));
  modify (st_set_updated true);;
  modify (st_set_current c).

Definition _stats_server_incr (pidx sidx fidx : Z) : M unit := stats_server_to_metric pidx sidx fidx (fun stm => stm_set_value (s64 (stm_value stm + 1)) stm).
Definition _stats_server_decr (pidx sidx fidx : Z) : M unit := stats_server_to_metric pidx sidx fidx (fun stm => stm_set_value (s64 (stm_value stm - 1)) stm).
Definition _stats_server_incr_by (pidx sidx fidx val : Z) : M unit :=
  stats_server_to_metric pidx sidx fidx (fun stm => stm_set_value (s64 (stm_value stm + val)) stm).
Definition _stats_server_decr_by (pidx sidx fidx val : Z) : M unit :=
  stats_server_to_metric pidx sidx fidx (fun stm => stm_set_value (s64 (stm_value stm - val)) stm).
Definition _stats_server_set_ts (pidx sidx fidx val : Z) : M unit := stats_server_to_metric pidx sidx fidx (stm_set_value val).

(** ** The output *)

(** %.*s of the first bytes of a string. *)
Fixpoint until_nul (l : list Z) : list Z := match l with [] => [] | ch :: l' => if ch =? 0 then [] else ch :: until_nul l' end.

(** %"PRId64" *)
Definition dec64 (z : Z) : list Z := if z <? 0 then 45 :: dec_digits 20 (- z) else dec_digits 20 z.

(** snprintf(3) of [text] at offset [pos]. *)
Definition snprintf_at (d : list Z) (pos room : Z) (text : list Z) : option (list Z) :=
  if room =? 0 then Some d
  else
    let w := take (Z.to_nat (room - 1)) text ++ [0] in
    if (0 <=? pos) && (pos + zlen w <=? zlen d) then Some (blit d pos w) else None.

Definition the_buf : M (list Z) := reads st_buf_data.

(** pos, room and the test of n. *)
Definition stats_add (text : list Z) : M Z :=
  d ← the_buf;
  len ← gets st_buf_len;
  size ← gets st_buf_size;
  let room := u64 (size - len - 1) in
  d ← reads (fun _ => snprintf_at d len room text);
  modify (st_set_buf_data (Some d));;
  let n := zlen text in
  if (n <? 0) || (s32 room <=? n) then mret NC_ERROR
  else modify (st_set_buf_len (u64 (len + n)));; mret NC_OK.

Definition string_entry (key val : list Z) : list Z := [34] ++ until_nul key ++ [34; 58; 34] ++ until_nul val ++ [34; 44; 32].
Definition num_entry (key : list Z) (val : Z) : list Z := [34] ++ until_nul key ++ [34; 58] ++ dec64 val ++ [44; 32].
Definition nest_entry (key : list Z) : list Z := [34] ++ until_nul key ++ [34; 58; 32; 123].

Definition stats_add_string (key val : list Z) : M Z := stats_add (string_entry key val).
Definition stats_add_num (key : list Z) (val : Z) : M Z := stats_add (num_entry key val).
Definition stats_begin_nesting (key : list Z) : M Z := stats_add (nest_entry key).

(** Go on unless the status is an error. *)
Definition then_ok (m k : M Z) : M Z := status ← m; if negb (status =? NC_OK) then mret status else k.

(** buf->data[pos] = ch *)
Definition buf_put (pos ch : Z) : M unit :=
  d ← the_buf; d ← reads (fun _ => put_char d pos ch); modify (st_set_buf_data (Some d)).

Definition stats_end_nesting : M Z :=
  d ← the_buf;
  len ← gets st_buf_len;
  size ← gets st_buf_size;
  let pos := len - 2 in
  ch ← reads (fun _ => rd d pos);
  if ch =? 44 then buf_put pos 125;; buf_put (pos + 1) 44;; mret NC_OK
  else if ch =? 125 then
    if len =? size then mret NC_ERROR
    else buf_put (pos + 1) 125;; buf_put (pos + 2) 44;; modify (st_set_buf_len (u64 (len + 1)));; mret NC_OK
  else mret NC_OK.

Definition stats_add_footer : M Z :=
  len ← gets st_buf_len;
  size ← gets st_buf_size;
  if len =? size then mret NC_ERROR
  else
    let pos := len - 1 in
    buf_put pos 125;; buf_put (pos + 1) 10;; modify (st_set_buf_len (u64 (len + 1)));; mret NC_OK.

Fixpoint stats_copy_metric (metric : list stats_metric) : M Z :=
  match metric with
  | [] => mret NC_OK
  | stm :: metric' => then_ok (stats_add_num (stm_name stm) (stm_value stm)) (stats_copy_metric metric')
  end.

Section Stats.
Context `{env : StatsEnv}.

Definition s_ask {A} (f : nat -> A) : M A := n ← gets st_tick; modify (st_set_tick (S n));; mret (f n).

Definition stats_add_header : M Z :=
  buf_put 0 123;;
  modify (st_set_buf_len 1);;
  cur_ts ← s_ask se_time;
  start ← gets st_start_ts;
  source ← gets st_source;
  version ← gets st_version;
  let uptime := s64 (cur_ts - start) in
  then_ok (stats_add_string (bytes_of "service") (bytes_of "nutcracker")) (
  then_ok (stats_add_string (bytes_of "source") source) (
  then_ok (stats_add_string (bytes_of "version") version) (
  then_ok (stats_add_num (bytes_of "uptime") uptime) (
  then_ok (stats_add_num (bytes_of "pid") se_pid) (
  then_ok (stats_add_num (bytes_of "timestamp") cur_ts) (
  then_ok (n ← s_ask se_ntotal_conn; stats_add_num (bytes_of "total_connections") (s64 n)) (
  then_ok (n ← s_ask se_ncurr_conn; stats_add_num (bytes_of "curr_connections") n) (mret NC_OK)))))))).

Fixpoint stats_copy_servers (servers : list stats_server) : M Z :=
  match servers with
  | [] => mret NC_OK
  | sts :: servers' =>
      then_ok (stats_begin_nesting (sts_name sts)) (
      then_ok (stats_copy_metric (sts_metric sts)) (
      then_ok stats_end_nesting (stats_copy_servers servers')))
  end.

Fixpoint stats_copy_pools (pools : list stats_pool) : M Z :=
  match pools with
  | [] => mret NC_OK
  | stp :: pools' =>
      then_ok (stats_begin_nesting (stp_name stp)) (
      then_ok (stats_copy_metric (stp_metric stp)) (
      then_ok (stats_copy_servers (stp_server stp)) (
      then_ok stats_end_nesting (stats_copy_pools pools'))))
  end.

Definition stats_make_rsp : M Z :=
  then_ok stats_add_header (sum ← gets st_sum; then_ok (stats_copy_pools sum) (then_ok stats_add_footer (mret NC_OK))).

(** The status and what was sent, if it was. *)
Definition stats_send_rsp : M (Z * option (list Z)) :=
  status ← stats_make_rsp;
  if negb (status =? NC_OK) then mret (status, None)
  else
    sd ← s_ask se_accept;
    if sd <? 0 then mret (NC_ERROR, None)
    else
      d ← the_buf;
      len ← gets st_buf_len;
      n ← s_ask se_sendn;
      if n <? 0 then mret (NC_ERROR, None) else mret (NC_OK, Some (take (Z.to_nat len) d)).

(** [n] is what epoll_wait(2) returned. *)
Definition stats_loop_callback (n : Z) : M (option (list Z)) :=
  stats_aggregate;;
  if n =? 0 then mret None else x ← stats_send_rsp; mret x.2.

(** ** Set-up *)

Definition s_alloc (size : Z) : M bool := n ← gets st_tick; modify (st_set_tick (S n));; mret (se_ok n size).

(** The status and the array. *)
Definition stats_pool_metric_init : M (Z * list stats_metric) :=
  ok ← s_alloc (zlen stats_pool_codec * SIZEOF_STATS_METRIC);
  mret (if (ok : bool) then (NC_OK, map stats_metric_init stats_pool_codec) else (NC_ENOMEM, [])).
Definition stats_server_metric_init : M (Z * list stats_metric) :=
  ok ← s_alloc (zlen stats_server_codec * SIZEOF_STATS_METRIC);
  mret (if (ok : bool) then (NC_OK, map stats_metric_init stats_server_codec) else (NC_ENOMEM, [])).

Definition stats_server_init (name : list Z) : M (Z * stats_server) :=
  x ← stats_server_metric_init; mret (x.1, mk_sts name x.2).

(** The loop of stats_server_map, behind [done]. *)
Fixpoint server_map_loop (servers : list (list Z)) (done : list stats_server) : M (Z * list stats_server) :=
  match servers with
  | [] => mret (NC_OK, done)
  | s :: servers' =>
      x ← stats_server_init s;
      let done := done ++ [x.2] in
      if negb (x.1 =? NC_OK) then mret (x.1, done) else server_map_loop servers' done
  end.
Definition stats_server_map (servers : list (list Z)) : M (Z * list stats_server) :=
  ok ← s_alloc (zlen servers * SIZEOF_STATS_SERVER);
  if negb ok then mret (NC_ENOMEM, []) else server_map_loop servers [].

(** A pool: its name and those of its servers. *)
Definition stats_pool_init (name : list Z) (servers : list (list Z)) : M (Z * stats_pool) :=
  x ← stats_pool_metric_init;
  if negb (x.1 =? NC_OK) then mret (x.1, mk_stp name x.2 [])
  else
    y ← stats_server_map servers;
    if negb (y.1 =? NC_OK) then mret (y.1, mk_stp name [] y.2) else mret (NC_OK, mk_stp name x.2 y.2).

Fixpoint pool_map_loop (pools : list (list Z * list (list Z))) (done : list stats_pool) : M (Z * list stats_pool) :=
  match pools with
  | [] => mret (NC_OK, done)
  | sp :: pools' =>
      x ← stats_pool_init sp.1 sp.2;
      let done := done ++ [x.2] in
      if negb (x.1 =? NC_OK) then mret (x.1, done) else pool_map_loop pools' done
  end.
Definition stats_pool_map (pools : list (list Z * list (list Z))) : M (Z * list stats_pool) :=
  ok ← s_alloc (zlen pools * SIZEOF_STATS_POOL);
  if negb ok then mret (NC_ENOMEM, []) else pool_map_loop pools [].

(** The size stats_create_buf counts. *)
Definition int64_max_digits : Z := 20.
Definition key_value_extra : Z := 8.
Definition pool_extra : Z := 8.
Definition server_extra : Z := 8.

Definition num_size (name : list Z) : Z := zlen name + int64_max_digits + key_value_extra.
Definition metrics_size (metric : list stats_metric) : Z := foldr (fun stm size => num_size (stm_name stm) + size) 0 metric.
Definition servers_size (servers : list stats_server) : Z :=
  foldr (fun sts size => zlen (sts_name sts) + server_extra + metrics_size (sts_metric sts) + size) 0 servers.
Definition pools_size (pools : list stats_pool) : Z :=
  foldr (fun stp size => zlen (stp_name stp) + pool_extra + metrics_size (stp_metric stp) + servers_size (stp_server stp) + size) 0 pools.
Definition header_size (source version : list Z) : Z :=
  1 + (zlen (bytes_of "service") + zlen (bytes_of "nutcracker") + key_value_extra) + (zlen (bytes_of "source") + zlen source + key_value_extra) +
  (zlen (bytes_of "version") + zlen version + key_value_extra) + num_size (bytes_of "uptime") + num_size (bytes_of "pid") + num_size (bytes_of "timestamp") +
  num_size (bytes_of "total_connections") + num_size (bytes_of "curr_connections").
Definition NC_ALIGN (d n : Z) : Z := Z.ldiff (d + (n - 1)) (n - 1).
Definition NC_ALIGNMENT : Z := 8.

(** The size of the buffer. *)
Definition buf_size (source version : list Z) (l : list stats_pool) : Z := u64 (NC_ALIGN (header_size source version + pools_size l + 2) NC_ALIGNMENT).

(** [junk] is what the new block holds. *)
Definition stats_create_buf (junk : Z -> list Z) : M Z :=
  st ← gets id;
  let size := buf_size (st_source st) (st_version st) (st_sum st) in
  ok ← s_alloc size;
  if negb ok then mret NC_ENOMEM
  else modify (st_set_buf_data (Some (junk size)));; modify (st_set_buf_size size);; mret NC_OK.

Definition stats_destroy_buf : M unit :=
  size ← gets st_buf_size;
  when (negb (size =? 0)) (modify (st_set_buf_data None);; modify (st_set_buf_size 0)).

Definition stats_listen : M Z :=
  status ← s_ask se_resolve;
  if status <? 0 then mret status
  else
    sd ← s_ask se_socket;
    modify (st_set_sd sd);;
    if sd <? 0 then mret NC_ERROR
    else
      status ← s_ask se_reuseaddr;
      if status <? 0 then mret NC_ERROR
      else
        status ← s_ask se_bind;
        if status <? 0 then mret NC_ERROR
        else
          status ← s_ask se_listen;
          mret (if status <? 0 then NC_ERROR else NC_OK).

Definition stats_start_aggregator : M Z :=
  status ← stats_listen;
  if negb (status =? NC_OK) then mret status
  else
    status ← s_ask se_thread;
    mret (if status <? 0 then NC_ERROR else NC_OK).

(** for (i = 0; i < n; i++) f(array_pop(a)) *)
Fixpoint pop_each {A} (f : A -> option unit) (n : nat) (l : list A) : option (list A) :=
  match n with
  | O => Some l
  | S n' => match list.last l with None => None | Some x => match f x with None => None | Some _ => pop_each f n' (removelast l) end end
  end.

(** The array left to array_deinit. *)
Definition stats_metric_deinit (metric : list stats_metric) : option (list stats_metric) := pop_each (fun _ => Some tt) (length metric) metric.
Definition stats_server_unmap (servers : list stats_server) : option (list stats_server) :=
  pop_each (fun sts => (fun _ => tt) <$> stats_metric_deinit (sts_metric sts)) (length servers) servers.
Definition stats_pool_unmap (pools : list stats_pool) : option (list stats_pool) :=
  pop_each (fun stp => match stats_metric_deinit (stp_metric stp) with None => None | Some _ => (fun _ => tt) <$> stats_server_unmap (stp_server stp) end) (length pools) pools.

(** Behind the close of the socket. *)
Definition stats_destroy : M unit :=
  l ← reads (fun st => stats_pool_unmap (st_sum st));
  modify (st_set_sum l);;
  l ← reads (fun st => stats_pool_unmap (st_shadow st));
  modify (st_set_shadow l);;
  l ← reads (fun st => stats_pool_unmap (st_current st));
  modify (st_set_current l);;
  stats_destroy_buf.

Definition stats_setup (junk : Z -> list Z) (pools : list (list Z * list (list Z))) : M Z :=
  then_ok (x ← stats_pool_map pools; modify (st_set_current x.2);; mret x.1) (
  then_ok (x ← stats_pool_map pools; modify (st_set_shadow x.2);; mret x.1) (
  then_ok (x ← stats_pool_map pools; modify (st_set_sum x.2);; mret x.1) (
  then_ok (stats_create_buf junk) (
  then_ok stats_start_aggregator (mret NC_OK))))).

(** The struct, or NULL. *)
Definition stats_create (tick : nat) (junk : Z -> list Z) (source version : list Z) (pools : list (list Z * list (list Z))) : option (option stats) :=
  if negb (se_ok tick 0) then Some None
  else
    let st := mk_stats (se_time (tick + 1)) 0 None 0 [] [] [] (-1) source version false false (tick + 2) in
    match stats_setup junk pools st with
    | None => None
    | Some (status, st) =>
        if status =? NC_OK then Some (Some st) else match stats_destroy st with None => None | Some _ => Some None end
    end.

End Stats.
