(* ===== verification/StatsShape.v ===== *)
(** The metrics of a pool array by their address, and the shape of an array:
    its names and types, which no operation of nc_stats.c changes. *)

From S2P Require Import Prelude State CString Stats.

(** ** Addresses *)

(** A metric of a pool, or of a server of a pool. *)
Record maddr := mk_maddr { ma_pool : nat; ma_server : option nat; ma_field : nat }.

#[export] Instance maddr_eq_dec : EqDecision maddr.
Proof. solve_decision. Defined.

Definition metric_at (l : list stats_pool) (a : maddr) : option stats_metric :=
  stp ← l !! ma_pool a;
  match ma_server a with
  | None => stp_metric stp !! ma_field a
  | Some s => sts ← stp_server stp !! s; sts_metric sts !! ma_field a
  end.

Definition metric_upd (a : maddr) (f : stats_metric -> stats_metric) (l : list stats_pool) : list stats_pool :=
  alter (fun stp =>
    match ma_server a with
    | None => stp_set_metric (alter f (ma_field a) (stp_metric stp)) stp
    | Some s => stp_set_server (alter (fun sts => sts_set_metric (alter f (ma_field a) (sts_metric sts)) sts) s (stp_server stp)) stp
    end) (ma_pool a) l.

Lemma metric_at_upd a f l : metric_at (metric_upd a f l) a = f <$> metric_at l a.
Proof.
  unfold metric_at, metric_upd. rewrite list_lookup_alter_eq. destruct (l !! ma_pool a) as [stp|]; [|done]. simpl.
  destruct (ma_server a) as [s|]; simpl; rewrite list_lookup_alter_eq; [|done].
  destruct (stp_server stp !! s) as [sts|]; [|done]. simpl. by rewrite list_lookup_alter_eq.
Qed.

Lemma metric_at_upd_ne a b f l : a <> b -> metric_at (metric_upd a f l) b = metric_at l b.
Proof.
  intros Hab. unfold metric_at, metric_upd. destruct (decide (ma_pool a = ma_pool b)) as [E|E]; [|by rewrite list_lookup_alter_ne].
  rewrite E, list_lookup_alter_eq. destruct (l !! ma_pool b) as [stp|]; [|done]. simpl.
  destruct a as [p [s|] k], b as [p' [s'|] k']; simpl in *; subst p'; try done.
  - destruct (decide (s = s')) as [->|Hs]; [|by rewrite list_lookup_alter_ne].
    rewrite list_lookup_alter_eq. destruct (stp_server stp !! s') as [sts|]; [|done]. simpl. rewrite list_lookup_alter_ne; [done|congruence].
  - rewrite list_lookup_alter_ne; [done|congruence].
Qed.

Lemma metric_at_reset l a : metric_at (stats_pool_reset l) a = stats_metric_init <$> metric_at l a.
Proof.
  unfold metric_at, stats_pool_reset, stats_metric_reset. rewrite list_lookup_fmap. destruct (l !! ma_pool a) as [stp|]; [|done]. simpl.
  destruct (ma_server a) as [s|]; [|apply list_lookup_fmap]. rewrite list_lookup_fmap.
  destruct (stp_server stp !! s) as [sts|]; [|done]. apply list_lookup_fmap.
Qed.

(** Every metric of an array, in the order stats_aggregate visits them. *)
Definition pool_addrs (p : nat) (stp : stats_pool) : list maddr :=
  map (mk_maddr p None) (seq 0 (length (stp_metric stp))) ++
  concat (imap (fun s sts => map (mk_maddr p (Some s)) (seq 0 (length (sts_metric sts)))) (stp_server stp)).
Definition all_addrs (l : list stats_pool) : list maddr := concat (imap pool_addrs l).

Lemma elem_of_concat_imap {A B} (f : nat -> A -> list B) l x : x ∈ concat (imap f l) <-> exists i y, l !! i = Some y /\ x ∈ f i y.
Proof.
  rewrite list_elem_of_In, in_concat. setoid_rewrite <- list_elem_of_In. split.
  - intros (k & Hk & Hx). apply list_elem_of_lookup_1 in Hk as [i Hi]. rewrite list_lookup_imap in Hi.
    destruct (l !! i) as [y|] eqn:Ey; [|done]. simpl in Hi. injection Hi as <-. eauto.
  - intros (i & y & Hi & Hx). exists (f i y). split; [|done]. apply (list_elem_of_lookup_2 _ i). by rewrite list_lookup_imap, Hi.
Qed.

Lemma elem_of_fields {B} (g : nat -> B) n x : x ∈ map g (seq 0 n) <-> exists k, (k < n)%nat /\ x = g k.
Proof.
  rewrite list_elem_of_fmap. setoid_rewrite elem_of_seq. split; [intros (k & -> & Hk); exists k; split; [lia|done]|intros (k & Hk & ->); exists k; split; [done|lia]].
Qed.

(** They are the addresses that hold a metric. *)
Lemma elem_of_all_addrs l a : a ∈ all_addrs l <-> is_Some (metric_at l a).
Proof.
  unfold all_addrs, metric_at. rewrite elem_of_concat_imap. destruct a as [p s k]. simpl. split.
  - intros (i & stp & Hi & Ha). unfold pool_addrs in Ha. rewrite elem_of_app, elem_of_fields, elem_of_concat_imap in Ha.
    destruct Ha as [(j & Hj & E)|(i' & sts & Hs & Ha)]; [injection E as -> -> ->; rewrite Hi; simpl; by apply lookup_lt_is_Some_2|].
    apply elem_of_fields in Ha as (j & Hj & E). injection E as -> -> ->. rewrite Hi. simpl. rewrite Hs. simpl. by apply lookup_lt_is_Some_2.
  - destruct (l !! p) as [stp|] eqn:Hp; [|by intros [? ?]]. simpl. intros H. exists p, stp. split; [done|].
    unfold pool_addrs. rewrite elem_of_app, elem_of_fields, elem_of_concat_imap. destruct s as [s|].
    + destruct (stp_server stp !! s) as [sts|] eqn:Hs; [|by destruct H]. simpl in H. right. exists s, sts. split; [done|].
      apply elem_of_fields. exists k. split; [by apply lookup_lt_is_Some_1|done].
    + left. exists k. split; [by apply lookup_lt_is_Some_1|done].
Qed.

(** ** Shapes *)

(** Resetting an array leaves its shape and nothing else. *)
Definition same_shape (l1 l2 : list stats_pool) : Prop := stats_pool_reset l1 = stats_pool_reset l2.

#[export] Instance same_shape_equiv : Equivalence same_shape.
Proof. unfold same_shape. split; repeat intro; congruence. Qed.

Lemma init_idem m : stats_metric_init (stats_metric_init m) = stats_metric_init m.
Proof. done. Qed.

Lemma reset_same_shape l : same_shape (stats_pool_reset l) l.
Proof.
  unfold same_shape, stats_pool_reset, stats_metric_reset. rewrite map_map. apply map_ext. intros stp. simpl. f_equal.
  - rewrite map_map. by apply map_ext.
  - rewrite map_map. apply map_ext. intros sts. simpl. unfold sts_set_metric. simpl. f_equal. rewrite map_map. by apply map_ext.
Qed.

Lemma map_eq_Forall2 {A B} (s : A -> B) l1 : forall l2, map s l1 = map s l2 <-> Forall2 (fun x y => s x = s y) l1 l2.
Proof.
  induction l1 as [|x l1 IH]; intros [|y l2]; simpl; split; intros H; try done; try by inversion H.
  - injection H as Hx H. constructor; [done|by apply IH].
  - apply Forall2_cons_1 in H as [Hx H]. f_equal; [done|by apply IH].
Qed.

Lemma map_alter_same {A B} (s : A -> B) f i l : (forall x, s (f x) = s x) -> map s (alter f i l) = map s l.
Proof.
  intros Hf. apply list_eq. intros j. rewrite !list_lookup_fmap. destruct (decide (i = j)) as [->|Hij]; [|by rewrite list_lookup_alter_ne].
  rewrite list_lookup_alter_eq. destruct (l !! j); simpl; by rewrite ?Hf.
Qed.

Lemma upd_same_shape a f l : (forall m, stats_metric_init (f m) = stats_metric_init m) -> same_shape (metric_upd a f l) l.
Proof.
  intros Hf. unfold same_shape, stats_pool_reset, metric_upd. apply map_alter_same. intros stp.
  destruct (ma_server a) as [s|]; simpl; f_equal; [|by apply map_alter_same].
  apply map_alter_same. intros sts. unfold sts_set_metric, stats_metric_reset. simpl. by rewrite map_alter_same.
Qed.

Lemma same_shape_at l1 l2 a m1 : same_shape l1 l2 -> metric_at l1 a = Some m1 ->
  exists m2, metric_at l2 a = Some m2 /\ stm_type m2 = stm_type m1 /\ stm_name m2 = stm_name m1.
Proof.
  intros Hs H1. assert (H : stats_metric_init <$> metric_at l1 a = stats_metric_init <$> metric_at l2 a) by by rewrite <- !metric_at_reset, Hs.
  rewrite H1 in H. destruct (metric_at l2 a) as [m2|]; [|done]. exists m2. unfold stats_metric_init, stm_set_value in H. simpl in H. injection H as H H'. by rewrite H, H'.
Qed.

(** An array is its shape and its metrics. *)
Lemma same_shape_ext l1 l2 : same_shape l1 l2 -> (forall a, metric_at l1 a = metric_at l2 a) -> l1 = l2.
Proof.
  intros Hs Ha. apply list_eq. intros p.
  assert (Hp : forall q, stats_pool_reset l1 !! q = stats_pool_reset l2 !! q) by by rewrite Hs.
  specialize (Hp p). unfold stats_pool_reset in Hp. rewrite !list_lookup_fmap in Hp.
  pose proof (fun s k => Ha (mk_maddr p s k)) as Ha'. unfold metric_at in Ha'. simpl in Ha'.
  destruct (l1 !! p) as [[n1 m1 s1]|], (l2 !! p) as [[n2 m2 s2]|]; try done. simpl in *. injection Hp as -> _ Hsv. do 2 f_equal.
  - apply list_eq. intros k. exact (Ha' None k).
  - apply list_eq. intros s. pose proof (fun k => Ha' (Some s) k) as Hk. simpl in Hk.
    assert (Hq : map (fun sts => sts_set_metric (stats_metric_reset (sts_metric sts)) sts) s1 !! s = map (fun sts => sts_set_metric (stats_metric_reset (sts_metric sts)) sts) s2 !! s) by by rewrite Hsv.
    rewrite !list_lookup_fmap in Hq. destruct (s1 !! s) as [[sn1 sm1]|], (s2 !! s) as [[sn2 sm2]|]; try done. simpl in *.
    unfold sts_set_metric in Hq. simpl in Hq. injection Hq as -> _. do 2 f_equal. apply list_eq. exact Hk.
Qed.

(** ** Aggregation *)

Definition zip_server (sts2 sts1 : stats_server) : stats_server := sts_set_metric (zip_with merge_metric (sts_metric sts2) (sts_metric sts1)) sts2.
Definition zip_pool (stp2 stp1 : stats_pool) : stats_pool :=
  mk_stp (stp_name stp2) (zip_with merge_metric (stp_metric stp2) (stp_metric stp1)) (zip_with zip_server (stp_server stp2) (stp_server stp1)).

Lemma merge_lists_zip {A} (f : A -> A -> option A) (g : A -> A -> A) dst src :
  Forall2 (fun x2 x1 => f x2 x1 = Some (g x2 x1)) dst src -> merge_lists f dst src = Some (zip_with g dst src).
Proof. induction 1 as [|x2 x1 dst src Hf _ IH]; [done|]. simpl. by rewrite Hf, IH. Qed.

Lemma metrics_zip k2 k1 : stats_metric_reset k2 = stats_metric_reset k1 -> stats_aggregate_metric k2 k1 = Some (zip_with merge_metric k2 k1).
Proof.
  intros H. apply map_eq_Forall2 in H. unfold stats_aggregate_metric. apply merge_lists_zip. by eapply Forall2_impl; [|exact H].
Qed.

Lemma server_zip sts2 sts1 : sts_set_metric (stats_metric_reset (sts_metric sts2)) sts2 = sts_set_metric (stats_metric_reset (sts_metric sts1)) sts1 ->
  aggregate_server sts2 sts1 = Some (zip_server sts2 sts1).
Proof. intros H. unfold sts_set_metric in H. injection H as _ H. unfold aggregate_server. by rewrite (metrics_zip _ _ H). Qed.

Lemma pools_zip l2 l1 : same_shape l2 l1 -> merge_lists aggregate_pool l2 l1 = Some (zip_with zip_pool l2 l1).
Proof.
  intros H. apply map_eq_Forall2 in H. apply merge_lists_zip. eapply Forall2_impl; [|exact H].
  intros stp2 stp1 E. simpl in E. injection E as _ Hm Hs. unfold aggregate_pool. rewrite (metrics_zip _ _ Hm).
  rewrite (merge_lists_zip aggregate_server zip_server); [done|]. apply map_eq_Forall2 in Hs. eapply Forall2_impl; [|exact Hs]. intros ? ?. apply server_zip.
Qed.

Lemma zip_reset k2 k1 : length k2 = length k1 -> stats_metric_reset (zip_with merge_metric k2 k1) = stats_metric_reset k2.
Proof. revert k1. induction k2 as [|x k2 IH]; intros [|y k1] H; simpl in *; try done. f_equal. apply IH. lia. Qed.

Lemma map_zip_same {A B} (s : A -> B) (g : A -> A -> A) l2 l1 : Forall2 (fun x2 x1 => s (g x2 x1) = s x2) l2 l1 -> map s (zip_with g l2 l1) = map s l2.
Proof. induction 1 as [|x y l2 l1 E _ IH]; [done|]. simpl. by rewrite E, IH. Qed.

Lemma map_eq_length {A B} (s : A -> B) l1 l2 : map s l1 = map s l2 -> length l1 = length l2.
Proof. intros H. rewrite <- (length_map s l1), H. apply length_map. Qed.

Lemma zip_same_shape l2 l1 : same_shape l2 l1 -> same_shape (zip_with zip_pool l2 l1) l2.
Proof.
  intros H. apply map_eq_Forall2 in H. apply map_zip_same. eapply Forall2_impl; [|exact H].
  intros stp2 stp1 E. simpl in E. injection E as _ Hm Hs. unfold zip_pool. simpl. f_equal; [by apply zip_reset, (map_eq_length stats_metric_init)|].
  apply map_zip_same. apply map_eq_Forall2 in Hs. eapply Forall2_impl; [|exact Hs].
  intros sts2 sts1 E'. unfold sts_set_metric in E'. injection E' as _ E'. unfold zip_server, sts_set_metric. simpl. f_equal. by apply zip_reset, (map_eq_length stats_metric_init).
Qed.

Lemma metric_at_zip l2 l1 a : metric_at (zip_with zip_pool l2 l1) a = (m2 ← metric_at l2 a; m1 ← metric_at l1 a; Some (merge_metric m2 m1)).
Proof.
  unfold metric_at. rewrite lookup_zip_with. destruct (l2 !! ma_pool a) as [stp2|]; simpl; [|done].
  destruct (l1 !! ma_pool a) as [stp1|]; simpl.
  - destruct (ma_server a) as [s|]; [|apply lookup_zip_with]. rewrite lookup_zip_with.
    destruct (stp_server stp2 !! s) as [sts2|]; simpl; [|done]. destruct (stp_server stp1 !! s) as [sts1|]; simpl; [apply lookup_zip_with|by destruct (_ !! _)].
  - destruct (match ma_server a with Some _ => _ | None => _ end); done.
Qed.

(** ** The operations of a metric *)

Lemma alter_at_nat {A} (f : A -> option A) i l : alter_at f (Z.of_nat i) l = (x ← l !! i; y ← f x; Some (<[i := y]> l)).
Proof.
  unfold alter_at, rd. rewrite (proj2 (Z.leb_le 0 _)) by lia. rewrite Nat2Z.id. destruct (l !! i) as [x|]; [|done]. simpl. by destruct (f x).
Qed.

Lemma alter_insert {A} (f : A -> A) (i : nat) (l : list A) x : l !! i = Some x -> alter f i l = <[i := f x]> l.
Proof. revert i. induction l as [|y l IH]; intros [|i] H; simpl in *; [done..|by injection H as ->|]. change (y :: alter f i l = y :: <[i:=f x]> l). by rewrite (IH i H). Qed.

Definition pool_addr (p k : nat) : maddr := mk_maddr p None k.
Definition server_addr (p s k : nat) : maddr := mk_maddr p (Some s) k.

Lemma pool_to_metric_upd p k f st : stats_pool_to_metric (Z.of_nat p) (Z.of_nat k) f st =
  match metric_at (st_current st) (pool_addr p k) with
  | Some _ => Some (tt, st_set_current (metric_upd (pool_addr p k) f (st_current st)) (st_set_updated true st))
  | None => None
  end.
Proof.
  unfold stats_pool_to_metric, metric_at, metric_upd, pool_addr, mbind, ST_bind, reads. simpl. rewrite alter_at_nat.
  destruct (st_current st !! p) as [stp|] eqn:Ep; simpl; [|done]. rewrite alter_at_nat.
  destruct (stp_metric stp !! k) as [stm|] eqn:Ek; simpl; [|done]. by rewrite (alter_insert _ p _ stp), (alter_insert _ k _ stm).
Qed.

Lemma server_to_metric_upd p s k f st : stats_server_to_metric (Z.of_nat p) (Z.of_nat s) (Z.of_nat k) f st =
  match metric_at (st_current st) (server_addr p s k) with
  | Some _ => Some (tt, st_set_current (metric_upd (server_addr p s k) f (st_current st)) (st_set_updated true st))
  | None => None
  end.
Proof.
  unfold stats_server_to_metric, metric_at, metric_upd, server_addr, mbind, ST_bind, reads. simpl. rewrite alter_at_nat.
  destruct (st_current st !! p) as [stp|] eqn:Ep; simpl; [|done]. rewrite alter_at_nat.
  destruct (stp_server stp !! s) as [sts|] eqn:Es; simpl; [|done]. rewrite alter_at_nat.
  destruct (sts_metric sts !! k) as [stm|] eqn:Ek; simpl; [|done].
  by rewrite (alter_insert _ p _ stp), (alter_insert _ s _ sts), (alter_insert _ k _ stm).
Qed.

(** ** A new struct stats *)

Definition fresh_server (name : list Z) : stats_server := mk_sts name stats_server_codec.
Definition fresh_pool (sp : list Z * list (list Z)) : stats_pool := mk_stp sp.1 stats_pool_codec (map fresh_server sp.2).
Definition fresh_pools (pools : list (list Z * list (list Z))) : list stats_pool := map fresh_pool pools.

Lemma fresh_zero pools : stats_pool_reset (fresh_pools pools) = fresh_pools pools.
Proof.
  unfold stats_pool_reset, fresh_pools. rewrite map_map. apply map_ext. intros sp. unfold fresh_pool. simpl. f_equal.
  rewrite map_map. by apply map_ext.
Qed.

Section Create.
Context `{env : StatsEnv}.

(** A computation of the set-up asks questions and leaves the rest alone. *)
Definition only_tick (st st' : stats) : Prop := exists n, st' = st_set_tick n st.

Lemma only_tick_trans st1 st2 st3 : only_tick st1 st2 -> only_tick st2 st3 -> only_tick st1 st3.
Proof. intros [n ->] [k ->]. by exists k. Qed.

Lemma server_init_fresh name st x st' : stats_server_init name st = Some (x, st') ->
  only_tick st st' /\ (x.1 = NC_OK -> x.2 = fresh_server name).
Proof.
  unfold stats_server_init, stats_server_metric_init, s_alloc, mbind, ST_bind. simpl. intros [= <- <-].
  split; [by eexists|]. destruct (se_ok _ _); [done|]. by intros [=].
Qed.

Lemma server_loop_fresh names : forall done st x st', server_map_loop names done st = Some (x, st') ->
  only_tick st st' /\ (x.1 = NC_OK -> x.2 = done ++ map fresh_server names).
Proof.
  induction names as [|s names IH]; intros done st x st' H.
  - injection H as <- <-. split; [by exists (st_tick st); destruct st|]. intros _. by rewrite app_nil_r.
  - cbn [server_map_loop] in H. unfold mbind, ST_bind in H. destruct (stats_server_init s st) as [[y st1]|] eqn:E; [|done].
    apply server_init_fresh in E as [Ht Hy]. destruct (Z.eqb_spec y.1 NC_OK) as [Ey|Ey]; simpl in H.
    + apply IH in H as [Ht' Hx]. split; [by eapply only_tick_trans|]. intros Ex. by rewrite (Hx Ex), Hy, <- app_assoc.
    + injection H as <- <-. done.
Qed.

Lemma server_map_fresh names st x st' : stats_server_map names st = Some (x, st') ->
  only_tick st st' /\ (x.1 = NC_OK -> x.2 = map fresh_server names).
Proof.
  unfold stats_server_map, s_alloc, mbind, ST_bind. simpl. destruct (se_ok _ _); simpl.
  - intros H. apply server_loop_fresh in H as [Ht Hx]. split; [|done]. eapply only_tick_trans; [|exact Ht]. by eexists.
  - intros [= <- <-]. split; [by eexists|]. by intros [=].
Qed.

Lemma pool_init_fresh sp st x st' : stats_pool_init sp.1 sp.2 st = Some (x, st') ->
  only_tick st st' /\ (x.1 = NC_OK -> x.2 = fresh_pool sp).
Proof.
  unfold stats_pool_init, stats_pool_metric_init, s_alloc, mbind, ST_bind. simpl. destruct (se_ok _ _); simpl.
  - destruct (stats_server_map _ _) as [[y st1]|] eqn:E; [|done]. apply server_map_fresh in E as [Ht Hy].
    assert (Ht' : only_tick st st1) by (eapply only_tick_trans; [|exact Ht]; by eexists).
    destruct (Z.eqb_spec y.1 NC_OK) as [Ey|Ey]; simpl; intros [= <- <-]; (split; [done|]); simpl; intros Ex; [|done].
    by rewrite (Hy Ey).
  - intros [= <- <-]. split; [by eexists|]. by intros [=].
Qed.

Lemma pool_loop_fresh pools : forall done st x st', pool_map_loop pools done st = Some (x, st') ->
  only_tick st st' /\ (x.1 = NC_OK -> x.2 = done ++ fresh_pools pools).
Proof.
  induction pools as [|s pools IH]; intros done st x st' H.
  - injection H as <- <-. split; [by exists (st_tick st); destruct st|]. intros _. by rewrite app_nil_r.
  - cbn [pool_map_loop] in H. unfold mbind, ST_bind in H. destruct (stats_pool_init s.1 s.2 st) as [[y st1]|] eqn:E; [|done].
    apply pool_init_fresh in E as [Ht Hy]. destruct (Z.eqb_spec y.1 NC_OK) as [Ey|Ey]; simpl in H.
    + apply IH in H as [Ht' Hx]. split; [by eapply only_tick_trans|]. intros Ex. rewrite (Hx Ex), Hy by done. by rewrite <- app_assoc.
    + injection H as <- <-. done.
Qed.

Lemma pool_map_fresh pools st x st' : stats_pool_map pools st = Some (x, st') ->
  only_tick st st' /\ (x.1 = NC_OK -> x.2 = fresh_pools pools).
Proof.
  unfold stats_pool_map, s_alloc, mbind, ST_bind. simpl. destruct (se_ok _ _); simpl.
  - intros H. apply pool_loop_fresh in H as [Ht Hx]. split; [|done]. eapply only_tick_trans; [|exact Ht]. by eexists.
  - intros [= <- <-]. split; [by eexists|]. by intros [=].
Qed.

Lemma then_ok_inv (m k : M Z) st st' : then_ok m k st = Some (NC_OK, st') -> exists st1, m st = Some (NC_OK, st1) /\ k st1 = Some (NC_OK, st').
Proof.
  unfold then_ok, mbind, ST_bind. destruct (m st) as [[s st1]|]; [|done]. destruct (Z.eqb_spec s NC_OK) as [->|E]; simpl; [eauto|].
  intros [= -> ->]. done.
Qed.

Record fresh_stats (junk : Z -> list Z) (source version : list Z) (pools : list (list Z * list (list Z))) (st : stats) : Prop := {
  fs_current : st_current st = fresh_pools pools;
  fs_shadow : st_shadow st = fresh_pools pools;
  fs_sum : st_sum st = fresh_pools pools;
  fs_source : st_source st = source;
  fs_version : st_version st = version;
  fs_aggregate : st_aggregate st = false;
  fs_updated : st_updated st = false;
  fs_size : st_buf_size st = buf_size source version (fresh_pools pools);
  fs_data : st_buf_data st = Some (junk (st_buf_size st))
}.

Lemma map_step_inv pools (set : list stats_pool -> stats -> stats) st st' :
  (x ← stats_pool_map pools; modify (set x.2);; mret x.1) st = Some (NC_OK, st') ->
  exists n, st' = set (fresh_pools pools) (st_set_tick n st).
Proof.
  unfold mbind, ST_bind. destruct (stats_pool_map pools st) as [[x st1]|] eqn:E; [|done]. simpl. intros [= Hx <-].
  apply pool_map_fresh in E as [[n ->] Hp]. exists n. by rewrite (Hp Hx).
Qed.

Lemma create_buf_inv junk st st' : stats_create_buf junk st = Some (NC_OK, st') ->
  exists n size, size = buf_size (st_source st) (st_version st) (st_sum st) /\ st' = st_set_buf_size size (st_set_buf_data (Some (junk size)) (st_set_tick n st)).
Proof.
  unfold stats_create_buf, s_alloc, mbind, ST_bind, gets. cbv beta iota. remember (buf_size (st_source st) (st_version st) (st_sum st)) as size eqn:Hs.
  simpl. rewrite <- Hs. destruct (se_ok _ _); simpl; intros [= <-]. by exists (S (st_tick st)), size.
Qed.

(** A computation of the set-up that ends, and may set the socket. *)
Definition only_sd (st st' : stats) : Prop := exists n sd, st' = st_set_tick n (st_set_sd sd st).

Lemma listen_inv st : exists x st', stats_listen st = Some (x, st') /\ only_sd st st'.
Proof.
  unfold stats_listen, s_ask, mbind, ST_bind. simpl.
  repeat (destruct (_ <? 0); simpl; [do 2 eexists; (split; [reflexivity|]); by do 2 eexists|]). do 2 eexists. split; [reflexivity|]. by do 2 eexists.
Qed.

Lemma start_aggregator_ends st : exists x st', stats_start_aggregator st = Some (x, st') /\ only_sd st st'.
Proof.
  destruct (listen_inv st) as (s & st1 & E & n & sd & ->). unfold stats_start_aggregator, s_ask, mbind, ST_bind. rewrite E.
  destruct (negb _); do 2 eexists; (split; [reflexivity|]); by do 2 eexists.
Qed.

Lemma create_fresh tick junk source version pools st : stats_create tick junk source version pools = Some (Some st) -> fresh_stats junk source version pools st.
Proof.
  unfold stats_create. destruct (negb (se_ok tick 0)); [done|].
  destruct (stats_setup _ _ _) as [[status st']|] eqn:E; [|done].
  destruct (Z.eqb_spec status NC_OK) as [->|_]; [|by destruct (stats_destroy st') as [[? ?]|]]. intros [= ->].
  unfold stats_setup in E.
  apply then_ok_inv in E as (st1 & E1 & E). apply (map_step_inv pools st_set_current) in E1 as [n1 ->].
  apply then_ok_inv in E as (st2 & E2 & E). apply (map_step_inv pools st_set_shadow) in E2 as [n2 ->].
  apply then_ok_inv in E as (st3 & E3 & E). apply (map_step_inv pools st_set_sum) in E3 as [n3 ->].
  apply then_ok_inv in E as (st4 & E4 & E). apply create_buf_inv in E4 as (n4 & size & Hsize & E4).
  apply then_ok_inv in E as (st5 & E5 & E). destruct (start_aggregator_ends st4) as (x5 & s5 & E5' & n5 & sd & ->). rewrite E5' in E5. injection E5 as _ <-. injection E as <-. subst st4. by constructor.
Qed.

(** ** Creation ends *)

Lemma server_loop_ends names : forall done st, exists x st', server_map_loop names done st = Some (x, st').
Proof.
  induction names as [|s names IH]; intros done st; [by do 2 eexists|]. cbn [server_map_loop]. unfold mbind, ST_bind.
  destruct (stats_server_init s st) as [[x st1]|] eqn:E; [|done]. destruct (negb _); [by do 2 eexists|apply IH].
Qed.

Lemma pool_init_ends name names st : exists x st', stats_pool_init name names st = Some (x, st').
Proof.
  unfold stats_pool_init, stats_pool_metric_init, s_alloc, mbind, ST_bind. simpl. destruct (se_ok _ _); simpl; [|by do 2 eexists].
  unfold stats_server_map, s_alloc, mbind, ST_bind. simpl. destruct (se_ok _ _); simpl; [|by do 2 eexists].
  match goal with |- context[server_map_loop ?a ?b ?c] => destruct (server_loop_ends a b c) as (x & st' & ->) end. destruct (negb _); by do 2 eexists.
Qed.

Lemma pool_loop_ends pools : forall done st, exists x st', pool_map_loop pools done st = Some (x, st').
Proof.
  induction pools as [|s pools IH]; intros done st; [by do 2 eexists|]. cbn [pool_map_loop]. unfold mbind, ST_bind.
  destruct (pool_init_ends s.1 s.2 st) as (x & st1 & ->). destruct (negb _); [by do 2 eexists|apply IH].
Qed.

Lemma pool_map_ends pools (set : list stats_pool -> stats -> stats) st : exists x st', (x ← stats_pool_map pools; modify (set x.2);; mret x.1) st = Some (x, st').
Proof.
  unfold stats_pool_map, s_alloc, mbind, ST_bind. simpl. destruct (se_ok _ _); simpl; [|by do 2 eexists].
  match goal with |- context[pool_map_loop ?a ?b ?c] => destruct (pool_loop_ends a b c) as (x & st' & ->) end. by do 2 eexists.
Qed.

Lemma then_ok_ends (m k : M Z) st : (exists x st', m st = Some (x, st')) -> (forall st, exists x st', k st = Some (x, st')) -> exists x st', then_ok m k st = Some (x, st').
Proof. intros (x & st1 & E) Hk. unfold then_ok, mbind, ST_bind. rewrite E. destruct (negb _); [by do 2 eexists|apply Hk]. Qed.

Lemma create_buf_ends junk st : exists x st', stats_create_buf junk st = Some (x, st').
Proof.
  unfold stats_create_buf, s_alloc, mbind, ST_bind, gets. cbv beta iota. destruct (se_ok _ _); by do 2 eexists.
Qed.

Lemma setup_ends junk pools st : exists x st', stats_setup junk pools st = Some (x, st').
Proof.
  unfold stats_setup. apply then_ok_ends; [apply pool_map_ends|]. clear st. intros st. apply then_ok_ends; [apply pool_map_ends|]. clear st. intros st.
  apply then_ok_ends; [apply pool_map_ends|]. clear st. intros st. apply then_ok_ends; [apply create_buf_ends|]. clear st. intros st.
  apply then_ok_ends; [destruct (start_aggregator_ends st) as (x & st' & E & _); eauto|]. by intros; do 2 eexists.
Qed.

(** Popping as many elements as there are empties the array. *)
Lemma pop_each_all {A} (f : A -> option unit) n : forall l, length l = n -> (forall x, is_Some (f x)) -> pop_each f n l = Some [].
Proof.
  induction n as [|n IH]; intros l Hl Hf; [by destruct l|]. cbn [pop_each]. destruct (list.last l) as [x|] eqn:E.
  - destruct (Hf x) as [u ->]. apply IH; [|done]. destruct (exists_last (l := l)) as (l' & y & ->); [by destruct l|]. rewrite removelast_last. rewrite length_app in Hl. simpl in Hl. lia.
  - apply last_None in E. by subst.
Qed.

Lemma metric_deinit_all l : stats_metric_deinit l = Some [].
Proof. by apply pop_each_all. Qed.
Lemma server_unmap_all l : stats_server_unmap l = Some [].
Proof. apply pop_each_all; [done|]. intros sts. rewrite metric_deinit_all. by eexists. Qed.
Lemma pool_unmap_all l : stats_pool_unmap l = Some [].
Proof. apply pop_each_all; [done|]. intros stp. rewrite metric_deinit_all, server_unmap_all. by eexists. Qed.

(** stats_destroy releases the arrays and the buffer, whatever state the
    creation was left in. *)
Lemma destroy_releases st : exists st', stats_destroy st = Some (tt, st') /\ st_sum st' = [] /\ st_shadow st' = [] /\ st_current st' = [] /\ st_buf_size st' = 0.
Proof.
  unfold stats_destroy, stats_destroy_buf, mbind, ST_bind, reads, gets. rewrite pool_unmap_all. simpl. rewrite pool_unmap_all. simpl. rewrite pool_unmap_all. simpl.
  unfold when. destruct (Z.eqb_spec (st_buf_size st) 0) as [E|E]; simpl; eexists; (split; [reflexivity|]); done.
Qed.

Lemma create_ends tick junk source version pools : is_Some (stats_create tick junk source version pools).
Proof.
  unfold stats_create. destruct (negb _); [by eexists|]. match goal with |- context[stats_setup ?a ?b ?c] => destruct (setup_ends a b c) as (x & st & ->) end.
  destruct (_ =? _); [by eexists|]. destruct (destroy_releases st) as (st' & -> & _). by eexists.
Qed.

End Create.
