(* ===== verification/StatsThreads.v ===== *)
(** The two threads that share a struct stats: the event loop counts into
    current and swaps it with shadow, the aggregator adds shadow to sum.

    A step of a thread is one access to what the threads share: a flag, the
    swap of the arrays, one metric of shadow read and added.  The accesses of
    the volatile flags are taken to happen in the order of the program. *)

From stdpp Require Import relations.
From S2P Require Import Prelude State CString Stats StatsShape.

(** ** The calls of the event loop *)

Inductive stats_call :=
  | PoolIncr (p k : nat) | PoolDecr (p k : nat) | PoolIncrBy (p k : nat) (v : Z) | PoolDecrBy (p k : nat) (v : Z) | PoolSetTs (p k : nat) (v : Z)
  | ServerIncr (p s k : nat) | ServerDecr (p s k : nat) | ServerIncrBy (p s k : nat) (v : Z) | ServerDecrBy (p s k : nat) (v : Z) | ServerSetTs (p s k : nat) (v : Z).

Definition do_call (c : stats_call) : M unit :=
  let z := Z.of_nat in
  match c with
  | PoolIncr p k => _stats_pool_incr (z p) (z k)
  | PoolDecr p k => _stats_pool_decr (z p) (z k)
  | PoolIncrBy p k v => _stats_pool_incr_by (z p) (z k) v
  | PoolDecrBy p k v => _stats_pool_decr_by (z p) (z k) v
  | PoolSetTs p k v => _stats_pool_set_ts (z p) (z k) v
  | ServerIncr p s k => _stats_server_incr (z p) (z s) (z k)
  | ServerDecr p s k => _stats_server_decr (z p) (z s) (z k)
  | ServerIncrBy p s k v => _stats_server_incr_by (z p) (z s) (z k) v
  | ServerDecrBy p s k v => _stats_server_decr_by (z p) (z s) (z k) v
  | ServerSetTs p s k v => _stats_server_set_ts (z p) (z s) (z k) v
  end.

Definition call_addr (c : stats_call) : maddr :=
  match c with
  | PoolIncr p k | PoolDecr p k | PoolIncrBy p k _ | PoolDecrBy p k _ | PoolSetTs p k _ => pool_addr p k
  | ServerIncr p s k | ServerDecr p s k | ServerIncrBy p s k _ | ServerDecrBy p s k _ | ServerSetTs p s k _ => server_addr p s k
  end.

(** What a call makes of a metric's value. *)
Definition call_value (c : stats_call) (v : Z) : Z :=
  match c with
  | PoolIncr _ _ | ServerIncr _ _ _ => s64 (v + 1)
  | PoolDecr _ _ | ServerDecr _ _ _ => s64 (v - 1)
  | PoolIncrBy _ _ d | ServerIncrBy _ _ _ d => s64 (v + d)
  | PoolDecrBy _ _ d | ServerDecrBy _ _ _ d => s64 (v - d)
  | PoolSetTs _ _ d | ServerSetTs _ _ _ d => d
  end.

(** The ASSERTs of the calls on the type of the metric; a timestamp is an
    int64_t and not 0, which is how a metric says that it has none. *)
Definition call_allowed (c : stats_call) (t : stats_type) : bool :=
  match c, t with
  | (PoolIncr _ _ | PoolIncrBy _ _ _ | ServerIncr _ _ _ | ServerIncrBy _ _ _ _), (STATS_COUNTER | STATS_GAUGE) => true
  | (PoolDecr _ _ | PoolDecrBy _ _ _ | ServerDecr _ _ _ | ServerDecrBy _ _ _ _), STATS_GAUGE => true
  | (PoolSetTs _ _ v | ServerSetTs _ _ _ v), STATS_TIMESTAMP => negb (v =? 0) && (s64 v =? v)
  | _, _ => false
  end.

Lemma do_call_upd c st : do_call c st =
  match metric_at (st_current st) (call_addr c) with
  | Some _ => Some (tt, st_set_current (metric_upd (call_addr c) (fun m => stm_set_value (call_value c (stm_value m)) m) (st_current st)) (st_set_updated true st))
  | None => None
  end.
Proof. destruct c; (apply pool_to_metric_upd || apply server_to_metric_upd). Qed.

(** The value of a metric if one thread did every call. *)
Definition total (a : maddr) (log : list stats_call) : Z := foldl (fun v c => if decide (call_addr c = a) then call_value c v else v) 0 log.

(** ** Steps *)

(** Where the event loop is in stats_swap: at the array_swap, at the reset of
    current, at updated = 0, at aggregate = 1. *)
Inductive gen_pc := G_idle | G_swap | G_reset | G_updated | G_aggregate.

(** Where the aggregator is in stats_aggregate: the metrics it has yet to add. *)
Inductive agg_pc := A_idle | A_add (todo : list maddr).

Record threads := mk_threads { th_stats : stats; th_gen : gen_pc; th_agg : agg_pc; th_log : list stats_call }.

Inductive call_step : threads -> threads -> Prop :=
  | cs_call c st st' m agg log : metric_at (st_current st) (call_addr c) = Some m -> call_allowed c (stm_type m) = true -> do_call c st = Some (tt, st') ->
      call_step (mk_threads st G_idle agg log) (mk_threads st' G_idle agg (log ++ [c])).

Inductive gen_step : threads -> threads -> Prop :=
  | gs_check st agg log : st_aggregate st = false -> st_updated st = true -> gen_step (mk_threads st G_idle agg log) (mk_threads st G_swap agg log)
  | gs_swap st agg log : gen_step (mk_threads st G_swap agg log) (mk_threads (st_set_shadow (st_current st) (st_set_current (st_shadow st) st)) G_reset agg log)
  | gs_reset st agg log : gen_step (mk_threads st G_reset agg log) (mk_threads (st_set_current (stats_pool_reset (st_current st)) st) G_updated agg log)
  | gs_updated st agg log : gen_step (mk_threads st G_updated agg log) (mk_threads (st_set_updated false st) G_aggregate agg log)
  | gs_aggregate st agg log : gen_step (mk_threads st G_aggregate agg log) (mk_threads (st_set_aggregate true st) G_idle agg log).

Definition add_metric (a : maddr) (m1 : stats_metric) (sum : list stats_pool) : list stats_pool := metric_upd a (fun m2 => merge_metric m2 m1) sum.

Inductive agg_step : threads -> threads -> Prop :=
  | as_start st gen log : st_aggregate st = true -> agg_step (mk_threads st gen A_idle log) (mk_threads st gen (A_add (all_addrs (st_shadow st))) log)
  | as_add st gen a m1 todo log : metric_at (st_shadow st) a = Some m1 ->
      agg_step (mk_threads st gen (A_add (a :: todo)) log) (mk_threads (st_set_sum (add_metric a m1 (st_sum st)) st) gen (A_add todo) log)
  | as_end st gen log : agg_step (mk_threads st gen (A_add []) log) (mk_threads (st_set_aggregate false st) gen A_idle log).

(** A step that makes progress without a new call, and any step. *)
Definition work_step (t t' : threads) : Prop := gen_step t t' \/ agg_step t t'.
Definition thread_step (t t' : threads) : Prop := call_step t t' \/ work_step t t'.

Definition started (st : stats) : threads := mk_threads st G_idle A_idle [].
Definition reachable (st : stats) (t : threads) : Prop := rtc thread_step (started st) t.

(** ** Values *)

Definition is_s64 (z : Z) : Prop := s64 z = z.
Definition metric_ok (m : stats_metric) : Prop := is_s64 (stm_value m).

Lemma s64_s64 z : s64 (s64 z) = s64 z.
Proof.
  unfold s64, swrap. replace ((z + 2 ^ (64 - 1)) mod 2 ^ 64 - 2 ^ (64 - 1) + 2 ^ (64 - 1)) with ((z + 2 ^ (64 - 1)) mod 2 ^ 64) by lia.
  by rewrite Zmod_mod.
Qed.

(** Adding wraps around once, however often it is done. *)
Lemma s64_add_l x y : s64 (s64 x + y) = s64 (x + y).
Proof.
  unfold s64, swrap. replace ((x + 2 ^ (64 - 1)) mod 2 ^ 64 - 2 ^ (64 - 1) + y + 2 ^ (64 - 1)) with ((x + 2 ^ (64 - 1)) mod 2 ^ 64 + y) by lia.
  rewrite Zplus_mod_idemp_l. by replace (x + 2 ^ (64 - 1) + y) with (x + y + 2 ^ (64 - 1)) by lia.
Qed.
Lemma s64_add_r x y : s64 (x + s64 y) = s64 (x + y).
Proof. rewrite Z.add_comm, s64_add_l. by rewrite Z.add_comm. Qed.

Lemma merge_ok t x y : is_s64 x -> is_s64 y -> is_s64 (merge_value t x y).
Proof. intros Hx Hy. destruct t; simpl; [apply s64_s64..|]. by destruct (negb _). Qed.

Lemma merge_zero t x : is_s64 x -> merge_value t x 0 = x.
Proof. intros Hx. destruct t; simpl; [by rewrite Z.add_0_r..|done]. Qed.

(** A call after a merge is a merge after the call. *)
Lemma merge_call c t x v : call_allowed c t = true -> merge_value t x (call_value c v) = call_value c (merge_value t x v).
Proof.
  destruct c, t; simpl; try done; intros H;
    rewrite ?s64_add_r, ?s64_add_l; try (by f_equal; lia);
    try (unfold Z.sub; rewrite s64_add_l; f_equal; lia).
  all: apply andb_prop in H as [H _]; by rewrite H.
Qed.

Lemma call_value_ok c t v : call_allowed c t = true -> is_s64 (call_value c v).
Proof.
  destruct c, t; simpl; try done; intros H; try apply s64_s64.
  all: apply andb_prop in H as [_ H]; by apply Z.eqb_eq in H.
Qed.

Lemma total_snoc a log c : total a (log ++ [c]) = if decide (call_addr c = a) then call_value c (total a log) else total a log.
Proof. unfold total. by rewrite foldl_app. Qed.

(** ** The invariant *)

(** Is shadow's metric still to be added to sum, and does current's count. *)
Definition pending (t : threads) (a : maddr) : bool :=
  match th_gen t with
  | G_idle => st_aggregate (th_stats t) && match th_agg t with A_idle => true | A_add todo => bool_decide (a ∈ todo) end
  | G_swap => false
  | _ => true
  end.
Definition counts (t : threads) : bool := match th_gen t with G_reset => false | _ => true end.

Definition value_if (b : bool) (m : stats_metric) : Z := if b then stm_value m else 0.

Definition balanced (t : threads) (a : maddr) : Prop :=
  forall m sh cu, metric_at (st_sum (th_stats t)) a = Some m -> metric_at (st_shadow (th_stats t)) a = Some sh -> metric_at (st_current (th_stats t)) a = Some cu ->
  merge_value (stm_type m) (merge_value (stm_type m) (stm_value m) (value_if (pending t a) sh)) (value_if (counts t) cu) = total a (th_log t).

Definition all_ok (l : list stats_pool) : Prop := forall a m, metric_at l a = Some m -> metric_ok m.

Record threads_inv (l0 : list stats_pool) (t : threads) : Prop := {
  ti_current : same_shape (st_current (th_stats t)) l0;
  ti_shadow : same_shape (st_shadow (th_stats t)) l0;
  ti_sum : same_shape (st_sum (th_stats t)) l0;
  ti_ok_current : all_ok (st_current (th_stats t));
  ti_ok_shadow : all_ok (st_shadow (th_stats t));
  ti_ok_sum : all_ok (st_sum (th_stats t));
  ti_gen : th_gen t <> G_idle -> st_aggregate (th_stats t) = false;
  ti_agg : th_agg t <> A_idle -> st_aggregate (th_stats t) = true;
  ti_todo : forall todo, th_agg t = A_add todo -> NoDup todo /\ Forall (fun a => is_Some (metric_at l0 a)) todo;
  ti_updated : th_gen t = G_swap \/ th_gen t = G_reset -> st_updated (th_stats t) = true;
  ti_reset : th_gen t = G_aggregate -> st_updated (th_stats t) = false;
  ti_zero : st_updated (th_stats t) = false \/ th_gen t = G_updated -> forall a m, metric_at (st_current (th_stats t)) a = Some m -> stm_value m = 0;
  ti_balance : forall a, balanced t a
}.

(** The three metrics of an address. *)
Lemma inv_metrics l0 t a m0 : threads_inv l0 t -> metric_at l0 a = Some m0 ->
  exists m sh cu, metric_at (st_sum (th_stats t)) a = Some m /\ metric_at (st_shadow (th_stats t)) a = Some sh /\ metric_at (st_current (th_stats t)) a = Some cu /\
  stm_type m = stm_type m0 /\ stm_type sh = stm_type m0 /\ stm_type cu = stm_type m0.
Proof.
  intros I H0. destruct (same_shape_at l0 (st_sum (th_stats t)) a m0) as (m & Hm & Tm & _); [symmetry; apply I|done|].
  destruct (same_shape_at l0 (st_shadow (th_stats t)) a m0) as (sh & Hsh & Tsh & _); [symmetry; apply I|done|].
  destruct (same_shape_at l0 (st_current (th_stats t)) a m0) as (cu & Hcu & Tcu & _); [symmetry; apply I|done|].
  by exists m, sh, cu.
Qed.

(** A metric changed in an array of values of an int64_t. *)
Lemma all_ok_upd a f l : all_ok l -> (forall m, metric_at l a = Some m -> metric_ok (f m)) -> all_ok (metric_upd a f l).
Proof.
  intros Hl Hf b m. destruct (decide (a = b)) as [<-|Hab].
  - rewrite metric_at_upd. destruct (metric_at l a) as [m0|]; [|done]. simpl. intros [= <-]. by apply Hf.
  - rewrite metric_at_upd_ne by done. apply Hl.
Qed.

Lemma all_ok_reset l : all_ok (stats_pool_reset l).
Proof. intros a m. rewrite metric_at_reset. destruct (metric_at l a); [|done]. by intros [= <-]. Qed.

Lemma NoDup_concat_imap {A B} (f : nat -> A -> list B) l :
  (forall i y, l !! i = Some y -> NoDup (f i y)) -> (forall i j y z x, x ∈ f i y -> x ∈ f j z -> i = j) -> NoDup (concat (imap f l)).
Proof.
  revert f. induction l as [|y l IH]; intros f Hn Hd; [constructor|]. rewrite imap_cons. simpl. apply list.NoDup_app. split; [by apply (Hn 0%nat)|]. split.
  - intros x Hx Hx'. apply elem_of_concat_imap in Hx' as (i & z & _ & Hz). specialize (Hd _ _ _ _ _ Hx Hz). lia.
  - apply IH; [intros i z Hi; by apply (Hn (S i))|]. intros i j z z' x Hz Hz'. specialize (Hd _ _ _ _ _ Hz Hz'). lia.
Qed.

(** stats_aggregate visits a metric once. *)
Lemma NoDup_all_addrs l : NoDup (all_addrs l).
Proof.
  assert (Hf : forall p s n, NoDup (map (mk_maddr p s) (seq 0 n))) by (intros; apply NoDup_fmap_2; [by intros ? ? [=]|apply NoDup_seq]).
  apply NoDup_concat_imap.
  - intros p stp _. apply list.NoDup_app. split; [apply Hf|]. split.
    + intros a Ha Ha'. apply elem_of_fields in Ha as (k & _ & ->). apply elem_of_concat_imap in Ha' as (s & sts & _ & Ha'). by apply elem_of_fields in Ha' as (? & _ & [=]).
    + apply NoDup_concat_imap; [intros; apply Hf|]. intros i j y z a Hi Hj. apply elem_of_fields in Hi as (? & _ & ->). by apply elem_of_fields in Hj as (? & _ & [=]).
  - assert (Hp : forall p stp a, a ∈ pool_addrs p stp -> ma_pool a = p).
    { intros p stp a Ha. apply elem_of_app in Ha as [Ha|Ha]; [by apply elem_of_fields in Ha as (? & _ & ->)|].
      apply elem_of_concat_imap in Ha as (s & sts & _ & Ha). by apply elem_of_fields in Ha as (? & _ & ->). }
    intros i j y z a Hi Hj. by rewrite <- (Hp _ _ _ Hi), <- (Hp _ _ _ Hj).
Qed.

Lemma set_value_init v m : stats_metric_init (stm_set_value v m) = stats_metric_init m.
Proof. done. Qed.

Lemma call_step_inv l0 t t' : threads_inv l0 t -> call_step t t' -> threads_inv l0 t'.
Proof.
  intros I H. inversion H as [c st st' m agg log Hm Hc Hd]; subst. rewrite do_call_upd, Hm in Hd. injection Hd as <-.
  destruct I as [Ic Ish Is Oc Osh Os Ig Ia It Iu Ir Iz Ib]. simpl in *. constructor; simpl; try done.
  - etrans; [|exact Ic]. by apply upd_same_shape.
  - apply all_ok_upd; [done|]. intros m' Hm'. assert (m' = m) as -> by congruence. by apply (call_value_ok c (stm_type m)).
  - by intros [?|?].
  - intros a ms sh cu Hs Hsh Hcu. specialize (Ib a ms sh). unfold pending, counts in *. simpl in *. rewrite total_snoc. case_decide as E.
    + subst a. rewrite metric_at_upd, Hm in Hcu. injection Hcu as <-. specialize (Ib m Hs Hsh Hm). simpl. rewrite <- Ib. apply merge_call.
      destruct (same_shape_at (st_sum st) (st_current st) (call_addr c) ms) as (m' & Hm' & <- & _); [by etrans|done|].
      by assert (m' = m) as -> by congruence.
    + rewrite metric_at_upd_ne in Hcu by done. by apply Ib.
Qed.

Lemma gen_step_inv l0 t t' : threads_inv l0 t -> gen_step t t' -> threads_inv l0 t'.
Proof.
  intros I H. destruct I as [Ic Ish Is Oc Osh Os Ig Ia It Iu Ir Iz Ib].
  inversion H as [st agg log Ha Hu|st agg log|st agg log|st agg log|st agg log]; subst; simpl in *.
  - constructor; simpl; try done; [intros [Hf|?]; [congruence|done]|].
    intros a m sh cu Hm Hsh Hcu. specialize (Ib a m sh cu Hm Hsh Hcu). unfold pending, counts in *. simpl in *. by rewrite Ha in Ib.
  - specialize (Ig ltac:(done)). assert (Hu : st_updated st = true) by (apply Iu; by left).
    constructor; simpl; try done; [by intros [Hf|?]; [congruence|]|].
    intros a m sh cu Hm Hsh Hcu. simpl in *. specialize (Ib a m cu sh Hm Hcu Hsh). unfold pending, counts in *. simpl in *.
    rewrite merge_zero in Ib by by apply (Os a). by rewrite merge_zero by (apply merge_ok; [by apply (Os a)|by apply (Oc a)]).
  - specialize (Ig ltac:(done)). constructor; simpl; try done; [etrans; [apply reset_same_shape|done]|apply all_ok_reset|by intros [?|?]| |].
    + intros _ a m. rewrite metric_at_reset. destruct (metric_at _ a); [|done]. by intros [= <-].
    + intros a m sh cu Hm Hsh Hcu. simpl in *. rewrite metric_at_reset in Hcu. destruct (metric_at (st_current st) a) as [cu0|] eqn:E; [|done].
      injection Hcu as <-. exact (Ib a m sh cu0 Hm Hsh E).
  - specialize (Ig ltac:(done)). constructor; simpl; try done; [by intros [?|?]|]. intros _. apply Iz. by right.
  - specialize (Ig ltac:(done)). constructor; simpl; try done; [by intros [?|?]|intros [?|?]; [apply Iz; by left|done]|].
    intros a m sh cu Hm Hsh Hcu. specialize (Ib a m sh cu Hm Hsh Hcu). unfold pending, counts in *. simpl in *.
    destruct agg as [|todo]; [done|]. specialize (Ia ltac:(done)). congruence.
Qed.

Lemma agg_step_inv l0 t t' : threads_inv l0 t -> agg_step t t' -> threads_inv l0 t'.
Proof.
  intros I H. destruct I as [Ic Ish Is Oc Osh Os Ig Ia It Iu Ir Iz Ib].
  inversion H as [st gen log Ha|st gen a m1 todo log Hm1|st gen log]; subst; simpl in *.
  - constructor; simpl; try done.
    + intros todo [= <-]. split; [apply NoDup_all_addrs|]. apply list.Forall_forall. intros a Ha'. apply elem_of_all_addrs in Ha' as [m Hm].
      destruct (same_shape_at _ l0 a m Ish Hm) as (m0 & -> & _). done.
    + intros a m sh cu Hm Hsh Hcu. specialize (Ib a m sh cu Hm Hsh Hcu). unfold pending, counts in *. simpl in *.
      rewrite (bool_decide_eq_true_2 (a ∈ all_addrs _)); [done|]. apply elem_of_all_addrs. by eexists.
  - specialize (Ia ltac:(done)). destruct (It _ eq_refl) as [Hnd Hall]. apply list.NoDup_cons in Hnd as [Hna Hnd]. apply Forall_cons_iff in Hall as [_ Hall].
    assert (gen = G_idle) as -> by (destruct gen; try done; by specialize (Ig ltac:(done)); congruence).
    constructor; simpl; try done; [etrans; [by apply upd_same_shape|done]| |by intros ? [= <-]|].
    + apply all_ok_upd; [done|]. intros m Hm. apply merge_ok; [by apply (Os a)|by apply (Osh a)].
    + intros b m sh cu Hm Hsh Hcu. simpl in *. unfold balanced, pending, counts in *. simpl in *. rewrite Ia in *. simpl in *. unfold add_metric in Hm.
      destruct (decide (a = b)) as [<-|Hab].
      * rewrite metric_at_upd in Hm. destruct (metric_at (st_sum st) a) as [m0|] eqn:E0; [|done]. injection Hm as <-. simpl.
        assert (sh = m1) as -> by congruence. specialize (Ib a m0 m1 cu E0 Hsh Hcu). rewrite bool_decide_eq_true_2 in Ib by by left.
        destruct (same_shape_at _ (st_shadow st) a m0 (transitivity Is (symmetry Ish)) E0) as (m1' & Hm1' & Ht & _). assert (m1' = m1) as -> by congruence. rewrite Ht.
        rewrite bool_decide_eq_false_2 by done. simpl. rewrite merge_zero; [done|]. apply merge_ok; [by apply (Os a)|by apply (Osh a)].
      * rewrite metric_at_upd_ne in Hm by done. specialize (Ib b m sh cu Hm Hsh Hcu).
        rewrite (bool_decide_ext _ (b ∈ a :: todo)); [done|]. rewrite elem_of_cons. split; [by right|by intros [->|?]].
  - specialize (Ia ltac:(done)). assert (gen = G_idle) as -> by (destruct gen; try done; by specialize (Ig ltac:(done)); congruence).
    constructor; simpl; try done.
    intros a m sh cu Hm Hsh Hcu. specialize (Ib a m sh cu Hm Hsh Hcu). unfold pending, counts in *. simpl in *.
    by rewrite Ia in Ib.
Qed.

Lemma start_inv st l0 : st_current st = l0 -> st_shadow st = l0 -> st_sum st = l0 -> st_aggregate st = false -> stats_pool_reset l0 = l0 -> threads_inv l0 (started st).
Proof.
  intros Hc Hsh Hs Ha Hz. assert (Hm : forall a m, metric_at l0 a = Some m -> stm_value m = 0).
  { intros a m Hm. rewrite <- Hz, metric_at_reset in Hm. destruct (metric_at l0 a); [|done]. by injection Hm as <-. }
  assert (Hok : all_ok l0) by (intros a m Hm'; unfold metric_ok; by rewrite (Hm _ _ Hm')).
  constructor; simpl; rewrite ?Hc, ?Hsh, ?Hs; try done; [by intros [?|?]|].
  intros a m sh cu. simpl. rewrite Hc, Hsh, Hs. intros H1 H2 H3. unfold pending, counts. simpl. rewrite Ha. simpl. rewrite (Hm _ _ H3), (Hm _ _ H1).
  by destruct (stm_type m).
Qed.

Lemma reachable_inv l0 t t' : threads_inv l0 t -> rtc thread_step t t' -> threads_inv l0 t'.
Proof.
  intros I H. induction H as [t|t t1 t2 Hs _ IH]; [done|]. apply IH.
  destruct Hs as [Hs|[Hs|Hs]]; [by eapply call_step_inv|by eapply gen_step_inv|by eapply agg_step_inv].
Qed.

(** ** The functions of nc_stats.c as steps *)

(** stats_swap run by the event loop alone. *)
Lemma swap_is_steps st st' agg log : stats_swap st = Some (tt, st') -> rtc gen_step (mk_threads st G_idle agg log) (mk_threads st' G_idle agg log).
Proof.
  unfold stats_swap, mbind, ST_bind, gets. simpl. destruct (st_aggregate st) eqn:Ea; [intros [= <-]; reflexivity|].
  destruct (st_updated st) eqn:Eu; simpl; [|intros [= <-]; reflexivity]. intros [= <-].
  eapply rtc_l; [by apply gs_check|]. eapply rtc_l; [apply gs_swap|]. eapply rtc_l; [apply gs_reset|]. eapply rtc_l; [apply gs_updated|].
  apply rtc_once. apply gs_aggregate.
Qed.

(** Metrics added one after the other. *)
Definition add_all (shadow : list stats_pool) (sum : list stats_pool) (todo : list maddr) : list stats_pool :=
  foldl (fun sum a => match metric_at shadow a with Some m1 => add_metric a m1 sum | None => sum end) sum todo.

Lemma add_all_steps gen log todo : forall st, Forall (fun a => is_Some (metric_at (st_shadow st) a)) todo ->
  rtc agg_step (mk_threads st gen (A_add todo) log) (mk_threads (st_set_sum (add_all (st_shadow st) (st_sum st) todo) st) gen (A_add []) log).
Proof.
  induction todo as [|a todo IH]; intros st Hall; [by destruct st|]. apply Forall_cons_iff in Hall as [[m1 Hm1] Hall].
  eapply rtc_l; [by apply as_add|]. unfold add_all. simpl. rewrite Hm1. exact (IH (st_set_sum (add_metric a m1 (st_sum st)) st) Hall).
Qed.

Lemma add_all_shape shadow todo : forall sum, same_shape (add_all shadow sum todo) sum.
Proof.
  unfold add_all. induction todo as [|a todo IH]; intros sum; simpl; [done|]. etrans; [apply IH|].
  destruct (metric_at shadow a); [|done]. by apply upd_same_shape.
Qed.

Lemma metric_at_add_all shadow b todo : forall sum, NoDup todo ->
  metric_at (add_all shadow sum todo) b =
  if decide (b ∈ todo) then (m2 ← metric_at sum b; Some (match metric_at shadow b with Some m1 => merge_metric m2 m1 | None => m2 end)) else metric_at sum b.
Proof.
  unfold add_all. induction todo as [|a todo IH]; intros sum Hnd; [by rewrite decide_False by apply not_elem_of_nil|].
  apply list.NoDup_cons in Hnd as [Hna Hnd]. cbn [foldl]. rewrite IH by done. destruct (decide (b = a)) as [->|Hba].
  - rewrite decide_False by done. rewrite decide_True by by left. destruct (metric_at shadow a) as [m1|]; [|by destruct (metric_at sum a)].
    unfold add_metric. rewrite metric_at_upd. by destruct (metric_at sum a).
  - assert (E : metric_at (match metric_at shadow a with Some m1 => add_metric a m1 sum | None => sum end) b = metric_at sum b).
    { destruct (metric_at shadow a); [|done]. by apply metric_at_upd_ne. }
    rewrite E. destruct (decide (b ∈ todo)) as [H|H]; [by rewrite decide_True by by right|]. rewrite decide_False; [done|]. by apply not_elem_of_cons.
Qed.

(** The metrics added one by one are the sum stats_aggregate makes. *)
Lemma add_all_zip shadow sum : same_shape sum shadow -> add_all shadow sum (all_addrs shadow) = zip_with zip_pool sum shadow.
Proof.
  intros Hs. apply same_shape_ext; [etrans; [apply add_all_shape|symmetry; by apply zip_same_shape]|].
  intros a. rewrite metric_at_add_all by apply NoDup_all_addrs. rewrite metric_at_zip. destruct (metric_at sum a) as [m2|] eqn:E2.
  - destruct (same_shape_at _ _ _ _ Hs E2) as (m1 & E1 & _). rewrite E1. simpl. rewrite decide_True; [done|]. apply elem_of_all_addrs. by rewrite E1.
  - simpl. by case_decide.
Qed.

Lemma stats_aggregate_shape st : same_shape (st_sum st) (st_shadow st) ->
  stats_aggregate st = Some (tt, if st_aggregate st then st_set_aggregate false (st_set_sum (zip_with zip_pool (st_sum st) (st_shadow st)) st) else st).
Proof.
  intros Hs. unfold stats_aggregate, mbind, ST_bind, gets, reads. simpl. destruct (st_aggregate st); simpl; [|done]. by rewrite pools_zip.
Qed.

(** stats_aggregate run by the aggregator alone. *)
Lemma aggregate_is_steps st st' gen log : same_shape (st_sum st) (st_shadow st) -> stats_aggregate st = Some (tt, st') ->
  rtc agg_step (mk_threads st gen A_idle log) (mk_threads st' gen A_idle log).
Proof.
  intros Hs. rewrite stats_aggregate_shape by done. destruct (st_aggregate st) eqn:Ea; intros [= <-]; [|reflexivity].
  eapply rtc_l; [by apply as_start|]. eapply rtc_r; [apply add_all_steps|].
  - apply list.Forall_forall. intros a. by rewrite elem_of_all_addrs.
  - rewrite add_all_zip by done. apply as_end.
Qed.

(** ** What is left to do *)

Definition work_left (n : nat) (t : threads) : nat :=
  (match th_agg t with
   | A_add todo => length todo + 1
   | A_idle => if st_aggregate (th_stats t) then n + 2 else 0
   end +
   match th_gen t with
   | G_idle => if st_updated (th_stats t) then n + 7 else 0
   | G_swap => n + 6
   | G_reset => n + 5
   | G_updated => n + 4
   | G_aggregate => n + 3
   end)%nat.

Lemma all_addrs_reset l : all_addrs (stats_pool_reset l) = all_addrs l.
Proof.
  unfold all_addrs, stats_pool_reset. f_equal. apply list_eq. intros p. rewrite !list_lookup_imap, list_lookup_fmap.
  destruct (l !! p) as [stp|]; [|done]. simpl. f_equal. unfold pool_addrs, stats_metric_reset. simpl. rewrite length_map. f_equal. f_equal.
  apply list_eq. intros s. rewrite !list_lookup_imap, list_lookup_fmap. destruct (stp_server stp !! s); [|done]. simpl. by rewrite length_map.
Qed.

Lemma all_addrs_shape l1 l2 : same_shape l1 l2 -> all_addrs l1 = all_addrs l2.
Proof. intros H. by rewrite <- (all_addrs_reset l1), H, all_addrs_reset. Qed.

Lemma work_decreases l0 t t' : threads_inv l0 t -> work_step t t' -> (work_left (length (all_addrs l0)) t' < work_left (length (all_addrs l0)) t)%nat.
Proof.
  intros I [H|H]; inversion H as [st x log H1 H2|st x log|st x log|st x log|st x log] || inversion H as [st x log H1|st x a m1 todo log H1|st x log]; subst;
    unfold work_left; simpl in *; try lia.
  - rewrite H2. lia.
  - pose proof (ti_gen _ _ I ltac:(done)) as Hg. pose proof (ti_reset _ _ I eq_refl) as Hr. simpl in Hg, Hr. rewrite Hr, Hg.
    destruct x as [|todo]; [lia|]. pose proof (ti_agg _ _ I ltac:(done)) as Ha. simpl in Ha. congruence.
  - rewrite H1. rewrite (all_addrs_shape (st_shadow st) l0) by apply I. lia.
Qed.

Lemma work_bounded l0 n : forall t t', threads_inv l0 t -> nsteps work_step n t t' -> (n <= work_left (length (all_addrs l0)) t)%nat.
Proof.
  induction n as [|n IH]; intros t t' I H; [lia|]. inversion H as [|? ? t1 ? Hs Hr]; subst.
  pose proof (work_decreases _ _ _ I Hs). assert (I1 : threads_inv l0 t1) by (eapply reachable_inv; [exact I|apply rtc_once; by right]).
  specialize (IH _ _ I1 Hr). lia.
Qed.

(** Both threads have nothing to do. *)
Definition drained (t : threads) : Prop :=
  th_gen t = G_idle /\ th_agg t = A_idle /\ st_aggregate (th_stats t) = false /\ st_updated (th_stats t) = false.

Lemma drained_or_works l0 t : threads_inv l0 t -> drained t \/ exists t', work_step t t'.
Proof.
  intros I. destruct t as [st gen agg log]. destruct agg as [|[|a todo]]; [|right; eexists; right; apply as_end|].
  - destruct (st_aggregate st) eqn:Ea; [right; eexists; right; by apply as_start|].
    destruct gen; try (right; eexists; left; constructor; fail). destruct (st_updated st) eqn:Eu; [right; eexists; left; by apply gs_check|by left].
  - right. destruct (ti_todo _ _ I _ eq_refl) as [_ Hall]. apply Forall_cons_iff in Hall as [[m0 H0] _].
    destruct (inv_metrics _ _ _ _ I H0) as (_ & sh & _ & _ & Hsh & _). eexists. right. by eapply as_add.
Qed.

Lemma work_ends l0 : forall n t, threads_inv l0 t -> (work_left (length (all_addrs l0)) t <= n)%nat -> exists t', rtc work_step t t' /\ drained t'.
Proof.
  induction n as [|n IH]; intros t I Hn; (destruct (drained_or_works _ _ I) as [Hd|[t1 Hs]]; [by exists t|]);
    pose proof (work_decreases _ _ _ I Hs); [lia|].
  destruct (IH t1) as (t' & Hr & Hd); [eapply reachable_inv; [exact I|apply rtc_once; by right]|lia|]. exists t'. split; [by eapply rtc_l|done].
Qed.

Lemma work_log t t' : rtc work_step t t' -> th_log t' = th_log t.
Proof. induction 1 as [|t t1 t2 Hs _ IH]; [done|]. rewrite IH. by destruct Hs as [Hs|Hs]; inversion Hs. Qed.

Lemma work_reaches t t' : rtc work_step t t' -> rtc thread_step t t'.
Proof. apply rtc_subrel. intros ? ? ?. by right. Qed.

Lemma drained_total l0 t a m : threads_inv l0 t -> drained t -> metric_at (st_sum (th_stats t)) a = Some m -> stm_value m = total a (th_log t).
Proof.
  intros I (Hg & Ha & Hf & Hu) Hm. destruct (same_shape_at _ l0 a m (ti_sum _ _ I) Hm) as (m0 & H0 & _).
  destruct (inv_metrics _ _ _ _ I H0) as (m' & sh & cu & Hm' & Hsh & Hcu & _). assert (m' = m) as -> by congruence.
  pose proof (ti_balance _ _ I a m sh cu Hm Hsh Hcu) as Hb. unfold pending, counts in Hb. rewrite Hg, Hf in Hb. simpl in Hb.
  assert (Hok : is_s64 (stm_value m)) by by apply (ti_ok_sum _ _ I a).
  by rewrite (ti_zero _ _ I (or_introl Hu) a cu Hcu), (merge_zero _ (stm_value m) Hok), (merge_zero _ _ Hok) in Hb.
Qed.

Section Threads.
Context `{env : StatsEnv}.

Lemma created_inv tick junk source version pools st t : stats_create tick junk source version pools = Some (Some st) -> reachable st t -> threads_inv (fresh_pools pools) t.
Proof. intros Hc Hr. apply create_fresh in Hc as []. eapply reachable_inv; [|exact Hr]. by apply start_inv; [..|apply fresh_zero]. Qed.

(** C11. No event is lost or counted twice, whatever the order in which the
    steps of the event loop and of the aggregator come: at every moment a
    metric of sum, with what shadow still has to give it and what current has
    counted since, is the value that all the calls made one after the other
    give (with the wrap-around of an int64_t), and the arrays are never
    swapped while the aggregator reads shadow. *)
Theorem stats_no_event_lost tick junk source version pools st t :
  stats_create tick junk source version pools = Some (Some st) -> reachable st t ->
  (th_agg t <> A_idle -> th_gen t = G_idle) /\
  forall a m, metric_at (st_sum (th_stats t)) a = Some m ->
  exists sh cu, metric_at (st_shadow (th_stats t)) a = Some sh /\ metric_at (st_current (th_stats t)) a = Some cu /\
  merge_value (stm_type m) (merge_value (stm_type m) (stm_value m) (value_if (pending t a) sh)) (value_if (counts t) cu) = total a (th_log t).
Proof.
  intros Hc Hr. pose proof (created_inv _ _ _ _ _ _ _ Hc Hr) as I. split.
  - intros Ha. destruct (th_gen t) eqn:E; try done; pose proof (ti_gen _ _ I ltac:(by rewrite E)) as Hg; by rewrite (ti_agg _ _ I Ha) in Hg.
  - intros a m Hm. destruct (same_shape_at _ _ a m (ti_sum _ _ I) Hm) as (m0 & H0 & _).
    destruct (inv_metrics _ _ _ _ I H0) as (m' & sh & cu & Hm' & Hsh & Hcu & _). assert (m' = m) as -> by congruence.
    exists sh, cu. split; [done|]. split; [done|]. by apply (ti_balance _ _ I).
Qed.

(** C13. The counts reach sum: from any moment on, if no new call comes, the
    two threads can take only a bounded number of steps, they can always go on
    until neither has anything to do, and then every metric of sum has the
    value that all the calls together give. *)
Theorem stats_counts_arrive tick junk source version pools st t :
  stats_create tick junk source version pools = Some (Some st) -> reachable st t ->
  (forall n t', nsteps work_step n t t' -> (n <= work_left (length (all_addrs (fresh_pools pools))) t)%nat) /\
  (exists t', rtc work_step t t' /\ nf work_step t') /\
  (forall t', rtc work_step t t' -> nf work_step t' -> forall a m, metric_at (st_sum (th_stats t')) a = Some m -> stm_value m = total a (th_log t)).
Proof.
  intros Hc Hr. pose proof (created_inv _ _ _ _ _ _ _ Hc Hr) as I. split; [intros n t' H; by eapply work_bounded|]. split.
  - destruct (work_ends _ _ t I (le_n _)) as (t' & Hw & Hd). exists t'. split; [done|]. destruct t', Hd as (Hg & Ha & Hf & Hu). simpl in *. subst.
    intros [t'' [H|H]]; inversion H; subst; congruence.
  - intros t' Hw Hn a m Hm. assert (I' : threads_inv (fresh_pools pools) t') by (eapply reachable_inv; [exact I|by apply work_reaches]).
    rewrite <- (work_log _ _ Hw). destruct (drained_or_works _ _ I') as [Hd|Hs]; [by eapply drained_total|by destruct Hn].
Qed.

(** C14. The functions are the steps: stats_swap called by the event loop and
    stats_aggregate called by the aggregator do not fault, and do what a run
    of that thread's steps does. *)
Theorem stats_functions_step tick junk source version pools st t :
  stats_create tick junk source version pools = Some (Some st) -> reachable st t ->
  (th_gen t = G_idle -> exists st', stats_swap (th_stats t) = Some (tt, st') /\ rtc gen_step t (mk_threads st' G_idle (th_agg t) (th_log t))) /\
  (th_agg t = A_idle -> exists st', stats_aggregate (th_stats t) = Some (tt, st') /\ rtc agg_step t (mk_threads st' (th_gen t) A_idle (th_log t))).
Proof.
  intros Hc Hr. pose proof (created_inv _ _ _ _ _ _ _ Hc Hr) as I. destruct t as [st1 gen agg log]. simpl. split; intros ->.
  - destruct (stats_swap st1) as [[[] st']|] eqn:E; [exists st'; split; [done|by apply swap_is_steps]|].
    unfold stats_swap, mbind, ST_bind, gets in E. simpl in E. by destruct (st_aggregate st1), (st_updated st1).
  - assert (Hs : same_shape (st_sum st1) (st_shadow st1)) by (etrans; [apply I|symmetry; apply I]).
    eexists. split; [by apply stats_aggregate_shape|]. by apply aggregate_is_steps; [|apply stats_aggregate_shape].
Qed.

End Threads.

(** ** A run *)

Inductive move := Call (c : stats_call) | Gen | Agg.

(** The step of a move, if it has one. *)
Definition next (mv : move) (t : threads) : option threads :=
  let '(mk_threads st gen agg log) := t in
  match mv with
  | Call c =>
      match gen, metric_at (st_current st) (call_addr c), do_call c st with
      | G_idle, Some m, Some (_, st') => if call_allowed c (stm_type m) then Some (mk_threads st' G_idle agg (log ++ [c])) else None
      | _, _, _ => None
      end
  | Gen =>
      match gen with
      | G_idle => if negb (st_aggregate st) && st_updated st then Some (mk_threads st G_swap agg log) else None
      | G_swap => Some (mk_threads (st_set_shadow (st_current st) (st_set_current (st_shadow st) st)) G_reset agg log)
      | G_reset => Some (mk_threads (st_set_current (stats_pool_reset (st_current st)) st) G_updated agg log)
      | G_updated => Some (mk_threads (st_set_updated false st) G_aggregate agg log)
      | G_aggregate => Some (mk_threads (st_set_aggregate true st) G_idle agg log)
      end
  | Agg =>
      match agg with
      | A_idle => if st_aggregate st then Some (mk_threads st gen (A_add (all_addrs (st_shadow st))) log) else None
      | A_add [] => Some (mk_threads (st_set_aggregate false st) gen A_idle log)
      | A_add (a :: todo) => (fun m1 => mk_threads (st_set_sum (add_metric a m1 (st_sum st)) st) gen (A_add todo) log) <$> metric_at (st_shadow st) a
      end
  end.
Fixpoint run_moves (mvs : list move) (t : threads) : option threads :=
  match mvs with
  | [] => Some t
  | mv :: mvs' => match next mv t with Some t' => run_moves mvs' t' | None => None end
  end.

Lemma next_step mv t t' : next mv t = Some t' -> thread_step t t'.
Proof.
  destruct t as [st gen agg log], mv as [c| |]; simpl.
  - destruct gen; try done. destruct (metric_at _ _) as [m|] eqn:Em; [|done]. destruct (do_call c st) as [[[] st']|] eqn:Ed; [|done].
    destruct (call_allowed _ _) eqn:Ec; [|done]. intros [= <-]. left. by apply (cs_call c st st' m).
  - destruct gen; try (intros [= <-]; right; left; constructor).
    destruct (st_aggregate st) eqn:Ea, (st_updated st) eqn:Eu; simpl; try done. intros [= <-]. right. left. by constructor.
  - destruct agg as [|[|a todo]]; [|intros [= <-]; right; right; constructor|].
    + destruct (st_aggregate st) eqn:Ea; [|done]. intros [= <-]. right. right. by constructor.
    + destruct (metric_at _ _) as [m1|] eqn:Em; [|done]. intros [= <-]. right. right. by constructor.
Qed.

Lemma run_moves_steps mvs : forall t t', run_moves mvs t = Some t' -> rtc thread_step t t'.
Proof.
  induction mvs as [|mv mvs IH]; intros t t' H; simpl in H; [by injection H as ->|].
  destruct (next mv t) as [t1|] eqn:E; [|done]. eapply rtc_l; [by eapply next_step|by apply IH].
Qed.

Definition sample_env : StatsEnv := {|
  se_ok := fun _ _ => true; se_time := fun _ => 1600000000; se_pid := 42; se_ntotal_conn := fun _ => 3; se_ncurr_conn := fun _ => 1;
  se_resolve := fun _ => 0; se_socket := fun _ => 5; se_reuseaddr := fun _ => 0; se_bind := fun _ => 0; se_listen := fun _ => 0; se_thread := fun _ => 0; se_accept := fun _ => 9; se_sendn := fun _ => 100
|}.
Definition sample_pools : list (list Z * list (list Z)) := [(bytes_of "alpha", [bytes_of "a:1"; bytes_of "b:2"])].
Abbreviation sample_create := (stats_create (env := sample_env) 0 (fun _ => []) (bytes_of "host") (bytes_of "0.4.1") sample_pools).

(** Two calls, a swap, a call while the aggregator has added one metric, and
    a swap that waits for it. *)
Definition sample_moves : list move :=
  [Call (PoolIncr 0 0); Call (ServerIncrBy 0 1 6 9223372036854775807); Gen; Gen; Gen; Gen; Gen; Agg; Agg; Call (ServerIncrBy 0 1 6 2)].
Definition sample_addr : maddr := server_addr 0 1 6.

(** The struct and the threads after [mvs]. *)
Definition sample_run (mvs : list move) : option (stats * threads) :=
  match sample_create with Some (Some st) => pair st <$> run_moves mvs (started st) | _ => None end.

Lemma sample_run_reaches mvs st t : sample_run mvs = Some (st, t) -> sample_create = Some (Some st) /\ reachable st t.
Proof.
  unfold sample_run. destruct sample_create as [[st'|]|]; try done. destruct (run_moves _ _) as [t'|] eqn:E; [|done].
  intros [= -> ->]. split; [done|by eapply run_moves_steps].
Qed.

(** The state they end in. *)
Definition sample_none : stats := mk_stats 0 0 None 0 [] [] [] 0 [] [] false false 0.
Definition sample_of (mvs : list move) : stats * threads := match sample_run mvs with Some x => x | None => (sample_none, started sample_none) end.
Definition sample_st : stats := Eval vm_compute in (sample_of sample_moves).1.
Definition sample_t : threads := Eval vm_compute in (sample_of sample_moves).2.

Lemma sample_ran : sample_run sample_moves = Some (sample_st, sample_t).
Proof. vm_compute. reflexivity. Qed.

(** In the middle of an aggregation: 2^63 - 1 waits in shadow, 2 in current. *)
Lemma stats_no_event_lost_witness : exists m sh cu, th_agg sample_t <> A_idle /\
  metric_at (st_sum (th_stats sample_t)) sample_addr = Some m /\ stm_value m = 0 /\ metric_at (st_shadow (th_stats sample_t)) sample_addr = Some sh /\ stm_value sh = 9223372036854775807 /\
  metric_at (st_current (th_stats sample_t)) sample_addr = Some cu /\ stm_value cu = 2 /\
  merge_value (stm_type m) (merge_value (stm_type m) (stm_value m) (value_if (pending sample_t sample_addr) sh)) (value_if (counts sample_t) cu) = total sample_addr (th_log sample_t) /\
  total sample_addr (th_log sample_t) = -9223372036854775807.
Proof.
  destruct (sample_run_reaches _ _ _ sample_ran) as [Hc Hr].
  destruct (stats_no_event_lost (env := sample_env) _ _ _ _ _ sample_st sample_t Hc Hr) as [_ H].
  destruct (H sample_addr (mk_stm STATS_COUNTER (bytes_of "request_bytes") 0) ltac:(vm_compute; reflexivity)) as (sh & cu & Hsh & Hcu & Hb).
  assert (Esh : Some sh = Some (mk_stm STATS_COUNTER (bytes_of "request_bytes") 9223372036854775807)) by (rewrite <- Hsh; vm_compute; reflexivity).
  assert (Ecu : Some cu = Some (mk_stm STATS_COUNTER (bytes_of "request_bytes") 2)) by (rewrite <- Hcu; vm_compute; reflexivity).
  exists (mk_stm STATS_COUNTER (bytes_of "request_bytes") 0), sh, cu. split; [discriminate|]. split; [vm_compute; reflexivity|]. split; [reflexivity|].
  split; [exact Hsh|]. split; [injection Esh as ->; reflexivity|]. split; [exact Hcu|]. split; [injection Ecu as ->; reflexivity|].
  split; [exact Hb|vm_compute; reflexivity].
Defined.

(** From there, everything is added in the end. *)
Lemma stats_counts_arrive_witness : (forall n t', nsteps work_step n sample_t t' -> (n <= 71)%nat) /\
  exists t' m, rtc work_step sample_t t' /\ nf work_step t' /\ metric_at (st_sum (th_stats t')) sample_addr = Some m /\ stm_value m = -9223372036854775807.
Proof.
  destruct (sample_run_reaches _ _ _ sample_ran) as [Hc Hr].
  destruct (stats_counts_arrive (env := sample_env) _ _ _ _ _ sample_st sample_t Hc Hr) as (Hn & (t' & Hw & Hf) & Ht).
  pose proof (created_inv (env := sample_env) _ _ _ _ _ sample_st sample_t Hc Hr) as I.
  destruct (inv_metrics _ t' sample_addr (mk_stm STATS_COUNTER (bytes_of "request_bytes") 0) (reachable_inv _ _ _ I (work_reaches _ _ Hw)) ltac:(vm_compute; reflexivity))
    as (m & _ & _ & Hm & _).
  split; [intros n t1 H1; exact (Hn n t1 H1)|].
  exists t', m. split; [exact Hw|]. split; [exact Hf|]. split; [exact Hm|]. rewrite (Ht t' Hw Hf sample_addr m Hm). vm_compute. reflexivity.
Defined.

(** After one call, a swap and an aggregation that has nothing to do. *)
Definition one_st : stats := Eval vm_compute in (sample_of [Call (PoolIncr 0 0)]).1.
Definition one_t : threads := Eval vm_compute in (sample_of [Call (PoolIncr 0 0)]).2.

Lemma one_ran : sample_run [Call (PoolIncr 0 0)] = Some (one_st, one_t).
Proof. vm_compute. reflexivity. Qed.

Lemma stats_functions_step_witness :
  (exists st', stats_swap (th_stats one_t) = Some (tt, st') /\ rtc gen_step one_t (mk_threads st' G_idle A_idle [PoolIncr 0 0])) /\
  (exists st', stats_aggregate (th_stats one_t) = Some (tt, st') /\ rtc agg_step one_t (mk_threads st' G_idle A_idle [PoolIncr 0 0])).
Proof.
  destruct (sample_run_reaches _ _ _ one_ran) as [Hc Hr].
  destruct (stats_functions_step (env := sample_env) _ _ _ _ _ one_st one_t Hc Hr) as [Hs Ha]. split; [exact (Hs eq_refl)|exact (Ha eq_refl)].
Defined.
