(* ===== verification/Json.v ===== *)
(** JSON texts, as far as the statistics need them: objects, strings without
    escapes and integers.  The reader accepts any JSON text of these values,
    with the white space of the JSON grammar between its tokens; the printer
    writes them with the spaces the statistics have. *)

From S2P Require Import Prelude State CString Stats.

Inductive json := JNum (z : Z) | JStr (s : list Z) | JObj (kvs : list (list Z * json)).

(** ** The reader *)

Definition is_ws (ch : Z) : bool := (ch =? 32) || (ch =? 9) || (ch =? 10) || (ch =? 13).
Fixpoint skip_ws (l : list Z) : list Z := match l with [] => [] | ch :: l' => if is_ws ch then skip_ws l' else l end.

(** A character a string may hold: neither a quote nor a backslash nor a
    control character. *)
Definition plain_char (ch : Z) : bool := (32 <=? ch) && negb (ch =? 34) && negb (ch =? 92).

(** Behind the opening quote. *)
Fixpoint read_string (l : list Z) : option (list Z * list Z) :=
  match l with
  | [] => None
  | ch :: l' =>
      if ch =? 34 then Some ([], l')
      else if plain_char ch then (fun x => (ch :: x.1, x.2)) <$> read_string l'
      else None
  end.

(** The digits in front, as a number behind [v]. *)
Fixpoint read_digits (l : list Z) (v : Z) : Z * list Z :=
  match l with
  | [] => (v, [])
  | ch :: l' => if isdigit ch then read_digits l' (10 * v + (ch - 48)) else (v, l)
  end.
Definition read_nat (l : list Z) : option (Z * list Z) :=
  match l with ch :: _ => if isdigit ch then Some (read_digits l 0) else None | [] => None end.
Definition read_number (l : list Z) : option (Z * list Z) :=
  match l with
  | [] => None
  | ch :: l' => if ch =? 45 then (fun x => (- x.1, x.2)) <$> read_nat l' else read_nat l
  end.

(** The token [ch]. *)
Definition expect (ch : Z) (l : list Z) : option (list Z) :=
  match skip_ws l with [] => None | c :: l' => if c =? ch then Some l' else None end.

(** A value, and the members of an object up to its closing brace. *)
Fixpoint read_value (fuel : nat) (l : list Z) {struct fuel} : option (json * list Z) :=
  match fuel with
  | O => None
  | S fuel' =>
      match skip_ws l with
      | [] => None
      | ch :: l' =>
          if ch =? 34 then (fun x => (JStr x.1, x.2)) <$> read_string l'
          else if ch =? 123 then
            match expect 125 l' with
            | Some l'' => Some (JObj [], l'')
            | None => (fun x => (JObj x.1, x.2)) <$> read_members fuel' l'
            end
          else (fun x => (JNum x.1, x.2)) <$> read_number (ch :: l')
      end
  end
with read_members (fuel : nat) (l : list Z) {struct fuel} : option (list (list Z * json) * list Z) :=
  match fuel with
  | O => None
  | S fuel' =>
      l1 ← expect 34 l;
      '(k, l2) ← read_string l1;
      l3 ← expect 58 l2;
      '(v, l4) ← read_value fuel' l3;
      match expect 125 l4 with
      | Some l5 => Some ([(k, v)], l5)
      | None => l5 ← expect 44 l4; '(kvs, l6) ← read_members fuel' l5; Some ((k, v) :: kvs, l6)
      end
  end.

(** A whole text. *)
Definition read_json (l : list Z) : option json :=
  match read_value (S (length l)) l with
  | Some (v, rest) => match skip_ws rest with [] => Some v | _ => None end
  | None => None
  end.

(** ** The printer *)

Definition quote (s : list Z) : list Z := [34] ++ s ++ [34].

(** Between a value and the next member. *)
Definition sep_of (v : json) : list Z := match v with JObj _ => [44] | _ => [44; 32] end.

Fixpoint print (v : json) : list Z :=
  match v with
  | JNum z => dec64 z
  | JStr s => quote s
  | JObj kvs =>
      [123] ++
      (fix inner (kvs : list (list Z * json)) : list Z :=
         match kvs with
         | [] => []
         | (k, v) :: kvs' =>
             quote k ++ [58] ++ match v with JObj _ => [32] | _ => [] end ++ print v ++
             match kvs' with [] => [] | _ => sep_of v ++ inner kvs' end
         end) kvs ++ [125]
  end.

Definition mem_text (kv : list Z * json) : list Z := quote kv.1 ++ [58] ++ match kv.2 with JObj _ => [32] | _ => [] end ++ print kv.2.
Fixpoint inner (kvs : list (list Z * json)) : list Z :=
  match kvs with
  | [] => []
  | kv :: kvs' => mem_text kv ++ match kvs' with [] => [] | _ => sep_of kv.2 ++ inner kvs' end
  end.

Lemma print_obj kvs : print (JObj kvs) = [123] ++ inner kvs ++ [125].
Proof.
  cbn [print]. do 2 f_equal. induction kvs as [|[k v] kvs IH]; [done|]. cbn [inner]. unfold mem_text. cbn [fst snd].
  rewrite <- !app_assoc. do 4 f_equal. destruct kvs; [done|]. f_equal. exact IH.
Qed.

(** The members, each with what comes behind it. *)
Definition body (kvs : list (list Z * json)) : list Z := concat (map (fun kv => mem_text kv ++ sep_of kv.2) kvs).

Lemma body_app kvs kvs' : body (kvs ++ kvs') = body kvs ++ body kvs'.
Proof. unfold body. by rewrite map_app, concat_app. Qed.

Lemma body_snoc kvs kv : body (kvs ++ [kv]) = inner (kvs ++ [kv]) ++ sep_of kv.2.
Proof.
  induction kvs as [|kv0 kvs IH]; [by unfold body; simpl; rewrite !app_nil_r|].
  change (body ((kv0 :: kvs) ++ [kv])) with ((mem_text kv0 ++ sep_of kv0.2) ++ body (kvs ++ [kv])). rewrite IH. simpl.
  destruct (kvs ++ [kv]) eqn:E; [by destruct kvs|]. by rewrite <- !app_assoc.
Qed.

(** ** Reading what was printed *)

Definition plain (s : list Z) : bool := forallb plain_char s.

Fixpoint json_ok (v : json) : bool :=
  match v with
  | JNum z => s64 z =? z
  | JStr s => plain s
  | JObj kvs => forallb (fun kv => plain kv.1 && json_ok kv.2) kvs
  end.

Lemma read_string_quote s rest : plain s = true -> read_string (s ++ [34] ++ rest) = Some (s, rest).
Proof.
  induction s as [|ch s IH]; intros H; [done|]. simpl in H. apply andb_prop in H as [Hch H]. simpl. rewrite Hch.
  unfold plain_char in Hch. destruct (Z.eqb_spec ch 34) as [->|]; [done|]. simpl app in IH. by rewrite IH.
Qed.

Lemma read_digits_app ds : forall v rest, Forall (fun ch => isdigit ch = true) ds -> match rest with [] => true | ch :: _ => negb (isdigit ch) end = true ->
  read_digits (ds ++ rest) v = (foldl (fun v ch => 10 * v + (ch - 48)) v ds, rest).
Proof.
  induction ds as [|ch ds IH]; intros v rest Hds Hr; simpl.
  - destruct rest as [|ch rest]; [done|]. simpl. by destruct (isdigit ch).
  - apply Forall_cons_iff in Hds as [Hch Hds]. rewrite Hch. by apply IH.
Qed.

Lemma dec_digits_spec k : forall fuel n, (k < fuel)%nat -> 0 <= n < 10 ^ Z.of_nat (S k) ->
  Forall (fun ch => isdigit ch = true) (dec_digits fuel n) /\ foldl (fun v ch => 10 * v + (ch - 48)) 0 (dec_digits fuel n) = n /\ (length (dec_digits fuel n) <= S k)%nat.
Proof.
  induction k as [|k IH]; intros [|fuel] n Hf Hn; try lia; cbn [dec_digits]; (destruct (Z.ltb_spec n 10) as [Hlt|Hge];
    [split; [constructor; [unfold isdigit; lia|constructor]|]; cbn [foldl length]; lia|]); [simpl in Hn; lia|].
  rewrite Nat2Z.inj_succ, Z.pow_succ_r in Hn by lia. assert (Hd : 0 <= n / 10 < 10 ^ Z.of_nat (S k)) by (split; [apply Z.div_pos; lia|apply Z.div_lt_upper_bound; lia]).
  destruct (IH fuel (n / 10) ltac:(lia) Hd) as (H1 & H2 & H3). pose proof (Z.mod_pos_bound n 10 ltac:(lia)). repeat split.
  - apply Forall_app. split; [done|]. constructor; [unfold isdigit; lia|constructor].
  - rewrite foldl_app, H2. simpl. pose proof (Z.div_mod n 10 ltac:(lia)). lia.
  - rewrite length_app. simpl. lia.
Qed.

Lemma dec_digits_nonempty fuel n : (0 < fuel)%nat -> exists ch l, dec_digits fuel n = ch :: l.
Proof.
  destruct fuel as [|fuel]; [lia|]. intros _. simpl. destruct (n <? 10); [eauto|]. destruct (dec_digits fuel (n / 10)); simpl; eauto.
Qed.

Lemma s64_range z : s64 z = z -> - 2 ^ 63 <= z < 2 ^ 63.
Proof. unfold s64, swrap. change (64 - 1) with 63. intros <-. pose proof (Z.mod_pos_bound (z + 2 ^ 63) (2 ^ 64) ltac:(lia)). lia. Qed.

(** What may come behind a number. *)
Definition stops (rest : list Z) : bool := match rest with [] => true | ch :: _ => negb (isdigit ch) end.

Lemma read_nat_dec n rest : 0 <= n < 10 ^ 19 -> stops rest = true -> read_nat (dec_digits 20 n ++ rest) = Some (n, rest).
Proof.
  intros Hn Hr. destruct (dec_digits_spec 18 20 n ltac:(lia) ltac:(simpl; lia)) as (Hd & Hv & _).
  pose proof (read_digits_app _ 0 rest Hd Hr) as E. rewrite Hv in E. destruct (dec_digits_nonempty 20 n ltac:(lia)) as (ch & l & El). rewrite El in *.
  apply Forall_cons_iff in Hd as [Hch _]. change ((ch :: l) ++ rest) with (ch :: (l ++ rest)) in *. unfold read_nat. by rewrite Hch, E.
Qed.

(** %PRId64 and reading it back. *)
Lemma read_number_dec64 z rest : s64 z = z -> stops rest = true -> read_number (dec64 z ++ rest) = Some (z, rest).
Proof.
  intros Hz Hr. apply s64_range in Hz. unfold dec64. destruct (Z.ltb_spec z 0).
  - change ((45 :: dec_digits 20 (- z)) ++ rest) with (45 :: (dec_digits 20 (- z) ++ rest)). unfold read_number. rewrite read_nat_dec by (done || lia). simpl. do 2 f_equal. lia.
  - pose proof (read_nat_dec z rest ltac:(lia) Hr) as E. destruct (dec_digits_nonempty 20 z ltac:(lia)) as (ch & l & El).
    destruct (dec_digits_spec 18 20 z ltac:(lia) ltac:(simpl; lia)) as (Hd & _). rewrite El in *. apply Forall_cons_iff in Hd as [Hch _].
    simpl app in *. unfold read_number. destruct (Z.eqb_spec ch 45) as [->|]; [done|]. exact E.
Qed.

Lemma dec64_head z : s64 z = z -> exists ch l, dec64 z = ch :: l /\ is_ws ch = false /\ (ch =? 34) = false /\ (ch =? 123) = false.
Proof.
  intros Hz. apply s64_range in Hz. unfold dec64. destruct (Z.ltb_spec z 0); [by do 2 eexists|].
  destruct (dec_digits_nonempty 20 z ltac:(lia)) as (ch & l & El). destruct (dec_digits_spec 18 20 z ltac:(lia) ltac:(simpl; lia)) as (Hd & _). rewrite El in *.
  apply Forall_cons_iff in Hd as [Hch _]. exists ch, l. unfold isdigit in Hch. unfold is_ws. repeat split; lia.
Qed.

Lemma dec64_length z : s64 z = z -> zlen (dec64 z) <= 20.
Proof.
  intros Hz. apply s64_range in Hz. unfold dec64, zlen. destruct (Z.ltb_spec z 0).
  - destruct (dec_digits_spec 18 20 (- z) ltac:(lia) ltac:(simpl; lia)) as (_ & _ & H1). rewrite length_cons. lia.
  - destruct (dec_digits_spec 18 20 z ltac:(lia) ltac:(simpl; lia)) as (_ & _ & H1). lia.
Qed.

Lemma read_value_sp fuel l : read_value fuel (32 :: l) = read_value fuel l.
Proof. by destruct fuel. Qed.
Lemma read_members_sp fuel l : read_members fuel (32 :: l) = read_members fuel l.
Proof. by destruct fuel. Qed.

Lemma inner_cons kv kvs rest : inner (kv :: kvs) ++ [125] ++ rest =
  34 :: kv.1 ++ [34] ++ 58 :: match kv.2 with JObj _ => [32] | _ => [] end ++ print kv.2 ++ match kvs with [] => [125] ++ rest | _ => sep_of kv.2 ++ inner kvs ++ [125] ++ rest end.
Proof. cbn [inner]. unfold mem_text, quote. destruct kvs; rewrite <- ?app_assoc; simpl; by rewrite <- ?app_assoc. Qed.

Lemma read_members_key fuel k l : plain k = true -> read_members (S fuel) (34 :: k ++ [34] ++ 58 :: l) =
  ('(v, l4) ← read_value fuel l;
   match expect 125 l4 with
   | Some l5 => Some ([(k, v)], l5)
   | None => l5 ← expect 44 l4; '(kvs, l6) ← read_members fuel l5; Some ((k, v) :: kvs, l6)
   end).
Proof.
  intros Hk. change (read_members (S fuel) (34 :: k ++ [34] ++ 58 :: l)) with
    ('(k, l2) ← read_string (k ++ [34] ++ 58 :: l); l3 ← expect 58 l2; '(v, l4) ← read_value fuel l3;
     match expect 125 l4 with
     | Some l5 => Some ([(k, v)], l5)
     | None => l5 ← expect 44 l4; '(kvs, l6) ← read_members fuel l5; Some ((k, v) :: kvs, l6)
     end). by rewrite read_string_quote.
Qed.

Lemma read_print fuel :
  (forall v rest, json_ok v = true -> (length (print v) <= fuel)%nat -> stops rest = true -> read_value fuel (print v ++ rest) = Some (v, rest)) /\
  (forall kvs rest, kvs <> [] -> json_ok (JObj kvs) = true -> (length (inner kvs) + 1 <= fuel)%nat -> read_members fuel (inner kvs ++ [125] ++ rest) = Some (kvs, rest)).
Proof.
  induction fuel as [|fuel [IHv IHm]]; split.
  - intros v rest _ Hl. destruct v as [z|s|kvs]; [|simpl in Hl; lia|rewrite print_obj in Hl; simpl in Hl; lia].
    cbn [print] in Hl. unfold dec64 in Hl. destruct (z <? 0); [rewrite length_cons in Hl; lia|]. destruct (dec_digits_nonempty 20 z ltac:(lia)) as (ch & l & El). rewrite El, length_cons in Hl. lia.
  - intros kvs rest Hne _ Hl. lia.
  - intros v rest Hok Hl Hr. destruct v as [z|s|kvs].
    + apply Z.eqb_eq in Hok. pose proof (read_number_dec64 z rest Hok Hr) as E. destruct (dec64_head z Hok) as (ch & l & El & Hws & H34 & H123).
      cbn [print]. rewrite El in *. cbn [read_value]. simpl app. cbn [skip_ws]. rewrite Hws, H34, H123. simpl app in E. by rewrite E.
    + simpl print. unfold quote. rewrite <- !app_assoc. cbn [read_value app skip_ws is_ws]. simpl. change (s ++ 34 :: rest) with (s ++ [34] ++ rest). by rewrite read_string_quote.
    + rewrite print_obj in *. rewrite !length_app in Hl. simpl in Hl. destruct kvs as [|kv kvs]; [done|].
      specialize (IHm (kv :: kvs) rest ltac:(done) Hok ltac:(lia)).
      assert (E : expect 125 (inner (kv :: kvs) ++ [125] ++ rest) = None) by (rewrite inner_cons; reflexivity).
      rewrite <- !app_assoc. set (l := inner (kv :: kvs) ++ [125] ++ rest) in *.
      change (match expect 125 l with Some l'' => Some (JObj [], l'') | None => (fun x => (JObj x.1, x.2)) <$> read_members fuel l end = Some (JObj (kv :: kvs), rest)).
      by rewrite E, IHm.
  - intros [|[k v] kvs] rest Hne Hok Hl; [done|]. rewrite inner_cons. cbn [fst snd]. cbn [json_ok forallb fst snd] in Hok.
    apply andb_prop in Hok as [Hk Hok]. apply andb_prop in Hk as [Hk Hv].
    assert (Hlen : (length (print v) + 3 <= fuel)%nat /\ (length (inner kvs) + 1 <= fuel)%nat).
    { change (inner ((k, v) :: kvs)) with (mem_text (k, v) ++ match kvs with [] => [] | _ => sep_of v ++ inner kvs end) in Hl.
      unfold mem_text, quote in Hl. cbn [fst snd] in Hl. rewrite !length_app in Hl. cbn [length] in Hl.
      destruct kvs as [|kv' kvs]; [cbn [length inner] in *; lia|]. rewrite length_app in Hl. assert (1 <= length (sep_of v))%nat by (destruct v; simpl; lia). lia. }
    set (tail := match kvs with [] => [125] ++ rest | _ => sep_of v ++ inner kvs ++ [125] ++ rest end).
    assert (Ht : stops tail = true) by (unfold tail; destruct kvs; [done|]; by destruct v).
    rewrite read_members_key by done.
    assert (E : read_value fuel (match v with JObj _ => [32] | _ => [] end ++ print v ++ tail) = Some (v, tail)).
    { specialize (IHv v tail Hv ltac:(lia) Ht). destruct v; simpl app; rewrite ?read_value_sp; exact IHv. }
    rewrite E. cbn [mbind option_bind]. unfold tail. destruct kvs as [|kv' kvs]; [done|].
    specialize (IHm (kv' :: kvs) rest ltac:(done) Hok ltac:(lia)).
    assert (E' : exists l, expect 125 (sep_of v ++ inner (kv' :: kvs) ++ [125] ++ rest) = None /\ expect 44 (sep_of v ++ inner (kv' :: kvs) ++ [125] ++ rest) = Some l /\
      read_members fuel l = read_members fuel (inner (kv' :: kvs) ++ [125] ++ rest)) by (destruct v; eexists; (split; [reflexivity|split; [reflexivity|]]); by rewrite ?read_members_sp).
    destruct E' as (l & E1 & E2 & E3). rewrite E1, E2. cbn [mbind option_bind]. by rewrite E3, IHm.
Qed.

(** Reading back what was printed, with a newline behind it. *)
Lemma read_json_print v ws : json_ok v = true -> forallb is_ws ws = true -> read_json (print v ++ ws) = Some v.
Proof.
  intros Hv Hw. unfold read_json. rewrite (proj1 (read_print _) v ws); [|done|rewrite length_app; lia|].
  - replace (skip_ws ws) with (@nil Z); [done|]. induction ws as [|ch ws IH]; [done|]. simpl in Hw. apply andb_prop in Hw as [H1 H2]. simpl. by rewrite H1, <- IH.
  - destruct ws as [|ch ws]; [done|]. simpl in Hw. apply andb_prop in Hw as [H1 _]. simpl. unfold is_ws in H1. unfold isdigit. destruct (Z.leb_spec 48 ch); simpl; [|done]. lia.
Qed.
