(* ===== verification/StatsJson.v ===== *)
(** The response of the statistics port: it fits the buffer, and it is a JSON
    text that reads as the metrics of sum. *)

From stdpp Require Import relations.
From S2P Require Import Prelude State CString Stats StatsShape StatsThreads Json.

(** ** The tree of a response *)

Definition metric_members (l : list stats_metric) : list (list Z * json) := map (fun stm => (stm_name stm, JNum (stm_value stm))) l.
Definition server_member (sts : stats_server) : list Z * json := (sts_name sts, JObj (metric_members (sts_metric sts))).
Definition pool_member (stp : stats_pool) : list Z * json := (stp_name stp, JObj (metric_members (stp_metric stp) ++ map server_member (stp_server stp))).

(** ** The buffer *)

(** The buffer holds [t]; the rest of the struct is [st0]. *)
Definition holding (st0 : stats) (t : list Z) (st : stats) : Prop :=
  exists d, st = st_set_buf_data (Some (t ++ d)) (st_set_buf_len (zlen t) st0) /\ zlen t + zlen d = st_buf_size st0.

Definition small_buf (st0 : stats) : Prop := 0 <= st_buf_size st0 < 2 ^ 31.

Lemma until_nul_plain s : plain s = true -> until_nul s = s.
Proof.
  induction s as [|ch s IH]; [done|]. simpl. intros H. apply andb_prop in H as [Hch H]. rewrite (IH H). unfold plain_char in Hch.
  destruct (Z.eqb_spec ch 0) as [->|]; done.
Qed.

Lemma u64_small z : 0 <= z < 2 ^ 64 -> u64 z = z.
Proof. intros. unfold u64, wrap. by apply Z.mod_small. Qed.

(** snprintf of a text that fits. *)
Lemma stats_add_fits st0 t text st : holding st0 t st -> small_buf st0 -> zlen t + zlen text <= st_buf_size st0 - 2 ->
  exists st', stats_add text st = Some (NC_OK, st') /\ holding st0 (t ++ text) st'.
Proof.
  intros (d & -> & Hd) [_ Hs] Hfit. pose proof (zlen_nonneg t). pose proof (zlen_nonneg text). pose proof (zlen_nonneg d).
  unfold stats_add, the_buf, mbind, ST_bind, gets, reads. cbn [st_buf_data st_buf_len st_buf_size st_set_tick st_set_buf_data st_set_buf_len].
  rewrite u64_small by lia. unfold snprintf_at. rewrite (proj2 (Z.eqb_neq (st_buf_size st0 - zlen t - 1) 0)) by lia.
  rewrite take_ge by (unfold zlen in *; lia). rewrite !zlen_app, (proj2 (Z.leb_le 0 (zlen t))), (proj2 (Z.leb_le _ (zlen t + zlen d))) by (rewrite ?zlen_cons; change (zlen (@nil Z)) with 0; lia).
  cbn [andb]. rewrite s32_small by lia. rewrite (proj2 (Z.ltb_ge (zlen text) 0)), (proj2 (Z.leb_gt _ (zlen text))) by lia. cbn [orb modify mret ST_ret].
  eexists. split; [reflexivity|]. exists ([0] ++ drop (length (text ++ [0])) d). split.
  - rewrite blit_app by done. rewrite u64_small by lia. unfold st_set_buf_len, st_set_buf_data, st_set_tick. cbn. f_equal; [by rewrite zlen_app|]. by rewrite <- !app_assoc.
  - rewrite !zlen_app. unfold zlen in *. rewrite length_drop, length_app. simpl length. lia.
Qed.

(** Storing at an offset of the buffer. *)
Lemma put_at (a b : list Z) x ch : put_char (a ++ x :: b) (zlen a) ch = Some (a ++ ch :: b).
Proof.
  unfold put_char. pose proof (zlen_nonneg a). pose proof (zlen_nonneg b). rewrite (proj2 (Z.leb_le 0 _)), (proj2 (Z.ltb_lt _ _)) by (rewrite ?zlen_app, ?zlen_cons; lia).
  cbn [andb]. f_equal. unfold zlen. rewrite Nat2Z.id, insert_app_r_alt by lia. by rewrite Nat.sub_diag.
Qed.

Lemma buf_put_at st a b x ch pos : st_buf_data st = Some (a ++ x :: b) -> pos = zlen a ->
  buf_put pos ch st = Some (tt, st_set_buf_data (Some (a ++ ch :: b)) st).
Proof. intros Hd ->. unfold buf_put, the_buf, mbind, ST_bind, reads. by rewrite Hd, put_at. Qed.

(** A member is closed by overwriting the separator in front. *)
Lemma end_scalar st0 u st : holding st0 (u ++ [44; 32]) st ->
  exists st', stats_end_nesting st = Some (NC_OK, st') /\ holding st0 (u ++ [125; 44]) st'.
Proof.
  intros (d & -> & Hd). rewrite zlen_app in *. change (zlen [44; 32]) with 2 in *. rewrite <- app_assoc. cbn [app].
  unfold stats_end_nesting. unfold the_buf at 1. unfold mbind, ST_bind, gets, reads. cbn [st_buf_data st_buf_len st_buf_size st_set_tick st_set_buf_data st_set_buf_len].
  replace (zlen u + 2 - 2) with (zlen u) by lia. rewrite rd_app_r by lia. rewrite Z.sub_diag. change (rd (44 :: 32 :: d) 0) with (Some 44). cbv beta iota. change (44 =? 44) with true. cbv beta iota.
  rewrite (buf_put_at _ u (32 :: d) 44) by done.
  rewrite (buf_put_at _ (u ++ [125]) d 32); [|cbn; by rewrite <- app_assoc|rewrite zlen_app; reflexivity].
  eexists. split; [reflexivity|]. exists d. split; [|rewrite zlen_app; exact Hd]. unfold st_set_buf_data, st_set_buf_len, st_set_tick. cbn. f_equal; [by rewrite zlen_app|]. by rewrite <- !app_assoc.
Qed.

Lemma end_object st0 u st : small_buf st0 -> holding st0 (u ++ [125; 44]) st -> zlen u + 3 <= st_buf_size st0 ->
  exists st', stats_end_nesting st = Some (NC_OK, st') /\ holding st0 (u ++ [125; 125; 44]) st'.
Proof.
  intros [_ Hs] (d & -> & Hd) Hsize. pose proof (zlen_nonneg u). rewrite zlen_app in *. change (zlen [125; 44]) with 2 in *.
  destruct d as [|x d]; [change (zlen (@nil Z)) with 0 in Hd; lia|]. rewrite zlen_cons in Hd. rewrite <- app_assoc. cbn [app].
  unfold stats_end_nesting. unfold the_buf at 1. unfold mbind, ST_bind, gets, reads. cbn [st_buf_data st_buf_len st_buf_size st_set_tick st_set_buf_data st_set_buf_len].
  replace (zlen u + 2 - 2) with (zlen u) by lia. rewrite rd_app_r by lia. rewrite Z.sub_diag. change (rd (125 :: 44 :: x :: d) 0) with (Some 125). cbv beta iota. change (125 =? 44) with false. change (125 =? 125) with true. cbv beta iota.
  rewrite (proj2 (Z.eqb_neq (zlen u + 2) (st_buf_size st0))) by lia.
  rewrite (buf_put_at _ (u ++ [125]) (x :: d) 44); [|cbn; by rewrite <- app_assoc|rewrite zlen_app; reflexivity].
  rewrite (buf_put_at _ (u ++ [125; 125]) d x); [|cbn; by rewrite <- !app_assoc|rewrite zlen_app; reflexivity].
  rewrite u64_small by lia.
  eexists. split; [reflexivity|]. exists d. split; [|rewrite zlen_app; change (zlen [125; 125; 44]) with 3; lia].
  unfold modify, st_set_buf_data, st_set_buf_len, st_set_tick. cbn. f_equal; [rewrite zlen_app; change (zlen [125; 125; 44]) with 3; lia|]. by rewrite <- !app_assoc.
Qed.

Lemma footer_closes st0 u st : small_buf st0 -> holding st0 (u ++ [44]) st -> zlen u + 2 <= st_buf_size st0 ->
  exists st', stats_add_footer st = Some (NC_OK, st') /\ holding st0 (u ++ [125; 10]) st'.
Proof.
  intros [_ Hs] (d & -> & Hd) Hsize. pose proof (zlen_nonneg u). rewrite zlen_app in *. change (zlen [44]) with 1 in *.
  destruct d as [|x d]; [change (zlen (@nil Z)) with 0 in Hd; lia|]. rewrite zlen_cons in Hd. rewrite <- app_assoc. cbn [app].
  unfold stats_add_footer, mbind, ST_bind, gets, reads. cbn [st_buf_data st_buf_len st_buf_size st_set_tick st_set_buf_data st_set_buf_len].
  rewrite (proj2 (Z.eqb_neq (zlen u + 1) (st_buf_size st0))) by lia. replace (zlen u + 1 - 1) with (zlen u) by lia.
  rewrite (buf_put_at _ u (x :: d) 44) by done.
  rewrite (buf_put_at _ (u ++ [125]) d x); [|cbn; by rewrite <- !app_assoc|rewrite zlen_app; reflexivity].
  rewrite u64_small by lia.
  eexists. split; [reflexivity|]. exists d. split; [|rewrite zlen_app; change (zlen [125; 10]) with 2; lia].
  unfold modify, st_set_buf_data, st_set_buf_len, st_set_tick. cbn. f_equal; [rewrite zlen_app; change (zlen [125; 10]) with 2; lia|]. by rewrite <- !app_assoc.
Qed.

Lemma inner_snoc kvs kv : inner (kvs ++ [kv]) = body kvs ++ mem_text kv.
Proof.
  induction kvs as [|kv0 kvs IH]; [by simpl; rewrite app_nil_r|]. change (body (kv0 :: kvs)) with ((mem_text kv0 ++ sep_of kv0.2) ++ body kvs). simpl. rewrite IH.
  destruct (kvs ++ [kv]) eqn:E; [by destruct kvs|]. by rewrite <- !app_assoc.
Qed.

Lemma body_inner kvs : kvs <> [] -> (exists u, body kvs = u ++ [44; 32] /\ inner kvs = u) \/ (exists u, body kvs = u ++ [125; 44] /\ inner kvs = u ++ [125]).
Proof.
  intros Hne. destruct (exists_last Hne) as (kvs' & kv & ->). rewrite body_snoc. destruct kv as [k [z|s|m]]; [left; by eexists..|]. right.
  rewrite inner_snoc. unfold mem_text. cbn [fst snd sep_of]. rewrite print_obj. exists (body kvs' ++ quote k ++ [58] ++ [32] ++ [123] ++ inner m). by rewrite <- !app_assoc.
Qed.

(** stats_end_nesting closes an object that has a member. *)
Lemma end_nesting_closes st0 t kvs st : kvs <> [] -> small_buf st0 -> holding st0 (t ++ body kvs) st -> zlen (t ++ body kvs) + 1 <= st_buf_size st0 ->
  exists st', stats_end_nesting st = Some (NC_OK, st') /\ holding st0 (t ++ inner kvs ++ [125; 44]) st'.
Proof.
  intros Hne Hs H Hfit. destruct (body_inner kvs Hne) as [(u & Eb & Ei)|(u & Eb & Ei)]; rewrite Eb, Ei in *; rewrite app_assoc in *.
  - by apply end_scalar.
  - rewrite zlen_app in Hfit. change (zlen [125; 44]) with 2 in Hfit. destruct (end_object _ _ _ Hs H ltac:(lia)) as (st' & E & H'). exists st'. split; [done|].
    by rewrite <- !app_assoc in *.
Qed.

(** ** The members of the response *)

Lemma then_ok_run (m k : M Z) st st1 : m st = Some (NC_OK, st1) -> then_ok m k st = k st1.
Proof. unfold then_ok, mbind, ST_bind. by intros ->. Qed.

(** [m] adds [text], for which the buffer has [size] bytes. *)
Definition adds (st0 : stats) (m : M Z) (text : list Z) (size : Z) : Prop :=
  forall t st, holding st0 t st -> zlen t + size <= st_buf_size st0 - 2 -> exists st', m st = Some (NC_OK, st') /\ holding st0 (t ++ text) st'.

Lemma adds_then st0 m k text1 text2 size1 size2 : adds st0 m text1 size1 -> adds st0 k text2 size2 -> zlen text1 <= size1 -> 0 <= size2 ->
  adds st0 (then_ok m k) (text1 ++ text2) (size1 + size2).
Proof.
  intros Hm Hk H1 H2 t st H Hfit. destruct (Hm t st H ltac:(lia)) as (st1 & E1 & Hst1).
  destruct (Hk _ st1 Hst1) as (st2 & E2 & Hst2); [rewrite zlen_app; lia|]. exists st2. rewrite (then_ok_run _ _ _ _ E1). split; [done|]. by rewrite app_assoc.
Qed.

Lemma adds_nothing st0 : adds st0 (mret NC_OK) [] 0.
Proof. intros t st H _. exists st. split; [done|]. by rewrite app_nil_r. Qed.

Definition metric_fit (stm : stats_metric) : Prop := plain (stm_name stm) = true /\ s64 (stm_value stm) = stm_value stm.
Definition server_fit (sts : stats_server) : Prop := plain (sts_name sts) = true /\ sts_metric sts <> [] /\ Forall metric_fit (sts_metric sts).
Definition pool_fit (stp : stats_pool) : Prop :=
  plain (stp_name stp) = true /\ stp_metric stp <> [] /\ Forall metric_fit (stp_metric stp) /\ Forall server_fit (stp_server stp).

Lemma body_one kv : body [kv] = mem_text kv ++ sep_of kv.2.
Proof. unfold body. cbn [map concat]. apply app_nil_r. Qed.

Lemma num_entry_text k z : plain k = true -> num_entry k z = body [(k, JNum z)].
Proof. intros Hk. rewrite body_one. unfold num_entry, mem_text, quote. cbn [fst snd print sep_of]. rewrite until_nul_plain by done. by rewrite <- !app_assoc. Qed.

Lemma string_entry_text k s : plain k = true -> plain s = true -> string_entry k s = body [(k, JStr s)].
Proof.
  intros Hk Hs. rewrite body_one. unfold string_entry, mem_text. cbn [fst snd print sep_of]. unfold quote. rewrite !until_nul_plain by done. by rewrite <- !app_assoc.
Qed.

Lemma zlen_num k z : s64 z = z -> zlen (body [(k, JNum z)]) <= num_size k.
Proof.
  intros Hz. pose proof (dec64_length z Hz). rewrite body_one. unfold mem_text, quote, num_size, int64_max_digits, key_value_extra. cbn [fst snd print sep_of].
  rewrite !zlen_app. change (zlen [34]) with 1. change (zlen [58]) with 1. change (zlen [44; 32]) with 2. change (zlen (@nil Z)) with 0. lia.
Qed.

Lemma zlen_str k s : zlen (body [(k, JStr s)]) <= zlen k + zlen s + key_value_extra.
Proof.
  rewrite body_one. unfold mem_text, quote, key_value_extra. cbn [fst snd print sep_of]. unfold quote.
  rewrite !zlen_app. change (zlen [34]) with 1. change (zlen [58]) with 1. change (zlen [44; 32]) with 2. change (zlen (@nil Z)) with 0. lia.
Qed.

Lemma num_size_nonneg k : 0 <= num_size k.
Proof. unfold num_size, int64_max_digits, key_value_extra. pose proof (zlen_nonneg k). lia. Qed.
Lemma metrics_size_nonneg l : 0 <= metrics_size l.
Proof. induction l as [|stm l IH]; simpl; [lia|]. pose proof (num_size_nonneg (stm_name stm)). lia. Qed.
Lemma servers_size_nonneg l : 0 <= servers_size l.
Proof. induction l as [|sts l IH]; simpl; [lia|]. pose proof (metrics_size_nonneg (sts_metric sts)). pose proof (zlen_nonneg (sts_name sts)). unfold server_extra. lia. Qed.
Lemma pools_size_nonneg l : 0 <= pools_size l.
Proof.
  induction l as [|stp l IH]; simpl; [lia|]. pose proof (metrics_size_nonneg (stp_metric stp)). pose proof (servers_size_nonneg (stp_server stp)).
  pose proof (zlen_nonneg (stp_name stp)). unfold pool_extra. lia.
Qed.

Section Members.
Context {st0 : stats} (Hsmall : small_buf st0).

Lemma adds_text text size : zlen text <= size -> adds st0 (stats_add text) text size.
Proof. intros Ht t st H Hfit. apply stats_add_fits; [done..|lia]. Qed.

Lemma adds_num k z : plain k = true -> s64 z = z -> adds st0 (stats_add_num k z) (body [(k, JNum z)]) (num_size k).
Proof. intros Hk Hz. unfold stats_add_num. rewrite num_entry_text by done. apply adds_text. by apply zlen_num. Qed.

Lemma adds_string k s : plain k = true -> plain s = true -> adds st0 (stats_add_string k s) (body [(k, JStr s)]) (zlen k + zlen s + key_value_extra).
Proof. intros Hk Hs. unfold stats_add_string. rewrite string_entry_text by done. apply adds_text. apply zlen_str. Qed.

Lemma zlen_metrics l : Forall metric_fit l -> zlen (body (metric_members l)) <= metrics_size l.
Proof.
  induction 1 as [|stm l [Hk Hz] _ IH]; [done|]. change (body (metric_members (stm :: l))) with (body ([(stm_name stm, JNum (stm_value stm))] ++ metric_members l)).
  rewrite body_app, zlen_app. pose proof (zlen_num (stm_name stm) _ Hz). change (metrics_size (stm :: l)) with (num_size (stm_name stm) + metrics_size l). lia.
Qed.

Lemma adds_metrics l : Forall metric_fit l -> adds st0 (stats_copy_metric l) (body (metric_members l)) (metrics_size l).
Proof.
  induction 1 as [|stm l [Hk Hz] Hl IH]; [apply adds_nothing|].
  change (body (metric_members (stm :: l))) with (body ([(stm_name stm, JNum (stm_value stm))] ++ metric_members l)). rewrite body_app.
  apply (adds_then st0 (stats_add_num (stm_name stm) (stm_value stm)) (stats_copy_metric l)); [by apply adds_num|done|by apply zlen_num|apply metrics_size_nonneg].
Qed.

(** A nested object: its name, its members, its end. *)
Lemma adds_nested name (m k : M Z) kvs size rest rsize : plain name = true -> kvs <> [] -> zlen (body kvs) <= size -> 0 <= rsize ->
  adds st0 m (body kvs) size -> adds st0 k rest rsize ->
  adds st0 (then_ok (stats_begin_nesting name) (then_ok m (then_ok stats_end_nesting k))) (body [(name, JObj kvs)] ++ rest) (zlen name + 8 + size + rsize).
Proof.
  intros Hn Hne Hsz Hr Hm Hk t st H Hfit. pose proof (zlen_nonneg (body kvs)).
  assert (Hnest : zlen (nest_entry name) = zlen name + 5) by (unfold nest_entry; rewrite until_nul_plain, !zlen_app by done; change (zlen [34]) with 1; change (zlen [34; 58; 32; 123]) with 4; lia).
  destruct (stats_add_fits st0 t (nest_entry name) st H Hsmall ltac:(lia)) as (st1 & E1 & H1).
  destruct (Hm _ st1 H1) as (st2 & E2 & H2); [rewrite zlen_app; lia|].
  destruct (end_nesting_closes st0 _ kvs st2 Hne Hsmall H2) as (st3 & E3 & H3); [rewrite !zlen_app; lia|].
  assert (El : zlen (inner kvs) <= zlen (body kvs)) by (destruct (body_inner kvs Hne) as [(u & -> & ->)|(u & -> & ->)]; rewrite !zlen_app; simpl; unfold zlen; simpl; lia).
  destruct (Hk _ st3 H3) as (st4 & E4 & H4); [rewrite !zlen_app; change (zlen [125; 44]) with 2; lia|].
  exists st4. unfold stats_begin_nesting. rewrite (then_ok_run _ _ _ _ E1), (then_ok_run _ _ _ _ E2), (then_ok_run _ _ _ _ E3). split; [done|].
  assert (Et : body [(name, JObj kvs)] = nest_entry name ++ inner kvs ++ [125; 44]).
  { rewrite body_one. unfold mem_text. cbn [fst snd sep_of]. rewrite print_obj. unfold nest_entry, quote. rewrite until_nul_plain by done. by rewrite <- !app_assoc. }
  rewrite Et. by rewrite <- !app_assoc in *.
Qed.

Lemma zlen_nested name kvs : kvs <> [] -> zlen (body [(name, JObj kvs)]) <= zlen name + 8 + zlen (body kvs).
Proof.
  intros Hne. rewrite body_one. unfold mem_text. cbn [fst snd sep_of]. rewrite print_obj. unfold quote.
  destruct (body_inner kvs Hne) as [(u & -> & ->)|(u & -> & ->)]; rewrite !zlen_app; unfold zlen; cbn [length]; lia.
Qed.

Lemma metric_members_nonempty l : l <> [] -> metric_members l <> [].
Proof. by destruct l. Qed.

Lemma zlen_servers l : Forall server_fit l -> zlen (body (map server_member l)) <= servers_size l.
Proof.
  induction 1 as [|sts l (Hn & Hne & Hm) _ IH]; [done|]. change (map server_member (sts :: l)) with ([server_member sts] ++ map server_member l).
  rewrite body_app, zlen_app. pose proof (zlen_nested (sts_name sts) _ (metric_members_nonempty _ Hne)) as H1. pose proof (zlen_metrics _ Hm). fold (server_member sts) in H1.
  change (servers_size (sts :: l)) with (zlen (sts_name sts) + server_extra + metrics_size (sts_metric sts) + servers_size l). unfold server_extra. lia.
Qed.

Lemma adds_servers l : Forall server_fit l -> adds st0 (stats_copy_servers l) (body (map server_member l)) (servers_size l).
Proof.
  induction 1 as [|sts l (Hn & Hne & Hm) _ IH]; [apply adds_nothing|].
  change (map server_member (sts :: l)) with ([server_member sts] ++ map server_member l). rewrite body_app.
  apply adds_nested; [done|by apply metric_members_nonempty|by apply zlen_metrics|apply servers_size_nonneg|by apply adds_metrics|done].
Qed.

Definition pool_members (stp : stats_pool) : list (list Z * json) := metric_members (stp_metric stp) ++ map server_member (stp_server stp).

Lemma pool_members_nonempty stp : stp_metric stp <> [] -> pool_members stp <> [].
Proof. unfold pool_members. by destruct (stp_metric stp). Qed.

Lemma zlen_pool stp : pool_fit stp -> zlen (body (pool_members stp)) <= metrics_size (stp_metric stp) + servers_size (stp_server stp).
Proof. intros (_ & _ & Hm & Hs). unfold pool_members. rewrite body_app, zlen_app. pose proof (zlen_metrics _ Hm). pose proof (zlen_servers _ Hs). lia. Qed.

Lemma adds_pool_members stp : pool_fit stp ->
  adds st0 (then_ok (stats_copy_metric (stp_metric stp)) (stats_copy_servers (stp_server stp))) (body (pool_members stp)) (metrics_size (stp_metric stp) + servers_size (stp_server stp)).
Proof.
  intros (_ & _ & Hm & Hs). unfold pool_members. rewrite body_app.
  apply adds_then; [by apply adds_metrics|by apply adds_servers|by apply zlen_metrics|apply servers_size_nonneg].
Qed.

Lemma zlen_pools l : Forall pool_fit l -> zlen (body (map pool_member l)) <= pools_size l.
Proof.
  induction 1 as [|stp l Hp _ IH]; [done|]. pose proof Hp as (_ & Hne & _). change (map pool_member (stp :: l)) with ([pool_member stp] ++ map pool_member l).
  rewrite body_app, zlen_app. pose proof (zlen_nested (stp_name stp) _ (pool_members_nonempty _ Hne)) as H1. pose proof (zlen_pool _ Hp).
  change (stp_name stp, JObj (pool_members stp)) with (pool_member stp) in H1.
  change (pools_size (stp :: l)) with (zlen (stp_name stp) + 8 + metrics_size (stp_metric stp) + servers_size (stp_server stp) + pools_size l). lia.
Qed.

Lemma then_ok_assoc (a b c : M Z) st : then_ok (then_ok a b) c st = then_ok a (then_ok b c) st.
Proof.
  unfold then_ok, mbind, ST_bind. destruct (a st) as [[s st1]|]; [|done]. destruct (Z.eqb_spec s NC_OK) as [->|Hs]; simpl; [done|].
  by rewrite (proj2 (Z.eqb_neq s NC_OK)).
Qed.

Lemma then_ok_ext (m k k' : M Z) st : (forall st, k st = k' st) -> then_ok m k st = then_ok m k' st.
Proof. intros H. unfold then_ok, mbind, ST_bind. destruct (m st) as [[s st1]|]; [|done]. by destruct (negb _). Qed.

Lemma adds_pools l : Forall pool_fit l -> adds st0 (stats_copy_pools l) (body (map pool_member l)) (pools_size l).
Proof.
  induction 1 as [|stp l Hp _ IH]; [apply adds_nothing|]. pose proof Hp as (Hn & Hne & _).
  change (map pool_member (stp :: l)) with ([pool_member stp] ++ map pool_member l). rewrite body_app.
  change (pools_size (stp :: l)) with (zlen (stp_name stp) + 8 + metrics_size (stp_metric stp) + servers_size (stp_server stp) + pools_size l).
  intros t st H Hfit. cbn [stats_copy_pools].
  destruct (adds_nested (stp_name stp) _ (stats_copy_pools l) (pool_members stp) _ (body (map pool_member l)) (pools_size l) Hn (pool_members_nonempty _ Hne) (zlen_pool _ Hp)
    (pools_size_nonneg l) (adds_pool_members _ Hp) IH t st H ltac:(lia)) as (st' & E & H').
  exists st'. split; [|exact H']. rewrite <- E. apply then_ok_ext. intros st1. symmetry. apply then_ok_assoc.
Qed.

End Members.

(** ** The response *)

Section Response.
Context `{env : StatsEnv}.

(** The clock, the process id and the count of connections are integers of
    64 bits. *)
Definition env_ok : Prop := (forall n, s64 (se_time n) = se_time n) /\ s64 se_pid = se_pid /\ (forall n, s64 (se_ncurr_conn n) = se_ncurr_conn n).

Definition header_members (st : stats) : list (list Z * json) :=
  let now := se_time (st_tick st) in
  [(bytes_of "service", JStr (bytes_of "nutcracker")); (bytes_of "source", JStr (st_source st)); (bytes_of "version", JStr (st_version st));
   (bytes_of "uptime", JNum (s64 (now - st_start_ts st))); (bytes_of "pid", JNum se_pid); (bytes_of "timestamp", JNum now);
   (bytes_of "total_connections", JNum (s64 (se_ntotal_conn (S (st_tick st))))); (bytes_of "curr_connections", JNum (se_ncurr_conn (S (S (st_tick st)))))].

(** What a reader of a response of [st] gets. *)
Definition stats_json (st : stats) : json := JObj (header_members st ++ map pool_member (st_sum st)).

Lemma ask_holds {A} (f : nat -> A) st0 t st : holding st0 t st ->
  exists st', s_ask f st = Some (f (st_tick st0), st') /\ holding (st_set_tick (S (st_tick st0)) st0) t st'.
Proof. intros (d & -> & Hd). eexists. split; [reflexivity|]. by exists d. Qed.

Lemma open_brace st d : st_buf_data st = Some d -> zlen d = st_buf_size st -> 1 <= st_buf_size st ->
  exists st', buf_put 0 123 st = Some (tt, st') /\ holding st [123] (st_set_buf_len 1 st').
Proof.
  intros Hd Hl H1. destruct d as [|x d]; [change (zlen (@nil Z)) with 0 in Hl; lia|]. rewrite (buf_put_at st [] d x 123 0 Hd eq_refl).
  eexists. split; [reflexivity|]. exists d. split; [done|]. rewrite zlen_cons in Hl. by change (zlen [123]) with 1.
Qed.

Lemma holding_frame st0 t st : holding st0 t st -> st_start_ts st = st_start_ts st0 /\ st_source st = st_source st0 /\ st_version st = st_version st0 /\ st_sum st = st_sum st0.
Proof. by intros (d & -> & _). Qed.

(** An entry of the header, with [used] bytes of the buffer counted so far. *)
Lemma header_step st0 m k t text size used st (Q : stats -> Prop) : adds st0 m text size -> zlen text <= size -> holding st0 t st -> zlen t <= used -> used + size <= st_buf_size st0 - 2 ->
  (forall st1, holding st0 (t ++ text) st1 -> zlen (t ++ text) <= used + size -> exists st', k st1 = Some (NC_OK, st') /\ Q st') -> exists st', then_ok m k st = Some (NC_OK, st') /\ Q st'.
Proof.
  intros Hm Ht H Hu Hfit Hk. destruct (Hm t st H ltac:(lia)) as (st1 & E1 & H1). rewrite (then_ok_run _ _ _ _ E1). apply Hk; [done|]. rewrite zlen_app. lia.
Qed.

Lemma adds_ask_num (f : nat -> Z) (g : Z -> Z) st0 k : small_buf st0 -> plain k = true -> (forall n, s64 (g (f n)) = g (f n)) ->
  forall t st, holding st0 t st -> zlen t + num_size k <= st_buf_size st0 - 2 ->
  exists st', (n ← s_ask f; stats_add_num k (g n)) st = Some (NC_OK, st') /\
    holding (st_set_tick (S (st_tick st0)) st0) (t ++ body [(k, JNum (g (f (st_tick st0))))]) st'.
Proof.
  intros Hs Hk Hg t st H Hfit. destruct (ask_holds f _ _ _ H) as (st1 & E1 & H1). unfold mbind at 1, ST_bind at 1. rewrite E1.
  by apply (adds_num (st0 := st_set_tick (S (st_tick st0)) st0)); [|done|apply Hg|..].
Qed.

Ltac text_lengths :=
  repeat match goal with
    | |- context[zlen (bytes_of ?s)] => let v := eval vm_compute in (zlen (bytes_of s)) in change (zlen (bytes_of s)) with v
    | H : context[zlen (bytes_of ?s)] |- _ => let v := eval vm_compute in (zlen (bytes_of s)) in change (zlen (bytes_of s)) with v in H
    end.

Ltac header_sizes := unfold num_size, int64_max_digits, key_value_extra in *; text_lengths; cbn [st_set_tick st_buf_size]; lia.

Lemma header_fits st d : env_ok -> small_buf st -> st_buf_data st = Some d -> zlen d = st_buf_size st -> plain (st_source st) = true -> plain (st_version st) = true ->
  header_size (st_source st) (st_version st) <= st_buf_size st - 2 ->
  exists st', stats_add_header st = Some (NC_OK, st') /\ holding (st_set_tick (S (S (S (st_tick st)))) st) ([123] ++ body (header_members st)) st'.
Proof.
  intros (Et & Ep & Ec) Hs Hd Hl Hsrc Hver Hsize. pose proof (zlen_nonneg (st_source st)). pose proof (zlen_nonneg (st_version st)). unfold header_size in Hsize.
  destruct (open_brace st d Hd Hl ltac:(header_sizes)) as (s1 & E1 & H1).
  destruct (ask_holds se_time _ _ _ H1) as (s2 & E2 & H2). pose proof (holding_frame _ _ _ H2) as (F1 & F2 & F3 & _).
  unfold stats_add_header, mbind, ST_bind. rewrite E1. unfold modify at 1. rewrite E2. unfold gets. rewrite F1, F2, F3. cbn [st_start_ts st_source st_version st_set_tick].
  set (st1 := st_set_tick (S (st_tick st)) st) in *. assert (Hs1 : small_buf st1) by exact Hs. assert (Hb1 : st_buf_size st1 = st_buf_size st) by done.
  eapply (header_step _ _ _ [123] _ _ 1); [by apply adds_string|apply zlen_str|exact H2|done|header_sizes|]. intros s3 H3 L3.
  eapply header_step; [by apply adds_string|apply zlen_str|exact H3|exact L3|header_sizes|]. intros s4 H4 L4.
  eapply header_step; [by apply adds_string|apply zlen_str|exact H4|exact L4|header_sizes|]. intros s5 H5 L5.
  eapply header_step; [by apply adds_num; [..|apply s64_s64]|apply zlen_num, s64_s64|exact H5|exact L5|header_sizes|]. intros s6 H6 L6.
  eapply header_step; [by apply adds_num|by apply zlen_num|exact H6|exact L6|header_sizes|]. intros s7 H7 L7.
  eapply header_step; [by apply adds_num|by apply zlen_num|exact H7|exact L7|header_sizes|]. intros s8 H8 L8.
  destruct (adds_ask_num se_ntotal_conn s64 st1 (bytes_of "total_connections") Hs1 eq_refl ltac:(intros; apply s64_s64) _ _ H8 ltac:(header_sizes)) as (s9 & E9 & H9).
  rewrite (then_ok_run _ _ _ _ E9). set (st2 := st_set_tick (S (st_tick st1)) st1) in *. assert (Hs2 : small_buf st2) by exact Hs. assert (Hb2 : st_buf_size st2 = st_buf_size st) by done.
  pose proof (zlen_num (bytes_of "total_connections") (s64 (se_ntotal_conn (st_tick st1))) (s64_s64 _)) as L9.
  destruct (adds_ask_num se_ncurr_conn id st2 (bytes_of "curr_connections") Hs2 eq_refl Ec _ _ H9 ltac:(rewrite zlen_app; header_sizes)) as (s10 & E10 & H10).
  unfold id in E10. rewrite (then_ok_run _ _ _ _ E10). exists s10. split; [reflexivity|].
  replace ([123] ++ body (header_members st)) with (((((((([123] ++ body [(bytes_of "service", JStr (bytes_of "nutcracker"))]) ++ body [(bytes_of "source", JStr (st_source st))]) ++
    body [(bytes_of "version", JStr (st_version st))]) ++ body [(bytes_of "uptime", JNum (s64 (se_time (st_tick st) - st_start_ts st)))]) ++ body [(bytes_of "pid", JNum se_pid)]) ++
    body [(bytes_of "timestamp", JNum (se_time (st_tick st)))]) ++ body [(bytes_of "total_connections", JNum (s64 (se_ntotal_conn (S (st_tick st)))))]) ++
    body [(bytes_of "curr_connections", JNum (se_ncurr_conn (S (S (st_tick st)))))]); [exact H10|].
  rewrite <- !app_assoc, <- !body_app. reflexivity.
Qed.

Lemma zlen_body_cons kv kv' kvs : zlen (body (kv :: kv' :: kvs)) = zlen (body [kv]) + zlen (body (kv' :: kvs)).
Proof. change (kv :: kv' :: kvs) with ([kv] ++ kv' :: kvs). by rewrite body_app, zlen_app. Qed.

Lemma zlen_header st : env_ok -> zlen ([123] ++ body (header_members st)) <= header_size (st_source st) (st_version st).
Proof.
  intros (Et & Ep & Ec). unfold header_members. cbv zeta. rewrite zlen_app, !zlen_body_cons. change (zlen [123]) with 1. unfold header_size.
  pose proof (zlen_str (bytes_of "service") (bytes_of "nutcracker")). pose proof (zlen_str (bytes_of "source") (st_source st)). pose proof (zlen_str (bytes_of "version") (st_version st)).
  pose proof (zlen_num (bytes_of "uptime") _ (s64_s64 (se_time (st_tick st) - st_start_ts st))). pose proof (zlen_num (bytes_of "pid") _ Ep).
  pose proof (zlen_num (bytes_of "timestamp") _ (Et (st_tick st))). pose proof (zlen_num (bytes_of "total_connections") _ (s64_s64 (se_ntotal_conn (S (st_tick st))))).
  pose proof (zlen_num (bytes_of "curr_connections") _ (Ec (S (S (st_tick st))))). lia.
Qed.

Lemma metrics_json_ok l : Forall metric_fit l -> forallb (fun kv => plain kv.1 && json_ok kv.2) (metric_members l) = true.
Proof. induction 1 as [|stm l [Hk Hz] _ IH]; [done|]. simpl. rewrite Hk, Hz, Z.eqb_refl. exact IH. Qed.

Lemma servers_json_ok l : Forall server_fit l -> forallb (fun kv => plain kv.1 && json_ok kv.2) (map server_member l) = true.
Proof. induction 1 as [|sts l (Hn & _ & Hm) _ IH]; [done|]. simpl. rewrite Hn, IH, (metrics_json_ok _ Hm). done. Qed.

Lemma pools_json_ok l : Forall pool_fit l -> forallb (fun kv => plain kv.1 && json_ok kv.2) (map pool_member l) = true.
Proof.
  induction 1 as [|stp l (Hn & _ & Hm & Hs) _ IH]; [done|]. simpl. rewrite Hn, IH, forallb_app, (metrics_json_ok _ Hm), (servers_json_ok _ Hs). done.
Qed.

Lemma stats_json_ok st : env_ok -> plain (st_source st) = true -> plain (st_version st) = true -> Forall pool_fit (st_sum st) -> json_ok (stats_json st) = true.
Proof.
  intros (Et & Ep & Ec) Hs Hv Hp. unfold stats_json. cbn [json_ok]. rewrite forallb_app, (pools_json_ok _ Hp), andb_true_r.
  unfold header_members. cbv zeta. cbn [forallb fst snd json_ok]. rewrite Hs, Hv, Ep, Et, Ec, !s64_s64, !Z.eqb_refl. reflexivity.
Qed.

(** stats_make_rsp of a struct whose buffer has the size that was counted. *)
Lemma make_rsp_fits st d : env_ok -> small_buf st -> st_buf_data st = Some d -> zlen d = st_buf_size st -> plain (st_source st) = true -> plain (st_version st) = true ->
  Forall pool_fit (st_sum st) -> st_sum st <> [] -> header_size (st_source st) (st_version st) + pools_size (st_sum st) <= st_buf_size st - 2 ->
  exists st', stats_make_rsp st = Some (NC_OK, st') /\ holding (st_set_tick (S (S (S (st_tick st)))) st) (print (stats_json st) ++ [10]) st'.
Proof.
  intros He Hs Hd Hl Hsrc Hver Hp Hne Hsize. pose proof (pools_size_nonneg (st_sum st)). pose proof (zlen_header st He) as Lh. pose proof (zlen_pools _ Hp) as Lp.
  destruct (header_fits st d He Hs Hd Hl Hsrc Hver ltac:(lia)) as (st1 & E1 & H1). pose proof (holding_frame _ _ _ H1) as (_ & _ & _ & F). cbn [st_sum st_set_tick] in F.
  set (st0 := st_set_tick (S (S (S (st_tick st)))) st) in *. assert (Hb : st_buf_size st0 = st_buf_size st) by done. assert (Hs0 : small_buf st0) by exact Hs.
  destruct (adds_pools Hs0 (st_sum st) Hp _ _ H1 ltac:(lia)) as (st2 & E2 & H2). rewrite <- app_assoc, <- body_app in H2.
  unfold stats_make_rsp. rewrite (then_ok_run _ _ _ _ E1). unfold mbind, ST_bind, gets. rewrite F, (then_ok_run _ _ _ _ E2).
  set (kvs := header_members st ++ map pool_member (st_sum st)) in *.
  assert (Ek : body kvs = inner kvs ++ [44]).
  { destruct (exists_last Hne) as (l & stp & El). unfold kvs. rewrite El, map_app, app_assoc. apply body_snoc. }
  assert (Lk : zlen ([123] ++ inner kvs) + 1 <= st_buf_size st - 2).
  { assert (Hz : zlen ([123] ++ body kvs) <= st_buf_size st - 2) by (unfold kvs; rewrite body_app, app_assoc, zlen_app; lia). rewrite Ek, app_assoc, zlen_app in Hz. exact Hz. }
  rewrite Ek, app_assoc in H2. destruct (footer_closes st0 _ st2 Hs0 H2 ltac:(lia)) as (st3 & E3 & H3).
  rewrite (then_ok_run _ _ _ _ E3). exists st3. split; [done|]. unfold stats_json. fold kvs. rewrite print_obj. by rewrite <- !app_assoc in *.
Qed.

(** stats_send_rsp sends a text that reads as [stats_json]. *)
Lemma send_rsp_reads st d : env_ok -> small_buf st -> st_buf_data st = Some d -> zlen d = st_buf_size st -> plain (st_source st) = true -> plain (st_version st) = true ->
  Forall pool_fit (st_sum st) -> st_sum st <> [] -> header_size (st_source st) (st_version st) + pools_size (st_sum st) <= st_buf_size st - 2 ->
  exists x st', stats_send_rsp st = Some (x, st') /\ (x.2 = None -> (exists n, se_accept n < 0) \/ (exists n, se_sendn n < 0)) /\
  forall text, x.2 = Some text -> read_json text = Some (stats_json st).
Proof.
  intros He Hs Hd Hl Hsrc Hver Hp Hne Hsize. destruct (make_rsp_fits st d He Hs Hd Hl Hsrc Hver Hp Hne Hsize) as (st1 & E1 & H1).
  destruct (ask_holds se_accept _ _ _ H1) as (st2 & E2 & H2). destruct (ask_holds se_sendn _ _ _ H2) as (st3 & E3 & _).
  destruct H2 as (d2 & -> & _). unfold stats_send_rsp, mbind at 1, ST_bind at 1. rewrite E1. cbn [negb Z.eqb]. change (NC_OK =? NC_OK) with true. cbn [negb].
  unfold mbind at 1, ST_bind at 1. rewrite E2. destruct (Z.ltb_spec (se_accept (st_tick (st_set_tick (S (S (S (st_tick st)))) st))) 0) as [Ha|Ha].
  - do 2 eexists. split; [reflexivity|]. split; [eauto|done].
  - unfold the_buf, mbind, ST_bind, reads, gets. cbn [st_buf_data st_buf_len st_set_buf_data st_set_buf_len]. rewrite E3.
    match goal with |- context[?a <? 0] => destruct (Z.ltb_spec a 0) as [Hn|Hn] end; (do 2 eexists; split; [reflexivity|]); cbn [snd]; (split; [first [done|eauto]|]); [done|].
    intros text Ex. apply (inj Some) in Ex. rewrite <- Ex. unfold zlen. rewrite Nat2Z.id, take_app_length. apply read_json_print; [by apply stats_json_ok|done].
Qed.

(** ** Reachable states *)

Lemma metrics_shape_fit l codec : stats_metric_reset l = codec -> Forall (fun stm => plain (stm_name stm) = true) codec -> codec <> [] ->
  Forall metric_ok l -> l <> [] /\ Forall metric_fit l.
Proof.
  intros <- Hc Hne Hok. split; [by destruct l|]. unfold stats_metric_reset in Hc. apply Forall_map in Hc. clear Hne.
  induction Hok as [|stm l Hm _ IH]; [constructor|]. apply Forall_cons_iff in Hc as [Hn Hc]. constructor; [by split|by apply IH].
Qed.

Lemma codecs_plain : Forall (fun stm => plain (stm_name stm) = true) stats_pool_codec /\ Forall (fun stm => plain (stm_name stm) = true) stats_server_codec.
Proof. split; repeat constructor. Qed.

Definition names_plain (pools : list (list Z * list (list Z))) : bool := forallb (fun sp => plain sp.1 && forallb plain sp.2) pools.

Lemma all_ok_pool l p stp : all_ok l -> l !! p = Some stp -> Forall metric_ok (stp_metric stp) /\ Forall (fun sts => Forall metric_ok (sts_metric sts)) (stp_server stp).
Proof.
  intros Hok Hp. split.
  - apply Forall_lookup. intros k stm Hk. apply (Hok (pool_addr p k)). unfold metric_at. simpl. by rewrite Hp.
  - apply Forall_lookup. intros s sts Hs. apply Forall_lookup. intros k stm Hk. apply (Hok (server_addr p s k)). unfold metric_at. simpl. rewrite Hp. simpl. by rewrite Hs.
Qed.

Lemma pool_shape_fit stp sp : plain sp.1 && forallb plain sp.2 = true ->
  mk_stp (stp_name stp) (stats_metric_reset (stp_metric stp)) (map (fun sts => sts_set_metric (stats_metric_reset (sts_metric sts)) sts) (stp_server stp)) = fresh_pool sp ->
  Forall metric_ok (stp_metric stp) -> Forall (fun sts => Forall metric_ok (sts_metric sts)) (stp_server stp) -> pool_fit stp.
Proof.
  intros Hpl E Hm Hs. apply andb_prop in Hpl as [Hp1 Hp2]. unfold fresh_pool in E. injection E as En Em Es.
  destruct (metrics_shape_fit _ _ Em (proj1 codecs_plain) ltac:(done) Hm) as [Hne Hf]. split; [by rewrite En|]. split; [done|]. split; [done|].
  clear Em Hm Hne Hf. revert Hp2 Es Hs. generalize (stp_server stp) as l. generalize (sp.2) as names. induction names as [|n names IH]; intros [|sts l] Hp2 Es Hs; try done.
  cbn [map] in Es. injection Es as E1 E2 Es. apply Forall_cons_iff in Hs as [Hs1 Hs]. simpl in Hp2. apply andb_prop in Hp2 as [Hn Hp2].
  destruct (metrics_shape_fit _ _ E2 (proj2 codecs_plain) ltac:(done) Hs1) as [Hne Hf]. constructor; [|by apply IH]. split; [by rewrite E1|done].
Qed.

Lemma sum_fit pools l : names_plain pools = true -> same_shape l (fresh_pools pools) -> all_ok l -> Forall pool_fit l.
Proof.
  intros Hn Hs Hok. apply Forall_lookup. intros p stp Hp. destruct (all_ok_pool _ _ _ Hok Hp) as [Hm Hsv].
  unfold same_shape in Hs. rewrite fresh_zero in Hs. assert (E : stats_pool_reset l !! p = fresh_pools pools !! p) by by rewrite Hs.
  unfold stats_pool_reset, fresh_pools in E. rewrite !list_lookup_fmap, Hp in E. destruct (pools !! p) as [sp|] eqn:Esp; [|done]. simpl in E. apply (inj Some) in E.
  apply (pool_shape_fit stp sp); [|done..]. unfold names_plain in Hn. rewrite forallb_forall in Hn. apply Hn. apply list_elem_of_In. by eapply list_elem_of_lookup_2.
Qed.

Lemma metrics_size_reset l : metrics_size (stats_metric_reset l) = metrics_size l.
Proof. induction l as [|stm l IH]; [done|]. simpl. by rewrite IH. Qed.

Lemma pools_size_reset l : pools_size (stats_pool_reset l) = pools_size l.
Proof.
  induction l as [|stp l IH]; [done|]. simpl. rewrite IH, metrics_size_reset. do 2 f_equal. induction (stp_server stp) as [|sts k IHk]; [done|].
  simpl. by rewrite IHk, metrics_size_reset.
Qed.

Lemma pools_size_shape l l' : same_shape l l' -> pools_size l = pools_size l'.
Proof. intros H. by rewrite <- (pools_size_reset l), H, pools_size_reset. Qed.

(** The counted size, rounded up. *)
Lemma buf_size_enough source version l : header_size source version + pools_size l < 2 ^ 31 - 16 ->
  0 <= header_size source version + pools_size l <= buf_size source version l - 2 /\ buf_size source version l < 2 ^ 31.
Proof.
  intros H. set (s := header_size source version + pools_size l) in *.
  assert (H0 : 0 <= s).
  { unfold s. pose proof (pools_size_nonneg l). pose proof (zlen_nonneg source). pose proof (zlen_nonneg version). unfold header_size, num_size, int64_max_digits, key_value_extra. text_lengths. lia. }
  unfold buf_size, NC_ALIGN, NC_ALIGNMENT. change (8 - 1) with (Z.ones 3). rewrite Z.ldiff_ones_r, Z.shiftr_div_pow2, Z.shiftl_mul_pow2 by lia. fold s. change (Z.ones 3) with 7.
  pose proof (Z.div_mod (s + 2 + 7) (2 ^ 3) ltac:(lia)). pose proof (Z.mod_pos_bound (s + 2 + 7) (2 ^ 3) ltac:(lia)). rewrite u64_small by lia. lia.
Qed.

Lemma step_frame t t' : thread_step t t' ->
  st_source (th_stats t') = st_source (th_stats t) /\ st_version (th_stats t') = st_version (th_stats t) /\ st_buf_size (th_stats t') = st_buf_size (th_stats t).
Proof.
  intros [H|[H|H]]; inversion H; subst; try done. match goal with E : do_call _ _ = _ |- _ => rewrite do_call_upd in E; destruct (metric_at _ _); [|done]; by injection E as <- end.
Qed.

Lemma steps_frame t t' : rtc thread_step t t' ->
  st_source (th_stats t') = st_source (th_stats t) /\ st_version (th_stats t') = st_version (th_stats t) /\ st_buf_size (th_stats t') = st_buf_size (th_stats t).
Proof. induction 1 as [|t t1 t2 H _ (I1 & I2 & I3)]; [done|]. destruct (step_frame _ _ H) as (H1 & H2 & H3). by rewrite I1, I2, I3. Qed.

(** C12. The statistics port answers with the counts: whatever the two threads
    did before and whatever an earlier answer left in the buffer, the
    aggregator's answer stays within the buffer that stats_create_buf sized,
    is not cut short, and is a JSON text that reads back as the tree of all
    the metrics of sum (if the names of the pools and servers have no quotes,
    backslashes and control characters); nothing is sent only if accept(2) or
    the sending fails. *)
Theorem stats_response_reads tick junk source version pools st t d len n :
  stats_create tick junk source version pools = Some (Some st) -> reachable st t -> env_ok ->
  names_plain pools = true -> plain source = true -> plain version = true -> pools <> [] -> header_size source version + pools_size (fresh_pools pools) < 2 ^ 31 - 16 ->
  zlen d = st_buf_size st ->
  let st1 := st_set_tick n (st_set_buf_data (Some d) (st_set_buf_len len (th_stats t))) in
  exists x st', stats_send_rsp st1 = Some (x, st') /\ (x.2 = None -> (exists n, se_accept n < 0) \/ (exists n, se_sendn n < 0)) /\
  forall text, x.2 = Some text -> read_json text = Some (stats_json st1).
Proof.
  intros Hc Hr He Hn Hsrc Hver Hne Hsize Hd st1. pose proof (created_inv _ _ _ _ _ _ _ Hc Hr) as I. apply create_fresh in Hc as [_ _ _ F1 F2 _ _ F3 _].
  destruct (steps_frame _ _ Hr) as (G1 & G2 & G3). cbn [th_stats started] in G1, G2, G3.
  destruct (buf_size_enough source version (fresh_pools pools) Hsize) as [B1 B2].
  apply (send_rsp_reads st1 d); unfold st1; cbn [st_set_tick st_set_buf_data st_set_buf_len st_buf_size st_buf_data st_source st_version st_sum]; try done.
  - unfold small_buf. cbn. rewrite G3, F3. lia.
  - by rewrite G3.
  - by rewrite G1, F1.
  - by rewrite G2, F2.
  - by eapply sum_fit; [|apply I|apply I].
  - intros E. pose proof (ti_sum _ _ I) as Hs. unfold same_shape in Hs. rewrite E, fresh_zero in Hs. by destruct pools.
  - rewrite G1, G2, G3, F1, F2, F3, (pools_size_shape _ _ (ti_sum _ _ I)). lia.
Qed.

End Response.

(** The value at a path of keys. *)
Fixpoint json_at (path : list (list Z)) (v : json) : option json :=
  match path, v with
  | [], _ => Some v
  | k :: path', JObj kvs => match List.find (fun kv => bool_decide (kv.1 = k)) kvs with Some kv => json_at path' kv.2 | None => None end
  | _ :: _, _ => None
  end.

Definition added_st : stats := Eval vm_compute in (sample_of (sample_moves ++ repeat Agg 32)).1.
Definition added_t : threads := Eval vm_compute in (sample_of (sample_moves ++ repeat Agg 32)).2.

Lemma added_ran : sample_run (sample_moves ++ repeat Agg 32) = Some (added_st, added_t).
Proof. vm_compute. reflexivity. Qed.

(** An answer after an aggregation: 2^63 - 1 bytes of requests at server b:2. *)
Lemma stats_response_reads_witness : exists x st' text v,
  stats_send_rsp (env := sample_env) (st_set_tick 9 (st_set_buf_data (Some (repeat 0 1584)) (st_set_buf_len 7 (th_stats added_t)))) = Some (x, st') /\
  x.2 = Some text /\ read_json text = Some v /\ json_at [bytes_of "alpha"; bytes_of "b:2"; bytes_of "request_bytes"] v = Some (JNum 9223372036854775807).
Proof.
  destruct (sample_run_reaches _ _ _ added_ran) as [Hc Hr].
  assert (He : env_ok (env := sample_env)) by (split; [reflexivity|]; split; reflexivity).
  destruct (stats_response_reads (env := sample_env) _ _ _ _ _ added_st added_t (repeat 0 1584) 7 9 Hc Hr He eq_refl eq_refl eq_refl ltac:(discriminate) ltac:(vm_compute; reflexivity) ltac:(vm_compute; reflexivity))
    as (x & st' & Ex & Hx & Ht).
  destruct x as [s [text|]]; [|exfalso; destruct (Hx eq_refl) as [[k Hk]|[k Hk]]; vm_compute in Hk; discriminate].
  exists (s, Some text), st', text. eexists. split; [exact Ex|]. split; [reflexivity|]. split; [exact (Ht text eq_refl)|]. vm_compute. reflexivity.
Defined.
