(* ===== verification/Startup.v ===== *)
(** Startup and shutdown of the connections: the listeners (nc_proxy.c), the
    connections made ahead of the first request (nc_server.c), the limit on
    clients (nc_core.c). *)

From stdpp Require Import gmap.
From S2P Require Import Prelude CArray Mbuf Message Parser Pool State Rbtree World MsgStore RedisMsg McMsg ReqCore ConnServer Request Response MsgIO Core.

Definition AF_UNIX : Z := 1.
Definition AF_INET : Z := 2.
Definition AF_INET6 : Z := 10.

(** What a pool listens on and the calls that only the listeners make; the
    answers are an errno, 0 for success. *)
Class ListenEnv := {
  le_family : nat -> Z;             (* p->family of the listener of a pool *)
  le_perm : nat -> Z;               (* pool->perm *)
  le_bind : nat -> Z;
  le_chmod : nat -> Z;
  le_listen : nat -> Z
}.

Section Startup.
Context `{env : Env} `{lenv : ListenEnv}.

(** array_each over the indices of an array: it stops at the first error. *)
Fixpoint array_each_status (f : nat -> W Z) (l : list nat) : W Z :=
  match l with
  | [] => mret NC_OK
  | i :: l' => status ← f i; if negb (status =? NC_OK) then mret status else array_each_status f l'
  end.

Definition pool_indices : W (list nat) := gets (fun w => seq 0 (length (w_pools w))).

(** ** Listeners *)

(** unlink(2) of a unix socket may fail, which is ignored. *)
Definition proxy_reuse (p : nat) : W Z :=
  if (le_family p =? AF_INET) || (le_family p =? AF_INET6) then e ← ask ev_setopt; sys_status e
  else if le_family p =? AF_UNIX then mret NC_OK
  else mret NC_ERROR.

Definition proxy_listen (p : nat) (c : pointer) : W Z :=
  sd ← ask ev_socket;
  if sd <? 0 then conn_st (c_set_sd (-1)) c;; set_errno (- sd);; mret NC_ERROR
  else
    conn_st (c_set_sd sd) c;;
    status ← proxy_reuse p;
    if status <? 0 then mret NC_ERROR
    else
      e ← ask le_bind;
      status ← sys_status e;
      if status <? 0 then mret NC_ERROR
      else
        status ← (if (le_family p =? AF_UNIX) && negb (le_perm p =? 0) then e ← ask le_chmod; sys_status e else mret NC_OK);
        if status <? 0 then mret NC_ERROR
        else
          e ← ask le_listen;
          status ← sys_status e;
          if status <? 0 then mret NC_ERROR
          else
            e ← ask ev_setopt;
            status ← sys_status e;
            if status <? 0 then mret NC_ERROR
            else
              status ← event_add_conn c;
              if status <? 0 then mret NC_ERROR
              else
                status ← event_del_out c;
                if status <? 0 then mret NC_ERROR else mret NC_OK.

Definition proxy_each_init (p : nat) : W Z :=
  c ← conn_get_proxy p;
  match c with
  | None => mret NC_ENOMEM
  | Some _ =>
      status ← proxy_listen p c;
      if negb (status =? NC_OK) then conn_close c;; mret status else mret NC_OK
  end.

Definition proxy_each_deinit (p : nat) : W Z :=
  c ← pool_ld pl_p_conn p;
  match c with
  | None => mret NC_OK
  | Some _ => conn_close c;; mret NC_OK
  end.

Definition proxy_deinit : W unit :=
  ps ← pool_indices;
  array_each_status proxy_each_deinit ps;;
  mret tt.

Definition proxy_init : W Z :=
  ps ← pool_indices;
  status ← array_each_status proxy_each_init ps;
  if negb (status =? NC_OK) then proxy_deinit;; mret status else mret NC_OK.

(** ** Connections to the servers *)

Definition server_indices (p : nat) : W (list nat) := pool_ld (fun x => seq 0 (length (pl_s_conn_q x))) p.

Definition server_pool_each_preconnect (p : nat) : W Z :=
  preconnect ← pool_ld pl_preconnect p;
  if negb preconnect then mret NC_OK else ss ← server_indices p; array_each_status (server_each_preconnect p) ss.

Definition server_pool_preconnect : W Z := ps ← pool_indices; array_each_status server_pool_each_preconnect ps.

Definition server_pool_each_disconnect (p : nat) : W Z := ss ← server_indices p; array_each_status (fun s => server_each_disconnect p s;; mret NC_OK) ss.

Definition server_pool_disconnect : W unit := ps ← pool_indices; array_each_status server_pool_each_disconnect ps;; mret tt.

End Startup.

(** ** The limit on clients *)

Definition RESERVED_FDS : Z := 32.

(** max_nfd and max_ncconn, from RLIMIT_NOFILE or its failure. *)
Definition core_calc_connections (rlimit : option Z) (max_nsconn : Z) : option (Z * Z) :=
  match rlimit with
  | None => None
  | Some rlim_cur => let max_nfd := u32 rlim_cur in Some (max_nfd, u32 (max_nfd - max_nsconn - RESERVED_FDS))
  end.

(** With enough descriptors the difference is what it seems; with fewer it
    wraps around, and the limit on clients is above the number of descriptors
    there are. *)
Theorem core_calc_connections_exact rlim nsconn : 0 <= nsconn -> nsconn + RESERVED_FDS <= rlim < 2 ^ 32 ->
  core_calc_connections (Some rlim) nsconn = Some (rlim, rlim - nsconn - RESERVED_FDS).
Proof. unfold core_calc_connections, RESERVED_FDS. intros H1 H2. rewrite !u32_small by (unfold is_u32; rewrite ?u32_small by (unfold is_u32; lia); lia). done. Qed.

Theorem core_calc_connections_wraps rlim nsconn : 0 <= rlim -> rlim < nsconn + RESERVED_FDS -> 0 <= nsconn < 2 ^ 31 ->
  exists n, core_calc_connections (Some rlim) nsconn = Some (rlim, n) /\ rlim < n.
Proof.
  unfold core_calc_connections, RESERVED_FDS. intros H1 H2 H3. rewrite (u32_small rlim) by (unfold is_u32; lia). eexists. split; [reflexivity|].
  unfold u32, wrap. rewrite <- (Z_mod_plus_full _ 1), Z.mod_small; lia.
Qed.
