(* ===== verification/Listeners.v ===== *)
(** The listeners are all opened or none is. *)

From stdpp Require Import gmap.
From S2P Require Import Prelude CArray Mbuf Message Parser Pool State Rbtree World MsgStore RedisMsg McMsg ReqCore ConnServer Request Response MsgIO Core Startup Sample.

(** ** The free list of connections *)

Definition conn_alloc_ok (w : world) : Prop := NoDup (w_free_connq w) /\ Forall (fun a => (a < w_next w)%positive) (w_free_connq w).

(** An address that was given out and not put back. *)
Definition used (w : world) (a : positive) : Prop := (a ∉ w_free_connq w) /\ (a < w_next w)%positive.

(** [w] with the connection at [a] replaced by [x]; of the rest only the
    answers used and errno differ. *)
Record at_conn (w0 : world) (a : positive) (x : conn) (w : world) : Prop := {
  ac_pools : w_pools w = w_pools w0;
  ac_conns : w_conns w = <[a := x]> (w_conns w0);
  ac_free : w_free_connq w = w_free_connq w0;
  ac_next : w_next w = w_next w0;
  ac_curr : w_ncurr_conn w = w_ncurr_conn w0
}.

Section Listeners.
Context `{env : Env} `{lenv : ListenEnv}.

Section At.
Context {w0 : world} {a : positive}.

Lemma at_ask {A} (f : nat -> A) x w (Q : A -> world -> Prop) : at_conn w0 a x w -> (forall v w', at_conn w0 a x w' -> Q v w') -> runs (ask f) w Q.
Proof. intros [H1 H2 H3 H4 H5] HQ. apply HQ. by constructor. Qed.

Lemma at_errno e x w (Q : unit -> world -> Prop) : at_conn w0 a x w -> (forall w', at_conn w0 a x w' -> Q tt w') -> runs (set_errno e) w Q.
Proof. intros [H1 H2 H3 H4 H5] HQ. apply HQ. by constructor. Qed.

Lemma at_st f x w (Q : unit -> world -> Prop) : at_conn w0 a x w -> (forall w', at_conn w0 a (f x) w' -> Q tt w') -> runs (conn_st f (Some a)) w Q.
Proof.
  intros [H1 H2 H3 H4 H5] HQ. unfold runs, conn_st. cbv beta iota. rewrite H2, lookup_insert_eq. apply HQ. constructor; simpl; try done. by rewrite insert_insert_eq.
Qed.

Lemma at_ld {A} (f : conn -> A) x w (Q : A -> world -> Prop) : at_conn w0 a x w -> Q (f x) w -> runs (conn_ld f (Some a)) w Q.
Proof. intros [H1 H2 H3 H4 H5] HQ. apply (runs_reads _ _ (f x)); [|done]. cbv beta iota. by rewrite H2, lookup_insert_eq. Qed.

Lemma at_sys e x w (Q : Z -> world -> Prop) : at_conn w0 a x w -> (forall v w', at_conn w0 a x w' -> v = NC_OK \/ v = NC_ERROR -> Q v w') -> runs (sys_status e) w Q.
Proof.
  intros H HQ. unfold sys_status. destruct (e =? 0); [apply HQ; [done|by left]|]. apply runs_bind. eapply at_errno; [done|]. intros w' H'. apply HQ; [done|by right].
Qed.

End At.

(** What does not change about the connection of a listener. *)
Definition same_kind (x x' : conn) : Prop := c_owner x' = c_owner x /\ c_client x' = c_client x /\ c_proxy x' = c_proxy x.

(** A listening socket that is registered for reading only. *)
Definition listens (x : conn) : Prop := 0 <= c_sd x /\ c_recv_active x = true /\ c_send_active x = false.

Definition listened (w0 : world) (a : positive) (x : conn) (status : Z) (w : world) : Prop :=
  exists x', at_conn w0 a x' w /\ same_kind x x' /\ ((status = NC_OK /\ listens x') \/ status = NC_ERROR).

(** After a status that is an error, or else. *)
Lemma listen_next w0 a x x' w status (k : W Z) : at_conn w0 a x' w -> same_kind x x' -> status = NC_OK \/ status = NC_ERROR -> (status = NC_OK -> runs k w (listened w0 a x)) ->
  runs (if status <? 0 then mret NC_ERROR else k) w (listened w0 a x).
Proof.
  intros H Hk [->| ->] Hn; [by apply Hn|]. simpl. apply runs_ret. exists x'. auto.
Qed.

(** A call that leaves the connection alone. *)
Lemma listen_sys w0 a x x' w (f : nat -> Z) (k : W Z) : at_conn w0 a x' w -> same_kind x x' -> (forall w, at_conn w0 a x' w -> runs k w (listened w0 a x)) ->
  runs (e ← ask f; status ← sys_status e; if status <? 0 then mret NC_ERROR else k) w (listened w0 a x).
Proof.
  intros H Hk Hn. apply runs_bind. eapply at_ask; [done|]. intros e w1 H1. apply runs_bind. eapply at_sys; [done|]. intros s w2 H2 Hs.
  eapply listen_next; [done..|]. intros _. by apply Hn.
Qed.

(** The same behind a test. *)
Lemma listen_sys_if w0 a x x' w (b : bool) (f : nat -> Z) s (k : W Z) : at_conn w0 a x' w -> same_kind x x' -> s = NC_OK \/ s = NC_ERROR -> (forall w, at_conn w0 a x' w -> runs k w (listened w0 a x)) ->
  runs (status ← (if b then e ← ask f; sys_status e else mret s); if status <? 0 then mret NC_ERROR else k) w (listened w0 a x).
Proof.
  intros H Hk Hs Hn. destruct b.
  - pose proof (listen_sys w0 a x x' w f k H Hk Hn) as Hr. unfold runs, mbind, ST_bind in *. destruct (ask f w) as [[e w1]|]; [|done]. exact Hr.
  - apply runs_bind, runs_ret. eapply listen_next; [done..|]. intros _. by apply Hn.
Qed.

Lemma listen_events w0 a x x' w : at_conn w0 a x' w -> same_kind x x' -> 0 <= c_sd x' ->
  runs (status ← event_add_conn (Some a); if status <? 0 then mret NC_ERROR else status ← event_del_out (Some a); if status <? 0 then mret NC_ERROR else mret NC_OK) w (listened w0 a x).
Proof.
  intros H Hk Hsd. apply runs_bind. unfold event_add_conn. apply runs_bind. eapply at_ask; [done|]. intros e w1 H1. destruct (e =? 0).
  - apply runs_bind. eapply at_st; [done|]. intros w2 H2. apply runs_bind. eapply at_st; [done|]. intros w3 H3. apply runs_ret. simpl (0 <? 0). cbv iota.
    apply runs_bind. unfold event_del_out. apply runs_bind. eapply at_ld; [done|]. simpl (c_send_active _). cbv iota. unfold event_mod. apply runs_bind. eapply at_ask; [done|]. intros e' w4 H4.
    destruct (e' =? 0).
    + apply runs_bind. eapply at_st; [done|]. intros w5 H5. apply runs_ret. simpl (0 <? 0). cbv iota. apply runs_ret. eexists. split; [exact H5|]. split; [done|]. by left.
    + apply runs_bind. eapply at_errno; [done|]. intros w5 H5. apply runs_ret. simpl. apply runs_ret. eexists. split; [exact H5|]. split; [done|]. by right.
  - apply runs_bind. eapply at_errno; [done|]. intros w2 H2. apply runs_ret. simpl. apply runs_ret. eexists. split; [exact H2|]. split; [done|]. by right.
Qed.

Lemma proxy_listen_runs w0 a x w p : at_conn w0 a x w -> runs (proxy_listen p (Some a)) w (listened w0 a x).
Proof.
  intros H. unfold proxy_listen, proxy_reuse.
  apply runs_bind. eapply at_ask; [done|]. intros sd w1 H1. destruct (Z.ltb_spec sd 0) as [Hsd|Hsd].
  - apply runs_bind. eapply at_st; [done|]. intros w2 H2. apply runs_bind. eapply at_errno; [done|]. intros w3 H3. apply runs_ret. eexists. split; [done|]. split; [done|by right].
  - apply runs_bind. eapply at_st; [done|]. intros w2 H2. assert (Hk : same_kind x (c_set_sd sd x)) by done.
    assert (Hs : (if le_family p =? AF_UNIX then NC_OK else NC_ERROR) = NC_OK \/ (if le_family p =? AF_UNIX then NC_OK else NC_ERROR) = NC_ERROR) by (destruct (_ =? _); auto).
    replace (if le_family p =? AF_UNIX then mret NC_OK else mret NC_ERROR : W Z) with (mret (if le_family p =? AF_UNIX then NC_OK else NC_ERROR) : W Z) by by destruct (_ =? _).
    eapply listen_sys_if; [done..|]. clear w2 H2. intros w2 H2. eapply listen_sys; [done..|]. clear w2 H2. intros w2 H2.
    eapply listen_sys_if; [done|done|by left|]. clear w2 H2. intros w2 H2. eapply listen_sys; [done..|]. clear w2 H2. intros w2 H2.
    eapply listen_sys; [done..|]. clear w2 H2. intros w2 H2. by eapply listen_events.
Qed.

(** ** Getting and closing a listener *)

Record same_conns (w w' : world) : Prop := {
  sc_pools : w_pools w' = w_pools w;
  sc_conns : w_conns w' = w_conns w;
  sc_free : w_free_connq w' = w_free_connq w;
  sc_next : w_next w' = w_next w;
  sc_curr : w_ncurr_conn w' = w_ncurr_conn w
}.

Record got (w : world) (a : positive) (w' : world) : Prop := {
  g_new : ~ used w a;
  g_used : forall b, used w' b <-> b = a \/ used w b;
  g_alloc : conn_alloc_ok w';
  g_conns : w_conns w' = <[a := conn_fresh]> (w_conns w);
  g_pools : w_pools w' = w_pools w;
  g_curr : w_ncurr_conn w' = u32 (w_ncurr_conn w + 1)
}.

Lemma conn_get_runs w : conn_alloc_ok w ->
  runs _conn_get w (fun c w' => match c with None => same_conns w w' | Some a => got w a w' end).
Proof.
  intros [Hn Hf]. unfold _conn_get, runs, mbind, ST_bind. simpl. destruct (w_free_connq w) as [|a q] eqn:Eq.
  - unfold nc_alloc, mbind, ST_bind. simpl. destruct (ev_ok _ _); simpl; [|by constructor; simpl].
    constructor; simpl; try done; unfold used; simpl; rewrite ?Eq.
    + intros [_ H]. lia.
    + intros b. split; [intros [H1 H2]; destruct (decide (b = w_next w)); [by left|right; split; [done|lia]]|intros [->|[H1 H2]]; (split; [apply not_elem_of_nil|lia])].
    + split; simpl; rewrite Eq; constructor.
  - apply list.NoDup_cons in Hn as [Ha Hn]. apply Forall_cons_iff in Hf as [Hl Hf]. constructor; simpl; try done; unfold used; simpl; rewrite ?Eq.
    + intros [H _]. apply H. by left.
    + intros b. rewrite not_elem_of_cons. split; [intros [H1 H2]; destruct (decide (b = a)); [by left|right; by split]|intros [->|[[H1 H2] H3]]; by split].
Qed.

Record got_listener (w : world) (p : nat) (x : wpool) (a : positive) (y : conn) (w' : world) : Prop := {
  gl_new : ~ used w a;
  gl_used : forall b, used w' b <-> b = a \/ used w b;
  gl_alloc : conn_alloc_ok w';
  gl_conns : w_conns w' = <[a := y]> (w_conns w);
  gl_pools : w_pools w' = <[p := pl_set_p_conn (Some a) x]> (w_pools w);
  gl_curr : w_ncurr_conn w' = u32 (w_ncurr_conn w + 1);
  gl_proxy : c_proxy y = true;
  gl_client : c_client y = false;
  gl_owner : c_owner y = OwnPool p
}.

Lemma conn_get_proxy_runs w p x : conn_alloc_ok w -> w_pools w !! p = Some x ->
  runs (conn_get_proxy p) w (fun c w' => match c with None => same_conns w w' | Some a => exists y, got_listener w p x a y w' end).
Proof.
  intros Hok Hx. unfold conn_get_proxy. apply runs_bind. eapply runs_mono; [by apply conn_get_runs|]. intros [a|] w1; [|done]. intros [H1 H2 H3 H4 H5 H6].
  unfold runs, proxy_ref, mbind, ST_bind, pool_ld, pool_st, reads, conn_st. rewrite H5, Hx. simpl. rewrite H4, lookup_insert_eq. simpl. rewrite lookup_insert_eq. simpl. rewrite H5, Hx. simpl. rewrite lookup_insert_eq. simpl.
  exists (c_set_owner (OwnPool p) (c_set_proxy true (c_set_redis (pl_redis x) conn_fresh))). constructor; simpl; try done. by rewrite !insert_insert_eq.
Qed.

(** conn->close of a listener. *)
Record closed_listener (w : world) (p : nat) (x : wpool) (a : positive) (w' : world) : Prop := {
  cl_used : forall b, used w' b <-> b <> a /\ used w b;
  cl_alloc : conn_alloc_ok w';
  cl_conns : forall b, b <> a -> w_conns w' !! b = w_conns w !! b;
  cl_pools : w_pools w' = <[p := pl_set_p_conn None x]> (w_pools w);
  cl_curr : w_ncurr_conn w' = u32 (w_ncurr_conn w - 1)
}.

Lemma close_listener_runs w p x a y : conn_alloc_ok w -> used w a -> w_pools w !! p = Some x -> w_conns w !! a = Some y -> c_proxy y = true -> c_client y = false -> c_owner y = OwnPool p ->
  runs (conn_close (Some a)) w (fun _ w' => closed_listener w p x a w').
Proof.
  intros [Hn Hf] [Hu1 Hu2] Hx Hy Hp Hc Ho. unfold conn_close. apply runs_bind. apply (runs_reads _ _ (c_client y, c_proxy y)); [by rewrite Hy|]. rewrite Hc, Hp. cbn [fst snd].
  unfold proxy_close. apply runs_bind. apply (runs_reads _ _ (c_sd y)); [by rewrite Hy|].
  assert (Hdone : forall w1 z, w_conns w1 = <[a := z]> (w_conns w) -> c_client z = false -> w_pools w1 = <[p := pl_set_p_conn None x]> (w_pools w) -> w_free_connq w1 = w_free_connq w ->
    w_next w1 = w_next w -> w_ncurr_conn w1 = w_ncurr_conn w -> runs (conn_put (Some a)) w1 (fun _ w' => closed_listener w p x a w')).
  { intros w1 z Ec Ez Ep Ef En Ek. unfold runs, conn_put, mbind, ST_bind, addr, conn_ld, reads, modify, when. simpl. rewrite Ec, lookup_insert_eq. simpl. rewrite Ez. simpl.
    constructor; simpl; rewrite ?Ef, ?En, ?Ek, ?Ec, ?Ep; try done.
    - intros b. unfold used. simpl. rewrite ?Ef, ?En, not_elem_of_cons. tauto.
    - unfold conn_alloc_ok. simpl. rewrite ?Ef, ?En. split; [by apply list.NoDup_cons|by constructor].
    - intros b Hb. by rewrite lookup_insert_ne. }
  assert (Hun : forall k : W unit, (forall w1, w_conns w1 = <[a := c_set_owner NoOwner y]> (w_conns w) -> w_pools w1 = <[p := pl_set_p_conn None x]> (w_pools w) -> w_free_connq w1 = w_free_connq w ->
    w_next w1 = w_next w -> w_ncurr_conn w1 = w_ncurr_conn w -> runs k w1 (fun _ w' => closed_listener w p x a w')) -> runs (proxy_unref (Some a);; k) w (fun _ w' => closed_listener w p x a w')).
  { intros k Hk. apply runs_bind. unfold proxy_unref. apply runs_bind. apply (runs_reads _ _ (c_owner y)); [by rewrite Hy|]. apply runs_bind.
    unfold runs at 1, conn_st. cbv beta iota. rewrite Hy, Ho. unfold runs at 1, pool_st. cbn [w_pools w_set_conns]. rewrite Hx. by apply Hk. }
  destruct (c_sd y <? 0).
  - apply Hun. intros w1 E1 E2 E3 E4 E5. by apply (Hdone w1 (c_set_owner NoOwner y)).
  - apply Hun. intros w1 E1 E2 E3 E4 E5. apply runs_bind. unfold runs at 1, conn_st. cbv beta iota. rewrite E1, lookup_insert_eq.
    by eapply Hdone; simpl; [rewrite insert_insert_eq|..].
Qed.

(** ** All the listeners *)

(** The pools from [i] to [k] have a listener of their own; everything else
    about pools and connections is as in [w0]. *)
Record listeners (w0 : world) (i k : nat) (w : world) : Prop := {
  li_open : forall p x, (i <= p < k)%nat -> w_pools w0 !! p = Some x ->
    exists a c, w_pools w !! p = Some (pl_set_p_conn (Some a) x) /\ w_conns w !! a = Some c /\ c_proxy c = true /\ c_client c = false /\ c_owner c = OwnPool p /\ listens c /\ used w a /\ ~ used w0 a;
  li_rest : forall p, ~ (i <= p < k)%nat -> w_pools w !! p = w_pools w0 !! p;
  li_len : length (w_pools w) = length (w_pools w0);
  li_alloc : conn_alloc_ok w;
  li_used : forall a, used w0 a -> used w a;
  li_conns : forall a, used w0 a -> w_conns w !! a = w_conns w0 !! a;
  li_curr : w_ncurr_conn w = u32 (w_ncurr_conn w0 + Z.of_nat (k - i))
}.

Definition no_listeners (w : world) : Prop := forall p x, w_pools w !! p = Some x -> pl_p_conn x = None.

Lemma set_p_conn_back x c : pl_p_conn x = None -> pl_set_p_conn None (pl_set_p_conn c x) = x.
Proof. destruct x. simpl. by intros ->. Qed.

Lemma u32_pred_succ n d : u32 (u32 (n + d) - 1) = u32 (n + (d - 1)).
Proof. unfold u32, wrap. rewrite Zminus_mod_idemp_l. f_equal. lia. Qed.
Lemma u32_succ n d : u32 (u32 (n + d) + 1) = u32 (n + (d + 1)).
Proof. unfold u32, wrap. rewrite Zplus_mod_idemp_l. f_equal. lia. Qed.

Lemma insert_at {A} (l : list A) k z v : l !! k = Some z -> <[k := v]> l !! k = Some v.
Proof. intros H. apply list_lookup_insert_eq. by eapply lookup_lt_Some. Qed.

Lemma listeners_get w0 k w w' x a y : listeners w0 0 k w -> w_pools w0 !! k = Some x -> got_listener w k x a y w' -> listens y -> listeners w0 0 (S k) w'.
Proof.
  intros [L1 L2 Ln L3 L4 L5 L6] Hx [G1 G2 G3 G4 G5 G6 G7 G8 G9] Hl. constructor; try done.
  - intros p x' Hp Hx'. destruct (decide (p = k)) as [->|Hne].
    + assert (x' = x) as -> by congruence. exists a, y. rewrite G5, G4, lookup_insert_eq. split; [apply (insert_at _ _ x); by rewrite L2 by lia|].
      do 5 (split; [done|]). split; [apply G2; by left|]. intros Hu. by apply G1, L4.
    + destruct (L1 p x' ltac:(lia) Hx') as (b & c & H1 & H2 & H3 & H4 & H5 & H6 & H7 & H8). exists b, c.
      assert (b <> a) by (intros ->; done). rewrite G5, G4, list_lookup_insert_ne, lookup_insert_ne by done.
      do 6 (split; [done|]). split; [apply G2; by right|done].
  - intros p Hp. rewrite G5, list_lookup_insert_ne by lia. apply L2. lia.
  - by rewrite G5, length_insert.
  - intros b Hb. apply G2. right. by apply L4.
  - intros b Hb. assert (b <> a) by (intros ->; by apply G1, L4). rewrite G4, lookup_insert_ne by done. by apply L5.
  - rewrite G6, L6, u32_succ. f_equal. lia.
Qed.

Lemma got_at w p x a y w1 y' w2 : got_listener w p x a y w1 -> at_conn w1 a y' w2 -> same_kind y y' -> got_listener w p x a y' w2.
Proof.
  intros [G1 G2 G3 G4 G5 G6 G7 G8 G9] [A1 A2 A3 A4 A5] (K1 & K2 & K3). constructor; try done.
  - intros b. rewrite <- G2. unfold used. by rewrite A3, A4.
  - unfold conn_alloc_ok. by rewrite A3, A4.
  - by rewrite A2, G4, insert_insert_eq.
  - by rewrite A1.
  - by rewrite A5.
  - by rewrite K3.
  - by rewrite K2.
  - by rewrite K1.
Qed.

(** A listener that was got and closed again leaves the pools as they were. *)
Lemma listeners_got_closed w0 k w x a y w1 w2 : listeners w0 0 k w -> w_pools w0 !! k = Some x -> pl_p_conn x = None -> got_listener w k x a y w1 ->
  closed_listener w1 k (pl_set_p_conn (Some a) x) a w2 -> listeners w0 0 k w2.
Proof.
  intros [L1 L2 Ln L3 L4 L5 L6] Hx Hnone [G1 G2 G3 G4 G5 G6 G7 G8 G9] [C1 C2 C3 C4 C5].
  assert (Hp : w_pools w2 = w_pools w).
  { rewrite C4, G5, list_insert_insert_eq, set_p_conn_back by done. apply list_insert_id. by rewrite L2 by lia. }
  assert (Hu : forall b, used w b -> used w2 b /\ w_conns w2 !! b = w_conns w !! b).
  { intros b Hb. assert (b <> a) by (intros ->; done). split; [apply C1; split; [done|apply G2; by right]|]. by rewrite C3, G4, lookup_insert_ne. }
  constructor; try done.
  - intros p x' Hpk Hx'. destruct (L1 p x' Hpk Hx') as (b & c & H1 & H2 & H3 & H4 & H5 & H6 & H7 & H8). destruct (Hu b H7) as [Hu1 Hu2]. exists b, c. by rewrite Hp, Hu2.
  - intros p Hpk. rewrite Hp. by apply L2.
  - by rewrite Hp.
  - intros b Hb. by apply Hu, L4.
  - intros b Hb. rewrite (proj2 (Hu b (L4 b Hb))). by apply L5.
  - rewrite C5, G6, L6, u32_succ, u32_pred_succ. f_equal. lia.
Qed.

Lemma each_init_runs w0 k w x : no_listeners w0 -> listeners w0 0 k w -> w_pools w0 !! k = Some x ->
  runs (proxy_each_init k) w (fun s w' => (s = NC_OK /\ listeners w0 0 (S k) w') \/ (s <> NC_OK /\ listeners w0 0 k w')).
Proof.
  intros Hno L Hx. assert (Hxw : w_pools w !! k = Some x) by (rewrite (li_rest _ _ _ _ L) by lia; done).
  unfold proxy_each_init. apply runs_bind. eapply runs_mono; [apply (conn_get_proxy_runs w k x (li_alloc _ _ _ _ L) Hxw)|]. intros [a|] w1.
  - intros [y G]. apply runs_bind.
    assert (A0 : at_conn w1 a y w1) by (constructor; try done; symmetry; apply insert_id; rewrite (gl_conns _ _ _ _ _ _ G); apply lookup_insert_eq).
    eapply runs_mono; [apply (proxy_listen_runs w1 a y w1 k A0)|]. intros s w2 (y' & A & K & Hs). pose proof (got_at _ _ _ _ _ _ _ _ G A K) as G'.
    destruct Hs as [[-> Hl]| ->].
    + simpl. apply runs_ret. left. split; [done|]. by eapply listeners_get.
    + simpl. apply runs_bind. eapply runs_mono; [apply (close_listener_runs w2 k (pl_set_p_conn (Some a) x) a y')|]; try apply G'.
      * by left.
      * rewrite (gl_pools _ _ _ _ _ _ G'). by eapply insert_at.
      * rewrite (gl_conns _ _ _ _ _ _ G'). apply lookup_insert_eq.
      * intros [] w3 C. apply runs_ret. right. split; [done|]. eapply listeners_got_closed; try done. by apply (Hno k).
  - intros [S1 S2 S3 S4 S5]. apply runs_ret. right. split; [done|]. destruct L as [L1 L2 Ln L3 L4 L5 L6]. constructor; rewrite ?S1, ?S2, ?S5; try done.
    + intros p x' Hp Hx'. destruct (L1 p x' Hp Hx') as (b & c & H). exists b, c. unfold used in *. by rewrite ?S1, ?S2, ?S3, ?S4.
    + unfold conn_alloc_ok. by rewrite S3, S4.
    + intros b Hb. unfold used. rewrite S3, S4. by apply L4.
Qed.

Lemma each_deinit_runs w0 i k w x : no_listeners w0 -> listeners w0 i k w -> w_pools w0 !! i = Some x -> (i <= k)%nat ->
  runs (proxy_each_deinit i) w (fun s w' => s = NC_OK /\ listeners w0 (if decide (i < k)%nat then S i else i) k w').
Proof.
  intros Hno L Hx Hik. unfold proxy_each_deinit. apply runs_bind. destruct (decide (i < k)%nat) as [Hlt|Hge].
  - destruct (li_open _ _ _ _ L i x ltac:(lia) Hx) as (a & c & H1 & H2 & H3 & H4 & H5 & H6 & H7 & H8).
    apply (runs_reads _ _ (Some a)); [by rewrite H1|]. apply runs_bind.
    eapply runs_mono; [by apply (close_listener_runs w i (pl_set_p_conn (Some a) x) a c (li_alloc _ _ _ _ L))|]. intros [] w' [C1 C2 C3 C4 C5]. apply runs_ret. split; [done|].
    rewrite set_p_conn_back in C4 by by apply (Hno i). destruct L as [L1 L2 Ln L3 L4 L5 L6].
    assert (Hu : forall b, used w0 b -> b <> a) by (intros b Hb ->; done). constructor; try done.
    + intros p x' Hp Hx'. destruct (L1 p x' ltac:(lia) Hx') as (b & d & K1 & K2 & K3 & K4 & K5 & K6 & K7 & K8).
      assert (b <> a) by (intros ->; assert (c = d) as -> by congruence; rewrite K5 in H5; injection H5; lia).
      exists b, d. rewrite C4, list_lookup_insert_ne, C3 by (done || lia). do 6 (split; [done|]). split; [by apply C1|done].
    + intros p Hp. rewrite C4. destruct (decide (p = i)) as [->|Hne]; [by rewrite (insert_at _ _ _ _ H1)|]. rewrite list_lookup_insert_ne by done. apply L2. lia.
    + by rewrite C4, length_insert.
    + intros b Hb. apply C1. split; [by apply Hu|by apply L4].
    + intros b Hb. rewrite C3 by by apply Hu. by apply L5.
    + rewrite C5, L6, u32_pred_succ. f_equal. lia.
  - apply (runs_reads _ _ None); [|by split]. rewrite (li_rest _ _ _ _ L) by lia. rewrite Hx. simpl. by rewrite (Hno i x Hx).
Qed.

Lemma deinit_loop_runs w0 k : no_listeners w0 -> (k <= length (w_pools w0))%nat -> forall n i w, (i + n = length (w_pools w0))%nat -> listeners w0 (Nat.min i k) k w ->
  runs (array_each_status proxy_each_deinit (seq i n)) w (fun s w' => s = NC_OK /\ listeners w0 k k w').
Proof.
  intros Hno Hk n. induction n as [|n IH]; intros i w Hi L; simpl.
  - apply runs_ret. split; [done|]. by replace (Nat.min i k) with k in L by lia.
  - destruct (lookup_lt_is_Some_2 (w_pools w0) i ltac:(lia)) as [x Hx]. apply runs_bind. destruct (decide (i < k)%nat) as [Hlt|Hge].
    + replace (Nat.min i k) with i in L by lia. eapply runs_mono; [by apply (each_deinit_runs w0 i k w x Hno L Hx); lia|]. intros s w' [-> L']. rewrite decide_True in L' by done.
      change (negb (NC_OK =? NC_OK)) with false. cbv iota. apply IH; [lia|]. by replace (Nat.min (S i) k) with (S i) by lia.
    + replace (Nat.min i k) with k in L by lia. unfold proxy_each_deinit at 1. apply runs_bind. apply (runs_reads _ _ None).
      * rewrite (li_rest _ _ _ _ L) by lia. rewrite Hx. simpl. by rewrite (Hno i x Hx).
      * apply runs_ret. change (negb (NC_OK =? NC_OK)) with false. cbv iota. apply IH; [lia|]. by replace (Nat.min (S i) k) with k by lia.
Qed.

Lemma init_loop_runs w0 : no_listeners w0 -> forall n k w, (k + n = length (w_pools w0))%nat -> listeners w0 0 k w ->
  runs (array_each_status proxy_each_init (seq k n)) w (fun s w' => (s = NC_OK /\ listeners w0 0 (length (w_pools w0)) w') \/ (s <> NC_OK /\ exists k', (k' <= length (w_pools w0))%nat /\ listeners w0 0 k' w')).
Proof.
  intros Hno n. induction n as [|n IH]; intros k w Hk L; simpl.
  - apply runs_ret. left. split; [done|]. by replace (length (w_pools w0)) with k by lia.
  - destruct (lookup_lt_is_Some_2 (w_pools w0) k ltac:(lia)) as [x Hx]. apply runs_bind. eapply runs_mono; [by apply (each_init_runs w0 k w x Hno L Hx)|].
    intros s w' [[-> L']|[Hs L']].
    + change (negb (NC_OK =? NC_OK)) with false. cbv iota. apply IH; [lia|done].
    + rewrite (proj2 (Z.eqb_neq s NC_OK)) by done. simpl. apply runs_ret. right. split; [done|]. exists k. split; [lia|done].
Qed.

Lemma listeners_none w : conn_alloc_ok w -> 0 <= w_ncurr_conn w < 2 ^ 32 -> listeners w 0 0 w.
Proof. intros Hok Hn. constructor; try done; [intros; lia|]. rewrite Z.add_0_r. symmetry. unfold u32, wrap. by apply Z.mod_small. Qed.

(** C18. The listeners are opened all or none: if no pool has one, proxy_init
    either returns NC_OK and every pool has a listening socket of its own,
    registered for reading only, on a connection that no one else uses, or it
    returns the error and every pool, the count of connections and every
    connection in use are as they were, whichever call failed at whichever
    pool.  It does not fault. *)
Theorem proxy_init_all_or_nothing w : no_listeners w -> conn_alloc_ok w -> 0 <= w_ncurr_conn w < 2 ^ 32 ->
  runs proxy_init w (fun s w' =>
    (forall a, used w a -> used w' a /\ w_conns w' !! a = w_conns w !! a) /\
    ((s = NC_OK /\ w_ncurr_conn w' = u32 (w_ncurr_conn w + zlen (w_pools w)) /\
      forall p x, w_pools w !! p = Some x ->
      exists a c, w_pools w' !! p = Some (pl_set_p_conn (Some a) x) /\ w_conns w' !! a = Some c /\ c_proxy c = true /\ c_client c = false /\ c_owner c = OwnPool p /\ listens c /\ used w' a /\ ~ used w a) \/
     (s <> NC_OK /\ w_ncurr_conn w' = w_ncurr_conn w /\ w_pools w' = w_pools w))).
Proof.
  intros Hno Hok Hn. unfold proxy_init, pool_indices. apply runs_bind, runs_gets, runs_bind.
  eapply runs_mono; [by apply (init_loop_runs w Hno _ 0 w eq_refl), listeners_none|]. intros s w1 [[-> L]|[Hs (k & Hk & L)]].
  - apply runs_ret. destruct L as [L1 L2 Ln L3 L4 L5 L6]. split; [intros a Ha; by split; [apply L4|apply L5]|]. left. split; [done|].
    split; [rewrite L6; unfold zlen; do 2 f_equal; lia|]. intros p x Hx. apply (L1 p x); [|done]. apply lookup_lt_Some in Hx. lia.
  - rewrite (proj2 (Z.eqb_neq s NC_OK)) by done. simpl. apply runs_bind. unfold proxy_deinit, pool_indices. apply runs_bind, runs_gets, runs_bind. rewrite (li_len _ _ _ _ L).
    eapply runs_mono; [by apply (deinit_loop_runs w k Hno Hk _ 0)|]. intros s' w2 [_ [L1 L2 Ln L3 L4 L5 L6]]. apply runs_ret, runs_ret.
    split; [intros a Ha; by split; [apply L4|apply L5]|]. right. split; [done|]. split.
    + rewrite L6, Nat.sub_diag, Z.add_0_r. unfold u32, wrap. by apply Z.mod_small.
    + apply list_eq. intros p. apply L2. lia.
Qed.

End Listeners.

(** ** Two pools *)

Definition two_pools : world := w_set_pools [sample_pool []; sample_pool []] (sample_world []).

(** The second bind(2) fails: it is the seventh answer or later. *)
Definition inet (bind : nat -> Z) : ListenEnv := {| le_family := fun _ => AF_INET; le_perm := fun _ => 0; le_bind := bind; le_chmod := fun _ => 0; le_listen := fun _ => 0 |}.
Definition second_bind_fails (n : nat) : Z := if (n <? 9)%nat then 0 else 98.

Lemma two_pools_ok : no_listeners two_pools /\ conn_alloc_ok two_pools.
Proof.
  split; [|split; constructor]. intros [|[|p]] x Hx; [by injection Hx as <-..|done].
Qed.

(** Both are opened; or one is opened and closed again as the other cannot be. *)
Lemma proxy_init_all_or_nothing_witness : exists w' w'',
  proxy_init (env := calm [] 0) (lenv := inet (fun _ => 0)) two_pools = Some (NC_OK, w') /\ w_ncurr_conn w' = 2 /\
  proxy_init (env := calm [] 0) (lenv := inet second_bind_fails) two_pools = Some (NC_ERROR, w'') /\ w_pools w'' = w_pools two_pools /\ w_ncurr_conn w'' = 0.
Proof.
  pose proof (proxy_init_all_or_nothing (env := calm [] 0) (lenv := inet (fun _ => 0)) two_pools (proj1 two_pools_ok) (proj2 two_pools_ok) ltac:(split; [discriminate|reflexivity])) as H1.
  pose proof (proxy_init_all_or_nothing (env := calm [] 0) (lenv := inet second_bind_fails) two_pools (proj1 two_pools_ok) (proj2 two_pools_ok) ltac:(split; [discriminate|reflexivity])) as H2.
  apply runs_elim in H1 as (s1 & w1 & E1 & _ & H1). apply runs_elim in H2 as (s2 & w2 & E2 & _ & H2). exists w1, w2.
  assert (S1 : result 1 (proxy_init (env := calm [] 0) (lenv := inet (fun _ => 0))) two_pools = NC_OK) by (vm_compute; reflexivity).
  assert (S2 : result 1 (proxy_init (env := calm [] 0) (lenv := inet second_bind_fails)) two_pools = NC_ERROR) by (vm_compute; reflexivity).
  unfold result in S1, S2. rewrite E1 in S1. rewrite E2 in S2. subst s1 s2.
  destruct H1 as [(_ & N1 & _)|[H1 _]]; [|exfalso; exact (H1 eq_refl)]. destruct H2 as [[H2 _]|(_ & N2 & P2)]; [discriminate H2|].
  split; [exact E1|]. split; [rewrite N1; reflexivity|]. split; [exact E2|]. split; [exact P2|]. rewrite N2. reflexivity.
Defined.
