(* ===== verification/Queue.v ===== *)
(** The tail queues of nc_queue.h on the links themselves.

    The head of a queue and the entry of an element have the same two fields:
    a pointer to an element, and the address of such a pointer.  TAILQ_LAST and
    TAILQ_PREV rely on it, as they take the entry of an element for a head.
    The memory holds these two fields for every head and for every element;
    the entry of an element that was removed is set to NULL (TRASHIT).

    The other files have a queue as the list of its elements; here every
    macro is shown to do to the links what the operation on lists says. *)

From stdpp Require Import gmap.
From S2P Require Import Prelude State World.

Inductive loc := Head (h : positive) | Elem (a : positive).

#[export] Instance loc_eq_dec : EqDecision loc.
Proof. solve_decision. Defined.
#[export] Instance loc_countable : Countable loc.
Proof.
  refine (inj_countable' (fun l => match l with Head h => inl h | Elem a => inr a end) (fun x => match x with inl h => Head h | inr a => Elem a end) _).
  by intros [].
Defined.

(** tqh_first and tqh_last, or tqe_next and tqe_prev. *)
Record link := mk_link { l_next : option positive; l_prev : option loc }.
Abbreviation links := (gmap loc link).

Abbreviation L := (ST links).

Definition ld_next (l : option loc) : L (option positive) := reads (fun m => match l with Some l => l_next <$> m !! l | None => None end).
Definition ld_prev (l : option loc) : L (option loc) := reads (fun m => match l with Some l => l_prev <$> m !! l | None => None end).
Definition st_link (f : link -> link) (l : option loc) : L unit := fun m =>
  match l with
  | None => None
  | Some l => match m !! l with None => None | Some x => Some (tt, <[l := f x]> m) end
  end.
Definition st_next (v : option positive) : option loc -> L unit := st_link (fun x => mk_link v (l_prev x)).
Definition st_prev (v : option loc) : option loc -> L unit := st_link (fun x => mk_link (l_next x) v).

Definition elem (p : option positive) : option loc := Elem <$> p.

(** ** The macros *)

Definition TAILQ_INIT (h : positive) : L unit := st_next None (Some (Head h));; st_prev (Some (Head h)) (Some (Head h)).
Definition TAILQ_FIRST (h : positive) : L (option positive) := ld_next (Some (Head h)).
Definition TAILQ_EMPTY (h : positive) : L bool := a ← TAILQ_FIRST h; mret (bool_decide (a = None)).
Definition TAILQ_NEXT (a : positive) : L (option positive) := ld_next (Some (Elem a)).

(** The tqh_last of what tqh_last or tqe_prev points into. *)
Definition TAILQ_LAST (h : positive) : L (option positive) := l ← ld_prev (Some (Head h)); l' ← ld_prev l; ld_next l'.
Definition TAILQ_PREV (a : positive) : L (option positive) := l ← ld_prev (Some (Elem a)); l' ← ld_prev l; ld_next l'.

Definition TAILQ_INSERT_HEAD (h a : positive) : L unit :=
  first ← TAILQ_FIRST h;
  st_next first (Some (Elem a));;
  match first with
  | Some _ => f ← TAILQ_FIRST h; st_prev (Some (Elem a)) (elem f)
  | None => st_prev (Some (Elem a)) (Some (Head h))
  end;;
  st_next (Some a) (Some (Head h));;
  st_prev (Some (Head h)) (Some (Elem a)).

Definition TAILQ_INSERT_TAIL (h a : positive) : L unit :=
  st_next None (Some (Elem a));;
  l ← ld_prev (Some (Head h));
  st_prev l (Some (Elem a));;
  l ← ld_prev (Some (Head h));
  st_next (Some a) l;;
  st_prev (Some (Elem a)) (Some (Head h)).

Definition TAILQ_REMOVE (h a : positive) : L unit :=
  n ← TAILQ_NEXT a;
  match n with
  | Some _ => n ← TAILQ_NEXT a; p ← ld_prev (Some (Elem a)); st_prev p (elem n)
  | None => p ← ld_prev (Some (Elem a)); st_prev p (Some (Head h))
  end;;
  p ← ld_prev (Some (Elem a));
  n ← TAILQ_NEXT a;
  st_next n p;;
  st_next None (Some (Elem a));;
  st_prev None (Some (Elem a)).

(** ** What the links represent *)

Definition hd_or (nx : option positive) (q : list positive) : option positive := match q with [] => nx | a :: _ => Some a end.

(** The location whose pointer ends the queue [q] behind [p]. *)
Fixpoint end_loc (p : loc) (q : list positive) : loc := match q with [] => p | a :: q' => end_loc (Elem a) q' end.

(** The entries of [q] behind [p], the last of which points to [nx]. *)
Fixpoint seg (m : links) (p : loc) (q : list positive) (nx : option positive) : Prop :=
  match q with
  | [] => True
  | a :: q' => m !! Elem a = Some (mk_link (hd_or nx q') (Some p)) /\ seg m (Elem a) q' nx
  end.

Definition tailq (m : links) (h : positive) (q : list positive) : Prop :=
  m !! Head h = Some (mk_link (hd_or None q) (Some (end_loc (Head h) q))) /\ seg m (Head h) q None /\ NoDup q.

Lemma end_loc_app p q1 q2 : end_loc p (q1 ++ q2) = end_loc (end_loc p q1) q2.
Proof. revert p. induction q1 as [|a q1 IH]; intros p; simpl; [done|apply IH]. Qed.

Lemma hd_or_app nx q1 q2 : hd_or nx (q1 ++ q2) = hd_or (hd_or nx q2) q1.
Proof. by destruct q1. Qed.

Lemma seg_app m p q1 q2 nx : seg m p (q1 ++ q2) nx <-> seg m p q1 (hd_or nx q2) /\ seg m (end_loc p q1) q2 nx.
Proof. revert p. induction q1 as [|a q1 IH]; intros p; simpl; [tauto|]. rewrite IH, hd_or_app. tauto. Qed.

Lemma seg_frame m m' p q nx : (forall a, a ∈ q -> m' !! Elem a = m !! Elem a) -> seg m p q nx -> seg m' p q nx.
Proof.
  revert p. induction q as [|a q IH]; intros p Hf; simpl; [done|]. intros [Ha Hq]. split; [rewrite Hf; [done|by left]|].
  apply IH; [|done]. intros b Hb. apply Hf. by right.
Qed.

(** What an operation on a queue may touch. *)
Definition outside (h : positive) (q : list positive) (l : loc) : Prop := match l with Head h' => h' <> h | Elem b => b ∉ q end.

(** The queue of [h] is [q'] after the operation, which only touched the head
    and the elements of [q]. *)
Definition makes (h : positive) (q q' : list positive) (m : links) (m' : links) : Prop :=
  tailq m' h q' /\ (forall l, outside h q l -> m' !! l = m !! l) /\ (forall l, is_Some (m !! l) -> is_Some (m' !! l)).

(** ** Running the macros *)

Lemma run_ld_next l m x (Q : option positive -> links -> Prop) : m !! l = Some x -> Q (l_next x) m -> runs (ld_next (Some l)) m Q.
Proof. intros H HQ. apply (runs_reads _ _ (l_next x)); [|done]. by rewrite H. Qed.
Lemma run_ld_prev l m x (Q : option loc -> links -> Prop) : m !! l = Some x -> Q (l_prev x) m -> runs (ld_prev (Some l)) m Q.
Proof. intros H HQ. apply (runs_reads _ _ (l_prev x)); [|done]. by rewrite H. Qed.
Lemma run_st_link f l m x (Q : unit -> links -> Prop) : m !! l = Some x -> Q tt (<[l := f x]> m) -> runs (st_link f (Some l)) m Q.
Proof. intros H HQ. unfold runs, st_link. by rewrite H. Qed.

(** Look up a location among the stores made so far. *)
Ltac look :=
  cbn [l_next l_prev elem fmap option_fmap option_map];
  repeat first [rewrite lookup_insert_eq | rewrite lookup_insert_ne by congruence]; first [eassumption | reflexivity].

Ltac qstep :=
  lazymatch goal with
  | |- runs (mbind _ _) _ _ => apply runs_bind
  | |- runs (mret _) _ _ => apply runs_ret
  | |- runs (TAILQ_FIRST _) _ _ => unfold TAILQ_FIRST
  | |- runs (TAILQ_NEXT _) _ _ => unfold TAILQ_NEXT
  | |- runs (ld_next (Some _)) _ _ => eapply run_ld_next; [look|]
  | |- runs (ld_prev (Some _)) _ _ => eapply run_ld_prev; [look|]
  | |- runs (st_next _ _) _ _ => unfold st_next
  | |- runs (st_prev _ _) _ _ => unfold st_prev
  | |- runs (st_link _ (Some _)) _ _ => eapply run_st_link; [look|]
  end; cbn [l_next l_prev elem fmap option_fmap option_map].

Lemma insert_some {K A} `{Countable K} (m : gmap K A) i x l : is_Some (m !! l) -> is_Some (<[i := x]> m !! l).
Proof. intros Hl. destruct (decide (i = l)) as [<-|Hne]; [rewrite lookup_insert_eq; by eexists|by rewrite lookup_insert_ne]. Qed.

Ltac notin := repeat match goal with
  | H : _ ∉ _ :: _ |- _ => apply not_elem_of_cons in H as [? ?]
  | H : _ ∉ _ ++ _ |- _ => apply not_elem_of_app in H as [? ?]
  | H : NoDup (_ :: _) |- _ => apply list.NoDup_cons in H as [? ?]
  | H : NoDup (_ ++ _) |- _ => apply list.NoDup_app in H as (? & ? & ?)
  end.

(** The two frame conditions of [makes]. *)
Ltac frames := split; [intros [?h'|?b'] Hl; simpl in Hl; notin; repeat rewrite lookup_insert_ne by congruence; done|intros l Hl; repeat apply insert_some; done].

(** A segment that was not touched. *)
Ltac untouched Hq := eapply seg_frame; [|exact Hq]; intros ?c ?Hin; repeat rewrite lookup_insert_ne by (intros [=]; subst; set_solver); done.

Lemma init_makes h m x : m !! Head h = Some x -> runs (TAILQ_INIT h) m (fun _ m' => makes h [] [] m m').
Proof.
  intros Hh. unfold TAILQ_INIT. repeat qstep. split; [|frames]. split; [simpl; look|]. split; [done|constructor].
Qed.

Lemma insert_head_makes h a q m x : tailq m h q -> a ∉ q -> m !! Elem a = Some x -> runs (TAILQ_INSERT_HEAD h a) m (fun _ m' => makes h (a :: q) (a :: q) m m').
Proof.
  intros (Hh & Hq & Hn) Ha Hx. unfold TAILQ_INSERT_HEAD. destruct q as [|b q]; simpl in Hh; [|destruct Hq as [Hb Hq]]; notin; repeat qstep; (split; [|frames]).
  - split; [simpl; look|]. split; [by split; [look|]|]. constructor; [done|constructor].
  - split; [simpl; look|]. split; [split; [look|]; split; [look|untouched Hq]|]. apply list.NoDup_cons. rewrite not_elem_of_cons, list.NoDup_cons. done.
Qed.

Lemma NoDup_snoc (q : list positive) a : NoDup q -> a ∉ q -> NoDup (q ++ [a]).
Proof. intros Hn Ha. apply list.NoDup_app. split; [done|]. split; [intros c Hc Hc'; apply list_elem_of_singleton in Hc'; by subst|]. constructor; [apply not_elem_of_nil|constructor]. Qed.

Lemma NoDup_middle (q1 q2 : list positive) a : NoDup (q1 ++ a :: q2) -> NoDup (q1 ++ q2).
Proof.
  intros H. apply list.NoDup_app in H as (H1 & H2 & H3). apply list.NoDup_cons in H3 as [H4 H5]. apply list.NoDup_app. split; [done|]. split; [set_solver|done].
Qed.

(** A hypothesis that is only used as it is. *)
Definition keep (P : Prop) : Prop := P.

Lemma insert_tail_makes h a q m x : tailq m h q -> a ∉ q -> m !! Elem a = Some x -> runs (TAILQ_INSERT_TAIL h a) m (fun _ m' => makes h (a :: q) (q ++ [a]) m m').
Proof.
  intros (Hh & Hq & Hn) Ha Hx. unfold TAILQ_INSERT_TAIL. assert (Hres : keep (NoDup (q ++ [a]))) by by apply NoDup_snoc.
  destruct q as [|b q _] using rev_ind; simpl in Hh.
  - repeat qstep. split; [|frames]. split; [simpl; look|]. split; [by split; [look|]|done].
  - rewrite end_loc_app in Hh. simpl in Hh. apply seg_app in Hq as [Hq [Hb _]]. simpl in Hq, Hb. notin. repeat qstep. split; [|frames].
    split; [rewrite end_loc_app; simpl; rewrite lookup_insert_eq; by destruct q|]. split; [|exact Hres].
    apply seg_app. split; [|split; [rewrite end_loc_app; look|done]]. apply seg_app. split; [untouched Hq|]. split; [look|done].
Qed.

Lemma remove_makes h a q1 q2 m : tailq m h (q1 ++ a :: q2) -> runs (TAILQ_REMOVE h a) m (fun _ m' => makes h (q1 ++ a :: q2) (q1 ++ q2) m m').
Proof.
  intros (Hh & Hq & Hn). unfold TAILQ_REMOVE. apply seg_app in Hq as [H1 [Ha H2]]. rewrite end_loc_app in Hh. simpl in Hh.
  assert (Hres : keep (NoDup (q1 ++ q2))) by by eapply NoDup_middle.
  destruct q1 as [|b q1 _] using rev_ind; destruct q2 as [|c q2]; simpl in *.
  - repeat qstep. split; [|frames]. split; [simpl; look|]. done.
  - destruct H2 as [Hc H2]. notin. repeat qstep. split; [|frames]. split; [simpl; look|]. split; [|done]. split; [look|untouched H2].
  - apply seg_app in H1 as [H1 [Hb _]]. rewrite end_loc_app in *. simpl in *. notin. repeat qstep. split; [|frames].
    rewrite app_nil_r in *. split; [rewrite end_loc_app; simpl; repeat rewrite lookup_insert_ne by congruence; rewrite lookup_insert_eq; by destruct q1|]. split; [|exact Hres].
    apply seg_app. split; [untouched H1|]. split; [look|done].
  - apply seg_app in H1 as [H1 [Hb _]]. destruct H2 as [Hc H2]. rewrite end_loc_app in *. simpl in *.
    assert (b <> a /\ b <> c) as [? ?] by (apply list.NoDup_app in Hn as (_ & Hd & _); specialize (Hd b); set_solver). notin. repeat qstep. split; [|frames].
    split; [rewrite !lookup_insert_ne by congruence; rewrite Hh, !end_loc_app; simpl; by destruct q1|]. split; [|exact Hres].
    apply seg_app. split; [apply seg_app; split; [untouched H1|split; [look|done]]|]. rewrite end_loc_app. split; [look|untouched H2].
Qed.

(** ** The queries *)

Lemma seg_prev m p q1 a q2 nx : seg m p (q1 ++ a :: q2) nx -> m !! Elem a = Some (mk_link (hd_or nx q2) (Some (end_loc p q1))).
Proof. intros H. apply seg_app in H as [_ [H _]]. exact H. Qed.

(** The pointer that ends a queue is NULL. *)
Lemma tailq_ends m h q : tailq m h q -> exists x, m !! end_loc (Head h) q = Some x /\ l_next x = None.
Proof.
  intros (Hh & Hq & _). destruct q as [|b q _] using rev_ind; [by eexists|]. rewrite end_loc_app. apply seg_prev in Hq. by eexists.
Qed.

(** The location that [tqh_last] or [tqe_prev] points into, behind the elements
    [q1], has a pair of its own; the address in it is that of the pointer to
    the last of [q1], or of the NULL that ends the queue when there is none. *)
Lemma run_last_of h q1 q2 m : tailq m h (q1 ++ q2) ->
  runs (l' ← ld_prev (Some (end_loc (Head h) q1)); ld_next l') m (fun r m' => r = list.last q1 /\ m' = m).
Proof.
  intros Hq. apply runs_bind. destruct q1 as [|b q1 _] using rev_ind.
  - destruct (tailq_ends _ _ _ Hq) as (x & Hx & Hn). destruct Hq as (Hh & _). eapply run_ld_prev; [exact Hh|]. eapply run_ld_next; [exact Hx|done].
  - rewrite <- app_assoc in Hq. destruct Hq as (Hh & Hq & _). rewrite end_loc_app, last_snoc. eapply run_ld_prev; [by eapply seg_prev|].
    destruct q1 as [|c q1 _] using rev_ind; [by eapply run_ld_next; [exact Hh|]|].
    rewrite <- app_assoc in Hq. apply seg_prev in Hq. simpl. rewrite end_loc_app. by eapply run_ld_next; [exact Hq|].
Qed.

Lemma run_TAILQ_FIRST h q m : tailq m h q -> runs (TAILQ_FIRST h) m (fun r m' => r = head q /\ m' = m).
Proof. intros (Hh & _). qstep. eapply run_ld_next; [exact Hh|]. by destruct q. Qed.

Lemma run_TAILQ_LAST h q m : tailq m h q -> runs (TAILQ_LAST h) m (fun r m' => r = list.last q /\ m' = m).
Proof.
  intros Hq. unfold TAILQ_LAST. apply runs_bind. eapply run_ld_prev; [apply Hq|]. simpl. apply (run_last_of _ _ []). by rewrite app_nil_r.
Qed.

Lemma run_TAILQ_NEXT h q1 a q2 m : tailq m h (q1 ++ a :: q2) -> runs (TAILQ_NEXT a) m (fun r m' => r = head q2 /\ m' = m).
Proof. intros (_ & Hq & _). qstep. eapply run_ld_next; [by eapply seg_prev|]. by destruct q2. Qed.

Lemma run_TAILQ_PREV h q1 a q2 m : tailq m h (q1 ++ a :: q2) -> runs (TAILQ_PREV a) m (fun r m' => r = list.last q1 /\ m' = m).
Proof. intros Hq. unfold TAILQ_PREV. apply runs_bind. eapply run_ld_prev; [by eapply seg_prev, Hq|]. by eapply run_last_of. Qed.

(** ** Several queues *)

(** What the lists say of an element of a queue. *)
Lemma tailq_remove_app a q1 q2 : a ∉ q1 -> tailq_remove a (q1 ++ a :: q2) = Some (q1 ++ q2).
Proof.
  induction q1 as [|b q1 IH]; intros H; simpl; [by rewrite bool_decide_true|]. notin. rewrite bool_decide_false by congruence. by rewrite IH.
Qed.
Lemma queue_after_app a q1 q2 : a ∉ q1 -> tailq_after a (q1 ++ a :: q2) = q2.
Proof. induction q1 as [|b q1 IH]; intros H; simpl; [by rewrite bool_decide_true|]. notin. rewrite bool_decide_false by congruence. by apply IH. Qed.
Lemma tailq_remove_None a q : a ∉ q -> tailq_remove a q = None.
Proof. induction q as [|b q IH]; intros H; simpl; [done|]. notin. rewrite bool_decide_false by congruence. by rewrite IH. Qed.

(** An element splits its queue. *)
Lemma queue_split m h q a : tailq m h q -> a ∈ q -> exists q1 q2, q = q1 ++ a :: q2 /\ (a ∉ q1) /\ (a ∉ q2).
Proof.
  intros (_ & _ & Hn) Ha. apply list_elem_of_split in Ha as (q1 & q2 & ->). exists q1, q2. apply list.NoDup_app in Hn as (_ & Hd & Hn). apply list.NoDup_cons in Hn as [Hn _].
  split; [done|]. split; [|done]. intros H. apply (Hd _ H). by left.
Qed.

Lemma tailq_prev_app a q1 q2 : a ∉ q2 -> tailq_prev a (q1 ++ a :: q2) = list.last q1.
Proof.
  intros H. unfold tailq_prev, tailq_before. rewrite reverse_app, reverse_cons, <- app_assoc. simpl. rewrite queue_after_app by (by rewrite elem_of_reverse). by rewrite head_reverse.
Qed.

(** TAILQ_FOREACH and TAILQ_FOREACH_REVERSE: the elements the loop visits, with
    a body that leaves the queue alone.  A loop that does not end faults. *)
Fixpoint visit (fuel : nat) (step : positive -> L (option positive)) (var : option positive) : L (list positive) :=
  match var with
  | None => mret []
  | Some a =>
      match fuel with
      | O => fault
      | S fuel => n ← step a; l ← visit fuel step n; mret (a :: l)
      end
  end.
Definition TAILQ_FOREACH (fuel : nat) (h : positive) : L (list positive) := a ← TAILQ_FIRST h; visit fuel TAILQ_NEXT a.
Definition TAILQ_FOREACH_REVERSE (fuel : nat) (h : positive) : L (list positive) := a ← TAILQ_LAST h; visit fuel TAILQ_PREV a.

Lemma runs_exact {S A} (f : ST S A) m v : runs f m (fun r m' => r = v /\ m' = m) -> f m = Some (v, m).
Proof. unfold runs. destruct (f m) as [[r m']|]; [|done]. by intros [-> ->]. Qed.

Lemma run_foreach fuel h q1 q2 m : tailq m h (q1 ++ q2) -> (length q2 <= fuel)%nat -> runs (visit fuel TAILQ_NEXT (head q2)) m (fun r m' => r = q2 /\ m' = m).
Proof.
  revert fuel q1. induction q2 as [|a q2 IH]; intros fuel q1 Hq Hf; [destruct fuel; by apply runs_ret|]. simpl in Hf. destruct fuel as [|fuel]; [lia|]. simpl.
  apply runs_bind. eapply runs_mono; [by eapply run_TAILQ_NEXT|]. intros r m1 [-> ->]. apply runs_bind.
  eapply runs_mono; [apply (IH fuel (q1 ++ [a])); [by rewrite <- app_assoc|lia]|]. intros r m1 [-> ->]. by apply runs_ret.
Qed.

Lemma run_foreach_reverse fuel h q1 q2 m : tailq m h (q1 ++ q2) -> (length q1 <= fuel)%nat -> runs (visit fuel TAILQ_PREV (list.last q1)) m (fun r m' => r = reverse q1 /\ m' = m).
Proof.
  revert fuel q2. induction q1 as [|a q1 IH] using rev_ind; intros fuel q2 Hq Hf; [destruct fuel; by apply runs_ret|]. rewrite length_app in Hf. simpl in Hf. destruct fuel as [|fuel]; [lia|].
  rewrite <- app_assoc in Hq. rewrite last_snoc, reverse_snoc. simpl.
  apply runs_bind. eapply runs_mono; [by eapply run_TAILQ_PREV|]. intros r m1 [-> ->]. apply runs_bind.
  eapply runs_mono; [apply (IH fuel (a :: q2)); [done|lia]|]. intros r m1 [-> ->]. by apply runs_ret.
Qed.

(** The queues a program has, by their heads. *)
Abbreviation queues := (gmap positive (list positive)).

(** No element is in two queues. *)
Definition apart_queues (Q : queues) : Prop := forall h h' q q' a, Q !! h = Some q -> Q !! h' = Some q' -> a ∈ q -> a ∈ q' -> h = h'.

(** The memory has the heads [HS] and the elements [E], and the queues [Q] are
    in it. *)
Definition represents (HS E : gset positive) (m : links) (Q : queues) : Prop :=
  (forall h, h ∈ HS -> is_Some (m !! Head h)) /\ (forall a, a ∈ E -> is_Some (m !! Elem a)) /\
  (forall h q, Q !! h = Some q -> tailq m h q) /\ apart_queues Q.

Inductive qop := OInit (h : positive) | OInsertHead (h a : positive) | OInsertTail (h a : positive) | ORemove (h a : positive).

Definition exec (o : qop) : L unit :=
  match o with
  | OInit h => TAILQ_INIT h
  | OInsertHead h a => TAILQ_INSERT_HEAD h a
  | OInsertTail h a => TAILQ_INSERT_TAIL h a
  | ORemove h a => TAILQ_REMOVE h a
  end.
Fixpoint exec_all (os : list qop) : L unit := match os with [] => mret tt | o :: os => exec o;; exec_all os end.

(** What the operations mean on lists.  An element must be in no queue to be
    inserted, and in the queue it is removed from. *)
Definition queued (Q : queues) (a : positive) : Prop := map_Exists (fun _ q => a ∈ q) Q.

Definition spec (HS E : gset positive) (o : qop) (Q : queues) : option queues :=
  let insert f h a := if bool_decide (a ∈ E) && negb (bool_decide (queued Q a)) then q ← Q !! h; q' ← f a q; Some (<[h := q']> Q) else None in
  match o with
  | OInit h => if bool_decide (h ∈ HS) then Some (<[h := []]> Q) else None
  | OInsertHead h a => insert tailq_insert_head h a
  | OInsertTail h a => insert tailq_insert_tail h a
  | ORemove h a => q ← Q !! h; q' ← tailq_remove a q; Some (<[h := q']> Q)
  end.
Fixpoint spec_all (HS E : gset positive) (os : list qop) (Q : queues) : option queues :=
  match os with [] => Some Q | o :: os => Q' ← spec HS E o Q; spec_all HS E os Q' end.

(** A change of one list, to elements of no other, keeps the lists apart. *)
Lemma apart_insert Q h q' : apart_queues Q -> (forall h' q a, Q !! h' = Some q -> h' <> h -> a ∈ q -> a ∉ q') -> apart_queues (<[h := q']> Q).
Proof.
  intros H4 Hd h1 h2 q1 q2 a Hq1 Hq2 Ha1 Ha2. destruct (decide (h1 = h)) as [->|Hn1], (decide (h2 = h)) as [->|Hn2]; [done| | |].
  - rewrite lookup_insert_eq in Hq1. injection Hq1 as <-. rewrite lookup_insert_ne in Hq2 by done. exfalso. by apply (Hd h2 q2 a).
  - rewrite lookup_insert_eq in Hq2. injection Hq2 as <-. rewrite lookup_insert_ne in Hq1 by done. exfalso. by apply (Hd h1 q1 a).
  - rewrite lookup_insert_ne in Hq1, Hq2 by done. by eapply H4.
Qed.

(** An operation that makes [q'] of the queue of [h], touching no element of
    another queue, keeps the memory and the lists together. *)
Lemma makes_represents HS E m m' Q h t q' : represents HS E m Q -> makes h t q' m m' ->
  (forall h' q a, Q !! h' = Some q -> h' <> h -> a ∈ q -> (a ∉ t) /\ (a ∉ q')) -> represents HS E m' (<[h := q']> Q).
Proof.
  intros (H1 & H2 & H3 & H4) (Ht & Hf & Hs) Hd. split; [auto|]. split; [auto|]. split.
  - intros h' q Hq. destruct (decide (h' = h)) as [->|Hne]; [rewrite lookup_insert_eq in Hq; by injection Hq as <-|]. rewrite lookup_insert_ne in Hq by done.
    destruct (H3 h' q Hq) as (Hh & Hg & Hn). split; [by rewrite Hf|]. split; [|done]. eapply seg_frame; [|exact Hg]. intros a Ha. apply Hf. by apply (Hd h' q).
  - apply apart_insert; [done|]. intros h' q a Hq Hne Ha. by apply (Hd h' q a).
Qed.

Section refine.
Context (HS E : gset positive).

(** An insertion: the macro [op] does to the links what [f] does to the list. *)
Lemma insert_represents (f : positive -> list positive -> option (list positive)) (op : L unit) h a m Q q q' :
  represents HS E m Q -> a ∈ E -> ~ queued Q a -> Q !! h = Some q -> f a q = Some q' -> (forall b, b ∈ q' -> b = a \/ b ∈ q) ->
  (forall x, tailq m h q -> (a ∉ q) -> m !! Elem a = Some x -> runs op m (fun _ m' => makes h (a :: q) q' m m')) ->
  runs op m (fun _ m' => represents HS E m' (<[h := q']> Q)).
Proof.
  intros Hr Ha Hfree Hq Hf Hin Hop. pose proof Hr as (_ & H2 & H3 & H4). destruct (H2 a Ha) as [x Hx].
  assert (Hnot : forall h' q0, Q !! h' = Some q0 -> a ∉ q0) by (intros h' q0 Hl Hi; apply Hfree; by exists h', q0).
  eapply runs_mono; [apply (Hop x); eauto|]. intros [] m' Hm. eapply makes_represents; [done|exact Hm|]. intros h' q0 b Hl Hne Hb.
  assert (Hbq : b ∉ q) by (intros Hi; apply Hne; by eapply H4). assert (b <> a) by (intros ->; by eapply Hnot).
  split; [by apply not_elem_of_cons|]. intros Hi. by destruct (Hin b Hi).
Qed.

Lemma exec_represents o m Q Q' : represents HS E m Q -> spec HS E o Q = Some Q' -> runs (exec o) m (fun _ m' => represents HS E m' Q').
Proof.
  intros Hr Hs. destruct o as [h|h a|h a|h a]; simpl in *.
  - case_bool_decide as Hh; [|done]. apply (inj Some) in Hs as <-. pose proof Hr as (H1 & _). destruct (H1 h Hh) as [x Hx].
    eapply runs_mono; [by eapply init_makes|]. intros [] m' Hm. eapply makes_represents; [done|exact Hm|]. intros h' q a _ _ _. split; apply not_elem_of_nil.
  - case_bool_decide as Ha; [|done]. case_bool_decide as Hf; [done|]. simpl in Hs. apply bind_Some in Hs as (q & Hq & Hs). apply bind_Some in Hs as (q' & Hi & Hs). apply (inj Some) in Hs as <-.
    eapply (insert_represents tailq_insert_head); eauto; unfold tailq_insert_head in Hi; case_bool_decide; try done; apply (inj Some) in Hi as <-.
    + intros b Hb. by apply elem_of_cons in Hb.
    + intros x Ht Hn Hx. by eapply insert_head_makes.
  - case_bool_decide as Ha; [|done]. case_bool_decide as Hf; [done|]. simpl in Hs. apply bind_Some in Hs as (q & Hq & Hs). apply bind_Some in Hs as (q' & Hi & Hs). apply (inj Some) in Hs as <-.
    eapply (insert_represents tailq_insert_tail); eauto; unfold tailq_insert_tail in Hi; case_bool_decide; try done; apply (inj Some) in Hi as <-.
    + intros b Hb. apply elem_of_app in Hb as [Hb|Hb]; [by right|]. left. by apply list_elem_of_singleton in Hb.
    + intros x Ht Hn Hx. by eapply insert_tail_makes.
  - apply bind_Some in Hs as (q & Hq & Hs). apply bind_Some in Hs as (q' & Hi & Hs). apply (inj Some) in Hs as <-. pose proof Hr as (_ & _ & H3 & H4). specialize (H3 h q Hq) as Ht.
    destruct (decide (a ∈ q)) as [Ha|Ha]; [|by rewrite tailq_remove_None in Hi].
    destruct (queue_split _ _ _ _ Ht Ha) as (q1 & q2 & -> & Ha1 & Ha2). rewrite tailq_remove_app in Hi by done. apply (inj Some) in Hi as <-.
    eapply runs_mono; [by eapply remove_makes|]. intros [] m' Hm. eapply makes_represents; [done|exact Hm|]. intros h' q b Hl Hne Hb.
    assert (Hbq : b ∉ q1 ++ a :: q2) by (intros Hb2; apply Hne; by eapply H4). split; [done|]. notin. rewrite elem_of_app. by intros [].
Qed.

Lemma exec_all_represents os m Q Q' : represents HS E m Q -> spec_all HS E os Q = Some Q' -> runs (exec_all os) m (fun _ m' => represents HS E m' Q').
Proof.
  revert m Q. induction os as [|o os IH]; intros m Q Hr Hs; simpl in *; [apply (inj Some) in Hs as <-; by apply runs_ret|].
  apply bind_Some in Hs as (Q1 & H1 & Hs). apply runs_bind. eapply runs_mono; [by eapply exec_represents|]. intros [] m1 Hm. by eapply IH.
Qed.
End refine.

(** What the macros that read a queue say of it. *)
Definition reads_as (m : links) (h : positive) (q : list positive) : Prop :=
  TAILQ_FIRST h m = Some (head q, m) /\ TAILQ_LAST h m = Some (list.last q, m) /\ TAILQ_EMPTY h m = Some (bool_decide (q = []), m) /\
  TAILQ_FOREACH (length q) h m = Some (q, m) /\ TAILQ_FOREACH_REVERSE (length q) h m = Some (reverse q, m) /\
  (forall a, a ∈ q -> TAILQ_NEXT a m = Some (tailq_next a q, m) /\ TAILQ_PREV a m = Some (tailq_prev a q, m)).

Lemma tailq_reads m h q : tailq m h q -> reads_as m h q.
Proof.
  intros Hq. assert (Hn : tailq m h (q ++ [])) by (by rewrite app_nil_r). repeat split.
  - by apply runs_exact, run_TAILQ_FIRST.
  - by apply runs_exact, run_TAILQ_LAST.
  - apply runs_exact. unfold TAILQ_EMPTY. apply runs_bind. eapply runs_mono; [apply run_TAILQ_FIRST; exact Hq|]. intros r m1 [-> ->]. apply runs_ret. by destruct q.
  - apply runs_exact. unfold TAILQ_FOREACH. apply runs_bind. eapply runs_mono; [apply run_TAILQ_FIRST; exact Hq|]. intros r m1 [-> ->]. apply (run_foreach _ h [] q); [exact Hq|lia].
  - apply runs_exact. unfold TAILQ_FOREACH_REVERSE. apply runs_bind. eapply runs_mono; [apply run_TAILQ_LAST; exact Hq|]. intros r m1 [-> ->]. apply (run_foreach_reverse _ h q []); [exact Hn|lia].
  - destruct (queue_split _ _ _ _ Hq H) as (q1 & q2 & -> & H1 & H2). apply runs_exact. unfold tailq_next. rewrite queue_after_app by done. by eapply run_TAILQ_NEXT.
  - destruct (queue_split _ _ _ _ Hq H) as (q1 & q2 & -> & H1 & H2). apply runs_exact. rewrite tailq_prev_app by done. by eapply run_TAILQ_PREV.
Qed.

(** C33. The tail queues are lists: on a memory with the heads [HS] and the
    elements [E], any sequence of TAILQ_INIT, TAILQ_INSERT_HEAD,
    TAILQ_INSERT_TAIL and TAILQ_REMOVE that the lists allow (an element is
    inserted into a queue when it is in none, and removed from the one it is in)
    follows no bad pointer, and afterwards every queue that was initialised
    reads as the list the operations made of it: TAILQ_FIRST, TAILQ_LAST and
    TAILQ_EMPTY by its head, last and emptiness, the loops forth and back by
    its elements in order and in reverse, each ending within the length of the list, TAILQ_NEXT
    and TAILQ_PREV of every element by its neighbours. *)
Theorem tailq_refines_lists (HS E : gset positive) (os : list qop) (m : links) (Q : queues) :
  (forall h, h ∈ HS -> is_Some (m !! Head h)) -> (forall a, a ∈ E -> is_Some (m !! Elem a)) ->
  spec_all HS E os ∅ = Some Q -> runs (exec_all os) m (fun _ m' => map_Forall (reads_as m') Q).
Proof.
  intros H1 H2 Hs. eapply runs_mono; [eapply exec_all_represents; [|exact Hs]|].
  - split; [exact H1|]. split; [exact H2|]. split; [intros h q Hq; by rewrite lookup_empty in Hq|intros h h' q q' a Hq; by rewrite lookup_empty in Hq].
  - intros [] m' (_ & _ & H3 & _) h q Hq. by apply tailq_reads, H3.
Qed.

(** Two queues and three elements; one element goes from the first queue to the
    second. *)
Definition two_queues : links := <[Head 1 := mk_link None None]> (<[Head 2 := mk_link None None]> (<[Elem 1 := mk_link None None]> (<[Elem 2 := mk_link None None]> (<[Elem 3 := mk_link None None]> ∅)))).
Definition two_queues_run : list qop := [OInit 1; OInit 2; OInsertTail 1 1; OInsertTail 1 2; OInsertHead 1 3; ORemove 1 1; OInsertTail 2 1].

Lemma tailq_refines_lists_witness : runs (exec_all two_queues_run) two_queues (fun _ m' => map_Forall (reads_as m') (<[2%positive := [1%positive]]> {[1%positive := [3; 2]%positive]} : queues)).
Proof.
  apply (tailq_refines_lists {[1; 2]}%positive {[1; 2; 3]}%positive).
  - intros h Hh. repeat (apply elem_of_union in Hh as [Hh|Hh]); apply elem_of_singleton in Hh as ->; by eexists.
  - intros a Ha. repeat (apply elem_of_union in Ha as [Ha|Ha]); apply elem_of_singleton in Ha as ->; by eexists.
  - vm_compute. reflexivity.
Defined.
