(* ===== verification/SQueue.v ===== *)
(** The singly-linked tail queues of nc_queue.h, which hold the mbufs of a
    message and the free mbufs, on the links themselves.

    An element has the one pointer [stqe_next]; a head has the pointer
    [stqh_first] and [stqh_last], the address of the pointer that ends the
    queue.  The memory is the pointers by their location (of a head or of an
    element, as in Queue) and the [stqh_last] of the heads. *)

From stdpp Require Import gmap.
From S2P Require Import Prelude State World Queue.

Record smem := mk_smem { s_next : gmap loc (option positive); s_last : gmap positive loc }.
Abbreviation SL := (ST smem).

Definition s_ld (l : loc) : SL (option positive) := reads (fun m => s_next m !! l).
Definition s_ld_last (h : positive) : SL loc := reads (fun m => s_last m !! h).
Definition s_st (l : loc) (v : option positive) : SL unit := fun m =>
  match s_next m !! l with None => None | Some _ => Some (tt, mk_smem (<[l := v]> (s_next m)) (s_last m)) end.
Definition s_st_last (h : positive) (l : loc) : SL unit := fun m =>
  match s_last m !! h with None => None | Some _ => Some (tt, mk_smem (s_next m) (<[h := l]> (s_last m))) end.

(** ** The macros *)

Definition STAILQ_FIRST (h : positive) : SL (option positive) := s_ld (Head h).
Definition STAILQ_EMPTY (h : positive) : SL bool := a ← STAILQ_FIRST h; mret (bool_decide (a = None)).

(** An element that is NULL has no next pointer. *)
Definition STAILQ_NEXT (a : option positive) : SL (option positive) := match a with None => fault | Some a => s_ld (Elem a) end.

(** The element whose next pointer [stqh_last] points to; of a queue that is
    not empty, it is not the head. *)
Definition STAILQ_LAST (h : positive) : SL (option positive) :=
  e ← STAILQ_EMPTY h;
  if (e : bool) then mret None
  else l ← s_ld_last h; match l with Elem a => mret (Some a) | Head _ => fault end.

Definition STAILQ_INIT (h : positive) : SL unit := s_st (Head h) None;; s_st_last h (Head h).

Definition STAILQ_INSERT_HEAD (h a : positive) : SL unit :=
  first ← STAILQ_FIRST h;
  s_st (Elem a) first;;
  (match first with None => s_st_last h (Elem a) | Some _ => mret tt end);;
  s_st (Head h) (Some a).

Definition STAILQ_INSERT_TAIL (h a : positive) : SL unit :=
  s_st (Elem a) None;;
  l ← s_ld_last h;
  s_st l (Some a);;
  s_st_last h (Elem a).

Definition STAILQ_REMOVE_HEAD (h : positive) : SL unit :=
  first ← STAILQ_FIRST h;
  n ← STAILQ_NEXT first;
  s_st (Head h) n;;
  (match n with None => s_st_last h (Head h) | Some _ => mret tt end);;
  match first with None => fault | Some a => s_st (Elem a) None end.

Definition STAILQ_REMOVE_AFTER (h e : positive) : SL unit :=
  a ← STAILQ_NEXT (Some e);
  n ← STAILQ_NEXT a;
  s_st (Elem e) n;;
  (match n with None => s_st_last h (Elem e) | Some _ => mret tt end);;
  match a with None => fault | Some a => s_st (Elem a) None end.

(** The loop of STAILQ_REMOVE: the element whose next one is [a]. *)
Fixpoint find_before (fuel : nat) (a : positive) (curelm : option positive) : SL (option positive) :=
  match fuel with
  | O => fault
  | S fuel => n ← STAILQ_NEXT curelm; if bool_decide (n = Some a) then mret curelm else find_before fuel a n
  end.

Definition STAILQ_REMOVE (fuel : nat) (h a : positive) : SL unit :=
  first ← STAILQ_FIRST h;
  if bool_decide (first = Some a) then STAILQ_REMOVE_HEAD h
  else curelm ← STAILQ_FIRST h; e ← find_before fuel a curelm; match e with None => fault | Some e => STAILQ_REMOVE_AFTER h e end.

(** STAILQ_FOREACH with a body that leaves the queue alone. *)
Fixpoint s_visit (fuel : nat) (var : option positive) : SL (list positive) :=
  match var with
  | None => mret []
  | Some a =>
      match fuel with
      | O => fault
      | S fuel => n ← STAILQ_NEXT (Some a); l ← s_visit fuel n; mret (a :: l)
      end
  end.
Definition STAILQ_FOREACH (fuel : nat) (h : positive) : SL (list positive) := a ← STAILQ_FIRST h; s_visit fuel a.

(** ** What the links represent *)

(** The pointers from [p] on lead through [q] to [nx]. *)
Fixpoint chain (m : gmap loc (option positive)) (p : loc) (q : list positive) (nx : option positive) : Prop :=
  match q with
  | [] => m !! p = Some nx
  | a :: q' => m !! p = Some (Some a) /\ chain m (Elem a) q' nx
  end.

Definition stailq (m : smem) (h : positive) (q : list positive) : Prop :=
  chain (s_next m) (Head h) q None /\ s_last m !! h = Some (end_loc (Head h) q) /\ NoDup q.

(** The locations of the pointers of a queue: all but the last. *)
Definition locs (p : loc) (q : list positive) : list loc := p :: map Elem q.

Lemma chain_at m p q nx : chain m p q nx -> m !! p = Some (hd_or nx q).
Proof. destruct q; simpl; tauto. Qed.

Lemma chain_app m p q1 q2 nx : chain m p (q1 ++ q2) nx <-> chain m p q1 (hd_or nx q2) /\ chain m (end_loc p q1) q2 nx.
Proof.
  revert p. induction q1 as [|a q1 IH]; intros p; simpl; [|rewrite IH; tauto]. split; [intros H; split; [by apply chain_at|done]|tauto].
Qed.

(** A chain only reads the pointer it starts from and those of its elements. *)
Lemma chain_frame m m' p p' q nx : m' !! p' = m !! p -> (forall a, a ∈ q -> m' !! Elem a = m !! Elem a) -> chain m p q nx -> chain m' p' q nx.
Proof.
  revert p p'. induction q as [|a q IH]; intros p p' Hp Hq; simpl; rewrite Hp; [done|]. intros [H1 H2]. split; [done|].
  apply (IH (Elem a)); [apply Hq; by left| |done]. intros b Hb. apply Hq. by right.
Qed.

(** Another end for a chain. *)
Lemma chain_end m m' p q nx nx' : m' !! end_loc p q = Some nx' -> (forall l, l ∈ locs p q -> l <> end_loc p q -> m' !! l = m !! l) -> NoDup q -> (forall a, a ∈ q -> p <> Elem a) ->
  chain m p q nx -> chain m' p q nx'.
Proof.
  revert p. induction q as [|a q IH]; intros p He Hl Hn Hp; [done|]. simpl. intros [H1 H2]. apply list.NoDup_cons in Hn as [Ha Hn].
  split.
  - rewrite Hl; [done|by left|]. simpl. intros E. destruct q as [|c q _] using rev_ind; simpl in E; [by apply (Hp a); [left|]|].
    rewrite end_loc_app in E. apply (Hp c); [|done]. right. apply elem_of_app. right. by left.
  - apply IH; [done| |done| |done]; [intros l Hin; apply Hl; by right|]. intros b Hb [=->]. done.
Qed.

(** As [makes] of Queue: the queue of [h] is [q'] afterwards, and only its head
    and the elements of [t] were touched. *)
Definition smakes (h : positive) (t q' : list positive) (m m' : smem) : Prop :=
  stailq m' h q' /\ (forall l, outside h t l -> s_next m' !! l = s_next m !! l) /\ (forall h', h' <> h -> s_last m' !! h' = s_last m !! h') /\
  (forall l, is_Some (s_next m !! l) -> is_Some (s_next m' !! l)) /\ (forall h', is_Some (s_last m !! h') -> is_Some (s_last m' !! h')).

Lemma run_s_ld l m x (P : option positive -> smem -> Prop) : s_next m !! l = Some x -> P x m -> runs (s_ld l) m P.
Proof. intros H HP. by apply (runs_reads _ _ x). Qed.
Lemma run_s_ld_last h m x (P : loc -> smem -> Prop) : s_last m !! h = Some x -> P x m -> runs (s_ld_last h) m P.
Proof. intros H HP. by apply (runs_reads _ _ x). Qed.
Lemma run_s_st l v m x (P : unit -> smem -> Prop) : s_next m !! l = Some x -> P tt (mk_smem (<[l := v]> (s_next m)) (s_last m)) -> runs (s_st l v) m P.
Proof. intros H HP. unfold runs, s_st. by rewrite H. Qed.
Lemma run_s_st_last h v m x (P : unit -> smem -> Prop) : s_last m !! h = Some x -> P tt (mk_smem (s_next m) (<[h := v]> (s_last m))) -> runs (s_st_last h v) m P.
Proof. intros H HP. unfold runs, s_st_last. by rewrite H. Qed.

Ltac slook := cbn [s_next s_last]; repeat first [rewrite lookup_insert_eq | rewrite lookup_insert_ne by congruence]; first [eassumption | reflexivity].
Ltac sstep :=
  lazymatch goal with
  | |- runs (mbind _ _) _ _ => apply runs_bind
  | |- runs (mret _) _ _ => apply runs_ret
  | |- runs (STAILQ_FIRST _) _ _ => unfold STAILQ_FIRST
  | |- runs (STAILQ_NEXT (Some _)) _ _ => unfold STAILQ_NEXT
  | |- runs (s_ld _) _ _ => eapply run_s_ld; [slook|]
  | |- runs (s_ld_last _) _ _ => eapply run_s_ld_last; [slook|]
  | |- runs (s_st _ _) _ _ => eapply run_s_st; [slook|]
  | |- runs (s_st_last _ _) _ _ => eapply run_s_st_last; [slook|]
  end; cbn [s_next s_last].

(** The four frame conditions. *)
Ltac sframes_last :=
  split; [intros ?h' ?Hh'; cbn [s_last]; repeat rewrite lookup_insert_ne by congruence; done|];
  split; intros ?l ?Hdom; cbn [s_next s_last]; repeat apply insert_some; done.
Ltac sframes :=
  split; [let Ho := fresh "Ho" in intros [?h'|?b'] Ho; simpl in Ho; notin; cbn [s_next]; repeat rewrite lookup_insert_ne by congruence; done|]; sframes_last.

(** Elements that were not touched. *)
Lemma elem_apart a c (q : list positive) : c ∈ q -> a ∉ q -> Elem a <> Elem c.
Proof. intros Hc Ha [=->]. done. Qed.
Ltac same := intros ?c ?Hin; cbn [s_next]; repeat rewrite lookup_insert_ne by (discriminate || (eapply elem_apart; [eassumption|assumption])); done.

Lemma sinit_makes h m x y : s_next m !! Head h = Some x -> s_last m !! h = Some y -> runs (STAILQ_INIT h) m (fun _ m' => smakes h [] [] m m').
Proof. intros Hx Hy. unfold STAILQ_INIT. repeat sstep. split; [|sframes]. split; [simpl; slook|]. split; [simpl; slook|constructor]. Qed.

Lemma sinsert_head_makes h a q m x : stailq m h q -> a ∉ q -> s_next m !! Elem a = Some x -> runs (STAILQ_INSERT_HEAD h a) m (fun _ m' => smakes h (a :: q) (a :: q) m m').
Proof.
  intros (Hq & Hl & Hn) Ha Hx. unfold STAILQ_INSERT_HEAD. pose proof (chain_at _ _ _ _ Hq) as Hh. destruct q as [|b q]; simpl in Hh; repeat sstep; (split; [|sframes]).
  - split; [simpl; split; slook|]. split; [simpl; slook|by apply NoDup_singleton].
  - split; [|split; [simpl in Hl |- *; slook|by constructor]]. split; [slook|]. apply (chain_frame (s_next m) _ (Head h)); [|same|exact Hq].
    cbn [s_next]. rewrite Hh. slook.
Qed.

Lemma end_loc_elem p q : q <> [] -> exists a, a ∈ q /\ end_loc p q = Elem a.
Proof. intros H. destruct q as [|a q _] using rev_ind; [done|]. exists a. rewrite end_loc_app. split; [apply elem_of_app; right; by left|done]. Qed.

(** The pointer that ends a queue is not that of an element outside of it. *)
Lemma end_loc_apart h q a : a ∉ q -> end_loc (Head h) q <> Elem a.
Proof. intros Ha E. destruct (decide (q = [])) as [->|Hq]; [done|]. destruct (end_loc_elem (Head h) q Hq) as (b & Hb & E'). rewrite E' in E. by injection E as ->. Qed.

Lemma sinsert_tail_makes h a q m x : stailq m h q -> a ∉ q -> s_next m !! Elem a = Some x -> runs (STAILQ_INSERT_TAIL h a) m (fun _ m' => smakes h (a :: q) (q ++ [a]) m m').
Proof.
  intros (Hq & Hl & Hn) Ha Hx. unfold STAILQ_INSERT_TAIL. pose proof (end_loc_apart h q a Ha) as Hne.
  assert (He : s_next m !! end_loc (Head h) q = Some None) by (rewrite <- (app_nil_r q) in Hq; apply chain_app in Hq as [_ Hq]; exact Hq).
  repeat sstep. split; [split; [|split]|].
  - apply chain_app. split; [|simpl; split; slook]. eapply chain_end; [cbn [s_next]; slook| |done|done|exact Hq].
    intros l Hin Hnl. cbn [s_next]. rewrite !lookup_insert_ne; [done|intros <-|congruence]. unfold locs in Hin. apply elem_of_cons in Hin as [Hin|Hin]; [done|].
    apply list_elem_of_fmap in Hin as (b & [= <-] & Hb). done.
  - rewrite end_loc_app. simpl. slook.
  - by apply NoDup_snoc.
  - split; [|sframes_last]. intros l Hlo. cbn [s_next]. rewrite !lookup_insert_ne; [done| |].
    + intros <-. simpl in Hlo. notin. done.
    + intros <-. destruct (decide (q = [])) as [->|Hq0]; [exfalso; by apply Hlo|]. destruct (end_loc_elem (Head h) q Hq0) as (b & Hb & E). rewrite E in Hlo. simpl in Hlo. notin. done.
Qed.

Lemma sremove_head_makes h a q m : stailq m h (a :: q) -> runs (STAILQ_REMOVE_HEAD h) m (fun _ m' => smakes h (a :: q) q m m').
Proof.
  intros ([Hh Hq] & Hl & Hn). unfold STAILQ_REMOVE_HEAD. pose proof (chain_at _ _ _ _ Hq) as Hx. destruct q as [|b q]; simpl in Hx; apply list.NoDup_cons in Hn as [Ha Hn]; repeat sstep; (split; [|sframes]).
  - split; [simpl; slook|]. split; [simpl; slook|constructor].
  - split; [|split; [simpl in Hl |- *; slook|done]]. apply (chain_frame (s_next m) _ (Elem a)); [|same|exact Hq]. cbn [s_next]. rewrite Hx. slook.
Qed.

Lemma sremove_after_makes h q1 e a q2 m : stailq m h (q1 ++ e :: a :: q2) -> runs (STAILQ_REMOVE_AFTER h e) m (fun _ m' => smakes h (q1 ++ e :: a :: q2) (q1 ++ e :: q2) m m').
Proof.
  intros (Hq & Hl & Hn). unfold STAILQ_REMOVE_AFTER. apply chain_app in Hq as [H1 [He [Ha H2]]]. pose proof (chain_at _ _ _ _ H2) as Hx.
  assert (Hres : keep (NoDup (q1 ++ e :: q2))) by (pose proof (NoDup_middle (q1 ++ [e]) q2 a) as H; rewrite <- !app_assoc in H; by apply H).
  rewrite end_loc_app in Hl. simpl in Hl. assert (Hea : e <> a /\ (e ∉ q1) /\ (a ∉ q1) /\ (e ∉ q2) /\ (a ∉ q2)) by (apply list.NoDup_app in Hn as (_ & Hd & Hn); notin; set_solver).
  destruct Hea as (Hea & Hq1 & Hq1' & Hq2 & Hq2').
  assert (Hc : forall v mx, mx = <[Elem a := None]> (<[Elem e := v]> (s_next m)) -> v = hd_or None q2 -> chain mx (Head h) (q1 ++ e :: q2) None).
  { intros v mx -> ->. apply chain_app. split; [apply (chain_frame (s_next m) _ (Head h)); [slook|same|exact H1]|]. simpl. split.
    - rewrite !lookup_insert_ne by (intros E; by apply (end_loc_apart h q1) in E || (apply eq_sym, (end_loc_apart h q1) in E)). exact He.
    - apply (chain_frame (s_next m) _ (Elem a)); [|same|exact H2]. rewrite Hx. slook. }
  destruct q2 as [|b q2]; simpl in Hx; repeat sstep; (split; [split; [by eapply Hc|]|]).
  - split; [rewrite end_loc_app; simpl; slook|exact Hres].
  - clear Hc. sframes.
  - split; [rewrite end_loc_app; simpl; slook|exact Hres].
  - clear Hc. sframes.
Qed.

(** The search finds the element before [a], within as many rounds as there are
    elements before it. *)
Lemma run_find_before fuel p q1 b q2 e a q3 m : chain (s_next m) p (q1 ++ (b :: q2) ++ a :: q3) None -> list.last (b :: q2) = Some e -> (a ∉ b :: q2) -> (length (b :: q2) <= fuel)%nat ->
  runs (find_before fuel a (Some b)) m (fun r m' => r = Some e /\ m' = m).
Proof.
  revert fuel p q1 b. induction q2 as [|c q2 IH]; intros fuel p q1 b Hc Hl Ha Hf; simpl in Hf; (destruct fuel as [|fuel]; [lia|]); pose proof Hc as Hb; apply chain_app in Hb as [_ [_ Hb]]; simpl in Hb; simpl.
  - sstep. eapply run_s_ld; [apply Hb|]. rewrite bool_decide_true by done. apply runs_ret. split; [by injection Hl as <-|done].
  - sstep. eapply run_s_ld; [apply Hb|]. notin. rewrite bool_decide_false by congruence.
    apply (IH fuel p (q1 ++ [b])); [by rewrite <- app_assoc|by rewrite last_cons_cons in Hl|by apply not_elem_of_cons|simpl; lia].
Qed.

Lemma sremove_makes h a q1 q2 m fuel : stailq m h (q1 ++ a :: q2) -> (length q1 <= fuel)%nat -> runs (STAILQ_REMOVE fuel h a) m (fun _ m' => smakes h (q1 ++ a :: q2) (q1 ++ q2) m m').
Proof.
  intros Hs Hf. pose proof Hs as (Hq & Hl & Hn). unfold STAILQ_REMOVE. sstep. sstep. eapply run_s_ld; [by apply chain_at|]. destruct q1 as [|b q1].
  - simpl. rewrite bool_decide_true by done. by apply sremove_head_makes.
  - assert (Ha : a ∉ b :: q1) by (apply list.NoDup_app in Hn as (_ & Hd & _); intros H; apply (Hd a H); by left). simpl. rewrite bool_decide_false by (notin; congruence).
    sstep. eapply run_s_ld; [by apply chain_at|]. simpl.
    destruct (exists_last (l := b :: q1)) as (q0 & e & E); [done|]. assert (Hlast : list.last (b :: q1) = Some e) by (rewrite E; apply last_snoc).
    sstep. eapply runs_mono; [apply (run_find_before _ (Head h) [] b q1 e a q2); done|]. intros r m1 [-> ->].
    change (smakes h (b :: q1 ++ a :: q2) (b :: q1 ++ q2)) with (smakes h ((b :: q1) ++ a :: q2) ((b :: q1) ++ q2)).
    change (stailq m h ((b :: q1) ++ a :: q2)) in Hs. rewrite E in *. rewrite <- !app_assoc in *. by apply sremove_after_makes.
Qed.

(** ** The queries *)

Lemma run_s_visit fuel p q m : chain (s_next m) p q None -> (length q <= fuel)%nat -> runs (s_visit fuel (head q)) m (fun r m' => r = q /\ m' = m).
Proof.
  revert fuel p. induction q as [|a q IH]; intros fuel p Hq Hf; [destruct fuel; by apply runs_ret|]. simpl in Hf. destruct fuel as [|fuel]; [lia|]. destruct Hq as [_ Hq]. simpl.
  sstep. eapply run_s_ld; [by apply chain_at|]. replace (hd_or None q) with (head q) by (by destruct q).
  sstep. eapply runs_mono; [apply (IH fuel (Elem a)); [done|lia]|]. intros r m1 [-> ->]. by apply runs_ret.
Qed.

(** What the macros that read a queue say of it. *)
Definition s_reads_as (m : smem) (h : positive) (q : list positive) : Prop :=
  STAILQ_FIRST h m = Some (head q, m) /\ STAILQ_LAST h m = Some (list.last q, m) /\ STAILQ_EMPTY h m = Some (bool_decide (q = []), m) /\
  STAILQ_FOREACH (length q) h m = Some (q, m) /\ (forall a, a ∈ q -> STAILQ_NEXT (Some a) m = Some (tailq_next a q, m)).

Lemma run_STAILQ_FIRST h q m : stailq m h q -> runs (STAILQ_FIRST h) m (fun r m' => r = head q /\ m' = m).
Proof. intros (Hq & _). sstep. eapply run_s_ld; [by apply chain_at|]. by destruct q. Qed.
Lemma run_STAILQ_EMPTY h q m : stailq m h q -> runs (STAILQ_EMPTY h) m (fun r m' => r = bool_decide (q = []) /\ m' = m).
Proof. intros Hq. unfold STAILQ_EMPTY. sstep. eapply runs_mono; [by apply run_STAILQ_FIRST|]. intros r m1 [-> ->]. apply runs_ret. by destruct q. Qed.

Lemma stailq_reads m h q : stailq m h q -> s_reads_as m h q.
Proof.
  intros Hs. pose proof Hs as (Hq & Hl & Hn). repeat split; try apply runs_exact.
  - by apply run_STAILQ_FIRST.
  - unfold STAILQ_LAST. sstep. eapply runs_mono; [by apply run_STAILQ_EMPTY|]. intros r m1 [-> ->]. case_bool_decide as E; [subst; by apply runs_ret|].
    destruct q as [|a q _] using rev_ind; [done|]. rewrite end_loc_app in Hl. sstep. eapply run_s_ld_last; [exact Hl|]. simpl. apply runs_ret. by rewrite last_snoc.
  - by apply run_STAILQ_EMPTY.
  - unfold STAILQ_FOREACH. sstep. eapply runs_mono; [by apply run_STAILQ_FIRST|]. intros r m1 [-> ->]. by apply (run_s_visit _ (Head h)).
  - intros a Ha. apply runs_exact. apply list_elem_of_split in Ha as (q1 & q2 & ->). apply chain_app in Hq as [_ [_ Hq]]. sstep. eapply run_s_ld; [by apply chain_at|]. split; [|done].
    unfold tailq_next. rewrite queue_after_app; [by destruct q2|]. apply list.NoDup_app in Hn as (_ & Hd & _). intros H. apply (Hd a H). by left.
Qed.

(** ** Several queues *)

Inductive sop := SInit (h : positive) | SInsertHead (h a : positive) | SInsertTail (h a : positive) | SRemoveHead (h : positive) | SRemove (h a : positive).

Definition s_exec (fuel : nat) (o : sop) : SL unit :=
  match o with
  | SInit h => STAILQ_INIT h
  | SInsertHead h a => STAILQ_INSERT_HEAD h a
  | SInsertTail h a => STAILQ_INSERT_TAIL h a
  | SRemoveHead h => STAILQ_REMOVE_HEAD h
  | SRemove h a => STAILQ_REMOVE fuel h a
  end.
Fixpoint s_exec_all (fuel : nat) (os : list sop) : SL unit := match os with [] => mret tt | o :: os => s_exec fuel o;; s_exec_all fuel os end.

(** What the operations mean on lists. *)
Definition s_spec (HS E : gset positive) (o : sop) (Q : queues) : option queues :=
  let insert (f : list positive -> list positive) h a := if bool_decide (a ∈ E) && negb (bool_decide (queued Q a)) then q ← Q !! h; Some (<[h := f q]> Q) else None in
  match o with
  | SInit h => if bool_decide (h ∈ HS) then Some (<[h := []]> Q) else None
  | SInsertHead h a => insert (cons a) h a
  | SInsertTail h a => insert (fun q => q ++ [a]) h a
  | SRemoveHead h => q ← Q !! h; match q with [] => None | _ :: q => Some (<[h := q]> Q) end
  | SRemove h a => q ← Q !! h; q' ← tailq_remove a q; Some (<[h := q']> Q)
  end.
Fixpoint s_spec_all (HS E : gset positive) (os : list sop) (Q : queues) : option queues :=
  match os with [] => Some Q | o :: os => Q' ← s_spec HS E o Q; s_spec_all HS E os Q' end.

(** The memory has the heads [HS] and the elements [E], and the queues [Q] of
    these elements are in it. *)
Definition s_represents (HS E : gset positive) (m : smem) (Q : queues) : Prop :=
  (forall h, h ∈ HS -> is_Some (s_next m !! Head h) /\ is_Some (s_last m !! h)) /\ (forall a, a ∈ E -> is_Some (s_next m !! Elem a)) /\
  (forall h q, Q !! h = Some q -> stailq m h q /\ (forall a, a ∈ q -> a ∈ E)) /\ apart_queues Q.

Lemma smakes_represents HS E m m' Q h t q' : s_represents HS E m Q -> smakes h t q' m m' -> (forall a, a ∈ q' -> a ∈ E) ->
  (forall h' q a, Q !! h' = Some q -> h' <> h -> a ∈ q -> (a ∉ t) /\ (a ∉ q')) -> s_represents HS E m' (<[h := q']> Q).
Proof.
  intros (H1 & H2 & H3 & H4) (Ht & Hf & Hfl & Hs & Hsl) HE Hd. split; [intros h' Hh'; destruct (H1 h' Hh'); auto|]. split; [auto|]. split.
  - intros h' q Hq. destruct (decide (h' = h)) as [->|Hne]; [rewrite lookup_insert_eq in Hq; by injection Hq as <-|]. rewrite lookup_insert_ne in Hq by done.
    destruct (H3 h' q Hq) as [(Hg & Hl & Hn) Hin]. split; [|done]. split; [|split; [by rewrite Hfl|done]].
    apply (chain_frame (s_next m) _ (Head h')); [by apply Hf| |exact Hg]. intros a Ha. apply Hf. by apply (Hd h' q).
  - apply apart_insert; [done|]. intros h' q a Hq Hne Ha. by apply (Hd h' q a).
Qed.

Section refine.
Context (HS E : gset positive).

Lemma s_length_bound m Q h q : s_represents HS E m Q -> Q !! h = Some q -> (length q <= size E)%nat.
Proof.
  intros (_ & _ & H3 & _) Hq. destruct (H3 h q Hq) as [(_ & _ & Hn) Hin]. rewrite <- (size_list_to_set (C := gset positive)) by done. apply subseteq_size. intros a Ha. apply Hin. by apply elem_of_list_to_set in Ha.
Qed.

Lemma sinsert_represents (op : SL unit) h a m Q q q' :
  s_represents HS E m Q -> a ∈ E -> ~ queued Q a -> Q !! h = Some q -> (forall b, b ∈ q' -> b = a \/ b ∈ q) ->
  (forall x, stailq m h q -> (a ∉ q) -> s_next m !! Elem a = Some x -> runs op m (fun _ m' => smakes h (a :: q) q' m m')) ->
  runs op m (fun _ m' => s_represents HS E m' (<[h := q']> Q)).
Proof.
  intros Hr Ha Hfree Hq Hin Hop. pose proof Hr as (_ & H2 & H3 & H4). destruct (H2 a Ha) as [x Hx].
  assert (Hnot : forall h' q0, Q !! h' = Some q0 -> a ∉ q0) by (intros h' q0 Hl Hi; apply Hfree; by exists h', q0). destruct (H3 h q Hq) as [Hs HE].
  eapply runs_mono; [apply (Hop x); eauto|]. intros [] m' Hm. eapply smakes_represents; [done|exact Hm|intros b Hb; destruct (Hin b Hb) as [->|]; auto|]. intros h' q0 b Hl Hne Hb.
  assert (Hbq : b ∉ q) by (intros Hi; apply Hne; by eapply H4). assert (b <> a) by (intros ->; by eapply Hnot).
  split; [by apply not_elem_of_cons|]. intros Hi. by destruct (Hin b Hi).
Qed.

(** A removal from the queue of [h], of an element of it. *)
Lemma sremove_represents (op : SL unit) h a m Q q1 q2 : s_represents HS E m Q -> Q !! h = Some (q1 ++ a :: q2) ->
  runs op m (fun _ m' => smakes h (q1 ++ a :: q2) (q1 ++ q2) m m') -> runs op m (fun _ m' => s_represents HS E m' (<[h := q1 ++ q2]> Q)).
Proof.
  intros Hr Hq Hop. pose proof Hr as (_ & _ & H3 & H4). destruct (H3 _ _ Hq) as [_ HE].
  eapply runs_mono; [exact Hop|]. intros [] m' Hm. eapply smakes_represents; [done|exact Hm|intros b Hb; apply HE, elem_of_app; apply elem_of_app in Hb as [Hb|Hb]; [by left|right; by right]|]. intros h' q b Hl Hne Hb.
  assert (Hbq : b ∉ q1 ++ a :: q2) by (intros Hb2; apply Hne; by eapply H4). split; [done|]. notin. rewrite elem_of_app. by intros [].
Qed.

Lemma s_exec_represents fuel o m Q Q' : (size E <= fuel)%nat -> s_represents HS E m Q -> s_spec HS E o Q = Some Q' -> runs (s_exec fuel o) m (fun _ m' => s_represents HS E m' Q').
Proof.
  intros Hfuel Hr Hs. destruct o as [h|h a|h a|h|h a]; simpl in *.
  - case_bool_decide as Hh; [|done]. apply (inj Some) in Hs as <-. pose proof Hr as (H1 & _). destruct (H1 h Hh) as [[x Hx] [y Hy]].
    eapply runs_mono; [by eapply sinit_makes|]. intros [] m' Hm. eapply smakes_represents; [done|exact Hm|set_solver|]. intros h' q a _ _ _. split; apply not_elem_of_nil.
  - case_bool_decide as Ha; [|done]. case_bool_decide as Hf; [done|]. simpl in Hs. apply bind_Some in Hs as (q & Hq & Hs). apply (inj Some) in Hs as <-.
    eapply sinsert_represents; eauto; [intros b Hb; by apply elem_of_cons in Hb|]. intros x Ht Hn Hx. by eapply sinsert_head_makes.
  - case_bool_decide as Ha; [|done]. case_bool_decide as Hf; [done|]. simpl in Hs. apply bind_Some in Hs as (q & Hq & Hs). apply (inj Some) in Hs as <-.
    eapply sinsert_represents; eauto; [intros b Hb; apply elem_of_app in Hb as [Hb|Hb]; [by right|left; by apply list_elem_of_singleton in Hb]|]. intros x Ht Hn Hx. by eapply sinsert_tail_makes.
  - apply bind_Some in Hs as ([|a q] & Hq & Hs); [done|]. apply (inj Some) in Hs as <-. pose proof Hr as (_ & _ & H3 & _). apply (sremove_represents _ h a m Q [] q Hr Hq). by apply sremove_head_makes, H3.
  - apply bind_Some in Hs as (q & Hq & Hs). apply bind_Some in Hs as (q' & Hi & Hs). apply (inj Some) in Hs as <-. pose proof Hr as (_ & _ & H3 & _). destruct (H3 h q Hq) as [Ht _].
    pose proof (s_length_bound _ _ _ _ Hr Hq) as Hlen. destruct (decide (a ∈ q)) as [Ha|Ha]; [|by rewrite tailq_remove_None in Hi]. apply list_elem_of_split in Ha as (q1 & q2 & ->).
    rewrite tailq_remove_app in Hi by (destruct Ht as (_ & _ & Hn); apply list.NoDup_app in Hn as (_ & Hd & _); intros Hx; apply (Hd a Hx); by left). apply (inj Some) in Hi as <-.
    eapply sremove_represents; [done|done|]. apply sremove_makes; [done|]. rewrite length_app in Hlen. lia.
Qed.

Lemma s_exec_all_represents fuel os m Q Q' : (size E <= fuel)%nat -> s_represents HS E m Q -> s_spec_all HS E os Q = Some Q' -> runs (s_exec_all fuel os) m (fun _ m' => s_represents HS E m' Q').
Proof.
  intros Hf. revert m Q. induction os as [|o os IH]; intros m Q Hr Hs; simpl in *; [apply (inj Some) in Hs as <-; by apply runs_ret|].
  apply bind_Some in Hs as (Q1 & H1 & Hs). apply runs_bind. eapply runs_mono; [by eapply s_exec_represents|]. intros [] m1 Hm. by eapply IH.
Qed.
End refine.

(** C34. The queues of mbufs are lists: on a memory with the heads [HS] and the
    elements [E], any sequence of STAILQ_INIT, STAILQ_INSERT_HEAD,
    STAILQ_INSERT_TAIL, STAILQ_REMOVE_HEAD and STAILQ_REMOVE that the lists
    allow follows no bad pointer, the search of STAILQ_REMOVE ends within as many
    rounds as there are elements, and afterwards every queue that was
    initialised reads as its list: STAILQ_FIRST, STAILQ_LAST and STAILQ_EMPTY by
    its head, last and emptiness, STAILQ_FOREACH by its elements in order and STAILQ_NEXT by
    the next element. *)
Theorem stailq_refines_lists (HS E : gset positive) (fuel : nat) (os : list sop) (m : smem) (Q : queues) :
  (size E <= fuel)%nat -> (forall h, h ∈ HS -> is_Some (s_next m !! Head h) /\ is_Some (s_last m !! h)) -> (forall a, a ∈ E -> is_Some (s_next m !! Elem a)) ->
  s_spec_all HS E os ∅ = Some Q -> runs (s_exec_all fuel os) m (fun _ m' => map_Forall (s_reads_as m') Q).
Proof.
  intros Hf H1 H2 Hs. eapply runs_mono; [eapply s_exec_all_represents; [exact Hf| |exact Hs]|].
  - split; [exact H1|]. split; [exact H2|]. split; [intros h q Hq; by rewrite lookup_empty in Hq|intros h h' q q' a Hq; by rewrite lookup_empty in Hq].
  - intros [] m' (_ & _ & H3 & _) h q Hq. by apply stailq_reads, H3.
Qed.

(** A message and the free queue, with three mbufs. *)
Definition two_mhdrs : smem := mk_smem (<[Head 1 := None]> (<[Head 2 := None]> (<[Elem 1 := None]> (<[Elem 2 := None]> (<[Elem 3 := None]> ∅))))) (<[1%positive := Head 2]> (<[2%positive := Head 1]> ∅)).
Definition two_mhdrs_run : list sop := [SInit 1; SInit 2; SInsertTail 1 1; SInsertTail 1 2; SInsertHead 1 3; SRemove 1 2; SInsertHead 2 2; SRemoveHead 1].

Lemma stailq_refines_lists_witness : runs (s_exec_all 3 two_mhdrs_run) two_mhdrs (fun _ m' => map_Forall (s_reads_as m') (<[2%positive := [2%positive]]> {[1%positive := [1%positive]]} : queues)).
Proof.
  apply (stailq_refines_lists {[1; 2]}%positive {[1; 2; 3]}%positive).
  - vm_compute. lia.
  - intros h Hh. repeat (apply elem_of_union in Hh as [Hh|Hh]); apply elem_of_singleton in Hh as ->; split; by eexists.
  - intros a Ha. repeat (apply elem_of_union in Ha as [Ha|Ha]); apply elem_of_singleton in Ha as ->; by eexists.
  - vm_compute. reflexivity.
Defined.
