(* ===== verification/Events.v ===== *)
(** The interface of the event back ends (event/nc_event.h): what the engine
    calls, and what a back end promises about it.

    A back end has a base (struct event_base, with the kernel's side of it)
    and sees of every connection its descriptor and the flags [recv_active] and
    [send_active].  The promise is that the descriptor of every connection is
    watched the way its flags say.  EventEpoll, EventKqueue and EventPorts
    discharge it for their systems; what follows from it for a sequence of calls
    is proved here once, and stated of the three back ends in EventBackends. *)

From stdpp Require Import gmap.
From S2P Require Import Prelude State.

Record econn := mk_econn { e_sd : Z; e_recv_active : bool; e_send_active : bool }.

Record evs {B : Type} := mk_evs { es_base : B; es_conns : gmap positive econn }.
Arguments evs : clear implicits.
Arguments mk_evs {B}.

Section Access.
Context {B : Type}.

(** The fields of a connection and of the base. *)
Definition ev_conn (c : positive) : ST (evs B) econn := reads (fun s => es_conns s !! c).
Definition ev_flags (f : econn -> econn) (c : positive) : ST (evs B) unit := fun s =>
  match es_conns s !! c with
  | None => None
  | Some x => Some (tt, mk_evs (es_base s) (<[c := f x]> (es_conns s)))
  end.
Definition ev_base {A} (f : B -> option (A * B)) : ST (evs B) A := fun s =>
  match f (es_base s) with
  | None => None
  | Some (r, b) => Some (r, mk_evs b (es_conns s))
  end.

(** free(c), after the connection was closed. *)
Definition ev_free (c : positive) : ST (evs B) unit := fun s => Some (tt, mk_evs (es_base s) (delete c (es_conns s))).

Definition set_recv (v : bool) (x : econn) : econn := mk_econn (e_sd x) v (e_send_active x).
Definition set_send (v : bool) (x : econn) : econn := mk_econn (e_sd x) (e_recv_active x) v.

Lemma run_ev_conn c s x (Q : econn -> evs B -> Prop) : es_conns s !! c = Some x -> Q x s -> runs (ev_conn c) s Q.
Proof. intros H HQ. by apply (runs_reads _ _ x). Qed.
Lemma run_ev_flags f c s x (Q : unit -> evs B -> Prop) : es_conns s !! c = Some x -> Q tt (mk_evs (es_base s) (<[c := f x]> (es_conns s))) -> runs (ev_flags f c) s Q.
Proof. intros H HQ. unfold runs, ev_flags. by rewrite H. Qed.
Lemma run_ev_base {A} (f : B -> option (A * B)) s r b (Q : A -> evs B -> Prop) : f (es_base s) = Some (r, b) -> Q r (mk_evs b (es_conns s)) -> runs (ev_base f) s Q.
Proof. intros H HQ. unfold runs, ev_base. by rewrite H. Qed.
End Access.

(** ** The calls of the engine *)

Inductive ev_call := AddConn | AddOut | DelOut | DelConn.

Class EventBackend (B : Type) := {
  be_add_conn : positive -> ST (evs B) Z;
  be_add_out : positive -> ST (evs B) Z;
  be_del_out : positive -> ST (evs B) Z;
  be_del_conn : positive -> ST (evs B) Z
}.

Definition call `{EventBackend B} (o : ev_call) (c : positive) : ST (evs B) Z :=
  match o with
  | AddConn => be_add_conn c
  | AddOut => be_add_out c
  | DelOut => be_del_out c
  | DelConn => be_del_conn c
  end.

(** What the back ends assert of the flags. *)
Definition asserted (o : ev_call) (x : econn) : bool :=
  match o with
  | AddConn => negb (e_recv_active x) && negb (e_send_active x)
  | AddOut | DelOut => e_recv_active x
  | DelConn => true
  end.

(** The connection after a call that did not fail. *)
Definition called (o : ev_call) (x : econn) : econn :=
  match o with
  | AddConn => mk_econn (e_sd x) true true
  | AddOut => set_send true x
  | DelOut => set_send false x
  | DelConn => mk_econn (e_sd x) false false
  end.

(** ** The promise *)

(** [watches b c x]: the descriptor of the connection [c], whose fields are [x],
    is watched as its flags say.  [room b n]: there is room for [n] more calls
    before the next wait. *)
Class EventPromise (B : Type) `{EventBackend B} := {
  watches : B -> positive -> econn -> Prop;
  room : B -> nat -> Prop;
  room_down : forall b n, room b (S n) -> room b n;
  call_promise : forall o c s x n,
    es_conns s !! c = Some x -> room (es_base s) (S n) -> asserted o x = true -> watches (es_base s) c x ->
    runs (call o c) s (fun status s' =>
      let x' := if status <? 0 then x else called o x in
      es_conns s' = <[c := x']> (es_conns s) /\ room (es_base s') n /\ watches (es_base s') c x' /\
      (forall c' y, e_sd y <> e_sd x -> watches (es_base s) c' y -> watches (es_base s') c' y))
}.

(** ** Sequences of calls *)

(** The engine between two waits: it makes a call and goes on as the answer
    tells it. *)
Inductive client := Over | Make (o : ev_call) (c : positive) (k : Z -> client).

(** The flags a call leaves, by what it returned. *)
Definition answered (oc : ev_call * positive) (st : Z) (cs : gmap positive econn) : gmap positive econn :=
  match cs !! oc.2 with
  | None => cs
  | Some x => if st <? 0 then cs else <[oc.2 := called oc.1 x]> cs
  end.

Definition all_answered (log : list (ev_call * positive * Z)) (cs : gmap positive econn) : gmap positive econn :=
  foldl (fun cs e => answered e.1 e.2 cs) cs log.

(** Every call is on a connection there is and as the assertions of the back
    ends want it, whatever the calls before it returned. *)
Fixpoint respects (cs : gmap positive econn) (p : client) : Prop :=
  match p with
  | Over => True
  | Make o c k => (exists x, cs !! c = Some x /\ asserted o x = true) /\ forall st, respects (answered (o, c) st cs) (k st)
  end.

(** At most [n] calls. *)
Fixpoint fits (n : nat) (p : client) : Prop :=
  match p, n with
  | Over, _ => True
  | Make _ _ _, O => False
  | Make _ _ k, S n => forall st, fits n (k st)
  end.

(** Two connections have different descriptors. *)
Definition own_sds (cs : gmap positive econn) : Prop := forall c c' x x', cs !! c = Some x -> cs !! c' = Some x' -> e_sd x = e_sd x' -> c = c'.

Section Calls.
Context {B : Type} `{EventPromise B}.

(** The calls, and what they returned. *)
Fixpoint makes (p : client) : ST (evs B) (list (ev_call * positive * Z)) :=
  match p with
  | Over => mret []
  | Make o c k => st ← call o c; log ← makes (k st); mret ((o, c, st) :: log)
  end.

Definition all_watched (s : evs B) : Prop := own_sds (es_conns s) /\ map_Forall (watches (es_base s)) (es_conns s).

Lemma own_sds_insert cs c x x' : cs !! c = Some x -> e_sd x' = e_sd x -> own_sds cs -> own_sds (<[c := x']> cs).
Proof.
  intros Hc Hs Ho c1 c2 y1 y2. destruct (decide (c1 = c)) as [->|Hn1], (decide (c2 = c)) as [->|Hn2]; [done| | |];
    rewrite ?lookup_insert_eq; rewrite ?lookup_insert_ne by done; intros H1 H2 He; try (injection H1 as <-); try (injection H2 as <-); rewrite ?Hs in He; eapply Ho; eauto.
Qed.

Lemma called_sd o x : e_sd (called o x) = e_sd x.
Proof. by destruct o. Qed.

Lemma call_watched o c s x n : es_conns s !! c = Some x -> asserted o x = true -> room (es_base s) (S n) -> all_watched s ->
  runs (call o c) s (fun st s' => es_conns s' = answered (o, c) st (es_conns s) /\ room (es_base s') n /\ all_watched s').
Proof.
  intros Hx Ea Hr [Ho Hw]. unfold answered. simpl. rewrite Hx. pose proof (Hw c x Hx) as Hc.
  eapply runs_mono; [by apply (call_promise o c s x n)|]. intros st s' (E & Hr' & Hc' & Hf). simpl in *.
  split; [rewrite E; destruct (st <? 0); [by rewrite insert_id|done]|]. split; [done|]. split.
  - rewrite E. eapply own_sds_insert; eauto. destruct (st <? 0); [done|apply called_sd].
  - rewrite E. intros c' y. destruct (decide (c' = c)) as [->|Hne]; [rewrite lookup_insert_eq; by intros [= <-]|]. rewrite lookup_insert_ne by done.
    intros Hy. apply Hf; [|by apply Hw]. intros He. apply Hne. by eapply Ho.
Qed.

(** What a back end that keeps the promise does with a client. *)
Lemma makes_watched (p : client) n (s : evs B) :
  respects (es_conns s) p -> fits n p -> room (es_base s) n -> all_watched s ->
  runs (makes p) s (fun log s' => es_conns s' = all_answered log (es_conns s) /\ all_watched s').
Proof.
  revert n s. induction p as [|o c k IH]; intros n s Hp Hn Hr Hw; [by apply runs_ret|].
  destruct Hp as [(x & Hx & Ha) Hp], n as [|n]; [done|]. simpl. apply runs_bind.
  eapply runs_mono; [by apply (call_watched o c s x n)|]. intros st s1 (E1 & Hr1 & Hw1). apply runs_bind.
  eapply runs_mono; [apply (IH st n s1); [by rewrite E1|apply Hn|done|done]|].
  intros log s2 (E2 & Hw2). apply runs_ret. simpl. by rewrite E2, E1.
Qed.
End Calls.
