(* ===== verification/EventEpoll.v ===== *)
(** The epoll back end (event/nc_epoll.c).

    The kernel is a parameter: [epoll_ctl] returns a status and the kernel
    after it, and what the manual says of it is the class [EpollLaws]. *)

From stdpp Require Import gmap.
From S2P Require Import Prelude State World Core Events.

Definition EPOLLIN : Z := 0x001.
Definition EPOLLOUT : Z := 0x004.
Definition EPOLLERR : Z := 0x008.
Definition EPOLLHUP : Z := 0x010.
Definition EPOLLET : Z := Z.shiftl 1 31.
Definition EPOLL_CTL_ADD : Z := 1.
Definition EPOLL_CTL_DEL : Z := 2.
Definition EPOLL_CTL_MOD : Z := 3.

(** ** The kernel *)

(** [registered k sd]: the events and the data registered for a descriptor. *)
Class EpollKernel (K : Type) := {
  epoll_ctl : Z -> Z -> Z -> positive -> K -> Z * K;
  registered : K -> Z -> option (Z * positive)
}.

(** A call that fails changes nothing; EPOLL_CTL_ADD and EPOLL_CTL_MOD set
    what is registered for the descriptor and EPOLL_CTL_DEL takes it away. *)
Class EpollLaws (K : Type) `{EpollKernel K} : Prop := {
  epoll_ctl_fails op sd ev p k sd' : (epoll_ctl op sd ev p k).1 < 0 -> registered (epoll_ctl op sd ev p k).2 sd' = registered k sd';
  epoll_ctl_sets op sd ev p k : op = EPOLL_CTL_ADD \/ op = EPOLL_CTL_MOD -> 0 <= (epoll_ctl op sd ev p k).1 -> registered (epoll_ctl op sd ev p k).2 sd = Some (ev, p);
  epoll_ctl_deletes sd ev p k : 0 <= (epoll_ctl EPOLL_CTL_DEL sd ev p k).1 -> registered (epoll_ctl EPOLL_CTL_DEL sd ev p k).2 sd = None;
  epoll_ctl_other op sd ev p k sd' : sd' <> sd -> registered (epoll_ctl op sd ev p k).2 sd' = registered k sd'
}.

(** What epoll_wait answers: events, of which there are none when the time is
    over, or an error. *)
Record epoll_event := mk_epoll_event { ee_events : Z; ee_ptr : positive }.
Inductive epoll_answer := EReady (l : list epoll_event) | EFailed (errno : Z).

Section Epoll.
Context {K : Type} `{EpollKernel K}.

(** struct event_base: the kernel's side, and the size of the array of events. *)
Record epoll_base := mk_epoll_base { ep_kernel : K; ep_nevent : Z }.

Abbreviation E := (ST (evs epoll_base)).

(** epoll_ctl on the descriptor of [c], with [c] as the data. *)
Definition ctl (op : Z) (sd : Z) (events : Z) (c : positive) : E Z :=
  ev_base (fun b => let '(status, k) := epoll_ctl op sd (u32 events) c (ep_kernel b) in Some (status, mk_epoll_base k (ep_nevent b))).

Definition epoll_event_add_in (c : positive) : E Z :=
  x ← ev_conn c;
  if e_recv_active x then mret 0
  else
    status ← ctl EPOLL_CTL_MOD (e_sd x) (Z.lor EPOLLIN EPOLLET) c;
    if status <? 0 then mret status else ev_flags (set_recv true) c;; mret status.

Definition epoll_event_del_in (c : positive) : E Z := mret 0.

Definition epoll_event_add_out (c : positive) : E Z :=
  x ← ev_conn c;
  if e_send_active x then mret 0
  else
    status ← ctl EPOLL_CTL_MOD (e_sd x) (Z.lor (Z.lor EPOLLIN EPOLLOUT) EPOLLET) c;
    if status <? 0 then mret status else ev_flags (set_send true) c;; mret status.

Definition epoll_event_del_out (c : positive) : E Z :=
  x ← ev_conn c;
  if negb (e_send_active x) then mret 0
  else
    status ← ctl EPOLL_CTL_MOD (e_sd x) (Z.lor EPOLLIN EPOLLET) c;
    if status <? 0 then mret status else ev_flags (set_send false) c;; mret status.

Definition epoll_event_add_conn (c : positive) : E Z :=
  x ← ev_conn c;
  status ← ctl EPOLL_CTL_ADD (e_sd x) (Z.lor (Z.lor EPOLLIN EPOLLOUT) EPOLLET) c;
  if status <? 0 then mret status
  else ev_flags (set_send true) c;; ev_flags (set_recv true) c;; mret status.

(** The kernel ignores the events and data of EPOLL_CTL_DEL. *)
Definition epoll_event_del_conn (c : positive) : E Z :=
  x ← ev_conn c;
  status ← ctl EPOLL_CTL_DEL (e_sd x) 0 c;
  if status <? 0 then mret status
  else ev_flags (set_recv false) c;; ev_flags (set_send false) c;; mret status.

#[export] Instance epoll_backend : EventBackend epoll_base := {|
  be_add_conn := epoll_event_add_conn; be_add_out := epoll_event_add_out; be_del_out := epoll_event_del_out; be_del_conn := epoll_event_del_conn |}.

(** ** event_wait *)

(** The events of the engine for those of the kernel. *)
Definition epoll_translate (ev : Z) : Z :=
  Z.lor (Z.lor (if Z.land ev EPOLLERR =? 0 then 0 else EVENT_ERR) (if Z.land ev (Z.lor EPOLLIN EPOLLHUP) =? 0 then 0 else EVENT_READ)) (if Z.land ev EPOLLOUT =? 0 then 0 else EVENT_WRITE).

(** The callbacks for the events the kernel wrote into evb->event. *)
Definition epoll_dispatch {S} (cb : positive -> Z -> ST S Z) (l : list epoll_event) : ST S unit :=
  each (fun ev => cb (ee_ptr ev) (epoll_translate (ee_events ev));; mret tt) l.

(** [answers] are what the calls of epoll_wait return; interrupted calls are
    repeated. *)
Fixpoint epoll_event_wait {S} (cb : positive -> Z -> ST S Z) (timeout : Z) (answers : list epoll_answer) : ST S Z :=
  match answers with
  | [] => fault
  | EReady [] :: _ => mret (if timeout =? -1 then -1 else 0)
  | EReady l :: _ => epoll_dispatch cb l;; mret (zlen l)
  | EFailed errno :: answers => if errno =? EINTR then epoll_event_wait cb timeout answers else mret (-1)
  end.
End Epoll.

(** ** The promise *)

Section EpollPromise.
Context {K : Type} `{EpollLaws K}.

(** What is registered for a connection: nothing, reading or both. *)
Definition epoll_mask (send : bool) : Z := u32 (if send then Z.lor (Z.lor EPOLLIN EPOLLOUT) EPOLLET else Z.lor EPOLLIN EPOLLET).
Definition epoll_watches (b : @epoll_base K) (c : positive) (x : econn) : Prop :=
  (e_send_active x = true -> e_recv_active x = true) /\
  registered (ep_kernel b) (e_sd x) = if e_recv_active x then Some (epoll_mask (e_send_active x), c) else None.

Ltac estep :=
  lazymatch goal with
  | |- runs (mbind _ _) _ _ => apply runs_bind
  | |- runs (mret _) _ _ => apply runs_ret
  | |- runs (ev_conn _) _ _ => eapply run_ev_conn; [cbn [es_conns]; rewrite ?lookup_insert_eq; eassumption || reflexivity|]
  | |- runs (ev_flags _ _) _ _ => eapply run_ev_flags; [cbn [es_conns]; rewrite ?lookup_insert_eq; eassumption || reflexivity|]
  end; cbn [es_conns es_base].

(** A registration: what it leaves when it fails and when it does not. *)
Lemma run_ctl op sd ev c s (Q : Z -> evs epoll_base -> Prop) :
  (forall st k, st < 0 -> (forall sd', registered k sd' = registered (ep_kernel (es_base s)) sd') -> Q st (mk_evs (mk_epoll_base k (ep_nevent (es_base s))) (es_conns s))) ->
  (forall st k, 0 <= st -> (op = EPOLL_CTL_ADD \/ op = EPOLL_CTL_MOD -> registered k sd = Some (u32 ev, c)) -> (op = EPOLL_CTL_DEL -> registered k sd = None) ->
    (forall sd', sd' <> sd -> registered k sd' = registered (ep_kernel (es_base s)) sd') -> Q st (mk_evs (mk_epoll_base k (ep_nevent (es_base s))) (es_conns s))) ->
  runs (ctl op sd ev c) s Q.
Proof.
  intros Hbad Hgood. unfold ctl. destruct (epoll_ctl op sd (u32 ev) c (ep_kernel (es_base s))) as [st k] eqn:Ec. eapply run_ev_base; [by rewrite Ec|].
  assert (E1 : (epoll_ctl op sd (u32 ev) c (ep_kernel (es_base s))).1 = st) by (by rewrite Ec). assert (E2 : (epoll_ctl op sd (u32 ev) c (ep_kernel (es_base s))).2 = k) by (by rewrite Ec).
  destruct (decide (st < 0)) as [Hs|Hs].
  - apply Hbad; [done|]. intros sd'. rewrite <- E2. apply epoll_ctl_fails. by rewrite E1.
  - apply Hgood; [lia| | |]; rewrite <- E2; [intros Ho; apply epoll_ctl_sets; [done|lia]|intros ->; apply epoll_ctl_deletes; lia|intros sd' Hne; by apply epoll_ctl_other].
Qed.

(** A call that leaves everything as it was. *)
Lemma epoll_post_same b k c sd x x' (cs cs0 : gmap positive econn) n : sd = e_sd x -> cs0 = cs -> cs !! c = Some x -> x' = x -> epoll_watches b c x -> (forall sd', registered k sd' = registered (ep_kernel b) sd') ->
  cs0 = <[c := x']> cs /\ True /\ epoll_watches (mk_epoll_base k n) c x' /\ (forall c' y, e_sd y <> sd -> epoll_watches b c' y -> epoll_watches (mk_epoll_base k n) c' y).
Proof.
  intros -> -> Hc -> [Hf Hr] Hk. split; [by rewrite insert_id|]. split; [done|]. split; [split; [done|]; simpl; by rewrite Hk|]. intros c' y _ [Hf' Hr']. split; [done|]. simpl. by rewrite Hk.
Qed.

(** A call that registers what the new flags say. *)
Lemma epoll_post_set b k c sd x x' (cs cs0 : gmap positive econn) n : sd = e_sd x -> cs0 = <[c := x']> cs -> e_sd x' = e_sd x -> (e_send_active x' = true -> e_recv_active x' = true) ->
  registered k sd = (if e_recv_active x' then Some (epoll_mask (e_send_active x'), c) else None) -> (forall sd', sd' <> sd -> registered k sd' = registered (ep_kernel b) sd') ->
  cs0 = <[c := x']> cs /\ True /\ epoll_watches (mk_epoll_base k n) c x' /\ (forall c' y, e_sd y <> sd -> epoll_watches b c' y -> epoll_watches (mk_epoll_base k n) c' y).
Proof.
  intros -> -> Hsd Hf Hr Hk. split; [done|]. split; [done|]. split; [split; [done|]; simpl; by rewrite Hsd|]. intros c' y Hne [Hf' Hr']. split; [done|]. simpl. by rewrite Hk.
Qed.

Ltac sfailed := intros st k Hst Hk; replace (st <? 0) with true by (symmetry; lia); repeat estep; replace (st <? 0) with true by (symmetry; lia); eapply epoll_post_same; eauto.
Ltac sworked := intros st k Hst Hset Hdel Hother; replace (st <? 0) with false by (symmetry; lia); repeat estep; replace (st <? 0) with false by (symmetry; lia);
  eapply epoll_post_set; cbn; rewrite ?insert_insert_eq; auto.

Lemma epoll_call_promise o c s x : es_conns s !! c = Some x -> asserted o x = true -> epoll_watches (es_base s) c x ->
  runs (call o c) s (fun status s' =>
    let x' := if status <? 0 then x else called o x in
    es_conns s' = <[c := x']> (es_conns s) /\ True /\ epoll_watches (es_base s') c x' /\
    (forall c' y, e_sd y <> e_sd x -> epoll_watches (es_base s) c' y -> epoll_watches (es_base s') c' y)).
Proof.
  intros Hx Ha Hw. pose proof Hw as [Hflags Hreg]. destruct s as [b cs]. simpl in *. destruct o; simpl in Ha |- *.
  - unfold epoll_event_add_conn. do 3 estep. apply run_ctl; [sfailed|sworked].
  - unfold epoll_event_add_out. do 2 estep. destruct (e_send_active x) eqn:Ew; estep.
    + destruct b. eapply epoll_post_same; eauto. by destruct x; simpl in *; subst.
    + apply run_ctl; [sfailed|sworked]. rewrite Ha. auto.
  - unfold epoll_event_del_out. do 2 estep. destruct (e_send_active x) eqn:Ew; simpl; estep.
    + apply run_ctl; [sfailed|sworked]. rewrite Ha. auto.
    + destruct b. eapply epoll_post_same; eauto. by destruct x; simpl in *; subst.
  - unfold epoll_event_del_conn. do 3 estep. apply run_ctl; [sfailed|sworked].
Qed.

#[export] Program Instance epoll_promise : EventPromise epoll_base := {| watches := epoll_watches; room := fun _ _ => True |}.
Next Obligation. done. Qed.
Next Obligation. intros. by apply epoll_call_promise. Qed.
End EpollPromise.

(** ** The registrations of the engine *)

Section Engine.
Context `{env : Env} {K : Type} `{EpollKernel K}.

(** What the back end sees of a connection of the engine. *)
Definition flags_of (x : conn) : econn := mk_econn (c_sd x) (c_recv_active x) (c_send_active x).
Definition agrees (w : world) (s : evs (@epoll_base K)) : Prop := es_conns s = flags_of <$> w_conns w.

(** The calls as World has them, where only the answer of epoll_ctl is left of
    the kernel. *)
Definition engine_call (o : ev_call) (c : positive) : W Z :=
  match o with
  | AddConn => event_add_conn (Some c)
  | AddOut => event_add_out (Some c)
  | DelOut => event_del_out (Some c)
  | DelConn => event_del_conn (Some c)
  end.

Lemma agrees_lookup w s c x : agrees w s -> w_conns w !! c = Some x -> es_conns s !! c = Some (flags_of x).
Proof. intros E Hx. by rewrite E, lookup_fmap, Hx. Qed.

(** The engine's calls are those of the back end: with a kernel that answers as
    the engine's environment does, both return the same status and leave the
    connections with the same flags. *)
Theorem engine_calls_epoll (o : ev_call) (c : positive) (w : world) (s : evs epoll_base) (x : conn) :
  agrees w s -> w_conns w !! c = Some x -> (forall op ev, (epoll_ctl op (c_sd x) ev c (ep_kernel (es_base s))).1 = if ev_epoll (w_tick w) =? 0 then 0 else -1) ->
  exists st w' s', engine_call o c w = Some (st, w') /\ call o c s = Some (st, s') /\ agrees w' s'.
Proof.
  intros Ha Hx Hk. pose proof (agrees_lookup w s c x Ha Hx) as Hs. destruct s as [b cs]. unfold agrees in *. simpl in *.
  destruct o; simpl; unfold event_add_conn, event_add_out, event_del_out, event_del_conn, event_mod, epoll_event_add_conn, epoll_event_add_out, epoll_event_del_out, epoll_event_del_conn,
    ctl, ev_conn, ev_base, ev_flags, ask, conn_ld, conn_st, set_errno, modify, reads, mbind, ST_bind, mret, ST_ret; simpl; rewrite ?Hx, ?Hs; simpl;
    try (destruct (c_send_active x) eqn:Ew; simpl; rewrite ?Hs, ?Ew; simpl; [|]);
    try (by eexists _, _, _);
    match goal with |- context [epoll_ctl ?op ?sd ?ev ?c ?k] => specialize (Hk op ev); destruct (epoll_ctl op sd ev c k) as [st k'] eqn:Ek end; simpl in Hk; subst st;
    destruct (ev_epoll (w_tick w) =? 0); simpl; rewrite ?Hx, ?Hs; simpl; rewrite ?lookup_insert_eq; simpl; rewrite ?lookup_insert_eq; simpl;
    eexists _, _, _; (split; [reflexivity|]); (split; [reflexivity|]); simpl; rewrite ?insert_insert_eq, ?fmap_insert; by rewrite Ha.
Qed.
End Engine.

(** ** The loop of the engine *)

Section Loop.
Context `{env : Env}.

(** core_loop with the answers of epoll_wait; stats_swap is that of Stats. *)
Definition core_loop_wait (answers : list epoll_answer) : W Z :=
  timeout ← gets w_timeout;
  nsd ← epoll_event_wait (fun c events => core_core (Some c) events) timeout answers;
  if nsd <? 0 then mret nsd else core_timeout;; mret NC_OK.

Definition interrupted (n : nat) : list epoll_answer := repeat (EFailed EINTR) n.

Lemma wait_interrupted {S} (cb : positive -> Z -> ST S Z) timeout n answers : epoll_event_wait cb timeout (interrupted n ++ answers) = epoll_event_wait cb timeout answers.
Proof. induction n as [|n IH]; [done|]. exact IH. Qed.

Lemma dispatch_each (l : list epoll_event) w :
  epoll_dispatch (fun c events => core_core (Some c) events) l w = each (fun '(c, events) => core_core (Some c) events;; mret tt) (map (fun ev => (ee_ptr ev, epoll_translate (ee_events ev))) l) w.
Proof. unfold epoll_dispatch. revert w. induction l as [|ev l IH]; intros w; [done|]. simpl. unfold mbind, ST_bind. destruct (core_core _ _ w) as [[st w1]|]; [|done]. apply IH. Qed.

(** However often the wait is interrupted, the round of the loop is [core_loop]
    on the events of the kernel in the engine's terms, in their order; when the
    time is over it is [core_loop] on none. *)
Theorem core_loop_wait_rounds (n : nat) (l : list epoll_event) (rest : list epoll_answer) (w : world) : l <> [] \/ w_timeout w <> -1 ->
  core_loop_wait (interrupted n ++ EReady l :: rest) w = (core_loop (map (fun ev => (ee_ptr ev, epoll_translate (ee_events ev))) l);; mret NC_OK) w.
Proof.
  intros Hl. unfold core_loop_wait, core_loop. unfold mbind at 1, ST_bind at 1, gets at 1. unfold mbind at 1, ST_bind at 1. rewrite wait_interrupted. destruct l as [|ev l].
  - simpl. replace (w_timeout w =? -1) with false by (symmetry; destruct Hl; [done|lia]). done.
  - cbn [epoll_event_wait]. unfold mbind at 1, ST_bind at 1. rewrite dispatch_each. unfold mbind at 3, ST_bind at 3, mbind at 3, ST_bind at 3.
    destruct (each _ _ w) as [[[] w1]|]; [|done]. unfold mret at 1, ST_ret at 1. replace (zlen (ev :: l) <? 0) with false; [done|]. symmetry. pose proof (zlen_nonneg (ev :: l)). lia.
Qed.
End Loop.

(** ** A kernel that follows the manual *)

#[export] Instance table_kernel : EpollKernel (gmap Z (Z * positive)) := {|
  epoll_ctl op sd ev p k :=
    if op =? EPOLL_CTL_ADD then match k !! sd with Some _ => (-1, k) | None => (0, <[sd := (ev, p)]> k) end
    else if op =? EPOLL_CTL_MOD then match k !! sd with Some _ => (0, <[sd := (ev, p)]> k) | None => (-1, k) end
    else match k !! sd with Some _ => (0, delete sd k) | None => (-1, k) end;
  registered k sd := k !! sd |}.

#[export] Instance table_laws : EpollLaws (gmap Z (Z * positive)).
Proof.
  split; unfold epoll_ctl, registered; simpl; intros.
  - destruct (op =? _); [|destruct (op =? _)]; destruct (k !! sd); simpl in *; done || lia.
  - destruct H as [->| ->]; simpl in *; destruct (k !! sd); simpl in *; try lia; by rewrite lookup_insert_eq.
  - destruct (k !! sd); simpl in *; [by rewrite lookup_delete_eq|lia].
  - destruct (op =? _); [|destruct (op =? _)]; destruct (k !! sd); simpl in *; try done; by rewrite ?lookup_insert_ne, ?lookup_delete_ne.
Qed.
