(* ===== verification/EventKqueue.v ===== *)
(** The kqueue back end (event/nc_kqueue.c).

    Registrations are collected in the array change[] and handed to the kernel
    by the next event_wait, which also fills event[]. *)

From stdpp Require Import gmap.
From S2P Require Import Prelude State World Core Events.

Definition EVFILT_READ : Z := -1.
Definition EVFILT_WRITE : Z := -2.
Definition EV_ADD : Z := 0x0001.
Definition EV_DELETE : Z := 0x0002.
Definition EV_CLEAR : Z := 0x0020.
Definition EV_ERROR : Z := 0x4000.
Definition EBADF : Z := 9.
Definition ENOENT : Z := 2.

(** struct kevent, of which the engine does not use fflags. *)
Record kevent := mk_kevent { kv_ident : Z; kv_filter : Z; kv_flags : Z; kv_data : Z; kv_udata : option positive }.
Definition kevent_zero : kevent := mk_kevent 0 0 0 0 None.

(** EV_SET *)
Definition ev_set (ident filter flags : Z) (udata : positive) : kevent := mk_kevent ident filter flags 0 (Some udata).

(** ** The kernel *)

(** What is registered: the data of a descriptor and filter. *)
Definition kq_table := (Z * Z -> option positive).

(** An entry of change[] as the kernel applies it. *)
Definition kq_apply (t : kq_table) (v : kevent) : kq_table := fun key =>
  if bool_decide (key = (kv_ident v, kv_filter v)) then
    if negb (Z.land (kv_flags v) EV_DELETE =? 0) then None
    else if negb (Z.land (kv_flags v) EV_ADD =? 0) then kv_udata v
    else t key
  else t key.
Definition kq_applied : list kevent -> kq_table -> kq_table := flip (foldl kq_apply).

(** kevent with its changes, the size of event[] and the time to wait: events,
    none when the time is over, or an error. *)
Inductive kq_answer := KReady (l : list kevent) | KFailed (errno : Z).
Class KqKernel (K : Type) := {
  kevent_call : list kevent -> Z -> option Z -> K -> kq_answer * K;
  kq_registered : K -> kq_table
}.

(** What kevent says: the changes are applied, also when it was interrupted,
    unless an entry with EV_ERROR tells otherwise; no more events are returned
    than there is room for. *)
Class KqLaws (K : Type) `{KqKernel K} : Prop := {
  kevent_applies chs n tmo k l key : (kevent_call chs n tmo k).1 = KReady l -> Forall (fun v => Z.land (kv_flags v) EV_ERROR = 0) l ->
    kq_registered (kevent_call chs n tmo k).2 key = kq_applied chs (kq_registered k) key;
  kevent_interrupted chs n tmo k key : (kevent_call chs n tmo k).1 = KFailed EINTR -> kq_registered (kevent_call chs n tmo k).2 key = kq_applied chs (kq_registered k) key;
  kevent_fits chs n tmo k l : 0 <= n -> (kevent_call chs n tmo k).1 = KReady l -> zlen l <= n
}.

(** ** The base *)

Section Kqueue.
Context {K : Type} `{KqKernel K}.

Record kq_base := mk_kq_base {
  kq_kernel : K;
  kq_change : list kevent;
  kq_nchange : Z;
  kq_event : list kevent;
  kq_nevent : Z;
  kq_nreturned : Z;
  kq_nprocessed : Z
}.
Definition kq_set_change (l : list kevent) (n : Z) (b : kq_base) : kq_base := mk_kq_base (kq_kernel b) l n (kq_event b) (kq_nevent b) (kq_nreturned b) (kq_nprocessed b).
Definition kq_set_event (l : list kevent) (b : kq_base) : kq_base := mk_kq_base (kq_kernel b) (kq_change b) (kq_nchange b) l (kq_nevent b) (kq_nreturned b) (kq_nprocessed b).
Definition kq_set_nprocessed (n : Z) (b : kq_base) : kq_base := mk_kq_base (kq_kernel b) (kq_change b) (kq_nchange b) (kq_event b) (kq_nevent b) (kq_nreturned b) n.

Abbreviation KQ := (ST (evs kq_base)).

(** event_base_create with the queue that kqueue gives: nc_calloc clears the
    arrays. *)
Definition kq_event_base_create (k : K) (nevent : Z) : kq_base :=
  mk_kq_base k (replicate (Z.to_nat nevent) kevent_zero) 0 (replicate (Z.to_nat nevent) kevent_zero) nevent 0 0.

(** ** Registrations *)

(** event = &evb->change[evb->nchange++]; EV_SET.  A store behind the array
    faults. *)
Definition push_change (v : kevent) : KQ unit :=
  ev_base (fun b => if (0 <=? kq_nchange b) && (kq_nchange b <? zlen (kq_change b)) then Some (tt, kq_set_change (<[Z.to_nat (kq_nchange b) := v]> (kq_change b)) (kq_nchange b + 1) b) else None).

Definition kq_event_add_in (c : positive) : KQ Z :=
  x ← ev_conn c;
  if e_recv_active x then mret 0
  else push_change (ev_set (e_sd x) EVFILT_READ (Z.lor EV_ADD EV_CLEAR) c);; ev_flags (set_recv true) c;; mret 0.

Definition kq_event_del_in (c : positive) : KQ Z :=
  x ← ev_conn c;
  if negb (e_recv_active x) then mret 0
  else push_change (ev_set (e_sd x) EVFILT_READ EV_DELETE c);; ev_flags (set_recv false) c;; mret 0.

Definition kq_event_add_out (c : positive) : KQ Z :=
  x ← ev_conn c;
  if e_send_active x then mret 0
  else push_change (ev_set (e_sd x) EVFILT_WRITE (Z.lor EV_ADD EV_CLEAR) c);; ev_flags (set_send true) c;; mret 0.

Definition kq_event_del_out (c : positive) : KQ Z :=
  x ← ev_conn c;
  if negb (e_send_active x) then mret 0
  else push_change (ev_set (e_sd x) EVFILT_WRITE EV_DELETE c);; ev_flags (set_send false) c;; mret 0.

Definition kq_event_add_conn (c : positive) : KQ Z := kq_event_add_in c;; kq_event_add_out c;; mret 0.

(** The loop of event_del_conn over the events that were returned and not
    processed: the first of the descriptor is taken out. *)
Fixpoint cancel_first (sd : Z) (l : list kevent) : list kevent :=
  match l with
  | [] => []
  | v :: l => if kv_ident v =? sd then mk_kevent (kv_ident v) 0 0 (kv_data v) (kv_udata v) :: l else v :: cancel_first sd l
  end.
Definition cancel_pending (sd : Z) (b : kq_base) : kq_base :=
  let i := Z.to_nat (kq_nprocessed b + 1) in
  let n := Z.to_nat (kq_nreturned b) in
  let l := kq_event b in
  kq_set_event (take i l ++ cancel_first sd (drop i (take n l)) ++ drop (i `max` n) l) b.

Definition kq_event_del_conn (c : positive) : KQ Z :=
  x ← ev_conn c;
  kq_event_del_out c;;
  kq_event_del_in c;;
  ev_base (fun b => Some (tt, cancel_pending (e_sd x) b));;
  mret 0.

#[export] Instance kq_backend : EventBackend kq_base := {|
  be_add_conn := kq_event_add_conn; be_add_out := kq_event_add_out; be_del_out := kq_event_del_out; be_del_conn := kq_event_del_conn |}.

(** ** event_wait *)

(** The events of the engine for an entry of event[]; an error of a change that
    no longer matters is passed over. *)
Definition kq_ignored (v : kevent) : bool :=
  negb (Z.land (kv_flags v) EV_ERROR =? 0) && ((kv_data v =? EBADF) || (kv_data v =? EINVAL) || (kv_data v =? ENOENT) || (kv_data v =? EINTR)).
Definition kq_translate (v : kevent) : Z :=
  Z.lor (Z.lor (if Z.land (kv_flags v) EV_ERROR =? 0 then 0 else EVENT_ERR) (if kv_filter v =? EVFILT_READ then EVENT_READ else 0)) (if kv_filter v =? EVFILT_WRITE then EVENT_WRITE else 0).

(** The loop over event[]; the callback may change the entries that follow. *)
Fixpoint kq_dispatch (fuel : nat) (cb : positive -> Z -> KQ Z) : KQ unit :=
  n ← gets (fun s => (kq_nprocessed (es_base s), kq_nreturned (es_base s)));
  if n.1 <? n.2 then
    match fuel with
    | O => fault
    | S fuel =>
        v ← reads (fun s => kq_event (es_base s) !! Z.to_nat n.1);
        (if kq_ignored v || (kq_translate v =? 0) then mret tt
         else match kv_udata v with None => fault | Some c => cb c (kq_translate v);; mret tt end);;
        ev_base (fun b => Some (tt, kq_set_nprocessed (kq_nprocessed b + 1) b));;
        kq_dispatch fuel cb
    end
  else mret tt.

(** The time to wait: none when the timeout is negative. *)
Definition kq_timespec (timeout : Z) : option Z := if timeout <? 0 then None else Some timeout.

(** evb->nreturned = kevent(...); evb->nchange = 0. *)
Definition kq_kevent (timeout : Z) : KQ kq_answer :=
  ev_base (fun b =>
    let '(a, k) := kevent_call (take (Z.to_nat (kq_nchange b)) (kq_change b)) (kq_nevent b) (kq_timespec timeout) (kq_kernel b) in
    let l := match a with KReady l => l | KFailed _ => [] end in
    Some (a, mk_kq_base k (kq_change b) 0 (l ++ drop (length l) (kq_event b)) (kq_nevent b) (match a with KReady l => zlen l | KFailed _ => -1 end) (kq_nprocessed b))).

Fixpoint kq_event_wait (fuel : nat) (cb : positive -> Z -> KQ Z) (timeout : Z) : KQ Z :=
  match fuel with
  | O => fault
  | S fuel =>
      a ← kq_kevent timeout;
      match a with
      | KReady [] => mret (if timeout =? -1 then -1 else 0)
      | KReady l =>
          ev_base (fun b => Some (tt, kq_set_nprocessed 0 b));;
          kq_dispatch (length l) cb;;
          gets (fun s => kq_nreturned (es_base s))
      | KFailed errno => if errno =? EINTR then kq_event_wait fuel cb timeout else mret (-1)
      end
  end.
End Kqueue.

(** ** The promise *)

Section KqPromise.
Context {K : Type} `{KqKernel K}.
Implicit Types (s : evs (@kq_base K)) (b : @kq_base K).

(** What is registered once the changes collected so far are applied. *)
Definition pending b : kq_table := kq_applied (take (Z.to_nat (kq_nchange b)) (kq_change b)) (kq_registered (kq_kernel b)).

Definition kq_watches b (c : positive) (x : econn) : Prop :=
  (e_send_active x = true -> e_recv_active x = true) /\
  pending b (e_sd x, EVFILT_READ) = (if e_recv_active x then Some c else None) /\ pending b (e_sd x, EVFILT_WRITE) = (if e_send_active x then Some c else None).

(** A call adds at most two changes. *)
Definition kq_room b (n : nat) : Prop := zlen (kq_change b) = kq_nevent b /\ 0 <= kq_nchange b /\ kq_nchange b + 2 * Z.of_nat n <= kq_nevent b.

(** The base after a call: at most [n] more changes, and nothing else but what
    is to be registered. *)
Definition grown (n : Z) b b' : Prop :=
  zlen (kq_change b') = zlen (kq_change b) /\ kq_nevent b' = kq_nevent b /\ kq_nchange b <= kq_nchange b' <= kq_nchange b + n /\
  kq_event b' = kq_event b /\ kq_nreturned b' = kq_nreturned b /\ kq_nprocessed b' = kq_nprocessed b /\ kq_kernel b' = kq_kernel b.

Lemma grown_refl b : grown 0 b b.
Proof. unfold grown. intuition lia. Qed.
Lemma grown_trans n1 n2 b1 b2 b3 : grown n1 b1 b2 -> grown n2 b2 b3 -> grown (n1 + n2) b1 b3.
Proof. unfold grown. intuition (congruence || lia). Qed.

Lemma kq_applied_snoc l v t : kq_applied (l ++ [v]) t = kq_apply (kq_applied l t) v.
Proof. unfold kq_applied. simpl. by rewrite foldl_app. Qed.

(** A change and the flag that goes with it. *)
Lemma run_register (f : econn -> econn) v c s x (Q : Z -> evs kq_base -> Prop) :
  es_conns s !! c = Some x -> 0 <= kq_nchange (es_base s) < zlen (kq_change (es_base s)) ->
  (forall b', grown 1 (es_base s) b' -> (forall key, pending b' key = kq_apply (pending (es_base s)) v key) -> Q 0 (mk_evs b' (<[c := f x]> (es_conns s)))) ->
  runs (push_change v;; ev_flags f c;; mret 0) s Q.
Proof.
  intros Hx Hr HQ. destruct s as [b cs]. simpl in *. apply runs_bind. unfold push_change. eapply run_ev_base; [simpl; replace ((0 <=? _) && _) with true by lia; done|].
  apply runs_bind. eapply run_ev_flags; [exact Hx|]. apply runs_ret. simpl. apply HQ.
  - unfold grown. simpl. unfold zlen. rewrite length_insert. intuition lia.
  - intros key. unfold pending. simpl. replace (Z.to_nat (kq_nchange b + 1)) with (S (Z.to_nat (kq_nchange b))) by lia.
    rewrite (take_S_r _ _ v) by (apply list_lookup_insert_eq; unfold zlen in Hr; lia). rewrite take_insert_ge by lia. by rewrite kq_applied_snoc.
Qed.

(** What a registration of [c] for [flt] leaves to be registered. *)
Definition becomes (sd flt : Z) (r : option positive) b b' : Prop := forall key, pending b' key = if bool_decide (key = (sd, flt)) then r else pending b key.

Lemma becomes_same sd flt r b : pending b (sd, flt) = r -> becomes sd flt r b b.
Proof. intros E key. case_bool_decide; [by subst|done]. Qed.

(** The registrations: a flag that is not yet as wanted, a change for it and the
    flag; [r] is what the change leaves. *)
Lemma run_switch (g : econn -> bool) (f : econn -> econn) flt fl r c s x (Q : Z -> evs kq_base -> Prop) :
  es_conns s !! c = Some x -> 0 <= kq_nchange (es_base s) < zlen (kq_change (es_base s)) ->
  (g x = true -> f x = x /\ pending (es_base s) (e_sd x, flt) = r) -> (g x = false -> forall t, kq_apply t (ev_set (e_sd x) flt fl c) (e_sd x, flt) = r) ->
  (forall b', grown 1 (es_base s) b' -> becomes (e_sd x) flt r (es_base s) b' -> Q 0 (mk_evs b' (<[c := f x]> (es_conns s)))) ->
  runs (x ← ev_conn c; if g x then mret 0 else push_change (ev_set (e_sd x) flt fl c);; ev_flags f c;; mret 0) s Q.
Proof.
  intros Hx Hr Hp Ha HQ. apply runs_bind. eapply run_ev_conn; [exact Hx|]. destruct (g x) eqn:E.
  - apply runs_ret. destruct (Hp eq_refl) as [Ef Er], s as [b cs]. simpl in *.
    assert (E' : <[c := f x]> cs = cs) by (rewrite Ef; by apply insert_id). rewrite E' in HQ. apply HQ; [|by apply becomes_same]. unfold grown. intuition lia.
  - eapply run_register; [exact Hx|done|]. intros b' Hg Hk. apply HQ; [done|]. intros key. rewrite Hk. case_bool_decide as Ek; [subst; by apply Ha|]. unfold kq_apply. by rewrite bool_decide_false.
Qed.

Lemma apply_add sd flt c t : kq_apply t (ev_set sd flt (Z.lor EV_ADD EV_CLEAR) c) (sd, flt) = Some c.
Proof. unfold kq_apply. by rewrite bool_decide_true. Qed.
Lemma apply_delete sd flt c t : kq_apply t (ev_set sd flt EV_DELETE c) (sd, flt) = None.
Proof. unfold kq_apply. by rewrite bool_decide_true. Qed.

(** The promise from what is registered afterwards. *)
Lemma kq_post b b' c sd x' (cs cs0 : gmap positive econn) n : cs0 = <[c := x']> cs -> e_sd x' = sd -> (e_send_active x' = true -> e_recv_active x' = true) -> kq_room b (S n) ->
  zlen (kq_change b') = zlen (kq_change b) -> kq_nevent b' = kq_nevent b -> kq_nchange b <= kq_nchange b' <= kq_nchange b + 2 ->
  pending b' (sd, EVFILT_READ) = (if e_recv_active x' then Some c else None) -> pending b' (sd, EVFILT_WRITE) = (if e_send_active x' then Some c else None) ->
  (forall sd' flt, sd' <> sd -> pending b' (sd', flt) = pending b (sd', flt)) ->
  cs0 = <[c := x']> cs /\ kq_room b' n /\ kq_watches b' c x' /\ (forall c' y, e_sd y <> sd -> kq_watches b c' y -> kq_watches b' c' y).
Proof.
  intros -> Hsd Hf Hr Hl Hn Hc Hp1 Hp2 Ho. split; [done|]. unfold kq_room in *. split; [lia|]. split; [by unfold kq_watches; rewrite Hsd|].
  intros c' y Hne (Hy & Hy1 & Hy2). unfold kq_watches. by rewrite !Ho.
Qed.

Ltac switch := eapply run_switch; [cbn [es_conns]; rewrite ?lookup_insert_eq; eassumption || reflexivity|cbn [es_base]; unfold grown in *; lia| |intros _ t; apply apply_add || apply apply_delete|]; cbn [es_base es_conns e_sd e_recv_active e_send_active].

(** What is registered after one or two registrations. *)
Ltac registered_now := intros; repeat match goal with P : becomes _ _ _ _ _ |- _ => rewrite P; clear P; case_bool_decide; simplify_eq; try done end; try done.
Ltac posted := eapply kq_post; [by rewrite ?insert_insert_eq|reflexivity|intuition congruence|eassumption|unfold grown in *; lia|unfold grown in *; lia|unfold grown in *; lia|registered_now..].

Lemma kq_call_promise o c s x n : es_conns s !! c = Some x -> kq_room (es_base s) (S n) -> asserted o x = true -> kq_watches (es_base s) c x ->
  runs (call o c) s (fun status s' =>
    let x' := if status <? 0 then x else called o x in
    es_conns s' = <[c := x']> (es_conns s) /\ kq_room (es_base s') n /\ kq_watches (es_base s') c x' /\
    (forall c' y, e_sd y <> e_sd x -> kq_watches (es_base s) c' y -> kq_watches (es_base s') c' y)).
Proof.
  intros Hx Hroom Ha (Hf & Hin & Hout). destruct s as [b cs], x as [sd r w]. cbn [es_base es_conns] in *. pose proof Hroom as Hr. unfold kq_room in Hr. cbn [e_sd e_recv_active e_send_active] in *.
  destruct o; simpl in Ha |- *.
  - unfold kq_event_add_conn, kq_event_add_in. apply runs_bind. switch; [simpl; intros ->; done|]. intros b1 G1 P1. unfold kq_event_add_out. apply runs_bind. switch.
    + simpl. intros ->. by rewrite Hf in Ha.
    + intros b2 G2 P2. apply runs_ret. simpl in *. posted.
  - unfold kq_event_add_out. switch; [simpl; intros ->; done|]. intros b1 G1 P1. simpl. subst r. posted.
  - unfold kq_event_del_out. switch; [simpl; destruct w; done|]. intros b1 G1 P1. simpl. subst r. posted.
  - unfold kq_event_del_conn. apply runs_bind. eapply run_ev_conn; [exact Hx|]. apply runs_bind. unfold kq_event_del_out. switch; [simpl; destruct w; done|]. intros b1 G1 P1.
    apply runs_bind. unfold kq_event_del_in. switch.
    + simpl. intros Hneg. destruct r; [done|]. split; [done|]. rewrite P1. by rewrite bool_decide_false.
    + intros b2 G2 P2. apply runs_bind. eapply run_ev_base; [reflexivity|]. apply runs_ret. simpl in *.
      assert (P3 : forall key, pending (cancel_pending sd b2) key = pending b2 key) by done.
      eapply (kq_post b _ c sd (mk_econn sd false false)); [by rewrite ?insert_insert_eq|reflexivity|done|done|simpl; unfold grown in *; lia|simpl; unfold grown in *; lia|simpl; unfold grown in *; lia|intros; rewrite ?P3; registered_now..].
Qed.

#[export] Program Instance kq_promise : EventPromise kq_base := {| watches := kq_watches; room := kq_room |}.
Next Obligation. intros b n. unfold kq_room. lia. Qed.
Next Obligation. intros. by apply kq_call_promise. Qed.
End KqPromise.

(** ** No event for a connection that was closed *)

Section KqBatch.
Context {K : Type} `{KqKernel K}.
Implicit Types (s : evs (@kq_base K)) (b : @kq_base K).

(** The entries that are still to be processed. *)
Definition batch b : list kevent := drop (Z.to_nat (kq_nprocessed b)) (take (Z.to_nat (kq_nreturned b)) (kq_event b)).
Definition batch_bounds b : Prop := 0 <= kq_nprocessed b /\ kq_nreturned b <= zlen (kq_event b).

(** An entry that calls nobody back, or a connection that has its descriptor. *)
Definition quiet (v : kevent) : bool := kq_ignored v || (kq_translate v =? 0).
Definition alive (cs : gmap positive econn) (v : kevent) : Prop :=
  quiet v = true \/ exists c x, kv_udata v = Some c /\ cs !! c = Some x /\ e_sd x = kv_ident v.

(** An event is unique by its descriptor and filter, of which there are two. *)
Definition of_sd (sd : Z) (l : list kevent) : list kevent := filter (fun v => kv_ident v = sd) l.
Definition at_most_two (l : list kevent) : Prop := forall sd, (length (of_sd sd l) <= 2)%nat.

(** The connections of before are there with the same descriptor, but for those
    that [P] excepts. *)
Definition stay (P : positive -> Prop) (cs cs' : gmap positive econn) : Prop :=
  forall c x, cs !! c = Some x -> ~ P c -> exists y, cs' !! c = Some y /\ e_sd y = e_sd x.

(** What a callback does: it leaves the other entries of the batch alone, or it
    closes the connection it was called for, with event_del_conn.  It may open and
    register other connections. *)
Definition reacts (c : positive) (x : econn) s s' : Prop :=
  kq_nreturned (es_base s') = kq_nreturned (es_base s) /\ kq_nprocessed (es_base s') = kq_nprocessed (es_base s) /\
  (kq_event (es_base s') = kq_event (es_base s) /\ stay (fun _ => False) (es_conns s) (es_conns s') \/
   kq_event (es_base s') = kq_event (cancel_pending (e_sd x) (es_base s)) /\ stay (eq c) (es_conns s) (es_conns s')).

(** [I n s]: the callback can be called [n] times more from [s]. *)
Class Handler (I : nat -> evs (@kq_base K) -> Prop) (cb : positive -> Z -> ST (evs kq_base) Z) : Prop := {
  handler_less n s : I (S n) s -> I n s;
  handler_next n s i : I n s -> I n (mk_evs (kq_set_nprocessed i (es_base s)) (es_conns s));
  handler_reacts n c x events s : I (S n) s -> es_conns s !! c = Some x -> runs (cb c events) s (fun _ s' => I n s' /\ reacts c x s s')
}.

Lemma length_cancel_first sd l : length (cancel_first sd l) = length l.
Proof. induction l as [|v l IH]; [done|]. simpl. destruct (_ =? _); simpl; by rewrite ?IH. Qed.

Lemma of_sd_cancel sd sd' l : length (of_sd sd' (cancel_first sd l)) = length (of_sd sd' l).
Proof.
  unfold of_sd. induction l as [|v l IH]; [done|]. simpl. destruct (kv_ident v =? sd); rewrite !filter_cons; simpl; destruct (decide (kv_ident v = sd')); simpl; by rewrite ?IH.
Qed.

(** With at most one entry of the descriptor, none is left to call back. *)
Lemma cancel_alive c x cs cs' l : Forall (alive cs) l -> cs !! c = Some x -> (length (of_sd (e_sd x) l) <= 1)%nat -> stay (eq c) cs cs' -> Forall (alive cs') (cancel_first (e_sd x) l).
Proof.
  intros Hl Hc Hone Hs.
  assert (Hkeep : forall v, alive cs v -> kv_ident v <> e_sd x -> alive cs' v).
  { intros v [Hq|(c' & x' & Hu & Hx & Hi)] Hne; [by left|]. right. destruct (Hs c' x' Hx) as (y & Hy & Hsd); [intros <-; rewrite Hc in Hx; injection Hx as ->; congruence|]. exists c', y. split; [done|]. split; [done|congruence]. }
  unfold of_sd in Hone. induction Hl as [|v l Hv Hl IH]; [by simpl|]. simpl. rewrite filter_cons in Hone. destruct (kv_ident v =? e_sd x) eqn:E.
  - rewrite decide_True in Hone by lia. simpl in Hone. apply Forall_cons_iff. split; [by left|]. apply list.Forall_forall. intros v' Hin. rewrite list.Forall_forall in Hl. apply Hkeep; [by apply Hl|].
    intros Hi. assert (v' ∈ filter (fun v => kv_ident v = e_sd x) l) as Hf by (by apply list_elem_of_filter). destruct (filter _ l); [by apply not_elem_of_nil in Hf|simpl in Hone; lia].
  - rewrite decide_False in Hone by lia. apply Forall_cons_iff. split; [apply Hkeep; [done|lia]|by apply IH].
Qed.

Lemma batch_cons b : batch_bounds b -> kq_nprocessed b < kq_nreturned b -> exists v, kq_event b !! Z.to_nat (kq_nprocessed b) = Some v /\ batch b = v :: batch (kq_set_nprocessed (kq_nprocessed b + 1) b).
Proof.
  intros [H0 Hn] Hlt. unfold zlen in Hn. destruct (lookup_lt_is_Some_2 (kq_event b) (Z.to_nat (kq_nprocessed b))) as [v Hv]; [lia|]. exists v. split; [done|]. unfold batch. simpl.
  replace (Z.to_nat (kq_nprocessed b + 1)) with (S (Z.to_nat (kq_nprocessed b))) by lia. apply drop_S. rewrite lookup_take_lt by lia. done.
Qed.

(** The entries behind the one that is processed, after event_del_conn. *)
Lemma batch_cancel sd b : batch_bounds b -> kq_nprocessed b < kq_nreturned b ->
  batch (kq_set_nprocessed (kq_nprocessed b + 1) (cancel_pending sd b)) = cancel_first sd (batch (kq_set_nprocessed (kq_nprocessed b + 1) b)).
Proof.
  intros [H0 Hn] Hlt. unfold zlen in Hn. unfold batch, cancel_pending. simpl. set (i := Z.to_nat (kq_nprocessed b + 1)). set (n := Z.to_nat (kq_nreturned b)). set (l := kq_event b).
  assert (Hi : (i <= n)%nat /\ (n <= length l)%nat) by (unfold i, n, l; lia).
  rewrite take_app, drop_app. rewrite !length_take. rewrite (drop_ge (take n (take i l))) by (rewrite !length_take; lia). simpl.
  replace (i - n `min` (i `min` length l))%nat with 0%nat by lia. rewrite drop_0. replace (n - i `min` length l)%nat with (n - i)%nat by lia.
  rewrite take_app. replace (n - i - length (cancel_first sd (drop i (take n l))))%nat with 0%nat by (rewrite length_cancel_first, length_drop, length_take; lia). simpl. rewrite app_nil_r.
  apply take_ge. rewrite length_cancel_first, length_drop, length_take. lia.
Qed.

(** What is left to be processed after a callback. *)
Lemma reacts_batch c x s s' v l : batch_bounds (es_base s) -> kq_nprocessed (es_base s) < kq_nreturned (es_base s) -> reacts c x s s' -> es_conns s !! c = Some x -> kv_ident v = e_sd x ->
  batch (es_base s) = v :: l -> Forall (alive (es_conns s)) l -> at_most_two (v :: l) ->
  let b' := kq_set_nprocessed (kq_nprocessed (es_base s') + 1) (es_base s') in
  batch_bounds b' /\ length (batch b') = length l /\ Forall (alive (es_conns s')) (batch b') /\ at_most_two (batch b').
Proof.
  intros Hb Hlt (Hn & Hp & Hc) Hx Hi E Hl Htwo. destruct (batch_cons _ Hb Hlt) as (v' & _ & E'). rewrite E in E'. injection E' as <- El.
  assert (Htl : at_most_two l) by (intros sd; specialize (Htwo sd); unfold of_sd in *; rewrite filter_cons in Htwo; destruct (decide _); simpl in Htwo; lia).
  destruct Hb as [H0 Hlen]. simpl. destruct Hc as [[He Hs]|[He Hs]].
  - assert (Eb : batch (kq_set_nprocessed (kq_nprocessed (es_base s') + 1) (es_base s')) = l) by (rewrite El; unfold batch; simpl; by rewrite Hn, Hp, He).
    rewrite Eb. split; [unfold batch_bounds; simpl; rewrite Hn, Hp, He; lia|]. split; [done|]. split; [|done]. eapply list.Forall_impl; [exact Hl|].
    intros u [Hq|(c' & x' & Hu & Hx' & Hi')]; [by left|right]. destruct (Hs c' x' Hx') as (y & Hy & Hsd); [tauto|]. exists c', y. split; [done|]. split; [done|congruence].
  - assert (Eb : batch (kq_set_nprocessed (kq_nprocessed (es_base s') + 1) (es_base s')) = cancel_first (e_sd x) l) by
      (rewrite El, <- batch_cancel by done; unfold batch; simpl; by rewrite Hn, Hp, He).
    rewrite Eb, length_cancel_first. split; [|split; [done|]; split].
    + unfold batch_bounds. simpl. rewrite Hn, Hp, He. split; [lia|]. unfold cancel_pending. simpl. unfold zlen in *. rewrite !length_app, length_cancel_first, !length_drop, !length_take. lia.
    + eapply cancel_alive; [done|exact Hx| |done]. specialize (Htwo (e_sd x)). unfold of_sd in *. rewrite filter_cons, decide_True in Htwo by done. simpl in Htwo. lia.
    + intros sd. rewrite of_sd_cancel. apply Htl.
Qed.

Lemma run_kq_dispatch I cb fuel s : Handler I cb -> I fuel s -> batch_bounds (es_base s) -> length (batch (es_base s)) = fuel -> Forall (alive (es_conns s)) (batch (es_base s)) -> at_most_two (batch (es_base s)) ->
  runs (kq_dispatch fuel cb) s (fun _ s' => kq_nreturned (es_base s') = kq_nreturned (es_base s)).
Proof.
  intros Hcb. revert s. induction fuel as [|fuel IH]; intros s HI Hb Hf Ha Htwo; simpl; apply runs_bind; apply runs_gets; simpl; destruct (_ <? _) eqn:Elt; try (by apply runs_ret).
  - destruct (batch_cons _ Hb) as (v & _ & E); [lia|]. by rewrite E in Hf.
  - destruct (batch_cons _ Hb) as (v & Hv & E); [lia|]. rewrite E in Hf, Ha, Htwo. apply Forall_cons_iff in Ha as [Hav Hal]. simpl in Hf. injection Hf as Hf.
    apply runs_bind. eapply runs_reads; [exact Hv|]. apply runs_bind. fold (quiet v). destruct (quiet v) eqn:Eq.
    + apply runs_ret. apply runs_bind. eapply run_ev_base; [reflexivity|]. eapply runs_mono; [apply IH; simpl; [by apply handler_next, handler_less| |done|done|]|by intros [] s2].
      * destruct Hb. split; simpl; lia.
      * intros sd. specialize (Htwo sd). unfold of_sd in *. rewrite filter_cons in Htwo. destruct (decide _); simpl in Htwo; lia.
    + destruct Hav as [Hq|(c & x & Hu & Hx & Hi)]; [congruence|]. rewrite Hu. apply runs_bind. eapply runs_mono; [by apply (handler_reacts fuel c x)|]. intros st s' [HI' Hr]. apply runs_ret. apply runs_bind.
      eapply run_ev_base; [reflexivity|]. destruct (reacts_batch c x s s' v _ Hb ltac:(lia) Hr Hx ltac:(congruence) E Hal Htwo) as (B1 & B2 & B3 & B4). destruct Hr as (Hn & _).
      eapply runs_mono; [apply IH; simpl; [by apply handler_next|done|congruence|done|done]|]. simpl. intros [] s2 E2. congruence.
Qed.

(** C17. No event for a connection that was closed: when kevent returns events
    of connections that are open, at most two for a descriptor, and the
    callback is good for every open connection it is called for, whether it
    registers, opens others or closes the one it was called for with
    event_del_conn, then event_wait calls it for open connections only, to the
    end of the events, and returns their number. *)
Theorem kq_event_wait_live I (cb : positive -> Z -> ST (evs kq_base) Z) (timeout : Z) (fuel : nat) (s : evs kq_base) (l : list kevent) (k : K) :
  Handler I cb ->
  kevent_call (take (Z.to_nat (kq_nchange (es_base s))) (kq_change (es_base s))) (kq_nevent (es_base s)) (kq_timespec timeout) (kq_kernel (es_base s)) = (KReady l, k) ->
  l <> [] -> Forall (alive (es_conns s)) l -> at_most_two l ->
  (forall b', kq_change b' = kq_change (es_base s) -> kq_nchange b' = 0 -> kq_nevent b' = kq_nevent (es_base s) -> I (length l) (mk_evs b' (es_conns s))) ->
  runs (kq_event_wait (S fuel) cb timeout) s (fun n _ => n = zlen l).
Proof.
  intros Hcb Ek Hne Hl Htwo HI. simpl. apply runs_bind. unfold kq_kevent. eapply run_ev_base; [by rewrite Ek|]. destruct l as [|v l]; [done|]. apply runs_bind. eapply run_ev_base; [reflexivity|]. apply runs_bind.
  set (s1 := mk_evs _ _). assert (Eb : batch (es_base s1) = v :: l) by (unfold batch, s1; simpl; unfold zlen; rewrite Nat2Z.id; simpl; by rewrite take_app_length).
  eapply runs_mono; [apply (run_kq_dispatch I cb (length (v :: l)) s1 Hcb)|].
  - by apply HI.
  - split; simpl; [lia|]. unfold zlen. simpl. rewrite length_app. lia.
  - by rewrite Eb.
  - by rewrite Eb.
  - by rewrite Eb.
  - intros [] s2 E2. apply runs_gets. by rewrite E2.
Qed.
End KqBatch.

(** ** What the calls do to a batch *)

Section KqReacts.
Context {K : Type} `{KqKernel K}.
Implicit Types (s : evs (@kq_base K)) (b : @kq_base K).

(** A registration leaves event[] alone. *)
Lemma run_switch_batch (g : econn -> bool) (f : econn -> econn) flt fl c s x (Q : Z -> evs kq_base -> Prop) :
  es_conns s !! c = Some x -> 0 <= kq_nchange (es_base s) < zlen (kq_change (es_base s)) -> (g x = true -> f x = x) ->
  (forall b', grown 1 (es_base s) b' -> Q 0 (mk_evs b' (<[c := f x]> (es_conns s)))) ->
  runs (x ← ev_conn c; if g x then mret 0 else push_change (ev_set (e_sd x) flt fl c);; ev_flags f c;; mret 0) s Q.
Proof.
  intros Hx Hr Hg HQ. apply runs_bind. eapply run_ev_conn; [exact Hx|]. destruct (g x) eqn:E.
  - apply runs_ret. destruct s as [b cs]. simpl in *. rewrite Hg, insert_id in HQ by done. apply HQ. unfold grown. intuition lia.
  - eapply run_register; [exact Hx|done|]. intros b' Hb _. by apply HQ.
Qed.

Ltac bswitch x := eapply run_switch_batch; [cbn [es_conns]; rewrite ?lookup_insert_eq; eassumption || reflexivity|cbn [es_base]; unfold grown in *; lia|destruct x as [sd [] []]; by simpl|]; cbn [es_base es_conns].

Lemma run_call_batch o c s x : es_conns s !! c = Some x -> 0 <= kq_nchange (es_base s) -> kq_nchange (es_base s) + 2 <= zlen (kq_change (es_base s)) ->
  runs (call o c) s (fun st s' => st = 0 /\ es_conns s' = <[c := called o x]> (es_conns s) /\
    exists b', grown 2 (es_base s) b' /\ es_base s' = match o with DelConn => cancel_pending (e_sd x) b' | _ => b' end).
Proof.
  intros Hx H0 Hr. destruct s as [b cs]. cbn [es_base es_conns] in *. destruct o; simpl.
  - unfold kq_event_add_conn, kq_event_add_in. apply runs_bind. bswitch x. intros b1 G1. apply runs_bind. unfold kq_event_add_out. bswitch x. intros b2 G2. apply runs_ret. simpl.
    split; [done|]. split; [by rewrite insert_insert_eq|]. exists b2. split; [|done]. by apply (grown_trans 1 1 b b1).
  - unfold kq_event_add_out. bswitch x. intros b1 G1. split; [done|]. split; [done|]. exists b1. split; [|done]. unfold grown in *. intuition lia.
  - unfold kq_event_del_out. bswitch x. intros b1 G1. split; [done|]. split; [done|]. exists b1. split; [|done]. unfold grown in *. intuition lia.
  - unfold kq_event_del_conn. apply runs_bind. eapply run_ev_conn; [exact Hx|]. apply runs_bind. unfold kq_event_del_out. bswitch x. intros b1 G1. apply runs_bind. unfold kq_event_del_in. bswitch x. intros b2 G2.
    apply runs_bind. eapply run_ev_base; [reflexivity|]. apply runs_ret. simpl. split; [done|]. split; [by rewrite insert_insert_eq|]. exists b2. split; [|done]. by apply (grown_trans 1 1 b b1).
Qed.

(** A callback that closes the connection it is called for. *)
Definition close_it (c : positive) (events : Z) : ST (evs (@kq_base K)) Z := kq_event_del_conn c;; ev_free c;; mret (-1).

#[export] Instance close_it_handler : Handler (fun n s => kq_room (es_base s) n) close_it.
Proof.
  split.
  - intros n s. unfold kq_room. lia.
  - done.
  - intros n c x events s Hr Hx. unfold kq_room in *. apply runs_bind. eapply runs_mono; [apply (run_call_batch DelConn c s x Hx); lia|]. intros st s1 (_ & Ec & b & Hg & Eb). simpl in Eb.
    apply runs_bind. unfold runs at 1, ev_free. apply runs_ret. simpl. rewrite Eb, Ec. unfold grown in Hg. split; [simpl; lia|]. unfold reacts. simpl. destruct Hg as (_ & _ & _ & G1 & G2 & G3 & _).
    split; [done|]. split; [done|]. right. split; [unfold cancel_pending; simpl; by rewrite G1, G2, G3|]. intros c' x' Hx' Hne. exists x'. by rewrite lookup_delete_ne, lookup_insert_ne by congruence.
Qed.

(** ** The changes reach the kernel *)

(** kevent takes the changes and leaves what is watched as it was: there are no
    changes left and the kernel has applied them, also when it was interrupted. *)
Lemma kevent_keeps_watch `{!KqLaws K} timeout s : 0 <= kq_nchange (es_base s) ->
  (forall l, (kevent_call (take (Z.to_nat (kq_nchange (es_base s))) (kq_change (es_base s))) (kq_nevent (es_base s)) (kq_timespec timeout) (kq_kernel (es_base s))).1 = KReady l -> Forall (fun v => Z.land (kv_flags v) EV_ERROR = 0) l) ->
  runs (kq_kevent timeout) s (fun a s' => es_conns s' = es_conns s /\ kq_nchange (es_base s') = 0 /\ ((exists l, a = KReady l) \/ a = KFailed EINTR -> forall key, pending (es_base s') key = pending (es_base s) key)).
Proof.
  intros H0 Hl. unfold kq_kevent. destruct (kevent_call _ _ _ _) as [a k] eqn:Ek. eapply run_ev_base; [by rewrite Ek|]. simpl. split; [done|]. split; [done|]. intros Ha key. unfold pending at 1. simpl.
  set (chs := take _ _) in *. assert (E1 : (kevent_call chs (kq_nevent (es_base s)) (kq_timespec timeout) (kq_kernel (es_base s))).1 = a) by (by rewrite Ek).
  assert (E2 : (kevent_call chs (kq_nevent (es_base s)) (kq_timespec timeout) (kq_kernel (es_base s))).2 = k) by (by rewrite Ek). unfold pending. fold chs. rewrite <- E2. simpl in Hl.
  destruct Ha as [[l ->]| ->]; [apply (kevent_applies _ _ _ _ l); [done|by apply Hl]|by apply kevent_interrupted].
Qed.

(** ** The room of change[] *)

Definition register_all (l : list positive) : ST (evs (@kq_base K)) unit := each (fun c => kq_event_add_conn c;; mret tt) l.

(** Connections that are not registered yet. *)
Definition fresh (cs : gmap positive econn) (l : list positive) : Prop := NoDup l /\ Forall (fun c => exists sd, cs !! c = Some (mk_econn sd false false)) l.

Lemma push_change_exact v s : 0 <= kq_nchange (es_base s) ->
  push_change v s = if kq_nchange (es_base s) <? zlen (kq_change (es_base s))
    then Some (tt, mk_evs (kq_set_change (<[Z.to_nat (kq_nchange (es_base s)) := v]> (kq_change (es_base s))) (kq_nchange (es_base s) + 1) (es_base s)) (es_conns s)) else None.
Proof. intros H0. unfold push_change, ev_base. replace (0 <=? _) with true by lia. simpl. by destruct (_ <? _). Qed.

(** event_add_conn of a connection that is not registered needs two entries. *)
Lemma add_conn_exact c sd s : es_conns s !! c = Some (mk_econn sd false false) -> 0 <= kq_nchange (es_base s) <= zlen (kq_change (es_base s)) ->
  if kq_nchange (es_base s) + 2 <=? zlen (kq_change (es_base s))
  then runs (kq_event_add_conn c) s (fun _ s' => kq_nchange (es_base s') = kq_nchange (es_base s) + 2 /\ zlen (kq_change (es_base s')) = zlen (kq_change (es_base s)) /\ es_conns s' = <[c := mk_econn sd true true]> (es_conns s))
  else kq_event_add_conn c s = None.
Proof.
  intros Hx H0. unfold kq_event_add_conn, kq_event_add_in, kq_event_add_out, runs, mbind, ST_bind, ev_conn, reads, ev_flags, mret, ST_ret. rewrite Hx. simpl. rewrite push_change_exact by lia.
  destruct (kq_nchange (es_base s) <? zlen (kq_change (es_base s))) eqn:E1; [|by replace (_ + 2 <=? _) with false by lia]. simpl. rewrite Hx. simpl. rewrite lookup_insert_eq. simpl. rewrite push_change_exact by (simpl; lia). simpl.
  assert (El : forall v, zlen (<[Z.to_nat (kq_nchange (es_base s)):=v]> (kq_change (es_base s))) = zlen (kq_change (es_base s))) by (intros v; unfold zlen; by rewrite length_insert).
  rewrite El. destruct (kq_nchange (es_base s) + 1 <? zlen (kq_change (es_base s))) eqn:E2; [|by replace (_ + 2 <=? _) with false by lia]. replace (_ + 2 <=? _) with true by lia. simpl. rewrite lookup_insert_eq. simpl.
  split; [lia|]. split; [by rewrite <- (El (ev_set sd EVFILT_READ (Z.lor EV_ADD EV_CLEAR) c)); unfold zlen; rewrite length_insert|]. by rewrite insert_insert_eq.
Qed.

Lemma register_all_bound l s : fresh (es_conns s) l -> 0 <= kq_nchange (es_base s) <= zlen (kq_change (es_base s)) ->
  if kq_nchange (es_base s) + 2 * zlen l <=? zlen (kq_change (es_base s))
  then runs (register_all l) s (fun _ s' => kq_nchange (es_base s') = kq_nchange (es_base s) + 2 * zlen l) else register_all l s = None.
Proof.
  revert s. induction l as [|c l IH]; intros s [Hn Hf] H0; [change (zlen []) with 0; replace (_ <=? _) with true by lia; apply runs_ret; lia|].
  apply list.NoDup_cons in Hn as [Hc Hn]. apply Forall_cons_iff in Hf as [[sd Hx] Hf]. pose proof (add_conn_exact c sd s Hx H0) as Ha. rewrite zlen_cons. pose proof (zlen_nonneg l).
  destruct (kq_nchange (es_base s) + 2 <=? zlen (kq_change (es_base s))) eqn:E1.
  - unfold runs in Ha. destruct (kq_event_add_conn c s) as [[st s1]|] eqn:Es; [|done]. destruct Ha as (N1 & L1 & C1). specialize (IH s1). rewrite N1, L1 in IH.
    replace (kq_nchange (es_base s) + 2 + 2 * zlen l) with (kq_nchange (es_base s) + 2 * (1 + zlen l)) in IH by lia.
    assert (Er : register_all (c :: l) s = register_all l s1) by (unfold register_all; simpl; unfold mbind, ST_bind; rewrite Es; done).
    unfold runs. rewrite Er. apply IH; [|lia]. split; [done|]. rewrite C1. rewrite list.Forall_forall in Hf |- *.
    intros c' Hc'. rewrite lookup_insert_ne by (intros ->; done). by apply Hf.
  - replace (_ <=? _) with false by lia. unfold register_all. simpl. unfold mbind, ST_bind. by rewrite Ha.
Qed.
End KqReacts.

(** The array of changes bounds what is registered between two waits: from
    a base as event_base_create makes it, for [nevent] events, new connections can be
    registered with event_add_conn as long as there are at most [nevent / 2]
    of them; one more and the change is written behind the array.  The check
    of the room is an assertion, which a release does not compile. *)
Theorem kq_change_overrun {K : Type} `{KqKernel K} (k : K) (nevent : Z) (cs : gmap positive econn) (l : list positive) : 0 <= nevent -> fresh cs l ->
  (2 * zlen l <= nevent -> runs (register_all l) (mk_evs (kq_event_base_create k nevent) cs) (fun _ s' => kq_nchange (es_base s') = 2 * zlen l)) /\
  (nevent < 2 * zlen l -> register_all l (mk_evs (kq_event_base_create k nevent) cs) = None).
Proof.
  intros H0 Hf. assert (El : zlen (kq_change (kq_event_base_create k nevent)) = nevent) by (simpl; unfold zlen; rewrite length_replicate; lia).
  pose proof (register_all_bound l (mk_evs (kq_event_base_create k nevent) cs) Hf) as Hb. cbn [es_base es_conns] in Hb. rewrite El in Hb. change (kq_nchange (kq_event_base_create k nevent)) with 0 in Hb. specialize (Hb ltac:(lia)).
  change (0 + 2 * zlen l) with (2 * zlen l) in Hb. destruct (2 * zlen l <=? nevent) eqn:E; split; intros Hl; done || lia.
Qed.

(** ** A kernel with a script *)

(** Its answers are given; it applies the changes it is handed. *)
#[export] Instance script_kernel : KqKernel (list kq_answer * kq_table) := {|
  kevent_call chs n tmo k :=
    match k.1 with
    | [] => (KFailed EINTR, ([], kq_applied chs k.2))
    | KReady l :: r => (KReady (take (Z.to_nat n) l), (r, kq_applied chs k.2))
    | KFailed e :: r => (KFailed e, (r, kq_applied chs k.2))
    end;
  kq_registered k := k.2 |}.

#[export] Instance script_laws : KqLaws (list kq_answer * kq_table).
Proof.
  split; unfold kevent_call, kq_registered; simpl.
  - intros chs n tmo [[|[la|e] r] t] l key; simpl; done.
  - intros chs n tmo [[|[la|e] r] t] key; simpl; done.
  - intros chs n tmo [[|[la|e] r] t] l' Hn; simpl; try done. intros [= <-]. unfold zlen. rewrite length_take. lia.
Qed.

(** A connection with an event to read and one to write, which is closed on the
    first; another with an event. *)
Definition batch_of_three : list kevent := [mk_kevent 5 EVFILT_READ EV_CLEAR 0 (Some 1%positive); mk_kevent 6 EVFILT_READ EV_CLEAR 0 (Some 2%positive); mk_kevent 5 EVFILT_WRITE EV_CLEAR 0 (Some 1%positive)].
Definition two_open : evs (@kq_base (list kq_answer * kq_table)) :=
  mk_evs (mk_kq_base ([KReady batch_of_three], fun _ => None) (replicate 8 kevent_zero) 0 (replicate 8 kevent_zero) 8 0 0) (<[1%positive := mk_econn 5 true true]> {[2%positive := mk_econn 6 true false]}).

Lemma kq_event_wait_live_witness : runs (kq_event_wait 1 close_it 1000) two_open (fun n _ => n = 3).
Proof.
  apply (kq_event_wait_live (fun n s => kq_room (es_base s) n) close_it 1000 0 two_open batch_of_three ([], fun _ => None)).
  - apply close_it_handler.
  - reflexivity.
  - done.
  - do 3 (apply Forall_cons_iff; split; [right; eexists _, _; repeat split; reflexivity|]). constructor.
  - intros sd. unfold of_sd, batch_of_three. rewrite !filter_cons. simpl. repeat (case_decide; simpl; try lia).
  - intros b Hc Hn He. unfold kq_room. simpl in *. rewrite Hc, Hn, He. simpl. done.
Defined.

(** Three connections are too many for an array of four changes. *)
Lemma kq_change_overrun_witness :
  (2 * zlen (map Pos.of_nat (seq 1 3)) <= 4 -> runs (register_all (map Pos.of_nat (seq 1 3))) (mk_evs (kq_event_base_create (([], fun _ => None) : list kq_answer * kq_table) 4) (list_to_map (map (fun n => (Pos.of_nat n, mk_econn (Z.of_nat n) false false)) (seq 1 3)))) (fun _ s' => kq_nchange (es_base s') = 6)) /\
  (4 < 6 -> register_all (map Pos.of_nat (seq 1 3)) (mk_evs (kq_event_base_create (([], fun _ => None) : list kq_answer * kq_table) 4) (list_to_map (map (fun n => (Pos.of_nat n, mk_econn (Z.of_nat n) false false)) (seq 1 3)))) = None).
Proof.
  apply (kq_change_overrun (([], fun _ => None) : list kq_answer * kq_table) 4 (list_to_map (map (fun n => (Pos.of_nat n, mk_econn (Z.of_nat n) false false)) (seq 1 3))) (map Pos.of_nat (seq 1 3))); [lia|].
  split; [apply (bool_decide_unpack _); vm_compute; done|]. repeat constructor; eexists; reflexivity.
Defined.
