(* ===== verification/EventPorts.v ===== *)
(** The back end of event ports (event/nc_evport.c).

    Retrieving an event takes the association of its descriptor away; the loop
    of event_wait makes it again after the callback. *)

From stdpp Require Import gmap.
From S2P Require Import Prelude State World Core Events EventKqueue.

Definition POLLIN : Z := 0x0001.
Definition POLLOUT : Z := 0x0004.
Definition POLLERR : Z := 0x0008.
Definition ETIME : Z := 62.

(** ** The kernel *)

(** port_event_t *)
Record port_event := mk_port_event { pe_events : Z; pe_user : positive }.

(** port_getn: the status, errno and the events that were retrieved. *)
Record getn_answer := mk_getn { gn_status : Z; gn_errno : Z; gn_events : list port_event }.

Class PortKernel (K : Type) := {
  port_associate : Z -> Z -> positive -> K -> Z * K;
  port_dissociate : Z -> K -> (Z * Z) * K;
  port_getn : option Z -> Z -> K -> getn_answer * K;
  associated : K -> Z -> option (Z * positive)
}.

(** A call that fails changes nothing, and dissociating fails with ENOENT when
    there is no association.  port_getn takes the associations of the events away
    that it retrieves. *)
Class PortLaws (K : Type) `{PortKernel K} : Prop := {
  associate_fails sd ev p k sd' : (port_associate sd ev p k).1 < 0 -> associated (port_associate sd ev p k).2 sd' = associated k sd';
  associate_sets sd ev p k : 0 <= (port_associate sd ev p k).1 -> associated (port_associate sd ev p k).2 sd = Some (ev, p);
  associate_other sd ev p k sd' : sd' <> sd -> associated (port_associate sd ev p k).2 sd' = associated k sd';
  dissociate_fails sd k sd' : (port_dissociate sd k).1.1 < 0 -> associated (port_dissociate sd k).2 sd' = associated k sd';
  dissociate_none sd k : (port_dissociate sd k).1.1 < 0 -> (port_dissociate sd k).1.2 = ENOENT -> associated k sd = None;
  dissociate_clears sd k : 0 <= (port_dissociate sd k).1.1 -> associated (port_dissociate sd k).2 sd = None;
  dissociate_other sd k sd' : sd' <> sd -> associated (port_dissociate sd k).2 sd' = associated k sd';
  getn_takes tmo n k sd ev p : associated k sd = Some (ev, p) ->
    associated (port_getn tmo n k).2 sd = if bool_decide (p ∈ map pe_user (gn_events (port_getn tmo n k).1)) then None else Some (ev, p);
  getn_none tmo n k sd : associated k sd = None -> associated (port_getn tmo n k).2 sd = None
}.

(** ** The base *)

Section Ports.
Context {K : Type} `{PortKernel K}.

(** struct event_base; [pt_left] are the entries of event[] that the loop of
    event_wait has not finished, the one it is at first. *)
Record port_base := mk_port_base { pt_kernel : K; pt_left : list port_event; pt_nevent : Z }.
Definition pt_set_left (l : list port_event) (b : port_base) : port_base := mk_port_base (pt_kernel b) l (pt_nevent b).

Abbreviation P := (ST (evs port_base)).

Definition associate (sd events : Z) (c : positive) : P Z :=
  ev_base (fun b => let '(status, k) := port_associate sd events c (pt_kernel b) in Some (status, mk_port_base k (pt_left b) (pt_nevent b))).

Definition port_event_add_in (c : positive) : P Z := mret 0.
Definition port_event_del_in (c : positive) : P Z := mret 0.

Definition port_event_add_out (c : positive) : P Z :=
  x ← ev_conn c;
  if e_send_active x then mret 0
  else
    status ← associate (e_sd x) (Z.lor POLLIN POLLOUT) c;
    if status <? 0 then mret status else ev_flags (set_send true) c;; mret status.

Definition port_event_del_out (c : positive) : P Z :=
  x ← ev_conn c;
  if negb (e_send_active x) then mret 0
  else
    status ← associate (e_sd x) POLLIN c;
    if status <? 0 then mret status else ev_flags (set_send false) c;; mret status.

Definition port_event_add_conn (c : positive) : P Z :=
  x ← ev_conn c;
  status ← associate (e_sd x) (Z.lor POLLIN POLLOUT) c;
  if status <? 0 then mret status
  else ev_flags (set_send true) c;; ev_flags (set_recv true) c;; mret status.

Definition port_event_del_conn (c : positive) : P Z :=
  x ← ev_conn c;
  if negb (e_send_active x) && negb (e_recv_active x) then mret 0
  else
    r ← ev_base (fun b => let '(r, k) := port_dissociate (e_sd x) (pt_kernel b) in Some (r, mk_port_base k (pt_left b) (pt_nevent b)));
    if (r.1 <? 0) && negb (r.2 =? ENOENT) then mret r.1
    else ev_flags (set_recv false) c;; ev_flags (set_send false) c;; mret 0.

#[export] Instance port_backend : EventBackend port_base := {|
  be_add_conn := port_event_add_conn; be_add_out := port_event_add_out; be_del_out := port_event_del_out; be_del_conn := port_event_del_conn |}.

Definition event_reassociate (c : positive) : P Z :=
  x ← ev_conn c;
  associate (e_sd x) (if e_send_active x then Z.lor POLLIN POLLOUT else POLLIN) c.

(** ** event_wait *)

Definition port_translate (ev : Z) : Z :=
  Z.lor (Z.lor (if Z.land ev POLLERR =? 0 then 0 else EVENT_ERR) (if Z.land ev POLLIN =? 0 then 0 else EVENT_READ)) (if Z.land ev POLLOUT =? 0 then 0 else EVENT_WRITE).

(** One entry of event[]: the callback, and the association again unless the
    connection was closed. *)
Definition port_deliver (cb : positive -> Z -> P Z) (ev : port_event) : P unit :=
  let events := port_translate (pe_events ev) in
  (if events =? 0 then mret tt
   else status ← cb (pe_user ev) events; if status <? 0 then mret tt else event_reassociate (pe_user ev);; mret tt);;
  ev_base (fun b => Some (tt, pt_set_left (tail (pt_left b)) b)).

Fixpoint port_event_wait (fuel : nat) (cb : positive -> Z -> P Z) (timeout : Z) : P Z :=
  match fuel with
  | O => fault
  | S fuel =>
      a ← ev_base (fun b => let '(a, k) := port_getn (kq_timespec timeout) (pt_nevent b) (pt_kernel b) in Some (a, mk_port_base k (gn_events a) (pt_nevent b)));
      if (gn_status a <? 0) && ((gn_errno a =? EINTR) || (gn_errno a =? EAGAIN)) then port_event_wait fuel cb timeout
      else if (gn_status a <? 0) && negb (gn_errno a =? ETIME) then mret (-1)
      else
        match gn_events a with
        | [] => mret (if timeout =? -1 then -1 else 0)
        | l => each (port_deliver cb) l;; mret (zlen l)
        end
  end.
End Ports.

(** ** The promise *)

Section PortPromise.
Context {K : Type} `{PortLaws K}.
Implicit Types (s : evs (@port_base K)) (b : @port_base K).

Definition port_mask (send : bool) : Z := if send then Z.lor POLLIN POLLOUT else POLLIN.

(** A connection is associated as its flags say, or its event was retrieved and
    the loop of event_wait is not done with it. *)
Definition port_watches b (c : positive) (x : econn) : Prop :=
  (e_send_active x = true -> e_recv_active x = true) /\
  if e_recv_active x
  then associated (pt_kernel b) (e_sd x) = Some (port_mask (e_send_active x), c) \/ (associated (pt_kernel b) (e_sd x) = None /\ c ∈ map pe_user (pt_left b))
  else associated (pt_kernel b) (e_sd x) = None.

(** An association: what it leaves when it fails and when it does not. *)
Lemma run_associate sd ev c s (Q : Z -> evs port_base -> Prop) :
  (forall st k, st < 0 -> (forall sd', associated k sd' = associated (pt_kernel (es_base s)) sd') -> Q st (mk_evs (mk_port_base k (pt_left (es_base s)) (pt_nevent (es_base s))) (es_conns s))) ->
  (forall st k, 0 <= st -> associated k sd = Some (ev, c) -> (forall sd', sd' <> sd -> associated k sd' = associated (pt_kernel (es_base s)) sd') ->
    Q st (mk_evs (mk_port_base k (pt_left (es_base s)) (pt_nevent (es_base s))) (es_conns s))) ->
  runs (associate sd ev c) s Q.
Proof.
  intros Hbad Hgood. unfold associate. destruct (port_associate sd ev c (pt_kernel (es_base s))) as [st k] eqn:Ec. eapply run_ev_base; [by rewrite Ec|].
  assert (E1 : (port_associate sd ev c (pt_kernel (es_base s))).1 = st) by (by rewrite Ec). assert (E2 : (port_associate sd ev c (pt_kernel (es_base s))).2 = k) by (by rewrite Ec).
  destruct (decide (st < 0)) as [Hs|Hs].
  - apply Hbad; [done|]. intros sd'. rewrite <- E2. apply associate_fails. by rewrite E1.
  - apply Hgood; [lia| |]; rewrite <- E2; [apply associate_sets; lia|intros sd' Hne; by apply associate_other].
Qed.

(** A call that leaves everything as it was. *)
Lemma port_post_same b k c sd x x' (cs cs0 : gmap positive econn) n : sd = e_sd x -> cs0 = cs -> cs !! c = Some x -> x' = x -> port_watches b c x -> (forall sd', associated k sd' = associated (pt_kernel b) sd') ->
  cs0 = <[c := x']> cs /\ True /\ port_watches (mk_port_base k (pt_left b) n) c x' /\ (forall c' y, e_sd y <> sd -> port_watches b c' y -> port_watches (mk_port_base k (pt_left b) n) c' y).
Proof.
  intros -> -> Hc -> [Hf Hr] Hk. split; [by rewrite insert_id|]. split; [done|]. unfold port_watches in *. simpl. split; [by rewrite Hk|]. intros c' y _. by rewrite Hk.
Qed.

(** A call that associates what the new flags say. *)
Lemma port_post_set b k c sd x x' (cs cs0 : gmap positive econn) n : sd = e_sd x -> cs0 = <[c := x']> cs -> e_sd x' = e_sd x -> (e_send_active x' = true -> e_recv_active x' = true) ->
  associated k sd = (if e_recv_active x' then Some (port_mask (e_send_active x'), c) else None) -> (forall sd', sd' <> sd -> associated k sd' = associated (pt_kernel b) sd') ->
  cs0 = <[c := x']> cs /\ True /\ port_watches (mk_port_base k (pt_left b) n) c x' /\ (forall c' y, e_sd y <> sd -> port_watches b c' y -> port_watches (mk_port_base k (pt_left b) n) c' y).
Proof.
  intros -> -> Hsd Hf Hr Hk. split; [done|]. split; [done|]. unfold port_watches. simpl. rewrite Hsd. split.
  - split; [done|]. destruct (e_recv_active x'); [by left|done].
  - intros c' y Hne. by rewrite Hk.
Qed.

Ltac pstep :=
  lazymatch goal with
  | |- runs (mbind _ _) _ _ => apply runs_bind
  | |- runs (mret _) _ _ => apply runs_ret
  | |- runs (ev_conn _) _ _ => eapply run_ev_conn; [cbn [es_conns]; rewrite ?lookup_insert_eq; eassumption || reflexivity|]
  | |- runs (ev_flags _ _) _ _ => eapply run_ev_flags; [cbn [es_conns]; rewrite ?lookup_insert_eq; eassumption || reflexivity|]
  end; cbn [es_conns es_base].
Ltac pfailed := intros st k Hst Hk; replace (st <? 0) with true by (symmetry; lia); repeat pstep; replace (st <? 0) with true by (symmetry; lia); eapply port_post_same; eauto.
Ltac pworked := intros st k Hst Hset Hother; replace (st <? 0) with false by (symmetry; lia); repeat pstep; replace (st <? 0) with false by (symmetry; lia);
  eapply port_post_set; cbn; rewrite ?insert_insert_eq; auto.

Lemma port_call_promise o c s x : es_conns s !! c = Some x -> asserted o x = true -> port_watches (es_base s) c x ->
  runs (call o c) s (fun status s' =>
    let x' := if status <? 0 then x else called o x in
    es_conns s' = <[c := x']> (es_conns s) /\ True /\ port_watches (es_base s') c x' /\
    (forall c' y, e_sd y <> e_sd x -> port_watches (es_base s) c' y -> port_watches (es_base s') c' y)).
Proof.
  intros Hx Ha Hw. pose proof Hw as [Hflags Hreg]. destruct s as [b cs]. simpl in *. destruct o; simpl in Ha |- *.
  - unfold port_event_add_conn. do 3 pstep. apply run_associate; [pfailed|pworked].
  - unfold port_event_add_out. do 2 pstep. destruct (e_send_active x) eqn:Ew; pstep.
    + destruct b. eapply (port_post_same (mk_port_base _ _ _)); eauto. by destruct x; simpl in *; subst.
    + apply run_associate; [pfailed|pworked]. by rewrite Ha.
  - unfold port_event_del_out. do 2 pstep. destruct (e_send_active x) eqn:Ew; simpl; pstep.
    + apply run_associate; [pfailed|pworked]. by rewrite Ha.
    + destruct b. eapply (port_post_same (mk_port_base _ _ _)); eauto. by destruct x; simpl in *; subst.
  - unfold port_event_del_conn. do 2 pstep. destruct (negb (e_send_active x) && negb (e_recv_active x)) eqn:Ei.
    + pstep. destruct b. eapply (port_post_same (mk_port_base _ _ _)); eauto. destruct x as [sd [] []]; simpl in *; done.
    + pstep. destruct (port_dissociate (e_sd x) (pt_kernel b)) as [[r e] k] eqn:Ed. eapply run_ev_base; [simpl; by rewrite Ed|]. simpl.
      pose proof (dissociate_fails (e_sd x) (pt_kernel b)) as D1. pose proof (dissociate_none (e_sd x) (pt_kernel b)) as D2. pose proof (dissociate_clears (e_sd x) (pt_kernel b)) as D3. pose proof (dissociate_other (e_sd x) (pt_kernel b)) as D4.
      rewrite Ed in D1, D2, D3, D4. simpl in *. destruct (r <? 0) eqn:Er; simpl; [destruct (e =? ENOENT) eqn:Ee; simpl|]; repeat pstep.
      * eapply port_post_set; cbn; rewrite ?insert_insert_eq; auto. rewrite D1 by lia. apply D2; lia.
      * rewrite Er. eapply port_post_same; eauto. intros sd'. apply D1. lia.
      * eapply port_post_set; cbn; rewrite ?insert_insert_eq; auto. apply D3. lia.
Qed.

#[export] Program Instance port_promise : EventPromise port_base := {| watches := port_watches; room := fun _ _ => True |}.
Next Obligation. done. Qed.
Next Obligation. intros. by apply port_call_promise. Qed.
End PortPromise.

(** ** The loop associates again *)

Section PortLoop.
Context {K : Type} `{PortLaws K}.
Implicit Types (s : evs (@port_base K)) (b : @port_base K).

(** A connection that is registered. *)
Definition active (cs : gmap positive econn) (c : positive) : Prop := exists x, cs !! c = Some x /\ e_recv_active x = true.

(** What a callback does: with the calls of the interface it keeps the watch; it
    closes the connection it was called for and returns a negative status, or
    leaves it registered; the others that were registered stay so. *)
Class PortHandler (cb : positive -> Z -> ST (evs (@port_base K)) Z) : Prop :=
  port_handler c events s : all_watched s -> active (es_conns s) c ->
    runs (cb c events) s (fun st s' =>
      all_watched s' /\ pt_left (es_base s') = pt_left (es_base s) /\ (forall c', c' <> c -> active (es_conns s) c' -> active (es_conns s') c') /\
      if st <? 0 then es_conns s' !! c = None else active (es_conns s') c).

(** The connections of a batch of events: each is registered and has one event,
    for which there is a callback. *)
Definition batch_active (cs : gmap positive econn) (l : list port_event) : Prop :=
  NoDup (map pe_user l) /\ Forall (fun ev => port_translate (pe_events ev) <> 0 /\ active cs (pe_user ev)) l.

(** The entry that was handled is done with: the connection is associated or
    gone. *)
Lemma watched_tail s ev l : all_watched s -> pt_left (es_base s) = ev :: l ->
  (forall x, es_conns s !! pe_user ev = Some x -> e_recv_active x = true -> associated (pt_kernel (es_base s)) (e_sd x) = Some (port_mask (e_send_active x), pe_user ev)) ->
  all_watched (mk_evs (pt_set_left l (es_base s)) (es_conns s)).
Proof.
  intros [Ho Hw] El Hc. split; [done|]. intros c x Hx. specialize (Hw c x Hx). destruct Hw as [Hf Hr]. unfold watches, port_promise, port_watches in *. simpl. split; [done|].
  destruct (e_recv_active x) eqn:Er; [|done]. destruct Hr as [Hr|[Hn Hin]]; [by left|]. destruct (decide (c = pe_user ev)) as [->|Hne]; [left; by apply Hc|]. right. split; [done|]. rewrite El in Hin. simpl in Hin. by apply elem_of_cons in Hin as [?|?].
Qed.

Lemma run_event_reassociate c s : (forall sd ev p (k : K), 0 <= (port_associate sd ev p k).1) -> all_watched s -> active (es_conns s) c ->
  runs (event_reassociate c) s (fun _ s' => es_conns s' = es_conns s /\ pt_left (es_base s') = pt_left (es_base s) /\ all_watched s' /\
    forall x, es_conns s !! c = Some x -> associated (pt_kernel (es_base s')) (e_sd x) = Some (port_mask (e_send_active x), c)).
Proof.
  intros Hok [Ho Hw] (x & Hx & Hr). unfold event_reassociate. apply runs_bind. eapply run_ev_conn; [exact Hx|].
  unfold associate. destruct (port_associate (e_sd x) (if e_send_active x then Z.lor POLLIN POLLOUT else POLLIN) c (pt_kernel (es_base s))) as [st k] eqn:Ec. eapply run_ev_base; [by rewrite Ec|]. simpl.
  pose proof (associate_sets (e_sd x) (if e_send_active x then Z.lor POLLIN POLLOUT else POLLIN) c (pt_kernel (es_base s)) (Hok _ _ _ _)) as Hs. pose proof (associate_other (e_sd x) (if e_send_active x then Z.lor POLLIN POLLOUT else POLLIN) c (pt_kernel (es_base s))) as Hother.
  rewrite Ec in Hs, Hother. simpl in *. split; [done|]. split; [done|]. split; [|intros x' Hx'; rewrite Hx in Hx'; by injection Hx' as <-]. split; [done|].
  intros c' y Hy. simpl in Hy. unfold watches, port_promise, port_watches. simpl. destruct (decide (c' = c)) as [->|Hne].
  - rewrite Hx in Hy. injection Hy as <-. destruct (Hw c x Hx) as [Hf _]. split; [done|]. rewrite Hr. by left.
  - rewrite Hother; [by apply (Hw c' y)|]. intros E. apply Hne. by eapply Ho.
Qed.

Lemma run_port_deliver cb s ev l : PortHandler cb -> (forall sd ev p (k : K), 0 <= (port_associate sd ev p k).1) -> all_watched s -> pt_left (es_base s) = ev :: l -> batch_active (es_conns s) (ev :: l) ->
  runs (port_deliver cb ev) s (fun _ s' => all_watched s' /\ pt_left (es_base s') = l /\ batch_active (es_conns s') l).
Proof.
  intros Hcb Hok Hw El [Hn Hl]. apply Forall_cons_iff in Hl as [[Hev Hact] Hl]. simpl in Hn. apply list.NoDup_cons in Hn as [Hni Hn]. unfold port_deliver. replace (_ =? 0) with false by lia.
  apply runs_bind, runs_bind. eapply runs_mono; [by apply port_handler|]. intros st s1 (Hw1 & El1 & Hkeep & Hst). rewrite El in El1.
  assert (Hl1 : batch_active (es_conns s1) l).
  { split; [done|]. rewrite list.Forall_forall in Hl |- *. intros ev' Hin. destruct (Hl ev' Hin) as [H1 H2]. split; [done|]. apply Hkeep; [|done]. intros E. apply Hni. rewrite <- E. apply list_elem_of_fmap. by exists ev'. }
  destruct (st <? 0).
  - apply runs_ret. eapply run_ev_base; [reflexivity|]. rewrite El1. simpl. split; [|done]. eapply watched_tail; [done|done|]. intros x Hx. by rewrite Hst in Hx.
  - apply runs_bind. eapply runs_mono; [by apply run_event_reassociate|]. intros st' s2 (Ec & El2 & Hw2 & Has). apply runs_ret. eapply run_ev_base; [reflexivity|]. rewrite El2, El1. simpl.
    split; [|by rewrite Ec]. apply (watched_tail s2 ev l); [done|by rewrite El2|]. intros x Hx _. apply Has. by rewrite <- Ec.
Qed.

Lemma run_port_deliver_all cb l s : PortHandler cb -> (forall sd ev p (k : K), 0 <= (port_associate sd ev p k).1) -> all_watched s -> pt_left (es_base s) = l -> batch_active (es_conns s) l ->
  runs (each (port_deliver cb) l) s (fun _ s' => all_watched s' /\ pt_left (es_base s') = []).
Proof.
  intros Hcb Hok. revert s. induction l as [|ev l IH]; intros s Hw El Hb; simpl; [by apply runs_ret|]. apply runs_bind. eapply runs_mono; [by eapply run_port_deliver|]. intros [] s1 (Hw1 & El1 & Hb1). by apply IH.
Qed.

(** Retrieving events leaves every connection watched or among them. *)
Lemma getn_watched tmo s : all_watched s -> pt_left (es_base s) = [] ->
  all_watched (mk_evs (mk_port_base (port_getn tmo (pt_nevent (es_base s)) (pt_kernel (es_base s))).2 (gn_events (port_getn tmo (pt_nevent (es_base s)) (pt_kernel (es_base s))).1) (pt_nevent (es_base s))) (es_conns s)).
Proof.
  intros [Ho Hw] El. split; [done|]. intros c x Hx. destruct (Hw c x Hx) as [Hf Hr]. unfold watches, port_promise, port_watches in *. simpl. split; [done|]. rewrite El in Hr.
  destruct (e_recv_active x); [|by apply getn_none]. destruct Hr as [Hr|[_ Hr]]; [|by apply not_elem_of_nil in Hr]. rewrite (getn_takes _ _ _ _ _ _ Hr). case_bool_decide; [by right|by left].
Qed.

(** No connection is forgotten: port_getn takes the associations of the
    events it retrieves away, but when event_wait has called back for all of
    them, every connection that is still registered is associated with its port
    for exactly what its flags say, whatever the callbacks did with the calls of
    the interface. *)
Theorem port_event_wait_rewatches (cb : positive -> Z -> ST (evs port_base) Z) (timeout : Z) (fuel : nat) (s : evs port_base) :
  let a := (port_getn (kq_timespec timeout) (pt_nevent (es_base s)) (pt_kernel (es_base s))).1 in
  PortHandler cb -> (forall sd ev p (k : K), 0 <= (port_associate sd ev p k).1) -> all_watched s -> pt_left (es_base s) = [] ->
  0 <= gn_status a -> gn_events a <> [] -> batch_active (es_conns s) (gn_events a) ->
  runs (port_event_wait (S fuel) cb timeout) s (fun n s' => n = zlen (gn_events a) /\
    map_Forall (fun c x => associated (pt_kernel (es_base s')) (e_sd x) = if e_recv_active x then Some (port_mask (e_send_active x), c) else None) (es_conns s')).
Proof.
  intros a Hcb Hok Hw El Hst Hne Hb. pose proof (getn_watched (kq_timespec timeout) s Hw El) as Hw1. fold a in Hw1. simpl. apply runs_bind.
  destruct (port_getn (kq_timespec timeout) (pt_nevent (es_base s)) (pt_kernel (es_base s))) as [a' k] eqn:Eg. assert (Eaa : a' = a) by (unfold a; rewrite ?Eg; done). clearbody a. subst a'. eapply run_ev_base; [by rewrite Eg|]. simpl in Hw1.
  replace (gn_status a <? 0) with false by lia. simpl. destruct (gn_events a) as [|ev l] eqn:Ea; [done|]. apply runs_bind.
  eapply runs_mono; [apply (run_port_deliver_all cb (ev :: l)); done|]. intros [] s' ([_ Hw'] & El'). apply runs_ret. split; [done|].
  intros c x Hx. destruct (Hw' c x Hx) as [_ Hr]. rewrite El' in Hr. destruct (e_recv_active x); [|done]. destruct Hr as [Hr|[_ Hr]]; [done|by apply not_elem_of_nil in Hr].
Qed.
End PortLoop.

(** ** Callbacks made of the calls *)

Section PortCalls.
Context {K : Type} `{PortLaws K}.

(** No call touches the entries that event_wait has left. *)
Lemma call_left o c (s s' : evs (@port_base K)) st : call o c s = Some (st, s') -> pt_left (es_base s') = pt_left (es_base s).
Proof.
  destruct o; simpl; unfold port_event_add_conn, port_event_add_out, port_event_del_out, port_event_del_conn, associate, ev_conn, ev_flags, ev_base, reads, mbind, ST_bind, mret, ST_ret;
    intros E; repeat (case_match; simplify_eq; simpl in * ); done.
Qed.

(** A connection is closed when it may be written to, and is to be written to
    otherwise. *)
Definition write_or_close (c : positive) (events : Z) : ST (evs (@port_base K)) Z :=
  if Z.land events EVENT_WRITE =? 0 then call AddOut c;; mret 0
  else st ← call DelConn c; if st <? 0 then mret 0 else ev_free c;; mret (-1).

Lemma run_call_watched o c (s : evs (@port_base K)) x : all_watched s -> es_conns s !! c = Some x -> asserted o x = true ->
  runs (call o c) s (fun st s' => all_watched s' /\ pt_left (es_base s') = pt_left (es_base s) /\ es_conns s' = <[c := if st <? 0 then x else called o x]> (es_conns s)).
Proof.
  intros Hw Hx Ha. pose proof (call_watched o c s x 0 Hx Ha I Hw) as Hg. unfold answered in Hg. simpl in Hg. rewrite Hx in Hg. unfold runs in *.
  destruct (call o c s) as [[st s']|] eqn:Ec; [|done]. destruct Hg as (Hc & _ & Hw'). split; [done|]. split; [by eapply call_left|]. rewrite Hc. destruct (st <? 0); [symmetry; by apply insert_id|done].
Qed.

#[export] Instance write_or_close_handler : PortHandler write_or_close.
Proof.
  intros c events s Hw (x & Hx & Hr). unfold write_or_close. destruct (_ =? 0).
  - apply runs_bind. eapply runs_mono; [by apply (run_call_watched AddOut c s x)|]. intros st s' (Hw' & Hl & Hc). apply runs_ret. rewrite Hc. split; [done|]. split; [done|]. split.
    + intros c' Hne (y & Hy & Hry). exists y. by rewrite lookup_insert_ne.
    + simpl. eexists. rewrite lookup_insert_eq. split; [done|]. by destruct (st <? 0).
  - apply runs_bind. eapply runs_mono; [by apply (run_call_watched DelConn c s x)|]. intros st s' (Hw' & Hl & Hc). destruct (st <? 0).
    + rewrite insert_id in Hc by done. apply runs_ret. rewrite Hc. split; [done|]. split; [done|]. split; [done|]. by exists x.
    + apply runs_bind. unfold runs at 1, ev_free. apply runs_ret. simpl. destruct Hw' as [Ho' Hwa]. split; [split|split; [done|split]].
      * simpl. intros c1 c2 y1 y2 H1 H2. apply lookup_delete_Some in H1 as [_ H1]. apply lookup_delete_Some in H2 as [_ H2]. by eapply Ho'.
      * simpl. intros c1 y1 H1. apply lookup_delete_Some in H1 as [_ H1]. by apply (Hwa c1 y1).
      * intros c' Hne (y & Hy & Hry). exists y. by rewrite Hc, lookup_delete_ne, lookup_insert_ne by done.
      * by rewrite lookup_delete_eq.
Qed.
End PortCalls.

(** ** A kernel with a script *)

#[export] Instance script_port : PortKernel (list getn_answer * gmap Z (Z * positive)) := {|
  port_associate sd ev p k := (0, (k.1, <[sd := (ev, p)]> k.2));
  port_dissociate sd k := match k.2 !! sd with None => ((-1, ENOENT), k) | Some _ => ((0, 0), (k.1, delete sd k.2)) end;
  port_getn tmo n k := match k.1 with
    | [] => (mk_getn (-1) EINTR [], k)
    | a :: r => (a, (r, filter (fun x => x.2.2 ∉ map pe_user (gn_events a)) k.2))
    end;
  associated k sd := k.2 !! sd |}.

#[export] Instance script_port_laws : PortLaws (list getn_answer * gmap Z (Z * positive)).
Proof.
  split; unfold port_associate, port_dissociate, port_getn, associated; simpl.
  - done.
  - intros sd ev p k _. by rewrite lookup_insert_eq.
  - intros sd ev p k sd' Hne. by rewrite lookup_insert_ne.
  - intros sd k sd'. destruct (k.2 !! sd); simpl; done.
  - intros sd k. destruct (k.2 !! sd) eqn:E; simpl; done.
  - intros sd k. destruct (k.2 !! sd) eqn:E; simpl; [by rewrite lookup_delete_eq|lia].
  - intros sd k sd' Hne. destruct (k.2 !! sd); simpl; [by rewrite lookup_delete_ne|done].
  - intros tmo n k sd ev p Hs. destruct (k.1); simpl; [by rewrite Hs|]. case_bool_decide as Hin.
    + apply map_lookup_filter_None. right. intros y Hy. rewrite Hs in Hy. injection Hy as <-. simpl. tauto.
    + by apply map_lookup_filter_Some.
  - intros tmo n k sd Hs. destruct (k.1); simpl; [done|]. apply map_lookup_filter_None. by left.
Qed.

(** Two connections: one is to be written to, the other is closed. *)
Definition two_ports : evs (@port_base (list getn_answer * gmap Z (Z * positive))) :=
  mk_evs (mk_port_base ([mk_getn 0 0 [mk_port_event POLLIN 1; mk_port_event POLLOUT 2]], <[5 := (POLLIN, 1%positive)]> {[6 := (Z.lor POLLIN POLLOUT, 2%positive)]}) [] 1024)
    (<[1%positive := mk_econn 5 true false]> {[2%positive := mk_econn 6 true true]}).

Lemma port_event_wait_rewatches_witness : runs (port_event_wait 1 write_or_close 1000) two_ports (fun n s' => n = 2 /\
  map_Forall (fun c x => associated (pt_kernel (es_base s')) (e_sd x) = if e_recv_active x then Some (port_mask (e_send_active x), c) else None) (es_conns s')).
Proof.
  eapply runs_mono; [apply (port_event_wait_rewatches write_or_close 1000 0 two_ports)|intros n s' [-> Hw]; split; [reflexivity|exact Hw]].
  - apply write_or_close_handler.
  - done.
  - split.
    + intros c c' x x' Hc Hc' He. unfold two_ports, es_conns in Hc, Hc'. apply lookup_insert_Some in Hc as [[<- <-]|[_ Hc]]; apply lookup_insert_Some in Hc' as [[<- <-]|[_ Hc']];
        try apply lookup_singleton_Some in Hc as [<- <-]; try apply lookup_singleton_Some in Hc' as [<- <-]; done.
    + apply map_Forall_insert_2; [split; [done|]; by left|]. apply map_Forall_singleton. split; [done|]. by left.
  - done.
  - done.
  - done.
  - split; [apply (bool_decide_unpack _); done|]. repeat (apply Forall_cons_iff; split; [split; [done|eexists; split; reflexivity]|]). constructor.
Defined.
