(* ===== verification/EventBackends.v ===== *)
(** The three event back ends under the calls of the engine: what
    event_add_conn, event_add_out, event_del_out and event_del_conn of
    nc_epoll.c, nc_kqueue.c and nc_evport.c leave in the kernel, over every
    sequence of calls the engine makes between two waits. *)

From stdpp Require Import gmap.
From S2P Require Import Prelude State World Core Events EventEpoll EventKqueue EventPorts.

(** ** What each kernel has been told of the connections *)

(** epoll: EPOLLIN, with EPOLLOUT when sending, edge triggered, and the
    connection as data; nothing for a connection that is not read. *)
Definition epoll_told `{EpollKernel K} (s : evs (@epoll_base K)) : Prop :=
  forall c x, es_conns s !! c = Some x ->
    registered (ep_kernel (es_base s)) (e_sd x) =
    if e_recv_active x
    then Some (u32 (Z.lor (if e_send_active x then Z.lor EPOLLIN EPOLLOUT else EPOLLIN) EPOLLET), c) else None.

(** kqueue: the two filters, once the changes collected in change[] are
    applied. *)
Definition kq_told `{KqKernel K} (s : evs (@kq_base K)) : Prop :=
  forall c x, es_conns s !! c = Some x ->
    let told := kq_applied (take (Z.to_nat (kq_nchange (es_base s))) (kq_change (es_base s))) (kq_registered (kq_kernel (es_base s))) in
    told (e_sd x, EVFILT_READ) = (if e_recv_active x then Some c else None) /\
    told (e_sd x, EVFILT_WRITE) = (if e_send_active x then Some c else None).

(** Event ports: the association, unless the event of the connection was
    retrieved and event_wait will make it again. *)
Definition port_told `{PortKernel K} (s : evs (@port_base K)) : Prop :=
  forall c x, es_conns s !! c = Some x ->
    let told := associated (pt_kernel (es_base s)) (e_sd x) in
    if e_recv_active x
    then told = Some ((if e_send_active x then Z.lor POLLIN POLLOUT else POLLIN), c) \/ told = None /\ c ∈ map pe_user (pt_left (es_base s))
    else told = None.

(** The flags: no connection sends without reading. *)
Definition flags_ok (cs : gmap positive econn) : Prop := forall c x, cs !! c = Some x -> e_send_active x = true -> e_recv_active x = true.

Lemma epoll_watched `{EpollLaws K} (s : evs (@epoll_base K)) :
  all_watched s <-> own_sds (es_conns s) /\ flags_ok (es_conns s) /\ epoll_told s.
Proof.
  assert (Em : forall b : bool, epoll_mask b = u32 (Z.lor (if b then Z.lor EPOLLIN EPOLLOUT else EPOLLIN) EPOLLET)) by (by intros []).
  split.
  - intros [Ho Hw]. split_and!; [done|intros c x Hx; by apply (Hw c x)|]. intros c x Hx. rewrite <- Em. by apply (Hw c x).
  - intros (Ho & Hf & Ht). split; [done|]. intros c x Hx. split; [by apply (Hf c)|]. rewrite Em. by apply Ht.
Qed.

Lemma kq_watched `{KqKernel K} (s : evs (@kq_base K)) :
  all_watched s <-> own_sds (es_conns s) /\ flags_ok (es_conns s) /\ kq_told s.
Proof.
  split.
  - intros [Ho Hw]. split_and!; [done|intros c x Hx; by apply (Hw c x)|]. intros c x Hx. by apply (Hw c x).
  - intros (Ho & Hf & Ht). split; [done|]. intros c x Hx. split; [by apply (Hf c)|]. by apply (Ht c).
Qed.

Lemma port_watched `{PortLaws K} (s : evs (@port_base K)) :
  all_watched s <-> own_sds (es_conns s) /\ flags_ok (es_conns s) /\ port_told s.
Proof.
  split.
  - intros [Ho Hw]. split_and!; [done|intros c x Hx; by apply (Hw c x)|]. intros c x Hx. by apply (Hw c x).
  - intros (Ho & Hf & Ht). split; [done|]. intros c x Hx. split; [by apply (Hf c)|]. by apply (Ht c).
Qed.

(** ** The calls of the engine *)

(** C16. Whatever calls the engine makes between two waits on connections with
    descriptors of their own, and as it goes on after each answer, the back
    ends of epoll, kqueue and event ports carry all of them out, keep the
    flags recv_active and send_active those of the calls that succeeded, and
    leave the kernel told of every connection exactly what its flags say: a
    call that fails changes nothing, and none touches another connection.
    For kqueue that holds while change[] has room for two entries per call,
    and of the table the next kevent will make of it.  The kernels are any
    that follow the manuals; the assertions of the back ends hold at every
    call. *)
Theorem back_ends_keep_watch (p : client) :
  (forall K (kernel : EpollKernel K) (laws : EpollLaws K) (s : evs (@epoll_base K)) n,
    respects (es_conns s) p -> fits n p -> own_sds (es_conns s) -> flags_ok (es_conns s) -> epoll_told s ->
    runs (makes p) s (fun log s' => es_conns s' = all_answered log (es_conns s) /\ flags_ok (es_conns s') /\ epoll_told s')) /\
  (forall K (kernel : KqKernel K) (s : evs (@kq_base K)) n,
    respects (es_conns s) p -> fits n p -> kq_room (es_base s) n -> own_sds (es_conns s) -> flags_ok (es_conns s) -> kq_told s ->
    runs (makes p) s (fun log s' => es_conns s' = all_answered log (es_conns s) /\ flags_ok (es_conns s') /\ kq_told s')) /\
  (forall K (kernel : PortKernel K) (laws : PortLaws K) (s : evs (@port_base K)) n,
    respects (es_conns s) p -> fits n p -> own_sds (es_conns s) -> flags_ok (es_conns s) -> port_told s ->
    runs (makes p) s (fun log s' => es_conns s' = all_answered log (es_conns s) /\ flags_ok (es_conns s') /\ port_told s')).
Proof.
  split_and!.
  - intros K kernel laws s n Hp Hn Ho Hf Ht. eapply runs_mono; [apply (makes_watched p n s Hp Hn); [done|by apply epoll_watched]|].
    intros log s' [E Hw]. by apply epoll_watched in Hw as (_ & ? & ?).
  - intros K kernel s n Hp Hn Hr Ho Hf Ht. eapply runs_mono; [apply (makes_watched p n s Hp Hn); [exact Hr|by apply kq_watched]|].
    intros log s' [E Hw]. by apply kq_watched in Hw as (_ & ? & ?).
  - intros K kernel laws s n Hp Hn Ho Hf Ht. eapply runs_mono; [apply (makes_watched p n s Hp Hn); [done|by apply port_watched]|].
    intros log s' [E Hw]. by apply port_watched in Hw as (_ & ? & ?).
Qed.

(** ** A client on the three systems

    A listener and a client, which is opened; when that worked it is written
    to and closed, else the listener is asked to be written to. *)
Definition open_write_close : client :=
  Make AddConn 2 (fun st => if st <? 0 then Make AddOut 1 (fun _ => Over) else
    Make DelOut 2 (fun _ => Make AddOut 2 (fun _ => Make AddOut 1 (fun _ => Make DelConn 2 (fun _ => Over))))).

Definition two_flags : gmap positive econn := <[1%positive := mk_econn 4 true false]> {[2%positive := mk_econn 5 false false]}.

Lemma answered_at o c st x cs : cs !! c = Some x -> answered (o, c) st cs = if st <? 0 then cs else <[c := called o x]> cs.
Proof. intros H. unfold answered. simpl. by rewrite H. Qed.

Ltac answer := cbn [respects]; split; [eexists; split; reflexivity|]; intros ?st;
  first [exact I | erewrite answered_at by reflexivity; match goal with |- context [if ?s <? 0 then _ else _] => destruct (s <? 0) end].

Lemma open_respects : respects two_flags open_write_close.
Proof. unfold open_write_close. repeat answer. Qed.

Lemma two_flags_own : own_sds two_flags /\ flags_ok two_flags.
Proof.
  split.
  - intros c c' x x' Hc Hc' He. unfold two_flags in Hc, Hc'. apply lookup_insert_Some in Hc as [[<- <-]|[_ Hc]]; apply lookup_insert_Some in Hc' as [[<- <-]|[_ Hc']];
      try apply lookup_singleton_Some in Hc as [<- <-]; try apply lookup_singleton_Some in Hc' as [<- <-]; done.
  - intros c x Hx. unfold two_flags in Hx. apply lookup_insert_Some in Hx as [[<- <-]|[_ Hx]]; [done|]. apply lookup_singleton_Some in Hx as [<- <-]. done.
Qed.

Definition on_epoll : evs (@epoll_base (gmap Z (Z * positive))) :=
  mk_evs (mk_epoll_base {[4 := (u32 (Z.lor EPOLLIN EPOLLET), 1%positive)]} 1024) two_flags.
Definition on_kqueue : evs (@kq_base (list kq_answer * kq_table)) :=
  mk_evs (mk_kq_base ([], fun key => if bool_decide (key = (4, EVFILT_READ)) then Some 1%positive else None) (replicate 16 kevent_zero) 0 (replicate 16 kevent_zero) 16 0 0) two_flags.
Definition on_ports : evs (@port_base (list getn_answer * gmap Z (Z * positive))) :=
  mk_evs (mk_port_base ([], {[4 := (POLLIN, 1%positive)]}) [] 1024) two_flags.

Ltac each_flag := intros c x Hx; change (two_flags !! c = Some x) in Hx; unfold two_flags in Hx; apply lookup_insert_Some in Hx as [[<- <-]|[_ Hx]]; [|apply lookup_singleton_Some in Hx as [<- <-]].

Lemma back_ends_keep_watch_witness :
  runs (makes open_write_close) on_epoll (fun log s' => es_conns s' = all_answered log two_flags /\ flags_ok (es_conns s') /\ epoll_told s') /\
  runs (makes open_write_close) on_kqueue (fun log s' => es_conns s' = all_answered log two_flags /\ flags_ok (es_conns s') /\ kq_told s') /\
  runs (makes open_write_close) on_ports (fun log s' => es_conns s' = all_answered log two_flags /\ flags_ok (es_conns s') /\ port_told s').
Proof.
  pose proof (back_ends_keep_watch open_write_close) as (He & Hk & Hp). destruct two_flags_own as [Ho Hf]. split; [|split].
  - apply (He _ _ table_laws on_epoll 5%nat); [exact open_respects|simpl; by intros st; destruct (st <? 0)|exact Ho|exact Hf|].
    each_flag; reflexivity.
  - apply (Hk _ _ on_kqueue 5%nat); [exact open_respects|simpl; by intros st; destruct (st <? 0)|vm_compute; split_and!; congruence|exact Ho|exact Hf|].
    each_flag; split; vm_compute; reflexivity.
  - apply (Hp _ _ script_port_laws on_ports 5%nat); [exact open_respects|simpl; by intros st; destruct (st <? 0)|exact Ho|exact Hf|].
    each_flag; [left; vm_compute; reflexivity|vm_compute; reflexivity].
Defined.
