(* ===== verification/Master.v ===== *)
(** The master process and its workers (core_master_loop of nc_core.c), the
    signals (nc_signal.c), the level of the log (nc_log.c) and the trace
    configuration of a worker (trace_conf.c).

    A process is what it has of the globals.  fork copies them; the values fork
    and wait return are the steps of the system. *)

From stdpp Require Import gmap.
From S2P Require Import Prelude.

(** ** The level of the log *)

Definition LOG_EMERG : Z := 0.
Definition LOG_PVERB : Z := 11.

Definition log_level_set (level : Z) : Z := Z.max LOG_EMERG (Z.min level LOG_PVERB).
Definition log_level_up (level : Z) : Z := if level <? LOG_PVERB then level + 1 else level.
Definition log_level_down (level : Z) : Z := if LOG_EMERG <? level then level - 1 else level.
Definition log_loggable (logger level : Z) : bool := negb (logger <? level).

(** ** The trace configuration *)

(** struct conf_trace_data; a name that was freed is NULL. *)
Record conf_trace_data := mk_trace { tr_dept_id : Z; tr_app_name : option (list Z); tr_log_filename : option (list Z); tr_room : option (list Z); tr_slow_threshold : Z }.

Definition free_trace_conf (conf : option conf_trace_data) : option conf_trace_data :=
  match conf with
  | None => None
  | Some c => Some (mk_trace (tr_dept_id c) None None None (tr_slow_threshold c))
  end.

(** The names are arrays of 100 bytes, cleared by calloc. *)
Definition TRACE_NAME_SIZE : Z := 100.

(** memcpy(conf->name, s, strlen(s)): behind the array it is undefined. *)
Definition copy_name (s : list Z) : option (list Z) :=
  if zlen s <=? TRACE_NAME_SIZE then Some (s ++ replicate (Z.to_nat (TRACE_NAME_SIZE - zlen s)) 0) else None.

(** An item of the JSON object that cJSON reads: valueint and valuestring. *)
Record json_item := mk_item { ji_int : Z; ji_string : list Z }.

(** What parse_trace_conf does: it faults, returns NULL or a configuration. *)
Inductive trace_result := TraceFault | TraceNull | TraceConf (c : conf_trace_data).

(** [json] is cJSON's object by its keys, none when the text is not JSON; the file
    can be read and there is memory. *)
Definition parse_trace_conf (json : option (list Z -> option json_item)) : trace_result :=
  match json with
  | None => TraceNull
  | Some item =>
      match item (bytes_of "dept_id") with
      | None => TraceNull
      | Some dept =>
          match item (bytes_of "app_name") with
          | None => TraceNull
          | Some app =>
              match copy_name (ji_string app) with
              | None => TraceFault
              | Some app_name =>
                  match item (bytes_of "log_filename") with
                  | None => TraceNull
                  | Some log =>
                      match copy_name (ji_string log) with
                      | None => TraceFault
                      | Some log_filename =>
                          match item (bytes_of "room") with
                          | None => TraceNull
                          | Some r =>
                              match copy_name (ji_string r) with
                              | None => TraceFault
                              | Some room =>
                                  match item (bytes_of "slow_threshold") with
                                  | None => TraceNull
                                  | Some slow => TraceConf (mk_trace (ji_int dept) (Some app_name) (Some log_filename) (Some room) (ji_int slow))
                                  end
                              end
                          end
                      end
                  end
              end
          end
      end
  end.

(** ** Processes *)

(** core_is_master, the pids of core_worker_list, nci->stats_port and
    trace_conf. *)
Record proc := mk_proc { pr_is_master : bool; pr_workers : list Z; pr_stats_port : Z; pr_trace : option conf_trace_data }.

(** What the workers are configured with: the number of workers, whether a
    trace configuration was named and what parsing it gives, and the
    environment type. *)
Class MasterEnv := { me_worker_num : nat; me_trace : option trace_result; me_environment_type : Z }.

Section Master.
Context `{env : MasterEnv}.

(** calloc(core_worker_num + 1, ...) *)
Definition master_start (stats_port : Z) : proc := mk_proc false (replicate (S me_worker_num) 0) stats_port None.

(** The assignments of core_master_loop, each by itself: a signal may come
    between any two of them.  core_is_master = 1 and core_worker_list[i].pid =
    pid in the master; core_is_master = 0 and nci->stats_port++ in the child. *)
Definition mark_master (p : proc) : proc := mk_proc true (pr_workers p) (pr_stats_port p) (pr_trace p).
Definition store_pid (i : nat) (pid : Z) (p : proc) : proc := mk_proc (pr_is_master p) (<[i := pid]> (pr_workers p)) (pr_stats_port p) (pr_trace p).
Definition clear_master (p : proc) : proc := mk_proc false (pr_workers p) (pr_stats_port p) (pr_trace p).
Definition count_port (p : proc) : proc := mk_proc (pr_is_master p) (pr_workers p) (u16 (pr_stats_port p + 1)) (pr_trace p).

(** What a worker of the first fork does before it serves. *)
Definition worker_setup (p : proc) : option proc :=
  match me_trace with
  | Some TraceFault => None
  | Some TraceNull => Some (mk_proc (pr_is_master p) (pr_workers p) (pr_stats_port p) None)
  | Some (TraceConf c) =>
      Some (mk_proc (pr_is_master p) (pr_workers p) (pr_stats_port p) (if me_environment_type =? 0 then free_trace_conf (Some c) else Some c))
  | None => Some (mk_proc (pr_is_master p) (pr_workers p) (pr_stats_port p) (if me_environment_type =? 0 then free_trace_conf (pr_trace p) else pr_trace p))
  end.

(** The loop over core_worker_list that puts a new pid in place of an old one. *)
Fixpoint replace_pid (pid new : Z) (l : list Z) : list Z :=
  match l with
  | [] => []
  | x :: l => if x =? pid then new :: l else x :: replace_pid pid new l
  end.

Definition update_list (pid new : Z) (p : proc) : proc :=
  mk_proc (pr_is_master p) (replace_pid pid new (pr_workers p)) (pr_stats_port p) (pr_trace p).

(** ** Signals *)

Inductive signal := SIGUSR1 | SIGUSR2 | SIGTTIN | SIGTTOU | SIGHUP | SIGINT | SIGSEGV | SIGTERM.
Inductive sig_action := NoAction | LogLevelUp | LogLevelDown | LogReopen.

(** What signal_handler does: the pids it sends SIGTERM to, the action on the
    log, whether the process exits and whether it raises the signal again. *)
Record sig_effect := mk_effect { sg_kills : list Z; sg_action : sig_action; sg_exits : bool; sg_raises : bool }.

Definition signal_handler (signo : signal) (p : proc) : sig_effect :=
  match signo with
  | SIGUSR1 | SIGUSR2 => mk_effect [] NoAction false false
  | SIGTTIN => mk_effect [] LogLevelUp false false
  | SIGTTOU => mk_effect [] LogLevelDown false false
  | SIGHUP => mk_effect [] LogReopen false false
  | SIGINT => mk_effect [] NoAction true false
  | SIGSEGV => mk_effect [] NoAction false true
  | SIGTERM => mk_effect (if pr_is_master p && (1 <? Z.of_nat me_worker_num) then take (S me_worker_num) (pr_workers p) else []) NoAction true false
  end.

(** ** The system *)

(** Where the master is in core_master_loop: at the fork of turn [i]; fork has
    returned a pid, core_is_master is not set yet; it is, the list is not
    written yet; at wait; wait has returned a pid; fork has returned a new one
    and the list still has the old; after exit(1). *)
Inductive mpoint :=
  | AtFork (i : nat) | Forked (i : nat) (pid : Z) | Marked (i : nat) (pid : Z)
  | AtWait | Reaped (pid : Z) | Reforked (pid new : Z) | Exited.

(** Where a worker is: as fork left it; core_is_master is 0; the port is
    counted; serving; or forked in the place of another, which leaves the loop
    as it is. *)
Inductive wpoint := WForked | WCleared | WCounted | WServing | WRespawned.

(** The master, the workers that run by their pids, and those that ended and
    were not waited for. *)
Record sys := mk_sys { sy_point : mpoint; sy_master : proc; sy_workers : gmap Z (wpoint * proc); sy_ended : list Z }.

Definition sys_start (port : Z) : sys := mk_sys (AtFork 0) (master_start port) ∅ [].

(** A pid fork may return: of no process that runs or was not waited for. *)
Definition fresh_pid (pid : Z) (s : sys) : Prop := 0 < pid /\ sy_workers s !! pid = None /\ pid ∉ sy_ended s.

(** A statement of one of the processes, what fork and wait return, or the end
    of a worker; set_timmer, where there is an etcd file, succeeds. *)
Inductive sys_step : sys -> sys -> Prop :=
  | step_fork i pid m ws es : (i < me_worker_num)%nat -> fresh_pid pid (mk_sys (AtFork i) m ws es) ->
      sys_step (mk_sys (AtFork i) m ws es) (mk_sys (Forked i pid) m (<[pid := (WForked, m)]> ws) es)
  | step_fork_fails i m ws es : (i < me_worker_num)%nat -> sys_step (mk_sys (AtFork i) m ws es) (mk_sys Exited m ws es)
  | step_mark i pid m ws es : sys_step (mk_sys (Forked i pid) m ws es) (mk_sys (Marked i pid) (mark_master m) ws es)
  | step_store i pid m ws es : sys_step (mk_sys (Marked i pid) m ws es) (mk_sys (AtFork (S i)) (store_pid i pid m) ws es)
  | step_loop m ws es : pr_is_master m = true -> sys_step (mk_sys (AtFork me_worker_num) m ws es) (mk_sys AtWait m ws es)
  | step_wait pid m ws es es' : es ≡ₚ pid :: es' -> sys_step (mk_sys AtWait m ws es) (mk_sys (Reaped pid) m ws es')
  | step_refork pid new m ws es : fresh_pid new (mk_sys (Reaped pid) m ws es) ->
      sys_step (mk_sys (Reaped pid) m ws es) (mk_sys (Reforked pid new) m (<[new := (WRespawned, m)]> ws) es)
  | step_refork_fails pid m ws es : sys_step (mk_sys (Reaped pid) m ws es) (mk_sys AtWait m ws es)
  | step_update pid new m ws es : sys_step (mk_sys (Reforked pid new) m ws es) (mk_sys AtWait (update_list pid new m) ws es)
  | step_clear pid p pt m ws es : ws !! pid = Some (WForked, p) ->
      sys_step (mk_sys pt m ws es) (mk_sys pt m (<[pid := (WCleared, clear_master p)]> ws) es)
  | step_count pid p pt m ws es : ws !! pid = Some (WCleared, p) ->
      sys_step (mk_sys pt m ws es) (mk_sys pt m (<[pid := (WCounted, count_port p)]> ws) es)
  | step_setup pid p p' pt m ws es : ws !! pid = Some (WCounted, p) -> worker_setup p = Some p' ->
      sys_step (mk_sys pt m ws es) (mk_sys pt m (<[pid := (WServing, p')]> ws) es)
  | step_end pid w pt m ws es : ws !! pid = Some w -> sys_step (mk_sys pt m ws es) (mk_sys pt m (delete pid ws) (pid :: es)).

Inductive reachable (port : Z) : sys -> Prop :=
  | reach_start : reachable port (sys_start port)
  | reach_step s s' : reachable port s -> sys_step s s' -> reachable port s'.

(** The worker the master has forked and not yet written into its list. *)
Definition just_forked (s : sys) : option Z :=
  match sy_point s with Forked _ pid | Marked _ pid => Some pid | Reforked _ new => Some new | _ => None end.

(** The processes of the system that SIGTERM to [p] is passed on to: those of
    its list, and all of them when it signals the process group 0, which no
    process leaves. *)
Definition passes_to (p : proc) (pid : Z) : Prop :=
  pid ∈ sg_kills (signal_handler SIGTERM p) \/ 0 ∈ sg_kills (signal_handler SIGTERM p).
End Master.

(** ** What the master knows *)

Lemma replace_pid_app pid new l1 l2 : pid ∈ l1 -> replace_pid pid new (l1 ++ l2) = replace_pid pid new l1 ++ l2.
Proof. induction l1 as [|x l1 IH]; intros Hin; [by apply not_elem_of_nil in Hin|]. simpl. destruct (x =? pid) eqn:E; [done|]. apply elem_of_cons in Hin as [->|Hin]; [lia|]. by rewrite IH. Qed.

Lemma replace_pid_in pid new l x : x ∈ replace_pid pid new l -> x = new \/ x ∈ l.
Proof. induction l as [|y l IH]; simpl; [tauto|]. destruct (y =? pid); rewrite !elem_of_cons; tauto. Qed.

Lemma replace_pid_keeps pid new l x : x ∈ l -> x <> pid -> x ∈ replace_pid pid new l.
Proof. induction l as [|y l IH]; intros Hin Hne; [done|]. simpl. apply elem_of_cons in Hin as [->|Hin]; destruct (y =? pid) eqn:E; rewrite elem_of_cons; try (right; by auto); [lia|by left]. Qed.

Lemma replace_pid_has pid new l : pid ∈ l -> new ∈ replace_pid pid new l.
Proof. induction l as [|y l IH]; intros Hin; [by apply not_elem_of_nil in Hin|]. simpl. destruct (y =? pid) eqn:E; [by left|]. right. apply IH. apply elem_of_cons in Hin as [->|]; [lia|done]. Qed.

Lemma length_replace_pid pid new l : length (replace_pid pid new l) = length l.
Proof. induction l as [|y l IH]; [done|]. simpl. destruct (y =? pid); simpl; by rewrite ?IH. Qed.

Section Facts.
Context `{env : MasterEnv}.

(** A list with the slot that is left over. *)
Definition slots (p : proc) (l : list Z) : Prop := pr_workers p = l ++ [0] /\ length l = me_worker_num.
Definition has_slots (p : proc) : Prop := exists l, slots p l.

(** What a worker has, by where it is. *)
Definition worker_ok (port : Z) (w : wpoint * proc) : Prop :=
  has_slots w.2 /\
  match w.1 with
  | WForked => pr_stats_port w.2 = port
  | WCleared => pr_is_master w.2 = false /\ pr_stats_port w.2 = port
  | WCounted | WServing => pr_is_master w.2 = false /\ pr_stats_port w.2 = u16 (port + 1)
  | WRespawned => pr_is_master w.2 = true /\ pr_stats_port w.2 = port /\ pr_trace w.2 = None
  end.

(** The pids the list is to have: of workers that run, or ended and were not
    waited for, or are about to be replaced. *)
Definition owed (s : sys) (pid : Z) : Prop :=
  is_Some (sy_workers s !! pid) \/ pid ∈ sy_ended s \/
  match sy_point s with Reaped q | Reforked q _ => pid = q | _ => False end.

(** Where the master is and its list: the slots are filled in order while it
    forks, and all are filled afterwards. *)
Definition point_ok (s : sys) (l : list Z) : Prop :=
  match sy_point s with
  | AtFork i => (i <= me_worker_num)%nat /\ (pr_is_master (sy_master s) = true \/ i = 0%nat) /\ drop i l = replicate (me_worker_num - i) 0
  | Forked i pid => (i < me_worker_num)%nat /\ (pr_is_master (sy_master s) = true \/ i = 0%nat) /\ drop i l = replicate (me_worker_num - i) 0 /\ 0 < pid
  | Marked i pid => (i < me_worker_num)%nat /\ pr_is_master (sy_master s) = true /\ drop i l = replicate (me_worker_num - i) 0 /\ 0 < pid
  | AtWait => pr_is_master (sy_master s) = true
  | Reaped q => pr_is_master (sy_master s) = true /\ q ∈ l
  | Reforked q new => pr_is_master (sy_master s) = true /\ q ∈ l /\ 0 < new
  | Exited => True
  end.

(** The pids are of one process each. *)
Definition pids_ok (s : sys) : Prop :=
  NoDup (sy_ended s) /\ (forall pid, is_Some (sy_workers s !! pid) -> pid ∉ sy_ended s) /\
  match sy_point s with
  | Reaped q => sy_workers s !! q = None /\ q ∉ sy_ended s
  | Reforked q new => is_Some (sy_workers s !! q) \/ q ∈ sy_ended s -> q = new
  | _ => True
  end.

Record sys_ok (port : Z) (s : sys) : Prop := {
  so_master : pr_stats_port (sy_master s) = port /\ pr_trace (sy_master s) = None;
  so_list : exists l, slots (sy_master s) l /\ point_ok s l /\ forall pid, owed s pid -> 0 < pid /\ (pid ∈ l \/ just_forked s = Some pid);
  so_pids : pids_ok s;
  so_workers : map_Forall (fun _ w => worker_ok port w) (sy_workers s)
}.

Lemma setup_flags p w : worker_setup p = Some w -> pr_is_master w = pr_is_master p /\ pr_stats_port w = pr_stats_port p /\ pr_workers w = pr_workers p.
Proof. unfold worker_setup. destruct me_trace as [[| |c]|]; intros E; try done; injection E as <-; done. Qed.

Lemma insert_keeps (l : list Z) i x y : l !! i = Some 0 -> y ∈ l -> y <> 0 -> y ∈ <[i := x]> l.
Proof.
  intros Hi [j Hj]%list_elem_of_lookup_1 Hne. apply (list_elem_of_lookup_2 _ j). rewrite list_lookup_insert_ne; [done|]. intros ->. congruence.
Qed.

Lemma zero_slot (l : list Z) i n : drop i l = replicate (n - i) 0 -> (i < n)%nat -> l !! i = Some 0.
Proof. intros E Hi. rewrite <- (Nat.add_0_r i), <- lookup_drop, E. apply lookup_replicate_2. lia. Qed.

(** A worker at a new point of its own. *)
Lemma worker_ok_step port s pid w w' :
  sys_ok port s -> sy_workers s !! pid = Some w -> (worker_ok port w -> worker_ok port w') ->
  sys_ok port (mk_sys (sy_point s) (sy_master s) (<[pid := w']> (sy_workers s)) (sy_ended s)).
Proof.
  intros [Hm (l & Hl & Hp & Ho) (P1 & P2 & P3) Hw] Hx Hok.
  assert (Hs : forall q, is_Some (<[pid := w']> (sy_workers s) !! q) -> is_Some (sy_workers s !! q)).
  { intros q. destruct (decide (q = pid)) as [->|Hne]; [rewrite Hx; by eexists|by rewrite lookup_insert_ne]. }
  split; simpl; [done| | |].
  - exists l. split_and!; [done|done|]. intros q Hq. apply Ho. destruct Hq as [Hq|Hq]; [left; by apply Hs|by right].
  - split_and!; simpl; [done|intros q Hq; by apply P2, Hs|]. destruct (sy_point s); try done.
    + destruct P3 as [P3 P4]. split; [|done]. apply eq_None_not_Some. intros Hq%Hs. rewrite P3 in Hq. by destruct Hq.
    + intros [Hq|Hq]; apply P3; [left; by apply Hs|by right].
  - apply map_Forall_insert_2; [|done]. apply Hok. by apply (Hw pid w).
Qed.

Lemma end_ok port s pid w :
  sys_ok port s -> sy_workers s !! pid = Some w ->
  sys_ok port (mk_sys (sy_point s) (sy_master s) (delete pid (sy_workers s)) (pid :: sy_ended s)).
Proof.
  intros [Hm (l & Hl & Hp & Ho) (P1 & P2 & P3) Hw] Hx.
  assert (Hs : forall q, is_Some (delete pid (sy_workers s) !! q) -> is_Some (sy_workers s !! q) /\ q <> pid).
  { intros q [x Hq]. apply lookup_delete_Some in Hq as [Hne Hq]. split; [by eexists|done]. }
  assert (Hi : is_Some (sy_workers s !! pid)) by (by eexists).
  split; simpl; [done| | |].
  - exists l. split_and!; [done|done|]. intros q Hq. apply Ho. destruct Hq as [Hq|[Hq|Hq]]; simpl in Hq; [left; by apply Hs| |by right; right].
    apply elem_of_cons in Hq as [->|Hq]; [by left|by right; left].
  - split_and!; simpl.
    + apply list.NoDup_cons. split; [by apply P2|done].
    + intros q [Hq Hne]%Hs Hin. apply elem_of_cons in Hin as [->|Hin]; [done|]. by apply (P2 q).
    + destruct (sy_point s); try done.
      * destruct P3 as [P3 P4]. split; [by rewrite lookup_delete_None; right|]. intros Hin. apply elem_of_cons in Hin as [->|Hin]; [|done]. congruence.
      * intros [Hq|Hq]; apply P3; [left; by apply Hs|]. apply elem_of_cons in Hq as [->|Hq]; [by left|by right].
  - intros q x Hq. apply lookup_delete_Some in Hq as [_ Hq]. by apply (Hw q).
Qed.

(** A fork: the new process has the globals of the master. *)
Lemma fork_ok port pt pt' m ws es pid wp :
  sys_ok port (mk_sys pt m ws es) -> fresh_pid pid (mk_sys pt m ws es) ->
  (forall l, point_ok (mk_sys pt m ws es) l -> point_ok (mk_sys pt' m (<[pid := (wp, m)]> ws) es) l) ->
  just_forked (mk_sys pt' m (<[pid := (wp, m)]> ws) es) = Some pid -> just_forked (mk_sys pt m ws es) = None ->
  (forall q, owed (mk_sys pt' m (<[pid := (wp, m)]> ws) es) q -> q = pid \/ owed (mk_sys pt m ws es) q) ->
  (pids_ok (mk_sys pt m ws es) -> match pt' with Reaped _ => False | Reforked q new => is_Some (<[pid := (wp, m)]> ws !! q) \/ q ∈ es -> q = new | _ => True end) ->
  (pr_stats_port m = port -> pr_trace m = None -> has_slots m -> worker_ok port (wp, m)) ->
  sys_ok port (mk_sys pt' m (<[pid := (wp, m)]> ws) es).
Proof.
  intros [Hm (l & Hl & Hp & Ho) HP Hw] (F1 & F2 & F3) Hpt Hj Hj0 How Hpp Hwok. pose proof HP as (P1 & P2 & _). simpl in *.
  split; simpl; [done| | |].
  - exists l. split_and!; [done|by apply Hpt|]. intros q Hq. rewrite Hj. destruct (How q Hq) as [->|Hq']; [split; [done|by right]|].
    destruct (Ho q Hq') as [H1 [H2|H2]]; [split; [done|by left]|by rewrite Hj0 in H2].
  - split_and!; simpl; [done| |specialize (Hpp HP); by destruct pt'].
    intros q [x Hq]. apply lookup_insert_Some in Hq as [[<- _]|[_ Hq]]; [done|]. apply P2. by eexists.
  - apply map_Forall_insert_2; [|done]. apply Hwok; [apply Hm|apply Hm|by exists l].
Qed.

Lemma start_ok port : sys_ok port (sys_start port).
Proof.
  split; simpl; [done| | |apply map_Forall_empty].
  - exists (replicate me_worker_num 0). split_and!; [split; simpl; [|by rewrite length_replicate]|split_and!; simpl; [lia|by right|by rewrite drop_0, Nat.sub_0_r]|].
    + change (0 :: replicate me_worker_num 0) with (replicate (S me_worker_num) 0). by rewrite <- Nat.add_1_r, replicate_add.
    + intros pid [[x Hx]|[Hx|[]]]; simpl in Hx; [by rewrite lookup_empty in Hx|by apply not_elem_of_nil in Hx].
  - split_and!; simpl; [constructor|intros pid [x Hx]; by rewrite lookup_empty in Hx|done].
Qed.

Lemma store_ok port i pid m ws es : sys_ok port (mk_sys (Marked i pid) m ws es) -> sys_ok port (mk_sys (AtFork (S i)) (store_pid i pid m) ws es).
Proof.
  intros [Hm (l & [Hl Hlen] & Hp & Ho) HP Hw]. simpl in Hp. destruct Hp as (Hi & Hma & Hz & Hpos). pose proof (zero_slot _ _ _ Hz Hi) as H0.
  split; simpl; [done| | |done].
  - exists (<[i := pid]> l). split_and!; [split; simpl; [simpl in Hl; rewrite Hl, insert_app_l by lia; done|by rewrite length_insert]| |].
    + split_and!; simpl; [lia|by left|]. rewrite drop_insert_lt by lia. rewrite <- Nat.add_1_r, <- drop_drop, Hz, drop_replicate. f_equal. lia.
    + intros q Hq. destruct (Ho q) as [H1 [H2|H2]]; [by destruct Hq as [?|[?|[]]]; [left|right; left]| |].
      * split; [done|]. left. apply insert_keeps; [done|done|lia].
      * simpl in H2. injection H2 as <-. split; [done|]. left. apply (list_elem_of_lookup_2 _ i). apply list_lookup_insert_eq. lia.
  - done.
Qed.

Lemma update_ok port pid new m ws es : sys_ok port (mk_sys (Reforked pid new) m ws es) -> sys_ok port (mk_sys AtWait (update_list pid new m) ws es).
Proof.
  intros [Hm (l & [Hl Hlen] & (Hma & Hin & Hnew) & Ho) (P1 & P2 & P3) Hw]. simpl in *. split; simpl; [done| |done|done].
  exists (replace_pid pid new l). split_and!; [split; simpl; [by rewrite Hl, replace_pid_app|by rewrite length_replace_pid]|done|].
  intros q Hq. assert (Hq' : is_Some (ws !! q) \/ q ∈ es) by (destruct Hq as [?|[?|[]]]; [by left|by right]).
  destruct (Ho q) as [H1 H2]; [destruct Hq' as [?|?]; [by left|by right; left]|]. split; [done|]. left.
  destruct (decide (q = new)) as [->|Hne]; [by apply replace_pid_has|]. destruct H2 as [H2|[= ->]]; [|done].
  apply replace_pid_keeps; [done|]. intros ->. by apply Hne, P3.
Qed.

Lemma wait_ok port pid m ws es es' : es ≡ₚ pid :: es' -> sys_ok port (mk_sys AtWait m ws es) -> sys_ok port (mk_sys (Reaped pid) m ws es').
Proof.
  intros He [Hm (l & Hl & Hma & Ho) (P1 & P2 & _) Hw]. simpl in *. rewrite He in P1. apply list.NoDup_cons in P1 as [Hn P1].
  assert (Hsome : forall q, owed (mk_sys (Reaped pid) m ws es') q -> owed (mk_sys AtWait m ws es) q).
  { intros q [H|[H|H]]; simpl in H; [by left| |]; right; left; simpl; rewrite He; [by right|subst; by left]. }
  split; simpl; [done| | |done].
  - exists l. split_and!; [done| |intros q Hq; by apply Ho, Hsome]. split; [done|].
    destruct (Ho pid) as [_ [H|H]]; [apply Hsome; by right; right|done|done].
  - split_and!; simpl; [done|intros q Hq Hin; apply (P2 q Hq); rewrite He; by right|]. split; [|done].
    apply eq_None_not_Some. intros Hq. apply (P2 pid Hq). rewrite He. by left.
Qed.

(** The master goes on without a change of what is owed. *)
Lemma move_ok port pt pt' m m' ws es :
  sys_ok port (mk_sys pt m ws es) -> pr_workers m' = pr_workers m -> pr_stats_port m' = pr_stats_port m -> pr_trace m' = pr_trace m ->
  (forall l, point_ok (mk_sys pt m ws es) l -> point_ok (mk_sys pt' m' ws es) l) ->
  just_forked (mk_sys pt' m' ws es) = just_forked (mk_sys pt m ws es) ->
  match pt' with Reaped _ | Reforked _ _ => False | _ => True end ->
  sys_ok port (mk_sys pt' m' ws es).
Proof.
  intros [Hm (l & [Hl Hlen] & Hp & Ho) (P1 & P2 & _) Hw] E1 E2 E3 Hpt Hj Hpt'. simpl in *. split; simpl; [by rewrite E2, E3| | |done].
  - exists l. split_and!; [split; [by simpl; rewrite E1|done]|by apply Hpt|]. intros q Hq. rewrite Hj. apply Ho.
    destruct Hq as [?|[?|Hq]]; [by left|by right; left|]. simpl in Hq. by destruct pt'.
  - split_and!; [done|done|]. by destruct pt'.
Qed.

Lemma step_ok port s s' : sys_step s s' -> sys_ok port s -> sys_ok port s'.
Proof.
  intros Hs Hok. destruct Hs as [i pid m ws es Hi Hf|i m ws es Hi|i pid m ws es|i pid m ws es|m ws es Hm|pid m ws es es' He|pid new m ws es Hf|pid m ws es|pid new m ws es
    |pid p pt m ws es Hx|pid p pt m ws es Hx|pid p p' pt m ws es Hx Hset|pid w pt m ws es Hx].
  - pose proof (proj1 Hf). apply (fork_ok port (AtFork i)); try done; [intros l (H1 & H2 & H3); by split_and!|].
    intros q [[x Hq]|[Hq|[]]]; simpl in Hq; [|by right; right; left]. apply lookup_insert_Some in Hq as [[<- _]|[_ Hq]]; [by left|]. right. left. by eexists.
  - eapply move_ok; [exact Hok|done..].
  - eapply move_ok; [exact Hok|try done..]. intros l (H1 & _ & H3 & H4). by split_and!.
  - by apply store_ok.
  - eapply move_ok; [exact Hok|try done..].
  - by eapply wait_ok.
  - pose proof (proj1 Hf). destruct (so_list _ _ Hok) as (l0 & _ & [Hma _] & _). simpl in Hma.
    apply (fork_ok port (Reaped pid)); try done; [intros l [H1 H2]; by split_and!| |].
    + intros q [[x Hq]|[Hq|Hq]]; simpl in Hq; [|by right; right; left|by right; right; right]. apply lookup_insert_Some in Hq as [[<- _]|[_ Hq]]; [by left|]. right. left. by eexists.
    + intros (_ & _ & P3 & P4). simpl in P3, P4. intros [[x Hq]|Hq]; [|done]. apply lookup_insert_Some in Hq as [[<- _]|[_ Hq]]; [done|congruence].
  - eapply move_ok; [exact Hok|try done..]. by intros l [H _].
  - by apply update_ok.
  - apply (worker_ok_step port (mk_sys pt m ws es) pid (WForked, p)); [done|done|]. intros [H1 H2]. by split.
  - apply (worker_ok_step port (mk_sys pt m ws es) pid (WCleared, p)); [done|done|]. intros [H1 [H2 H3]]. simpl in *. split; [done|]. simpl. by rewrite H3.
  - apply (worker_ok_step port (mk_sys pt m ws es) pid (WCounted, p)); [done|done|]. intros [[l [H0 Hl]] [H2 H3]]. simpl in *. apply setup_flags in Hset as (E1 & E2 & E3).
    split; simpl; [exists l; split; [congruence|done]|split; congruence].
  - by apply (end_ok port (mk_sys pt m ws es) pid w).
Qed.

Lemma reachable_ok port s : reachable port s -> sys_ok port s.
Proof. induction 1 as [|s s' _ IH Hs]; [apply start_ok|by eapply step_ok]. Qed.

Lemma slots_kills p l : (1 < me_worker_num)%nat -> slots p l -> sg_kills (signal_handler SIGTERM p) = if pr_is_master p then l ++ [0] else [].
Proof. intros Hn [Hl Hlen]. simpl. rewrite Hl. replace (1 <? Z.of_nat me_worker_num) with true by lia. destruct (pr_is_master p); [|done]. simpl. apply take_ge. rewrite length_app. simpl. lia. Qed.

(** C15. Whatever workers end and are forked again, and whatever forks fail, with
    signals between any two statements: once core_is_master is set, the master has
    the pid of every worker in its list but for the one it has just forked and not
    written there yet, so its SIGTERM handler signals all of them; while it waits
    there is no such exception.  The workers of the first fork, once they have
    cleared core_is_master, signal nobody and all have the port after the one
    configured for the statistics, those that were forked again have the
    configured one.  The list has a slot more than there are workers, which stays
    0: the handler also signals 0, the whole process group. *)
Theorem master_signals_workers (port : Z) (s : sys) : (1 < me_worker_num)%nat -> reachable port s ->
  let kills := sg_kills (signal_handler SIGTERM (sy_master s)) in
  (sy_point s = AtWait -> pr_is_master (sy_master s) = true /\ just_forked s = None) /\
  (pr_is_master (sy_master s) = true -> 0 ∈ kills) /\
  map_Forall (fun pid w => 0 < pid /\ (pr_is_master (sy_master s) = true -> just_forked s <> Some pid -> pid ∈ kills) /\
    match w.1 with
    | WForked => pr_stats_port w.2 = port
    | WCleared => pr_is_master w.2 = false /\ sg_kills (signal_handler SIGTERM w.2) = [] /\ pr_stats_port w.2 = port
    | WCounted | WServing => pr_is_master w.2 = false /\ sg_kills (signal_handler SIGTERM w.2) = [] /\ pr_stats_port w.2 = u16 (port + 1)
    | WRespawned => pr_is_master w.2 = true /\ pr_stats_port w.2 = port
    end) (sy_workers s).
Proof.
  intros Hn Hr kills. destruct (reachable_ok port s Hr) as [_ (l & Hl & Hp & Ho) _ Hw]. unfold kills. rewrite (slots_kills _ l Hn Hl). split_and!.
  - intros E. unfold point_ok, just_forked in *. by rewrite E in *.
  - intros ->. apply elem_of_app. right. by left.
  - intros pid w Hx. destruct (Ho pid) as [H1 H2]; [left; by eexists|]. split_and!; [done| |].
    + intros -> Hj. apply elem_of_app. left. by destruct H2.
    + destruct (Hw pid w Hx) as [[lw Hlw] Hwp]. rewrite (slots_kills _ lw Hn Hlw). destruct w.1; [done|by destruct Hwp as [-> ?]..|by destruct Hwp as (? & ? & _)].
Qed.
(** C40. A worker that was forked in the place of another keeps core_is_master and
    the list of its master for as long as it runs: SIGTERM to it alone is passed on
    to one pid per slot of the list it was forked with and to the process group 0,
    so to every worker that runs then, those forked later too; and it serves
    without a trace configuration.  SIGTERM to a worker of the first fork that has
    cleared core_is_master is passed on to nobody. *)
Theorem respawned_worker_signals_others (port : Z) (s : sys) (pid : Z) (at_ : wpoint) (p : proc) : (1 < me_worker_num)%nat -> reachable port s ->
  sy_workers s !! pid = Some (at_, p) ->
  match at_ with
  | WRespawned => pr_trace p = None /\ (exists l, length l = me_worker_num /\ sg_kills (signal_handler SIGTERM p) = l ++ [0]) /\
      forall q, is_Some (sy_workers s !! q) -> passes_to p q
  | WForked => True
  | WCleared | WCounted | WServing => forall q, ~ passes_to p q
  end.
Proof.
  intros Hn Hr Hx. destruct (so_workers _ _ (reachable_ok port s Hr) pid _ Hx) as [[l Hl] Hp]. simpl in Hl, Hp.
  pose proof (slots_kills p l Hn Hl) as Hk. destruct at_; [done|by destruct Hp as [E _]; rewrite E in Hk; intros q; unfold passes_to; rewrite Hk, elem_of_nil, elem_of_nil; intros [?|?]..|].
  destruct Hp as (E & _ & Ht). rewrite E in Hk. split_and!; [done|exists l; by split; [apply Hl|]|].
  intros q _. right. rewrite Hk. apply elem_of_app. right. by left.
Qed.
End Facts.

(** ** Two workers, one of which is forked again *)

#[export] Instance two_workers : MasterEnv := {| me_worker_num := 2; me_trace := None; me_environment_type := 1 |}.

Definition second_worker : proc := mk_proc true [101; 0; 0] 22222 None.
Definition serving_worker : proc := mk_proc false [101; 0; 0] 22223 None.
Definition respawned_worker : proc := mk_proc true [101; 102; 0] 22222 None.

(** 101 and 102 are forked, 102 begins to serve; 101 ends and 103 is forked in
    its place. *)
Definition two_forked : sys := mk_sys AtWait respawned_worker (<[102 := (WServing, serving_worker)]> {[101 := (WForked, master_start 22222)]}) [].
Definition one_respawned : sys := mk_sys AtWait (mk_proc true [103; 102; 0] 22222 None)
  (<[103 := (WRespawned, respawned_worker)]> (<[102 := (WServing, serving_worker)]> ∅)) [].

Lemma two_forked_reachable : reachable 22222 two_forked.
Proof.
  set (w1 := {[101 := (WForked, master_start 22222)]} : gmap Z (wpoint * proc)).
  assert (R1 : reachable 22222 (mk_sys (AtFork 1) second_worker w1 [])).
  { eapply reach_step; [eapply reach_step; [eapply reach_step; [apply reach_start|]|]|].
    - apply (step_fork 0 101); [simpl; lia|]. split_and!; [done|apply lookup_empty|apply not_elem_of_nil].
    - apply step_mark.
    - apply (step_store 0 101). }
  assert (R2 : reachable 22222 (mk_sys AtWait respawned_worker (<[102 := (WForked, second_worker)]> w1) [])).
  { eapply reach_step; [eapply reach_step; [eapply reach_step; [eapply reach_step; [exact R1|]|]|]|].
    - apply (step_fork 1 102); [simpl; lia|]. split_and!; [done|by apply lookup_singleton_ne|apply not_elem_of_nil].
    - apply step_mark.
    - apply (step_store 1 102).
    - change (store_pid 1 102 (mark_master second_worker)) with respawned_worker. change (AtFork 2) with (AtFork (@me_worker_num two_workers)). by apply step_loop. }
  eapply reach_step; [eapply reach_step; [eapply reach_step; [exact R2|]|]|].
  - apply (step_clear 102); apply lookup_insert_eq.
  - apply (step_count 102); apply lookup_insert_eq.
  - rewrite !insert_insert_eq. unfold two_forked. rewrite <- (insert_insert_eq w1 102 (WServing, serving_worker) (WCounted, serving_worker)).
    by apply (step_setup 102 serving_worker); [apply lookup_insert_eq|].
Qed.

Lemma one_respawned_reachable : reachable 22222 one_respawned.
Proof.
  assert (R1 : reachable 22222 (mk_sys (Reaped 101) respawned_worker (<[102 := (WServing, serving_worker)]> ∅) [])).
  { eapply reach_step; [eapply reach_step; [exact two_forked_reachable|]|].
    - by apply (step_end 101 (WForked, master_start 22222)).
    - replace (delete 101 _) with (<[102 := (WServing, serving_worker)]> ∅ : gmap Z (wpoint * proc)) by (by rewrite delete_insert_ne, delete_singleton_eq).
      by apply (step_wait 101 _ _ [101] []). }
  eapply reach_step; [eapply reach_step; [exact R1|]|].
  - apply (step_refork 101 103). split_and!; [done|done|apply not_elem_of_nil].
  - apply (step_update 101 103).
Qed.

Lemma master_signals_workers_witness :
  sg_kills (signal_handler SIGTERM (sy_master one_respawned)) = [103; 102; 0] /\ 0 ∈ [103; 102; 0] /\ 102 ∈ [103; 102; 0] /\ 103 ∈ [103; 102; 0] /\
  sg_kills (signal_handler SIGTERM serving_worker) = [] /\ pr_stats_port serving_worker = u16 (22222 + 1).
Proof.
  destruct (master_signals_workers 22222 one_respawned) as (H1 & H2 & H3); [apply Nat.leb_le; reflexivity|apply one_respawned_reachable|].
  destruct (H1 eq_refl) as [Hm _]. pose proof (H3 102 (WServing, serving_worker) eq_refl) as (_ & A & _ & B & C).
  pose proof (H3 103 (WRespawned, respawned_worker) eq_refl) as (_ & D & _).
  split_and!; [reflexivity|apply (H2 Hm)|apply (A Hm); discriminate|apply (D Hm); discriminate|exact B|exact C].
Defined.

Lemma respawned_worker_signals_others_witness :
  sg_kills (signal_handler SIGTERM respawned_worker) = [101; 102; 0] /\ pr_trace respawned_worker = None /\ passes_to respawned_worker 102 /\ passes_to respawned_worker 103.
Proof.
  destruct (respawned_worker_signals_others 22222 one_respawned 103 WRespawned respawned_worker) as (H1 & _ & H3); [apply Nat.leb_le; reflexivity|apply one_respawned_reachable|reflexivity|].
  split_and!; [reflexivity|exact H1|apply H3; by eexists|apply H3; by eexists].
Defined.

(** ** The level of the log and the names of the trace configuration *)

(** The level stays within its range, up and down undo each other inside of it,
    and a higher level logs what a lower one does. *)
Theorem log_level_range (level : Z) : LOG_EMERG <= level <= LOG_PVERB ->
  LOG_EMERG <= log_level_up level <= LOG_PVERB /\ LOG_EMERG <= log_level_down level <= LOG_PVERB /\
  (level < LOG_PVERB -> log_level_down (log_level_up level) = level) /\ (LOG_EMERG < level -> log_level_up (log_level_down level) = level) /\
  (forall x, log_loggable level x = true -> log_loggable (log_level_up level) x = true).
Proof.
  unfold log_level_up, log_level_down, log_loggable, LOG_EMERG, LOG_PVERB. intros H. repeat split; intros; repeat case_match; lia.
Qed.

(** parse_trace_conf writes behind an array exactly if a name it gets to is
    longer than 100 bytes. *)
Theorem parse_trace_conf_overruns (item : list Z -> option json_item) dept app log room : item (bytes_of "dept_id") = Some dept -> item (bytes_of "app_name") = Some app ->
  item (bytes_of "log_filename") = Some log -> item (bytes_of "room") = Some room ->
  parse_trace_conf (Some item) = TraceFault <-> TRACE_NAME_SIZE < zlen (ji_string app) \/ TRACE_NAME_SIZE < zlen (ji_string log) \/ TRACE_NAME_SIZE < zlen (ji_string room).
Proof.
  intros H1 H2 H3 H4. unfold parse_trace_conf. rewrite H1, H2, H3, H4. unfold copy_name.
  destruct (zlen (ji_string app) <=? _) eqn:E1; [|split; [intros _; lia|done]]. destruct (zlen (ji_string log) <=? _) eqn:E2; [|split; [intros _; lia|done]]. destruct (zlen (ji_string room) <=? _) eqn:E3; [|split; [intros _; lia|done]].
  destruct (item (bytes_of "slow_threshold")); (split; [discriminate|intros; exfalso; lia]).
Qed.
