(* ===== verification/Lifecycle.v ===== *)
(** The life of a context (core_ctx_create, core_ctx_destroy, core_start and
    core_stop of nc_core.c): in which order its parts are made and released,
    whichever of them fails.

    What the parts are is modelled in their own files; here they are names, the
    answers say which calls fail, and a run is the list of what was made and
    released. *)

From stdpp Require Import gmap.
From S2P Require Import Prelude State.

(** The pools of mbufs, messages and connections, the context itself, the
    configuration, the server pools, the statistics, the event base, the
    connections to the servers and the listeners. *)
Inductive part := PMbufs | PMsgs | PConns | PCtx | PConf | PPools | PStats | PEvb | PServers | PProxies.

#[export] Instance part_eq_dec : EqDecision part.
Proof. solve_decision. Defined.

Inductive act := Made (p : part) | Released (p : part).

Abbreviation T := (ST (list act)).

Definition made (p : part) : T unit := modify (fun l => l ++ [Made p]).
Definition release (p : part) : T unit := modify (fun l => l ++ [Released p]).

Section Lifecycle.
(** Which calls succeed; [limit] is core_calc_connections. *)
Context (ok : part -> bool) (limit : bool).

(** A call that makes a part whole or not at all. *)
Definition make (p : part) : T bool := if ok p then made p;; mret true else mret false.

(** server_pool_preconnect may fail with some of the connections open. *)
Definition make_partly (p : part) : T bool := made p;; mret (ok p).

(** With several workers the processes are forked after the pools are made
    (Master); what follows is done by each worker. *)
Definition core_ctx_create : T bool :=
  c ← make PCtx;
  if negb c then mret false else
  c ← make PConf;
  if negb c then release PCtx;; mret false else
  c ← make PPools;
  if negb c then release PConf;; release PCtx;; mret false else
  if negb limit then release PPools;; release PConf;; release PCtx;; mret false else
  c ← make PStats;
  if negb c then release PPools;; release PConf;; release PCtx;; mret false else
  c ← make PEvb;
  if negb c then release PStats;; release PPools;; release PConf;; release PCtx;; mret false else
  c ← make_partly PServers;
  if negb c then release PServers;; release PEvb;; release PStats;; release PPools;; release PConf;; release PCtx;; mret false else
  c ← make PProxies;
  if negb c then release PServers;; release PEvb;; release PStats;; release PPools;; release PConf;; release PCtx;; mret false else
  mret true.

Definition core_ctx_destroy : T unit :=
  release PProxies;; release PServers;; release PEvb;; release PStats;; release PPools;; release PConf;; release PCtx.

Definition core_start : T bool :=
  made PMbufs;; made PMsgs;; made PConns;;
  c ← core_ctx_create;
  if (c : bool) then mret true else release PConns;; release PMsgs;; release PMbufs;; mret false.

Definition core_stop : T unit :=
  release PConns;; release PMsgs;; release PMbufs;; core_ctx_destroy.

(** ** What is held *)

(** The parts that are held after a run, the last one made first; releasing a
    part that is not held is an error. *)
Definition held_step (h : option (list part)) (a : act) : option (list part) :=
  match h, a with
  | None, _ => None
  | Some h, Made p => if decide (p ∈ h) then None else Some (p :: h)
  | Some h, Released p => if decide (p ∈ h) then Some (filter (fun q => q <> p) h) else None
  end.
Definition held (l : list act) : option (list part) := foldl held_step (Some []) l.

(** Every part is released after those made later. *)
Definition stack_step (h : option (list part)) (a : act) : option (list part) :=
  match h, a with
  | None, _ => None
  | Some h, Made p => Some (p :: h)
  | Some (q :: h), Released p => if decide (p = q) then Some h else None
  | Some [], Released _ => None
  end.
Definition stacked (l : list act) : option (list part) := foldl stack_step (Some []) l.

Definition everything : list part := [PProxies; PServers; PEvb; PStats; PPools; PConf; PCtx; PConns; PMsgs; PMbufs].

(** core_start makes everything, or holds nothing in the end; whichever call
    fails, what was made is released in the reverse order. *)
Theorem core_start_all_or_nothing : exists r l, core_start [] = Some (r, l) /\ stacked l = Some (if (r : bool) then everything else []).
Proof.
  unfold core_start, core_ctx_create, make, make_partly.
  destruct (ok PCtx); [|by eexists _, _]. destruct (ok PConf); [|by eexists _, _]. destruct (ok PPools); [|by eexists _, _]. destruct limit; [|by eexists _, _]. destruct (ok PStats); [|by eexists _, _].
  destruct (ok PEvb); [|by eexists _, _]. destruct (ok PServers); [|by eexists _, _]. destruct (ok PProxies); by eexists _, _.
Qed.

(** core_stop releases everything, the pools of connections, messages and mbufs
    first: what closing the connections puts back goes to pools that were already
    emptied. *)
Theorem core_stop_releases (l : list act) : held l = Some everything -> exists l', core_stop l = Some (tt, l') /\ held l' = Some [] /\
  exists l1 l2, l' = l1 ++ l2 /\ (Released PConns ∈ l1) /\ (Released PMbufs ∈ l1) /\ (Released PProxies ∈ l2) /\ (Released PServers ∈ l2).
Proof.
  intros Hl. eexists. split; [reflexivity|]. split.
  - unfold held in *. rewrite <- !app_assoc, foldl_app, Hl. vm_compute. reflexivity.
  - exists (((l ++ [Released PConns]) ++ [Released PMsgs]) ++ [Released PMbufs]). exists [Released PProxies; Released PServers; Released PEvb; Released PStats; Released PPools; Released PConf; Released PCtx].
    split; [by rewrite <- !app_assoc|]. rewrite !elem_of_app, !elem_of_cons. tauto.
Qed.
End Lifecycle.
