(* ===== verification/Options.v ===== *)
(** The options of the command line and the course of the main program (nc.c),
    and the blocking socket loops (nc_util.c).

    getopt_long is the C library's: the options it finds are a list, each with
    its argument; atoi of an argument is a parameter, as its result is undefined
    for numbers that do not fit. *)

From S2P Require Import Prelude Mbuf CString World.

(** ** Options *)

(** A file or address: NULL, or a string. *)
Abbreviation cstring := (option (list Z)).

(** struct instance and the flags of the main program. *)
Record instance := mk_instance {
  i_log_level : Z;
  i_log_filename : cstring;
  i_conf_filename : cstring;
  i_stats_port : Z;
  i_stats_interval : Z;
  i_stats_addr : cstring;
  i_mbuf_chunk_size : Z;
  i_pid_filename : cstring;
  i_etcd_conf_filename : cstring;
  i_mq_conf_filename : cstring;
  i_mq_consume_worker_num : Z;
  i_environment_type : Z;
  i_trace_conf_filename : cstring;
  i_core_worker_num : Z;
  i_show_help : bool;
  i_show_version : bool;
  i_test_conf : bool;
  i_daemonize : bool;
  i_describe_stats : bool
}.

Definition NC_LOG_DEFAULT : Z := 5.
Definition STATS_PORT : Z := 22222.
Definition STATS_INTERVAL : Z := 30 * 1000.
Definition MBUF_SIZE : Z := 16384.

Definition nc_set_default_options : instance :=
  mk_instance NC_LOG_DEFAULT None (Some (bytes_of "conf/proxy.yml")) STATS_PORT STATS_INTERVAL (Some (bytes_of "0.0.0.0")) MBUF_SIZE None None None 0 0 None 1 false false false false false.

(** What getopt_long returns, with optarg. *)
Inductive opt :=
| OHelp | OVersion | OTestConf | ODaemonize | OWorkers (arg : list Z) | ODescribe | OVerbose (arg : list Z) | OOutput (arg : list Z) | OConf (arg : list Z)
| OStatsPort (arg : list Z) | OStatsInterval (arg : list Z) | OStatsAddr (arg : list Z) | OPid (arg : list Z) | OMbuf (arg : list Z) | OEtcd (arg : list Z)
| OMq (arg : list Z) | OMqWorkers (arg : list Z) | OEnvironment (arg : list Z) | OTrace (arg : list Z) | OInvalid (optopt : Z).

Section Options.
Context (atoi : list Z -> Z).

(** nc_atoi(optarg, strlen(optarg)), minus one when it is no number. *)
Definition opt_number (arg : list Z) : Z := match nc_atoi (arg ++ [0]) 0 (zlen arg) with Some v => v | None => -1 end.

(** A case of the switch: the instance after it, or NC_ERROR. *)
Definition nc_option (i : instance) (o : opt) : option instance :=
  let '(mk_instance log logf conf port intv addr mbuf pid etcd mq mqn env trace n help ver test daemon desc) := i in
  match o with
  | OHelp => Some (mk_instance log logf conf port intv addr mbuf pid etcd mq mqn env trace n true true test daemon desc)
  | OVersion => Some (mk_instance log logf conf port intv addr mbuf pid etcd mq mqn env trace n help true test daemon desc)
  | OTestConf => Some (mk_instance log logf conf port intv addr mbuf pid etcd mq mqn env trace n help ver true daemon desc)
  | ODaemonize => Some (mk_instance log logf conf port intv addr mbuf pid etcd mq mqn env trace n help ver test true desc)
  | OWorkers arg => if 128 <? atoi arg then None else Some (mk_instance log logf conf port intv addr mbuf pid etcd mq mqn env trace (atoi arg) help ver test daemon desc)
  | ODescribe => Some (mk_instance log logf conf port intv addr mbuf pid etcd mq mqn env trace n help true test daemon true)
  | OVerbose arg => if opt_number arg <? 0 then None else Some (mk_instance (opt_number arg) logf conf port intv addr mbuf pid etcd mq mqn env trace n help ver test daemon desc)
  | OOutput arg => Some (mk_instance log (Some arg) conf port intv addr mbuf pid etcd mq mqn env trace n help ver test daemon desc)
  | OConf arg => Some (mk_instance log logf (Some arg) port intv addr mbuf pid etcd mq mqn env trace n help ver test daemon desc)
  | OStatsPort arg =>
      if opt_number arg <? 0 then None else if negb (nc_valid_port (opt_number arg)) then None
      else Some (mk_instance log logf conf (u16 (opt_number arg)) intv addr mbuf pid etcd mq mqn env trace n help ver test daemon desc)
  | OStatsInterval arg => if opt_number arg <? 0 then None else Some (mk_instance log logf conf port (opt_number arg) addr mbuf pid etcd mq mqn env trace n help ver test daemon desc)
  | OStatsAddr arg => Some (mk_instance log logf conf port intv (Some arg) mbuf pid etcd mq mqn env trace n help ver test daemon desc)
  | OPid arg => Some (mk_instance log logf conf port intv addr mbuf (Some arg) etcd mq mqn env trace n help ver test daemon desc)
  | OMbuf arg =>
      if opt_number arg <=? 0 then None else if (opt_number arg <? MBUF_MIN_SIZE) || (MBUF_MAX_SIZE <? opt_number arg) then None
      else Some (mk_instance log logf conf port intv addr (opt_number arg) pid etcd mq mqn env trace n help ver test daemon desc)
  | OEtcd arg => Some (mk_instance log logf conf port intv addr mbuf pid (Some arg) mq mqn env trace n help ver test daemon desc)
  | OMq arg => Some (mk_instance log logf conf port intv addr mbuf pid etcd (Some arg) mqn env trace n help ver test daemon desc)
  | OMqWorkers arg => if 24 <? atoi arg then None else Some (mk_instance log logf conf port intv addr mbuf pid etcd mq (atoi arg) env trace n help ver test daemon desc)
  | OEnvironment arg => if 2 <? atoi arg then None else Some (mk_instance log logf conf port intv addr mbuf pid etcd mq mqn (atoi arg) trace n help ver test daemon desc)
  | OTrace arg => Some (mk_instance log logf conf port intv addr mbuf pid etcd mq mqn env (Some arg) n help ver test daemon desc)
  | OInvalid _ => None
  end.

Fixpoint nc_get_options (l : list opt) (i : instance) : option instance :=
  match l with
  | [] => Some i
  | o :: l => match nc_option i o with None => None | Some i => nc_get_options l i end
  end.

(** ** The course of main *)

(** What main comes to: the usage and exit(1), the version and exit(0), the test
    of the configuration and its exit status, a start that fails, or the
    run of the loop. *)
Inductive course := Usage | Version (help describe : bool) | TestConf (status : Z) | PreRunFailed | Run (i : instance).

(** [conf_ok]: conf_create returns a configuration; [pre_run]: nc_pre_run. *)
Definition nc_main (conf_ok : cstring -> bool) (pre_run : instance -> bool) (l : list opt) : course :=
  match nc_get_options l nc_set_default_options with
  | None => Usage
  | Some i =>
      if i_show_version i then Version (i_show_help i) (i_describe_stats i)
      else if i_test_conf i then TestConf (if conf_ok (i_conf_filename i) then 0 else 1)
      else if pre_run i then Run i else PreRunFailed
  end.

(** ** What an accepted command line gives *)

Record instance_ok (i : instance) : Prop := {
  io_port : 1 <= i_stats_port i <= 65535;
  io_level : 0 <= i_log_level i;
  io_interval : 0 <= i_stats_interval i;
  io_mbuf : MBUF_MIN_SIZE <= i_mbuf_chunk_size i <= MBUF_MAX_SIZE;
  io_workers : i_core_worker_num i <= 128;
  io_environment : i_environment_type i <= 2
}.

Lemma default_ok : instance_ok nc_set_default_options.
Proof. split; vm_compute; done. Qed.

Lemma nc_option_ok i o i' : instance_ok i -> nc_option i o = Some i' -> instance_ok i'.
Proof.
  intros [H1 H2 H3 H4 H5 H6]. destruct i. simpl in *. unfold MBUF_MIN_SIZE, MBUF_MAX_SIZE in *. destruct o; repeat case_match; intros E; try discriminate E; injection E as <-; constructor; simpl; unfold MBUF_MIN_SIZE, MBUF_MAX_SIZE in *; try lia.
  unfold nc_valid_port, UINT16_MAX in *. unfold u16, wrap. rewrite Z.mod_small by lia. lia.
Qed.

(** An accepted command line leaves every number in its range, so the pool of
    mbufs that mbuf_init makes of it is well-formed. *)
Theorem nc_get_options_ok (l : list opt) (i : instance) : nc_get_options l nc_set_default_options = Some i -> instance_ok i /\ pool_wf (mbuf_init (i_mbuf_chunk_size i)).
Proof.
  intros H. assert (Hok : instance_ok i).
  { revert H. generalize default_ok. generalize nc_set_default_options. induction l as [|o l IH]; intros i0 H0 H; simpl in H; [by injection H as <-|].
    destruct (nc_option i0 o) as [i1|] eqn:E; [|done]. by apply (IH i1); [eapply nc_option_ok|]. }
  split; [done|]. apply mbuf_init_wf, Hok.
Qed.

(** The version wins over the test of the configuration, wherever the options
    are, and neither starts anything. *)
Theorem nc_main_runs (conf_ok : cstring -> bool) (pre_run : instance -> bool) (l : list opt) (i : instance) : nc_main conf_ok pre_run l = Run i ->
  instance_ok i /\ i_show_version i = false /\ i_test_conf i = false /\ pre_run i = true.
Proof.
  unfold nc_main. destruct (nc_get_options l nc_set_default_options) as [i0|] eqn:E; [|done]. apply nc_get_options_ok in E as [E _].
  destruct (i_show_version i0) eqn:E1; [done|]. destruct (i_test_conf i0) eqn:E2; [done|]. destruct (pre_run i0) eqn:E3; [|done]. intros [= <-]. done.
Qed.
End Options.

(** The long names getopt_long knows, with whether they have an argument. *)
Definition long_options : list (list Z * (Z * bool)) :=
  [(bytes_of "help", (104, false)); (bytes_of "version", (86, false)); (bytes_of "test-conf", (116, false)); (bytes_of "daemonize", (100, false)); (bytes_of "describe-stats", (68, false));
   (bytes_of "verbose", (118, true)); (bytes_of "output", (111, true)); (bytes_of "conf-file", (99, true)); (bytes_of "stats-port", (115, true)); (bytes_of "stats-interval", (105, true));
   (bytes_of "stats-addr", (97, true)); (bytes_of "pid-file", (112, true)); (bytes_of "mbuf-size", (109, true)); (bytes_of "etcd-conf", (101, true)); (bytes_of "mq-conf", (77, true)); (bytes_of "trace-log", (76, true))].

(** ** Sending and receiving on a blocking socket *)

(** What a call of send or recv comes to: bytes taken or given, or an error. *)
Inductive io := Moved (n : Z) | IoError (errno : Z).

(** The loop of _nc_sendn over the answers of send, which takes at most what it is
    given: whether it ended with everything sent, and the bytes that were
    sent.  [None]: it still waits for an answer. *)
Fixpoint nc_sendn (left : list Z) (answers : list io) : option (bool * list Z) :=
  match left with
  | [] => Some (true, [])
  | _ =>
      match answers with
      | [] => None
      | IoError e :: answers => if e =? EINTR then nc_sendn left answers else Some (false, [])
      | Moved n :: answers =>
          if n =? 0 then Some (false, [])
          else
            match nc_sendn (drop (Z.to_nat n) left) answers with
            | None => None
            | Some (r, out) => Some (r, take (Z.to_nat n) left ++ out)
            end
      end
  end.

(** The loop of _nc_recvn for [nleft] bytes: the bytes received when it ends, by
    the end of the stream or with all of them, and none after an error. *)
Fixpoint nc_recvn (nleft : nat) (stream : list Z) (answers : list io) : option (option (list Z)) :=
  match nleft with
  | O => Some (Some [])
  | _ =>
      match answers with
      | [] => None
      | IoError e :: answers => if e =? EINTR then nc_recvn nleft stream answers else Some None
      | Moved n :: answers =>
          if n =? 0 then Some (Some [])
          else
            match nc_recvn (nleft - Z.to_nat n) (drop (Z.to_nat n) stream) answers with
            | Some (Some l) => Some (Some (take (Z.to_nat n) stream ++ l))
            | r => r
            end
      end
  end.

(** What send says: a positive number, at most what it was given. *)
Fixpoint takes (left : list Z) (answers : list io) : Prop :=
  match answers with
  | [] => True
  | IoError _ :: answers => takes left answers
  | Moved n :: answers => 0 <= n <= zlen left /\ takes (drop (Z.to_nat n) left) answers
  end.

(** Whatever parts the socket takes and however often it is interrupted, what
    _nc_sendn has sent is a prefix of the data, all of it when it succeeds. *)
Theorem nc_sendn_prefix (data : list Z) (answers : list io) (r : bool) (out : list Z) : takes data answers -> nc_sendn data answers = Some (r, out) ->
  (exists rest, data = out ++ rest) /\ (r = true -> out = data).
Proof.
  revert data r out. induction answers as [|a answers IH]; intros data r out Ht; destruct data as [|x data]; simpl; try done.
  - intros [= <- <-]. split; [by exists []|done].
  - intros [= <- <-]. split; [by exists []|done].
  - destruct a as [n|e]; simpl in Ht.
    + destruct (n =? 0) eqn:En; [intros [= <- <-]; split; [by eexists|done]|]. destruct Ht as [Hn Ht].
      destruct (nc_sendn (drop (Z.to_nat n) (x :: data)) answers) as [[r' out']|] eqn:E; [|done]. intros [= <- <-]. apply IH in E as [[rest Hr] Hall]; [|done].
      split; [exists rest; rewrite <- app_assoc, <- Hr; symmetry; apply take_drop|]. intros Hr'. rewrite Hall by done. apply take_drop.
    + destruct (e =? EINTR); [by apply IH|]. intros [= <- <-]. split; [by eexists|done].
Qed.
